(* ===== verification/_CoqProject ===== *)
-Q . S2P
Prelude.v
Rbt.v
RbtTree.v
RbtInsert.v
RbtRemove.v
RbtDelete.v
RbtInv.v
RbtSpec.v
RbtMain.v
RbtMod.v
RbtIter.v
Bint.v
BintOps.v
BintDigits.v
BintMag.v
BintLen.v
BintArith.v
BintMul.v
BintBits.v
BintBitops.v
BintShift.v
BintBasic.v
BintDiv.v
BintMain.v
Cbuf.v
Hash.v
HashTable.v
HashMain.v
Lists.v
Bytes.v
Strlcpy.v
Heap.v
Strbuf.v
StrbufMain.v
Vector.v
Thr.v
Runq.v
RunqMain.v
Mailbox.v
Waitq.v
WaitqMain.v
Arena.v
ArenaMap.v
ArenaList.v
ArenaOps.v
ArenaMain.v
Slab.v
SlabMem.v
SlabInv.v
SlabStep.v
SlabNew.v
SlabMain.v
Ioq.v
IoqInv.v
IoqStep.v
IoqReach.v
IoqMain.v
Wait.v
IoqWait.v
Asock.v
AsockSys.v
AsockOps.v
AsockStep.v
AsockReach.v
AsockMain.v
Afile.v
AfileInv.v
AfileMain.v
Objects.v
Istr.v
IstrInv.v
IstrGc.v
IstrMain.v
Adns.v
AdnsInv.v
AdnsMain.v
Iocp.v
AfileWin.v
AsockWin.v
AsockWinMain.v
