(* ===== verification/Prelude.v ===== *)
(** * libdlb: a verification library

    libdlb is a C library of intrusive data structures (src/src/) and of
    asynchronous I/O built on them (src/io/).  This development models its core in
    Rocq, as executable functions that follow the C code statement by statement,
    and proves what each part promises.

    ** How C is modelled

    This file holds what the parts share.  A C function on a state [S] is a
    computation [M S A]: it ends normally ([Ok]), hits undefined behaviour
    ([Crash]: a NULL or dangling pointer, an access out of bounds, a division by
    zero, a signed overflow where it is checked), or runs out of the fuel a loop
    was given ([NoFuel]).  [wp m s Q] is total correctness: [m] run from [s] ends
    normally with [Q].  So each theorem stated with [wp] includes termination
    and the absence of undefined behaviour, and no theorem holds because a loop ran
    out of fuel.  Loops over linked structures take the size of the node store (plus
    one) as fuel, which no acyclic path exceeds; [loop]s with a [fuel] argument
    come with a hypothesis that says how much is enough.

    Pointers to nodes are [option positive], and nodes live in stores
    ([gmap positive node]); what the user embeds around a node is a function of
    its address.  Integers are [Z], with the reductions to their width written
    out ([u8], [u16], [u32], [u64], [i32]).  [malloc] is an oracle that may fail
    at any call.  [unsigned int] and [int] have 32 bits, [size_t] 64.

    ** The parts

    Each part has a file for its definitions and, where they are long, others for
    its lemmas and its theorems.

    - Red-black trees, src/src/rbt.c, rbt_iter.c, rbt_range.c.  [Rbt]: nodes with
      their parent links, rotations, repairs, [rbt_insert], [rbt_remove],
      [rbt_find].  [RbtTree]: trees with a focus and their
      representation in the store.  [RbtInsert], [RbtRemove], [RbtDelete]: the
      code computes functions on trees; a removed node keeps its last pointers.
      [RbtInv], [RbtSpec]: these functions keep the red-black invariant and refine
      insertion, removal and lookup in a sorted sequence (class [KeyOrder] is what
      the user's comparison owes).  [RbtMain], [RbtMod]: C1 to C5: refinement,
      balance after each operation and the rounds a search takes, the "modified" flags.  [RbtIter]: neighbours and nearest keys, C7; range
      queries, C9.
    - Big integers, src/src/bint.c.  [Bint], [BintOps]: chains of chunks of 32-bit
      digits, every exported function.  [BintDigits] to [BintDiv]: their value.
      [BintMain]: C10 to C15 and C17: each operation computes the integer it should, or
      reports that memory ran out and leaves its operand as documented, under the
      conditions that each states; runs of the model show that the code needs them.
    - Containers.  [Cbuf]: circular buffers, C19.  [Hash], [HashTable],
      [HashMain]: chained hash tables with rehashing, C21 and C23, for
      fewer than 2^29 nodes and hints of at most 2^30: a larger hint can loop.
      [Lists]: doubly and singly linked lists, C24.  [Bytes]: byte order, C26.
      [Strlcpy]: bounded string copies, C27.  [Heap]: an allocator with
      accounting; [Strbuf], [StrbufMain]: string buffers, C28; [Vector]: vectors,
      C30.
    - Buddy allocator, src/src/arena.c.  [Arena]: one piece of memory, seen as block
      headers and as bytes; what a header means after its bytes were overwritten is
      arbitrary ([junk]).  [ArenaMap], [ArenaList], [ArenaOps]: partitions into
      aligned blocks, free lists, splitting and joining.  [ArenaMain]: creation,
      allocation, freeing, reallocation, counting and what the user may write, C38.
      The memory is smaller than 2 GB, and its size is less than 24 modulo 32:
      otherwise the code takes the rest for a block, which an example shows.
    - Slab allocator, src/src/slab.c.  [Slab]: slabs, objects and list nodes are at
      byte addresses, in memory that [malloc] gives out (a parameter; [malloc_spec]
      is what it promises); memory holds typed cells, and a write destroys the cells
      it overlaps, so what the user does to an object may not harm the allocator
      only because the layout keeps them apart.  [SlabMem], [SlabInv],
      [SlabStep], [SlabNew]: cells, the invariant of the slabs and what each
      operation does to it.  [SlabMain]: refinement of the set of objects in use,
      C18, for objects of up to 2^28 - 64 bytes; an example shows larger ones
      overflow.
    - What an allocator of objects promises to its users.  [Objects]: the class
      [ObjPool] of its operations and [ObjPoolLaws], the contract; the slab allocator is
      an instance.
    - String pool, src/src/istr.c, on any allocator that keeps that contract, with
      the text in a buffer of [Strbuf].  [Istr]: the operations; [IstrInv]: the
      invariant of the descriptors and of the text they point into; [IstrGc]: the
      collector, which rebuilds the list of the descriptors and then the text;
      [IstrMain]: a pool refines a map from references to strings, C29.  The text is
      shorter than 2^31 bytes, as an [int] holds its offsets.
    - Concurrency, src/io/.  [Thr]: event variables over a mutex and a condition
      variable, C31.  [Runq], [RunqMain]: the run queue and its worker threads as
      a step relation in which each critical section is one step, and calling a task
      another: tasks are taken in order and called exactly once (C32), no wakeup is lost and the pool settles
      (C33), dispatching by hand (C34).  [Mailbox]: flags with one asynchronous
      waiter, C35, whose set is not empty.  [Waitq], [WaitqMain]: timers, C36; they are kept in the
      red-black tree of [Rbt], navigated with [RbtIter], and handed to the run queue
      of [Runq], whose lemmas their proofs use.
    - I/O queue, src/io/ioq_linux.c.  [Ioq]: waits for descriptors, the list of
      modifications, notification through a pipe, on the run queue of [Runq] and
      the timers of [Waitq]; epoll is a class, [EpollLaws] says what its manual page
      does.  [IoqInv]: the threads as a step relation in which each critical
      section is one step; one thread runs the loop.  [IoqStep], [IoqReach]: the
      invariant and the steps that keep it.  [IoqMain]: each wait is completed once
      and none is forgotten, C6; the dispatch loop ends, creation undoes what
      fails, C16.  Waits are for some event: an example shows what a wait for none
      leaves behind.
    - What an I/O queue promises to its users.  [Wait]: the class [WaitQueue] of
      its operations, as a file or a socket sees them, and [WaitQueueLaws], the
      contract.  [IoqWait]: the queue of [Ioq] among its threads is an instance.
    - Sockets, src/io/asock_posix.c, on any queue that keeps the contract.  [Asock]:
      the operations; the system calls are a class.  [AsockSys]: clients, callbacks
      and the dispatcher as steps, and the invariant; [AsockOps], [AsockStep],
      [AsockReach]: what keeps it.  [AsockMain]: each
      request is answered once, C39; descriptors are neither leaked nor closed
      twice, C40.  A client connects or listens only when nothing is outstanding,
      and leaves alone the socket that an accept is to fill.
    - Files, src/io/afile_posix.c, on the same contract.  [Afile]: the operations;
      read(2) and write(2) are a class, whose sizes fit an [int].  [AfileInv]: the
      callbacks of the queue as steps, and the invariant.  [AfileMain]: each read and
      write is answered once, C22, for cancellations that find an operation
      outstanding; what becomes of one that does not, and of the result of a write.
    - Name lookup, src/io/adns.c, on the lists of [Lists], the event of [Thr] and the
      run queue of [Runq]; getaddrinfo(3) is a class.  [Adns]: the operations, and the
      worker and the clients as steps.  [AdnsInv]: the invariant, and what each
      critical section does to it.  [AdnsMain]: each request is answered once, the
      library comes to rest, and answers have one owner each, C37; a client does not
      cancel a request while the worker writes its answer: an example shows what
      becomes of that, and of a request made again during its lookup.

    - The Windows variants, src/io/ioq_windows.c, afile_windows.c and
      asock_windows.c, on the run queue and the timers of the others.  [Iocp]: the
      queue on a completion port, which is a class; what one iteration does, C25; what
      the threads that dispatch the queue do to the operations of one user, as steps,
      and the invariant that keeps each operation in one place.  [AfileWin]: files,
      C20, where an operation that ends at once is for a handle that posts no packet
      for it: an example shows what becomes of the others.  [AsockWin]: sockets, the operations
      and the steps; Winsock is a class.  [AsockWinMain]: the invariant, and C8:
      each request is answered once, by the function it was given, and each open
      socket has one owner.  A connect that gets no socket is left out, unless its
      task is set up for the same function already: examples show what it does.

    ** What is not modelled

    net.c, syserr.h, handle.h and clock.c wrap system calls, and winapi.h the headers
    of Windows.  containers.h and protothread.h are macros of the user.  tests/ holds
    programs that exercise the library. *)
From stdpp Require Export base gmap list sorting.
From Stdlib Require Export ZArith Lia.

#[global] Open Scope Z_scope.

(** * Outcomes of C code

    A run of a C function ends normally, hits undefined behaviour (a NULL or
    dangling dereference, a division by zero, an out-of-range array access), or
    exhausts the fuel a loop was given.  The last two are kept apart so that a
    theorem about a crash is never about fuel. *)
Inductive res (A : Type) : Type :=
  | Ok (a : A)
  | Crash
  | NoFuel.
Arguments Ok {A} a.
Arguments Crash {A}.
Arguments NoFuel {A}.

(** A computation over a state [S]. *)
Definition M (S A : Type) : Type := S -> res (S * A).

Definition ret {S A} (a : A) : M S A := fun s => Ok (s, a).
Definition bind {S A B} (m : M S A) (f : A -> M S B) : M S B :=
  fun s =>
    match m s with
    | Ok (s', a) => f a s'
    | Crash => Crash
    | NoFuel => NoFuel
    end.

Declare Scope c_scope.
Delimit Scope c_scope with c.
Notation "x ← y ; z" := (bind y (fun x => z))
  (at level 20, y at level 100, z at level 200, only parsing) : c_scope.
Notation "' x ← y ; z" := (bind y (fun x => z))
  (at level 20, x pattern, y at level 100, z at level 200, only parsing) : c_scope.
Notation "y ;; z" := (bind y (fun _ => z))
  (at level 100, z at level 200, only parsing, right associativity) : c_scope.
#[global] Open Scope c_scope.

Definition crash {S A} : M S A := fun _ => Crash.
Definition no_fuel {S A} : M S A := fun _ => NoFuel.
Definition get {S} : M S S := fun s => Ok (s, s).
Definition put {S} (s : S) : M S unit := fun _ => Ok (s, tt).
Definition gets {S A} (f : S -> A) : M S A := fun s => Ok (s, f s).
Definition modify {S} (f : S -> S) : M S unit := fun s => Ok (f s, tt).

(** A value that the code needs to be there. *)
Definition need {S A} (o : option A) : M S A :=
  match o with Some a => ret a | None => crash end.

(** [if (b) m;] *)
Definition when {S} (b : bool) (m : M S unit) : M S unit :=
  if b then m else ret tt.

(** A C loop: the body returns [inl a] to go round again with the loop
    variables [a] and [inr b] to leave the loop with [b]. *)
Fixpoint loop {S A B} (fuel : nat) (body : A -> M S (A + B)) (a : A) : M S B :=
  match fuel with
  | O => no_fuel
  | Datatypes.S n =>
      r ← body a;
      match r with
      | inl a' => loop n body a'
      | inr b => ret b
      end
  end.

(** * What has been acquired *)
Definition acquire {R} (r : R) : M (list R) unit := modify (cons r).
Definition release {R} `{EqDecision R} (r : R) : M (list R) unit :=
  l ← get; if decide (r ∈ l) then put (filter (fun x => x <> r) l) else crash.

(** * Total-correctness triples

    [wp m s Q]: run from [s], [m] ends normally, with a result and a final
    state satisfying [Q]. *)
Definition wp {S A} (m : M S A) (s : S) (Q : A -> S -> Prop) : Prop :=
  match m s with
  | Ok (s', a) => Q a s'
  | _ => False
  end.

Section wp.
Context {S : Type}.

Lemma wp_ret {A} (a : A) (s : S) Q : Q a s -> wp (ret a) s Q.
Proof. done. Qed.

Lemma wp_bind {A B} (m : M S A) (f : A -> M S B) s Q :
  wp m s (fun a s' => wp (f a) s' Q) -> wp (bind m f) s Q.
Proof.
  unfold wp, bind. destruct (m s) as [[s' a]| |]; done.
Qed.

Lemma wp_mono {A} (m : M S A) s (P Q : A -> S -> Prop) :
  wp m s P -> (forall a s', P a s' -> Q a s') -> wp m s Q.
Proof. unfold wp. destruct (m s) as [[s' a]| |]; eauto. Qed.

Lemma wp_run {A} (m : M S A) s Q :
  wp m s Q <-> exists s' a, m s = Ok (s', a) /\ Q a s'.
Proof.
  unfold wp. destruct (m s) as [[s' a]| |]; split.
  - eauto.
  - intros (? & ? & [= -> ->] & ?); done.
  - done.
  - intros (? & ? & ? & ?); done.
  - done.
  - intros (? & ? & ? & ?); done.
Qed.

Lemma wp_result {A} (m : M S A) s s' a P : wp m s P -> m s = Ok (s', a) -> P a s'.
Proof. unfold wp. intros H E. by rewrite E in H. Qed.

(** A call ends, and does not go wrong. *)
Definition ends {A} (m : M S A) (s : S) : Prop := exists s' a, m s = Ok (s', a).

Lemma ends_wp {A} (m : M S A) s P : wp m s P -> ends m s.
Proof. intros (s' & a & E & _)%wp_run. by exists s', a. Qed.

Lemma wp_get (s : S) Q : Q s s -> wp get s Q.
Proof. done. Qed.
Lemma wp_put (s s' : S) Q : Q tt s' -> wp (put s') s Q.
Proof. done. Qed.
Lemma wp_gets {A} (f : S -> A) s Q : Q (f s) s -> wp (gets f) s Q.
Proof. done. Qed.
Lemma wp_modify f (s : S) Q : Q tt (f s) -> wp (modify f) s Q.
Proof. done. Qed.
Lemma wp_need {A} (o : option A) a (s : S) Q :
  o = Some a -> Q a s -> wp (need o) s Q.
Proof. by intros ->. Qed.

Lemma wp_loop_step {A B} n (body : A -> M S (A + B)) a s Q :
  wp (body a) s (fun r s' =>
    match r with
    | inl a' => wp (loop n body a') s' Q
    | inr b => Q b s'
    end) ->
  wp (loop (Datatypes.S n) body a) s Q.
Proof.
  intros H. simpl. apply wp_bind. eapply wp_mono; [exact H|].
  intros [a'|b] s' ?; done.
Qed.

(** The loop rule: an invariant [I] indexed by a decreasing measure. *)
Lemma wp_loop {A B} (I : nat -> A -> S -> Prop) (body : A -> M S (A + B)) Q :
  (forall k a s, I k a s ->
     wp (body a) s (fun r s' =>
       match r with
       | inl a' => exists k', (k' < k)%nat /\ I k' a' s'
       | inr b => Q b s'
       end)) ->
  forall fuel k a s, (k < fuel)%nat -> I k a s -> wp (loop fuel body a) s Q.
Proof.
  intros Hbody fuel. induction fuel as [|n IH]; intros k a s Hk HI; [lia|].
  apply wp_loop_step. eapply wp_mono; [by apply Hbody|].
  intros [a'|b] s'; [|done]. intros (k' & Hk' & HI'). eapply (IH k'); [lia|done].
Qed.
End wp.

#[global] Arguments loop : simpl never.

(** Unfolds a [bind] at the head of the goal. *)
Ltac wp_bind := apply wp_bind.

(** * Machine integers *)
Definition u8 (x : Z) : Z := x mod 2 ^ 8.
Definition u16 (x : Z) : Z := x mod 2 ^ 16.
Definition u32 (x : Z) : Z := x mod 2 ^ 32.
Definition u64 (x : Z) : Z := x mod 2 ^ 64.
(** Conversion to a 32-bit [int] (two's complement, as gcc defines it). *)
Definition i32 (x : Z) : Z := (x + 2 ^ 31) mod 2 ^ 32 - 2 ^ 31.

Lemma u64_small x : 0 <= x < 2 ^ 64 -> u64 x = x.
Proof. intros H. by apply Z.mod_small. Qed.
Lemma u32_small x : 0 <= x < 2 ^ 32 -> u32 x = x.
Proof. intros H. by apply Z.mod_small. Qed.
Lemma i32_small x : - 2 ^ 31 <= x < 2 ^ 31 -> i32 x = x.
Proof. intros H. unfold i32. rewrite Z.mod_small by lia. lia. Qed.

(** The C truth value of an integer. *)
Definition truth (x : Z) : bool := negb (x =? 0).

Definition b2n (b : bool) : nat := if b then 1%nat else 0%nat.

(** * Arrays

    A region of memory is the list of its cells; reading and writing outside it
    has no result. *)
Definition read_at {A} (off n : Z) (r : list A) : option (list A) :=
  if (0 <=? off) && (0 <=? n) && (off + n <=? Z.of_nat (length r))
  then Some (take (Z.to_nat n) (drop (Z.to_nat off) r)) else None.

Definition write_at {A} (off : Z) (bs r : list A) : option (list A) :=
  if (0 <=? off) && (off + Z.of_nat (length bs) <=? Z.of_nat (length r))
  then Some (take (Z.to_nat off) r ++ bs ++ drop (Z.to_nat off + length bs) r) else None.

Lemma read_at_Some {A} off n (r : list A) :
  0 <= off -> 0 <= n -> off + n <= Z.of_nat (length r) ->
  read_at off n r = Some (take (Z.to_nat n) (drop (Z.to_nat off) r)).
Proof.
  intros. unfold read_at. destruct (Z.leb_spec 0 off), (Z.leb_spec 0 n),
    (Z.leb_spec (off + n) (Z.of_nat (length r))); done || lia.
Qed.

Lemma write_at_Some {A} off (bs r : list A) :
  0 <= off -> off + Z.of_nat (length bs) <= Z.of_nat (length r) ->
  write_at off bs r = Some (take (Z.to_nat off) r ++ bs ++ drop (Z.to_nat off + length bs) r).
Proof.
  intros. unfold write_at. destruct (Z.leb_spec 0 off),
    (Z.leb_spec (off + Z.of_nat (length bs)) (Z.of_nat (length r))); done || lia.
Qed.

Lemma write_at_app {A} off (l1 old l2 bs : list A) :
  Z.of_nat (length l1) = off -> length old = length bs ->
  write_at off bs (l1 ++ old ++ l2) = Some (l1 ++ bs ++ l2).
Proof.
  intros <- Hl. rewrite write_at_Some by (rewrite ?length_app; lia). rewrite Nat2Z.id.
  by rewrite take_app_length, <- drop_drop, drop_app_length, <- Hl, drop_app_length.
Qed.

Lemma read_at_app {A} off n (l1 mid l2 : list A) :
  Z.of_nat (length l1) = off -> Z.of_nat (length mid) = n ->
  read_at off n (l1 ++ mid ++ l2) = Some mid.
Proof.
  intros <- <-. rewrite read_at_Some by (rewrite ?length_app; lia).
  by rewrite !Nat2Z.id, drop_app_length, take_app_length.
Qed.

(** A list cut in three. *)
Lemma cut3 {A} (l : list A) a n : (a + n <= length l)%nat ->
  exists l1 mid l2, l = l1 ++ mid ++ l2 /\ length l1 = a /\ length mid = n.
Proof.
  intros Hl. exists (take a l), (take n (drop a l)), (drop n (drop a l)).
  rewrite !take_drop, !length_take, length_drop. split_and!; [done|lia|lia].
Qed.

Lemma length_write_at {A} off (bs r r' : list A) :
  write_at off bs r = Some r' -> length r' = length r.
Proof.
  unfold write_at. destruct (Z.leb_spec 0 off),
    (Z.leb_spec (off + Z.of_nat (length bs)) (Z.of_nat (length r))); simpl; intros [= <-].
  rewrite !length_app, length_take, length_drop. lia.
Qed.

Lemma lookup_write_at {A} off (bs r r' : list A) i :
  write_at off bs r = Some r' ->
  r' !! i = if decide (Z.to_nat off <= i < Z.to_nat off + length bs)%nat
            then bs !! (i - Z.to_nat off)%nat else r !! i.
Proof.
  unfold write_at. destruct (Z.leb_spec 0 off),
    (Z.leb_spec (off + Z.of_nat (length bs)) (Z.of_nat (length r))); simpl; intros [= <-].
  destruct (decide _) as [Hi|Hi].
  - rewrite lookup_app_r by (rewrite length_take; lia).
    rewrite lookup_app_l by (rewrite length_take; lia).
    f_equal. rewrite length_take. lia.
  - destruct (decide (i < Z.to_nat off)%nat).
    + rewrite lookup_app_l by (rewrite length_take; lia). by apply lookup_take_lt.
    + rewrite !lookup_app_r by (rewrite ?length_take, ?length_app; lia).
      rewrite lookup_drop. f_equal. rewrite length_take. lia.
Qed.

(** ** Bits *)
Lemma truth_spec x : truth x = true <-> x <> 0.
Proof. unfold truth. destruct (Z.eqb_spec x 0); simpl; split; congruence. Qed.
Lemma truth_false x : truth x = false <-> x = 0.
Proof. unfold truth. destruct (Z.eqb_spec x 0); simpl; split; congruence. Qed.

Lemma truth_lor x y : truth (Z.lor x y) = truth x || truth y.
Proof.
  apply Bool.eq_iff_eq_true. rewrite orb_true_iff, !truth_spec, Z.lor_eq_0_iff.
  destruct (decide (x = 0)), (decide (y = 0)); tauto.
Qed.

Lemma truth_land_bit f k : 0 <= k -> truth (Z.land f (2 ^ k)) = Z.testbit f k.
Proof.
  intros Hk. unfold truth. destruct (Z.testbit f k) eqn:E.
  - apply negb_true_iff, Z.eqb_neq. intros H.
    assert (Z.testbit (Z.land f (2 ^ k)) k = false) as H' by by rewrite H, Z.bits_0.
    rewrite Z.land_spec, E, Z.pow2_bits_true in H' by lia. done.
  - apply negb_false_iff, Z.eqb_eq. apply Z.bits_inj'. intros n Hn.
    rewrite Z.land_spec, Z.bits_0. destruct (decide (n = k)) as [->|].
    + by rewrite E.
    + rewrite Z.pow2_bits_false by lia. apply andb_false_r.
Qed.

Lemma testbit_join k d v n : 0 <= d < 2 ^ k -> 0 <= k -> 0 <= n ->
  Z.testbit (d + 2 ^ k * v) n = if n <? k then Z.testbit d n else Z.testbit v (n - k).
Proof.
  intros Hd Hk Hn. destruct (Z.ltb_spec n k) as [Hl|Hl].
  - rewrite <- (Z.mod_pow2_bits_low (d + 2 ^ k * v) k n) by lia.
    rewrite Z.mul_comm, Z_mod_plus_full. by rewrite Z.mod_small.
  - replace n with ((n - k) + k) at 1 by lia. rewrite <- Z.div_pow2_bits by lia.
    rewrite Z.mul_comm, Z.div_add, Z.div_small by lia. done.
Qed.

Lemma testbit_high k d n : 0 <= d < 2 ^ k -> k <= n -> 0 <= k -> Z.testbit d n = false.
Proof. intros Hd Hn Hk. rewrite <- (Z.mod_small d (2 ^ k)) by done. apply Z.mod_pow2_bits_high. lia. Qed.

Lemma setbit_add a n : 0 <= n -> Z.setbit a n = a + (if Z.testbit a n then 0 else 2 ^ n).
Proof.
  intros Hn. destruct (Z.testbit a n) eqn:E.
  - rewrite Z.add_0_r. apply Z.bits_inj'. intros k Hk. rewrite Z.setbit_eqb by done.
    by destruct (Z.eqb_spec n k) as [<-|].
  - unfold Z.setbit. rewrite Z.shiftl_1_l. symmetry. rewrite <- Z.lxor_lor.
    + apply Z.add_nocarry_lxor. apply Z.bits_inj'. intros k Hk. rewrite Z.land_spec, Z.bits_0.
      destruct (decide (k = n)) as [->|]; [by rewrite E|]. rewrite Z.pow2_bits_false by lia. apply andb_false_r.
    + apply Z.bits_inj'. intros k Hk. rewrite Z.land_spec, Z.bits_0.
      destruct (decide (k = n)) as [->|]; [by rewrite E|]. rewrite Z.pow2_bits_false by lia. apply andb_false_r.
Qed.

Lemma clearbit_sub a n : 0 <= n -> Z.clearbit a n = a - (if Z.testbit a n then 2 ^ n else 0).
Proof.
  intros Hn. assert (Z.testbit (Z.clearbit a n) n = false) as E by by rewrite Z.clearbit_eq.
  destruct (Z.testbit a n) eqn:Ea.
  - assert (Z.setbit (Z.clearbit a n) n = a) as Es.
    { apply Z.bits_inj'. intros k Hk. rewrite Z.setbit_eqb, Z.clearbit_eqb by done.
      destruct (Z.eqb_spec n k) as [<-|]; [done|]. by rewrite andb_true_r. }
    rewrite setbit_add, E in Es by done. lia.
  - rewrite Z.sub_0_r. apply Z.bits_inj'. intros k Hk. rewrite Z.clearbit_eqb.
    destruct (Z.eqb_spec n k) as [<-|]; [by rewrite Ea|]. by rewrite andb_true_r.
Qed.

(** * Lists *)
Lemma filter_all {A} (P : A -> Prop) `{!forall x, Decision (P x)} l :
  Forall P l -> filter P l = l.
Proof. induction 1; [done|]. rewrite filter_cons_True by done. by f_equal. Qed.

Lemma filter_none {A} (P : A -> Prop) `{!forall x, Decision (P x)} l :
  Forall (fun x => ~ P x) l -> filter P l = [].
Proof. induction 1; [done|]. by rewrite filter_cons_False. Qed.

Lemma StronglySorted_filter {A} (R : A -> A -> Prop) P `{!forall x, Decision (P x)} l :
  StronglySorted R l -> StronglySorted R (filter P l).
Proof.
  induction 1 as [|x l Hs IH Hf]; [constructor|].
  destruct (decide (P x)).
  - rewrite filter_cons_True by done. apply StronglySorted_cons. split; [|done].
    apply Forall_forall. intros y [_ Hy]%list_elem_of_filter.
    rewrite Forall_forall in Hf. by apply Hf.
  - by rewrite filter_cons_False.
Qed.

Lemma app_cons_eq_NoDup {A} (l1 l2 k1 k2 : list A) x :
  NoDup (l1 ++ x :: l2) -> l1 ++ x :: l2 = k1 ++ x :: k2 -> k1 = l1 /\ k2 = l2.
Proof.
  revert k1. induction l1 as [|y l1 IH]; intros [|z k1]; cbn [app]; intros Hnd E.
  - by simplify_eq.
  - simplify_eq. apply NoDup_cons in Hnd as [[] _]. set_solver.
  - simplify_eq. apply NoDup_cons in Hnd as [[] _]. set_solver.
  - simplify_eq. apply NoDup_cons in Hnd as [_ Hnd].
    by destruct (IH k1 Hnd) as [-> ->].
Qed.

#[export] Instance app_subseteq_proper {A} :
  Proper ((⊆) ==> (⊆) ==> (⊆)) (@app A).
Proof. intros l1 l2 H12 k1 k2 Hk. set_solver. Qed.

Lemma sum_mid {A} (f : A -> nat) l1 l2 a : sum_list_with f (l1 ++ a :: l2) = (sum_list_with f (l1 ++ l2) + f a)%nat.
Proof. rewrite !sum_list_with_app. simpl. lia. Qed.
Lemma sum_snoc {A} (f : A -> nat) l a : sum_list_with f (l ++ [a]) = (sum_list_with f l + f a)%nat.
Proof. by rewrite sum_mid, app_nil_r. Qed.

Lemma sum_pos_split {A} (f : A -> nat) l : (0 < sum_list_with f l)%nat -> exists l1 a l2, l = l1 ++ a :: l2 /\ (0 < f a)%nat.
Proof.
  induction l as [|b l IH]; simpl; [lia|]. intros H. destruct (decide (0 < f b)%nat) as [Hb|Hb].
  - by exists [], b, l.
  - destruct IH as (l1 & a & l2 & -> & Ha); [lia|]. by exists (b :: l1), a, l2.
Qed.

(** * Things that have one owner each *)
Definition owners {K V} `{!EqDecision V, !Countable V} (X : gset V) (f : K -> option V) : Prop :=
  (forall i, i ∈ X <-> exists k, f k = Some i) /\ (forall k k' i, f k = Some i -> f k' = Some i -> k = k').

Section owners.
Context {K V} `{EqDecision K, !EqDecision V, !Countable V} (X : gset V) (f : K -> option V) (H : owners X f).

Lemma owners_ext f' : (forall k, f' k = f k) -> owners X f'.
Proof. destruct H as [H1 H2]. intros E. split; [intros i|intros k k' i]; rewrite ?E; [|by apply H2]. rewrite H1. by setoid_rewrite E. Qed.
Lemma owners_alloc f' k i : i ∉ X -> f k = None -> f' k = Some i -> (forall k', k' <> k -> f' k' = f k') -> owners ({[i]} ∪ X) f'.
Proof.
  destruct H as [H1 H2]. intros Hi Hk Ek E. split.
  - intros j. rewrite elem_of_union, elem_of_singleton, H1. split.
    + intros [->|[k' Hk']]; [by exists k|]. exists k'. rewrite E; [done|]. intros ->. congruence.
    + intros [k' Hk']. destruct (decide (k' = k)) as [->|Hn]; [left; congruence|right]. exists k'. by rewrite <- E.
  - intros a b j Ha Hb. destruct (decide (a = k)) as [->|Hna], (decide (b = k)) as [->|Hnb]; [done|..].
    + rewrite E in Hb by done. destruct Hi. apply H1. exists b. congruence.
    + rewrite E in Ha by done. destruct Hi. apply H1. exists a. congruence.
    + rewrite E in Ha, Hb by done. by eapply H2.
Qed.
Lemma owners_free f' k i : f k = Some i -> f' k = None -> (forall k', k' <> k -> f' k' = f k') -> owners (X ∖ {[i]}) f'.
Proof.
  destruct H as [H1 H2]. intros Hk Ek E. split.
  - intros j. rewrite elem_of_difference, elem_of_singleton, H1. split.
    + intros [[k' Hk'] Hj]. exists k'. rewrite E; [done|]. intros ->. congruence.
    + intros [k' Hk']. destruct (decide (k' = k)) as [->|Hn]; [congruence|]. rewrite E in Hk' by done.
      split; [by exists k'|]. intros ->. by rewrite (H2 k' k i) in Hn.
  - intros a b j Ha Hb. destruct (decide (a = k)) as [->|Hna], (decide (b = k)) as [->|Hnb]; [done|congruence..|].
    rewrite E in Ha, Hb by done. by eapply H2.
Qed.
Lemma owners_move f' a b : a <> b -> f b = None -> f' a = None -> f' b = f a ->
  (forall k, k <> a -> k <> b -> f' k = f k) -> owners X f'.
Proof.
  destruct H as [H1 H2]. intros Hab Eb Ea' Eb' E.
  set (g k := if decide (k = a) then b else if decide (k = b) then a else k).
  assert (forall k, f' k = f (g k)) as Eg.
  { intros k. unfold g. repeat case_decide; subst; rewrite ?Ea', ?Eb', ?Eb; try done. by apply E. }
  assert (forall k, g (g k) = k) as Gg by (intros k; unfold g; repeat case_decide; congruence).
  split.
  - intros i. rewrite H1. split; intros [k Hk]; exists (g k); [by rewrite Eg, Gg|by rewrite <- Eg].
  - intros k k' i Hk Hk'. rewrite Eg in Hk, Hk'. rewrite <- (Gg k), <- (Gg k'). f_equal. by eapply H2.
Qed.
End owners.
