(* ===== verification/Rbt.v ===== *)
(** Model of src/rbt.h and src/rbt.c: the intrusive red-black tree.

    The nodes of a tree live in a store [nodes] from addresses to
    [struct rbt_node]; every link, the parent link included, is an explicit
    pointer, and every function reads and writes the store in the order the
    C code does.  What the user embeds around a node (its key) is not touched by
    this code: the comparison callback is a function of the key and of the
    node's address. *)
From S2P Require Import Prelude.

Record rbt_node := mk_node {
  flags : Z;
  left : option positive;
  right : option positive;
  parent : option positive;
}.

(** The tree ([root]) and the store its nodes live in. *)
Record rbt := mk_rbt {
  root : option positive;
  nodes : gmap positive rbt_node;
}.

Definition RBT_FLAG_RED : Z := 1.
Definition RBT_FLAG_MODIFIED : Z := 2.

(** * Access to the store *)
Definition ld {A} (f : rbt_node -> A) (p : option positive) : M rbt A :=
  l ← need p;
  s ← get;
  n ← need (nodes s !! l);
  ret (f n).

Definition upd (f : rbt_node -> rbt_node) (p : option positive) : M rbt unit :=
  l ← need p;
  s ← get;
  n ← need (nodes s !! l);
  put (mk_rbt (root s) (<[l := f n]> (nodes s))).

Definition with_flags (v : Z) (n : rbt_node) : rbt_node :=
  mk_node v (left n) (right n) (parent n).
Definition with_left (v : option positive) (n : rbt_node) : rbt_node :=
  mk_node (flags n) v (right n) (parent n).
Definition with_right (v : option positive) (n : rbt_node) : rbt_node :=
  mk_node (flags n) (left n) v (parent n).
Definition with_parent (v : option positive) (n : rbt_node) : rbt_node :=
  mk_node (flags n) (left n) (right n) v.

Definition set_flags p v := upd (with_flags v) p.
Definition set_left p v := upd (with_left v) p.
Definition set_right p v := upd (with_right v) p.
Definition set_parent p v := upd (with_parent v) p.
Definition set_root (v : option positive) : M rbt unit :=
  modify (fun s => mk_rbt v (nodes s)).

(** [if (p) p->parent = v;] *)
Definition set_parent_if (p v : option positive) : M rbt unit :=
  match p with Some _ => set_parent p v | None => ret tt end.

Definition MAKE_RED p : M rbt unit :=
  upd (fun n => with_flags (Z.lor (flags n) RBT_FLAG_RED) n) p.
Definition MAKE_BLACK p : M rbt unit :=
  upd (fun n => with_flags (Z.land (flags n) (Z.lnot RBT_FLAG_RED)) n) p.
Definition MARK_MODIFIED p : M rbt unit :=
  upd (fun n => with_flags (Z.lor (flags n) RBT_FLAG_MODIFIED) n) p.

Definition RBT_IS_RED (p : option positive) : M rbt bool :=
  match p with
  | None => ret false
  | Some _ => f ← ld flags p; ret (truth (Z.land f RBT_FLAG_RED))
  end.

Definition RBT_IS_BLACK (p : option positive) : M rbt bool :=
  match p with
  | None => ret true
  | Some _ => f ← ld flags p; ret (negb (truth (Z.land f RBT_FLAG_RED)))
  end.

(** Fuel for a walk along a path of the tree: no path is longer than the
    number of nodes in the store. *)
Definition path_fuel : M rbt nat := gets (fun s => Datatypes.S (size (nodes s))).

Definition rbt_init (nodes0 : gmap positive rbt_node) : rbt := mk_rbt None nodes0.

(** * Rotations and helpers *)
Definition fix_downptr (p old n : option positive) : M rbt unit :=
  match p with
  | Some _ =>
      l ← ld left p;
      if decide (l = old) then set_left p n else set_right p n
  | None => set_root n
  end.

Definition rotate_left (n : option positive) : M rbt unit :=
  p ← ld parent n;
  r ← ld right n;
  rl ← ld left r;
  set_right n rl;;
  nr ← ld right n;
  set_parent_if nr n;;
  set_left r n;;
  set_parent n r;;
  set_parent r p;;
  rp ← ld parent r;
  fix_downptr rp n r.

Definition rotate_right (n : option positive) : M rbt unit :=
  p ← ld parent n;
  l ← ld left n;
  lr ← ld right l;
  set_left n lr;;
  nl ← ld left n;
  set_parent_if nl n;;
  set_right l n;;
  set_parent n l;;
  set_parent l p;;
  lp ← ld parent l;
  fix_downptr lp n l.

Definition sibling (n : option positive) : M rbt (option positive) :=
  p ← ld parent n;
  l ← ld left p;
  if decide (n = l) then ld right p else ld left p.

Definition grandparent (n : option positive) : M rbt (option positive) :=
  p ← ld parent n;
  ld parent p.

(** * Insertion *)

(** One round of the recolouring loop: [inr None] is the [return]s,
    [inr (Some n)] the [break]. *)
Definition repair_insert_step (n : option positive) :
    M rbt (option positive + option (option positive)) :=
  p ← ld parent n;
  match p with
  | None => MAKE_BLACK n;; ret (inr None)
  | Some _ =>
      b ← RBT_IS_BLACK p;
      if b then ret (inr None)
      else
        u ← sibling p;
        bu ← RBT_IS_BLACK u;
        if bu then ret (inr (Some n))
        else
          MAKE_BLACK u;;
          MAKE_BLACK p;;
          g ← grandparent n;
          MAKE_RED g;;
          g' ← grandparent n;
          ret (inl g')
  end.

(** The end of the repair: [n] and its parent descend in the same direction. *)
Definition repair_insert_finish (n : option positive) : M rbt unit :=
  p ← ld parent n;
  MAKE_BLACK p;;
  g ← grandparent n;
  MAKE_RED g;;
  pl ← ld left p;
  g ← grandparent n;
  if decide (n = pl) then rotate_right g else rotate_left g.

(** What follows the loop: straighten the path, then finish. *)
Definition repair_insert_rotate (n : option positive) : M rbt unit :=
  p ← ld parent n;
  pl ← ld left p;
  pr ← ld right p;
  g ← grandparent n;
  gl ← ld left g;
  gr ← ld right g;
  n ← (if decide (n = pl /\ p = gr) then
         rotate_right p;; ld right n
       else if decide (n = pr /\ p = gl) then
         rotate_left p;; ld left n
       else ret n);
  repair_insert_finish n.

Definition repair_after_insert (n : option positive) : M rbt unit :=
  fuel ← path_fuel;
  r ← loop fuel repair_insert_step n;
  match r with
  | None => ret tt
  | Some n => repair_insert_rotate n
  end.

(** The places a [struct rbt_node **] can point to: the root of the tree or a
    child link of a node. *)
Inductive link := RootLink | LeftLink (p : option positive) | RightLink (p : option positive).

Definition ld_link (k : link) : M rbt (option positive) :=
  match k with
  | RootLink => gets root
  | LeftLink p => ld left p
  | RightLink p => ld right p
  end.

Definition st_link (k : link) (v : option positive) : M rbt unit :=
  match k with
  | RootLink => set_root v
  | LeftLink p => set_left p v
  | RightLink p => set_right p v
  end.

Section compare.
Context {K : Type} (compare : K -> positive -> Z).

Definition cmp_node (key : K) (p : option positive) : M rbt Z :=
  l ← need p;
  _ ← ld flags p;
  ret (compare key l).

(** One round of the search of [rbt_find], and the search in at most [fuel] rounds. *)
Definition find_step (key : K) (n : option positive) : M rbt (option positive + option positive) :=
  match n with
  | None => ret (inr None)
  | Some _ =>
      r ← cmp_node key n;
      if r =? 0 then ret (inr n)
      else if r <? 0 then l ← ld left n; ret (inl l)
      else rr ← ld right n; ret (inl rr)
  end.
Definition find_within (fuel : nat) (key : K) : M rbt (option positive) :=
  n ← gets root; loop fuel (find_step key) n.
Definition rbt_find (key : K) : M rbt (option positive) :=
  fuel ← path_fuel; find_within fuel key.

(** One round of the search of [rbt_insert]; the loop variables are [p] and
    [nptr].  [inr None]: the link is NULL; [inr (Some c)]: [c] has the key. *)
Definition insert_search_step (key : K) (st : option positive * link) :
    M rbt (option positive * link +
           option (option positive) * (option positive * link)) :=
  c ← ld_link st.2;
  match c with
  | None => ret (inr (None, st))
  | Some _ =>
      r ← cmp_node key c;
      MARK_MODIFIED c;;
      if r =? 0 then ret (inr (Some c, st))
      else ret (inl (c, if r <? 0 then LeftLink c else RightLink c))
  end.

Definition rbt_insert (key : K) (n : option positive) : M rbt (option positive) :=
  fuel ← path_fuel;
  r ← loop fuel (insert_search_step key) (None, RootLink);
  match r with
  | (Some c, (_, nptr)) =>
      cn ← ld id c;
      upd (fun _ => cn) n;;
      st_link nptr n;;
      l ← ld left n;
      set_parent_if l n;;
      rr ← ld right n;
      set_parent_if rr n;;
      ret c
  | (None, (p, nptr)) =>
      st_link nptr n;;
      set_left n None;;
      set_right n None;;
      set_flags n 0;;
      set_parent n p;;
      MAKE_RED n;;
      MARK_MODIFIED n;;
      repair_after_insert n;;
      ret None
  end.
End compare.

(** * Removal *)

(** [while (s->left) s = s->left;] *)
Definition leftmost (s : option positive) : M rbt (option positive) :=
  fuel ← path_fuel;
  loop fuel (fun s =>
    l ← ld left s;
    match l with
    | Some _ => ret (inl l)
    | None => ret (inr s)
    end) s.

Definition swap_with_successor (n : option positive) : M rbt unit :=
  p ← ld parent n;
  s ← ld right n;
  sl ← ld left s;
  s ← match sl with
      | Some _ =>
          s ← leftmost s;
          tmp ← ld id s;
          nn ← ld id n;
          upd (fun _ => nn) s;;
          upd (fun _ => tmp) n;;
          np ← ld parent n;
          set_left np n;;
          ret s
      | None =>
          l ← ld left n;
          r ← ld right s;
          n_flags ← ld flags n;
          s_flags ← ld flags s;
          set_left s l;;
          set_flags s n_flags;;
          set_right s n;;
          set_parent s p;;
          set_right n r;;
          set_left n None;;
          set_parent n s;;
          set_flags n s_flags;;
          ret s
      end;
  fix_downptr p n s;;
  sl ← ld left s;
  set_parent sl s;;
  sr ← ld right s;
  set_parent sr s;;
  nr ← ld right n;
  set_parent_if nr n.

(** One round of the loop of [repair_after_remove]; the loop variables are
    [n] and [p].  [inr None] is the [return], [inr (Some (n, p, s))] the
    [break]. *)
Definition repair_remove_step (st : option positive * option positive) :
    M rbt (option positive * option positive +
           option (option positive * option positive * option positive)) :=
  let '(n, p) := st in
  match p with
  | None => ret (inr None)
  | Some _ =>
      pl ← ld left p;
      s ← (if decide (pl = n) then ld right p else ld left p);
      sred ← RBT_IS_RED s;
      s ← (if sred : bool then
             MAKE_RED p;;
             MAKE_BLACK s;;
             MARK_MODIFIED s;;
             pl ← ld left p;
             if decide (n = pl) then rotate_left p;; ld right p
             else rotate_right p;; ld left p
           else ret s);
      pb ← RBT_IS_BLACK p;
      sl ← ld left s;
      slb ← RBT_IS_BLACK sl;
      sr ← ld right s;
      srb ← RBT_IS_BLACK sr;
      if (pb && slb && srb)%bool then
        MAKE_RED s;;
        pp ← ld parent p;
        ret (inl (p, pp))
      else ret (inr (Some (n, p, s)))
  end.

(** The last rotation: [s] takes the colour and the place of [p]. *)
Definition repair_remove_finish (n p s : option positive) : M rbt unit :=
  pf ← ld flags p;
  set_flags s (Z.lor pf RBT_FLAG_MODIFIED);;
  MAKE_BLACK p;;
  pl ← ld left p;
  if decide (n = pl) then
    sr ← ld right s; MAKE_BLACK sr;; rotate_left p
  else
    sl ← ld left s; MAKE_BLACK sl;; rotate_right p.

(** What follows the loop. *)
Definition repair_remove_rotate (n p s : option positive) : M rbt unit :=
  pr ← RBT_IS_RED p;
  sl ← ld left s;
  slb ← RBT_IS_BLACK sl;
  sr ← ld right s;
  srb ← RBT_IS_BLACK sr;
  if (pr && slb && srb)%bool then
    MAKE_RED s;; MAKE_BLACK p
  else
    pl ← ld left p;
    pright ← ld right p;
    s ← (if (bool_decide (n = pl) && srb)%bool then
           MAKE_RED s;;
           MAKE_BLACK sl;;
           MARK_MODIFIED s;;
           MARK_MODIFIED sl;;
           rotate_right s;;
           ld parent s
         else if (bool_decide (n = pright) && slb)%bool then
           MAKE_RED s;;
           MAKE_BLACK sr;;
           MARK_MODIFIED s;;
           MARK_MODIFIED sr;;
           rotate_left s;;
           ld parent s
         else ret s);
    repair_remove_finish n p s.

Definition repair_after_remove (n : option positive) : M rbt unit :=
  fuel ← path_fuel;
  p ← ld parent n;
  r ← loop fuel repair_remove_step (None, p);
  match r with
  | None => ret tt
  | Some (n, p, s) => repair_remove_rotate n p s
  end.

Definition rbt_mark_modified (n : option positive) : M rbt unit :=
  fuel ← path_fuel;
  loop fuel (fun n =>
    match n with
    | None => ret (inr tt)
    | Some _ => MARK_MODIFIED n;; p ← ld parent n; ret (inl p)
    end) n.

Definition rbt_remove (n : option positive) : M rbt unit :=
  l ← ld left n;
  r ← ld right n;
  match l, r with Some _, Some _ => swap_with_successor n | _, _ => ret tt end;;
  rbt_mark_modified n;;
  l ← ld left n;
  r ← ld right n;
  let s := match l with Some _ => l | None => r end in
  np ← ld parent n;
  fix_downptr np n s;;
  match s with
  | Some _ =>
      np ← ld parent n;
      set_parent s np;;
      MAKE_BLACK s
  | None =>
      nred ← RBT_IS_RED n;
      if nred : bool then ret tt else repair_after_remove n
  end.
