(* ===== verification/RbtTree.v ===== *)
(** Red-black trees as values: trees carrying the addresses and flag words of
    their nodes, zipper contexts, and the predicate [rep] that ties them to the
    node store of Rbt.v.  The pointer-level lemmas for the primitive steps
    (link repair, rotations, recolouring) are proved here once. *)
From S2P Require Import Prelude Rbt.

Inductive tree :=
  | Leaf
  | Node (l : tree) (a : positive) (f : Z) (r : tree).

Definition addr (t : tree) : option positive :=
  match t with Leaf => None | Node _ a _ _ => Some a end.

(** The addresses of a tree, in order. *)
Fixpoint elems (t : tree) : list positive :=
  match t with
  | Leaf => []
  | Node l a _ r => elems l ++ a :: elems r
  end.

Fixpoint height (t : tree) : nat :=
  match t with Leaf => 0 | Node l _ _ r => Datatypes.S (Nat.max (height l) (height r)) end.
Lemma height_elems t : (height t <= length (elems t))%nat.
Proof. induction t as [|l IHl a f r IHr]; simpl; [done|]. rewrite length_app. simpl. lia. Qed.

(** A frame: the hole is the left (right) child of the node. *)
Inductive frame :=
  | InL (a : positive) (f : Z) (r : tree)
  | InR (l : tree) (a : positive) (f : Z).

Abbreviation ctx := (list frame).

Definition plug1 (fr : frame) (t : tree) : tree :=
  match fr with
  | InL a f r => Node t a f r
  | InR l a f => Node l a f t
  end.

Fixpoint plug (c : ctx) (t : tree) : tree :=
  match c with
  | [] => t
  | fr :: c => plug c (plug1 fr t)
  end.

Definition frame_addr (fr : frame) : positive :=
  match fr with InL a _ _ | InR _ a _ => a end.

Definition ctx_addr (c : ctx) : option positive :=
  match c with [] => None | fr :: _ => Some (frame_addr fr) end.

(** The addresses of a context, left and right of the hole. *)
Fixpoint cleft (c : ctx) : list positive :=
  match c with
  | [] => []
  | InL _ _ _ :: c => cleft c
  | InR l a _ :: c => cleft c ++ elems l ++ [a]
  end.

Fixpoint cright (c : ctx) : list positive :=
  match c with
  | [] => []
  | InL a _ r :: c => a :: elems r ++ cright c
  | InR _ _ _ :: c => cright c
  end.

Lemma elems_plug c t : elems (plug c t) = cleft c ++ elems t ++ cright c.
Proof.
  revert t. induction c as [|[a f r|l a f] c IH]; intros t; simpl.
  - by rewrite app_nil_r.
  - rewrite IH. simpl. by rewrite <- !app_assoc.
  - rewrite IH. simpl. by rewrite <- !app_assoc.
Qed.

Lemma addr_plug c t : addr (plug c t) = match c with [] => addr t | _ => addr (plug c Leaf) end.
Proof.
  destruct c as [|fr c]; [done|]. simpl.
  assert (H : addr (plug1 fr t) = addr (plug1 fr Leaf)) by by destruct fr.
  revert H. generalize (plug1 fr t), (plug1 fr Leaf).
  induction c as [|fr' c IH]; intros t1 t2 H; simpl; [done|].
  apply IH. by destruct fr'.
Qed.

Lemma addr_plug_eq c t t' : addr t = addr t' -> addr (plug c t) = addr (plug c t').
Proof. intros H. rewrite addr_plug, (addr_plug c t'). by destruct c. Qed.

(** * Occurrence counting: the decision procedure for distinct addresses *)
Fixpoint cnt (x : positive) (l : list positive) : nat :=
  match l with
  | [] => 0
  | y :: l => (if decide (x = y) then 1 else 0) + cnt x l
  end%nat.

Lemma cnt_app x l k : cnt x (l ++ k) = (cnt x l + cnt x k)%nat.
Proof. induction l as [|y l IH]; simpl; [done|]. rewrite IH. lia. Qed.

Lemma cnt_elem x l : x ∈ l <-> (1 <= cnt x l)%nat.
Proof.
  induction l as [|y l IH]; simpl.
  - split; [intros H; by apply elem_of_nil in H|lia].
  - rewrite elem_of_cons, IH. destruct (decide (x = y)); split; try tauto; try lia.
Qed.

Lemma cnt_NoDup l : NoDup l <-> forall x, (cnt x l <= 1)%nat.
Proof.
  induction l as [|y l IH]; simpl.
  - split; [lia|constructor].
  - rewrite NoDup_cons, IH, cnt_elem. split.
    + intros [H1 H2] x. specialize (H2 x).
      destruct (decide (x = y)) as [->|]; lia.
    + intros H. split.
      * specialize (H y). rewrite decide_True in H by done. lia.
      * intros x. specialize (H x). lia.
Qed.

Lemma cnt_cons_eq x l : cnt x (x :: l) = Datatypes.S (cnt x l).
Proof. simpl. by rewrite decide_True. Qed.

(** Turns every membership hypothesis into a count and specialises the
    [NoDup] hypotheses to [x]. *)
Ltac cnt_simpl H :=
  repeat first
    [ rewrite elems_plug in H | rewrite cnt_app in H | rewrite cnt_cons_eq in H
    | progress cbn [cnt elems cleft cright plug1 app] in H ].

Ltac cnt_goal :=
  repeat first [rewrite elems_plug | rewrite cnt_app | progress cbn [cnt elems cleft cright plug1 app]].

Ltac nd_at x :=
  repeat match goal with
  | H : NoDup ?l |- _ =>
      let H' := fresh "Hcnt" in
      pose proof (proj1 (cnt_NoDup l) H x) as H';
      cnt_simpl H'; revert H';
      clear H
  end; intros;
  repeat match goal with
  | H : x ∈ _ |- _ => apply cnt_elem in H; cnt_simpl H
  | H : x ∉ _ |- _ => rewrite cnt_elem in H; cnt_simpl H
  end;
  repeat match goal with
  | H : context [decide (x = x)] |- _ => rewrite (decide_True _ _ (eq_refl x)) in H
  end;
  repeat match goal with
  | H : context [decide (?y = ?z)] |- _ => destruct (decide (y = z)); [try congruence|]
  end; try lia.

(** Solves [x <> y] and [x ∉ l] from the [NoDup] hypotheses. *)
Ltac nd :=
  match goal with
  | |- ?x <> ?y => intros <-; exfalso; nd_at x
  | |- ?x ∉ _ => intros ?; exfalso; nd_at x
  | |- Some ?x <> Some ?y => intros [= <-]; exfalso; nd_at x
  end.

(** * Representation in the store *)
Fixpoint rep_tree (h : gmap positive rbt_node) (par : option positive) (t : tree) : Prop :=
  match t with
  | Leaf => True
  | Node l a f r =>
      h !! a = Some (mk_node f (addr l) (addr r) par) /\
      rep_tree h (Some a) l /\ rep_tree h (Some a) r
  end.

Fixpoint rep_ctx (h : gmap positive rbt_node) (c : ctx) (hole : option positive) : Prop :=
  match c with
  | [] => True
  | InL a f r :: c =>
      h !! a = Some (mk_node f hole (addr r) (ctx_addr c)) /\
      rep_tree h (Some a) r /\ rep_ctx h c (Some a)
  | InR l a f :: c =>
      h !! a = Some (mk_node f (addr l) hole (ctx_addr c)) /\
      rep_tree h (Some a) l /\ rep_ctx h c (Some a)
  end.

Lemma rep_tree_ext h h' par t :
  (forall x, x ∈ elems t -> h' !! x = h !! x) -> rep_tree h par t -> rep_tree h' par t.
Proof.
  revert par. induction t as [|l IHl a f r IHr]; intros par Hx; simpl; [done|].
  intros (Ha & Hl & Hr). split_and!.
  - rewrite Hx; [done|]. set_solver.
  - apply IHl; [|done]. set_solver.
  - apply IHr; [|done]. set_solver.
Qed.

Lemma rep_ctx_ext h h' c hole :
  (forall x, x ∈ cleft c \/ x ∈ cright c -> h' !! x = h !! x) ->
  rep_ctx h c hole -> rep_ctx h' c hole.
Proof.
  revert hole. induction c as [|[a f r|l a f] c IH]; intros hole Hx; simpl; [done| |];
    intros (Ha & Ht & Hc); (split_and!;
      [ rewrite Hx; [done|]; simpl; set_solver
      | eapply rep_tree_ext; [|exact Ht]; intros; apply Hx; simpl; set_solver
      | apply IH; [|exact Hc]; intros; apply Hx; simpl; set_solver ]).
Qed.

Record rep (F : list positive) (h0 : gmap positive rbt_node) (s : rbt) (c : ctx) (t : tree)
  : Prop := {
  rep_root : root s = addr (plug c t);
  rep_c : rep_ctx (nodes s) c (addr t);
  rep_t : rep_tree (nodes s) (ctx_addr c) t;
  rep_nd : NoDup (elems (plug c t));
  rep_sub : forall x, x ∈ elems (plug c t) -> x ∈ F;
  rep_frame : forall x, x ∉ F -> nodes s !! x = h0 !! x;
}.

(** Moving the focus. *)
Lemma rep_up F h0 s fr c t : rep F h0 s (fr :: c) t <-> rep F h0 s c (plug1 fr t).
Proof.
  split; intros [H1 H2 H3 H4 H5 H6]; destruct fr as [a f r|l a f]; simpl in *;
    split; simpl; tauto.
Qed.

Lemma rep_in_l F h0 s c l a f r : rep F h0 s (InL a f r :: c) l <-> rep F h0 s c (Node l a f r).
Proof. apply (rep_up _ _ _ (InL a f r)). Qed.
Lemma rep_in_r F h0 s c l a f r : rep F h0 s (InR l a f :: c) r <-> rep F h0 s c (Node l a f r).
Proof. apply (rep_up _ _ _ (InR l a f)). Qed.

Lemma rep_plug F h0 s c c' t : rep F h0 s (c' ++ c) t <-> rep F h0 s c (plug c' t).
Proof.
  revert t. induction c' as [|fr c' IH]; intros t; simpl; [done|].
  by rewrite rep_up, IH.
Qed.

Lemma rep_top F h0 s c t : rep F h0 s c t <-> rep F h0 s [] (plug c t).
Proof. rewrite <- (app_nil_r c) at 1. apply rep_plug. Qed.

Lemma rep_focus F h0 s c l a f r :
  rep F h0 s c (Node l a f r) ->
  nodes s !! a = Some (mk_node f (addr l) (addr r) (ctx_addr c)).
Proof. intros H. apply H. Qed.

(** The fuel of the walks: a tree has no more nodes than its store. *)
Lemma NoDup_size (h : gmap positive rbt_node) l :
  NoDup l -> (forall x, x ∈ l -> is_Some (h !! x)) -> (length l <= size h)%nat.
Proof.
  intros Hnd Hin. rewrite <- size_dom.
  transitivity (size (list_to_set l : gset positive)).
  - by rewrite size_list_to_set.
  - apply subseteq_size. intros x Hx. apply elem_of_dom, Hin. by apply elem_of_list_to_set in Hx.
Qed.

Lemma rep_tree_dom h par t x : rep_tree h par t -> x ∈ elems t -> is_Some (h !! x).
Proof.
  revert par. induction t as [|l IHl a f r IHr]; intros par; simpl.
  - intros _ H. by apply elem_of_nil in H.
  - intros (Ha & Hl & Hr) Hx. apply elem_of_app in Hx as [Hx|Hx]; [eauto|].
    apply elem_of_cons in Hx as [->|Hx]; [by rewrite Ha|eauto].
Qed.

Lemma rep_dom F h0 s c t x :
  rep F h0 s c t -> x ∈ elems (plug c t) -> is_Some (nodes s !! x).
Proof. intros H. apply rep_top in H. apply (rep_tree_dom _ None). apply H. Qed.

Lemma rep_fuel F h0 s c t : rep F h0 s c t -> (length (elems (plug c t)) <= size (nodes s))%nat.
Proof. intros H. apply NoDup_size; [apply H|]. intros x. by apply (rep_dom F h0 s c t). Qed.

(** * Executing accesses *)
Lemma wp_ld {A} (f : rbt_node -> A) a nd s Q :
  nodes s !! a = Some nd -> Q (f nd) s -> wp (ld f (Some a)) s Q.
Proof.
  intros H HQ. unfold ld. apply wp_bind. eapply wp_need; [done|].
  apply wp_bind, wp_get, wp_bind. by eapply wp_need.
Qed.

Lemma wp_upd f a nd s Q :
  nodes s !! a = Some nd -> Q tt (mk_rbt (root s) (<[a := f nd]> (nodes s))) ->
  wp (upd f (Some a)) s Q.
Proof.
  intros H HQ. unfold upd. apply wp_bind. eapply wp_need; [done|].
  apply wp_bind, wp_get, wp_bind. by eapply wp_need.
Qed.

Ltac lk :=
  cbn [nodes root];
  repeat first
    [ eassumption
    | apply lookup_insert_eq
    | rewrite lookup_insert_ne by nd ].

Ltac rd := eapply wp_ld; [solve [lk] | cbn [flags left right parent id nodes root]].
Ltac wr := eapply wp_upd; [solve [lk]
  | cbv beta delta [with_flags with_left with_right with_parent];
    cbn [flags left right parent nodes root]].
Ltac sx := apply wp_bind; first [rd | wr].

(** Opens [rep] into the lookups of the nodes in view. *)
Ltac look H :=
  let Hc := fresh "Hc" in let Ht := fresh "Ht" in let Hn := fresh "Hnd" in
  pose proof (rep_c _ _ _ _ _ H) as Hc; pose proof (rep_t _ _ _ _ _ H) as Ht;
  pose proof (rep_nd _ _ _ _ _ H) as Hn;
  cbn [rep_ctx rep_tree ctx_addr frame_addr addr] in Hc, Ht; destruct_and?.

(** * Links above the focus *)
Lemma wp_fix_downptr c n m s Q :
  rep_ctx (nodes s) c (Some n) -> n ∉ cleft c -> NoDup (cleft c ++ cright c) ->
  (forall s', root s' = match c with [] => m | _ => root s end ->
     rep_ctx (nodes s') c m ->
     (forall x, x ∉ cleft c ++ cright c -> nodes s' !! x = nodes s !! x) -> Q tt s') ->
  wp (fix_downptr (ctx_addr c) (Some n) m) s Q.
Proof.
  intros Hc Hn Hnd HQ. destruct c as [|[a f r|l a f] c]; simpl in *.
  - apply wp_modify. apply HQ; done.
  - destruct Hc as (Ha & Hr & Hc). sx. rewrite decide_True by done. wr.
    apply HQ; simpl; [done| |].
    + split_and!; [by rewrite lookup_insert_eq| |].
      * eapply rep_tree_ext; [|exact Hr]. intros x Hx. rewrite lookup_insert_ne by nd. done.
      * eapply rep_ctx_ext; [|exact Hc]. intros x [Hx|Hx]; rewrite lookup_insert_ne by nd; done.
    + intros x Hx. rewrite lookup_insert_ne; [done|]. set_solver.
  - destruct Hc as (Ha & Hl & Hc). sx. rewrite decide_False; [wr|].
    + apply HQ; simpl; [done| |].
      * split_and!; [by rewrite lookup_insert_eq| |].
        -- eapply rep_tree_ext; [|exact Hl]. intros x Hx. rewrite lookup_insert_ne by nd. done.
        -- eapply rep_ctx_ext; [|exact Hc]. intros x [Hx|Hx]; rewrite lookup_insert_ne by nd; done.
      * intros x Hx. rewrite lookup_insert_ne; [done|]. set_solver.
    + destruct l as [|l1 b g l2]; simpl; [done|]. intros [= ->]. apply Hn. set_solver.
Qed.

(** [if (p) p->parent = v], where [p] is the root of a subtree. *)
Lemma wp_set_parent_if t par v s Q :
  rep_tree (nodes s) par t -> NoDup (elems t) ->
  (forall h', rep_tree h' v t ->
     (forall x, x ∉ elems t -> h' !! x = nodes s !! x) -> Q tt (mk_rbt (root s) h')) ->
  wp (set_parent_if (addr t) v) s Q.
Proof.
  intros Ht Hnd HQ. unfold set_parent_if. destruct t as [|l a f r]; simpl in *.
  - apply wp_ret. destruct s as [rt h]. by apply HQ.
  - destruct Ht as (Ha & Hl & Hr). wr. apply HQ.
    + split_and!; [by rewrite lookup_insert_eq| |];
        (eapply rep_tree_ext; [|eassumption]); intros x Hx; rewrite lookup_insert_ne by nd; done.
    + intros x Hx. rewrite lookup_insert_ne; [done|]. set_solver.
Qed.

Ltac lk ::=
  cbn [nodes root];
  repeat first
    [ eassumption
    | apply lookup_insert_eq
    | rewrite lookup_insert_ne by nd
    | match goal with
      | H : forall x, x ∉ _ -> ?h !! x = _ |- ?h !! _ = _ => rewrite H by nd
      | H : forall x, x <> _ -> ?h !! x = _ |- ?h !! _ = _ => rewrite H by nd
      end ].

(** Proves [NoDup] of a part of the addresses. *)
Ltac nd_sub :=
  apply cnt_NoDup; let x := fresh "x" in intros x;
  cnt_goal; nd_at x.

(** Re-establishes a [rep_tree]/[rep_ctx] fact after updates elsewhere. *)
Ltac frame_tree :=
  match goal with
  | H : rep_tree _ _ ?t |- rep_tree _ _ ?t =>
      eapply rep_tree_ext; [|exact H]; intros ? ?; solve [lk; reflexivity]
  | H : rep_ctx _ ?c _ |- rep_ctx _ ?c _ =>
      eapply rep_ctx_ext; [|exact H]; intros ? [?|?]; solve [lk; reflexivity]
  end.

Section ops.
Context (F : list positive) (h0 : gmap positive rbt_node).

(** Replacing the focus by a tree with the same addresses. *)
Lemma rep_rebuild s s' c t t' :
  rep F h0 s c t -> elems t' = elems t ->
  root s' = match c with [] => addr t' | _ => root s end ->
  rep_ctx (nodes s') c (addr t') -> rep_tree (nodes s') (ctx_addr c) t' ->
  (forall x, x ∉ elems (plug c t) -> nodes s' !! x = nodes s !! x) ->
  rep F h0 s' c t'.
Proof.
  intros [H1 H2 H3 H4 H5 H6] He Hr Hc Ht Hx.
  assert (elems (plug c t') = elems (plug c t)) as E by by rewrite !elems_plug, He.
  split; rewrite ?E; auto.
  - rewrite Hr. destruct c; [done|]. rewrite H1. by rewrite addr_plug, (addr_plug _ t').
  - intros x Hn. rewrite Hx; [by apply H6|]. intros ?. by apply Hn, H5.
Qed.

Lemma wp_rotate_left s c l n f rl r g rr Q :
  rep F h0 s c (Node l n f (Node rl r g rr)) ->
  (forall s', rep F h0 s' c (Node (Node l n f rl) r g rr) -> Q tt s') ->
  wp (rotate_left (Some n)) s Q.
Proof.
  intros H HQ. look H. unfold rotate_left.
  sx. sx. sx. sx. sx. wp_bind.
  eapply (wp_set_parent_if rl (Some r)); [cbn [nodes root]; frame_tree|nd_sub|].
  cbn [nodes root]. intros h' Hrl Hfr.
  sx. sx. sx. sx.
  eapply wp_fix_downptr; cbn [nodes root]; [frame_tree|nd|nd_sub|].
  intros s' Hroot Hctx Hfx. apply HQ.
  eapply rep_rebuild; [exact H|simpl; by rewrite <- app_assoc|exact Hroot|exact Hctx| |].
  - cbn [rep_tree addr]. split_and!; first [frame_tree|lk].
  - intros x Hx. by lk.
Qed.

Lemma wp_rotate_right s c ll l f lr n g r Q :
  rep F h0 s c (Node (Node ll l f lr) n g r) ->
  (forall s', rep F h0 s' c (Node ll l f (Node lr n g r)) -> Q tt s') ->
  wp (rotate_right (Some n)) s Q.
Proof.
  intros H HQ. look H. unfold rotate_right.
  sx. sx. sx. sx. sx. wp_bind.
  eapply (wp_set_parent_if lr (Some l)); [cbn [nodes root]; frame_tree|nd_sub|].
  cbn [nodes root]. intros h' Hrl Hfr.
  sx. sx. sx. sx.
  eapply wp_fix_downptr; cbn [nodes root]; [frame_tree|nd|nd_sub|].
  intros s' Hroot Hctx Hfx. apply HQ.
  eapply rep_rebuild; [exact H|simpl; by rewrite <- app_assoc|exact Hroot|exact Hctx| |].
  - cbn [rep_tree addr]. split_and!; first [frame_tree|lk].
  - intros x Hx. by lk.
Qed.

(** Changing the flag word of the focused node. *)
Lemma wp_set_f φ s c l a f r Q :
  rep F h0 s c (Node l a f r) ->
  (forall s', rep F h0 s' c (Node l a (φ f) r) -> Q tt s') ->
  wp (upd (fun n => with_flags (φ (flags n)) n) (Some a)) s Q.
Proof.
  intros H HQ. look H. wr. apply HQ.
  eapply rep_rebuild; [exact H|done| |frame_tree| |]; cbn [root nodes].
  - destruct c; [|done]. by rewrite (rep_root _ _ _ _ _ H).
  - cbn [rep_tree]. split_and!; first [frame_tree|lk].
  - intros x Hx. by lk.
Qed.
End ops.
