(* ===== verification/RbtInsert.v ===== *)
(** Insertion: the pointer code of [rbt_insert] refines a zipper algorithm. *)
From S2P Require Import Prelude Rbt RbtTree.

(** * Flag words *)
Definition is_red (f : Z) : bool := truth (Z.land f RBT_FLAG_RED).
Definition is_mod (f : Z) : bool := truth (Z.land f RBT_FLAG_MODIFIED).
Definition mk_red (f : Z) : Z := Z.lor f RBT_FLAG_RED.
Definition mk_black (f : Z) : Z := Z.land f (Z.lnot RBT_FLAG_RED).
Definition mk_mod (f : Z) : Z := Z.lor f RBT_FLAG_MODIFIED.

Lemma is_red_bit f : is_red f = Z.testbit f 0.
Proof. apply (truth_land_bit f 0). lia. Qed.
Lemma is_mod_bit f : is_mod f = Z.testbit f 1.
Proof. apply (truth_land_bit f 1). lia. Qed.

Lemma is_red_red f : is_red (mk_red f) = true.
Proof. unfold mk_red. rewrite is_red_bit, Z.lor_spec. apply orb_true_r. Qed.
Lemma is_red_black f : is_red (mk_black f) = false.
Proof. unfold mk_black. rewrite is_red_bit, Z.land_spec. apply andb_false_r. Qed.
Lemma is_red_mod f : is_red (mk_mod f) = is_red f.
Proof. unfold mk_mod. rewrite !is_red_bit, Z.lor_spec. apply orb_false_r. Qed.
Lemma is_mod_red f : is_mod (mk_red f) = is_mod f.
Proof. unfold mk_red. rewrite !is_mod_bit, Z.lor_spec. apply orb_false_r. Qed.
Lemma is_mod_black f : is_mod (mk_black f) = is_mod f.
Proof. unfold mk_black. rewrite !is_mod_bit, Z.land_spec. apply andb_true_r. Qed.
Lemma is_mod_mod f : is_mod (mk_mod f) = true.
Proof. unfold mk_mod. rewrite is_mod_bit, Z.lor_spec. apply orb_true_r. Qed.

Create HintDb rbt.
#[export] Hint Rewrite is_red_red is_red_black is_red_mod is_mod_red is_mod_black is_mod_mod
  : rbt.

(** The colour of a subtree: NULL is black. *)
Definition red_tree (t : tree) : bool :=
  match t with Leaf => false | Node _ _ f _ => is_red f end.

Definition recolour (φ : Z -> Z) (t : tree) : tree :=
  match t with Leaf => Leaf | Node l a f r => Node l a (φ f) r end.

(** * The zipper algorithm *)
Definition ins_rotate (l : tree) (n : positive) (f : Z) (r : tree) (p g : frame) : tree :=
  match p, g with
  | InL p pf pr, InL g gf u =>
      Node (Node l n f r) p (mk_black pf) (Node pr g (mk_red gf) u)
  | InL p pf pr, InR u g gf =>
      Node (Node u g (mk_red gf) l) n (mk_black f) (Node r p pf pr)
  | InR pl p pf, InL g gf u =>
      Node (Node pl p pf l) n (mk_black f) (Node r g (mk_red gf) u)
  | InR pl p pf, InR u g gf =>
      Node (Node u g (mk_red gf) pl) p (mk_black pf) (Node l n f r)
  end.

Definition frame_flags (fr : frame) : Z := match fr with InL _ f _ | InR _ _ f => f end.
Definition frame_sib (fr : frame) : tree := match fr with InL _ _ t | InR t _ _ => t end.
Definition frame_map (φ : Z -> Z) (ψ : tree -> tree) (fr : frame) : frame :=
  match fr with InL a f r => InL a (φ f) (ψ r) | InR l a f => InR (ψ l) a (φ f) end.

Fixpoint ins_repair (c : ctx) (t : tree) : tree :=
  match c, t with
  | [], Node l n f r => Node l n (mk_black f) r
  | p :: g :: c', Node l n f r =>
      if is_red (frame_flags p) then
        if red_tree (frame_sib g) then
          ins_repair c' (plug1 (frame_map mk_red (recolour mk_black) g)
                           (plug1 (frame_map mk_black id p) t))
        else plug c' (ins_rotate l n f r p g)
      else plug c t
  | _, _ => plug c t
  end.

(** What the code relies on: a red parent has a parent, so the last node of the
    path is black (the root is). *)
Fixpoint root_black (c : ctx) : Prop :=
  match c with
  | [] => True
  | [p] => is_red (frame_flags p) = false
  | _ :: c => root_black c
  end.

(** [Some x <> addr t] and [addr t <> Some x]. *)
Ltac ndp :=
  lazymatch goal with
  | |- Some _ <> addr ?t => destruct t; cbn [addr]; [congruence|nd]
  | |- addr ?t <> Some _ => destruct t; cbn [addr]; [congruence|nd]
  | |- ?P -> False => change (~ P); ndp
  end.

Section insert.
Context (F : list positive) (h0 : gmap positive rbt_node).

Lemma wp_is_black s t par Q :
  rep_tree (nodes s) par t -> Q (negb (red_tree t)) s -> wp (RBT_IS_BLACK (addr t)) s Q.
Proof.
  destruct t; simpl; [intros; by apply wp_ret|]. intros (? & _ & _) HQ. by sx.
Qed.

Lemma wp_is_red s t par Q :
  rep_tree (nodes s) par t -> Q (red_tree t) s -> wp (RBT_IS_RED (addr t)) s Q.
Proof.
  destruct t; simpl; [intros; by apply wp_ret|]. intros (? & _ & _) HQ. by sx.
Qed.

Lemma wp_is_black_at s a nd Q :
  nodes s !! a = Some nd -> Q (negb (is_red (flags nd))) s -> wp (RBT_IS_BLACK (Some a)) s Q.
Proof. intros. unfold RBT_IS_BLACK. by sx. Qed.

Lemma wp_MAKE_RED s c l a f r Q :
  rep F h0 s c (Node l a f r) ->
  (forall s', rep F h0 s' c (Node l a (mk_red f) r) -> Q tt s') -> wp (MAKE_RED (Some a)) s Q.
Proof. apply wp_set_f. Qed.
Lemma wp_MAKE_BLACK s c l a f r Q :
  rep F h0 s c (Node l a f r) ->
  (forall s', rep F h0 s' c (Node l a (mk_black f) r) -> Q tt s') -> wp (MAKE_BLACK (Some a)) s Q.
Proof. apply wp_set_f. Qed.
Lemma wp_MARK_MODIFIED s c l a f r Q :
  rep F h0 s c (Node l a f r) ->
  (forall s', rep F h0 s' c (Node l a (mk_mod f) r) -> Q tt s') ->
  wp (MARK_MODIFIED (Some a)) s Q.
Proof. apply wp_set_f. Qed.

(** The two straight cases of the final rotation. *)
Lemma wp_insert_finish_l s p pf pr g gf u c l n f r Q :
  rep F h0 s (InL p pf pr :: InL g gf u :: c) (Node l n f r) ->
  (forall s', rep F h0 s' c (Node (Node l n f r) p (mk_black pf) (Node pr g (mk_red gf) u)) ->
     Q tt s') ->
  wp (repair_insert_finish (Some n)) s Q.
Proof.
  intros H HQ. unfold repair_insert_finish, grandparent. look H.
  sx. wp_bind. eapply wp_MAKE_BLACK; [by rewrite rep_up in H|].
  clear dependent s. intros s H. look H.
  wp_bind. sx. rd. wp_bind. eapply wp_MAKE_RED; [by rewrite rep_up in H|].
  clear dependent s. intros s H. look H.
  sx. wp_bind. sx. rd. rewrite decide_True by done.
  by eapply wp_rotate_right.
Qed.

Lemma wp_insert_finish_r s p pf pl g gf u c l n f r Q :
  rep F h0 s (InR pl p pf :: InR u g gf :: c) (Node l n f r) ->
  (forall s', rep F h0 s' c (Node (Node u g (mk_red gf) pl) p (mk_black pf) (Node l n f r)) ->
     Q tt s') ->
  wp (repair_insert_finish (Some n)) s Q.
Proof.
  intros H HQ. unfold repair_insert_finish, grandparent. look H.
  sx. wp_bind. eapply wp_MAKE_BLACK; [by rewrite rep_up in H|].
  clear dependent s. intros s H. look H.
  wp_bind. sx. rd. wp_bind. eapply wp_MAKE_RED; [by rewrite rep_up in H|].
  clear dependent s. intros s H. look H.
  sx. wp_bind. sx. rd. rewrite decide_False by ndp.
  by eapply wp_rotate_left.
Qed.

Lemma wp_insert_rotate s p g c l n f r :
  rep F h0 s (p :: g :: c) (Node l n f r) ->
  wp (repair_insert_rotate (Some n)) s
     (fun _ s' => rep F h0 s' c (ins_rotate l n f r p g)).
Proof.
  intros H. unfold repair_insert_rotate, grandparent.
  destruct p as [p pf pr|pl p pf], g as [g gf u|u g gf]; look H;
    (sx; sx; sx; wp_bind; sx; rd; sx; sx; wp_bind).
  - rewrite decide_False by (intros [_ E]; revert E; ndp).
    rewrite decide_False by (intros [E _]; revert E; ndp).
    apply wp_ret. eapply wp_insert_finish_l; [exact H|done].
  - rewrite decide_True by done. wp_bind.
    eapply wp_rotate_right; [by rewrite rep_up in H|].
    clear dependent s. intros s H. look H. rd.
    eapply wp_insert_finish_r; [by apply rep_in_r in H|done].
  - rewrite decide_False by (intros [E _]; revert E; ndp).
    rewrite decide_True by done. wp_bind.
    eapply wp_rotate_left; [by rewrite rep_up in H|].
    clear dependent s. intros s H. look H. rd.
    eapply wp_insert_finish_l; [by apply rep_in_l in H|done].
  - rewrite decide_False by (intros [E _]; revert E; ndp).
    rewrite decide_False by (intros [_ E]; revert E; ndp).
    apply wp_ret. eapply wp_insert_finish_r; [exact H|done].
Qed.

Lemma wp_sibling s c p g t Q :
  rep F h0 s (p :: g :: c) t -> Q (addr (frame_sib g)) s ->
  wp (sibling (Some (frame_addr p))) s Q.
Proof.
  intros H HQ. unfold sibling.
  destruct p as [p pf pr|pl p pf], g as [g gf u|u g gf]; look H; cbn [frame_addr];
    sx; sx; first [rewrite decide_True by done | rewrite decide_False by ndp]; by rd.
Qed.

(** Recolouring the parent, the uncle and the grandparent. *)
Lemma wp_insert_recolour s c p g l n f r
    (Q : option positive + option (option positive) -> rbt -> Prop) :
  rep F h0 s (p :: g :: c) (Node l n f r) -> red_tree (frame_sib g) = true ->
  (forall s', rep F h0 s' c (plug1 (frame_map mk_red (recolour mk_black) g)
                         (plug1 (frame_map mk_black id p) (Node l n f r))) ->
     Q (inl (Some (frame_addr g))) s') ->
  wp (MAKE_BLACK (addr (frame_sib g));;
      MAKE_BLACK (Some (frame_addr p));;
      g ← grandparent (Some n);
      MAKE_RED g;;
      g' ← grandparent (Some n);
      ret (inl g')) s Q.
Proof.
  intros H Hu HQ. unfold grandparent.
  destruct g as [g gf [|ul u uf ur]|[|ul u uf ur] g gf]; cbn [frame_sib red_tree] in Hu;
    try discriminate; destruct p as [p pf pr|pl p pf]; rewrite !rep_up in H;
    cbn [plug1 frame_sib frame_addr addr frame_map recolour] in *; wp_bind;
    (eapply wp_MAKE_BLACK; [apply rep_in_r, H || apply rep_in_l, H|]);
    clear dependent s; intros s H; rewrite rep_up in H; cbn [plug1] in H;
    wp_bind;
    (eapply wp_MAKE_BLACK; [apply rep_in_l, H || apply rep_in_r, H|]);
    clear dependent s; intros s H; rewrite rep_up in H; cbn [plug1] in H; look H;
    wp_bind; sx; rd; wp_bind; (eapply wp_MAKE_RED; [exact H|]);
    clear dependent s; intros s H; look H;
    wp_bind; sx; rd; apply wp_ret; by apply HQ.
Qed.

Definition ins_post (c : ctx) (t : tree) (r : option (option positive)) (s : rbt) : Prop :=
  match r with
  | None => rep F h0 s [] (ins_repair c t)
  | Some n => exists p g c' l a f r, n = Some a /\ rep F h0 s (p :: g :: c') (Node l a f r) /\
      plug c' (ins_rotate l a f r p g) = ins_repair c t
  end.

Lemma wp_insert_step s c l n f r :
  rep F h0 s c (Node l n f r) -> root_black c ->
  wp (repair_insert_step (Some n)) s (fun x s' =>
    match x with
    | inl n' => exists c' l' a' f' r', n' = Some a' /\ rep F h0 s' c' (Node l' a' f' r') /\
        root_black c' /\ (length c' < length c)%nat /\
        ins_repair c' (Node l' a' f' r') = ins_repair c (Node l n f r)
    | inr x => ins_post c (Node l n f r) x s'
    end).
Proof.
  intros H Hb. unfold repair_insert_step. destruct c as [|p c]; look H.
  { sx. wp_bind. eapply wp_MAKE_BLACK; [exact H|]. intros s' H'. exact H'. }
  assert (Hp : exists pn, nodes s !! frame_addr p = Some pn /\ flags pn = frame_flags p).
  { destruct p; destruct_and?; eauto. }
  destruct Hp as (pn & Hpn & Hfl).
  sx. wp_bind. eapply wp_is_black_at; [exact Hpn|]. rewrite Hfl.
  destruct (is_red (frame_flags p)) eqn:Hpr; cbn [negb].
  2: { apply wp_ret. simpl. apply rep_top in H. destruct c; [exact H|]. by rewrite Hpr. }
  destruct c as [|g c]; [simpl in Hb; congruence|].
  wp_bind. eapply wp_sibling; [exact H|]. wp_bind.
  assert (Hu : exists par, rep_tree (nodes s) par (frame_sib g)).
  { pose proof (rep_c _ _ _ _ _ H) as HC. destruct p, g; simpl in HC; destruct_and?; eauto. }
  destruct Hu as (par & Hu). eapply wp_is_black; [exact Hu|].
  destruct (red_tree (frame_sib g)) eqn:Hur; cbn [negb].
  - eapply wp_insert_recolour; [exact H|done|]. intros s' H'. cbn.
    destruct g as [g gf u|u g gf]; cbn [frame_map plug1 frame_addr] in *;
      do 5 eexists; (split_and!; [done|exact H'| |lia|]);
      try (by rewrite Hpr, Hur);
      destruct c as [|? ?]; [done|exact Hb|done|exact Hb].
  - apply wp_ret. simpl. rewrite Hpr, Hur. do 7 eexists. by split_and!.
Qed.

Lemma wp_insert_loop fuel s c l n f r :
  rep F h0 s c (Node l n f r) -> root_black c -> (length c < fuel)%nat ->
  wp (loop fuel repair_insert_step (Some n)) s (ins_post c (Node l n f r)).
Proof.
  intros H Hb Hf.
  eapply (wp_loop (fun k a s => exists c' l' a' f' r',
    a = Some a' /\ rep F h0 s c' (Node l' a' f' r') /\ root_black c' /\ length c' = k /\
    ins_repair c' (Node l' a' f' r') = ins_repair c (Node l n f r))); [|exact Hf|].
  - intros k a s' (c' & l' & a' & f' & r' & -> & H' & Hb' & <- & He).
    eapply wp_mono; [eapply wp_insert_step; eassumption|].
    intros [n'|x] s''; cbv beta iota.
    + intros (c2 & l2 & a2 & f2 & r2 & -> & ? & ? & ? & ?).
      exists (length c2). split; [done|]. do 5 eexists. split_and!; try done. congruence.
    + destruct x as [x|]; simpl.
      * intros (?&?&?&?&?&?&?&?&?&?). do 7 eexists. split_and!; try done. congruence.
      * by rewrite He.
  - do 5 eexists. split_and!; try done.
Qed.

Lemma length_ctx c t : (length c + length (elems t) <= length (elems (plug c t)))%nat.
Proof.
  rewrite elems_plug, !length_app.
  assert (length c <= length (cleft c) + length (cright c))%nat; [|lia].
  induction c as [|[] c IH]; simpl; rewrite ?length_app; simpl; lia.
Qed.

Lemma wp_path_fuel s c t Q :
  rep F h0 s c t -> (forall k, (length (elems (plug c t)) < k)%nat -> Q k s) ->
  wp path_fuel s Q.
Proof. intros H HQ. apply wp_gets, HQ. apply rep_fuel in H. lia. Qed.

(** [repair_after_insert] computes [ins_repair]. *)
Lemma wp_repair_after_insert s c l n f r :
  rep F h0 s c (Node l n f r) -> root_black c ->
  wp (repair_after_insert (Some n)) s
     (fun _ s' => rep F h0 s' [] (ins_repair c (Node l n f r))).
Proof.
  intros H Hb. unfold repair_after_insert. wp_bind. eapply wp_path_fuel; [exact H|].
  intros k Hk. wp_bind. eapply wp_mono.
  { eapply wp_insert_loop; [exact H|done|].
    pose proof (length_ctx c (Node l n f r)). lia. }
  intros [x|] s'; cbn [ins_post]; [|done].
  intros (p & g & c' & l' & a & f' & r' & -> & H' & He).
  eapply wp_mono; [by eapply wp_insert_rotate|]. intros ? s'' H''. cbv beta in H''.
  apply rep_top in H''. by rewrite He in H''.
Qed.
End insert.

(** * The search *)
Definition link_of (c : ctx) : link :=
  match c with
  | [] => RootLink
  | InL a _ _ :: _ => LeftLink (Some a)
  | InR _ a _ :: _ => RightLink (Some a)
  end.

Section search.
Context {K : Type} (compare : K -> positive -> Z).

(** The path the search takes, its flag words changed by [φ]. *)
Fixpoint descend (φ : Z -> Z) (key : K) (c : ctx) (t : tree) : ctx * tree :=
  match t with
  | Leaf => (c, Leaf)
  | Node l a f r =>
      if compare key a =? 0 then (c, Node l a (φ f) r)
      else if compare key a <? 0 then descend φ key (InL a (φ f) r :: c) l
      else descend φ key (InR l a (φ f) :: c) r
  end.

Definition ins_tree (key : K) (n : positive) (t : tree) : option positive * tree :=
  match descend mk_mod key [] t with
  | (c, Leaf) => (None, ins_repair c (Node Leaf n (mk_mod (mk_red 0)) Leaf))
  | (c, Node l a f r) => (Some a, plug c (Node l n f r))
  end.

Lemma descend_root_black key c t :
  (c = [] -> red_tree t = false) -> root_black c ->
  root_black (descend mk_mod key c t).1.
Proof.
  revert c. induction t as [|l IHl a f r IHr]; intros c H Hc; simpl; [done|].
  repeat case_match; simpl; [done| |];
    [apply IHl|apply IHr]; try done; destruct c; simpl; try done;
    rewrite is_red_mod; by apply H.
Qed.

Context (F : list positive) (h0 : gmap positive rbt_node).

Lemma wp_ld_link s c t Q :
  rep F h0 s c t -> Q (addr t) s -> wp (ld_link (link_of c)) s Q.
Proof.
  intros H HQ. destruct c as [|[a f r|l a f] c]; look H; simpl.
  - apply wp_gets. by rewrite (rep_root _ _ _ _ _ H).
  - by rd.
  - by rd.
Qed.

Lemma wp_st_link s c hole v Q :
  rep_ctx (nodes s) c hole -> NoDup (cleft c ++ cright c) ->
  (forall s', root s' = match c with [] => v | _ => root s end ->
     rep_ctx (nodes s') c v ->
     (forall x, x ∉ cleft c ++ cright c -> nodes s' !! x = nodes s !! x) -> Q tt s') ->
  wp (st_link (link_of c) v) s Q.
Proof.
  intros Hc Hnd HQ. destruct c as [|[a f r|l a f] c]; simpl in *.
  - by apply wp_modify, HQ.
  - destruct Hc as (Ha & Hr & Hc). wr. apply HQ; simpl; [done| |].
    + split_and!; first [frame_tree|lk].
    + intros x Hx. lk. done.
  - destruct Hc as (Ha & Hr & Hc). wr. apply HQ; simpl; [done| |].
    + split_and!; first [frame_tree|lk].
    + intros x Hx. lk. done.
Qed.

Lemma wp_cmp_node key s c l a f r Q :
  rep F h0 s c (Node l a f r) -> Q (compare key a) s ->
  wp (cmp_node compare key (Some a)) s Q.
Proof.
  intros H HQ. look H. unfold cmp_node. wp_bind. eapply wp_need; [done|]. by sx.
Qed.

Lemma wp_insert_search key t : forall fuel s c Q,
  rep F h0 s c t -> (length (elems t) < fuel)%nat ->
  (forall s' c' t', descend mk_mod key c t = (c', t') -> rep F h0 s' c' t' ->
     Q (match t' with Leaf => None | Node _ a _ _ => Some (Some a) end,
        (ctx_addr c', link_of c')) s') ->
  wp (loop fuel (insert_search_step compare key) (ctx_addr c, link_of c)) s Q.
Proof.
  induction t as [|l IHl a f r IHr]; intros [|fuel] s c Q H Hf HQ; try (simpl in Hf; lia).
  - apply wp_loop_step. unfold insert_search_step. wp_bind.
    eapply wp_ld_link; [exact H|]. by eapply wp_ret, (HQ _ _ Leaf).
  - cbn [elems] in Hf. rewrite length_app in Hf. cbn [length] in Hf.
    apply wp_loop_step. unfold insert_search_step. wp_bind.
    eapply wp_ld_link; [exact H|]. cbn [addr]. wp_bind.
    eapply wp_cmp_node; [exact H|]. wp_bind. eapply wp_MARK_MODIFIED; [exact H|].
    clear dependent s. intros s H. cbn [descend] in HQ. destruct (compare key a =? 0).
    + apply wp_ret. by eapply (HQ _ _ (Node _ _ _ _)).
    + apply wp_ret. destruct (compare key a <? 0).
      * apply (IHl fuel s (InL a (mk_mod f) r :: c)); [by apply rep_in_l|lia|done].
      * apply (IHr fuel s (InR l a (mk_mod f) :: c)); [by apply rep_in_r|lia|done].
Qed.

(** Hanging the new node where the search ended. *)
Lemma rep_graft s s' c t t' :
  rep F h0 s c t -> NoDup (cleft c ++ elems t' ++ cright c) ->
  (forall x, x ∈ elems t' -> x ∈ F) ->
  (forall x, x ∈ elems t -> x ∈ F) ->
  root s' = match c with [] => addr t' | _ => root s end ->
  rep_ctx (nodes s') c (addr t') -> rep_tree (nodes s') (ctx_addr c) t' ->
  (forall x, x ∉ F -> nodes s' !! x = nodes s !! x) ->
  rep F h0 s' c t'.
Proof.
  intros [H1 H2 H3 H4 H5 H6] Hnd Ht' Hs Hr Hc Ht Hx.
  rewrite elems_plug in H5. split; rewrite ?elems_plug; auto.
  - rewrite Hr. destruct c; [done|]. rewrite H1. by rewrite addr_plug, (addr_plug _ t').
  - intros x. rewrite !elem_of_app. specialize (H5 x). rewrite !elem_of_app in H5. naive_solver.
  - intros x Hn. rewrite Hx; [by apply H6|done].
Qed.

Lemma rep_nd_ctx s c t : rep F h0 s c t -> NoDup (cleft c ++ cright c).
Proof. intros H. pose proof (rep_nd _ _ _ _ _ H). nd_sub. Qed.

Lemma rep_nd_foc s c t : rep F h0 s c t -> NoDup (elems t).
Proof. intros H. pose proof (rep_nd _ _ _ _ _ H). nd_sub. Qed.

Lemma rep_out s c t x :
  rep F h0 s c t -> x ∉ F -> x ∉ cleft c ++ cright c /\ x ∉ elems t.
Proof.
  intros H Hx. pose proof (rep_sub _ _ _ _ _ H x) as Hs. rewrite elems_plug in Hs.
  rewrite !elem_of_app in *. naive_solver.
Qed.

(** No node with the key: [n] is linked in as a red leaf. *)
Lemma wp_insert_leaf {A} (m : M rbt A) s c n nn Q :
  rep F h0 s c Leaf -> n ∉ elems (plug c Leaf) -> n ∈ F -> nodes s !! n = Some nn ->
  (forall s', rep F h0 s' c (Node Leaf n (mk_mod (mk_red 0)) Leaf) -> wp m s' Q) ->
  wp (st_link (link_of c) (Some n);; set_left (Some n) None;; set_right (Some n) None;;
      set_flags (Some n) 0;; set_parent (Some n) (ctx_addr c);;
      MAKE_RED (Some n);; MARK_MODIFIED (Some n);; m) s Q.
Proof.
  intros H Hn HF Hnn HQ. look H. pose proof (rep_nd_ctx _ _ _ H) as Hndc.
  assert (Hn' : n ∉ cleft c ++ cright c) by (rewrite elems_plug in Hn; exact Hn).
  wp_bind. eapply wp_st_link; [exact Hc|done|]. intros s' Hr Hc' Hx. simpl in Hc'.
  assert (nodes s' !! n = Some nn) by by rewrite Hx.
  sx. sx. sx. sx. sx. sx. apply HQ. clear HQ.
  eapply (rep_graft s _ c Leaf); [exact H| |by intros x ->%list_elem_of_singleton| | | | |];
    cbn [nodes root elems app addr].
  - apply cnt_NoDup. intros x. cnt_goal. destruct (decide (x = n)) as [->|];
      [nd_at n|nd_at x].
  - intros x ?%elem_of_nil; done.
  - exact Hr.
  - eapply rep_ctx_ext; [|exact Hc']. intros x Hin.
    assert (x <> n) by (intros ->; apply Hn'; set_solver). by rewrite !lookup_insert_ne.
  - simpl. split_and!; [|done|done]. by rewrite lookup_insert_eq.
  - intros x Hout. assert (x <> n) by by intros ->.
    rewrite !lookup_insert_ne by done. apply Hx. by eapply rep_out.
Qed.

(** A node with the key: [n] takes its place. *)
Lemma wp_insert_replace s c l a f r n nn Q :
  rep F h0 s c (Node l a f r) -> n ∉ elems (plug c (Node l a f r)) -> n ∈ F ->
  nodes s !! n = Some nn ->
  (forall s', rep F h0 s' c (Node l n f r) -> Q (Some a) s') ->
  wp (cn ← ld id (Some a);
      upd (fun _ => cn) (Some n);;
      st_link (link_of c) (Some n);;
      l ← ld left (Some n);
      set_parent_if l (Some n);;
      rr ← ld right (Some n);
      set_parent_if rr (Some n);;
      ret (Some a)) s Q.
Proof.
  intros H Hn HF Hnn HQ. look H. pose proof (rep_nd_ctx _ _ _ H) as Hndc.
  assert (Hndl : NoDup (elems l)) by nd_sub. assert (Hndr : NoDup (elems r)) by nd_sub.
  sx. sx. wp_bind. eapply wp_st_link; [|exact Hndc|]; cbn [nodes root].
  { eapply rep_ctx_ext; [|exact Hc]. intros x Hin. rewrite lookup_insert_ne; [done|].
    intros ->. apply Hn. rewrite elems_plug. set_solver. }
  intros s' Hr Hc' Hx.
  assert (Hn' : n ∉ cleft c ++ cright c /\ n ∉ elems l /\ n ∉ elems r /\ n <> a).
  { rewrite elems_plug in Hn. simpl in Hn. set_solver. }
  destruct Hn' as (Hn1 & Hn2 & Hn3 & Hn4).
  assert (Hsn : nodes s' !! n = Some (mk_node f (addr l) (addr r) (ctx_addr c))).
  { by rewrite Hx, lookup_insert_eq. }
  sx. wp_bind. eapply (wp_set_parent_if l (Some a)); [|done|].
  { eapply rep_tree_ext; [|eassumption]. intros x Hin. rewrite Hx, lookup_insert_ne; [done| |].
    - intros ->. done.
    - intros ?. nd_at x. }
  intros h1 Hl Hx1. cbn [nodes root].
  wp_bind. eapply wp_ld; [cbn [nodes]; rewrite Hx1 by done; exact Hsn|]. cbn [right].
  wp_bind. eapply (wp_set_parent_if r (Some a)); [|done|]; cbn [nodes root].
  { eapply rep_tree_ext; [|eassumption]. intros x Hin.
    rewrite Hx1 by (intros ?; nd_at x). rewrite Hx, lookup_insert_ne; [done| |].
    - intros ->. done.
    - intros ?. nd_at x. }
  intros h2 Hr2 Hx2. apply wp_ret, HQ.
  eapply (rep_graft s _ c (Node l a f r)); [exact H| | | | | | |]; cbn [nodes root addr].
  - apply cnt_NoDup. intros x. cnt_goal. destruct (decide (x = n)) as [->|]; [nd_at n|nd_at x].
  - intros x. cbn [elems]. rewrite elem_of_app, elem_of_cons.
    pose proof (rep_sub _ _ _ _ _ H x) as Hs. rewrite elems_plug in Hs. cbn [elems] in Hs.
    rewrite !elem_of_app, elem_of_cons in Hs. naive_solver.
  - intros x Hin. apply (rep_sub _ _ _ _ _ H x). rewrite elems_plug. set_solver.
  - done.
  - eapply rep_ctx_ext; [|exact Hc']. intros x [Hin|Hin]; (rewrite Hx2, Hx1; [done| |]; intros ?; nd_at x).
  - simpl. split_and!.
    + by rewrite Hx2, Hx1.
    + eapply rep_tree_ext; [|exact Hl]. intros x Hin. rewrite Hx2; [done|]. intros ?; nd_at x.
    + done.
  - intros x Hout. assert (x <> n) by by intros ->.
    destruct (rep_out _ _ _ _ H Hout) as [Ho1 Ho2]. cbn [elems] in Ho2.
    rewrite Hx2, Hx1, Hx, lookup_insert_ne by set_solver. done.
Qed.

End search.

Lemma rep_weaken F F' h0 h0' s c t :
  rep F' h0' s c t -> (forall x, x ∈ F' -> x ∈ F) ->
  (forall x, x ∉ F -> h0' !! x = h0 !! x) -> rep F h0 s c t.
Proof.
  intros [H1 H2 H3 H4 H5 H6] HF Hh. split; auto.
  intros x Hx. rewrite H6, Hh; auto.
Qed.

(** A tree represents itself, relative to its own addresses and store. *)
Lemma rep_self F h0 s t : rep F h0 s [] t -> rep (elems t) (nodes s) s [] t.
Proof. intros [H1 H2 H3 H4 H5 H6]. by split. Qed.

Section insert_main.
Context {K : Type} (compare : K -> positive -> Z).

Lemma elems_descend φ key c t :
  elems (plug (descend compare φ key c t).1 (descend compare φ key c t).2) = elems (plug c t).
Proof.
  revert c. induction t as [|l IHl a f r IHr]; intros c; simpl; [done|].
  repeat case_match; simpl; [by rewrite !elems_plug| |].
  - rewrite IHl. by rewrite !elems_plug; simpl; rewrite <- !app_assoc.
  - rewrite IHr. by rewrite !elems_plug; simpl; rewrite <- !app_assoc.
Qed.

(** [rbt_insert] computes [ins_tree]. *)
Lemma wp_rbt_insert F h0 s key n nn t :
  rep F h0 s [] t -> n ∉ elems t -> n ∈ F -> nodes s !! n = Some nn -> red_tree t = false ->
  wp (rbt_insert compare key (Some n)) s (fun r s' =>
    r = (ins_tree compare key n t).1 /\ rep F h0 s' [] (ins_tree compare key n t).2).
Proof.
  intros H Hn HF Hnn Hb. unfold rbt_insert. wp_bind. eapply wp_path_fuel; [exact H|].
  intros k Hk. wp_bind.
  eapply (wp_insert_search compare _ _ key t k s []); [exact (rep_self _ _ _ _ H)|simpl in Hk; lia|].
  intros s' c' t' Hd H'.
  pose proof (elems_descend mk_mod key [] t) as E. rewrite Hd in E. simpl in E.
  assert (Hn' : n ∉ elems (plug c' t')) by by rewrite E.
  assert (nodes s' !! n = Some nn) by by rewrite (rep_frame _ _ _ _ _ H').
  assert (H2 : rep F h0 s' c' t').
  { eapply rep_weaken; [exact H'|apply H|apply H]. }
  pose proof (descend_root_black compare key [] t (fun _ => Hb) I) as Hrb.
  rewrite Hd in Hrb. simpl in Hrb. unfold ins_tree. rewrite Hd.
  destruct t' as [|l a f r].
  - eapply wp_insert_leaf; [exact H2|done..|]. intros s2 H3. wp_bind.
    eapply wp_mono; [by eapply wp_repair_after_insert|]. intros ? s3 H4. by apply wp_ret.
  - eapply wp_insert_replace; [exact H2|done..|]. intros s2 H3.
    split; [done|]. by apply rep_top in H3.
Qed.

(** * Lookup *)
Fixpoint find_tree (key : K) (t : tree) : option positive :=
  match t with
  | Leaf => None
  | Node l a _ r =>
      if compare key a =? 0 then Some a
      else if compare key a <? 0 then find_tree key l else find_tree key r
  end.

Lemma wp_find_within F h0 s key t k :
  rep F h0 s [] t -> (height t < k)%nat ->
  wp (find_within compare k key) s (fun r s' => r = find_tree key t /\ s' = s).
Proof.
  intros H Hk. unfold find_within. wp_bind. apply wp_gets. rewrite (rep_root _ _ _ _ _ H). cbn [plug] in *.
  revert Hk H. generalize (@nil frame). revert k. induction t as [|l IHl a f r IHr]; intros [|k] c Hk Ht; try (simpl in Hk; lia);
    apply wp_loop_step.
  - by apply wp_ret.
  - cbn [height] in Hk. cbn [addr find_step].
    wp_bind. eapply wp_cmp_node; [exact Ht|]. look Ht. cbn [find_tree].
    destruct (compare key a =? 0); [by apply wp_ret|].
    destruct (compare key a <? 0); sx; apply wp_ret.
    + apply (IHl k (InL a f r :: c)); [lia|by apply rep_in_l].
    + apply (IHr k (InR l a f :: c)); [lia|by apply rep_in_r].
Qed.

Lemma wp_rbt_find F h0 s key t :
  rep F h0 s [] t ->
  wp (rbt_find compare key) s (fun r s' => r = find_tree key t /\ s' = s).
Proof.
  intros H. unfold rbt_find. wp_bind. eapply wp_path_fuel; [exact H|]. intros k Hk.
  apply (wp_find_within F h0); [done|]. pose proof (height_elems t). cbn [plug] in Hk. lia.
Qed.
End insert_main.
