(* ===== verification/RbtRemove.v ===== *)
(** Removal: the pointer code of [rbt_remove] refines a zipper algorithm. *)
From S2P Require Import Prelude Rbt RbtTree RbtInsert.

(** * The zipper algorithm of [repair_after_remove] *)

(** A red sibling: the rotation of the parent towards the hole. *)
Definition del_rot (fr : frame) : frame * frame :=
  match fr with
  | InL p pf (Node sl s sf sr) =>
      (InL p (mk_red pf) sl, InL s (mk_mod (mk_black sf)) sr)
  | InR (Node sl s sf sr) p pf =>
      (InR sr p (mk_red pf), InR sl s (mk_mod (mk_black sf)))
  | _ => (fr, fr)
  end.

(** The nephews of the hole: near and far. *)
Definition near (fr : frame) : tree :=
  match fr with
  | InL _ _ (Node sl _ _ _) => sl
  | InR (Node _ _ _ sr) _ _ => sr
  | _ => Leaf
  end.
Definition far (fr : frame) : tree :=
  match fr with
  | InL _ _ (Node _ _ _ sr) => sr
  | InR (Node sl _ _ _) _ _ => sl
  | _ => Leaf
  end.

Definition black_nephews (fr : frame) : bool :=
  negb (red_tree (near fr)) && negb (red_tree (far fr)).

(** Makes the far nephew red, when the near one is the red one. *)
Definition del_straight (fr : frame) : frame :=
  if red_tree (far fr) then fr
  else match fr with
  | InL p pf (Node (Node a x xf b) s sf sr) =>
      InL p pf (Node a x (mk_mod (mk_black xf)) (Node b s (mk_mod (mk_red sf)) sr))
  | InR (Node sl s sf (Node a x xf b)) p pf =>
      InR (Node (Node sl s (mk_mod (mk_red sf)) a) x (mk_mod (mk_black xf)) b) p pf
  | _ => fr
  end.

(** The last rotation. *)
Definition del_finish (fr : frame) (t : tree) : tree :=
  match fr with
  | InL p pf (Node sl s sf sr) =>
      Node (Node t p (mk_black pf) sl) s (mk_mod pf) (recolour mk_black sr)
  | InR (Node sl s sf sr) p pf =>
      Node (recolour mk_black sl) s (mk_mod pf) (Node sr p (mk_black pf) t)
  | _ => plug1 fr t
  end.

Definition del_final (fr : frame) (t : tree) : tree :=
  if is_red (frame_flags fr) && black_nephews fr
  then plug1 (frame_map mk_black (recolour mk_red) fr) t
  else del_finish (del_straight fr) t.

Fixpoint del_repair (c : ctx) (t : tree) : tree :=
  match c with
  | [] => t
  | fr :: c' =>
      if red_tree (frame_sib fr) then
        let '(fr1, fr2) := del_rot fr in
        plug c' (plug1 fr2 (del_final fr1 t))
      else if negb (is_red (frame_flags fr)) && black_nephews fr then
        del_repair c' (plug1 (frame_map id (recolour mk_red) fr) t)
      else plug c' (del_final fr t)
  end.

(** What the code relies on: siblings exist, and so does the near nephew that
    takes the place of a red sibling. *)
Fixpoint del_pre (c : ctx) : Prop :=
  match c with
  | [] => True
  | fr :: c =>
      frame_sib fr <> Leaf /\
      (red_tree (frame_sib fr) = true -> near fr <> Leaf) /\ del_pre c
  end.

Section remove.
Context (F : list positive) (h0 : gmap positive rbt_node).

Lemma addr_sib_ne s fr c t :
  rep F h0 s (fr :: c) t -> frame_sib fr <> Leaf -> addr (frame_sib fr) <> addr t.
Proof.
  intros H Hs. look H. destruct fr as [p pf [|sl x sf sr]|[|sl x sf sr] p pf];
    cbn [frame_sib] in *; try done; cbn [addr]; ndp.
Qed.

(** ** The straightening rotation and the last rotation *)
Lemma wp_remove_finish_l s p pf sl x sf sr c t Q :
  rep F h0 s (InL p pf (Node sl x sf sr) :: c) t -> sr <> Leaf ->
  (forall s', rep F h0 s' c (del_finish (InL p pf (Node sl x sf sr)) t) -> Q tt s') ->
  wp (repair_remove_finish (addr t) (Some p) (Some x)) s Q.
Proof.
  intros H Hsr HQ. unfold repair_remove_finish. look H. destruct sr as [|srl y yf srr]; [done|]. sx.
  wp_bind. eapply (wp_set_f F h0 (fun _ => _)); [rewrite rep_up in H; apply rep_in_r, H|].
  clear dependent s. intros s H. rewrite rep_up in H. cbn [plug1] in H.
  wp_bind. eapply wp_MAKE_BLACK; [exact H|].
  clear dependent s. intros s H. look H. sx. rewrite decide_True by done. sx.
  wp_bind. eapply wp_MAKE_BLACK; [apply rep_in_r, rep_in_r, H|].
  clear dependent s. intros s H. rewrite !rep_up in H. cbn [plug1] in H.
  eapply wp_rotate_left; [exact H|]. intros s' H'. by apply HQ.
Qed.

Lemma wp_remove_finish_r s p pf sl x sf sr c t Q :
  rep F h0 s (InR (Node sl x sf sr) p pf :: c) t -> sl <> Leaf ->
  (forall s', rep F h0 s' c (del_finish (InR (Node sl x sf sr) p pf) t) -> Q tt s') ->
  wp (repair_remove_finish (addr t) (Some p) (Some x)) s Q.
Proof.
  intros H Hsl HQ. unfold repair_remove_finish. look H. destruct sl as [|sll y yf slr]; [done|]. sx.
  wp_bind. eapply (wp_set_f F h0 (fun _ => _)); [rewrite rep_up in H; apply rep_in_l, H|].
  clear dependent s. intros s H. rewrite rep_up in H. cbn [plug1] in H.
  wp_bind. eapply wp_MAKE_BLACK; [exact H|].
  clear dependent s. intros s H. look H. sx.
  rewrite decide_False.
  2: { apply rep_in_r in H. apply addr_sib_ne in H; [|done]. cbn in H. congruence. }
  sx.
  wp_bind. eapply wp_MAKE_BLACK; [apply rep_in_l, rep_in_l, H|].
  clear dependent s. intros s H. rewrite !rep_up in H. cbn [plug1] in H.
  eapply wp_rotate_right; [exact H|]. intros s' H'. by apply HQ.
Qed.

Lemma wp_is_red_at s a nd Q :
  nodes s !! a = Some nd -> Q (is_red (flags nd)) s -> wp (RBT_IS_RED (Some a)) s Q.
Proof. intros. unfold RBT_IS_RED. by sx. Qed.

(** The case analysis of the loop never ends with a black parent and black
    nephews, so what follows has a red nephew or a red parent. *)
Definition del_exit (fr : frame) : Prop :=
  is_red (frame_flags fr) = false -> black_nephews fr = false.

Lemma wp_remove_rotate_l s p pf sl x sf sr c t :
  rep F h0 s (InL p pf (Node sl x sf sr) :: c) t -> del_exit (InL p pf (Node sl x sf sr)) ->
  wp (repair_remove_rotate (addr t) (Some p) (Some x)) s
     (fun _ s' => rep F h0 s' c (del_final (InL p pf (Node sl x sf sr)) t)).
Proof.
  intros H Hb. unfold repair_remove_rotate, del_final, del_exit, black_nephews in *.
  cbn [frame_flags near far] in *. look H.
  wp_bind. eapply wp_is_red_at; [eassumption|]. sx. wp_bind. eapply wp_is_black; [eassumption|].
  sx. wp_bind. eapply wp_is_black; [eassumption|]. cbn [flags].
  destruct (is_red pf && negb (red_tree sl) && negb (red_tree sr)) eqn:E.
  - rewrite andb_assoc, E. wp_bind.
    eapply wp_MAKE_RED; [rewrite rep_up in H; apply rep_in_r, H|].
    clear dependent s. intros s H. rewrite rep_up in H.
    eapply wp_MAKE_BLACK; [exact H|]. intros s' H'. exact H'.
  - rewrite andb_assoc, E. sx. sx. wp_bind. rewrite bool_decide_true by done. cbn [andb].
    unfold del_straight. cbn [far]. destruct (red_tree sr) eqn:Er; cbn [negb].
    + rewrite bool_decide_false; [|destruct t; cbn [addr]; [done|nd]]. cbn [andb].
      apply wp_ret. eapply wp_remove_finish_l; [exact H|by intros ->|done].
    + destruct sl as [|a y yf b].
      { exfalso. simpl in *. destruct (is_red pf); simpl in *; naive_solver. }
      cbn [addr].
      wp_bind. eapply wp_MAKE_RED; [rewrite rep_up in H; apply rep_in_r, H|].
      clear dependent s. intros s H.
      wp_bind. eapply wp_MAKE_BLACK; [apply rep_in_l, H|].
      clear dependent s. intros s H. rewrite rep_up in H.
      wp_bind. eapply wp_MARK_MODIFIED; [exact H|].
      clear dependent s. intros s H.
      wp_bind. eapply wp_MARK_MODIFIED; [apply rep_in_l, H|].
      clear dependent s. intros s H. rewrite rep_up in H.
      wp_bind. eapply wp_rotate_right; [exact H|].
      clear dependent s. intros s H. look H. rd.
      rewrite rep_up in H. cbn [plug1 addr] in *.
      destruct (rep_in_l F h0 s c t p pf
        (Node a y (mk_mod (mk_black yf)) (Node b x (mk_mod (mk_red sf)) sr))) as [_ H'].
      eapply (wp_remove_finish_l s p pf); [apply H', H|by destruct sr|done].
Qed.

Lemma wp_remove_rotate_r s p pf sl x sf sr c t :
  rep F h0 s (InR (Node sl x sf sr) p pf :: c) t -> del_exit (InR (Node sl x sf sr) p pf) ->
  wp (repair_remove_rotate (addr t) (Some p) (Some x)) s
     (fun _ s' => rep F h0 s' c (del_final (InR (Node sl x sf sr) p pf) t)).
Proof.
  intros H Hb. unfold repair_remove_rotate, del_final, del_exit, black_nephews in *.
  cbn [frame_flags near far] in *. look H.
  wp_bind. eapply wp_is_red_at; [eassumption|]. sx. wp_bind. eapply wp_is_black; [eassumption|].
  sx. wp_bind. eapply wp_is_black; [eassumption|]. cbn [flags].
  rewrite (andb_comm (negb (red_tree sr))) in *.
  destruct (is_red pf && negb (red_tree sl) && negb (red_tree sr)) eqn:E.
  - rewrite andb_assoc, E. wp_bind.
    eapply wp_MAKE_RED; [rewrite rep_up in H; apply rep_in_l, H|].
    clear dependent s. intros s H. rewrite rep_up in H.
    eapply wp_MAKE_BLACK; [exact H|]. intros s' H'. exact H'.
  - rewrite andb_assoc, E. sx. sx. wp_bind.
    rewrite bool_decide_false by (destruct t; cbn [addr]; [done|nd]). cbn [andb].
    rewrite bool_decide_true by done. cbn [andb].
    unfold del_straight. cbn [far]. destruct (red_tree sl) eqn:Er; cbn [negb].
    + apply wp_ret. eapply wp_remove_finish_r; [exact H|by intros ->|done].
    + destruct sr as [|a y yf b].
      { exfalso. simpl in *. destruct (is_red pf); simpl in *; naive_solver. }
      cbn [addr].
      wp_bind. eapply wp_MAKE_RED; [rewrite rep_up in H; apply rep_in_l, H|].
      clear dependent s. intros s H.
      wp_bind. eapply wp_MAKE_BLACK; [apply rep_in_r, H|].
      clear dependent s. intros s H. rewrite rep_up in H.
      wp_bind. eapply wp_MARK_MODIFIED; [exact H|].
      clear dependent s. intros s H.
      wp_bind. eapply wp_MARK_MODIFIED; [apply rep_in_r, H|].
      clear dependent s. intros s H. rewrite rep_up in H.
      wp_bind. eapply wp_rotate_left; [exact H|].
      clear dependent s. intros s H. look H. rd.
      rewrite rep_up in H. cbn [plug1 addr] in *.
      destruct (rep_in_r F h0 s c (Node (Node sl x (mk_mod (mk_red sf)) a) y (mk_mod (mk_black yf)) b)
        p pf t) as [_ H'].
      eapply (wp_remove_finish_r s p pf); [apply H', H|by destruct sl|done].
Qed.

Lemma wp_remove_rotate s fr c t :
  rep F h0 s (fr :: c) t -> frame_sib fr <> Leaf -> del_exit fr ->
  wp (repair_remove_rotate (addr t) (Some (frame_addr fr)) (addr (frame_sib fr))) s
     (fun _ s' => rep F h0 s' c (del_final fr t)).
Proof.
  intros H Hs Hb. destruct fr as [p pf [|sl x sf sr]|[|sl x sf sr] p pf]; try done.
  - by apply wp_remove_rotate_l.
  - by apply wp_remove_rotate_r.
Qed.

(** ** The loop *)
Lemma wp_sib {A} (m : option positive -> M rbt A) s fr c t Q :
  rep F h0 s (fr :: c) t -> frame_sib fr <> Leaf -> wp (m (addr (frame_sib fr))) s Q ->
  wp (pl ← ld left (Some (frame_addr fr));
      s ← (if decide (pl = addr t) then ld right (Some (frame_addr fr))
           else ld left (Some (frame_addr fr)));
      m s) s Q.
Proof.
  intros H Hs HQ. pose proof (addr_sib_ne _ _ _ _ H Hs) as Hne.
  destruct fr as [p pf u|u p pf]; look H; cbn [frame_addr frame_sib] in *; sx.
  - rewrite decide_True by done. by sx.
  - rewrite decide_False by done. by sx.
Qed.

Lemma wp_remove_rot s fr c t Q :
  rep F h0 s (fr :: c) t -> frame_sib fr <> Leaf ->
  (forall s', rep F h0 s' ((del_rot fr).1 :: (del_rot fr).2 :: c) t ->
     Q (addr (frame_sib (del_rot fr).1)) s') ->
  wp (MAKE_RED (Some (frame_addr fr));;
      MAKE_BLACK (addr (frame_sib fr));;
      MARK_MODIFIED (addr (frame_sib fr));;
      pl ← ld left (Some (frame_addr fr));
      if decide (addr t = pl)
      then rotate_left (Some (frame_addr fr));; ld right (Some (frame_addr fr))
      else rotate_right (Some (frame_addr fr));; ld left (Some (frame_addr fr))) s Q.
Proof.
  intros H Hs HQ.
  destruct fr as [p pf [|sl x sf sr]|[|sl x sf sr] p pf]; try done;
    cbn [frame_addr frame_sib addr]; clear Hs; rewrite rep_up in H; cbn [plug1] in H;
    wp_bind; (eapply wp_MAKE_RED; [exact H|]); clear dependent s; intros s H;
    wp_bind; (eapply wp_MAKE_BLACK; [apply rep_in_r, H || apply rep_in_l, H|]);
    clear dependent s; intros s H;
    wp_bind; (eapply wp_MARK_MODIFIED; [exact H|]); clear dependent s; intros s H;
    rewrite rep_up in H; cbn [plug1] in H; look H; sx.
  - rewrite decide_True by done. wp_bind. eapply wp_rotate_left; [exact H|].
    clear dependent s. intros s H. look H. rd. apply HQ.
    cbn [del_rot fst snd]. by rewrite !rep_up.
  - rewrite decide_False.
    2: { apply rep_in_r in H. apply addr_sib_ne in H; [|done]. cbn in H. congruence. }
    wp_bind. eapply wp_rotate_right; [exact H|].
    clear dependent s. intros s H. look H. rd. apply HQ.
    cbn [del_rot fst snd]. by rewrite !rep_up.
Qed.

(** The end of a round: recolour the sibling and go up, or leave. *)
Lemma wp_remove_test s fr c t
    (Q : option positive * option positive +
         option (option positive * option positive * option positive) -> rbt -> Prop) :
  rep F h0 s (fr :: c) t -> frame_sib fr <> Leaf ->
  (is_red (frame_flags fr) = false -> black_nephews fr = true -> forall s',
     rep F h0 s' c (plug1 (frame_map id (recolour mk_red) fr) t) ->
     Q (inl (Some (frame_addr fr), ctx_addr c)) s') ->
  (del_exit fr ->
     Q (inr (Some (addr t, Some (frame_addr fr), addr (frame_sib fr)))) s) ->
  wp (pb ← RBT_IS_BLACK (Some (frame_addr fr));
      sl ← ld left (addr (frame_sib fr));
      slb ← RBT_IS_BLACK sl;
      sr ← ld right (addr (frame_sib fr));
      srb ← RBT_IS_BLACK sr;
      if (pb && slb && srb)%bool then
        MAKE_RED (addr (frame_sib fr));;
        pp ← ld parent (Some (frame_addr fr));
        ret (inl (Some (frame_addr fr), pp))
      else ret (inr (Some (addr t, Some (frame_addr fr), addr (frame_sib fr))))) s Q.
Proof.
  intros H Hs HQ1 HQ2.
  destruct fr as [p pf [|sl x sf sr]|[|sl x sf sr] p pf]; try done;
    cbn [frame_addr frame_sib addr frame_flags] in *; clear Hs; look H; wp_bind;
    (eapply wp_is_black_at; [eassumption|]); sx;
    wp_bind; (eapply wp_is_black; [eassumption|]); sx;
    wp_bind; (eapply wp_is_black; [eassumption|]);
    unfold del_exit, black_nephews in *; cbn [flags near far frame_flags] in *.
  - destruct (is_red pf) eqn:Ep; [apply wp_ret, HQ2; done|]. cbn [negb andb].
    destruct (negb (red_tree sl) && negb (red_tree sr)) eqn:E; [|by apply wp_ret, HQ2].
    wp_bind. eapply wp_MAKE_RED; [rewrite rep_up in H; apply rep_in_r, H|].
    clear dependent s. intros s H. look H. sx. apply wp_ret, HQ1; [done..|].
    by rewrite rep_up in H.
  - rewrite (andb_comm (negb (red_tree sr))) in *.
    destruct (is_red pf) eqn:Ep; [apply wp_ret, HQ2; done|]. cbn [negb andb].
    rewrite (andb_comm (negb (red_tree sl))).
    destruct (negb (red_tree sr) && negb (red_tree sl)) eqn:E;
      rewrite andb_comm in E; [|by apply wp_ret, HQ2; rewrite E].
    wp_bind. eapply wp_MAKE_RED; [rewrite rep_up in H; apply rep_in_l, H|].
    clear dependent s. intros s H. look H. sx. apply wp_ret, HQ1; [done..|].
    by rewrite rep_up in H.
Qed.

Definition del_post (T : tree)
    (r : option (option positive * option positive * option positive)) (s : rbt) : Prop :=
  match r with
  | None => rep F h0 s [] T
  | Some (n, p, x) => exists fr c t, n = addr t /\ p = Some (frame_addr fr) /\
      x = addr (frame_sib fr) /\ rep F h0 s (fr :: c) t /\ frame_sib fr <> Leaf /\
      del_exit fr /\ plug c (del_final fr t) = T
  end.

Lemma wp_remove_step s c t :
  rep F h0 s c t -> del_pre c ->
  wp (repair_remove_step (addr t, ctx_addr c)) s (fun x s' =>
    match x with
    | inl np => exists c' t', np = (addr t', ctx_addr c') /\ rep F h0 s' c' t' /\
        del_pre c' /\ (length c' < length c)%nat /\ del_repair c' t' = del_repair c t
    | inr x => del_post (del_repair c t) x s'
    end).
Proof.
  intros H Hpre. unfold repair_remove_step. destruct c as [|fr c].
  { by apply wp_ret. }
  destruct Hpre as (Hs & Hnear & Hpre). cbn [ctx_addr].
  eapply wp_sib; [exact H|done|]. wp_bind.
  assert (Hu : exists par, rep_tree (nodes s) par (frame_sib fr)).
  { pose proof (rep_c _ _ _ _ _ H) as HC. destruct fr; simpl in HC; destruct_and?; eauto. }
  destruct Hu as (par & Hu). eapply wp_is_red; [exact Hu|]. wp_bind. cbn [del_repair].
  destruct (red_tree (frame_sib fr)) eqn:Hred.
  - eapply wp_remove_rot; [exact H|done|]. clear dependent s. intros s H.
    assert (Hfr1 : frame_addr (del_rot fr).1 = frame_addr fr /\
      frame_sib (del_rot fr).1 = near fr /\ is_red (frame_flags (del_rot fr).1) = true).
    { destruct fr as [p pf [|? ? ? ?]|[|? ? ? ?] p pf]; try done; simpl; by rewrite is_red_red. }
    destruct Hfr1 as (Ha & Hb & Hc). specialize (Hnear eq_refl). rewrite <- Ha.
    eapply wp_remove_test; [exact H|by rewrite Hb|congruence|].
    intros Hex. simpl. destruct (del_rot fr) as [fr1 fr2]. cbn [fst snd] in *.
    exists fr1, (fr2 :: c), t. split_and!; try done. congruence.
  - apply wp_ret. eapply wp_remove_test; [exact H|done| |].
    + intros Hb Hn s' H'. rewrite Hb, Hn. cbn [negb andb].
      eexists c, _. split_and!; [|exact H'|done|simpl; lia|done]. by destruct fr.
    + intros Hex. simpl. exists fr, c, t. split_and!; try done.
      unfold del_exit in Hex. destruct (is_red (frame_flags fr)); simpl; [done|].
      by rewrite Hex.
Qed.

(** [repair_after_remove], entered at the parent of the removed node. *)
Lemma wp_remove_loop fuel s c t :
  rep F h0 s c t -> del_pre c -> (length c < fuel)%nat ->
  wp (loop fuel repair_remove_step (addr t, ctx_addr c)) s (del_post (del_repair c t)).
Proof.
  intros H Hpre Hf.
  eapply (wp_loop (fun k a s => exists c' t', a = (addr t', ctx_addr c') /\ rep F h0 s c' t' /\
    del_pre c' /\ length c' = k /\ del_repair c' t' = del_repair c t)); [|exact Hf|].
  - intros k a s' (c' & t' & -> & H' & Hp' & <- & He).
    eapply wp_mono; [by eapply wp_remove_step|]. intros [np|x] s''; cbv beta iota.
    + intros (c2 & t2 & ? & ? & ? & ? & ?). exists (length c2). split; [done|].
      exists c2, t2. split_and!; try done. congruence.
    + by rewrite He.
  - exists c, t. by split_and!.
Qed.

Lemma wp_repair_after_remove s c n nn :
  rep F h0 s c Leaf -> del_pre c -> nodes s !! n = Some nn -> parent nn = ctx_addr c ->
  wp (repair_after_remove (Some n)) s (fun _ s' => rep F h0 s' [] (del_repair c Leaf)).
Proof.
  intros H Hpre Hn Hp. unfold repair_after_remove. wp_bind. eapply wp_path_fuel; [exact H|].
  intros k Hk. sx. rewrite Hp. wp_bind. eapply wp_mono.
  { eapply (wp_remove_loop k s c Leaf); [exact H|done|]. pose proof (length_ctx c Leaf). lia. }
  intros [[[a p] x]|] s'; cbn [del_post]; [|done].
  intros (fr & c' & t & -> & -> & -> & H' & Hs & Hex & He).
  eapply wp_mono; [by eapply wp_remove_rotate|]. intros ? s'' H''. cbv beta in H''.
  apply rep_top in H''. by rewrite He in H''.
Qed.
End remove.
