(* ===== verification/RbtDelete.v ===== *)
(** Removal, continued: exchange with the successor, marking, unlinking, and
    the refinement of the whole of [rbt_remove]. *)
From S2P Require Import Prelude Rbt RbtTree RbtInsert RbtRemove.

(** * Context segments

    A context whose last node hangs below [bp] instead of being the root. *)
Definition seg_par (cs : ctx) (bp : option positive) : option positive :=
  match cs with [] => bp | fr :: _ => Some (frame_addr fr) end.

Fixpoint rep_seg (h : gmap positive rbt_node) (cs : ctx) (hole bp : option positive) : Prop :=
  match cs with
  | [] => True
  | InL a f r :: cs =>
      h !! a = Some (mk_node f hole (addr r) (seg_par cs bp)) /\
      rep_tree h (Some a) r /\ rep_seg h cs (Some a) bp
  | InR l a f :: cs =>
      h !! a = Some (mk_node f (addr l) hole (seg_par cs bp)) /\
      rep_tree h (Some a) l /\ rep_seg h cs (Some a) bp
  end.

(** The address of the top of a segment plugged with something at [hole]. *)
Fixpoint seg_top (cs : ctx) (hole : option positive) : option positive :=
  match cs with [] => hole | fr :: cs => seg_top cs (Some (frame_addr fr)) end.

Lemma seg_top_plug cs t : seg_top cs (addr t) = addr (plug cs t).
Proof. revert t. induction cs as [|[] cs IH]; intros t; simpl; [done| |]; by rewrite <- IH. Qed.

Lemma rep_seg_plug h cs t bp :
  rep_tree h bp (plug cs t) <-> rep_seg h cs (addr t) bp /\ rep_tree h (seg_par cs bp) t.
Proof.
  revert t. induction cs as [|[a f r|l a f] cs IH]; intros t; simpl; [tauto| |];
    rewrite IH; simpl; tauto.
Qed.

Lemma rep_seg_ctx h cs c hole :
  rep_ctx h (cs ++ c) hole <->
  rep_seg h cs hole (ctx_addr c) /\ rep_ctx h c (seg_top cs hole).
Proof.
  revert hole. induction cs as [|[a f r|l a f] cs IH]; intros hole; simpl; [tauto| |];
    rewrite IH; (assert (ctx_addr (cs ++ c) = seg_par cs (ctx_addr c)) as -> by by destruct cs);
    tauto.
Qed.

Lemma rep_seg_ext h h' cs hole bp :
  (forall x, x ∈ cleft cs \/ x ∈ cright cs -> h' !! x = h !! x) ->
  rep_seg h cs hole bp -> rep_seg h' cs hole bp.
Proof.
  revert hole. induction cs as [|[a f r|l a f] c IH]; intros hole Hx; simpl; [done| |];
    intros (Ha & Ht & Hc); (split_and!;
      [ rewrite Hx; [done|]; simpl; set_solver
      | eapply rep_tree_ext; [|exact Ht]; intros; apply Hx; simpl; set_solver
      | apply IH; [|exact Hc]; intros; apply Hx; simpl; set_solver ]).
Qed.

(** Left spines: the contexts [leftmost] goes down. *)
Definition left_spine (cs : ctx) : Prop :=
  Forall (fun fr => match fr with InL _ _ _ => True | InR _ _ _ => False end) cs.

Fixpoint leftmost_ctx (t : tree) (c : ctx) : ctx * tree :=
  match t with
  | Node (Node _ _ _ _ as l) a f r => leftmost_ctx l (InL a f r :: c)
  | _ => (c, t)
  end.

Lemma plug_app cs c t : plug (cs ++ c) t = plug c (plug cs t).
Proof. revert t. induction cs as [|fr cs IH]; intros t; simpl; [done|apply IH]. Qed.

Lemma leftmost_ctx_spec t : t <> Leaf ->
  exists cs s fs rs, (forall c, leftmost_ctx t c = (cs ++ c, Node Leaf s fs rs)) /\
    t = plug cs (Node Leaf s fs rs) /\ left_spine cs.
Proof.
  induction t as [|l IHl a f r _]; intros Ht; [done|].
  destruct l as [|ll b g lr].
  - exists [], a, f, r. split_and!; [done|done|constructor].
  - destruct IHl as (cs & s & fs & rs & E & Hl & Hs); [done|].
    exists (cs ++ [InL a f r]), s, fs, rs. split_and!.
    + intros c. rewrite <- app_assoc. apply E.
    + by rewrite plug_app, <- Hl.
    + apply Forall_app. split; [done|]. by constructor.
Qed.

Section delete.
Context (F : list positive) (h0 : gmap positive rbt_node).

Lemma wp_leftmost : forall t s c, rep F h0 s c t -> t <> Leaf ->
  wp (leftmost (addr t)) s (fun x s' => s' = s /\ x = addr (leftmost_ctx t c).2).
Proof.
  intros t s c H Ht. unfold leftmost. wp_bind. eapply wp_path_fuel; [exact H|].
  intros k Hk. assert (length (elems t) < k)%nat as Hk'.
  { rewrite elems_plug, !length_app in Hk. lia. }
  clear Hk. revert k c H Hk'.
  induction t as [|l IHl a f r _]; intros [|k] c H Hk; try (simpl in Hk; lia); [done|].
  cbn [elems] in Hk. rewrite length_app in Hk. cbn [length] in Hk.
  look H. cbn [addr]. apply wp_loop_step. sx. destruct l as [|ll b g lr].
  - apply wp_ret. done.
  - apply wp_ret. apply IHl; [done|by apply rep_in_l|lia].
Qed.

(** Changing what hangs in the hole of a left spine. *)
Lemma wp_spine_left s a f r cs hole bp n Q :
  rep_seg (nodes s) (InL a f r :: cs) hole bp ->
  NoDup (cleft (InL a f r :: cs) ++ cright (InL a f r :: cs)) ->
  (forall h', rep_seg h' (InL a f r :: cs) n bp ->
     (forall x, x <> a -> h' !! x = nodes s !! x) -> Q tt (mk_rbt (root s) h')) ->
  wp (set_left (Some a) n) s Q.
Proof.
  intros (Ha & Hr & Hs) Hnd HQ. wr. apply HQ.
  - simpl. split_and!; [lk|frame_tree|].
    eapply rep_seg_ext; [|exact Hs]. intros x [Hx|Hx]; by lk.
  - intros x Hx. by rewrite lookup_insert_ne.
Qed.

(** Changing what a segment hangs below. *)
Lemma wp_seg_parent s cs hole bp v Q :
  cs <> [] -> rep_seg (nodes s) cs hole bp -> NoDup (cleft cs ++ cright cs) ->
  (forall h', rep_seg h' cs hole v ->
     (forall x, x ∉ cleft cs ++ cright cs -> h' !! x = nodes s !! x) ->
     Q tt (mk_rbt (root s) h')) ->
  wp (set_parent (seg_top cs hole) v) s Q.
Proof.
  revert hole Q. induction cs as [|fr cs IH]; intros hole Q Hne Hs Hnd HQ; [done|].
  destruct cs as [|fr' cs].
  - clear IH. destruct fr as [a f r|l a f]; destruct Hs as (Ha & Ht & _); simpl in *;
      wr; (apply HQ; [split_and!; [lk|frame_tree|done]|intros x Hx; lk; done]).
  - assert (Hs' : rep_seg (nodes s) (fr' :: cs) (Some (frame_addr fr)) bp).
    { destruct fr; by destruct Hs as (_ & _ & ?). }
    cbn [seg_top]. apply (IH (Some (frame_addr fr))); [done|done| |].
    { destruct fr; nd_sub. }
    intros h' Hs2 Hx. apply HQ.
    + destruct fr as [a f r|l a f]; destruct Hs as (Ha & Ht & _); simpl;
        (split_and!; [rewrite Hx by nd; exact Ha| |exact Hs2]);
        (eapply rep_tree_ext; [|exact Ht]); intros x Hin; rewrite Hx by nd; done.
    + intros x Hout. rewrite Hx; [done|]. destruct fr; nd.
Qed.

Lemma set_parent_node t v : t <> Leaf -> set_parent (addr t) v = set_parent_if (addr t) v.
Proof. by destruct t. Qed.

(** The successor is the right child itself. *)
Lemma wp_swap_adjacent s c l n f x fx rx Q :
  rep F h0 s c (Node l n f (Node Leaf x fx rx)) -> l <> Leaf ->
  (forall s', rep F h0 s' (InR l x f :: c) (Node Leaf n fx rx) -> Q tt s') ->
  wp (swap_with_successor (Some n)) s Q.
Proof.
  intros H Hl HQ. look H. unfold swap_with_successor. cbn [addr] in *.
  sx. sx. sx. wp_bind. sx. sx. sx. sx. sx. sx. sx. sx. sx. sx. sx. sx. apply wp_ret.
  wp_bind. eapply wp_fix_downptr; cbn [nodes root]; [frame_tree|nd|nd_sub|].
  intros s1 Hr1 Hc1 Hx1. sx. rewrite set_parent_node by done. wp_bind.
  eapply (wp_set_parent_if l (Some n)); [|nd_sub|].
  { eapply rep_tree_ext; [|eassumption]. intros y Hy. by lk. }
  intros h2 Hl2 Hx2. sx. sx. sx.
  eapply (wp_set_parent_if rx (Some x)); [|nd_sub|]; cbn [nodes root].
  { eapply rep_tree_ext; [|eassumption]. intros y Hy. by lk. }
  intros h3 Hrx3 Hx3. apply HQ. rewrite rep_up. cbn [plug1].
  eapply (rep_graft F h0 s _ c (Node l n f (Node Leaf x fx rx))); [exact H| | | | | | |];
    cbn [nodes root addr].
  - pose proof (rep_nd _ _ _ _ _ H). nd_sub.
  - intros y Hy. apply (rep_sub _ _ _ _ _ H y). rewrite elems_plug. set_solver.
  - intros y Hy. apply (rep_sub _ _ _ _ _ H y). rewrite elems_plug. set_solver.
  - exact Hr1.
  - eapply rep_ctx_ext; [|exact Hc1]. intros y [Hy|Hy]; by lk.
  - simpl. split_and!; try done; try (by lk).
    eapply rep_tree_ext; [|exact Hl2]. intros y Hy. by lk.
  - intros y Hy. destruct (rep_out F h0 _ _ _ y H Hy) as [Ho1 Ho2].
    rewrite Hx3 by set_solver. lk. done.
Qed.

(** The successor is further down. *)
Lemma wp_swap_far s c l n f rl b fb rr a g ra cs x fx rx Q :
  rep F h0 s c (Node l n f (Node rl b fb rr)) -> l <> Leaf -> rl <> Leaf ->
  (forall c, leftmost_ctx (Node rl b fb rr) c = ((InL a g ra :: cs) ++ c, Node Leaf x fx rx)) ->
  Node rl b fb rr = plug (InL a g ra :: cs) (Node Leaf x fx rx) ->
  (forall s', rep F h0 s' ((InL a g ra :: cs) ++ InR l x f :: c) (Node Leaf n fx rx) -> Q tt s') ->
  wp (swap_with_successor (Some n)) s Q.
Proof.
  intros H Hl Hrl Hlm Hplug HQ. look H. unfold swap_with_successor.
  destruct rl as [|rll rla rlf rlr]; [done|]. cbn [addr] in *. clear Hrl.
  sx. sx. sx. wp_bind. wp_bind.
  eapply wp_mono; [eapply (wp_leftmost (Node (Node rll rla rlf rlr) b fb rr)); [apply rep_in_r, H|done]|].
  rewrite Hlm. intros ? ? [-> ->]. cbn [snd addr].
  assert (Hseg : rep_tree (nodes s) (Some n) (Node (Node rll rla rlf rlr) b fb rr)).
  { refine (conj _ (conj _ _)); eassumption. }
  clear Hlm. rewrite Hplug in Hseg, Hnd, H.
  match type of Hplug with ?t = _ => assert (Htop : Some b = addr t) by done end.
  rewrite Hplug in Htop. apply rep_seg_plug in Hseg as [Hseg Htl].
  pose proof (seg_top_plug (InL a g ra :: cs) (Node Leaf n fx rx)) as Htop'.
  assert (addr (plug (InL a g ra :: cs) (Node Leaf n fx rx)) = Some b) as Htop2.
  { rewrite Htop. rewrite addr_plug, (addr_plug _ (Node Leaf x fx rx)). done. }
  rewrite Htop2 in Htop'. clear Hplug Htop Htop2.
  repeat match goal with H : rep_tree _ (Some b) _ |- _ => clear H end.
  cbn [rep_tree addr seg_par frame_addr] in Htl. destruct Htl as (Hx & _ & Hrx).
  assert (Hndc : NoDup (cleft (InL a g ra :: cs) ++ cright (InL a g ra :: cs))).
  { clear - Hnd. nd_sub. }
  sx. sx. sx. sx. sx. wp_bind.
  eapply wp_spine_left with (hole := Some x) (bp := Some n); cbn [nodes root]; [|exact Hndc|].
  { eapply rep_seg_ext; [|exact Hseg]. intros y [Hy|Hy]; by lk. }
  intros h1 Hseg1 Hx1. apply wp_ret. wp_bind.
  assert (forall y, y <> a -> y <> n -> y <> x -> h1 !! y = nodes s !! y) as Hx1'.
  { intros y ? ? ?. by rewrite Hx1, !lookup_insert_ne. }
  eapply wp_fix_downptr; cbn [nodes root].
  { eapply rep_ctx_ext; [|exact Hc]. intros y [Hy|Hy]; rewrite Hx1' by nd; done. }
  { nd. } { clear - Hnd. nd_sub. }
  intros s2 Hr2 Hc2 Hx2. clear Hx1'.
  sx. rewrite set_parent_node by done. wp_bind.
  eapply (wp_set_parent_if l (Some n)); [|clear - Hnd; nd_sub|].
  { eapply rep_tree_ext; [|eassumption]. intros y Hy. by lk. }
  intros h3 Hl3 Hx3. sx. wp_bind.
  rewrite <- Htop'. cbn [addr].
  eapply (wp_seg_parent _ (InL a g ra :: cs) (Some n) (Some n)); cbn [nodes root]; [done| |exact Hndc|].
  { eapply rep_seg_ext; [|exact Hseg1]. intros y [Hy|Hy]; by lk. }
  intros h4 Hseg4 Hx4. sx.
  eapply (wp_set_parent_if rx (Some x)); [|clear - Hnd; nd_sub|]; cbn [nodes root].
  { eapply rep_tree_ext; [|eassumption]. intros y Hy. by lk. }
  intros h5 Hrx5 Hx5. apply HQ. rewrite rep_plug, rep_up. cbn [plug1].
  eapply (rep_graft F h0 s _ c _); [exact H| | | | | | |]; cbn [nodes root].
  - clear - Hnd. nd_sub.
  - intros y Hy. apply (rep_sub _ _ _ _ _ H y). rewrite elems_plug.
    cbn [elems] in *. rewrite elems_plug in *. set_solver.
  - intros y Hy. apply (rep_sub _ _ _ _ _ H y). rewrite elems_plug. set_solver.
  - exact Hr2.
  - eapply rep_ctx_ext; [|exact Hc2]. intros y [Hy|Hy]; by lk.
  - cbn [rep_tree]. rewrite <- (seg_top_plug _ (Node Leaf n fx rx)), rep_seg_plug, Htop'.
    split_and!; [by lk| | |].
    + eapply rep_tree_ext; [|exact Hl3]. intros y Hy. by lk.
    + eapply rep_seg_ext; [|exact Hseg4]. intros y [Hy|Hy]; by lk.
    + cbn [rep_tree seg_par frame_addr]. split_and!; [by lk|done|exact Hrx5].
  - intros y Hy. destruct (rep_out F h0 _ _ _ y H Hy) as [Ho1 Ho2]. by lk.
Qed.

(** [rbt_mark_modified] marks the node and all its ancestors. *)
Definition mark_ctx (c : ctx) : ctx := map (frame_map mk_mod id) c.

Lemma mark_ctx_sides c : cleft (mark_ctx c) = cleft c /\ cright (mark_ctx c) = cright c.
Proof. induction c as [|[] c [IH1 IH2]]; simpl; rewrite ?IH1, ?IH2; done. Qed.

Lemma wp_mark_modified s c l n f r :
  rep F h0 s c (Node l n f r) ->
  wp (rbt_mark_modified (Some n)) s
     (fun _ s' => rep F h0 s' (mark_ctx c) (Node l n (mk_mod f) r)).
Proof.
  intros H. unfold rbt_mark_modified. wp_bind. eapply wp_path_fuel; [exact H|].
  intros k Hk. pose proof (length_ctx c (Node l n f r)) as Hl. cbn [elems] in Hl.
  rewrite length_app in Hl. cbn [length] in Hl.
  enough (G : forall (k : nat) c l n f r s, rep F h0 s c (Node l n f r) -> (length c + 1 < k)%nat ->
    wp (loop k (fun n => match n with
      | None => ret (inr tt)
      | Some _ => MARK_MODIFIED n;; p ← ld parent n; ret (inl p)
      end) (Some n)) s (fun _ s' => rep F h0 s' [] (plug (mark_ctx c) (Node l n (mk_mod f) r)))).
  { eapply wp_mono; [apply G; [exact H|lia]|]. intros ? s' H'. by apply rep_top. }
  clear. induction k as [|k IH]; intros c l n f r s H Hk; [lia|].
  apply wp_loop_step. wp_bind. eapply wp_MARK_MODIFIED; [exact H|].
  clear dependent s. intros s H. look H. sx. apply wp_ret.
  destruct c as [|[a g u|u a g] c]; cbn [ctx_addr frame_addr].
  - destruct k; [simpl in Hk; lia|]. apply wp_loop_step. by apply wp_ret.
  - rewrite rep_up in H. apply (IH c _ a g u s H). simpl in Hk. lia.
  - rewrite rep_up in H. apply (IH c u a g _ s H). simpl in Hk. lia.
Qed.

(** ** Unlinking *)
Definition rm_child (l r : tree) : tree := match l with Leaf => r | _ => l end.

(** Removal of a node with at most one child. *)
Definition del_unlink (c : ctx) (l : tree) (f : Z) (r : tree) : tree :=
  match rm_child l r with
  | Leaf => if is_red f then plug (mark_ctx c) Leaf else del_repair (mark_ctx c) Leaf
  | ch => plug (mark_ctx c) (recolour mk_black ch)
  end.

(** The focus at which the node is unlinked, after the exchange with its
    successor. *)
Definition del_target (c : ctx) (l : tree) (f : Z) (r : tree) : ctx * (tree * Z * tree) :=
  match l, r with
  | Leaf, _ | _, Leaf => (c, (l, f, r))
  | _, _ =>
      match leftmost_ctx r [] with
      | (cs, Node _ x fx rx) => (cs ++ InR l x f :: c, (Leaf, fx, rx))
      | (cs, Leaf) => (c, (l, f, r))
      end
  end.

(** [rbt_remove] of the node at the focus. *)
Definition del_focus (c : ctx) (l : tree) (f : Z) (r : tree) : tree :=
  let '(c, (l, f, r)) := del_target c l f r in del_unlink c l f r.

Lemma del_pre_mark c : del_pre (mark_ctx c) <-> del_pre c.
Proof. induction c as [|[a f [|? ? ? ?]|[|? ? ? ?] a f] c IH]; simpl; rewrite ?IH; done. Qed.

Lemma wp_swap s c l n f r Q :
  rep F h0 s c (Node l n f r) -> l <> Leaf -> r <> Leaf ->
  (forall s', let '(c', (l', f', r')) := del_target c l f r in
     rep F h0 s' c' (Node l' n f' r') -> Q tt s') ->
  wp (swap_with_successor (Some n)) s Q.
Proof.
  intros H Hl Hr HQ. destruct (leftmost_ctx_spec r Hr) as (cs & x & fx & rx & Hlm & Hplug & Hsp).
  assert (E : del_target c l f r = (cs ++ InR l x f :: c, (Leaf, fx, rx))).
  { unfold del_target. rewrite Hlm, app_nil_r. by destruct l, r. }
  rewrite E in HQ. clear E. destruct r as [|rl b fb rr]; [done|]. destruct rl as [|rll ra rf rlr].
  - specialize (Hlm []). cbn [leftmost_ctx] in Hlm. rewrite app_nil_r in Hlm.
    injection Hlm as <- <- <- <-. by eapply wp_swap_adjacent.
  - destruct cs as [|[a g ra'|] cs]; [|by eapply wp_swap_far|].
    + simpl in Hplug. congruence.
    + by inversion Hsp.
Qed.

Lemma wp_link_child s c l n f r ch Q :
  rep F h0 s c (Node l n f r) -> ch = rm_child l r -> l = Leaf \/ r = Leaf ->
  (forall s', root s' = match c with [] => addr ch | _ => root s end ->
     rep_ctx (nodes s') c (addr ch) -> rep_tree (nodes s') (Some n) ch ->
     nodes s' !! n = Some (mk_node f (addr l) (addr r) (ctx_addr c)) ->
     (forall x, x ∉ cleft c ++ cright c -> nodes s' !! x = nodes s !! x) -> Q tt s') ->
  wp (fix_downptr (ctx_addr c) (Some n) (addr ch)) s Q.
Proof.
  intros H -> Hlr HQ. look H.
  eapply wp_fix_downptr; [exact Hc|nd|clear -Hnd; nd_sub|]. intros s' Hr Hc' Hx.
  apply HQ; try done.
  - destruct l; cbn [rm_child] in *; (eapply rep_tree_ext; [|eassumption]); intros x Hin; by lk.
  - by lk.
Qed.

(** What the removed node still points to. *)
Definition stale (s : rbt) (n : positive) (c : ctx) (l r : tree) : Prop :=
  exists f, nodes s !! n = Some (mk_node f (addr l) (addr r) (ctx_addr c)).

Lemma ctx_addr_mark c : ctx_addr (mark_ctx c) = ctx_addr c.
Proof. by destruct c as [|[] c]. Qed.

(** What touches a tree only leaves the other nodes alone. *)
Lemma wp_frame_node (m : M rbt unit) s c t t' n nd :
  (forall F' h0', rep F' h0' s c t -> wp m s (fun _ s' => rep F' h0' s' [] t')) ->
  rep F h0 s c t -> n ∉ elems (plug c t) -> nodes s !! n = Some nd ->
  wp m s (fun _ s' => rep F h0 s' [] t' /\ nodes s' !! n = Some nd).
Proof.
  intros Hm H Hn Hnn. eapply wp_mono; [apply (Hm (elems (plug c t)) (nodes s)); destruct H; by split|].
  intros [] s' H'. split.
  - eapply rep_weaken; [exact H'|apply (rep_sub _ _ _ _ _ H)|apply (rep_frame _ _ _ _ _ H)].
  - by rewrite (rep_frame _ _ _ _ _ H').
Qed.

(** The node is in no tree any more, its only child has moved up. *)
Lemma wp_unlink s c l n f r :
  rep F h0 s c (Node l n f r) -> l = Leaf \/ r = Leaf ->
  (rm_child l r = Leaf -> is_red f = false -> del_pre c) ->
  wp (rbt_mark_modified (Some n);;
      l ← ld left (Some n);
      r ← ld right (Some n);
      let s := match l with Some _ => l | None => r end in
      np ← ld parent (Some n);
      fix_downptr np (Some n) s;;
      match s with
      | Some _ =>
          np ← ld parent (Some n);
          set_parent s np;;
          MAKE_BLACK s
      | None =>
          nred ← RBT_IS_RED (Some n);
          if nred : bool then ret tt else repair_after_remove (Some n)
      end) s (fun _ s' => rep F h0 s' [] (del_unlink c l f r) /\ stale s' n (mark_ctx c) l r).
Proof.
  intros H Hlr Hpre. unfold del_unlink. wp_bind.
  eapply wp_mono; [eapply wp_mark_modified, H|]. cbv beta. clear dependent s. intros _ s H.
  rewrite <- del_pre_mark in Hpre. revert H Hpre. generalize (mark_ctx c). clear c. intros c H Hpre.
  look H. sx. sx. cbv zeta. sx. wp_bind.
  assert (E : match addr l with Some _ => addr l | None => addr r end = addr (rm_child l r))
    by by destruct l.
  rewrite E. eapply wp_link_child; [exact H|done|done|]. intros s' Hr Hc' Ht Hn Hx.
  assert (Hsub : forall y, y ∈ elems (rm_child l r) -> y ∈ elems (Node l n (mk_mod f) r)).
  { destruct l; simpl; set_solver. }
  destruct (rm_child l r) as [|cl ca cf cr] eqn:Ech; cbn [addr].
  - wp_bind. eapply wp_is_red_at; [exact Hn|]. cbn [flags]. rewrite is_red_mod.
    assert (H' : rep F h0 s' c Leaf).
    { eapply (rep_graft F h0 s); [exact H|clear - Hnd; nd_sub| | |exact Hr|exact Hc'|done|].
      - intros y ?%elem_of_nil; done.
      - intros y Hy. apply (rep_sub _ _ _ _ _ H y). rewrite elems_plug. set_solver.
      - intros y Hy. apply Hx. by eapply rep_out. }
    destruct (is_red f).
    + apply wp_ret. split; [by apply rep_top in H'|by eexists].
    + eapply wp_mono; [eapply (wp_frame_node _ _ _ _ _ n); [|exact H'| |exact Hn]|].
      2: { rewrite elems_plug. clear -Hnd. nd. }
      * intros F' h0' Hrep. eapply wp_repair_after_remove; [exact Hrep|by apply Hpre|exact Hn|done].
      * intros [] s'' [? ?]. split; [done|by eexists].
  - cbn [rep_tree] in Ht. destruct Ht as (Hca & Hcl & Hcr).
    assert (Hndch : NoDup (cleft c ++ elems (Node cl ca cf cr) ++ cright c)).
    { clear - Hnd Ech Hlr. destruct l; cbn [rm_child] in Ech;
        [subst r|injection Ech as <- <- <- <-]; nd_sub. }
    assert (Hnca : n <> ca).
    { clear -Hnd Ech Hlr. destruct l; cbn [rm_child] in Ech;
        [subst r|injection Ech as <- <- <- <-]; nd. }
    sx. sx. eapply wp_mono; [eapply (wp_frame_node _ _ c (Node cl ca cf cr) _ n)|].
    { intros F' h0' Hrep. eapply wp_MAKE_BLACK; [exact Hrep|]. intros s'' H''. by apply rep_top in H''. }
    4: { intros [] s'' [? ?]. split; [done|by eexists]. }
    3: { cbn [nodes]. rewrite lookup_insert_ne by done. exact Hn. }
    2: { rewrite elems_plug. clear -Hnd Ech Hlr. destruct l; cbn [rm_child] in Ech;
        [subst r|injection Ech as <- <- <- <-]; nd. }
    eapply (rep_graft F h0 s); [exact H|exact Hndch| | | | | |]; cbn [nodes root addr].
    + intros y Hy. apply (rep_sub _ _ _ _ _ H y). rewrite elems_plug. set_solver.
    + intros y Hy. apply (rep_sub _ _ _ _ _ H y). rewrite elems_plug. set_solver.
    + exact Hr.
    + eapply rep_ctx_ext; [|exact Hc']. intros y [Hy|Hy]; by lk.
    + simpl. split_and!; [lk|frame_tree|frame_tree].
    + intros y Hy. destruct (rep_out F h0 _ _ _ y H Hy) as [Ho1 Ho2].
      rewrite lookup_insert_ne by set_solver. by apply Hx.
Qed.

Definition del_pre_target (c : ctx) (l : tree) (f : Z) (r : tree) : Prop :=
  let '(c', (l', f', r')) := del_target c l f r in
  rm_child l' r' = Leaf -> is_red f' = false -> del_pre c'.

Lemma del_target_child c l f r :
  let '(c', (l', f', r')) := del_target c l f r in l' = Leaf \/ r' = Leaf.
Proof.
  unfold del_target. destruct l as [|l1 la lf l2]; [by left|].
  destruct r as [|r1 ra rf r2]; [by right|].
  destruct (leftmost_ctx_spec (Node r1 ra rf r2)) as (cs & x & fx & rx & E & _ & _); [done|].
  rewrite E. by left.
Qed.

(** [rbt_remove] computes [del_focus]; the removed node keeps its pointers. *)
Lemma wp_rbt_remove_stale s c l n f r :
  rep F h0 s c (Node l n f r) -> del_pre_target c l f r ->
  wp (rbt_remove (Some n)) s (fun _ s' => rep F h0 s' [] (del_focus c l f r) /\
    let '(c', (l', _, r')) := del_target c l f r in stale s' n (mark_ctx c') l' r').
Proof.
  intros H Hpre. unfold rbt_remove. look H. sx. sx. wp_bind.
  pose proof (del_target_child c l f r) as Hch. unfold del_pre_target, del_focus in *.
  pose proof (fun Q => wp_swap s c l n f r Q H) as Hswap.
  destruct (del_target c l f r) as [c' [[l' f'] r']] eqn:E.
  destruct l as [|l1 la lf l2], r as [|r1 ra rf r2]; cbn [addr];
    try (apply wp_ret; injection E as <- <- <- <-; by apply wp_unlink).
  apply Hswap; [done|done|]. intros s' H'. by apply wp_unlink.
Qed.

Lemma wp_rbt_remove s c l n f r :
  rep F h0 s c (Node l n f r) -> del_pre_target c l f r ->
  wp (rbt_remove (Some n)) s (fun _ s' => rep F h0 s' [] (del_focus c l f r)).
Proof. intros H Hpre. eapply wp_mono; [by apply wp_rbt_remove_stale|]. by intros [] s' [? _]. Qed.
End delete.
