(* ===== verification/RbtInv.v ===== *)
(** The red-black invariants and the in-order sequence, and their preservation
    by the two zipper algorithms. *)
From S2P Require Import Prelude Rbt RbtTree RbtInsert RbtRemove RbtDelete.

(** * The invariant

    [RB n t]: every path of [t] from the root to NULL has [n] black nodes, and no
    red node has a red child. *)
Inductive RB : nat -> tree -> Prop :=
  | RB_leaf : RB 0 Leaf
  | RB_red n l a f r :
      is_red f = true -> RB n l -> RB n r -> red_tree l = false -> red_tree r = false ->
      RB n (Node l a f r)
  | RB_black n l a f r :
      is_red f = false -> RB n l -> RB n r -> RB (Datatypes.S n) (Node l a f r).

(** A whole tree: the root is black too. *)
Definition rb_tree (t : tree) : Prop := red_tree t = false /\ exists n, RB n t.

(** The hole of a context must be black, when there is no parent or the parent
    is red. *)
Definition needs_black (c : ctx) : bool :=
  match c with [] => true | fr :: _ => is_red (frame_flags fr) end.

(** [CRB n c]: [c] around a tree of black height [n] is a red-black tree, up to
    the colour of the hole. *)
Inductive CRB : nat -> ctx -> Prop :=
  | CRB_nil n : CRB n []
  | CRB_red n fr c :
      is_red (frame_flags fr) = true -> RB n (frame_sib fr) -> red_tree (frame_sib fr) = false ->
      needs_black c = false -> CRB n c -> CRB n (fr :: c)
  | CRB_black n fr c :
      is_red (frame_flags fr) = false -> RB n (frame_sib fr) ->
      CRB (Datatypes.S n) c -> CRB n (fr :: c).

#[export] Hint Constructors RB CRB : rbt.

Lemma RB_plug n c t :
  CRB n c -> RB n t -> (needs_black c = true -> red_tree t = false) -> rb_tree (plug c t).
Proof.
  intros Hc. revert t. induction Hc as [n|n fr c Hr Hs Hb Hnb Hc IH|n fr c Hr Hs Hc IH];
    intros t Ht Hk; simpl.
  - split; [by apply Hk|eauto].
  - apply IH; [|congruence]. specialize (Hk Hr).
    destruct fr; simpl in *; by constructor.
  - apply IH; [|intros _; by destruct fr].
    destruct fr; simpl in *; by constructor.
Qed.

Lemma RB_unplug c t :
  rb_tree (plug c t) -> exists n, CRB n c /\ RB n t /\ (needs_black c = true -> red_tree t = false).
Proof.
  revert t. induction c as [|fr c IH]; intros t; simpl.
  - intros [Hr [n Hn]]. exists n. split_and!; [constructor|done|done].
  - intros H. destruct (IH _ H) as (n & Hc & Ht & Hk).
    destruct fr as [a f r|l a f]; simpl in *; inversion Ht; subst.
    all: eexists; split_and!; [|eassumption|intros; congruence].
    all: first [ solve [apply CRB_red; simpl; try done; destruct (needs_black c);
                        [specialize (Hk eq_refl); congruence|done]]
               | by apply CRB_black ].
Qed.

Lemma elems_recolour φ t : elems (recolour φ t) = elems t.
Proof. by destruct t. Qed.

(** Equality of lists up to associativity of append. *)
Ltac list_assoc := repeat (rewrite <- ?app_assoc; cbn [app]); done.

(** * Insertion *)
Lemma elems_ins_repair c t : elems (ins_repair c t) = elems (plug c t).
Proof.
  assert (G : forall k c t, (length c <= k)%nat -> elems (ins_repair c t) = elems (plug c t)).
  { clear. induction k as [|k IH]; intros [|p [|g c]] [|l a f r] Hk; try done; try (simpl in Hk; lia).
    cbn [ins_repair]. destruct (is_red (frame_flags p)); [|done].
    destruct (red_tree (frame_sib g)).
    - rewrite IH by (simpl in Hk; lia). rewrite !elems_plug.
      destruct g, p; simpl; rewrite ?elems_recolour; list_assoc.
    - rewrite !elems_plug.
      destruct g, p; simpl; list_assoc. }
  by apply (G (length c)).
Qed.

Lemma RB_recolour_black n t :
  RB n t -> red_tree t = true -> RB (Datatypes.S n) (recolour mk_black t).
Proof.
  intros H Hr. destruct H; simpl in *; [done| |congruence].
  constructor; [apply is_red_black|done|done].
Qed.

Lemma RB_ins_rotate n l a f r p g :
  is_red f = true -> RB n l -> RB n r -> red_tree l = false -> red_tree r = false ->
  is_red (frame_flags p) = true -> is_red (frame_flags g) = false ->
  RB n (frame_sib p) -> red_tree (frame_sib p) = false ->
  RB n (frame_sib g) -> red_tree (frame_sib g) = false ->
  RB (Datatypes.S n) (ins_rotate l a f r p g) /\ red_tree (ins_rotate l a f r p g) = false.
Proof.
  intros. destruct p, g; simpl in *; autorewrite with rbt; (split; [|done]);
    (apply RB_black; [by rewrite is_red_black| |]); first
    [ by constructor | constructor; autorewrite with rbt; done ].
Qed.

Lemma ins_repair_rb : forall k n c l a f r, (length c <= k)%nat ->
  CRB n c -> is_red f = true -> RB n (Node l a f r) -> rb_tree (ins_repair c (Node l a f r)).
Proof.
  induction k as [|k IH]; intros n [|p c] l a f r Hk Hc Hf Ht; try (simpl in Hk; lia).
  1,2: simpl; split; [apply is_red_black|]; exists (Datatypes.S n);
    inversion Ht; subst; [|congruence]; constructor; [apply is_red_black|done..].
  inversion Hc as [|? ? ? Hpr Hps Hpb Hnb Hc'|? ? ? Hpr Hps Hc']; subst.
  - destruct c as [|g c]; [done|]. simpl in Hnb. cbn [ins_repair]. rewrite Hpr.
    inversion Hc' as [|? ? ? Hgr|? ? ? Hgr Hgs Hc'']; subst; [congruence|].
    inversion Ht; subst; [|congruence].
    destruct (red_tree (frame_sib g)) eqn:Hu.
    + assert (RB (Datatypes.S n) (plug1 (frame_map mk_black id p) (Node l a f r))) as Hp'.
      { destruct p; simpl in *; apply RB_black; try done; apply is_red_black. }
      pose proof (RB_recolour_black _ _ Hgs Hu) as Hu'.
      assert (Hb : forall t, red_tree (recolour mk_black t) = false).
      { intros [|? ? ? ?]; simpl; [done|]. apply is_red_black. }
      assert (Hpb' : red_tree (plug1 (frame_map mk_black id p) (Node l a f r)) = false).
      { destruct p; simpl; apply is_red_black. }
      destruct g as [ga gf gu|gu ga gf]; cbn [frame_map plug1 frame_sib] in *;
        (apply (IH (Datatypes.S n)); [simpl in Hk; lia|done|apply is_red_red|]);
        (apply RB_red; [apply is_red_red|done|done|done|done]).
    + destruct (RB_ins_rotate n l a f r p g) as [H1 H2]; try done.
      by eapply RB_plug.
  - cbn [ins_repair]. rewrite Hpr.
    assert (rb_tree (plug (p :: c) (Node l a f r))) as Hrb.
    { eapply RB_plug; [exact Hc|exact Ht|]. simpl. congruence. }
    destruct c; exact Hrb.
Qed.

(** * Removal *)
Lemma elems_del_final fr t : elems (del_final fr t) = elems (plug1 fr t).
Proof.
  unfold del_final, del_straight. repeat case_match; subst; simpl in *;
    rewrite ?elems_recolour; try list_assoc;
    destruct fr as [p pf [|sl x sf sr]|[|sl x sf sr] p pf]; simpl; rewrite ?elems_recolour; list_assoc.
Qed.

Lemma elems_del_repair c t : elems (del_repair c t) = elems (plug c t).
Proof.
  revert t. induction c as [|fr c IH]; intros t; cbn [del_repair plug]; [done|].
  repeat case_match.
  - rewrite !elems_plug.
    destruct fr as [p pf [|sl x sf sr]|[|sl x sf sr] p pf]; try done; simplify_eq/=;
      rewrite elems_del_final; simpl; list_assoc.
  - rewrite IH, !elems_plug. destruct fr; simpl; rewrite ?elems_recolour; list_assoc.
  - rewrite !elems_plug, elems_del_final. done.
Qed.

Lemma RB_black_children n l a f r :
  is_red f = false -> RB (Datatypes.S n) (Node l a f r) -> RB n l /\ RB n r.
Proof. intros Hf H. inversion H; subst; [congruence|done]. Qed.

Lemma RB_red_children n l a f r :
  is_red f = true -> RB n (Node l a f r) ->
  RB n l /\ RB n r /\ red_tree l = false /\ red_tree r = false.
Proof. intros Hf H. inversion H; subst; [done|congruence]. Qed.

Lemma RB_recolour_red n t :
  RB (Datatypes.S n) t -> red_tree t = false ->
  (match t with Leaf => False | Node l _ _ r => red_tree l = false /\ red_tree r = false end) ->
  RB n (recolour mk_red t).
Proof.
  destruct t as [|l a f r]; [done|]. intros H Hb [Hl Hr]. simpl in Hb.
  apply RB_black_children in H as [H1 H2]; [|done].
  simpl. constructor; autorewrite with rbt; done.
Qed.

Lemma recolour_black_black t : red_tree (recolour mk_black t) = false.
Proof. destruct t; simpl; [done|apply is_red_black]. Qed.

(** [del_straight] keeps the black height and makes the far nephew red. *)
Lemma RB_del_straight n fr :
  RB (Datatypes.S n) (frame_sib fr) -> red_tree (frame_sib fr) = false -> black_nephews fr = false ->
  RB n (near (del_straight fr)) /\ RB n (far (del_straight fr)) /\
  red_tree (far (del_straight fr)) = true /\ frame_sib (del_straight fr) <> Leaf /\
  frame_flags (del_straight fr) = frame_flags fr /\ frame_addr (del_straight fr) = frame_addr fr.
Proof.
  intros H Hb Hn. unfold del_straight, black_nephews in *.
  destruct (red_tree (far fr)) eqn:E.
  - destruct fr as [p pf [|sl x sf sr]|[|sl x sf sr] p pf]; simpl in *; try discriminate;
      apply RB_black_children in H as [H1 H2]; done.
  - rewrite andb_true_r in Hn. apply negb_false_iff in Hn.
    destruct fr as [p pf [|[|a y yf b] x sf sr]|[|sl x sf [|a y yf b]] p pf]; simpl in *;
      try discriminate; apply RB_black_children in H as [H1 H2]; try done;
      (apply RB_red_children in H1 || apply RB_red_children in H2); try done; destruct_and?;
      (split_and!; [done| |by autorewrite with rbt|done|done|done]);
      (apply RB_red; [by autorewrite with rbt|done..]).
Qed.

Lemma RB_del_finish n fr t :
  RB n (near fr) -> RB n (far fr) -> red_tree (far fr) = true -> frame_sib fr <> Leaf ->
  RB n t ->
  RB (if is_red (frame_flags fr) then Datatypes.S n else Datatypes.S (Datatypes.S n)) (del_finish fr t) /\
  red_tree (del_finish fr t) = is_red (frame_flags fr).
Proof.
  intros H1 H2 Hf Hs Ht.
  destruct fr as [p pf [|sl x sf sr]|[|sl x sf sr] p pf]; try done;
    cbn [near far frame_flags del_finish red_tree] in *; (split; [|apply is_red_mod]).
  all: pose proof (RB_recolour_black _ _ H2 Hf).
  all: destruct (is_red pf) eqn:E;
    [apply RB_red|apply RB_black]; rewrite ?is_red_mod; try done;
    try (apply RB_black; [apply is_red_black|done|done]);
    try apply recolour_black_black; try (simpl; apply is_red_black).
Qed.

Lemma del_final_rb n fr t :
  RB (Datatypes.S n) (frame_sib fr) -> red_tree (frame_sib fr) = false ->
  RB n t -> red_tree t = false -> del_exit fr ->
  RB (if is_red (frame_flags fr) then Datatypes.S n else Datatypes.S (Datatypes.S n)) (del_final fr t) /\
  (is_red (frame_flags fr) = false -> red_tree (del_final fr t) = false).
Proof.
  intros Hs Hsb Ht Htb Hex. unfold del_final.
  destruct (is_red (frame_flags fr) && black_nephews fr) eqn:E.
  - apply andb_true_iff in E as [E1 E2]. rewrite E1. split; [|congruence].
    unfold black_nephews in E2. apply andb_true_iff in E2 as [E2 E3].
    apply negb_true_iff in E2, E3.
    assert (RB n (recolour mk_red (frame_sib fr))).
    { apply RB_recolour_red; [done|done|].
      destruct fr as [p pf [|sl x sf sr]|[|sl x sf sr] p pf]; simpl in *; try done; by inversion Hs. }
    destruct fr; simpl in *; (apply RB_black; [apply is_red_black|done|done]).
  - assert (Hn : black_nephews fr = false).
    { unfold del_exit in Hex. destruct (is_red (frame_flags fr)); [done|auto]. }
    destruct (RB_del_straight n fr Hs Hsb Hn) as (H1 & H2 & H3 & H4 & H5 & _).
    destruct (RB_del_finish n (del_straight fr) t H1 H2 H3 H4 Ht) as [H6 H7].
    rewrite H5 in H6, H7. split; [exact H6|congruence].
Qed.

Lemma RB_S_sib n t : RB (Datatypes.S n) t -> t <> Leaf.
Proof. intros H ->. inversion H. Qed.

Lemma CRB_del_pre n c : CRB (Datatypes.S n) c -> del_pre c.
Proof.
  revert n. induction c as [|fr c IH]; intros n Hc; simpl; [done|].
  inversion Hc as [|? ? ? Hr Hs Hb Hnb Hc'|? ? ? Hr Hs Hc']; subst.
  - split_and!; [by eapply RB_S_sib|congruence|by eapply IH].
  - split_and!; [by eapply RB_S_sib| |by eapply IH].
    intros Hred. destruct fr as [p pf [|sl x sf sr]|[|sl x sf sr] p pf]; simpl in *; try done;
      apply RB_red_children in Hs; try done; destruct_and?; by eapply RB_S_sib.
Qed.

Lemma del_repair_rb n c t :
  CRB (Datatypes.S n) c -> RB n t -> red_tree t = false -> rb_tree (del_repair c t).
Proof.
  revert n t. induction c as [|fr c IH]; intros n t Hc Ht Htb; cbn [del_repair].
  { split; eauto. }
  inversion Hc as [|? ? ? Hr Hs Hb Hnb Hc'|? ? ? Hr Hs Hc']; subst.
  - rewrite Hb, Hr. cbn [negb andb].
    destruct (del_final_rb n fr t) as [H1 H2]; try done; [unfold del_exit; congruence|].
    rewrite Hr in H1. eapply RB_plug; [exact Hc'|exact H1|]. congruence.
  - destruct (red_tree (frame_sib fr)) eqn:Hred.
    + assert (exists fr1 fr2, del_rot fr = (fr1, fr2) /\ is_red (frame_flags fr1) = true /\
        RB (Datatypes.S n) (frame_sib fr1) /\ red_tree (frame_sib fr1) = false /\
        is_red (frame_flags fr2) = false /\ RB (Datatypes.S n) (frame_sib fr2)) as (fr1 & fr2 & E & ?).
      { destruct fr as [p pf [|sl x sf sr]|[|sl x sf sr] p pf]; simpl in *; try done;
          apply RB_red_children in Hs; try done; destruct_and?;
          do 2 eexists; (split; [reflexivity|]); simpl; autorewrite with rbt; done. }
      rewrite E. destruct_and?.
      destruct (del_final_rb n fr1 t) as [H1' H2']; try done; [unfold del_exit; congruence|].
      match goal with H : is_red (frame_flags fr1) = true |- _ => rewrite H in H1' end.
      eapply RB_plug; [exact Hc'| |].
      * destruct fr2; simpl in *; by apply RB_black.
      * intros _. by destruct fr2.
    + rewrite Hr. cbn [negb andb]. destruct (black_nephews fr) eqn:Hbn.
      * apply (IH (Datatypes.S n)); [done| |by destruct fr].
        assert (RB n (recolour mk_red (frame_sib fr))).
        { apply RB_recolour_red; [done|done|]. unfold black_nephews in Hbn.
          apply andb_true_iff in Hbn as [E2 E3]. apply negb_true_iff in E2, E3.
          destruct fr as [p pf [|sl x sf sr]|[|sl x sf sr] p pf]; simpl in *; try done; by inversion Hs. }
        destruct fr; simpl in *; by apply RB_black.
      * destruct (del_final_rb n fr t) as [H1 H2]; try done; [by unfold del_exit|].
        rewrite Hr in H1. eapply RB_plug; [exact Hc'|exact H1|]. intros _. by apply H2.
Qed.

Lemma mark_ctx_needs c : needs_black (mark_ctx c) = needs_black c.
Proof. destruct c as [|[] ?]; simpl; [done| |]; apply is_red_mod. Qed.

Lemma CRB_mark n c : CRB n c -> CRB n (mark_ctx c).
Proof.
  induction 1 as [n|n fr c Hr Hs Hb Hnb Hc IH|n fr c Hr Hs Hc IH]; simpl.
  - constructor.
  - apply CRB_red; [destruct fr; simpl in *; by rewrite is_red_mod|by destruct fr|by destruct fr| |done].
    by rewrite mark_ctx_needs.
  - apply CRB_black; [destruct fr; simpl in *; by rewrite is_red_mod|by destruct fr|done].
Qed.

(** Exchanging the address in a frame does not change the shape. *)
Lemma CRB_readdr n cs fr fr' c :
  frame_flags fr = frame_flags fr' -> frame_sib fr = frame_sib fr' ->
  CRB n (cs ++ fr :: c) -> CRB n (cs ++ fr' :: c).
Proof.
  intros Hf Hs. revert n. induction cs as [|g cs IH]; intros n H; simpl in *.
  - inversion H; subst; [apply CRB_red|apply CRB_black]; rewrite <- ?Hf, <- ?Hs; done.
  - inversion H as [|? ? ? ? ? ? Hnb ?|? ? ? ? ? ?]; subst;
      [apply CRB_red|apply CRB_black]; try done; try by apply IH.
    destruct cs; simpl in *; [by rewrite <- Hf|done].
Qed.

Lemma del_unlink_rb c l n f r :
  rb_tree (plug c (Node l n f r)) -> l = Leaf \/ r = Leaf ->
  rb_tree (del_unlink c l f r) /\ (rm_child l r = Leaf -> is_red f = false -> del_pre c).
Proof.
  intros H Hlr. apply RB_unplug in H as (m & Hc & Ht & Hk). unfold del_unlink.
  pose proof (CRB_mark _ _ Hc) as Hc'.
  assert (Hm : rm_child l r <> Leaf -> is_red f = false /\ m = 1%nat /\ RB 0 (rm_child l r) /\
    red_tree (rm_child l r) = true).
  { intros Hch. inversion Ht as [|? ? ? ? ? Hr Hl' Hr' Hlb Hrb|? ? ? ? ? Hr Hl' Hr']; subst.
    - exfalso. destruct Hlr as [->| ->].
      + inversion Hl'; subst. simpl in Hch. inversion Hr'; subst; simpl in *; congruence.
      + inversion Hr'; subst. destruct l; simpl in *; [done|]. inversion Hl'; subst; congruence.
    - destruct Hlr as [->| ->].
      + inversion Hl'; subst. simpl in *. split_and!; try done. inversion Hr'; subst; simpl in *; congruence.
      + inversion Hr'; subst. destruct l; simpl in *; [done|].
        split_and!; try done. inversion Hl'; subst; simpl in *; congruence. }
  destruct (rm_child l r) as [|cl ca cf cr] eqn:E.
  - assert (l = Leaf /\ r = Leaf) as [-> ->] by (destruct l; simpl in *; naive_solver).
    destruct (is_red f) eqn:Hf.
    + apply RB_red_children in Ht; [|done]. destruct_and?.
      split; [|done]. by eapply RB_plug.
    + inversion Ht as [|? ? ? ? ? Hr Hl'|? ? ? ? ? Hr Hl']; subst; [congruence|].
      inversion Hl'; subst. split; [by eapply del_repair_rb|]. intros _ _. by eapply CRB_del_pre.
  - destruct Hm as (Hf & -> & H0 & Hr); [done|].
    split; [|done]. eapply RB_plug; [exact Hc'| |intros _; apply recolour_black_black].
    by apply RB_recolour_black.
Qed.

Lemma del_target_rb c l n f r :
  rb_tree (plug c (Node l n f r)) ->
  let '(c', (l', f', r')) := del_target c l f r in rb_tree (plug c' (Node l' n f' r')).
Proof.
  intros H. unfold del_target. destruct l as [|l1 la lf l2]; [done|].
  destruct r as [|r1 ra rf r2]; [done|].
  destruct (leftmost_ctx_spec (Node r1 ra rf r2)) as (cs & x & fx & rx & E & Hp & _); [done|].
  rewrite E, app_nil_r.
  rewrite Hp in H. change (plug c (Node (Node l1 la lf l2) n f (plug cs (Node Leaf x fx rx))))
    with (plug (InR (Node l1 la lf l2) n f :: c) (plug cs (Node Leaf x fx rx))) in H.
  rewrite <- plug_app in H. apply RB_unplug in H as (m & Hc & Ht & Hk).
  eapply RB_plug.
  - eapply CRB_readdr; [| |exact Hc]; done.
  - inversion Ht; subst; by constructor.
  - intros Hnb. apply Hk. destruct cs; exact Hnb.
Qed.

(** [rbt_remove] keeps a red-black tree, and its precondition holds on one. *)
Lemma del_focus_rb c l n f r :
  rb_tree (plug c (Node l n f r)) ->
  rb_tree (del_focus c l f r) /\ del_pre_target c l f r.
Proof.
  intros H. pose proof (del_target_rb c l n f r H) as Ht.
  pose proof (del_target_child c l f r) as Hch. unfold del_focus, del_pre_target.
  destruct (del_target c l f r) as [c' [[l' f'] r']]. by apply (del_unlink_rb c' l' n f' r').
Qed.

Lemma elems_del_unlink c l f r :
  l = Leaf \/ r = Leaf ->
  elems (del_unlink c l f r) = cleft c ++ elems l ++ elems r ++ cright c.
Proof.
  intros Hlr. unfold del_unlink. destruct (mark_ctx_sides c) as [E1 E2].
  assert (Hc : elems (rm_child l r) = elems l ++ elems r).
  { destruct Hlr as [->| ->]; simpl; [done|]. destruct l; simpl; by rewrite ?app_nil_r. }
  rewrite (app_assoc (elems l)), <- Hc.
  destruct (rm_child l r); repeat case_match; rewrite ?elems_del_repair, elems_plug, E1, E2;
    rewrite ?elems_recolour; done.
Qed.

Lemma left_spine_cleft cs : left_spine cs -> cleft cs = [].
Proof. induction 1 as [|[]]; simpl; done. Qed.

Lemma cleft_app cs c : cleft (cs ++ c) = cleft c ++ cleft cs.
Proof.
  induction cs as [|[] cs IH]; simpl; rewrite ?app_nil_r, ?IH; [done|done|].
  by rewrite <- app_assoc.
Qed.
Lemma cright_app cs c : cright (cs ++ c) = cright cs ++ cright c.
Proof. induction cs as [|[] cs IH]; simpl; rewrite ?IH; [done| |done]. by rewrite <- app_assoc. Qed.

(** Removal takes exactly the removed node out of the sequence. *)
Lemma elems_del_focus c l f r :
  elems (del_focus c l f r) = cleft c ++ elems l ++ elems r ++ cright c.
Proof.
  pose proof (del_target_child c l f r) as Hch. unfold del_focus.
  unfold del_target in *. destruct l as [|l1 la lf l2]; [by rewrite elems_del_unlink by by left|].
  destruct r as [|r1 ra rf r2]; [by rewrite elems_del_unlink by by right|].
  destruct (leftmost_ctx_spec (Node r1 ra rf r2)) as (cs & x & fx & rx & E & Hp & Hsp); [done|].
  rewrite E, app_nil_r. rewrite elems_del_unlink by by left.
  rewrite Hp, elems_plug, cleft_app, cright_app, (left_spine_cleft cs Hsp). cbn [elems cleft cright app].
  list_assoc.
Qed.

Lemma descend_plug_rb {K} (compare : K -> positive -> Z) key c t n :
  CRB n c -> RB n t -> (needs_black c = true -> red_tree t = false) ->
  rb_tree (plug (descend compare mk_mod key c t).1 (descend compare mk_mod key c t).2).
Proof.
  revert c n. induction t as [|l IHl a f r IHr]; intros c n Hc Ht Hk; simpl.
  - by eapply RB_plug.
  - assert (Hred : is_red (mk_mod f) = is_red f) by apply is_red_mod.
    inversion Ht as [|? ? ? ? ? Hr Hl' Hr' Hlb Hrb|? ? ? ? ? Hr Hl' Hr']; subst; simpl in Hk;
      repeat case_match; simpl.
    + eapply RB_plug; [exact Hc| |simpl; by rewrite Hred]. apply RB_red; by rewrite ?Hred.
    + apply (IHl (InL a (mk_mod f) r :: c) n); [|done|done].
      apply CRB_red; simpl; rewrite ?Hred; try done. destruct (needs_black c); [|done].
      specialize (Hk eq_refl). congruence.
    + apply (IHr (InR l a (mk_mod f) :: c) n); [|done|done].
      apply CRB_red; simpl; rewrite ?Hred; try done. destruct (needs_black c); [|done].
      specialize (Hk eq_refl). congruence.
    + eapply RB_plug; [exact Hc| |simpl; by rewrite Hred]. apply RB_black; by rewrite ?Hred.
    + apply (IHl (InL a (mk_mod f) r :: c) n0); [|done|simpl; congruence].
      apply CRB_black; simpl; rewrite ?Hred; done.
    + apply (IHr (InR l a (mk_mod f) :: c) n0); [|done|simpl; congruence].
      apply CRB_black; simpl; rewrite ?Hred; done.
Qed.

(** Insertion keeps a red-black tree. *)
Lemma ins_tree_rb {K} (compare : K -> positive -> Z) key n t :
  rb_tree t -> rb_tree (ins_tree compare key n t).2.
Proof.
  intros [Hb [k Hk]]. unfold ins_tree.
  pose proof (descend_plug_rb compare key [] t k (CRB_nil _) Hk (fun _ => Hb)) as H.
  destruct (descend compare mk_mod key [] t) as [c' [|l a f r]]; cbn [fst snd] in *.
  - apply RB_unplug in H as (m & Hc & Ht & _). inversion Ht; subst.
    eapply ins_repair_rb; [done|exact Hc|by autorewrite with rbt|].
    apply RB_red; [by autorewrite with rbt|constructor|constructor|done|done].
  - apply RB_unplug in H as (m & Hc & Ht & Hk'). eapply RB_plug; [exact Hc| |exact Hk'].
    inversion Ht; subst; by constructor.
Qed.
