(* ===== verification/RbtSpec.v ===== *)
(** What the red-black tree promises: the tree refines a strictly sorted
    sequence of nodes, stays balanced, and flags every node whose set of
    descendants has changed. *)
From S2P Require Import Prelude Rbt RbtTree RbtInsert RbtRemove RbtDelete RbtInv.

(** * Keys

    The comparison callback compares a key with the key stored around a node;
    it has to be a strict weak order, as for any search tree. *)
Class KeyOrder {K : Type} (cmp : K -> K -> Z) : Prop := {
  cmp_refl x : cmp x x = 0;
  cmp_swap x y : cmp x y < 0 <-> 0 < cmp y x;
  cmp_lt_trans x y z : cmp x y < 0 -> cmp y z < 0 -> cmp x z < 0;
  cmp_lt_eq x y z : cmp x y < 0 -> cmp y z = 0 -> cmp x z < 0;
  cmp_eq_lt x y z : cmp x y = 0 -> cmp y z < 0 -> cmp x z < 0;
}.

Section spec.
Context {K : Type} (cmp : K -> K -> Z) `{!KeyOrder cmp}.
(** The key the user's structure holds around a node. *)
Context (key_of : positive -> K).

Definition compare (key : K) (a : positive) : Z := cmp key (key_of a).
Definition key_lt (a b : positive) : Prop := cmp (key_of a) (key_of b) < 0.
Definition key_sorted : list positive -> Prop := StronglySorted key_lt.

(** * The abstract operations, on sorted sequences of nodes *)
Fixpoint spec_find (key : K) (xs : list positive) : option positive :=
  match xs with
  | [] => None
  | x :: xs => if compare key x =? 0 then Some x else spec_find key xs
  end.

Fixpoint spec_insert (key : K) (n : positive) (xs : list positive) :
    option positive * list positive :=
  match xs with
  | [] => (None, [n])
  | x :: xs =>
      if compare key x =? 0 then (Some x, n :: xs)
      else if compare key x <? 0 then (None, n :: x :: xs)
      else let '(o, ys) := spec_insert key n xs in (o, x :: ys)
  end.

Definition spec_remove (n : positive) (xs : list positive) : list positive :=
  filter (fun x => x <> n) xs.

Definition above (key : K) (x : positive) : Prop := 0 < compare key x.
Definition below (key : K) (x : positive) : Prop := compare key x < 0.

Lemma spec_insert_above key n xs ys :
  Forall (above key) xs ->
  spec_insert key n (xs ++ ys) = ((spec_insert key n ys).1, xs ++ (spec_insert key n ys).2).
Proof.
  induction 1 as [|x xs Hx _ IH]; simpl; [by destruct (spec_insert key n ys)|].
  unfold above in Hx. destruct (Z.eqb_spec (compare key x) 0); [lia|].
  destruct (Z.ltb_spec (compare key x) 0); [lia|]. by rewrite IH.
Qed.

Lemma spec_insert_below key n xs :
  Forall (below key) xs -> spec_insert key n xs = (None, n :: xs).
Proof.
  destruct 1 as [|x xs Hx _]; simpl; [done|]. unfold below in Hx.
  destruct (Z.eqb_spec (compare key x) 0); [lia|].
  by destruct (Z.ltb_spec (compare key x) 0); [|lia].
Qed.

Lemma spec_find_above key xs ys :
  Forall (above key) xs -> spec_find key (xs ++ ys) = spec_find key ys.
Proof.
  induction 1 as [|x xs Hx _ IH]; simpl; [done|]. unfold above in Hx.
  by destruct (Z.eqb_spec (compare key x) 0); [lia|].
Qed.

Lemma spec_find_below key xs : Forall (below key) xs -> spec_find key xs = None.
Proof.
  induction 1 as [|x xs Hx _ IH]; simpl; [done|]. unfold below in Hx.
  by destruct (Z.eqb_spec (compare key x) 0); [lia|].
Qed.

(** Comparing with a node in the middle of a sorted sequence decides one side. *)
Lemma sorted_above key xs a ys :
  key_sorted (xs ++ a :: ys) -> 0 <= compare key a -> Forall (above key) xs.
Proof.
  intros Hs Ha. apply Forall_forall. intros x Hx. unfold above, compare in *.
  assert (key_lt x a) as Hxa by (eapply StronglySorted_app_1_elem_of; [exact Hs|done|left]).
  unfold key_lt in Hxa. apply cmp_swap.
  destruct (decide (cmp key (key_of a) = 0)) as [He|He].
  - eapply cmp_lt_eq; [exact Hxa|]. destruct (Z.lt_trichotomy (cmp (key_of a) key) 0) as [?|[?|?]].
    + apply cmp_swap in H. lia.
    + done.
    + apply cmp_swap in H. lia.
  - eapply cmp_lt_trans; [exact Hxa|]. apply cmp_swap. lia.
Qed.

Lemma sorted_below key xs a ys :
  key_sorted (xs ++ a :: ys) -> compare key a <= 0 -> Forall (below key) ys.
Proof.
  intros Hs Ha. apply Forall_forall. intros x Hx. unfold below, compare in *.
  assert (key_lt a x) as Hax.
  { apply StronglySorted_app_1_r in Hs. apply StronglySorted_cons in Hs as [Hf _].
    rewrite Forall_forall in Hf. by apply Hf. }
  unfold key_lt in Hax. destruct (decide (cmp key (key_of a) = 0)) as [He|He].
  - by eapply cmp_eq_lt.
  - eapply cmp_lt_trans; [|exact Hax]. lia.
Qed.

(** * The search *)
Lemma descend_spec key n t : forall c,
  key_sorted (elems (plug c t)) -> Forall (above key) (cleft c) -> Forall (below key) (cright c) ->
  let '(c', t') := descend compare mk_mod key c t in
  spec_insert key n (elems (plug c t)) =
    match t' with
    | Leaf => (None, cleft c' ++ n :: cright c')
    | Node l a _ r => (Some a, cleft c' ++ (elems l ++ n :: elems r) ++ cright c')
    end.
Proof.
  induction t as [|l IHl a f r IHr]; intros c Hs Ha Hb; cbn [descend].
  - rewrite elems_plug. cbn [elems app]. rewrite spec_insert_above by done.
    by rewrite spec_insert_below.
  - assert (Hs' : key_sorted ((cleft c ++ elems l) ++ a :: elems r ++ cright c)).
    { rewrite elems_plug in Hs. cbn [elems] in Hs. by rewrite <- !app_assoc in *. }
    assert (E : elems (plug c (Node l a f r)) = (cleft c ++ elems l) ++ a :: elems r ++ cright c).
    { rewrite elems_plug. cbn [elems]. by rewrite <- !app_assoc. }
    destruct (Z.eqb_spec (compare key a) 0) as [He|He].
    + rewrite E, spec_insert_above by (eapply sorted_above; [exact Hs'|lia]).
      simpl. rewrite He. simpl. by rewrite <- !app_assoc.
    + destruct (Z.ltb_spec (compare key a) 0) as [Hl|Hl].
      * specialize (IHl (InL a (mk_mod f) r :: c)). cbn [plug plug1] in IHl.
        rewrite E. rewrite elems_plug in IHl. cbn [elems cleft cright] in IHl.
        rewrite <- app_assoc. rewrite <- (app_assoc (elems l)) in IHl. cbn [app] in IHl.
        apply IHl; [by rewrite <- app_assoc in Hs'|done|].
        constructor; [exact Hl|]. eapply sorted_below; [exact Hs'|lia].
      * specialize (IHr (InR l a (mk_mod f) :: c)). cbn [plug plug1] in IHr.
        rewrite E. rewrite elems_plug in IHr. cbn [elems cleft cright] in IHr.
        rewrite <- app_assoc. rewrite <- (app_assoc (elems l)) in IHr. cbn [app] in IHr.
        apply IHr; [by rewrite <- app_assoc in Hs'| |done].
        rewrite app_assoc. apply Forall_app. split; [eapply sorted_above; [exact Hs'|lia]|].
        constructor; [unfold above; lia|constructor].
Qed.

Lemma ins_tree_spec key n t :
  key_sorted (elems t) ->
  ((ins_tree compare key n t).1, elems (ins_tree compare key n t).2) = spec_insert key n (elems t).
Proof.
  intros Hs. pose proof (descend_spec key n t [] Hs (Forall_nil_2 _) (Forall_nil_2 _)) as H.
  unfold ins_tree. destruct (descend compare mk_mod key [] t) as [c' [|l a f r]];
    simpl in H; rewrite H; cbn [fst snd]; rewrite ?elems_ins_repair, elems_plug; done.
Qed.

Lemma find_tree_spec key t :
  key_sorted (elems t) -> find_tree compare key t = spec_find key (elems t).
Proof.
  induction t as [|l IHl a f r IHr]; intros Hs; [done|]. cbn [find_tree elems] in *.
  destruct (Z.eqb_spec (compare key a) 0) as [He|He].
  - rewrite spec_find_above by (eapply sorted_above; [exact Hs|lia]).
    simpl. by rewrite He.
  - destruct (Z.ltb_spec (compare key a) 0) as [Hl|Hl].
    + rewrite IHl by by eapply StronglySorted_app_1_l.
      assert (Hb : Forall (below key) (a :: elems r)).
      { constructor; [exact Hl|]. eapply sorted_below; [exact Hs|lia]. }
      revert Hb. generalize (a :: elems r) as ys. clear. intros ys Hb.
      induction (elems l) as [|x xs IH]; simpl; [by rewrite spec_find_below|].
      by rewrite IH.
    + rewrite spec_find_above by (eapply sorted_above; [exact Hs|lia]). simpl.
      destruct (Z.eqb_spec (compare key a) 0); [lia|]. apply IHr.
      apply StronglySorted_app_1_r in Hs. by apply StronglySorted_cons in Hs as [_ ?].
Qed.

(** The sequence stays sorted. *)
Lemma spec_insert_elem key n xs x :
  x ∈ (spec_insert key n xs).2 -> x = n \/ x ∈ xs.
Proof.
  induction xs as [|y xs IH]; simpl; [set_solver|].
  destruct (compare key y =? 0); [simpl; set_solver|].
  destruct (compare key y <? 0); [simpl; set_solver|].
  destruct (spec_insert key n xs); simpl in *; set_solver.
Qed.

Lemma compare_lt_l key n a : cmp key (key_of n) = 0 -> compare key a < 0 -> key_lt n a.
Proof.
  unfold compare, key_lt. intros He Ha. eapply cmp_eq_lt; [|exact Ha].
  destruct (Z.lt_trichotomy (cmp (key_of n) key) 0) as [H|[H|H]]; [|done|];
    apply cmp_swap in H; lia.
Qed.

Lemma compare_lt_r key n a : cmp key (key_of n) = 0 -> 0 < compare key a -> key_lt a n.
Proof.
  unfold compare, key_lt. intros He Ha. apply cmp_swap in Ha. by eapply cmp_lt_eq.
Qed.

Lemma spec_insert_sorted key n xs :
  cmp key (key_of n) = 0 -> key_sorted xs -> key_sorted (spec_insert key n xs).2.
Proof.
  intros Hk. induction xs as [|x xs IH]; intros Hs; simpl; [repeat constructor|].
  apply StronglySorted_cons in Hs as [Hf Hs].
  assert (Hbel : compare key x <= 0 -> Forall (key_lt n) xs).
  { intros Hc. rewrite Forall_forall in *. intros y Hy.
    apply compare_lt_l with key; [done|].
    assert (Forall (below key) xs) as Hb.
    { eapply (sorted_below key [] x); [|exact Hc]. simpl. apply StronglySorted_cons.
      split; [by apply Forall_forall|done]. }
    rewrite Forall_forall in Hb. by apply Hb. }
  destruct (Z.eqb_spec (compare key x) 0) as [He|He].
  - apply StronglySorted_cons. split; [apply Hbel; lia|done].
  - destruct (Z.ltb_spec (compare key x) 0) as [Hl|Hl].
    + apply StronglySorted_cons. split; [|by apply StronglySorted_cons].
      constructor; [by eapply compare_lt_l|apply Hbel; lia].
    + specialize (IH Hs). destruct (spec_insert key n xs) as [o ys] eqn:E. simpl in *.
      apply StronglySorted_cons. split; [|exact IH]. apply Forall_forall. intros y Hy.
      destruct (spec_insert_elem key n xs y) as [->|Hy']; [by rewrite E| |].
      * apply compare_lt_r with key; [done|lia].
      * rewrite Forall_forall in Hf. by apply Hf.
Qed.
End spec.
