(* ===== verification/RbtMain.v ===== *)
(** The theorems of the red-black tree: [rbt_insert], [rbt_remove] and
    [rbt_find] on the node store refine operations on a sorted sequence, touch
    nothing else, and keep the tree balanced. *)
From S2P Require Import Prelude Rbt RbtTree RbtInsert RbtRemove RbtDelete RbtInv RbtSpec.

(** A node of a tree can be brought into focus. *)
Lemma find_zipper n t :
  n ∈ elems t -> exists c l f r, t = plug c (Node l n f r).
Proof.
  induction t as [|l IHl a f r IHr]; cbn [elems].
  - intros H. by apply elem_of_nil in H.
  - intros [H|[->|H]%elem_of_cons]%elem_of_app.
    + destruct (IHl H) as (c & l' & f' & r' & ->). exists (c ++ [InL a f r]), l', f', r'.
      by rewrite plug_app.
    + by exists [], l, f, r.
    + destruct (IHr H) as (c & l' & f' & r' & ->). exists (c ++ [InR l a f]), l', f', r'.
      by rewrite plug_app.
Qed.

(** A tree of black height 0 is empty, or a red node without children. *)
Lemma RB_0_leaf t : RB 0 t -> red_tree t = false -> t = Leaf.
Proof. inversion 1; simpl; congruence. Qed.

Lemma RB_0 t : RB 0 t -> (length (elems t) <= 1)%nat.
Proof.
  inversion 1 as [|? l a f r _ Hl Hr Hlb Hrb|]; simpl; [lia|].
  by rewrite (RB_0_leaf l), (RB_0_leaf r).
Qed.

Lemma ctx_addr_elem c p : ctx_addr c = Some p -> p ∈ cleft c ++ cright c.
Proof. destruct c as [|[] c]; simpl; [done|..]; intros [= <-]; set_solver. Qed.

Lemma addr_elem t p : addr t = Some p -> p ∈ elems t.
Proof. destruct t; simpl; [done|]. intros [= <-]. set_solver. Qed.

(** What is known of a node after its removal: where it was last linked. *)
Definition last_linked (s : rbt) (n : positive) (xs ys : list positive) : Prop :=
  exists nd, nodes s !! n = Some nd /\
    (forall p, left nd = Some p \/ parent nd = Some p -> p ∈ ys) /\
    (left nd = None -> parent nd = None -> exists zs, xs = n :: zs /\ (length zs <= 1)%nat).

Lemma stale_last_linked c l n f r s : rb_tree (plug c (Node l n f r)) ->
  (let '(c', (l', _, r')) := del_target c l f r in stale s n (mark_ctx c') l' r') ->
  last_linked s n (elems (plug c (Node l n f r))) (elems (del_focus c l f r)).
Proof.
  intros [Hbl [k Hk]] Hst. pose proof (del_target_child c l f r) as Hch. unfold del_focus.
  destruct (del_target c l f r) as [c' [[l' f'] r']] eqn:E. destruct Hst as [g Hg].
  rewrite elems_del_unlink by done. eexists. split; [exact Hg|]. cbn [left parent]. rewrite ctx_addr_mark. split.
  - intros p [Hp%addr_elem|Hp%ctx_addr_elem]; set_solver.
  - intros Hl Hc. destruct l' as [|]; [|done]. destruct c' as [|fr c']; [|by destruct fr].
    unfold del_target in E. destruct l as [|l1 la lf l2], r as [|r1 ra rf r2].
    4: { destruct (leftmost_ctx_spec (Node r1 ra rf r2)) as (cs & x & fx & rx & E' & _ & _); [done|].
         rewrite E' in E. injection E as E _ _. by destruct cs. }
    3: { discriminate E. }
    all: simplify_eq; simpl in Hk; eexists; (split; [reflexivity|]).
    + simpl. lia.
    + inversion Hk as [|? ? ? ? ? Hr|? ? ? ? ? _ Hll Hrr]; subst; [by simpl in Hbl; rewrite Hr in Hbl|].
      inversion Hll; subst. exact (RB_0 _ Hrr).
Qed.

Section main.
Context {K : Type} (cmp : K -> K -> Z) `{!KeyOrder cmp}.
Context (key_of : positive -> K).

(** The abstraction: [s] is a well-formed tree of the nodes [xs], in order. *)
Definition is_rbt (s : rbt) (xs : list positive) : Prop :=
  exists t, rep xs (nodes s) s [] t /\ rb_tree t /\ elems t = xs /\ key_sorted cmp key_of xs.

Lemma is_rbt_intro F h0 s t :
  rep F h0 s [] t -> rb_tree t -> key_sorted cmp key_of (elems t) -> is_rbt s (elems t).
Proof. intros H Hb Hs. exists t. split_and!; eauto using rep_self. Qed.

Lemma is_rbt_NoDup s xs : is_rbt s xs -> NoDup xs.
Proof. intros (t & H & _ & <- & _). apply H. Qed.

Lemma is_rbt_init h : is_rbt (rbt_init h) [].
Proof.
  exists Leaf. split_and!; [|split; [done|by exists 0%nat; constructor]|done|constructor].
  split; simpl; try done. apply NoDup_nil_2.
Qed.

Lemma wp_tree_insert s xs key n :
  is_rbt s xs -> n ∉ xs -> is_Some (nodes s !! n) -> cmp key (key_of n) = 0 ->
  wp (rbt_insert (compare cmp key_of) key (Some n)) s (fun r s' =>
    r = (spec_insert cmp key_of key n xs).1 /\
    is_rbt s' (spec_insert cmp key_of key n xs).2 /\
    forall x, x ∉ n :: xs -> nodes s' !! x = nodes s !! x).
Proof.
  intros (t & H & Hb & <- & Hs) Hn [nn Hnn] Hk.
  eapply wp_mono.
  - eapply (wp_rbt_insert _ (n :: elems t) (nodes s)); [|exact Hn|left|exact Hnn|apply Hb].
    eapply rep_weaken; [exact H|set_solver|done].
  - intros r s' [-> Hrep]. pose proof (ins_tree_spec cmp key_of key n t Hs) as E.
    rewrite <- E. split_and!; [done| |apply Hrep].
    eapply is_rbt_intro; [exact Hrep|by apply ins_tree_rb|].
    replace (elems _) with (spec_insert cmp key_of key n (elems t)).2 by by rewrite <- E.
    by apply spec_insert_sorted.
Qed.

(** C1. [rbt_insert] refines insertion into a sorted sequence: from a
    well-formed tree of the nodes [xs] and a node [n] of the store outside it
    that carries the inserted key, it terminates without a bad dereference; it
    returns the old node with that key, if there is one, which [n] then
    replaces, and NULL otherwise; the result is again a well-formed (ordered,
    red-black) tree of exactly the nodes of the specified sequence; and it
    writes to no node outside of the tree and [n]. *)
Theorem rbt_insert_refines s xs key n :
  is_rbt s xs -> n ∉ xs -> is_Some (nodes s !! n) -> cmp key (key_of n) = 0 ->
  wp (rbt_insert (compare cmp key_of) key (Some n)) s (fun r s' =>
    r = (spec_insert cmp key_of key n xs).1 /\
    is_rbt s' (spec_insert cmp key_of key n xs).2 /\
    forall x, x ∉ n :: xs -> nodes s' !! x = nodes s !! x).
Proof. apply wp_tree_insert. Qed.

Lemma wp_tree_remove s xs n :
  is_rbt s xs -> n ∈ xs ->
  wp (rbt_remove (Some n)) s (fun _ s' =>
    is_rbt s' (spec_remove n xs) /\
    (forall x, x ∉ xs -> nodes s' !! x = nodes s !! x) /\
    last_linked s' n xs (spec_remove n xs)).
Proof.
  intros (t & H & Hb & <- & Hs) Hn.
  destruct (find_zipper n t Hn) as (c & l & f & r & ->).
  destruct (del_focus_rb c l n f r Hb) as [Hb' Hpre].
  pose proof (rep_nd _ _ _ _ _ H) as Hnd. cbn [plug] in Hnd.
  apply rep_top in H. eapply wp_mono; [by eapply wp_rbt_remove_stale|].
  intros [] s' [Hrep Hst].
  assert (E : spec_remove n (elems (plug c (Node l n f r))) = elems (del_focus c l f r)).
  { rewrite elems_del_focus, elems_plug in *. cbn [elems] in *.
    unfold spec_remove. rewrite <- !app_assoc in *. cbn [app] in *. rewrite !filter_app, filter_cons_False by (intros ?; done).
    rewrite !filter_all; try done; apply Forall_forall; intros x Hx ->; nd_at n. }
  rewrite E. split_and!; [|apply Hrep|by apply stale_last_linked].
  eapply is_rbt_intro; [exact Hrep|exact Hb'|]. rewrite <- E.
  by apply StronglySorted_filter.
Qed.

(** C2. [rbt_remove] refines removal from a sorted sequence: given a node of
    the tree, it terminates without a bad dereference, the result is a
    well-formed (ordered, red-black) tree of exactly the other nodes, in the
    same order, and no node outside of the tree is written to. *)
Theorem rbt_remove_refines s xs n :
  is_rbt s xs -> n ∈ xs ->
  wp (rbt_remove (Some n)) s (fun _ s' =>
    is_rbt s' (spec_remove n xs) /\
    forall x, x ∉ xs -> nodes s' !! x = nodes s !! x).
Proof.
  intros Ht Hn. eapply wp_mono; [by apply wp_tree_remove|]. by intros [] s' (H1 & H2 & _).
Qed.

Lemma wp_tree_find s xs key :
  is_rbt s xs ->
  wp (rbt_find (compare cmp key_of) key) s (fun r s' =>
    r = spec_find cmp key_of key xs /\ s' = s).
Proof.
  intros (t & H & _ & <- & Hs). eapply wp_mono; [by eapply wp_rbt_find|].
  intros r s' [-> ->]. by rewrite (find_tree_spec cmp key_of).
Qed.

(** C3. [rbt_find] terminates, changes nothing, and returns the node of the
    sequence whose key compares equal, or NULL if there is none. *)
Theorem rbt_find_refines s xs key :
  is_rbt s xs ->
  wp (rbt_find (compare cmp key_of) key) s (fun r s' =>
    r = spec_find cmp key_of key xs /\ s' = s).
Proof. apply wp_tree_find. Qed.
End main.
