(* ===== verification/RbtMod.v ===== *)
(** Balance, and the RBT_FLAG_MODIFIED contract of src/rbt.h: the flag of a node
    is set whenever the set of its descendants has changed. *)
From S2P Require Import Prelude Rbt RbtTree RbtInsert RbtRemove RbtDelete RbtInv RbtSpec RbtMain.

(** * Balance *)
Lemma RB_size n t : RB n t -> (2 ^ n <= length (elems t) + 1)%nat.
Proof.
  induction 1; cbn [elems]; rewrite ?length_app; simpl; lia.
Qed.

Lemma RB_height n t : RB n t -> (height t <= 2 * n + (if red_tree t then 1 else 0))%nat.
Proof.
  induction 1 as [|n l a f r Hf Hl IHl Hr IHr El Er|n l a f r Hf Hl IHl Hr IHr]; simpl; [lia| |].
  - rewrite Hf. rewrite El, Er in *. lia.
  - rewrite Hf. destruct (red_tree l), (red_tree r); lia.
Qed.

Lemma RB_balanced t :
  red_tree t = false -> (exists n, RB n t) ->
  (height t <= 2 * Nat.log2 (length (elems t) + 1))%nat.
Proof.
  intros Hb [n Hn]. pose proof (RB_height n t Hn) as Hh. rewrite Hb in Hh.
  pose proof (Nat.log2_le_mono _ _ (RB_size n t Hn)) as Hs.
  rewrite Nat.log2_pow2 in Hs; lia.
Qed.

(** The store has a tree of the nodes [xs] in which no path from the root has more
    than [2 * log2 (n + 1)] of them. *)
Definition balanced (s : rbt) (xs : list positive) : Prop :=
  exists t, rep xs (nodes s) s [] t /\ elems t = xs /\ (height t <= 2 * Nat.log2 (length xs + 1))%nat.

Section balance.
Context {K : Type} (cmp : K -> K -> Z) `{!KeyOrder cmp} (key_of : positive -> K).

Lemma is_rbt_balanced s xs : is_rbt cmp key_of s xs -> balanced s xs.
Proof. intros (t & H & [Hb Hn] & <- & _). exists t. split_and!; [done|done|]. by apply RB_balanced. Qed.

Lemma wp_search s xs key k : is_rbt cmp key_of s xs -> (2 * Nat.log2 (length xs + 1) < k)%nat ->
  wp (find_within (compare cmp key_of) k key) s (fun r s' => r = spec_find cmp key_of key xs /\ s' = s).
Proof.
  intros (t & H & [Hb Hn] & <- & Hs) Hk. eapply wp_mono; [eapply wp_find_within; [exact H|]|].
  - pose proof (RB_balanced t Hb Hn). lia.
  - intros r s' [-> ->]. by rewrite (find_tree_spec cmp key_of).
Qed.

(** C4. Operations are logarithmic.  In a tree of [n] nodes the search of [rbt_find]
    ends, with its result, within [2 * log2 (n + 1) + 1] rounds.  After [rbt_insert] of
    a node and after [rbt_remove] of one, the tree in the store has no path from the
    root longer than [2 * log2 (n' + 1)], where [n'] is the new number of nodes: the
    next search is within that bound again. *)
Theorem rbt_balanced s xs key n m k :
  is_rbt cmp key_of s xs -> n ∉ xs -> is_Some (nodes s !! n) -> cmp key (key_of n) = 0 -> m ∈ xs ->
  wp (find_within (compare cmp key_of) (2 * Nat.log2 (length xs + 1) + 1) k) s (fun r s' => r = spec_find cmp key_of k xs /\ s' = s) /\
  wp (rbt_insert (compare cmp key_of) key (Some n)) s (fun _ s' => let ys := (spec_insert cmp key_of key n xs).2 in
    balanced s' ys /\
    wp (find_within (compare cmp key_of) (2 * Nat.log2 (length ys + 1) + 1) k) s' (fun r _ => r = spec_find cmp key_of k ys)) /\
  wp (rbt_remove (Some m)) s (fun _ s' => let ys := spec_remove m xs in
    balanced s' ys /\
    wp (find_within (compare cmp key_of) (2 * Nat.log2 (length ys + 1) + 1) k) s' (fun r _ => r = spec_find cmp key_of k ys)).
Proof.
  intros H Hn Hs Hk Hm. split_and!; [apply wp_search; [done|lia]|..].
  - eapply wp_mono; [by apply (wp_tree_insert cmp key_of)|]. intros r s' (_ & H' & _). split; [by apply is_rbt_balanced|].
    eapply wp_mono; [apply wp_search; [exact H'|lia]|]. by intros ? ? [? _].
  - eapply wp_mono; [by apply (wp_tree_remove cmp key_of)|]. intros r s' (H' & _). split; [by apply is_rbt_balanced|].
    eapply wp_mono; [apply wp_search; [exact H'|lia]|]. by intros ? ? [? _].
Qed.
End balance.

(** * The nodes without the flag, with the nodes of their subtrees *)
Fixpoint unmod (t : tree) : list (positive * list positive) :=
  match t with
  | Leaf => []
  | Node l a f r => (if is_mod f then [] else [(a, elems t)]) ++ unmod l ++ unmod r
  end.

(** The same for a context whose own nodes have the flag. *)
Fixpoint unmod_ctx (c : ctx) : list (positive * list positive) :=
  match c with [] => [] | fr :: c => unmod (frame_sib fr) ++ unmod_ctx c end.

Definition all_mod (c : ctx) : Prop := Forall (fun fr => is_mod (frame_flags fr) = true) c.

Lemma unmod_recolour φ t :
  (forall f, is_mod (φ f) = is_mod f) -> unmod (recolour φ t) = unmod t.
Proof. intros H. destruct t as [|l a f r]; simpl; [done|]. by rewrite H. Qed.

Lemma unmod_plug c t : all_mod c -> unmod (plug c t) ⊆ unmod t ++ unmod_ctx c.
Proof.
  intros H. revert t. induction H as [|fr c Hf _ IH]; intros t; simpl; [set_solver|].
  rewrite (IH (plug1 fr t)). destruct fr as [a f r|l a f]; simpl in *; rewrite Hf; set_solver.
Qed.

Lemma unmod_ctx_plug c t : unmod_ctx c ++ unmod t ⊆ unmod (plug c t).
Proof.
  revert t. induction c as [|fr c IH]; intros t; simpl; [set_solver|].
  rewrite <- IH. destruct fr as [a f r|l a f]; simpl; set_solver.
Qed.

Lemma unmod_ctx_app c1 c2 : unmod_ctx (c1 ++ c2) = unmod_ctx c1 ++ unmod_ctx c2.
Proof. induction c1 as [|fr c1 IH]; simpl; [done|]. by rewrite IH, app_assoc. Qed.

#[local] Ltac um :=
  repeat progress (cbn [unmod unmod_ctx frame_sib frame_flags plug1 frame_map id app
                        elems recolour plug] in *;
                   rewrite ?is_mod_black, ?is_mod_red, ?is_mod_mod,
                     ?(unmod_recolour mk_black), ?(unmod_recolour mk_red) by auto using is_mod_black, is_mod_red);
  repeat match goal with
  | H : is_mod _ = true |- _ => rewrite H; clear H
  end;
  cbn [app]; set_solver.

(** * Insertion *)
Lemma unmod_ins_repair : forall k c l n f r, (length c <= k)%nat ->
  all_mod c -> is_mod f = true ->
  unmod (ins_repair c (Node l n f r)) ⊆ unmod l ++ unmod r ++ unmod_ctx c.
Proof.
  induction k as [|k IH]; intros c l n f r Hk Hc Hf.
  { destruct c; simpl in *; [|lia]. rewrite is_mod_black, Hf. set_solver. }
  destruct c as [|p [|g c]]; simpl in Hk.
  - simpl. rewrite is_mod_black, Hf. set_solver.
  - cbn [ins_repair]. rewrite unmod_plug by done. um.
  - cbn [ins_repair]. destruct (is_red (frame_flags p)); [destruct (red_tree (frame_sib g))|].
    + apply Forall_cons in Hc as [Hp [Hg Hc]%Forall_cons].
      destruct g as [ga gf gr|gl ga gf]; cbn [frame_map plug1 frame_flags] in *;
        (rewrite IH; [|lia|done|by rewrite is_mod_red]);
        destruct p; um.
    + apply Forall_cons in Hc as [Hp [Hg Hc]%Forall_cons].
      rewrite unmod_plug by done.
      destruct g as [ga gf gr|gl ga gf], p as [pa pf pr|pl pa pf];
        cbn [ins_rotate frame_flags] in *; um.
    + rewrite unmod_plug by done. um.
Qed.

Lemma unmod_descend {K} (compare : K -> positive -> Z) key t : forall c, all_mod c ->
  let '(c', t') := descend compare mk_mod key c t in
  all_mod c' /\ unmod_ctx c' ++ unmod t' ⊆ unmod_ctx c ++ unmod t /\
  match t' with Leaf => True | Node _ _ f _ => is_mod f = true end.
Proof.
  induction t as [|l IHl a f r IHr]; intros c Hc; cbn [descend]; [done|].
  destruct (compare key a =? 0).
  { split_and!; [done|simpl; rewrite is_mod_mod; set_solver|apply is_mod_mod]. }
  destruct (compare key a <? 0).
  - specialize (IHl (InL a (mk_mod f) r :: c)).
    destruct (descend _ _ _ _ l) as [c' t']. destruct IHl as (? & ? & ?).
    { constructor; [apply is_mod_mod|done]. }
    split_and!; [done|um|done].
  - specialize (IHr (InR l a (mk_mod f) :: c)).
    destruct (descend _ _ _ _ r) as [c' t']. destruct IHr as (? & ? & ?).
    { constructor; [apply is_mod_mod|done]. }
    split_and!; [done|um|done].
Qed.

Lemma unmod_ins_tree {K} (compare : K -> positive -> Z) key n t :
  unmod (ins_tree compare key n t).2 ⊆ unmod t.
Proof.
  pose proof (unmod_descend compare key t [] (Forall_nil_2 _)) as H. unfold ins_tree.
  destruct (descend compare mk_mod key [] t) as [c' [|l a f r]]; destruct H as (Hc & Hu & Hf);
    cbn [snd].
  - rewrite (unmod_ins_repair (length c')) by by auto using is_mod_mod. um.
  - rewrite unmod_plug by done. um.
Qed.

(** * Removal *)
Lemma unmod_del_final fr t :
  is_mod (frame_flags fr) = true ->
  unmod (del_final fr t) ⊆ unmod t ++ unmod (frame_sib fr) /\
  match del_final fr t with Leaf => False | Node _ _ f _ => is_mod f = true end.
Proof.
  intros Hf. unfold del_final. destruct (is_red _ && _)%bool.
  - destruct fr as [p pf [|sl s sf sr]|[|sl s sf sr] p pf]; cbn [frame_flags] in *;
      (split; [um|simpl; by rewrite is_mod_black]).
  - destruct fr as [p pf [|[|a x xf b] s sf sr]|[|sl s sf [|a x xf b]] p pf];
      unfold del_straight; cbn [far near frame_flags] in *;
      try (destruct (red_tree _)); cbn [del_finish plug1];
      (split; [um|done || (simpl; by rewrite ?is_mod_mod)]).
Qed.

Lemma unmod_del_repair c t :
  all_mod c -> unmod (del_repair c t) ⊆ unmod t ++ unmod_ctx c.
Proof.
  intros Hc. revert t. induction Hc as [|fr c Hf Hc IH]; intros t; [simpl; set_solver|].
  cbn [del_repair]. destruct (red_tree (frame_sib fr)) eqn:Er; [|destruct (_ && _)%bool].
  - destruct fr as [p pf [|sl s sf sr]|[|sl s sf sr] p pf]; try done;
      cbn [del_rot frame_flags] in *; rewrite unmod_plug by done;
      cbn [plug1 unmod]; rewrite is_mod_mod; cbn [app].
    + destruct (unmod_del_final (InL p (mk_red pf) sl) t) as [H _]; [simpl; by rewrite is_mod_red|].
      rewrite H. um.
    + destruct (unmod_del_final (InR sr p (mk_red pf)) t) as [H _]; [simpl; by rewrite is_mod_red|].
      rewrite H. um.
  - rewrite IH. destruct fr; um.
  - rewrite unmod_plug by done. destruct (unmod_del_final fr t Hf) as [H _]. rewrite H. um.
Qed.

Lemma all_mod_mark c : all_mod (mark_ctx c).
Proof. induction c as [|fr c IH]; constructor; [destruct fr; apply is_mod_mod|done]. Qed.

Lemma unmod_ctx_mark c : unmod_ctx (mark_ctx c) = unmod_ctx c.
Proof. induction c as [|fr c IH]; simpl; [done|]. rewrite IH. by destruct fr. Qed.

Lemma unmod_del_unlink c l f r : unmod (del_unlink c l f r) ⊆ unmod l ++ unmod r ++ unmod_ctx c.
Proof.
  unfold del_unlink, rm_child.
  destruct l as [|l1 a lf l2]; [destruct r as [|r1 b rf r2]; [destruct (is_red f)|]|].
  - rewrite unmod_plug by apply all_mod_mark. rewrite unmod_ctx_mark. um.
  - rewrite unmod_del_repair by apply all_mod_mark. rewrite unmod_ctx_mark. um.
  - rewrite unmod_plug by apply all_mod_mark. rewrite unmod_ctx_mark.
    rewrite (unmod_recolour mk_black) by apply is_mod_black. set_solver.
  - rewrite unmod_plug by apply all_mod_mark. rewrite unmod_ctx_mark.
    rewrite (unmod_recolour mk_black) by apply is_mod_black. set_solver.
Qed.

Lemma unmod_del_focus c l n f r : unmod (del_focus c l f r) ⊆ unmod (plug c (Node l n f r)).
Proof.
  rewrite <- unmod_ctx_plug. unfold del_focus, del_target.
  destruct l as [|l1 a lf l2]; [rewrite unmod_del_unlink; um|].
  destruct r as [|r1 ra rf r2]; [rewrite unmod_del_unlink; um|].
  destruct (leftmost_ctx_spec (Node r1 ra rf r2)) as (cs & x & fx & rx & E & Hp & Hsp); [done|].
  rewrite E, app_nil_r, unmod_del_unlink, unmod_ctx_app.
  pose proof (unmod_ctx_plug cs (Node Leaf x fx rx)) as Hu. rewrite <- Hp in Hu.
  revert Hu. generalize (Node r1 ra rf r2) (Node l1 a lf l2). intros t1 t2 Hu.
  cbn [unmod_ctx frame_sib unmod] in *. set_solver.
Qed.

Lemma wp_insert_modified {K} (compare : K -> positive -> Z) s t key n :
  rep (elems t) (nodes s) s [] t -> rb_tree t -> n ∉ elems t -> is_Some (nodes s !! n) ->
  wp (rbt_insert compare key (Some n)) s (fun _ s' =>
    exists t', rep (elems t') (nodes s') s' [] t' /\
      forall a D, (a, D) ∈ unmod t' -> (a, D) ∈ unmod t).
Proof.
  intros H Hb Hn [nn Hnn]. eapply wp_mono.
  - eapply (wp_rbt_insert _ (n :: elems t) (nodes s)); [|exact Hn|left|exact Hnn|apply Hb].
    eapply rep_weaken; [exact H|set_solver|done].
  - intros r s' [_ Hrep]. eexists. split; [by eapply rep_self|].
    intros a D. apply unmod_ins_tree.
Qed.

Lemma wp_remove_modified s t n :
  rep (elems t) (nodes s) s [] t -> rb_tree t -> n ∈ elems t ->
  wp (rbt_remove (Some n)) s (fun _ s' =>
    exists t', rep (elems t') (nodes s') s' [] t' /\
      forall a D, (a, D) ∈ unmod t' -> (a, D) ∈ unmod t).
Proof.
  intros H Hb Hn. destruct (find_zipper n t Hn) as (c & l & f & r & ->).
  destruct (del_focus_rb c l n f r Hb) as [Hb' Hpre].
  apply rep_top in H. eapply wp_mono; [by eapply wp_rbt_remove|].
  intros [] s' Hrep. exists (del_focus c l f r). split; [by eapply rep_self|].
  intros a D. apply unmod_del_focus.
Qed.

(** C5. RBT_FLAG_MODIFIED: a node that [rbt_insert] or [rbt_remove] leaves in
    the tree without the flag was there before, without the flag, and with
    exactly the same nodes below it; so what the user cached for it is still
    right. *)
Theorem rbt_modified {K} (compare : K -> positive -> Z) s t key n :
  rep (elems t) (nodes s) s [] t -> rb_tree t -> is_Some (nodes s !! n) ->
  let kept s' := exists t', rep (elems t') (nodes s') s' [] t' /\
    forall a D, (a, D) ∈ unmod t' -> (a, D) ∈ unmod t in
  (n ∉ elems t -> wp (rbt_insert compare key (Some n)) s (fun _ s' => kept s')) /\
  (n ∈ elems t -> wp (rbt_remove (Some n)) s (fun _ s' => kept s')).
Proof.
  intros H Hb Hn kept.
  split; intros; [by apply wp_insert_modified|by apply wp_remove_modified].
Qed.

(** * A concrete tree

    Node [k] carries the key [k]. *)
Definition ex_cmp (x y : Z) : Z := x - y.
Definition ex_key (a : positive) : Z := Zpos a.

#[export] Instance ex_order : KeyOrder ex_cmp.
Proof. split; unfold ex_cmp; lia. Qed.

(** Three nodes in the tree, flags as after insertion, and one outside it. *)
Definition ex_tree : tree :=
  Node (Node Leaf 1 1 Leaf) 2 0 (Node Leaf 4 3 Leaf).
Definition ex_rbt : rbt := mk_rbt (Some 2%positive) (list_to_map
  [(1%positive, mk_node 1 None None (Some 2%positive));
   (2%positive, mk_node 0 (Some 1%positive) (Some 4%positive) None);
   (4%positive, mk_node 3 None None (Some 2%positive));
   (3%positive, mk_node 7 (Some 9%positive) None None)]).

Lemma ex_rep : rep [1; 2; 4]%positive (nodes ex_rbt) ex_rbt [] ex_tree.
Proof.
  split; try done.
  apply (bool_decide_unpack _). by vm_compute.
Qed.

Lemma ex_rb : rb_tree ex_tree.
Proof. split; [done|]. exists 1%nat.
  apply RB_black; [done|apply RB_red; (done || constructor)..]. Qed.

Lemma ex_is_rbt : is_rbt ex_cmp ex_key ex_rbt [1; 2; 4]%positive.
Proof.
  exists ex_tree. split_and!; [apply ex_rep|apply ex_rb|done|].
  repeat constructor.
Qed.

Lemma rbt_insert_refines_witness :
  wp (rbt_insert (compare ex_cmp ex_key) 3 (Some 3%positive)) ex_rbt (fun r s' =>
    r = None /\ is_rbt ex_cmp ex_key s' [1; 2; 3; 4]%positive /\
    forall x, x ∉ [3; 1; 2; 4]%positive -> nodes s' !! x = nodes ex_rbt !! x).
Proof.
  apply (rbt_insert_refines ex_cmp ex_key ex_rbt [1; 2; 4]%positive 3 3%positive).
  - apply ex_is_rbt.
  - apply (bool_decide_unpack _). by vm_compute.
  - by eexists.
  - done.
Defined.

Lemma rbt_remove_refines_witness :
  wp (rbt_remove (Some 2%positive)) ex_rbt (fun _ s' =>
    is_rbt ex_cmp ex_key s' [1; 4]%positive /\
    forall x, x ∉ [1; 2; 4]%positive -> nodes s' !! x = nodes ex_rbt !! x).
Proof.
  apply (rbt_remove_refines ex_cmp ex_key ex_rbt [1; 2; 4]%positive 2%positive).
  - apply ex_is_rbt.
  - apply (bool_decide_unpack _). by vm_compute.
Defined.

Lemma rbt_find_refines_witness :
  wp (rbt_find (compare ex_cmp ex_key) 4) ex_rbt (fun r s' =>
    r = Some 4%positive /\ s' = ex_rbt).
Proof.
  apply (rbt_find_refines ex_cmp ex_key ex_rbt [1; 2; 4]%positive 4). apply ex_is_rbt.
Defined.

Lemma rbt_balanced_witness :
  wp (find_within (compare ex_cmp ex_key) 5 4) ex_rbt (fun r s' => r = Some 4%positive /\ s' = ex_rbt) /\
  wp (rbt_insert (compare ex_cmp ex_key) 3 (Some 3%positive)) ex_rbt (fun _ s' => balanced s' [1; 2; 3; 4]%positive) /\
  wp (rbt_remove (Some 2%positive)) ex_rbt (fun _ s' => balanced s' [1; 4]%positive).
Proof.
  destruct (rbt_balanced ex_cmp ex_key ex_rbt [1; 2; 4]%positive 3 3%positive 2%positive 4) as (H1 & H2 & H3).
  - apply ex_is_rbt.
  - apply (bool_decide_unpack _). by vm_compute.
  - by eexists.
  - done.
  - apply (bool_decide_unpack _). by vm_compute.
  - split; [exact H1|]. split.
    + eapply wp_mono; [exact H2|]. intros ? s' [H _]. exact H.
    + eapply wp_mono; [exact H3|]. intros ? s' [H _]. exact H.
Defined.

Lemma rbt_modified_witness :
  let kept s' := exists t', rep (elems t') (nodes s') s' [] t' /\
    forall a D, (a, D) ∈ unmod t' -> (a, D) ∈ unmod ex_tree in
  wp (rbt_insert (compare ex_cmp ex_key) 3 (Some 3%positive)) ex_rbt (fun _ s' => kept s') /\
  wp (rbt_remove (Some 2%positive)) ex_rbt (fun _ s' => kept s').
Proof.
  intros kept. split.
  - apply (rbt_modified (compare ex_cmp ex_key) ex_rbt ex_tree 3 3%positive);
      [apply ex_rep|apply ex_rb|by eexists|]. apply (bool_decide_unpack _). by vm_compute.
  - apply (rbt_modified (compare ex_cmp ex_key) ex_rbt ex_tree 3 2%positive);
      [apply ex_rep|apply ex_rb|by eexists|]. apply (bool_decide_unpack _). by vm_compute.
Defined.
