(* ===== verification/RbtIter.v ===== *)
(** Model of src/rbt_iter.c, in-order navigation, and of src/rbt_range.c, range
    queries, with their theorems: on a well-formed tree they compute the
    neighbour, the extreme, the nearest node or the range of the sorted sequence
    the tree represents. *)
From S2P Require Import Prelude Rbt RbtTree RbtInsert RbtRemove RbtDelete RbtInv RbtSpec RbtMain RbtMod.

(** * Navigation *)

(** [while (n->f) n = n->f;] *)
Definition descend_while (f : rbt_node -> option positive) (n : option positive) :
    M rbt (option positive) :=
  fuel ← path_fuel;
  loop fuel (fun n =>
    c ← ld f n;
    match c with
    | Some _ => ret (inl c)
    | None => ret (inr n)
    end) n.

(** [while (n->parent && n->parent->f == n) n = n->parent; return n->parent;] *)
Definition climb_while (f : rbt_node -> option positive) (n : option positive) :
    M rbt (option positive) :=
  fuel ← path_fuel;
  loop fuel (fun n =>
    p ← ld parent n;
    match p with
    | None => ret (inr p)
    | Some _ =>
        c ← ld f p;
        if decide (c = n) then ret (inl p) else ret (inr p)
    end) n.

Definition rbt_iter_next (n : option positive) : M rbt (option positive) :=
  r ← ld right n;
  match r with
  | Some _ => descend_while left r
  | None => climb_while right n
  end.

Definition rbt_iter_prev (n : option positive) : M rbt (option positive) :=
  l ← ld left n;
  match l with
  | Some _ => descend_while right l
  | None => climb_while left n
  end.

Definition rbt_iter_first : M rbt (option positive) :=
  n ← gets root;
  match n with
  | None => ret None
  | Some _ => descend_while left n
  end.

Definition rbt_iter_last : M rbt (option positive) :=
  n ← gets root;
  match n with
  | None => ret None
  | Some _ => descend_while right n
  end.

Section iter_key.
Context {K : Type} (compare : K -> positive -> Z).

Definition rbt_iter_le (key : K) : M rbt (option positive) :=
  fuel ← path_fuel;
  n ← gets root;
  loop fuel (fun '(n, m) =>
    match n with
    | None => ret (inr m)
    | Some _ =>
        r ← cmp_node compare key n;
        if r =? 0 then ret (inr n)
        else if r <? 0 then l ← ld left n; ret (inl (l, m))
        else rr ← ld right n; ret (inl (rr, n))
    end) (n, None).

Definition rbt_iter_ge (key : K) : M rbt (option positive) :=
  fuel ← path_fuel;
  n ← gets root;
  loop fuel (fun '(n, m) =>
    match n with
    | None => ret (inr m)
    | Some _ =>
        r ← cmp_node compare key n;
        if r =? 0 then ret (inr n)
        else if r <? 0 then l ← ld left n; ret (inl (l, n))
        else rr ← ld right n; ret (inl (rr, m))
    end) (n, None).

Definition rbt_iter_lt (key : K) : M rbt (option positive) :=
  fuel ← path_fuel;
  n ← gets root;
  loop fuel (fun '(n, m) =>
    match n with
    | None => ret (inr m)
    | Some _ =>
        r ← cmp_node compare key n;
        if r <=? 0 then l ← ld left n; ret (inl (l, m))
        else rr ← ld right n; ret (inl (rr, n))
    end) (n, None).

Definition rbt_iter_gt (key : K) : M rbt (option positive) :=
  fuel ← path_fuel;
  n ← gets root;
  loop fuel (fun '(n, m) =>
    match n with
    | None => ret (inr m)
    | Some _ =>
        r ← cmp_node compare key n;
        if r <? 0 then l ← ld left n; ret (inl (l, n))
        else rr ← ld right n; ret (inl (rr, m))
    end) (n, None).
End iter_key.

(** * Range queries

    The callback is user code; a query is modelled by the calls it makes, in
    order. *)
Inductive rbt_range_addtype := RBT_RANGE_ADD_NODE | RBT_RANGE_ADD_TREE.
Abbreviation range_call := (option positive * rbt_range_addtype)%type.

Section range.
(** The range selection function. *)
Context (cmp : positive -> Z).

Definition cmp_range (p : option positive) : M rbt Z :=
  l ← need p;
  _ ← ld flags p;
  ret (cmp l).

(** [if (p) cb(query_data, p, RBT_RANGE_ADD_TREE);] *)
Definition add_tree_if (p : option positive) : list range_call :=
  match p with Some _ => [(p, RBT_RANGE_ADD_TREE)] | None => [] end.

(** Each call and each round of the loop is one level of the recursion: both
    go one level down the tree. *)
Fixpoint query_low (fuel : nat) (n : option positive) : M rbt (list range_call) :=
  match fuel with
  | O => no_fuel
  | Datatypes.S fuel =>
      match n with
      | None => ret []
      | Some _ =>
          r ← cmp_range n;
          if r <? 0 then rr ← ld right n; query_low fuel rr
          else
            l ← ld left n;
            low ← query_low fuel l;
            rr ← ld right n;
            ret (low ++ [(n, RBT_RANGE_ADD_NODE)] ++ add_tree_if rr)
      end
  end.

Fixpoint query_high (fuel : nat) (n : option positive) : M rbt (list range_call) :=
  match fuel with
  | O => no_fuel
  | Datatypes.S fuel =>
      match n with
      | None => ret []
      | Some _ =>
          r ← cmp_range n;
          if 0 <? r then l ← ld left n; query_high fuel l
          else
            l ← ld left n;
            rr ← ld right n;
            high ← query_high fuel rr;
            ret (add_tree_if l ++ [(n, RBT_RANGE_ADD_NODE)] ++ high)
      end
  end.

Fixpoint query_over (fuel : nat) (n : option positive) : M rbt (list range_call) :=
  match fuel with
  | O => no_fuel
  | Datatypes.S fuel =>
      match n with
      | None => ret []
      | Some _ =>
          r ← cmp_range n;
          if r <? 0 then rr ← ld right n; query_over fuel rr
          else if 0 <? r then l ← ld left n; query_over fuel l
          else
            l ← ld left n;
            low ← query_low fuel l;
            rr ← ld right n;
            high ← query_high fuel rr;
            ret (low ++ [(n, RBT_RANGE_ADD_NODE)] ++ high)
      end
  end.

Definition rbt_range_query : M rbt (list range_call) :=
  fuel ← path_fuel;
  n ← gets root;
  query_over fuel n.
End range.

(** * Navigation: correctness *)
Lemma wp_descend_left F h0 s t c : rep F h0 s c t -> t <> Leaf ->
  wp (descend_while left (addr t)) s (fun x s' => s' = s /\ x = head (elems t)).
Proof.
  intros H Ht. unfold descend_while. wp_bind. eapply wp_path_fuel; [exact H|].
  intros k Hk. assert (length (elems t) < k)%nat as Hk'.
  { rewrite elems_plug, !length_app in Hk. lia. }
  clear Hk. revert k c H Hk'.
  induction t as [|l IHl a f r _]; intros [|k] c H Hk; try (simpl in Hk; lia); [done|].
  cbn [elems] in Hk. rewrite length_app in Hk. cbn [length] in Hk.
  look H. cbn [addr]. apply wp_loop_step. sx. destruct l as [|ll b g lr]; apply wp_ret; [done|].
  eapply wp_mono; [eapply IHl; [done|by apply rep_in_l|lia]|].
  intros x s' [-> ->]. split; [done|]. cbn [elems]. by destruct (elems ll).
Qed.

Lemma last_app_cons {A} (l : list A) x k : last (l ++ x :: k) = last (x :: k).
Proof. induction l as [|y l IH]; [done|]. cbn [app]. rewrite <- IH. by destruct l. Qed.

Lemma wp_descend_right F h0 s t c : rep F h0 s c t -> t <> Leaf ->
  wp (descend_while right (addr t)) s (fun x s' => s' = s /\ x = last (elems t)).
Proof.
  intros H Ht. unfold descend_while. wp_bind. eapply wp_path_fuel; [exact H|].
  intros k Hk. assert (length (elems t) < k)%nat as Hk'.
  { rewrite elems_plug, !length_app in Hk. lia. }
  clear Hk. revert k c H Hk'.
  induction t as [|l _ a f r IHr]; intros [|k] c H Hk; try (simpl in Hk; lia); [done|].
  cbn [elems] in Hk. rewrite length_app in Hk. cbn [length] in Hk.
  look H. cbn [addr]. apply wp_loop_step. sx. cbn [elems]. rewrite last_app_cons.
  destruct r as [|rl b g rr]; apply wp_ret; [done|].
  eapply wp_mono; [eapply IHr; [done|by apply rep_in_r|lia]|].
  intros x s' [-> ->]. split; [done|]. cbn [elems]. by destruct (elems rl).
Qed.

Lemma wp_climb_right F h0 s c l n f r : rep F h0 s c (Node l n f r) ->
  wp (climb_while right (Some n)) s (fun x s' => s' = s /\ x = head (cright c)).
Proof.
  intros H. unfold climb_while. wp_bind. eapply wp_path_fuel; [exact H|].
  intros k Hk. pose proof (length_ctx c (Node l n f r)) as Hl. cbn [elems] in Hl.
  rewrite length_app in Hl. cbn [length] in Hl. assert (length c < k)%nat as Hk' by lia.
  clear Hk Hl. revert l n f r k H Hk'.
  induction c as [|[a g u|u a g] c IH]; intros l n f r [|k] H Hk; try (simpl in Hk; lia);
    look H; apply wp_loop_step; cbn [ctx_addr frame_addr]; sx; [by apply wp_ret|sx|sx].
  - rewrite decide_False; [by apply wp_ret|]. destruct u; [done|]. cbn [addr]. nd.
  - rewrite decide_True by done. apply wp_ret. rewrite rep_up in H. cbn [plug1 cright] in *.
    eapply IH; [exact H|simpl in Hk; lia].
Qed.

Lemma wp_climb_left F h0 s c l n f r : rep F h0 s c (Node l n f r) ->
  wp (climb_while left (Some n)) s (fun x s' => s' = s /\ x = last (cleft c)).
Proof.
  intros H. unfold climb_while. wp_bind. eapply wp_path_fuel; [exact H|].
  intros k Hk. pose proof (length_ctx c (Node l n f r)) as Hl. cbn [elems] in Hl.
  rewrite length_app in Hl. cbn [length] in Hl. assert (length c < k)%nat as Hk' by lia.
  clear Hk Hl. revert l n f r k H Hk'.
  induction c as [|[a g u|u a g] c IH]; intros l n f r [|k] H Hk; try (simpl in Hk; lia);
    look H; apply wp_loop_step; cbn [ctx_addr frame_addr]; sx; [by apply wp_ret|sx|sx].
  - rewrite decide_True by done. apply wp_ret. rewrite rep_up in H. cbn [plug1 cleft] in *.
    eapply IH; [exact H|simpl in Hk; lia].
  - rewrite decide_False.
    + apply wp_ret. cbn [cleft]. by rewrite app_assoc, last_snoc.
    + destruct u; [done|]. cbn [addr]. nd.
Qed.

Section iter.
Context {K : Type} (cmp : K -> K -> Z) `{!KeyOrder cmp}.
Context (key_of : positive -> K).

(** A node in a well-formed tree, and what is left and right of it. *)
Lemma is_rbt_focus s ys n zs :
  is_rbt cmp key_of s (ys ++ n :: zs) ->
  exists c l f r, rep (ys ++ n :: zs) (nodes s) s c (Node l n f r) /\
    ys = cleft c ++ elems l /\ zs = elems r ++ cright c.
Proof.
  intros (t & H & _ & E & _).
  destruct (find_zipper n t) as (c & l & f & r & ->); [rewrite E; set_solver|].
  exists c, l, f, r. split; [by apply rep_top|].
  pose proof (rep_nd _ _ _ _ _ H) as Hnd. cbn [plug] in Hnd.
  rewrite elems_plug in E. cbn [elems] in E.
  rewrite <- app_assoc, app_assoc in E. cbn [app] in E.
  apply app_cons_eq_NoDup in E; [by destruct E|].
  revert Hnd. rewrite elems_plug. cbn [elems]. by rewrite <- !app_assoc.
Qed.

Lemma wp_iter_next_prev s ys n zs :
  is_rbt cmp key_of s (ys ++ n :: zs) ->
  wp (rbt_iter_next (Some n)) s (fun x s' => s' = s /\ x = head zs) /\
  wp (rbt_iter_prev (Some n)) s (fun x s' => s' = s /\ x = last ys).
Proof.
  intros Ht. destruct (is_rbt_focus s ys n zs Ht) as (c & l & f & r & H & -> & ->).
  clear Ht. look H. split.
  - unfold rbt_iter_next. sx. destruct r as [|rl b g rr].
    + eapply wp_mono; [by eapply wp_climb_right|]. done.
    + eapply wp_mono; [eapply (wp_descend_left _ _ _ (Node rl b g rr)); [by apply rep_in_r|done]|].
      intros x s' [-> ->]. split; [done|]. cbn [elems]. by destruct (elems rl).
  - unfold rbt_iter_prev. sx. destruct l as [|ll b g lr].
    + eapply wp_mono; [by eapply wp_climb_left|]. intros x s' [-> ->]. by rewrite app_nil_r.
    + eapply wp_mono; [eapply (wp_descend_right _ _ _ (Node ll b g lr)); [by apply rep_in_l|done]|].
      intros x s' [-> ->]. split; [done|]. cbn [elems]. by rewrite app_assoc, !last_app_cons.
Qed.

(** [rbt_iter_prev] on a node that is in no tree any more. *)
Lemma wp_iter_prev_stale s xs n ys :
  is_rbt cmp key_of s ys -> n ∉ ys -> last_linked s n xs ys ->
  wp (rbt_iter_prev (Some n)) s (fun x s' => s' = s /\
    (x = None -> exists zs, xs = n :: zs /\ (length zs <= 1)%nat)).
Proof.
  intros (t & H & Hb & <- & Hs) Hn (nd & Hnd & Hin & Hlast).
  assert (Hfoc : forall p, p ∈ elems t -> exists c l f r, rep (elems t) (nodes s) s c (Node l p f r)).
  { intros p Hp. destruct (find_zipper p t Hp) as (c & l & f & r & E). exists c, l, f, r.
    apply rep_top. by rewrite <- E. }
  unfold rbt_iter_prev. sx. destruct (left nd) as [p|] eqn:El.
  - destruct (Hfoc p (Hin p (or_introl eq_refl))) as (c & l & f & r & Hp).
    eapply wp_mono; [by eapply (wp_descend_right _ _ _ (Node l p f r))|].
    intros x s' [-> ->]. split; [done|]. cbn [elems]. rewrite last_app_cons. by intros ?%last_None.
  - unfold climb_while. wp_bind. eapply wp_path_fuel; [exact H|]. intros k Hk.
    destruct k as [|k]; [lia|]. apply wp_loop_step. sx.
    destruct (parent nd) as [p|] eqn:Ep; [|by apply wp_ret; auto].
    destruct (Hfoc p (Hin p (or_intror eq_refl))) as (c & l & f & r & Hp).
    look Hp. sx. rewrite decide_False; [by apply wp_ret|].
    intros E. apply Hn. destruct l as [|l1 a g l2]; [done|]. injection E as ->.
    destruct Hp as [_ _ _ _ Hsub _]. apply Hsub. rewrite elems_plug. cbn [elems]. set_solver.
Qed.

Lemma wp_iter_first s xs :
  is_rbt cmp key_of s xs -> wp rbt_iter_first s (fun x s' => s' = s /\ x = head xs).
Proof.
  intros (t & H & _ & <- & _). unfold rbt_iter_first. wp_bind. apply wp_gets.
  rewrite (rep_root _ _ _ _ _ H). cbn [plug].
  destruct t as [|l a f r]; [by apply wp_ret|].
  by eapply (wp_descend_left _ _ _ (Node l a f r)).
Qed.

Lemma wp_iter_last s xs :
  is_rbt cmp key_of s xs -> wp rbt_iter_last s (fun x s' => s' = s /\ x = last xs).
Proof.
  intros (t & H & _ & <- & _). unfold rbt_iter_last. wp_bind. apply wp_gets.
  rewrite (rep_root _ _ _ _ _ H). cbn [plug].
  destruct t as [|l a f r]; [by apply wp_ret|].
  by eapply (wp_descend_right _ _ _ (Node l a f r)).
Qed.

(** ** The nearest node *)
Abbreviation kcmp := (compare cmp key_of).

(** The common form of the four searches: [stop] leaves with the node at hand,
    [go_left] picks the child, and the node is remembered on the way right
    ([down]) or left. *)
Definition seek_step (stop go_left : Z -> bool) (down : bool) (key : K)
    (st : option positive * option positive) :
    M rbt (option positive * option positive + option positive) :=
  let '(n, m) := st in
  match n with
  | None => ret (inr m)
  | Some _ =>
      r ← cmp_node kcmp key n;
      if stop r then ret (inr n)
      else if go_left r then l ← ld left n; ret (inl (l, if down then m else n))
      else rr ← ld right n; ret (inl (rr, if down then n else m))
  end.

Definition seek (stop go_left : Z -> bool) (down : bool) (key : K) : M rbt (option positive) :=
  fuel ← path_fuel;
  n ← gets root;
  loop fuel (seek_step stop go_left down key) (n, None).

(** [p] selects the nodes on one side of the key. *)
Lemma sorted_split (p : Z -> bool) key ys a zs :
  (forall r, p r = true -> 0 <= r) -> (forall r, 0 < r -> p r = true) ->
  key_sorted cmp key_of (ys ++ a :: zs) ->
  (p (kcmp key a) = true -> Forall (fun x => p (kcmp key x) = true) ys) /\
  (kcmp key a <= 0 -> Forall (fun x => ~ p (kcmp key x) = true) zs).
Proof.
  intros Hp Hn Hs. split.
  - intros Ha%Hp. eapply Forall_impl; [by eapply sorted_above|]. auto.
  - intros Ha. eapply Forall_impl; [by eapply sorted_below|].
    intros x Hx Hpx%Hp. unfold below in Hx. lia.
Qed.

Lemma sorted_split_up (p : Z -> bool) key ys a zs :
  (forall r, p r = true -> r <= 0) -> (forall r, r < 0 -> p r = true) ->
  key_sorted cmp key_of (ys ++ a :: zs) ->
  (0 <= kcmp key a -> Forall (fun x => ~ p (kcmp key x) = true) ys) /\
  (p (kcmp key a) = true -> Forall (fun x => p (kcmp key x) = true) zs).
Proof.
  intros Hp Hn Hs. split.
  - intros Ha. eapply Forall_impl; [by eapply sorted_above|].
    intros x Hx Hpx%Hp. unfold above in Hx. lia.
  - intros Ha%Hp. eapply Forall_impl; [by eapply sorted_below|]. auto.
Qed.

Lemma filter_split {A} (P : A -> Prop) `{!forall x, Decision (P x)} l1 l2 :
  Forall P l1 -> Forall (fun x => ~ P x) l2 -> filter P (l1 ++ l2) = l1.
Proof.
  intros H1 H2. rewrite filter_app, filter_all by done.
  rewrite filter_none by done. apply app_nil_r.
Qed.
Lemma filter_split_up {A} (P : A -> Prop) `{!forall x, Decision (P x)} l1 l2 :
  Forall (fun x => ~ P x) l1 -> Forall P l2 -> filter P (l1 ++ l2) = l2.
Proof.
  intros H1 H2. rewrite filter_app, (filter_all P l2) by done.
  by rewrite filter_none.
Qed.

Lemma wp_seek_down_loop stop (g : Z -> bool) F h0 s key :
  let p r := negb (g r) in
  (forall r, p r = true -> 0 <= r) -> (forall r, 0 < r -> p r = true) ->
  (forall r, stop r = true -> r = 0 /\ p r = true) ->
  forall t c k, rep F h0 s c t -> key_sorted cmp key_of (elems (plug c t)) ->
  Forall (fun x => p (kcmp key x) = true) (cleft c) ->
  Forall (fun x => ~ p (kcmp key x) = true) (cright c) -> (length (elems t) < k)%nat ->
  wp (loop k (seek_step stop g true key) (addr t, last (cleft c))) s
    (fun x s' => s' = s /\ x = last (filter (fun x => p (kcmp key x) = true) (elems (plug c t)))).
Proof.
  intros p Hp Hn Hst t. induction t as [|l IHl a f r IHr]; intros c [|k] H Hs Ha Hb Hk;
    try (simpl in Hk; lia); apply wp_loop_step; cbn [seek_step addr].
  - apply wp_ret. split; [done|]. rewrite elems_plug. cbn [elems app]. by rewrite filter_split.
  - cbn [elems] in Hk. rewrite length_app in Hk. cbn [length] in Hk.
    assert (E : elems (plug c (Node l a f r)) = (cleft c ++ elems l) ++ a :: elems r ++ cright c).
    { rewrite elems_plug. cbn [elems]. by rewrite <- !app_assoc. }
    rewrite E in Hs. destruct (sorted_split p key _ a _ Hp Hn Hs) as [H1 H2]. rewrite <- E in Hs.
    wp_bind. eapply wp_cmp_node; [exact H|]. look H.
    destruct (stop (kcmp key a)) eqn:Es; [|destruct (g (kcmp key a)) eqn:Ep].
    + apply Hst in Es as [E0 Ep]. apply wp_ret. split; [done|].
      rewrite E, (cons_middle a), app_assoc, filter_split, last_snoc; [done| |apply H2; lia].
      apply Forall_app_2; [by apply H1|by repeat constructor].
    + sx. apply wp_ret. apply (IHl (InL a f r :: c) k); [by apply rep_in_l|done|done| |lia].
      constructor; [unfold p; by rewrite Ep|]. apply H2.
      destruct (Z.lt_ge_cases 0 (kcmp key a)) as [Hlt%Hn|Hlt]; [|done].
      unfold p in Hlt. by rewrite Ep in Hlt.

    + sx. apply wp_ret. specialize (IHr (InR l a f :: c) k). cbn [cleft plug plug1] in IHr.
      rewrite app_assoc, last_snoc in IHr. apply IHr; [by apply rep_in_r|done| |done|lia].
      apply Forall_app_2; [apply H1|repeat constructor]; unfold p; by rewrite Ep.
Qed.

Lemma wp_seek_up_loop stop go (p : Z -> bool) F h0 s key :
  (forall r, stop r = false -> go r = p r) ->
  (forall r, p r = true -> r <= 0) -> (forall r, r < 0 -> p r = true) ->
  (forall r, stop r = true -> r = 0 /\ p r = true) ->
  forall t c k, rep F h0 s c t -> key_sorted cmp key_of (elems (plug c t)) ->
  Forall (fun x => ~ p (kcmp key x) = true) (cleft c) ->
  Forall (fun x => p (kcmp key x) = true) (cright c) -> (length (elems t) < k)%nat ->
  wp (loop k (seek_step stop go false key) (addr t, head (cright c))) s
    (fun x s' => s' = s /\ x = head (filter (fun x => p (kcmp key x) = true) (elems (plug c t)))).
Proof.
  intros Hgo Hp Hn Hst t. induction t as [|l IHl a f r IHr]; intros c [|k] H Hs Ha Hb Hk;
    try (simpl in Hk; lia); apply wp_loop_step; cbn [seek_step addr].
  - apply wp_ret. split; [done|]. rewrite elems_plug. cbn [elems app]. by rewrite filter_split_up.
  - cbn [elems] in Hk. rewrite length_app in Hk. cbn [length] in Hk.
    assert (E : elems (plug c (Node l a f r)) = (cleft c ++ elems l) ++ a :: elems r ++ cright c).
    { rewrite elems_plug. cbn [elems]. by rewrite <- !app_assoc. }
    rewrite E in Hs. destruct (sorted_split_up p key _ a _ Hp Hn Hs) as [H1 H2]. rewrite <- E in Hs.
    wp_bind. eapply wp_cmp_node; [exact H|]. look H.
    destruct (stop (kcmp key a)) eqn:Es; [|rewrite Hgo by done; destruct (p (kcmp key a)) eqn:Ep; cbn [negb]].
    + apply Hst in Es as [E0 Ep]. apply wp_ret. split; [done|].
      rewrite E, filter_split_up; [done|apply H1; lia|]. constructor; [done|by apply H2].
    + sx. apply wp_ret. apply (IHl (InL a f r :: c) k); [by apply rep_in_l|done|done| |lia].
      constructor; [done|by apply H2].
    + sx. apply wp_ret. apply (IHr (InR l a f :: c) k); [by apply rep_in_r|done| |done|lia].
      cbn [cleft]. rewrite app_assoc. apply Forall_app_2; [|by repeat constructor; rewrite Ep].
      apply H1. destruct (Z.lt_ge_cases (kcmp key a) 0) as [Hlt%Hn|Hlt]; [|done].
      by rewrite Ep in Hlt.
Qed.

Lemma wp_seek_down stop (g : Z -> bool) s xs key (P : positive -> Prop) {HD : forall x, Decision (P x)} :
  (forall r, g r = false -> 0 <= r) -> (forall r, 0 < r -> g r = false) ->
  (forall r, stop r = true -> r = 0 /\ g r = false) ->
  (forall x, P x <-> g (kcmp key x) = false) -> is_rbt cmp key_of s xs ->
  wp (seek stop g true key) s (fun x s' => s' = s /\ x = last (filter P xs)).
Proof.
  intros Hp Hn Hst HP (t & H & _ & <- & Hs). unfold seek. wp_bind.
  eapply wp_path_fuel; [exact H|]. intros k Hk. wp_bind. apply wp_gets.
  rewrite (rep_root _ _ _ _ _ H). cbn [plug] in *.
  eapply wp_mono; [apply (wp_seek_down_loop stop g (elems t) (nodes s) s key) with (c := []); eauto|].
  - intros r Hr%negb_true_iff. auto.
  - intros r Hr%Hn. by rewrite Hr.
  - intros r [-> ->]%Hst. done.
  - intros x s' [-> ->]. split; [done|]. cbn [plug]. f_equal. apply list_filter_iff.
    intros y. rewrite HP. by destruct (g _).
Qed.

Lemma wp_seek_up stop go (g : Z -> bool) s xs key (P : positive -> Prop) {HD : forall x, Decision (P x)} :
  (forall r, stop r = false -> go r = g r) ->
  (forall r, g r = true -> r <= 0) -> (forall r, r < 0 -> g r = true) ->
  (forall r, stop r = true -> r = 0 /\ g r = true) ->
  (forall x, P x <-> g (kcmp key x) = true) -> is_rbt cmp key_of s xs ->
  wp (seek stop go false key) s (fun x s' => s' = s /\ x = head (filter P xs)).
Proof.
  intros Hgo Hp Hn Hst HP (t & H & _ & <- & Hs). unfold seek. wp_bind.
  eapply wp_path_fuel; [exact H|]. intros k Hk. wp_bind. apply wp_gets.
  rewrite (rep_root _ _ _ _ _ H). cbn [plug] in *.
  eapply wp_mono; [apply (wp_seek_up_loop stop go g (elems t) (nodes s) s key) with (c := []); eauto|].
  intros x s' [-> ->]. split; [done|]. cbn [plug]. f_equal. apply list_filter_iff.
  intros y. by rewrite HP.
Qed.

(** C7. [rbt_iter_next] and [rbt_iter_prev] return the in-order neighbours of a node
    of the tree, NULL at the ends.  The searches find the nearest node: [rbt_iter_le]
    the last node of the sequence whose key is not greater than the given key,
    [rbt_iter_lt] the last one whose key is less, [rbt_iter_ge] the first one whose
    key is not less and [rbt_iter_gt] the first one whose key is greater; NULL when
    there is none; [rbt_iter_first] and [rbt_iter_last] find the ends.  Nothing is
    changed. *)
Theorem rbt_iter_navigates s xs key :
  is_rbt cmp key_of s xs ->
  (forall ys n zs, xs = ys ++ n :: zs ->
    wp (rbt_iter_next (Some n)) s (fun x s' => s' = s /\ x = head zs) /\
    wp (rbt_iter_prev (Some n)) s (fun x s' => s' = s /\ x = last ys)) /\
  wp (rbt_iter_le kcmp key) s (fun x s' => s' = s /\ x = last (filter (fun a => 0 <= kcmp key a) xs)) /\
  wp (rbt_iter_lt kcmp key) s (fun x s' => s' = s /\ x = last (filter (fun a => 0 < kcmp key a) xs)) /\
  wp (rbt_iter_ge kcmp key) s (fun x s' => s' = s /\ x = head (filter (fun a => kcmp key a <= 0) xs)) /\
  wp (rbt_iter_gt kcmp key) s (fun x s' => s' = s /\ x = head (filter (fun a => kcmp key a < 0) xs)) /\
  wp rbt_iter_first s (fun x s' => s' = s /\ x = head xs) /\
  wp rbt_iter_last s (fun x s' => s' = s /\ x = last xs).
Proof.
  intros H. split_and!.
  - intros ys n zs ->. by apply wp_iter_next_prev.
  - apply (wp_seek_down (fun r => r =? 0) (fun r => r <? 0)); auto; intros; lia.
  - apply (wp_seek_down (fun r => false) (fun r => r <=? 0)); auto; intros; try lia.
  - apply (wp_seek_up (fun r => r =? 0) (fun r => r <? 0) (fun r => r <=? 0)); auto; intros; lia.
  - apply (wp_seek_up (fun r => false) (fun r => r <? 0) (fun r => r <? 0)); auto; intros; lia.
  - by apply wp_iter_first.
  - by apply wp_iter_last.
Qed.
End iter.

(** * Range queries: correctness *)

(** What one call stands for: a node, or all nodes of a subtree. *)
Definition call_covers (T : tree) (call : range_call) (xs : list positive) : Prop :=
  match call with
  | (Some a, RBT_RANGE_ADD_NODE) => xs = [a]
  | (Some a, RBT_RANGE_ADD_TREE) =>
      exists c l f r, T = plug c (Node l a f r) /\ xs = elems (Node l a f r)
  | (None, _) => False
  end.

(** [calls], in order, stand for the nodes [xs], in order. *)
Definition emits (T : tree) (calls : list range_call) (xs : list positive) : Prop :=
  exists pieces, Forall2 (call_covers T) calls pieces /\ concat pieces = xs.

Lemma emits_nil T : emits T [] [].
Proof. by exists []. Qed.

Lemma emits_app T cs1 cs2 xs1 xs2 :
  emits T cs1 xs1 -> emits T cs2 xs2 -> emits T (cs1 ++ cs2) (xs1 ++ xs2).
Proof.
  intros (p1 & H1 & <-) (p2 & H2 & <-). exists (p1 ++ p2).
  split; [by apply Forall2_app|apply concat_app].
Qed.

Lemma emits_node T a : emits T [(Some a, RBT_RANGE_ADD_NODE)] [a].
Proof. exists [[a]]. split; [by repeat constructor|done]. Qed.

Lemma emits_tree c t : emits (plug c t) (add_tree_if (addr t)) (elems t).
Proof.
  destruct t as [|l a f r]; [apply emits_nil|].
  exists [elems (Node l a f r)]. split; [|apply app_nil_r].
  constructor; [|constructor]. by exists c, l, f, r.
Qed.

Section range.
Context (q : positive -> Z).

(** The range is contiguous along the sequence: what follows a node after the
    range is after it, what precedes a node before the range is before it. *)
Definition contiguous : list positive -> Prop :=
  StronglySorted (fun a b => (0 < q a -> 0 < q b) /\ (q b < 0 -> q a < 0)).
Definition in_range (a : positive) : Prop := q a = 0.
#[local] Instance in_range_dec a : Decision (in_range a).
Proof. unfold in_range. apply _. Defined.

Lemma contiguous_split xs a ys :
  contiguous (xs ++ a :: ys) ->
  contiguous xs /\ contiguous ys /\
  Forall (fun x => (0 < q x -> 0 < q a) /\ (q a < 0 -> q x < 0)) xs /\
  Forall (fun y => (0 < q a -> 0 < q y) /\ (q y < 0 -> q a < 0)) ys.
Proof.
  intros H. pose proof (StronglySorted_app_1_r _ _ _ H) as Hr.
  apply StronglySorted_cons in Hr as [Hf Hr]. split_and!; try done.
  - by eapply StronglySorted_app_1_l.
  - apply Forall_forall. intros x Hx.
    eapply StronglySorted_app_1_elem_of in H; [exact H|done|left].
Qed.

Lemma wp_cmp_range {F h0 s c l a f r} Q :
  rep F h0 s c (Node l a f r) -> Q (q a) s -> wp (cmp_range q (Some a)) s Q.
Proof. intros H HQ. look H. unfold cmp_range. wp_bind. apply wp_ret. by sx. Qed.

(** Splits the sequence of a node. *)
#[local] Ltac split_node :=
  match goal with
  | H : contiguous (elems (Node ?l ?a _ ?r)) |- _ =>
      let H1 := fresh "Hcl" in let H2 := fresh "Hcr" in
      let H3 := fresh "Hbl" in let H4 := fresh "Hbr" in
      destruct (contiguous_split (elems l) a (elems r) H) as (H1 & H2 & H3 & H4)
  end.
Lemma wp_query_low F h0 s : forall t c k,
  rep F h0 s c t -> contiguous (elems t) -> Forall (fun x => q x <= 0) (elems t) ->
  (length (elems t) < k)%nat ->
  wp (query_low q k (addr t)) s (fun calls s' => s' = s /\
    emits (plug c t) calls (filter in_range (elems t)) /\ (length calls <= 2 * height t)%nat).
Proof.
  induction t as [|l IHl a f r IHr]; intros c [|k] H Hc Hq Hk; try (simpl in Hk; lia).
  { cbn. split_and!; [done|apply emits_nil|lia]. }
  split_node. cbn [elems] in Hk, Hq. rewrite length_app in Hk. cbn [length] in Hk.
  apply Forall_app in Hq as [Hql [Hqa Hqr]%Forall_cons].
  cbn [query_low addr]. wp_bind. eapply wp_cmp_range; [exact H|]. look H. cbn [elems height].
  rewrite filter_app. destruct (Z.ltb_spec (q a) 0) as [Ha|Ha].
  - sx. rewrite filter_none, filter_cons_False.
    + eapply wp_mono; [apply (IHr (InR l a f :: c)); [by apply rep_in_r|done|done|lia]|].
      intros calls s' (-> & Hem & Hl). cbn [app plug plug1] in *. split_and!; [done|done|lia].
    + unfold in_range. lia.
    + eapply Forall_impl; [exact Hbl|]. unfold in_range. cbv beta. lia.
  - sx. wp_bind. eapply wp_mono; [apply (IHl (InL a f r :: c)); [by apply rep_in_l|done|done|lia]|].
    intros calls s' (-> & Hem & Hl). sx. apply wp_ret. split_and!; [done| |].
    + apply emits_app; [exact Hem|]. rewrite filter_cons_True by (unfold in_range; lia).
      apply (emits_app _ [_] _ [a]); [apply emits_node|].
      rewrite filter_all; [apply (emits_tree (InR l a f :: c))|].
      apply Forall_forall. intros x Hx. rewrite Forall_forall in Hqr, Hbr.
      specialize (Hqr x Hx). specialize (Hbr x Hx). unfold in_range. cbv beta in *. lia.
    + rewrite !length_app. cbn [length]. assert (length (add_tree_if (addr r)) <= 1)%nat.
      { destruct r; simpl; lia. } lia.
Qed.

Lemma wp_query_high F h0 s : forall t c k,
  rep F h0 s c t -> contiguous (elems t) -> Forall (fun x => 0 <= q x) (elems t) ->
  (length (elems t) < k)%nat ->
  wp (query_high q k (addr t)) s (fun calls s' => s' = s /\
    emits (plug c t) calls (filter in_range (elems t)) /\ (length calls <= 2 * height t)%nat).
Proof.
  induction t as [|l IHl a f r IHr]; intros c [|k] H Hc Hq Hk; try (simpl in Hk; lia).
  { cbn. split_and!; [done|apply emits_nil|lia]. }
  split_node. cbn [elems] in Hk, Hq. rewrite length_app in Hk. cbn [length] in Hk.
  apply Forall_app in Hq as [Hql [Hqa Hqr]%Forall_cons].
  cbn [query_high addr]. wp_bind. eapply wp_cmp_range; [exact H|]. look H. cbn [elems height].
  rewrite filter_app. destruct (Z.ltb_spec 0 (q a)) as [Ha|Ha].
  - sx. rewrite filter_cons_False, (filter_none _ (elems r)), app_nil_r.
    + eapply wp_mono; [apply (IHl (InL a f r :: c)); [by apply rep_in_l|done|done|lia]|].
      intros calls s' (-> & Hem & Hl). cbn [app plug plug1] in *. split_and!; [done|done|lia].
    + eapply Forall_impl; [exact Hbr|]. unfold in_range. cbv beta. lia.
    + unfold in_range. lia.
  - sx. sx. wp_bind.
    eapply wp_mono; [apply (IHr (InR l a f :: c)); [by apply rep_in_r|done|done|lia]|].
    intros calls s' (-> & Hem & Hl). apply wp_ret. split_and!; [done| |].
    + apply emits_app; [|rewrite filter_cons_True by (unfold in_range; lia);
        by apply (emits_app _ [_] _ [a]); [apply emits_node|]].
      rewrite filter_all; [apply (emits_tree (InL a f r :: c))|].
      apply Forall_forall. intros x Hx. rewrite Forall_forall in Hql, Hbl.
      specialize (Hql x Hx). specialize (Hbl x Hx). unfold in_range. cbv beta in *. lia.
    + rewrite !length_app. cbn [length]. assert (length (add_tree_if (addr l)) <= 1)%nat.
      { destruct l; simpl; lia. } lia.
Qed.

Lemma wp_query_over F h0 s : forall t c k,
  rep F h0 s c t -> contiguous (elems t) -> (length (elems t) < k)%nat ->
  wp (query_over q k (addr t)) s (fun calls s' => s' = s /\
    emits (plug c t) calls (filter in_range (elems t)) /\ (length calls <= 4 * height t)%nat).
Proof.
  induction t as [|l IHl a f r IHr]; intros c [|k] H Hc Hk; try (simpl in Hk; lia).
  { cbn. split_and!; [done|apply emits_nil|lia]. }
  split_node. cbn [elems] in Hk. rewrite length_app in Hk. cbn [length] in Hk.
  cbn [query_over addr]. wp_bind. eapply wp_cmp_range; [exact H|]. look H. cbn [elems height].
  rewrite filter_app. destruct (Z.ltb_spec (q a) 0) as [Ha|Ha]; [|destruct (Z.ltb_spec 0 (q a)) as [Ha'|Ha']].
  - sx. rewrite filter_none, filter_cons_False.
    + eapply wp_mono; [apply (IHr (InR l a f :: c)); [by apply rep_in_r|done|lia]|].
      intros calls s' (-> & Hem & Hl). cbn [app plug plug1] in *. split_and!; [done|done|lia].
    + unfold in_range. lia.
    + eapply Forall_impl; [exact Hbl|]. unfold in_range. cbv beta. lia.
  - sx. rewrite filter_cons_False, (filter_none _ (elems r)), app_nil_r.
    + eapply wp_mono; [apply (IHl (InL a f r :: c)); [by apply rep_in_l|done|lia]|].
      intros calls s' (-> & Hem & Hl). cbn [app plug plug1] in *. split_and!; [done|done|lia].
    + eapply Forall_impl; [exact Hbr|]. unfold in_range. cbv beta. lia.
    + unfold in_range. lia.
  - sx. wp_bind.
    eapply wp_mono; [apply (wp_query_low F h0 s l (InL a f r :: c)); [by apply rep_in_l|done| |lia]|].
    { eapply Forall_impl; [exact Hbl|]. cbv beta. lia. }
    intros low s' (-> & Hlow & Hl1). sx. wp_bind.
    eapply wp_mono; [apply (wp_query_high F h0 s r (InR l a f :: c)); [by apply rep_in_r|done| |lia]|].
    { eapply Forall_impl; [exact Hbr|]. cbv beta. lia. }
    intros high s' (-> & Hhigh & Hl2). apply wp_ret. split_and!; [done| |].
    + apply emits_app; [exact Hlow|]. rewrite filter_cons_True by (unfold in_range; lia).
      by apply (emits_app _ [_] _ [a]); [apply emits_node|].
    + rewrite !length_app. cbn [length]. lia.
Qed.

(** C9. [rbt_range_query] covers the range: for a contiguous range, the calls
    it makes stand, in order, for exactly the nodes of the range, in order,
    each call naming a node or a whole subtree of the tree; it makes
    O(log n) calls; and it changes nothing. *)
Theorem rbt_range_query_covers {K} (cmp : K -> K -> Z) (key_of : positive -> K) s xs :
  is_rbt cmp key_of s xs -> contiguous xs ->
  exists T, rep xs (nodes s) s [] T /\
    wp (rbt_range_query q) s (fun calls s' => s' = s /\
      emits T calls (filter (fun a => q a = 0) xs) /\
      (length calls <= 8 * Nat.log2 (length xs + 1))%nat).
Proof.
  intros (t & H & [Hb [n Hn]] & <- & _) Hc. exists t. split; [exact H|].
  unfold rbt_range_query. wp_bind.
  eapply wp_path_fuel; [exact H|]. intros k Hk. wp_bind. apply wp_gets.
  rewrite (rep_root _ _ _ _ _ H). cbn [plug] in *.
  eapply wp_mono; [apply (wp_query_over (elems t) (nodes s) s t []); [exact H|done|done]|].
  intros calls s' (-> & Hem & Hl). split_and!; [done|exact Hem|].
  pose proof (RB_balanced t Hb (ex_intro _ n Hn)). lia.
Qed.
End range.

(** * Concrete runs *)
Lemma rbt_iter_navigates_witness :
  wp (rbt_iter_next (Some 2%positive)) ex_rbt (fun x s' => s' = ex_rbt /\ x = Some 4%positive) /\
  wp (rbt_iter_prev (Some 2%positive)) ex_rbt (fun x s' => s' = ex_rbt /\ x = Some 1%positive) /\
  wp (rbt_iter_le (compare ex_cmp ex_key) 3) ex_rbt (fun x s' => s' = ex_rbt /\ x = Some 2%positive).
Proof.
  destruct (rbt_iter_navigates ex_cmp ex_key ex_rbt [1; 2; 4]%positive 3 ex_is_rbt) as (H1 & H2 & _).
  destruct (H1 [1%positive] 2%positive [4%positive] eq_refl) as [Hn Hp]. split; [exact Hn|]. split; [exact Hp|exact H2].
Defined.

(** The range of the keys from 2 on. *)
Definition ex_range (a : positive) : Z := if (a <? 2)%positive then -1 else 0.

Lemma rbt_range_query_covers_witness :
  exists T, rep [1; 2; 4]%positive (nodes ex_rbt) ex_rbt [] T /\
    wp (rbt_range_query ex_range) ex_rbt (fun calls s' => s' = ex_rbt /\
      emits T calls [2; 4]%positive /\ (length calls <= 16)%nat).
Proof.
  apply (rbt_range_query_covers ex_range ex_cmp ex_key ex_rbt [1; 2; 4]%positive).
  - apply ex_is_rbt.
  - repeat constructor; done.
Defined.
