(* ===== verification/Bint.v ===== *)
(** Model of src/bint.h and src/bint.c: arbitrary-precision integers as chains of
    chunks of 32-bit components.

    A chain is owned by one [struct bint] and never shared, so it is a list of
    chunks; the first chunk is the one embedded in the structure.  Components are
    integers in [0, 2^32), every store into one wraps, and the C integer types of
    lengths and carries wrap too.  The chunk allocator is part of the state: it
    may fail at any call, and freeing more chunks than are allocated is an
    error.  Where the code works on digits in place through two pointers to the
    same number, each component is read before it is written and never again, so
    the functions take the old value of each operand. *)
From S2P Require Import Prelude.

Definition BINT_CHUNK_SIZE : nat := 4.
Definition COMPONENT_BITS : Z := 32.
Definition CHUNK_BITS : Z := COMPONENT_BITS * Z.of_nat BINT_CHUNK_SIZE.

(** [uint32_t data[BINT_CHUNK_SIZE]] *)
Abbreviation chunk := (list Z).

Record bint := mk_bint {
  negative : bool;
  digits : list chunk;
}.

(** [for (i = lo; i < hi; i++)] and [for (i = hi - 1; i >= lo; i--)] over a
    state. *)
Definition for_up {A} (lo hi : nat) (body : nat -> A -> A) (a : A) : A :=
  foldl (fun a i => body i a) a (seq lo (hi - lo)).
Definition for_down {A} (lo hi : nat) (body : nat -> A -> A) (a : A) : A :=
  foldl (fun a i => body i a) a (rev (seq lo (hi - lo))).

Definition zero_chunk : chunk := replicate BINT_CHUNK_SIZE 0.

(** * The chunk allocator *)
Record mem := mk_mem {
  tried : nat;  (** calls of the allocator so far *)
  live : nat;   (** chunks allocated and not freed *)
}.

(** [while (d) { d >>= 1; n++; }] for a 32-bit [d]; 32 rounds are enough. *)
Fixpoint count_bits (fuel : nat) (d n : Z) : Z :=
  match fuel with
  | O => n
  | Datatypes.S fuel => if truth d then count_bits fuel (Z.shiftr d 1) (u32 (n + 1)) else n
  end.

Definition bit_length (num : Z) : Z := count_bits 32 num 0.

Definition chunk_is_zero (c : chunk) : bool := forallb (fun d => d =? 0) c.

Definition is_zero (b : bint) : bool :=
  match digits b with
  | [c] => chunk_is_zero c
  | _ => false
  end.

(** The loop of [compare_chunk], from component [i - 1] down. *)
Fixpoint compare_from (i : nat) (a b : chunk) : Z :=
  match i with
  | O => 0
  | Datatypes.S i =>
      let ca := a !!! i in
      let cb := b !!! i in
      if ca <? cb then -1 else if cb <? ca then 1 else compare_from i a b
  end.

Definition compare_chunk (a b : chunk) : Z := compare_from BINT_CHUNK_SIZE a b.

Fixpoint chain_length (c : list chunk) : Z :=
  match c with [] => 0 | _ :: c => u32 (1 + chain_length c) end.

(** [reverse_chain]: the chain [c] is moved onto [d]. *)
Fixpoint reverse_onto (c d : list chunk) : list chunk :=
  match c with [] => d | x :: c => reverse_onto c (x :: d) end.
Definition reverse_chain (c : list chunk) : list chunk := reverse_onto c [].

(** The most significant non-zero component among the first [i]. *)
Fixpoint top_component (i : nat) (c : chunk) : option nat :=
  match i with
  | O => None
  | Datatypes.S i => if truth (c !!! i) then Some i else top_component i c
  end.

Fixpoint bit_length_chain (c : list chunk) (length : Z) : Z :=
  match c with
  | [] => 0
  | [c] =>
      match top_component BINT_CHUNK_SIZE c with
      | None => 0
      | Some i => count_bits 32 (c !!! i) (u32 (length + Z.of_nat i * COMPONENT_BITS))
      end
  | _ :: c => bit_length_chain c (u32 (length + CHUNK_BITS))
  end.

Definition bint_bit_length (b : bint) : Z := bit_length_chain (digits b) 0.

(** * Magnitudes *)
Fixpoint mag_cmp_chain (ca cb : list chunk) (last_diff : Z) : Z :=
  match ca, cb with
  | a :: ca, b :: cb =>
      let diff := compare_chunk a b in
      mag_cmp_chain ca cb (if truth diff then diff else last_diff)
  | _ :: _, [] => 1
  | [], _ :: _ => -1
  | [], [] => last_diff
  end.

Definition mag_cmp (a b : bint) : Z := mag_cmp_chain (digits a) (digits b) 0.

(** The digit loops of [mag_add]: both chunks, and the carry alone. *)
Definition add_chunk (d c : chunk) (carry : Z) : chunk * Z :=
  for_up 0 BINT_CHUNK_SIZE (fun i '(data, carry) =>
    let r := u64 (data !!! i + c !!! i) in
    let r := if truth carry then u64 (r + 1) else r in
    (<[i := u32 r]> data, i32 (Z.shiftr r COMPONENT_BITS))) (d, carry).

Definition carry_chunk (d : chunk) (carry : Z) : chunk * Z :=
  for_up 0 BINT_CHUNK_SIZE (fun i '(data, carry) =>
    let r := data !!! i in
    let r := if truth carry then u64 (r + 1) else r in
    (<[i := u32 r]> data, i32 (Z.land r (Z.shiftl 1 COMPONENT_BITS)))) (d, carry).

Fixpoint carry_chain (dc : list chunk) (carry : Z) : list chunk :=
  match dc with
  | [] => []
  | d :: dc =>
      if truth carry then
        let '(d, carry) := carry_chunk d carry in
        d :: carry_chain dc carry
      else d :: dc
  end.

Fixpoint add_chain (dc sc : list chunk) (carry : Z) : list chunk :=
  match dc, sc with
  | d :: dc, s :: sc =>
      let '(d, carry) := add_chunk d s carry in
      d :: add_chain dc sc carry
  | _, _ => carry_chain dc carry
  end.

(** The digit loops of [mag_sub]. *)
Definition sub_chunk (b s : chunk) (borrow : Z) (d : chunk) : chunk * Z :=
  for_up 0 BINT_CHUNK_SIZE (fun i '(data, borrow) =>
    let r := u64 (b !!! i - s !!! i) in
    let r := if truth borrow then u64 (r - 1) else r in
    (<[i := u32 r]> data, i32 (Z.shiftr r COMPONENT_BITS))) (d, borrow).

Definition borrow_chunk (b : chunk) (borrow : Z) (d : chunk) : chunk * Z :=
  for_up 0 BINT_CHUNK_SIZE (fun i '(data, borrow) =>
    let r := b !!! i in
    let r := if truth borrow then u64 (r - 1) else r in
    (<[i := u32 r]> data, i32 (Z.shiftr r COMPONENT_BITS))) (d, borrow).

(** [None]: a NULL destination chunk is written to. *)
Fixpoint borrow_chain (dc bc : list chunk) (borrow : Z) : option (list chunk) :=
  match bc with
  | [] => Some dc
  | b :: bc =>
      if truth borrow then
        match dc with
        | [] => None
        | d :: dc =>
            let '(d, borrow) := borrow_chunk b borrow d in
            dc ← borrow_chain dc bc borrow;
            Some (d :: dc)
        end%stdpp
      else Some dc
  end.

Fixpoint sub_chain (dc bc sc : list chunk) (borrow : Z) : option (list chunk) :=
  match bc, sc with
  | b :: bc, s :: sc =>
      match dc with
      | [] => None
      | d :: dc =>
          let '(d, borrow) := sub_chunk b s borrow d in
          dc ← sub_chain dc bc sc borrow;
          Some (d :: dc)
      end%stdpp
  | _, _ => borrow_chain dc bc borrow
  end.

(** * Multiplication of two chunks *)

(** [while (carry && k < 2 * BINT_CHUNK_SIZE) ...], with [n] indices left. *)
Fixpoint mac_carry (n : nat) (k : nat) (mm : list Z) (carry : Z) : list Z :=
  match n with
  | O => mm
  | Datatypes.S n =>
      if truth carry then
        let r := u64 (mm !!! k + carry) in
        mac_carry n (Datatypes.S k) (<[k := u32 r]> mm) (u32 (Z.shiftr r COMPONENT_BITS))
      else mm
  end.

Definition mac_row (ad : Z) (b : chunk) (i : nat) (mm : list Z) : list Z * Z :=
  for_up 0 BINT_CHUNK_SIZE (fun j '(mm, carry) =>
    let r := u64 (ad * b !!! j) in
    let r := u64 (r + mm !!! (i + j)%nat) in
    let r := u64 (r + carry) in
    (<[(i + j)%nat := u32 r]> mm, u32 (Z.shiftr r COMPONENT_BITS))) (mm, 0).

Definition mac_products (a b : chunk) (mm : list Z) : list Z :=
  for_up 0 BINT_CHUNK_SIZE (fun i mm =>
    let '(mm, carry) := mac_row (a !!! i) b i mm in
    mac_carry (BINT_CHUNK_SIZE - i) (i + BINT_CHUNK_SIZE) mm carry) mm.

Definition chunk_mac (ab : option (chunk * chunk)) (r carry_inout : chunk) : chunk * chunk :=
  let mm := replicate (BINT_CHUNK_SIZE * 2) 0 in
  let '(mm, carry) :=
    for_up 0 BINT_CHUNK_SIZE (fun i '(mm, carry) =>
      let rd := u64 (r !!! i + carry_inout !!! i) in
      let rd := u64 (rd + carry) in
      (<[i := u32 rd]> mm, u32 (Z.shiftr rd COMPONENT_BITS))) (mm, 0) in
  let mm := match ab with Some (a, b) => mac_products a b mm | None => mm end in
  for_up 0 BINT_CHUNK_SIZE (fun i '(r, c) =>
    (<[i := mm !!! i]> r, <[i := mm !!! (i + BINT_CHUNK_SIZE)%nat]> c)) (r, carry_inout).
