(* ===== verification/BintOps.v ===== *)
(** Model of src/bint.c, continued: the public interface, with allocation. *)
From S2P Require Import Prelude Bint.

Section bint.
(** Whether the [n]th call of the allocator returns a chunk. *)
Context (malloc_ok : nat -> bool).

(** * The chunk allocator *)
Definition bint_chunk_alloc : M mem bool := fun m =>
  let ok := malloc_ok (tried m) in
  Ok (mk_mem (Datatypes.S (tried m)) (if ok then Datatypes.S (live m) else live m), ok).

Definition bint_chunk_free : M mem unit := fun m =>
  match live m with
  | O => Crash
  | Datatypes.S n => Ok (mk_mem (tried m) n, tt)
  end.

Fixpoint destroy_chain (c : list chunk) : M mem unit :=
  match c with
  | [] => ret tt
  | _ :: next => bint_chunk_free;; destroy_chain next
  end.

(** [NULL], the empty chain, when the allocation fails. *)
Fixpoint alloc_chain_onto (length : nat) (ch : list chunk) : M mem (list chunk) :=
  match length with
  | O => ret ch
  | Datatypes.S length =>
      n ← bint_chunk_alloc;
      if n : bool then alloc_chain_onto length (zero_chunk :: ch)
      else destroy_chain ch;; ret []
  end.
Definition alloc_chain (length : Z) : M mem (list chunk) :=
  alloc_chain_onto (Z.to_nat length) [].

(** * Lengths *)
Fixpoint trim_stack (stack : list chunk) : M mem (list chunk) :=
  match stack with
  | [] => ret []
  | c :: next => if chunk_is_zero c then bint_chunk_free;; trim_stack next else ret stack
  end.

Definition trim_chunks (b : bint) : M mem bint :=
  match digits b with
  | [] => crash
  | c :: next =>
      stack ← trim_stack (reverse_chain next);
      ret (mk_bint (negative b) (c :: reverse_chain stack))
  end.

(** The status is 0, or -1 if the allocation failed. *)
Fixpoint extend_chain (c : list chunk) (count : Z) : M mem (list chunk * Z) :=
  match c with
  | [] => crash
  | [c] =>
      if count <? CHUNK_BITS then ret ([c], 0)
      else
        next ← alloc_chain (count / CHUNK_BITS);
        match next with
        | [] => ret ([c], -1)
        | _ => ret (c :: next, 0)
        end
  | c :: next =>
      if CHUNK_BITS <=? count then
        '(next, rc) ← extend_chain next (count - CHUNK_BITS);
        ret (c :: next, rc)
      else ret (c :: next, 0)
  end.

Definition extend_length (b : bint) (count : Z) : M mem (bint * Z) :=
  '(c, rc) ← extend_chain (digits b) count;
  ret (mk_bint (negative b) c, rc).

(** * Addition and subtraction *)
Definition mag_add (dst src : bint) : M mem (bint * Z) :=
  let dst_len := bint_bit_length dst in
  let src_len := bint_bit_length src in
  let result_len := u32 ((if src_len <? dst_len then dst_len else src_len) + 1) in
  '(dst, rc) ← extend_length dst result_len;
  if rc <? 0 then ret (dst, -1)
  else
    dst ← trim_chunks (mk_bint (negative dst) (add_chain (digits dst) (digits src) 0));
    ret (dst, 0).

Definition mag_sub (dst big small : bint) : M mem bint :=
  c ← need (sub_chain (digits dst) (digits big) (digits small) 0);
  trim_chunks (mk_bint (negative dst) c).

Definition do_subtract (dst src : bint) : M mem (bint * Z) :=
  if mag_cmp dst src <? 0 then
    '(dst, rc) ← extend_length dst (bint_bit_length src);
    if rc <? 0 then ret (dst, -1)
    else
      dst ← mag_sub dst src dst;
      ret (mk_bint (negb (negative dst)) (digits dst), 0)
  else
    dst ← mag_sub dst dst src;
    ret (dst, 0).

Definition bint_add (dst src : bint) : M mem (bint * Z) :=
  if ((negative dst && negative src) || negb (negative dst || negative src))%bool
  then mag_add dst src
  else do_subtract dst src.

Definition bint_sub (dst src : bint) : M mem (bint * Z) :=
  if ((negative dst && negb (negative src)) || (negb (negative dst) && negative src))%bool
  then mag_add dst src
  else do_subtract dst src.

(** * Values *)

(** [- value] on a 32-bit [int], undefined for the least one. *)
Definition neg32 (value : Z) : option Z := if value =? - 2 ^ 31 then None else Some (- value).
Definition abs (value : Z) : option Z := if value <? 0 then neg32 value else Some value.

Definition bint_with (neg : bool) (digit : Z) : bint := mk_bint neg [<[0%nat := u32 digit]> zero_chunk].

(** The number for an [int]. *)
Definition bint_of (value : Z) : bint := bint_with (value <? 0) (Z.abs value).

Definition bint_zero : bint := mk_bint false [[0; 0; 0; 0]].
Definition bint_one : bint := mk_bint false [[1; 0; 0; 0]].

Definition bint_destroy (b : bint) : M mem unit :=
  match digits b with
  | [] => crash
  | _ :: next => destroy_chain next
  end.

Definition bint_set (b : bint) (value : Z) : M mem bint :=
  bint_destroy b;;
  a ← need (abs value);
  ret (bint_with (value <? 0) a).

Definition bint_init (value : Z) : M mem bint :=
  bint_set (mk_bint false [zero_chunk]) value.

Fixpoint copy_chain (dc sc : list chunk) : M mem (list chunk) :=
  match sc, dc with
  | [], _ => ret dc
  | _ :: _, [] => crash
  | [s], _ :: dc => destroy_chain dc;; ret [s]
  | s :: sc, _ :: dc =>
      dc ← copy_chain dc sc;
      ret (s :: dc)
  end.

Definition bint_copy (dst src : bint) : M mem (bint * Z) :=
  '(dst, rc) ← extend_length dst (bint_bit_length src);
  if rc <? 0 then ret (dst, -1)
  else
    c ← copy_chain (digits dst) (digits src);
    ret (mk_bint (negative src) c, 0).

Definition bint_swap (a b : bint) : bint * bint := (b, a).

Definition bint_get (b : bint) : option Z :=
  match digits b with
  | [] => None
  | c :: _ =>
      let v := i32 (c !!! 0%nat) in
      if negative b then neg32 v else Some v
  end.

Definition bint_get_sign (b : bint) : Z :=
  if is_zero b then 0 else if negative b then -1 else 1.

Definition bint_set_sign (b : bint) (sign : Z) : bint := mk_bint (sign <? 0) (digits b).

Definition bint_compare (a b : bint) : Z :=
  if (negative a && negb (negative b))%bool then -1
  else if (negative b && negb (negative a))%bool then 1
  else
    let cmp := mag_cmp a b in
    if negative a then - cmp else cmp.

(** * Multiplication *)

(** The inner loops of [bint_mul]: one chunk of [a] times the chain of [b],
    then the carry, added to the result from [rcs] on. *)
Fixpoint mul_carry (rcs : list chunk) (carry : chunk) : list chunk :=
  match rcs with
  | [] => []
  | r :: rcs =>
      let '(r, carry) := chunk_mac None r carry in
      r :: mul_carry rcs carry
  end.

(** [None]: the result is too short. *)
Fixpoint mul_row (a : chunk) (bc rcs : list chunk) (carry : chunk) : option (list chunk) :=
  match bc, rcs with
  | [], _ => Some (mul_carry rcs carry)
  | _ :: _, [] => None
  | b :: bc, r :: rcs =>
      let '(r, carry) := chunk_mac (Some (a, b)) r carry in
      rcs ← mul_row a bc rcs carry;
      Some (r :: rcs)
  end%stdpp.

Fixpoint mul_rows (ac bc rc : list chunk) : option (list chunk) :=
  match ac with
  | [] => Some rc
  | a :: ac =>
      row ← mul_row a bc rc zero_chunk;
      match row with
      | [] => None
      | r :: rc => rc ← mul_rows ac bc rc; Some (r :: rc)
      end
  end%stdpp.

Definition bint_mul (result a b : bint) : M mem (bint * Z) :=
  '(result, rc) ← extend_length result (u32 (bint_bit_length a + bint_bit_length b));
  if rc <? 0 then ret (result, -1)
  else
    rc ← need (mul_rows (digits a) (digits b) (map (fun _ => zero_chunk) (digits result)));
    ret (bint_set_sign (mk_bint (negative result) rc) (bint_get_sign a * bint_get_sign b), 0).

(** * Bit operations *)
Fixpoint bit_get_chain (c : list chunk) (pos : Z) : Z :=
  match c with
  | [] => 0
  | c :: next =>
      if CHUNK_BITS <=? pos then bit_get_chain next (pos - CHUNK_BITS)
      else if truth (Z.land (c !!! Z.to_nat (pos / COMPONENT_BITS))
                            (Z.shiftl 1 (pos mod COMPONENT_BITS))) then 1 else 0
  end.
Definition bint_bit_get (b : bint) (pos : Z) : Z := bit_get_chain (digits b) pos.

(** Applies [f] to the last chunk of a chain. *)
Fixpoint on_last (f : chunk -> chunk) (c : list chunk) : list chunk :=
  match c with
  | [] => []
  | [c] => [f c]
  | c :: next => c :: on_last f next
  end.

Definition set_bit (pos : Z) (c : chunk) : chunk :=
  let k := Z.to_nat (pos / COMPONENT_BITS) in
  <[k := u32 (Z.lor (c !!! k) (Z.shiftl 1 (pos mod COMPONENT_BITS)))]> c.

Fixpoint bit_set_chain (c : list chunk) (pos : Z) : M mem (list chunk * Z) :=
  match c with
  | [] => crash
  | [c] =>
      if CHUNK_BITS <=? pos then
        next ← alloc_chain (pos / CHUNK_BITS);
        match next with
        | [] => ret ([c], -1)
        | _ => ret (c :: on_last (set_bit (pos mod CHUNK_BITS)) next, 0)
        end
      else ret ([set_bit pos c], 0)
  | c :: next =>
      if CHUNK_BITS <=? pos then
        '(next, rc) ← bit_set_chain next (pos - CHUNK_BITS);
        ret (c :: next, rc)
      else ret (set_bit pos c :: next, 0)
  end.
Definition bint_bit_set (b : bint) (pos : Z) : M mem (bint * Z) :=
  '(c, rc) ← bit_set_chain (digits b) pos;
  ret (mk_bint (negative b) c, rc).

(** The flag says that the chunk is there and is the last one. *)
Fixpoint bit_clear_chain (c : list chunk) (pos : Z) : list chunk * bool :=
  match c with
  | [] => ([], false)
  | c :: next =>
      if CHUNK_BITS <=? pos then
        let '(next, last) := bit_clear_chain next (pos - CHUNK_BITS) in (c :: next, last)
      else
        let k := Z.to_nat (pos / COMPONENT_BITS) in
        let m := u32 (Z.lnot (Z.shiftl 1 (pos mod COMPONENT_BITS))) in
        (<[k := Z.land (c !!! k) m]> c :: next, match next with [] => true | _ => false end)
  end.
Definition bint_bit_clear (b : bint) (pos : Z) : M mem bint :=
  let '(c, last) := bit_clear_chain (digits b) pos in
  let b := mk_bint (negative b) c in
  if last then trim_chunks b else ret b.

(** The digit loop of the bitwise operations, with [need_trim]. *)
Definition bitop_chunk (op : Z -> Z -> Z) (d s : chunk) : chunk * bool :=
  for_up 0 BINT_CHUNK_SIZE (fun i '(d, need_trim) =>
    let v := u32 (op (d !!! i) (s !!! i)) in
    (<[i := v]> d, if truth v then false else need_trim)) (d, true).

(** Makes the chain [dc] at least as long as [sc]. *)
Fixpoint extend_like (dc sc : list chunk) : M mem (list chunk * Z) :=
  match dc, sc with
  | [], _ | _, [] => crash
  | d :: (_ :: _) as dn, _ :: (_ :: _) as sn =>
      '(dn, rc) ← extend_like dn sn;
      ret (d :: dn, rc)
  | [d], _ :: (_ :: _) as sn =>
      n ← alloc_chain (chain_length sn);
      match n with
      | [] => ret ([d], -1)
      | _ => ret (d :: n, 0)
      end
  | _, [_] => ret (dc, 0)
  end.

(** The loops of [bint_or] and [bint_xor], over the whole of [sc]. *)
Fixpoint bitop_chain (op : Z -> Z -> Z) (dc sc : list chunk) (need_trim : bool) :
    M mem (list chunk * bool) :=
  match sc, dc with
  | [], _ => ret (dc, need_trim)
  | _ :: _, [] => crash
  | s :: sc, d :: dc =>
      let '(d, need_trim) := bitop_chunk op d s in
      '(dc, need_trim) ← bitop_chain op dc sc need_trim;
      ret (d :: dc, need_trim)
  end.

Definition bint_or (dst src : bint) : M mem (bint * Z) :=
  '(dc, rc) ← extend_like (digits dst) (digits src);
  if rc <? 0 then ret (mk_bint (negative dst) dc, -1)
  else
    '(dc, _) ← bitop_chain Z.lor dc (digits src) false;
    ret (mk_bint (negative dst) dc, 0).

Definition bint_xor (dst src : bint) : M mem (bint * Z) :=
  '(dc, rc) ← extend_like (digits dst) (digits src);
  if rc <? 0 then ret (mk_bint (negative dst) dc, -1)
  else
    '(dc, need_trim) ← bitop_chain Z.lxor dc (digits src) false;
    let dst := mk_bint (negative dst) dc in
    dst ← (if need_trim : bool then trim_chunks dst else ret dst);
    ret (dst, 0).

(** The loop of [bint_and]: at the end of [sc], the rest of [dc] is freed. *)
Fixpoint and_chain (dc sc : list chunk) (need_trim : bool) : M mem (list chunk * bool) :=
  match dc, sc with
  | d :: dc, s :: sc =>
      let '(d, need_trim) := bitop_chunk Z.land d s in
      match sc with
      | [] => destroy_chain dc;; ret ([d], need_trim)
      | _ :: _ =>
          '(dc, need_trim) ← and_chain dc sc need_trim;
          ret (d :: dc, need_trim)
      end
  | _, _ => ret (dc, need_trim)
  end.

Definition bint_and (dst src : bint) : M mem bint :=
  '(dc, need_trim) ← and_chain (digits dst) (digits src) false;
  let dst := mk_bint (negative dst) dc in
  if need_trim : bool then trim_chunks dst else ret dst.

Fixpoint bic_chain (dc sc : list chunk) (need_trim : bool) : list chunk * bool :=
  match dc, sc with
  | d :: dc, s :: sc =>
      let '(d, need_trim) := bitop_chunk (fun d s => Z.land d (u32 (Z.lnot s))) d s in
      let '(dc, need_trim) := bic_chain dc sc need_trim in
      (d :: dc, need_trim)
  | _, _ => (dc, need_trim)
  end.

Definition bint_bic (dst src : bint) : M mem bint :=
  let '(dc, need_trim) := bic_chain (digits dst) (digits src) false in
  let dst := mk_bint (negative dst) dc in
  if need_trim : bool then trim_chunks dst else ret dst.

(** * Shifts *)

(** [while (count >= CHUNK_BITS) src = src->next, count -= CHUNK_BITS;]:
    [None] when it runs off the chain. *)
Fixpoint skip_chunks (src : list chunk) (count : Z) : option (list chunk * Z) :=
  if CHUNK_BITS <=? count then
    match src with
    | [] => None
    | _ :: src => skip_chunks src (count - CHUNK_BITS)
    end
  else Some (src, count).

(** Copies [src] over the front of [dst] and clears the rest of it. *)
Fixpoint move_chunks (dst src : list chunk) : list chunk :=
  match dst, src with
  | [], _ => []
  | _ :: dst, s :: src => s :: move_chunks dst src
  | _ :: dst, [] => zero_chunk :: move_chunks dst []
  end.

(** One round of the loop over the chunks: the components that left the last
    chunk ([tmp]) and the bits that left the last component ([carry]) enter. *)
Definition shl_chunk (count : nat) (bit_shift : Z) (data tmp : chunk) (carry : Z) :
    chunk * chunk * Z :=
  let next_digits := for_up 0 count (fun i next_digits =>
    <[i := data !!! (BINT_CHUNK_SIZE - count + i)%nat]> next_digits) zero_chunk in
  let data := for_down count BINT_CHUNK_SIZE (fun i data =>
    <[i := data !!! (i - count)%nat]> data) data in
  let data := for_up 0 count (fun i data => <[i := tmp !!! i]> data) data in
  let '(data, carry) :=
    if truth bit_shift then
      for_up 0 BINT_CHUNK_SIZE (fun i '(data, carry) =>
        let d := data !!! i in
        (<[i := Z.lor (u32 (Z.shiftl d bit_shift)) carry]> data,
         Z.shiftr d (COMPONENT_BITS - bit_shift))) (data, carry)
    else (data, carry) in
  (data, next_digits, carry).

Fixpoint shl_chain (count : nat) (bit_shift : Z) (c : list chunk) (tmp : chunk) (carry : Z) :
    list chunk :=
  match c with
  | [] => []
  | data :: c =>
      let '(data, tmp, carry) := shl_chunk count bit_shift data tmp carry in
      data :: shl_chain count bit_shift c tmp carry
  end.

Definition bint_shift_left (b : bint) (count : Z) : M mem (bint * Z) :=
  let cur_len := bint_bit_length b in
  if is_zero b then ret (b, 0)
  else
    '(b, rc) ← extend_length b (u32 (cur_len + count));
    if rc <? 0 then ret (b, -1)
    else
      '(c, count) ←
        (if CHUNK_BITS <=? count then
           let top := reverse_chain (digits b) in
           '(src, count) ← need (skip_chunks top count);
           ret (reverse_chain (move_chunks top src), count)
         else ret (digits b, count));
      let bit_shift := count mod COMPONENT_BITS in
      let count := Z.to_nat (count / COMPONENT_BITS) in
      ret (mk_bint (negative b) (shl_chain count bit_shift c zero_chunk 0), 0).

(** The copy down of whole chunks: what is left of [dst] after the first chunk
    is freed, and that chunk cleared. *)
Fixpoint move_down (dst src : list chunk) : M mem (list chunk) :=
  match dst, src with
  | _ :: dst, s :: src => dst ← move_down dst src; ret (s :: dst)
  | [], _ :: _ => crash
  | [], [] => ret []
  | _ :: dst, [] => destroy_chain dst;; ret [zero_chunk]
  end.

(** [while (src && count >= CHUNK_BITS) ...] *)
Fixpoint skip_down (src : list chunk) (count : Z) : list chunk * Z :=
  match src with
  | [] => ([], count)
  | _ :: next => if CHUNK_BITS <=? count then skip_down next (count - CHUNK_BITS) else (src, count)
  end.

Definition shr_chunk (count : nat) (bit_shift : Z) (data tmp : chunk) (carry : Z) :
    chunk * chunk * Z :=
  let next_digits := for_up 0 count (fun i next_digits =>
    <[(BINT_CHUNK_SIZE - count + i)%nat := data !!! i]> next_digits) zero_chunk in
  let data := for_up count BINT_CHUNK_SIZE (fun i data =>
    <[(i - count)%nat := data !!! i]> data) data in
  let data := for_up 0 count (fun i data =>
    <[(BINT_CHUNK_SIZE - i - 1)%nat := tmp !!! (BINT_CHUNK_SIZE - i - 1)%nat]> data) data in
  let '(data, carry) :=
    if truth bit_shift then
      for_down 0 BINT_CHUNK_SIZE (fun i '(data, carry) =>
        let d := data !!! i in
        (<[i := Z.lor (Z.shiftr d bit_shift) carry]> data,
         u32 (Z.shiftl (Z.land d (Z.shiftl 1 bit_shift - 1)) (COMPONENT_BITS - bit_shift))))
        (data, carry)
    else (data, carry) in
  (data, next_digits, carry).

(** [c] is the chain from its most significant chunk down. *)
Fixpoint shr_chain (count : nat) (bit_shift : Z) (c : list chunk) (tmp : chunk) (carry : Z) :
    list chunk :=
  match c with
  | [] => []
  | data :: c =>
      let '(data, tmp, carry) := shr_chunk count bit_shift data tmp carry in
      data :: shr_chain count bit_shift c tmp carry
  end.

Definition bint_shift_right (b : bint) (count : Z) : M mem bint :=
  '(c, count) ←
    (if CHUNK_BITS <=? count then
       let '(src, count) := skip_down (digits b) count in
       c ← move_down (digits b) src;
       ret (c, count)
     else ret (digits b, count));
  if CHUNK_BITS <=? count then ret (mk_bint (negative b) c)
  else
    let bit_shift := count mod COMPONENT_BITS in
    let count := Z.to_nat (count / COMPONENT_BITS) in
    let top := shr_chain count bit_shift (reverse_chain c) zero_chunk 0 in
    trim_chunks (mk_bint (negative b) (reverse_chain top)).

(** * Base conversion *)
Definition mul_digit_chunk (base : Z) (c : chunk) (carry : Z) : chunk * Z :=
  for_up 0 BINT_CHUNK_SIZE (fun i '(c, carry) =>
    let d := u64 (c !!! i * base) in
    let d := u64 (d + carry) in
    (<[i := u32 d]> c, u32 (Z.shiftr d COMPONENT_BITS))) (c, carry).

Fixpoint mul_digit_chain (base : Z) (c : list chunk) (carry : Z) : list chunk :=
  match c with
  | [] => []
  | d :: c =>
      let '(d, carry) := mul_digit_chunk base d carry in
      d :: mul_digit_chain base c carry
  end.

Definition add_digit_chunk (c : chunk) (carry : Z) : chunk * Z :=
  for_up 0 BINT_CHUNK_SIZE (fun i '(c, carry) =>
    let d := u64 (c !!! i + carry) in
    (<[i := u32 d]> c, u32 (Z.shiftr d COMPONENT_BITS))) (c, carry).

Fixpoint add_digit_chain (c : list chunk) (carry : Z) : list chunk :=
  match c with
  | [] => []
  | d :: next =>
      if truth carry then
        let '(d, carry) := add_digit_chunk d carry in
        d :: add_digit_chain next carry
      else c
  end.

Definition bint_digit_push (b : bint) (base digit : Z) : M mem (bint * Z) :=
  if base <=? digit then ret (b, -1)
  else
    '(b, rc) ← extend_length b (u32 (bint_bit_length b + bit_length base + 1));
    if rc <? 0 then ret (b, -1)
    else
      let c := mul_digit_chain base (digits b) 0 in
      let c := add_digit_chain c digit in
      b ← trim_chunks (mk_bint (negative b) c);
      ret (b, 0).

Definition div_digit_chunk (base : Z) (c : chunk) (remainder : Z) : chunk * Z :=
  for_down 0 BINT_CHUNK_SIZE (fun i '(c, remainder) =>
    let d := u64 (c !!! i + u64 (Z.shiftl remainder COMPONENT_BITS)) in
    (<[i := u32 (d / base)]> c, d mod base)) (c, remainder).

(** [c] is the chain from its most significant chunk down. *)
Fixpoint div_digit_chain (base : Z) (c : list chunk) (remainder : Z) : list chunk * Z :=
  match c with
  | [] => ([], remainder)
  | d :: c =>
      let '(d, remainder) := div_digit_chunk base d remainder in
      let '(c, remainder) := div_digit_chain base c remainder in
      (d :: c, remainder)
  end.

Definition bint_digit_pop (b : bint) (base : Z) : M mem (bint * Z) :=
  if base =? 0 then ret (b, 0)
  else
    let '(top, remainder) := div_digit_chain base (reverse_chain (digits b)) 0 in
    b ← trim_chunks (mk_bint (negative b) (reverse_chain top));
    ret (b, u32 remainder).

(** * Division and exponentiation *)

(** The loop of [bint_div] over the bit positions [n - 1 .. 0]; the flag is
    the jump to [fail]. *)
Fixpoint div_loop (n : nat) (sdiv rem quot : bint) : M mem (bint * bint * bint * bool) :=
  match n with
  | O => ret (sdiv, rem, quot, false)
  | Datatypes.S pos =>
      '(rem, quot, failed) ←
        (if mag_cmp sdiv rem <=? 0 then
           '(quot, rc) ← bint_bit_set quot (Z.of_nat pos);
           if rc <? 0 then ret (rem, quot, true)
           else
             rem ← mag_sub rem rem sdiv;
             ret (rem, quot, false)
         else ret (rem, quot, false));
      if failed : bool then ret (sdiv, rem, quot, true)
      else
        sdiv ← bint_shift_right sdiv 1;
        div_loop pos sdiv rem quot
  end.

(** The end of [bint_div]: the signs, and the borrow for a negative quotient. *)
Definition div_sign (dividend divisor rem quot : bint) : M mem (bint * bint * bool) :=
  let rem := mk_bint (negative divisor) (digits rem) in
  if ((negative divisor && negb (negative dividend)) ||
      (negb (negative divisor) && negative dividend))%bool then
    '(quot, rc) ← bint_add quot bint_one;
    if rc <? 0 then ret (rem, quot, true)
    else
      '(rem, rc) ← bint_sub rem divisor;
      if rc <? 0 then ret (rem, quot, true)
      else ret (mk_bint (negative divisor) (digits rem), mk_bint true (digits quot), false)
  else ret (rem, quot, false).

Definition div_fail (quotient remainder : option bint) (rem sdiv quot : bint) :
    M mem (option bint * option bint * Z) :=
  bint_destroy rem;;
  bint_destroy sdiv;;
  bint_destroy quot;;
  ret (quotient, remainder, -1).

(** The results are optional; the status is 0, -1 or 1. *)
Definition bint_div (quotient : option bint) (dividend divisor : bint) (remainder : option bint) :
    M mem (option bint * option bint * Z) :=
  let num_len := bint_bit_length dividend in
  let den_len := bint_bit_length divisor in
  if den_len =? 0 then ret (quotient, remainder, 1)
  else
    rem ← bint_init 0;
    sdiv ← bint_init 0;
    quot ← bint_init 0;
    '(sdiv, rc) ← bint_copy sdiv divisor;
    if rc <? 0 then div_fail quotient remainder rem sdiv quot
    else
      let pos := if den_len <? num_len then num_len - den_len else 0 in
      '(sdiv, rc) ← (if den_len <? num_len then bint_shift_left sdiv pos else ret (sdiv, 0));
      if rc <? 0 then div_fail quotient remainder rem sdiv quot
      else
        '(rem, rc) ← bint_copy rem dividend;
        if rc <? 0 then div_fail quotient remainder rem sdiv quot
        else
          let sdiv := mk_bint false (digits sdiv) in
          let rem := mk_bint false (digits rem) in
          '(sdiv, rem, quot, failed) ← div_loop (Z.to_nat (pos + 1)) sdiv rem quot;
          if failed : bool then div_fail quotient remainder rem sdiv quot
          else
            '(rem, quot, failed) ← div_sign dividend divisor rem quot;
            if failed : bool then div_fail quotient remainder rem sdiv quot
            else
              let '(remainder, rem) :=
                match remainder with Some r => (Some rem, r) | None => (None, rem) end in
              let '(quotient, quot) :=
                match quotient with Some q => (Some quot, q) | None => (None, quot) end in
              bint_destroy rem;;
              bint_destroy sdiv;;
              bint_destroy quot;;
              ret (quotient, remainder, 0).

(** The loop of [bint_expt] from bit [i] on, with [n] bits left; the flag is
    the jump to [fail]. *)
Fixpoint expt_loop (n : nat) (i : Z) (exponent r b p : bint) : M mem (bint * bint * bint * bool) :=
  match n with
  | O => ret (r, b, p, false)
  | Datatypes.S n =>
      '(r, p, failed) ←
        (if truth (bint_bit_get exponent i) then
           '(p, rc) ← bint_mul p r b;
           if rc <? 0 then ret (r, p, true)
           else let '(p, r) := bint_swap p r in ret (r, p, false)
         else ret (r, p, false));
      if failed : bool then ret (r, b, p, true)
      else
        '(p, rc) ← bint_mul p b b;
        if rc <? 0 then ret (r, b, p, true)
        else
          let '(p, b) := bint_swap p b in
          expt_loop n (i + 1) exponent r b p
  end.

Definition bint_expt (result base exponent : bint) : M mem (bint * Z) :=
  let len := bint_bit_length exponent in
  r ← bint_init 1;
  p ← bint_init 0;
  b ← bint_init 0;
  '(b, rc) ← bint_copy b base;
  if rc <? 0 then bint_destroy r;; bint_destroy b;; bint_destroy p;; ret (result, -1)
  else
    '(r, b, p, failed) ← expt_loop (Z.to_nat len) 0 exponent r b p;
    if failed : bool then
      bint_destroy r;; bint_destroy b;; bint_destroy p;; ret (result, -1)
    else
      let '(result, r) := bint_swap result r in
      bint_destroy r;;
      bint_destroy b;;
      bint_destroy p;;
      ret (result, 0).
End bint.
