(* ===== verification/BintDigits.v ===== *)
(** Numbers as lists of 32-bit digits: values, bounds, updates of one digit, and
    the rules for the counted loops of bint.c. *)
From S2P Require Import Prelude Bint.

(** * Values *)

(** The weight of digit [i]. *)
Definition W (i : nat) : Z := 2 ^ (32 * Z.of_nat i).

Fixpoint dval (l : list Z) : Z :=
  match l with [] => 0 | d :: l => d + 2 ^ 32 * dval l end.

Definition digit (d : Z) : Prop := 0 <= d < 2 ^ 32.
Definition digs (l : list Z) : Prop := Forall digit l.
Definition chunk_ok (c : chunk) : Prop := length c = BINT_CHUNK_SIZE /\ digs c.
Definition chain_ok (c : list chunk) : Prop := Forall chunk_ok c.

(** The value of a chain. *)
Fixpoint cval (c : list chunk) : Z :=
  match c with [] => 0 | d :: c => dval d + 2 ^ 128 * cval c end.

Lemma cval_cons d c : cval (d :: c) = dval d + 2 ^ 128 * cval c.
Proof. done. Qed.

Lemma W_0 : W 0 = 1.
Proof. done. Qed.
Lemma W_S i : W (S i) = 2 ^ 32 * W i.
Proof. unfold W. rewrite <- Z.pow_add_r by lia. f_equal. lia. Qed.
Lemma W_add i j : W (i + j) = W i * W j.
Proof. unfold W. rewrite <- Z.pow_add_r by lia. f_equal. lia. Qed.
Lemma W_pos i : 0 < W i.
Proof. unfold W. apply Z.pow_pos_nonneg; lia. Qed.
Lemma W_4 : W BINT_CHUNK_SIZE = 2 ^ 128.
Proof. done. Qed.

Lemma dval_app l k : dval (l ++ k) = dval l + W (length l) * dval k.
Proof.
  induction l as [|d l IH]; cbn [dval app length]; [rewrite W_0; lia|].
  rewrite IH, W_S. ring.
Qed.

Lemma dval_bound l : digs l -> 0 <= dval l < W (length l).
Proof.
  induction 1 as [|d l Hd _ IH]; cbn [dval length]; [rewrite W_0; lia|].
  rewrite W_S. unfold digit in Hd. nia.
Qed.

Lemma dval_insert i v l :
  (i < length l)%nat -> dval (<[i := v]> l) = dval l + (v - l !!! i) * W i.
Proof.
  revert i. induction l as [|d l IH]; intros [|i] Hi; simpl in Hi; try lia.
  - change (<[0%nat := v]> (d :: l)) with (v :: l). cbn [dval]. rewrite W_0. simpl. lia.
  - change (<[S i := v]> (d :: l)) with (d :: <[i := v]> l).
    cbn [dval]. rewrite IH by lia. change ((d :: l) !!! S i) with (l !!! i). rewrite W_S. ring.
Qed.

Lemma dval_take_S i l :
  (i < length l)%nat -> dval (take (S i) l) = dval (take i l) + l !!! i * W i.
Proof.
  revert i. induction l as [|d l IH]; intros [|i] Hi; simpl in Hi; try lia.
  - change ((d :: l) !!! 0%nat) with d. rewrite W_0. destruct l; cbn [take dval]; lia.
  - change (take (S (S i)) (d :: l)) with (d :: take (S i) l).
    change (take (S i) (d :: l)) with (d :: take i l). change ((d :: l) !!! S i) with (l !!! i).
    cbn [dval]. rewrite IH by lia. rewrite W_S. ring.
Qed.

Lemma dval_take_0 l : dval (take 0 l) = 0.
Proof. by destruct l. Qed.

Lemma dval_drop_S i l :
  (i < length l)%nat -> dval (drop i l) = l !!! i + 2 ^ 32 * dval (drop (S i) l).
Proof.
  revert i. induction l as [|d l IH]; intros [|i] Hi; simpl in Hi; try lia; [done|].
  change (drop (S i) (d :: l)) with (drop i l). change (drop (S (S i)) (d :: l)) with (drop (S i) l).
  change ((d :: l) !!! S i) with (l !!! i). apply IH. lia.
Qed.

Lemma dval_split i l :
  (i <= length l)%nat -> dval l = dval (take i l) + W i * dval (drop i l).
Proof.
  intros Hi. rewrite <- (take_drop i l) at 1. rewrite dval_app.
  by rewrite length_take, Nat.min_l by lia.
Qed.

Lemma dval_replicate n : dval (replicate n 0) = 0.
Proof. induction n as [|n IH]; cbn [replicate dval]; [done|]. lia. Qed.

Lemma digs_lookup l i : digs l -> (i < length l)%nat -> digit (l !!! i).
Proof.
  intros Hl Hi. apply (Forall_lookup_total_1 digit l i Hl Hi).
Qed.

Lemma digs_insert i v l : digs l -> digit v -> digs (<[i := v]> l).
Proof. intros Hl Hv. by apply Forall_insert. Qed.

Lemma digs_replicate n : digs (replicate n 0).
Proof. apply Forall_replicate. unfold digit. lia. Qed.

Lemma digs_take n l : digs l -> digs (take n l).
Proof. apply Forall_take. Qed.
Lemma digs_drop n l : digs l -> digs (drop n l).
Proof. apply Forall_drop. Qed.

Lemma u32_digit x : digit (u32 x).
Proof. unfold digit, u32. apply Z.mod_pos_bound. lia. Qed.

#[export] Hint Resolve u32_digit digs_insert digs_take digs_drop digs_replicate : bint.

(** Splitting a double-width result into a digit and a carry. *)
Lemma split32 r : r = u32 r + 2 ^ 32 * Z.shiftr r 32.
Proof.
  unfold u32. rewrite Z.shiftr_div_pow2 by lia. pose proof (Z.div_mod r (2 ^ 32)). lia.
Qed.

Lemma shiftr_bound r k : 0 <= r < 2 ^ 32 * k -> 0 <= Z.shiftr r 32 < k.
Proof.
  intros Hr. rewrite Z.shiftr_div_pow2 by lia. split; [apply Z.div_pos; lia|].
  apply Z.div_lt_upper_bound; lia.
Qed.


(** * Loops *)
Lemma for_up_ind {A} (P : nat -> A -> Prop) lo hi body a :
  (lo <= hi)%nat -> P lo a ->
  (forall i a, (lo <= i < hi)%nat -> P i a -> P (S i) (body i a)) ->
  P hi (for_up lo hi body a).
Proof.
  intros Hle H0 Hs. unfold for_up. remember (hi - lo)%nat as n eqn:En.
  revert lo a Hle H0 Hs En. induction n as [|n IH]; intros lo a Hle H0 Hs En; cbn [seq foldl].
  - by replace hi with lo by lia.
  - apply IH; [lia|by apply Hs; [lia|]|intros; apply Hs; [lia|done]|lia].
Qed.

Lemma for_down_ind {A} (P : nat -> A -> Prop) lo hi body a :
  (lo <= hi)%nat -> P hi a ->
  (forall i a, (lo <= i < hi)%nat -> P (S i) a -> P i (body i a)) ->
  P lo (for_down lo hi body a).
Proof.
  intros Hle H0 Hs. unfold for_down. remember (hi - lo)%nat as n eqn:En.
  revert hi a Hle H0 Hs En. induction n as [|n IH]; intros hi a Hle H0 Hs En.
  - cbn. by replace lo with hi by lia.
  - replace (S n) with (n + 1)%nat by lia. rewrite seq_app, rev_app_distr. cbn [seq rev app foldl].
    apply (IH (hi - 1)%nat); [lia| |intros; apply Hs; [lia|done]|lia].
    replace (lo + n)%nat with (hi - 1)%nat by lia. apply Hs; [lia|]. by replace (S (hi - 1)) with hi by lia.
Qed.

(** [for_inv P H]: establishes the invariant [P] of the first loop of the goal,
    at the end of the loop, as [H]. *)
Ltac for_inv P H :=
  match goal with
  | |- context [for_up ?lo ?hi ?body ?a] =>
      assert (P hi (for_up lo hi body a)) as H;
      [apply (for_up_ind P); [unfold BINT_CHUNK_SIZE; lia| |]|revert H;
       generalize (for_up lo hi body a)]
  | |- context [for_down ?lo ?hi ?body ?a] =>
      assert (P lo (for_down lo hi body a)) as H;
      [apply (for_down_ind P); [unfold BINT_CHUNK_SIZE; lia| |]|revert H;
       generalize (for_down lo hi body a)]
  end.

(** * Chunks *)
Lemma chunk_ok_bound c : chunk_ok c -> 0 <= dval c < 2 ^ 128.
Proof. intros [Hl Hd]. pose proof (dval_bound c Hd) as H. by rewrite Hl, W_4 in H. Qed.

Lemma chain_ok_bound c : chain_ok c -> 0 <= cval c < 2 ^ (128 * Z.of_nat (length c)).
Proof.
  induction 1 as [|d c Hd _ IH]; cbn [cval length]; [lia|].
  apply chunk_ok_bound in Hd.
  replace (128 * Z.of_nat (S (length c))) with (128 + 128 * Z.of_nat (length c)) by lia.
  rewrite Z.pow_add_r by lia. nia.
Qed.

Lemma chunk_ok_digit c i : chunk_ok c -> (i < BINT_CHUNK_SIZE)%nat -> digit (c !!! i).
Proof. intros [Hl Hd] Hi. apply digs_lookup; [done|by rewrite Hl]. Qed.

Lemma chunk_ok_insert i v c : chunk_ok c -> digit v -> chunk_ok (<[i := v]> c).
Proof. intros [Hl Hd] Hv. split; [by rewrite length_insert|by apply digs_insert]. Qed.

Lemma chunk_take c : chunk_ok c -> take BINT_CHUNK_SIZE c = c.
Proof. intros [Hl _]. rewrite <- Hl. apply take_ge. lia. Qed.

Lemma chunk_insert_val i v c :
  chunk_ok c -> (i < BINT_CHUNK_SIZE)%nat -> dval (<[i := v]> c) = dval c + (v - c !!! i) * W i.
Proof. intros [Hl _] Hi. apply dval_insert. by rewrite Hl. Qed.

Lemma chunk_take_S i c :
  chunk_ok c -> (i < BINT_CHUNK_SIZE)%nat -> dval (take (S i) c) = dval (take i c) + c !!! i * W i.
Proof. intros [Hl _] Hi. apply dval_take_S. by rewrite Hl. Qed.

Lemma zero_chunk_ok : chunk_ok zero_chunk.
Proof. split; [done|apply digs_replicate]. Qed.
Lemma zero_chunk_val : dval zero_chunk = 0.
Proof. done. Qed.

Lemma chunk_is_zero_spec c : chunk_ok c -> chunk_is_zero c = true <-> dval c = 0.
Proof.
  intros [_ Hd]. unfold chunk_is_zero. induction Hd as [|d l Hd Hl IH]; [done|].
  cbn [forallb dval]. rewrite andb_true_iff, Z.eqb_eq, IH.
  pose proof (dval_bound l Hl). unfold digit in Hd. lia.
Qed.

Lemma cval_app l k : cval (l ++ k) = cval l + 2 ^ (128 * Z.of_nat (length l)) * cval k.
Proof.
  induction l as [|d l IH]; cbn [cval app length]; [rewrite Z.mul_0_r; lia|].
  rewrite IH. replace (128 * Z.of_nat (S (length l))) with (128 + 128 * Z.of_nat (length l)) by lia.
  rewrite Z.pow_add_r by lia. ring.
Qed.

Lemma cval_zeros n : cval (replicate n zero_chunk) = 0.
Proof. induction n as [|n IH]; [done|]. cbn [replicate cval]. by rewrite IH. Qed.

#[export] Hint Resolve zero_chunk_ok chunk_ok_insert : bint.
