(* ===== verification/BintMag.v ===== *)
(** Magnitude arithmetic of bint.c: the digit loops and the chain loops of
    addition, subtraction and comparison compute what they should, and exactly
    where the carry of [mag_add] is lost. *)
From S2P Require Import Prelude Bint BintDigits.

(** * Addition *)
Lemma add_chunk_spec d c k :
  chunk_ok d -> chunk_ok c -> 0 <= k <= 1 ->
  let '(r, k') := add_chunk d c k in
  chunk_ok r /\ 0 <= k' <= 1 /\ dval r + 2 ^ 128 * k' = dval d + dval c + k.
Proof.
  intros Hd Hc Hk. unfold add_chunk.
  for_inv (fun i '(r, k') => chunk_ok r /\ 0 <= k' <= 1 /\
    dval r + W i * k' = dval d + dval (take i c) + k) H.
  - rewrite dval_take_0, W_0. split_and!; try done; lia.
  - intros i [r k'] [_ Hi] (Hr & Hk' & E).
    pose proof (chunk_ok_digit r i Hr Hi) as Hri. pose proof (chunk_ok_digit c i Hc Hi) as Hci.
    unfold digit in *. set (x := r !!! i + c !!! i + k').
    replace (if truth k' then _ else _) with x; cycle 1.
    { rewrite (u64_small (r !!! i + c !!! i)) by lia. unfold x.
      destruct (truth k') eqn:Ek; [apply truth_spec in Ek|apply truth_false in Ek].
      - rewrite u64_small by lia. lia.
      - lia. }
    unfold COMPONENT_BITS. assert (Hs : 0 <= Z.shiftr x 32 < 2) by (apply shiftr_bound; unfold x; lia).
    rewrite i32_small by lia. split_and!; try lia; [auto with bint|].
    rewrite chunk_insert_val, chunk_take_S, W_S by done.
    pose proof (split32 x). unfold x in *. nia.
  - intros [r k'] (Hr & Hk' & E). by rewrite chunk_take, W_4 in E.
Qed.

(** The carry alone: it is added to the first digit and goes no further. *)
Lemma carry_chunk_spec d :
  chunk_ok d ->
  let lost := if d !!! 0%nat =? 2 ^ 32 - 1 then 2 ^ 32 else 0 in
  exists r, carry_chunk d 1 = (r, 0) /\ chunk_ok r /\ dval r = dval d + 1 - lost.
Proof.
  intros Hd.
  assert (Hz : forall x, 0 <= x <= 2 ^ 32 -> i32 (Z.land x (Z.shiftl 1 32)) = 0).
  { intros x Hx. assert (x = 2 ^ 32 \/ Z.land x (Z.shiftl 1 32) = 0) as [->| ->]; [|done|done].
    destruct (decide (x = 2 ^ 32)) as [->|Hne]; [by left|right].
    apply Z.bits_inj'. intros j Hj. rewrite Z.land_spec, Z.bits_0, Z.shiftl_1_l.
    rewrite Z.pow2_bits_eqb by lia. destruct (Z.eqb_spec 32 j) as [<-|]; [|by rewrite andb_false_r].
    rewrite andb_true_r. destruct (Z.testbit x 32) eqn:E; [|done].
    apply Z.testbit_true in E; [|lia]. rewrite Z.div_small in E by lia. done. }
  unfold carry_chunk, for_up, COMPONENT_BITS.
  match goal with |- context [foldl ?f _ _] => set (step := f) end.
  assert (Hid : forall i r, (i < BINT_CHUNK_SIZE)%nat -> chunk_ok r -> step (r, 0) i = (r, 0)).
  { intros i r Hi Hr. pose proof (chunk_ok_digit r i Hr Hi) as Hri. unfold digit in Hri.
    unfold step. change (truth 0) with false. cbv iota. rewrite Hz by lia. f_equal.
    rewrite u32_small by lia. apply list_insert_id, list_lookup_lookup_total_lt.
    by rewrite (proj1 Hr). }
  pose proof (chunk_ok_digit d 0 Hd) as H0. unfold digit in H0.
  specialize (H0 ltac:(unfold BINT_CHUNK_SIZE; lia)).
  assert (Hr : chunk_ok (<[0%nat := u32 (d !!! 0%nat + 1)]> d)) by auto with bint.
  exists (<[0%nat := u32 (d !!! 0%nat + 1)]> d). split_and!; [|done|].
  - change (seq 0 (BINT_CHUNK_SIZE - 0)) with [0; 1; 2; 3]%nat. cbn [foldl].
    assert (step (d, 1) 0%nat = (<[0%nat := u32 (d !!! 0%nat + 1)]> d, 0)) as ->.
    { unfold step. change (truth 1) with true. cbv iota. rewrite u64_small, Hz by lia. done. }
    rewrite !Hid; unfold BINT_CHUNK_SIZE; done || lia.
  - rewrite chunk_insert_val by (done || unfold BINT_CHUNK_SIZE; lia). rewrite W_0.
    destruct (Z.eqb_spec (d !!! 0%nat) (2 ^ 32 - 1)) as [E|Hne].
    + rewrite E. change (u32 (2 ^ 32 - 1 + 1)) with 0. lia.
    + rewrite u32_small by lia. lia.
Qed.

(** Chains: the sum of the common part, and the lost carry. *)
Lemma carry_chain_spec dc k :
  chain_ok dc -> 0 <= k <= 1 ->
  let lost := match dc with
    | d :: _ => if (k =? 1) && (d !!! 0%nat =? 2 ^ 32 - 1) then 2 ^ 32 else 0
    | [] => k
    end in
  chain_ok (carry_chain dc k) /\ length (carry_chain dc k) = length dc /\
  cval (carry_chain dc k) = cval dc + k - lost.
Proof.
  intros Hdc Hk. destruct Hdc as [|d dc Hd Hdc]; cbn [carry_chain cval length].
  { split_and!; [constructor|done|lia]. }
  destruct (decide (k = 0)) as [->|Hne].
  - change (truth 0) with false. cbv iota. cbn [cval]. split_and!; [by constructor|done|].
    cbn [Z.eqb andb]. lia.
  - replace k with 1 by lia. change (truth 1) with true. cbv iota.
    destruct (carry_chunk_spec d Hd) as (r & -> & Hr & E).
    assert (carry_chain dc 0 = dc) as -> by by destruct dc.
    cbn [cval length]. split_and!; [by constructor|done|]. rewrite E. simpl (1 =? 1). cbn [andb]. lia.
Qed.

(** Where [mag_add] loses the carry: it leaves the digits of [sc] and meets a
    digit with all bits set. *)
Definition carry_out (dc sc : list chunk) : bool :=
  2 ^ (128 * Z.of_nat (length sc)) <=? cval (take (length sc) dc) + cval sc.

Definition add_loses (dc sc : list chunk) : bool :=
  match drop (length sc) dc with
  | d :: _ => carry_out dc sc && (d !!! 0%nat =? 2 ^ 32 - 1)
  | [] => false
  end.

Definition add_lost (dc sc : list chunk) : Z :=
  if add_loses dc sc then 2 ^ (128 * Z.of_nat (length sc) + 32) else 0.

Lemma add_chain_common : forall sc dc k,
  chain_ok dc -> chain_ok sc -> (length sc <= length dc)%nat -> 0 <= k <= 1 ->
  exists r k', add_chain dc sc k = r ++ carry_chain (drop (length sc) dc) k' /\
    chain_ok r /\ length r = length sc /\ 0 <= k' <= 1 /\
    cval r + 2 ^ (128 * Z.of_nat (length sc)) * k' = cval (take (length sc) dc) + cval sc + k.
Proof.
  induction sc as [|s sc IH]; intros dc k Hdc Hsc Hl Hk.
  - exists [], k. split_and!; try done; try lia.
    + by destruct dc.
    + destruct dc; cbn [cval length take app]; lia.
  - destruct Hdc as [|d dc Hd Hdc]; [simpl in Hl; lia|]. apply Forall_cons in Hsc as [Hs Hsc].
    cbn [add_chain]. pose proof (add_chunk_spec d s k Hd Hs Hk) as Hadd.
    destruct (add_chunk d s k) as [d' k1]. destruct Hadd as (Hd' & Hk1 & E1).
    destruct (IH dc k1 Hdc Hsc ltac:(simpl in Hl; lia) Hk1) as (r & k' & E & Hr & Hlr & Hk' & Ev).
    exists (d' :: r), k'. cbn [length drop take app cval]. split_and!; try done; try lia.
    + by rewrite E.
    + by constructor.
    + replace (128 * Z.of_nat (S (length sc))) with (128 + 128 * Z.of_nat (length sc)) by lia.
      rewrite Z.pow_add_r by lia. nia.
Qed.

Lemma add_chain_spec dc sc :
  chain_ok dc -> chain_ok sc -> (length sc <= length dc)%nat ->
  cval dc + cval sc < 2 ^ (128 * Z.of_nat (length dc)) ->
  chain_ok (add_chain dc sc 0) /\ length (add_chain dc sc 0) = length dc /\
  cval (add_chain dc sc 0) = cval dc + cval sc - add_lost dc sc.
Proof.
  intros Hdc Hsc Hl Hb.
  destruct (add_chain_common sc dc 0 Hdc Hsc Hl ltac:(lia)) as (r & k & -> & Hr & Hlr & Hk & E).
  pose proof (carry_chain_spec (drop (length sc) dc) k (Forall_drop _ _ _ Hdc) Hk) as (Hc & Hlc & Ec).
  split_and!.
  - by apply Forall_app.
  - rewrite length_app, Hlc, length_drop. lia.
  - rewrite cval_app, Hlr, Ec.
    assert (cval dc = cval (take (length sc) dc) +
      2 ^ (128 * Z.of_nat (length sc)) * cval (drop (length sc) dc)) as Ed.
    { rewrite <- (take_drop (length sc) dc) at 1. rewrite cval_app, length_take.
      by rewrite Nat.min_l by lia. }
    pose proof (chain_ok_bound r Hr) as Hrb. rewrite Hlr in Hrb.
    assert (carry_out dc sc = (k =? 1)) as Hco.
    { unfold carry_out. destruct (Z.leb_spec (2 ^ (128 * Z.of_nat (length sc))) (cval (take (length sc) dc) + cval sc)),
        (Z.eqb_spec k 1); nia. }
    unfold add_lost, add_loses. rewrite Hco.
    assert (Hd : drop (length sc) dc = [] -> length dc = length sc).
    { intros Hd. apply (f_equal length) in Hd. rewrite length_drop in Hd. simpl in Hd. lia. }
    destruct (drop (length sc) dc) as [|d rest] eqn:Edrop.
    + rewrite Hd in Hb by done. cbn [cval] in *. assert (k = 0 \/ k = 1) as [-> | ->] by lia; lia.
    + revert Ed. generalize (cval (d :: rest)) as v. intros v Ed.
      destruct ((k =? 1) && _)%bool; [rewrite Z.pow_add_r by lia|]; lia.
Qed.

(** * Subtraction *)
Lemma sub_digit x :
  - 2 ^ 32 <= x < 2 ^ 32 ->
  i32 (Z.shiftr (u64 x) 32) = (if x <? 0 then -1 else 0) /\
  u32 (u64 x) = x + (if x <? 0 then 2 ^ 32 else 0).
Proof.
  intros Hx. assert (u32 (u64 x) = u32 x) as ->.
  { unfold u32, u64. apply Z.mod_mod_divide. exists (2 ^ 32). lia. }
  destruct (Z.ltb_spec x 0) as [Hn|Hn].
  - assert (u64 x = x + 2 ^ 64) as ->.
    { unfold u64. symmetry. apply Z.mod_unique with (-1); lia. }
    assert (Z.shiftr (x + 2 ^ 64) 32 = 2 ^ 32 - 1) as ->.
    { rewrite Z.shiftr_div_pow2 by lia. symmetry. apply Z.div_unique with (x + 2 ^ 32); lia. }
    split; [done|]. unfold u32. symmetry. apply Z.mod_unique with (-1); lia.
  - rewrite u64_small by lia. rewrite Z.shiftr_div_pow2, Z.div_small by lia.
    split; [done|]. rewrite u32_small; lia.
Qed.

Lemma u64_sub a b : u64 (u64 a - b) = u64 (a - b).
Proof. unfold u64. by rewrite Zminus_mod_idemp_l. Qed.

Lemma dval_take_insert i v l :
  (i < length l)%nat -> dval (take (S i) (<[i := v]> l)) = dval (take i l) + v * W i.
Proof.
  intros Hi. rewrite dval_take_S by by rewrite length_insert.
  rewrite take_insert_ge by lia. by rewrite list_lookup_total_insert_eq by lia.
Qed.

Lemma sub_chunk_spec b s d k :
  chunk_ok b -> chunk_ok s -> chunk_ok d -> -1 <= k <= 0 ->
  let '(r, k') := sub_chunk b s k d in
  chunk_ok r /\ -1 <= k' <= 0 /\ dval r + 2 ^ 128 * k' = dval b - dval s + k.
Proof.
  intros Hb Hs Hd Hk. unfold sub_chunk.
  for_inv (fun i '(r, k') => chunk_ok r /\ -1 <= k' <= 0 /\
    dval (take i r) + W i * k' = dval (take i b) - dval (take i s) + k) H.
  - rewrite !dval_take_0, W_0. split_and!; try done; lia.
  - intros i [r k'] [_ Hi] (Hr & Hk' & E).
    pose proof (chunk_ok_digit b i Hb Hi) as Hbi. pose proof (chunk_ok_digit s i Hs Hi) as Hsi.
    unfold digit in *. set (x := b !!! i - s !!! i + k').
    replace (if truth k' then _ else _) with (u64 x); cycle 1.
    { unfold x. destruct (truth k') eqn:Ek; [apply truth_spec in Ek|apply truth_false in Ek].
      - rewrite u64_sub. f_equal. lia.
      - f_equal. lia. }
    destruct (sub_digit x ltac:(unfold x; lia)) as [E1 E2]. unfold COMPONENT_BITS. rewrite E1, E2.
    split_and!; [rewrite <- E2; auto with bint|destruct (x <? 0); lia|destruct (x <? 0); lia|].
    rewrite dval_take_insert by by rewrite (proj1 Hr).
    rewrite !(chunk_take_S i), W_S by done. destruct (x <? 0); unfold x; nia.
  - intros [r k'] (Hr & Hk' & E). by rewrite !chunk_take, W_4 in E.
Qed.

Lemma borrow_chunk_spec b d k :
  chunk_ok b -> chunk_ok d -> -1 <= k <= 0 ->
  let '(r, k') := borrow_chunk b k d in
  chunk_ok r /\ -1 <= k' <= 0 /\ dval r + 2 ^ 128 * k' = dval b + k.
Proof.
  intros Hb Hd Hk. unfold borrow_chunk.
  for_inv (fun i '(r, k') => chunk_ok r /\ -1 <= k' <= 0 /\
    dval (take i r) + W i * k' = dval (take i b) + k) H.
  - rewrite !dval_take_0, W_0. split_and!; try done; lia.
  - intros i [r k'] [_ Hi] (Hr & Hk' & E).
    pose proof (chunk_ok_digit b i Hb Hi) as Hbi. unfold digit in *. set (x := b !!! i + k').
    replace (if truth k' then _ else _) with (u64 x); cycle 1.
    { unfold x. destruct (truth k') eqn:Ek; [apply truth_spec in Ek|apply truth_false in Ek].
      - f_equal. lia.
      - rewrite u64_small by lia. lia. }
    destruct (sub_digit x ltac:(unfold x; lia)) as [E1 E2]. unfold COMPONENT_BITS. rewrite E1, E2.
    split_and!; [rewrite <- E2; auto with bint|destruct (x <? 0); lia|destruct (x <? 0); lia|].
    rewrite dval_take_insert by by rewrite (proj1 Hr).
    rewrite !(chunk_take_S i), W_S by done. destruct (x <? 0); unfold x; nia.
  - intros [r k'] (Hr & Hk' & E). by rewrite !chunk_take, W_4 in E.
Qed.

(** The weight of chunk [n]. *)
Definition WC (n : nat) : Z := 2 ^ (128 * Z.of_nat n).

Lemma WC_0 : WC 0 = 1.
Proof. done. Qed.
Lemma WC_S n : WC (S n) = 2 ^ 128 * WC n.
Proof. unfold WC. rewrite <- Z.pow_add_r by lia. f_equal. lia. Qed.
Lemma WC_add n m : WC (n + m) = WC n * WC m.
Proof. unfold WC. rewrite <- Z.pow_add_r by lia. f_equal. lia. Qed.
Lemma WC_pos n : 0 < WC n.
Proof. unfold WC. apply Z.pow_pos_nonneg; lia. Qed.
Lemma WC_le n m : (n <= m)%nat -> WC n <= WC m.
Proof. intros H. unfold WC. apply Z.pow_le_mono_r; lia. Qed.

Lemma cval_split n c :
  (n <= length c)%nat -> cval c = cval (take n c) + WC n * cval (drop n c).
Proof.
  intros Hn. rewrite <- (take_drop n c) at 1. rewrite cval_app, length_take.
  by rewrite Nat.min_l by lia.
Qed.

Lemma borrow_chain_spec bc : forall k,
  chain_ok bc -> -1 <= k <= 0 ->
  exists r k', borrow_chain bc bc k = Some r /\ chain_ok r /\ length r = length bc /\
    -1 <= k' <= 0 /\ cval r + WC (length bc) * k' = cval bc + k.
Proof.
  induction bc as [|b bc IH]; intros k Hbc Hk; cbn [borrow_chain].
  { exists [], k. split_and!; try done; try lia. cbn [length cval]. rewrite WC_0. lia. }
  destruct (truth k) eqn:Ek.
  - apply Forall_cons in Hbc as [Hb Hbc].
    pose proof (borrow_chunk_spec b b k Hb Hb Hk) as H1.
    destruct (borrow_chunk b k b) as [d k1]. destruct H1 as (Hd & Hk1 & E1).
    destruct (IH k1 Hbc Hk1) as (r & k' & E & Hr & Hl & Hk' & Ev). rewrite E. cbn.
    exists (d :: r), k'. cbn [length cval]. rewrite WC_S. split_and!; try done; try lia.
    by constructor.
  - apply truth_false in Ek as ->. exists (b :: bc), 0. split_and!; try done; lia.
Qed.

Lemma sub_chain_gen : forall bc sc dc k,
  chain_ok bc -> chain_ok sc -> chain_ok dc -> -1 <= k <= 0 ->
  (length bc <= length dc)%nat -> dc = bc \/ (length bc <= length sc)%nat ->
  exists r k', sub_chain dc bc sc k = Some (r ++ drop (length bc) dc) /\
    chain_ok r /\ length r = length bc /\ -1 <= k' <= 0 /\
    cval r + WC (length bc) * k' = cval bc - cval (take (length bc) sc) + k.
Proof.
  induction bc as [|b bc IH]; intros [|s sc] dc k Hbc Hsc Hdc Hk Hl Hdec.
  - exists [], k. split_and!; try done; try (by destruct dc); try lia. cbn [length cval]. rewrite WC_0, take_0. cbn [cval]. lia.
  - exists [], k. split_and!; try done; try (by destruct dc); try lia. cbn [length cval]. rewrite WC_0, take_0. cbn [cval]. lia.
  - destruct Hdec as [->|Hdec]; [|simpl in Hdec; lia]. cbn [sub_chain].
    destruct (borrow_chain_spec (b :: bc) k Hbc Hk) as (r & k' & E & Hr & Hlr & Hk' & Ev).
    exists r, k'. rewrite drop_all, app_nil_r, E. rewrite take_nil. cbn [cval] in *.
    split_and!; try done; lia.
  - destruct Hdc as [|d dc Hd Hdc]; [simpl in Hl; lia|]. cbn [sub_chain].
    apply Forall_cons in Hbc as [Hb Hbc]. apply Forall_cons in Hsc as [Hs Hsc].
    pose proof (sub_chunk_spec b s d k Hb Hs Hd Hk) as H1.
    destruct (sub_chunk b s k d) as [d' k1]. destruct H1 as (Hd' & Hk1 & E1).
    destruct (IH sc dc k1) as (r & k' & E & Hr & Hlr & Hk' & Ev); try done.
    { simpl in Hl. lia. }
    { destruct Hdec as [[= -> ->]|Hdec]; [by left|right; simpl in Hdec; lia]. }
    rewrite E. cbn. exists (d' :: r), k'. cbn [length cval take]. rewrite WC_S.
    split_and!; try done; try lia. by constructor.
Qed.

(** [mag_sub], when the first operand is the greater one and the destination is
    that operand, or the second one padded to its length. *)
Lemma sub_chain_spec dc bc sc :
  chain_ok bc -> chain_ok sc -> chain_ok dc ->
  (length bc <= length dc)%nat -> dc = bc \/ (length bc <= length sc)%nat ->
  cval sc <= cval bc ->
  exists r, sub_chain dc bc sc 0 = Some (r ++ drop (length bc) dc) /\
    chain_ok r /\ length r = length bc /\ cval r = cval bc - cval sc.
Proof.
  intros Hbc Hsc Hdc Hl Hdec Hle.
  destruct (sub_chain_gen bc sc dc 0 Hbc Hsc Hdc ltac:(lia) Hl Hdec)
    as (r & k & E & Hr & Hlr & Hk & Ev).
  exists r. split_and!; try done.
  pose proof (chain_ok_bound r Hr) as Hrb. rewrite Hlr in Hrb. fold (WC (length bc)) in Hrb.
  pose proof (chain_ok_bound bc Hbc) as Hbb. fold (WC (length bc)) in Hbb.
  assert (cval (take (length bc) sc) = cval sc) as Hsc'.
  { destruct (decide (length bc <= length sc)%nat) as [Hls|Hls]; [|by rewrite take_ge by lia].
    rewrite (cval_split (length bc) sc Hls) in *.
    pose proof (chain_ok_bound _ (Forall_take _ (length bc) _ Hsc)).
    pose proof (chain_ok_bound _ (Forall_drop _ (length bc) _ Hsc)).
    assert (cval (drop (length bc) sc) = 0); nia. }
  rewrite Hsc' in Ev. assert (k = 0 \/ k = -1) as [-> | ->] by lia; lia.
Qed.

(** * Comparison *)
Lemma compare_from_spec i a b :
  chunk_ok a -> chunk_ok b -> (i <= BINT_CHUNK_SIZE)%nat ->
  compare_from i a b = Z.sgn (dval (take i a) - dval (take i b)).
Proof.
  intros Ha Hb. induction i as [|i IH]; intros Hi; cbn [compare_from].
  { by rewrite !dval_take_0. }
  rewrite !chunk_take_S by done. rewrite IH by lia.
  assert (Hbd : forall c, chunk_ok c -> 0 <= dval (take i c) < W i).
  { intros c [Hl Hd]. pose proof (dval_bound (take i c) (digs_take _ _ Hd)) as H.
    rewrite length_take, Nat.min_l in H by (rewrite Hl; lia). done. }
  pose proof (Hbd a Ha). pose proof (Hbd b Hb). clear Hbd IH.
  destruct (Z.ltb_spec (a !!! i) (b !!! i)); [|destruct (Z.ltb_spec (b !!! i) (a !!! i))].
  - symmetry. apply Z.sgn_neg. nia.
  - symmetry. apply Z.sgn_pos. nia.
  - replace (b !!! i) with (a !!! i) by lia. f_equal. lia.
Qed.

Lemma compare_chunk_spec a b :
  chunk_ok a -> chunk_ok b -> compare_chunk a b = Z.sgn (dval a - dval b).
Proof.
  intros Ha Hb. unfold compare_chunk. rewrite compare_from_spec by done.
  by rewrite !chunk_take.
Qed.

Lemma mag_cmp_chain_spec : forall ca cb k,
  chain_ok ca -> chain_ok cb ->
  mag_cmp_chain ca cb k =
    if (length ca <? length cb)%nat then -1
    else if (length cb <? length ca)%nat then 1
    else if cval ca =? cval cb then k else Z.sgn (cval ca - cval cb).
Proof.
  induction ca as [|a ca IH]; intros [|b cb] k Ha Hb; try done.
  apply Forall_cons in Ha as [Ha Hca]. apply Forall_cons in Hb as [Hb Hcb].
  cbn [mag_cmp_chain cval length]. rewrite IH by done.
  change (S (length ca) <? S (length cb))%nat with (length ca <? length cb)%nat.
  change (S (length cb) <? S (length ca))%nat with (length cb <? length ca)%nat.
  destruct (length ca <? length cb)%nat; [done|]. destruct (length cb <? length ca)%nat; [done|].
  rewrite compare_chunk_spec by done.
  pose proof (chunk_ok_bound a Ha). pose proof (chunk_ok_bound b Hb).
  destruct (Z.eqb_spec (cval ca) (cval cb)) as [E|E].
  - rewrite E. replace (dval a + _ - _) with (dval a - dval b) by lia.
    destruct (Z.eqb_spec (dval a + 2 ^ 128 * cval cb) (dval b + 2 ^ 128 * cval cb)) as [E'|E'].
    + replace (dval a - dval b) with 0 by lia. done.
    + destruct (truth _) eqn:Et; [done|]. apply truth_false in Et. lia.
  - destruct (Z.eqb_spec (dval a + 2 ^ 128 * cval ca) (dval b + 2 ^ 128 * cval cb)) as [E'|E']; [nia|].
    destruct (Z.lt_gt_cases (cval ca) (cval cb)) as [Hlt _].
    destruct (Z.lt_trichotomy (cval ca) (cval cb)) as [Hc|[Hc|Hc]]; [|done|].
    + rewrite !Z.sgn_neg; [done|nia|nia].
    + rewrite !Z.sgn_pos; [done|nia|nia].
Qed.

(** No leading zero chunk, the invariant of bint.c. *)
Definition trimmed (c : list chunk) : Prop :=
  (length c <= 1)%nat \/ exists c' top, c = c' ++ [top] /\ dval top <> 0.

Lemma trimmed_lower c :
  chain_ok c -> trimmed c -> (1 < length c)%nat -> WC (length c - 1) <= cval c.
Proof.
  intros Hc [Ht|(c' & top & -> & Htop)] Hl; [lia|].
  apply Forall_app in Hc as [Hc' Ht]. apply Forall_cons in Ht as [Ht _].
  rewrite cval_app, length_app. cbn [length cval]. replace (length c' + 1 - 1)%nat with (length c') by lia.
  pose proof (chain_ok_bound c' Hc'). pose proof (chunk_ok_bound top Ht).
  fold (WC (length c')). pose proof (WC_pos (length c')). nia.
Qed.

Lemma mag_cmp_trimmed a b :
  chain_ok (digits a) -> chain_ok (digits b) -> trimmed (digits a) -> trimmed (digits b) ->
  (0 < length (digits a))%nat -> (0 < length (digits b))%nat ->
  mag_cmp a b = Z.sgn (cval (digits a) - cval (digits b)).
Proof.
  intros Ha Hb Hta Htb Hla Hlb. unfold mag_cmp. rewrite mag_cmp_chain_spec by done.
  pose proof (chain_ok_bound _ Ha) as Hba. pose proof (chain_ok_bound _ Hb) as Hbb.
  fold (WC (length (digits a))) in Hba. fold (WC (length (digits b))) in Hbb.
  destruct (Nat.ltb_spec (length (digits a)) (length (digits b))) as [Hl|Hl];
    [|destruct (Nat.ltb_spec (length (digits b)) (length (digits a))) as [Hl'|Hl']].
  - pose proof (trimmed_lower _ Hb Htb ltac:(lia)).
    pose proof (WC_le (length (digits a)) (length (digits b) - 1) ltac:(lia)).
    symmetry. apply Z.sgn_neg. lia.
  - pose proof (trimmed_lower _ Ha Hta ltac:(lia)).
    pose proof (WC_le (length (digits b)) (length (digits a) - 1) ltac:(lia)).
    symmetry. apply Z.sgn_pos. lia.
  - destruct (Z.eqb_spec (cval (digits a)) (cval (digits b))) as [->|]; [by rewrite Z.sub_diag|done].
Qed.
