(* ===== verification/BintLen.v ===== *)
(** Bit lengths, and the operations of bint.c that change the length of a chain:
    allocation, extension, trimming, copying.  Every chunk is accounted for. *)
From S2P Require Import Prelude Bint BintOps BintDigits BintMag.

(** * Bit length *)
Definition bitlen (v : Z) : Z := if v =? 0 then 0 else Z.log2 v + 1.

Lemma bitlen_nonneg v : 0 <= bitlen v.
Proof. unfold bitlen. pose proof (Z.log2_nonneg v). destruct (v =? 0); lia. Qed.

Lemma bitlen_le v n : 0 <= v -> 0 <= n -> bitlen v <= n <-> v < 2 ^ n.
Proof.
  intros Hv Hn. unfold bitlen. destruct (Z.eqb_spec v 0) as [->|Hne].
  - split; [intros; apply Z.pow_pos_nonneg; lia|lia].
  - rewrite Z.log2_lt_pow2 by lia. lia.
Qed.

Lemma bitlen_upper v : 0 <= v -> v < 2 ^ bitlen v.
Proof. intros Hv. apply bitlen_le; [done|apply bitlen_nonneg|lia]. Qed.

Lemma bitlen_lower v : 0 < v -> 2 ^ (bitlen v - 1) <= v.
Proof.
  intros Hv. unfold bitlen. destruct (Z.eqb_spec v 0) as [->|Hne]; [lia|].
  replace (Z.log2 v + 1 - 1) with (Z.log2 v) by lia. by apply Z.log2_spec.
Qed.

Lemma bitlen_add l n h : 0 <= l < 2 ^ n -> 0 <= n -> 0 < h -> bitlen (l + 2 ^ n * h) = n + bitlen h.
Proof.
  intros Hl Hn Hh. apply Z.le_antisymm.
  - pose proof (bitlen_nonneg h). apply bitlen_le; [nia|lia|].
    rewrite Z.pow_add_r by lia. pose proof (bitlen_upper h). nia.
  - destruct (Z.le_gt_cases (n + bitlen h) (bitlen (l + 2 ^ n * h))) as [|Hc]; [done|].
    pose proof (bitlen_nonneg h). assert (1 <= bitlen h).
    { unfold bitlen. pose proof (Z.log2_nonneg h). destruct (Z.eqb_spec h 0); lia. }
    assert (bitlen (l + 2 ^ n * h) <= n + (bitlen h - 1)) as Hb by lia.
    apply bitlen_le in Hb; [|nia|lia]. rewrite Z.pow_add_r in Hb by lia.
    pose proof (bitlen_lower h Hh). nia.
Qed.

Lemma bitlen_half d : 0 < d -> bitlen d = bitlen (d / 2) + 1.
Proof.
  intros Hd. rewrite (Z.div_mod d 2) at 1 by lia. pose proof (Z.mod_pos_bound d 2).
  destruct (decide (d / 2 = 0)) as [E|E].
  - rewrite E. assert (d = 1) as ->; [|done]. pose proof (Z.div_mod d 2). lia.
  - pose proof (Z.div_pos d 2). rewrite Z.add_comm.
    rewrite <- (Z.pow_1_r 2) at 2. rewrite bitlen_add by lia. lia.
Qed.

Lemma count_bits_spec : forall fuel d n,
  0 <= d < 2 ^ Z.of_nat fuel -> 0 <= n -> n + bitlen d < 2 ^ 32 ->
  count_bits fuel d n = n + bitlen d.
Proof.
  induction fuel as [|fuel IH]; intros d n Hd Hn Hb; cbn [count_bits].
  - replace d with 0 by lia. unfold bitlen. cbn. lia.
  - destruct (truth d) eqn:Et.
    + apply truth_spec in Et. rewrite (bitlen_half d) in * by lia.
      rewrite Z.shiftr_div_pow2, Z.pow_1_r by lia. pose proof (bitlen_nonneg (d / 2)).
      rewrite u32_small by lia. rewrite IH; [lia| |lia|lia].
      rewrite Nat2Z.inj_succ, Z.pow_succ_r in Hd by lia.
      split; [apply Z.div_pos; lia|]. apply Z.div_lt_upper_bound; lia.
    + apply truth_false in Et as ->. unfold bitlen. cbn. lia.
Qed.

Lemma bit_length_spec num : 0 <= num < 2 ^ 32 -> bit_length num = bitlen num.
Proof.
  intros Hn. unfold bit_length. rewrite count_bits_spec; [lia|done|lia|].
  assert (bitlen num <= 32) by (apply bitlen_le; lia). lia.
Qed.

Lemma top_component_spec c : chunk_ok c -> forall i, (i <= BINT_CHUNK_SIZE)%nat ->
  match top_component i c with
  | None => dval (take i c) = 0
  | Some k => (k < i)%nat /\ c !!! k <> 0 /\ dval (take i c) = dval (take k c) + c !!! k * W k
  end.
Proof.
  intros Hc. induction i as [|i IH]; intros Hi; cbn [top_component]; [by apply dval_take_0|].
  destruct (truth (c !!! i)) eqn:Et.
  - apply truth_spec in Et. split_and!; [lia|done|]. by rewrite chunk_take_S.
  - apply truth_false in Et. specialize (IH ltac:(lia)). rewrite chunk_take_S, Et by done.
    destruct (top_component i c) as [k|]; [|lia].
    destruct IH as (? & ? & E). split_and!; [lia|done|lia].
Qed.

Lemma top_component_bitlen c : chunk_ok c ->
  match top_component BINT_CHUNK_SIZE c with
  | None => dval c = 0
  | Some k => 0 < dval c /\ 0 <= c !!! k < 2 ^ 32 /\ bitlen (dval c) = 32 * Z.of_nat k + bitlen (c !!! k)
  end.
Proof.
  intros Hc. pose proof (top_component_spec c Hc BINT_CHUNK_SIZE ltac:(done)) as H.
  rewrite chunk_take in H by done.
  destruct (top_component BINT_CHUNK_SIZE c) as [k|]; [|done].
  destruct H as (Hk & Hne & ->). pose proof (chunk_ok_digit c k Hc Hk) as Hd. unfold digit in Hd.
  assert (0 <= dval (take k c) < W k) as Hb.
  { pose proof (dval_bound (take k c) (digs_take _ _ (proj2 Hc))) as H.
    rewrite length_take, Nat.min_l in H by (rewrite (proj1 Hc); lia). done. }
  split_and!; try lia.
  - pose proof (W_pos k). nia.
  - rewrite Z.mul_comm. unfold W in *. rewrite bitlen_add by lia. lia.
Qed.

Lemma bit_length_chain_spec : forall c n,
  chain_ok c -> c <> [] -> 0 <= n -> n + 128 * Z.of_nat (length c) < 2 ^ 32 ->
  bit_length_chain c n =
    match last c with
    | Some top => if dval top =? 0 then 0 else n + bitlen (cval c)
    | None => 0
    end.
Proof.
  induction c as [|x c IH]; intros n Hc Hne Hn Hb; [done|].
  apply Forall_cons in Hc as [Hx Hc]. destruct c as [|y c].
  - cbn [bit_length_chain last cval]. rewrite Z.mul_0_r, Z.add_0_r.
    pose proof (top_component_bitlen x Hx) as Ht.
    destruct (top_component BINT_CHUNK_SIZE x) as [k|]; [|by rewrite Ht].
    destruct Ht as (Hp & Hd & E). destruct (Z.eqb_spec (dval x) 0); [lia|].
    assert (bitlen (dval x) <= 128) by (apply bitlen_le; [lia|lia|by apply chunk_ok_bound]).
    unfold COMPONENT_BITS. pose proof (bitlen_nonneg (x !!! k)).
    cbn [length] in Hb. rewrite u32_small by lia.
    rewrite count_bits_spec by lia. lia.
  - change (bit_length_chain (x :: y :: c) n) with (bit_length_chain (y :: c) (u32 (n + CHUNK_BITS))).
    change CHUNK_BITS with 128. cbn [length] in Hb. rewrite u32_small by lia.
    rewrite IH; [|done|done|lia|cbn [length]; lia].
    change (last (x :: y :: c)) with (last (y :: c)).
    destruct (last (y :: c)) as [top|] eqn:El; [|done]. destruct (Z.eqb_spec (dval top) 0) as [|Ht]; [done|].
    change (cval (x :: y :: c)) with (dval x + 2 ^ 128 * cval (y :: c)).
    rewrite bitlen_add; [lia|by apply chunk_ok_bound|lia|].
    apply last_Some in El as [c' E]. rewrite E in *. apply Forall_app in Hc as [Hc' Htop].
    apply Forall_cons in Htop as [Htop _]. apply chunk_ok_bound in Htop.
    rewrite cval_app. pose proof (chain_ok_bound c' Hc'). fold (WC (length c')) in *.
    pose proof (WC_pos (length c')). cbn [cval]. nia.
Qed.

(** * Well-formed numbers *)
Definition mag (b : bint) : Z := cval (digits b).
Definition bval (b : bint) : Z := if negative b then - mag b else mag b.

(** The invariant of bint.c. *)
Record bint_wf (b : bint) : Prop := {
  wf_chain : chain_ok (digits b);
  wf_ne : digits b <> [];
  wf_trim : trimmed (digits b);
}.

(** The length fits the [unsigned int] the code counts bits with. *)
Definition small (b : bint) : Prop := 128 * Z.of_nat (length (digits b)) < 2 ^ 31.

(** The chunks of a number that come from the allocator. *)
Definition owned (b : bint) : nat := length (digits b) - 1.

Lemma mag_nonneg b : chain_ok (digits b) -> 0 <= mag b.
Proof. intros H. by apply chain_ok_bound in H as [? _]. Qed.

Lemma trimmed_last c top : chain_ok c -> trimmed c -> last c = Some top -> dval top = 0 -> cval c = 0.
Proof.
  intros Hc [Hl|(c' & t & -> & Ht)] E E0.
  - destruct c as [|x [|]]; simpl in *; [done| |lia]. injection E as ->. rewrite E0. lia.
  - rewrite last_snoc in E. injection E as ->. done.
Qed.

Lemma bit_length_wf b : bint_wf b -> small b -> bint_bit_length b = bitlen (mag b).
Proof.
  unfold small. intros [Hc Hne Ht] Hs. unfold bint_bit_length. rewrite bit_length_chain_spec; [|done|done|lia|lia].
  destruct (last (digits b)) as [top|] eqn:El; [|by apply last_None in El].
  destruct (Z.eqb_spec (dval top) 0) as [E|E]; [|done].
  unfold mag. by rewrite (trimmed_last _ top Hc Ht El E).
Qed.

Lemma chain_bitlen c : chain_ok c -> bitlen (cval c) <= 128 * Z.of_nat (length c).
Proof. intros Hc. pose proof (chain_ok_bound c Hc). apply bitlen_le; lia. Qed.

(** The chain of a number has just the chunks its bits need. *)
Lemma trimmed_length c :
  chain_ok c -> trimmed c -> (1 < length c)%nat -> 128 * (Z.of_nat (length c) - 1) < bitlen (cval c).
Proof.
  intros Hc Ht Hl. pose proof (trimmed_lower c Hc Ht Hl) as H. unfold WC in H.
  destruct (Z.lt_ge_cases (128 * (Z.of_nat (length c) - 1)) (bitlen (cval c))) as [|Hge]; [done|].
  apply bitlen_le in Hge; [|by apply chain_ok_bound|lia].
  replace (Z.of_nat (length c - 1)) with (Z.of_nat (length c) - 1) in H by lia. lia.
Qed.

Lemma bitlen_mono v w : 0 <= v <= w -> bitlen v <= bitlen w.
Proof.
  intros H. apply bitlen_le; [lia|apply bitlen_nonneg|]. pose proof (bitlen_upper w). lia.
Qed.

Lemma trimmed_le c d :
  chain_ok c -> chain_ok d -> trimmed c -> d <> [] -> cval c <= cval d -> (length c <= length d)%nat.
Proof.
  intros Hc Hd Ht Hne Hle. destruct (Nat.le_gt_cases (length c) (length d)) as [|Hl]; [done|].
  destruct d as [|x d]; [done|]. cbn [length] in Hl.
  pose proof (trimmed_length c Hc Ht ltac:(lia)). pose proof (chain_bitlen _ Hd) as Hb.
  pose proof (chain_ok_bound _ Hc). pose proof (bitlen_mono (cval c) (cval (x :: d)) ltac:(lia)).
  cbn [length] in Hb. lia.
Qed.

(** * Memory *)
Section mem.
Context (malloc_ok : nat -> bool).

(** Some allocation fails. *)
Definition oom : Prop := exists n, malloc_ok n = false.

Lemma wp_alloc m Q :
  (forall m', live m' = S (live m) -> Q true m') ->
  (oom -> forall m', live m' = live m -> Q false m') ->
  wp (bint_chunk_alloc malloc_ok) m Q.
Proof.
  intros H1 H2. unfold wp, bint_chunk_alloc. destruct (malloc_ok (tried m)) eqn:E.
  - by apply H1.
  - apply H2; [by exists (tried m)|done].
Qed.

Lemma wp_free m Q :
  (0 < live m)%nat -> (forall m', S (live m') = live m -> Q tt m') -> wp bint_chunk_free m Q.
Proof.
  intros Hl H. unfold wp, bint_chunk_free. destruct (live m) as [|n]; [lia|]. by apply H.
Qed.

Lemma wp_destroy_chain c : forall m Q,
  (length c <= live m)%nat -> (forall m', (live m' + length c)%nat = live m -> Q tt m') ->
  wp (destroy_chain c) m Q.
Proof.
  induction c as [|x c IH]; intros m Q Hl HQ; cbn [destroy_chain length] in *.
  - apply wp_ret. apply HQ. lia.
  - wp_bind. apply wp_free; [lia|]. intros m1 H1. apply IH; [lia|]. intros m2 H2. apply HQ. lia.
Qed.

Lemma wp_alloc_chain_onto : forall n ch m Q,
  (length ch <= live m)%nat ->
  (forall m', live m' = (live m + n)%nat -> Q (replicate n zero_chunk ++ ch) m') ->
  (oom -> forall m', (live m' + length ch)%nat = live m -> Q [] m') ->
  wp (alloc_chain_onto malloc_ok n ch) m Q.
Proof.
  induction n as [|n IH]; intros ch m Q Hl H1 H2; cbn [alloc_chain_onto].
  - apply wp_ret. apply H1. lia.
  - wp_bind. apply wp_alloc.
    + intros m1 Hm1. apply IH; cbn [length]; [lia| |].
      * intros m2 Hm2.
        replace (replicate n zero_chunk ++ zero_chunk :: ch) with (replicate (S n) zero_chunk ++ ch).
        { apply H1. lia. }
        rewrite (cons_middle zero_chunk). change ([zero_chunk] ++ ch) with (replicate 1 zero_chunk ++ ch).
        rewrite app_assoc, <- replicate_add. by rewrite Nat.add_1_r.
      * intros Ho m2 Hm2. apply H2; [done|lia].
    + intros Ho m1 Hm1. wp_bind. apply wp_destroy_chain; [lia|]. intros m2 Hm2. apply wp_ret.
      apply H2; [done|lia].
Qed.

Lemma wp_alloc_chain n m Q :
  (forall m', live m' = (live m + Z.to_nat n)%nat -> Q (replicate (Z.to_nat n) zero_chunk) m') ->
  (oom -> forall m', live m' = live m -> Q [] m') ->
  wp (alloc_chain malloc_ok n) m Q.
Proof.
  intros H1 H2. apply wp_alloc_chain_onto; simpl; [lia| |].
  - intros m' Hm'. rewrite app_nil_r. by apply H1.
  - intros Ho m' Hm'. apply H2; [done|lia].
Qed.

(** The outcome of an operation that may run out of memory: the number is well
    formed and what it should be, and every chunk is accounted for; or an
    allocation failed, the status is -1 and nothing has changed. *)
Definition outcome (b : bint) (m : mem) (P : bint -> Prop) : bint * Z -> mem -> Prop :=
  fun '(b', rc) m' =>
    rc = 0 /\ bint_wf b' /\ P b' /\ (live m' + owned b)%nat = (live m + owned b')%nat \/
    rc = -1 /\ b' = b /\ live m' = live m /\ oom.

(** The padding [extend_length] adds. *)
Definition pad (c : list chunk) (count : Z) : nat := Z.to_nat (1 + count / 128) - length c.

Lemma wp_extend_chain : forall c count m Q,
  c <> [] -> 0 <= count ->
  (forall m', live m' = (live m + pad c count)%nat ->
     Q (c ++ replicate (pad c count) zero_chunk, 0) m') ->
  (oom -> forall m', live m' = live m -> Q (c, -1) m') ->
  wp (extend_chain malloc_ok c count) m Q.
Proof.
  induction c as [|x c IH]; intros count m Q Hne Hc H1 H2; [done|].
  destruct c as [|y c].
  - cbn [extend_chain]. change CHUNK_BITS with 128. destruct (Z.ltb_spec count 128) as [Hl|Hl].
    + apply wp_ret. unfold pad in H1. rewrite Z.div_small in H1 by lia. cbn in H1. apply H1. lia.
    + pose proof (Z.div_le_lower_bound count 128 1 ltac:(lia) ltac:(lia)).
      wp_bind. apply wp_alloc_chain.
      * intros m' Hm'. destruct (Z.to_nat (count / 128)) as [|n] eqn:En; [lia|]. cbn [replicate].
        apply wp_ret. assert (pad [x] count = S n) as Hp by (unfold pad; cbn [length]; lia).
        rewrite Hp in H1. by apply H1.
      * intros Ho m' Hm'. apply wp_ret. by apply H2.
  - assert (extend_chain malloc_ok (x :: y :: c) count =
      (if CHUNK_BITS <=? count then
        '(next, rc) ← extend_chain malloc_ok (y :: c) (count - CHUNK_BITS);
        ret (x :: next, rc)
      else ret (x :: y :: c, 0))) as -> by done.
    change CHUNK_BITS with 128. destruct (Z.leb_spec 128 count) as [Hl|Hl].
    + assert (pad (y :: c) (count - 128) = pad (x :: y :: c) count) as Hp.
      { unfold pad. replace (count - 128) with (count + (-1) * 128) by lia.
        rewrite Z.div_add by lia. cbn [length]. lia. }
      wp_bind. apply IH; [done|lia| |].
      * intros m' Hm'. apply wp_ret. rewrite Hp in *. by apply H1.
      * intros Ho m' Hm'. apply wp_ret. by apply H2.
    + apply wp_ret. assert (pad (x :: y :: c) count = 0%nat) as Hp.
      { unfold pad. rewrite Z.div_small by lia. cbn [length]. lia. }
      rewrite Hp in H1. cbn [replicate] in H1. rewrite app_nil_r in H1. apply H1. lia.
Qed.

Lemma wp_extend_length b count m Q :
  digits b <> [] -> 0 <= count ->
  (forall m', live m' = (live m + pad (digits b) count)%nat ->
     Q (mk_bint (negative b) (digits b ++ replicate (pad (digits b) count) zero_chunk), 0) m') ->
  (oom -> forall m', live m' = live m -> Q (b, -1) m') ->
  wp (extend_length malloc_ok b count) m Q.
Proof.
  intros Hne Hc H1 H2. unfold extend_length. wp_bind. apply wp_extend_chain; try done.
  intros Ho m' Hm'. apply wp_ret. destruct b. by apply H2.
Qed.
End mem.

(** * Trimming *)
Lemma reverse_onto_rev c d : reverse_onto c d = rev c ++ d.
Proof.
  revert d. induction c as [|x c IH]; intros d; cbn [reverse_onto rev app]; [done|].
  rewrite IH. by rewrite <- app_assoc.
Qed.

Lemma reverse_chain_rev c : reverse_chain c = rev c.
Proof. unfold reverse_chain. by rewrite reverse_onto_rev, app_nil_r. Qed.

Lemma chain_ok_rev c : chain_ok c -> chain_ok (rev c).
Proof.
  induction 1 as [|x c Hx _ IH]; [constructor|]. cbn [rev]. apply Forall_app_2; [done|]. by constructor.
Qed.

Lemma wp_trim_stack : forall s m Q,
  chain_ok s -> (length s <= live m)%nat ->
  (forall z s' m', s = z ++ s' -> cval z = 0 ->
     match s' with [] => True | top :: _ => dval top <> 0 end ->
     (live m' + length z)%nat = live m -> Q s' m') ->
  wp (trim_stack s) m Q.
Proof.
  induction s as [|x s IH]; intros m Q Hs Hl HQ; cbn [trim_stack].
  - apply wp_ret. apply (HQ []); try done; simpl; lia.
  - apply Forall_cons in Hs as [Hx Hs]. pose proof (chunk_is_zero_spec x Hx) as Hz.
    destruct (chunk_is_zero x).
    + wp_bind. apply wp_free; [simpl in Hl; lia|]. intros m1 Hm1. apply IH; [done|simpl in Hl; lia|].
      intros z s' m' -> Hcz Htop Hlive. apply (HQ (x :: z)); [done| |done|simpl; lia].
      cbn [cval]. rewrite Hcz, (proj1 Hz eq_refl). lia.
    + apply wp_ret. apply (HQ []); [done|done| |simpl; lia]. intros E. by apply Hz in E.
Qed.

Lemma cval_rev_0 z : chain_ok z -> cval z = 0 -> cval (rev z) = 0.
Proof.
  induction 1 as [|x z Hx Hz IH]; [done|]. cbn [cval rev]. intros E.
  pose proof (chunk_ok_bound x Hx). pose proof (chain_ok_bound z Hz).
  rewrite cval_app. cbn [cval]. rewrite IH by lia. assert (dval x = 0) as -> by lia. lia.
Qed.

Lemma wp_trim b m Q :
  chain_ok (digits b) -> digits b <> [] -> (owned b <= live m)%nat ->
  (forall b' z m', negative b' = negative b -> digits b = digits b' ++ z -> cval z = 0 ->
     digits b' <> [] -> trimmed (digits b') -> (live m' + length z)%nat = live m -> Q b' m') ->
  wp (trim_chunks b) m Q.
Proof.
  intros Hc Hne Hl HQ. unfold trim_chunks, owned in *. destruct (digits b) as [|x next] eqn:Eb; [done|].
  apply Forall_cons in Hc as [Hx Hn]. wp_bind. rewrite reverse_chain_rev.
  apply wp_trim_stack; [by apply chain_ok_rev|rewrite length_rev; simpl in Hl; lia|].
  intros z s' m' E Hz Htop Hlive. apply wp_ret. rewrite reverse_chain_rev.
  assert (next = rev s' ++ rev z) as En by (rewrite <- rev_app_distr, <- E; by rewrite rev_involutive).
  assert (chain_ok z) as Hzok.
  { apply chain_ok_rev in Hn. rewrite E in Hn. by apply Forall_app in Hn as [? _]. }
  apply (HQ _ (rev z)); cbn [negative digits]; try done.
  - by rewrite En.
  - by apply cval_rev_0.
  - destruct s' as [|top s']; [left; simpl; lia|right]. exists (x :: rev s'), top. by cbn [rev].
  - rewrite length_rev. lia.
Qed.
