(* ===== verification/BintArith.v ===== *)
(** Addition, subtraction and comparison of bint.c. *)
From S2P Require Import Prelude Bint BintOps BintDigits BintMag BintLen.

Lemma chain_ok_zeros n : chain_ok (replicate n zero_chunk).
Proof. apply Forall_replicate, zero_chunk_ok. Qed.

Lemma chain_ok_pad c n : chain_ok c -> chain_ok (c ++ replicate n zero_chunk).
Proof. intros H. apply Forall_app_2; [done|apply chain_ok_zeros]. Qed.

Lemma cval_pad c n : cval (c ++ replicate n zero_chunk) = cval c.
Proof. rewrite cval_app, cval_zeros. lia. Qed.

Lemma length_pad c count :
  c <> [] -> 0 <= count ->
  Z.of_nat (length (c ++ replicate (pad c count) zero_chunk)) =
  Z.max (Z.of_nat (length c)) (1 + count / 128).
Proof.
  intros Hne Hc. rewrite length_app, length_replicate. unfold pad.
  pose proof (Z.div_pos count 128). lia.
Qed.

Lemma add_lost_pad dc sc n : add_lost (dc ++ replicate n zero_chunk) sc = add_lost dc sc.
Proof.
  unfold add_lost, add_loses, carry_out.
  destruct (Nat.lt_ge_cases (length sc) (length dc)) as [Hl|Hl].
  - rewrite drop_app_le, take_app_le by lia. destruct (drop (length sc) dc) eqn:E; [|done].
    apply (f_equal length) in E. rewrite length_drop in E. simpl in E. lia.
  - rewrite drop_app_ge, (drop_ge dc), drop_replicate by lia.
    destruct (n - _)%nat; [done|]. cbn [replicate].
    change ((zero_chunk !!! 0%nat) =? 2 ^ 32 - 1) with false. by rewrite andb_false_r.
Qed.

Lemma sum_fits v w count n :
  0 <= v -> 0 <= w -> Z.max (bitlen v) (bitlen w) + 1 <= count -> 1 + count / 128 <= n ->
  v + w < 2 ^ (128 * n).
Proof.
  intros Hv Hw Hc Hn. pose proof (bitlen_nonneg v). pose proof (bitlen_nonneg w).
  pose proof (Z.div_mod count 128 ltac:(lia)). pose proof (Z.mod_pos_bound count 128 ltac:(lia)).
  assert (v < 2 ^ (count - 1)) by (apply bitlen_le; lia).
  assert (w < 2 ^ (count - 1)) by (apply bitlen_le; lia).
  assert (2 ^ count <= 2 ^ (128 * n)) by (apply Z.pow_le_mono_r; lia).
  assert (2 ^ count = 2 * 2 ^ (count - 1)).
  { rewrite <- Z.pow_succ_r by lia. f_equal. lia. }
  lia.
Qed.

Lemma ne_length {A} (l : list A) : l <> [] -> (0 < length l)%nat.
Proof. destruct l; [done|]. simpl. lia. Qed.

(** What trimming and the value say about a number. *)
Lemma trimmed_wf b b' z :
  chain_ok (digits b) -> digits b = digits b' ++ z -> cval z = 0 -> digits b' <> [] ->
  trimmed (digits b') -> bint_wf b' /\ mag b' = mag b.
Proof.
  intros Hc E Hz Hne Ht. rewrite E in Hc. apply Forall_app in Hc as [Hc _]. split; [done|].
  unfold mag. rewrite E, cval_app, Hz. lia.
Qed.

Section arith.
Context (malloc_ok : nat -> bool).

Lemma wp_mag_add dst src m :
  bint_wf dst -> bint_wf src -> small dst -> small src -> (owned dst <= live m)%nat ->
  wp (mag_add malloc_ok dst src) m (outcome malloc_ok dst m (fun b =>
    negative b = negative dst /\
    mag b = mag dst + mag src - add_lost (digits dst) (digits src))).
Proof.
  intros Hd Hs Hsd Hss Hl. unfold mag_add. rewrite !bit_length_wf by done.
  pose proof (mag_nonneg _ (wf_chain _ Hd)) as Hmd. pose proof (mag_nonneg _ (wf_chain _ Hs)) as Hms.
  pose proof (chain_bitlen _ (wf_chain _ Hd)) as Hbd. pose proof (chain_bitlen _ (wf_chain _ Hs)) as Hbs.
  fold (mag dst) in Hbd. fold (mag src) in Hbs. unfold small in *.
  pose proof (bitlen_nonneg (mag dst)). pose proof (bitlen_nonneg (mag src)).
  set (rl := (if bitlen (mag src) <? bitlen (mag dst) then _ else _) + 1).
  assert (rl = Z.max (bitlen (mag dst)) (bitlen (mag src)) + 1) as Hrl.
  { unfold rl. destruct (Z.ltb_spec (bitlen (mag src)) (bitlen (mag dst))); lia. }
  rewrite u32_small by lia. wp_bind. apply wp_extend_length; [apply Hd|lia| |].
  - intros m1 Hm1. set (n := pad (digits dst) rl). set (dc := digits dst ++ replicate n zero_chunk).
    cbn [digits negative]. change (0 <? 0) with false. cbv iota.
    assert (Z.of_nat (length dc) = Z.max (Z.of_nat (length (digits dst))) (1 + rl / 128)) as Hlen.
    { apply length_pad; [apply Hd|lia]. }
    assert (length (digits src) <= length dc)%nat as Hls.
    { destruct (Nat.le_gt_cases (length (digits src)) 1) as [Hc|Hc].
      - pose proof (ne_length _ (wf_ne _ Hd)). lia.
      - pose proof (trimmed_length _ (wf_chain _ Hs) (wf_trim _ Hs) Hc) as Ht. fold (mag src) in Ht.
        pose proof (Z.div_mod rl 128 ltac:(lia)). pose proof (Z.mod_pos_bound rl 128 ltac:(lia)). lia. }
    assert (Hdc : chain_ok dc) by (apply chain_ok_pad, Hd).
    assert (cval dc = mag dst) as Hvd by apply cval_pad.
    pose proof (sum_fits (mag dst) (mag src) rl (Z.of_nat (length dc)) Hmd Hms ltac:(lia) ltac:(lia)) as Hfit.
    destruct (add_chain_spec dc (digits src) Hdc (wf_chain _ Hs) Hls) as (Hr & Hlr & Ev).
    { rewrite Hvd. done. }
    assert (Hne : add_chain dc (digits src) 0 <> []).
    { intros E. rewrite E in Hlr. pose proof (ne_length _ (wf_ne _ Hd)). cbn [length] in Hlr. lia. }
    wp_bind. apply wp_trim; cbn [digits negative]; [done|done| |].
    { unfold owned in *. cbn [digits]. rewrite Hlr. unfold dc. rewrite length_app, length_replicate.
      fold n in Hm1. lia. }
    intros b' z m2 Hneg E Hz Hne' Ht Hlive. apply wp_ret. left.
    destruct (trimmed_wf (mk_bint (negative dst) (add_chain dc (digits src) 0)) b' z) as [Hwf Hmag]; try done.
    split_and!; try done.
    + rewrite Hmag. unfold mag at 1. cbn [digits]. rewrite Ev, Hvd.
      unfold dc. by rewrite add_lost_pad.
    + unfold owned. assert (length dc = (length (digits b') + length z)%nat) as Hlz.
      { rewrite <- Hlr, E. apply length_app. }
      unfold dc in Hlz. rewrite length_app, length_replicate in Hlz. fold n in Hm1.
      pose proof (ne_length _ (wf_ne _ Hd)). pose proof (ne_length _ Hne'). lia.
  - intros Ho m1 Hm1. apply wp_ret. by right.
Qed.

Lemma wp_mag_sub dst big sm m Q :
  chain_ok (digits dst) -> digits dst <> [] -> chain_ok (digits big) -> chain_ok (digits sm) ->
  (length (digits big) <= length (digits dst))%nat ->
  digits dst = digits big \/
    (length (digits big) <= length (digits sm))%nat /\ cval (drop (length (digits big)) (digits dst)) = 0 ->
  mag sm <= mag big -> (owned dst <= live m)%nat ->
  (forall b m', bint_wf b -> negative b = negative dst -> mag b = mag big - mag sm ->
     (live m' + owned dst)%nat = (live m + owned b)%nat -> Q b m') ->
  wp (mag_sub dst big sm) m Q.
Proof.
  intros Hdc Hne Hbc Hsc Hlen Hdec Hle Hl HQ. unfold mag_sub. wp_bind.
  destruct (sub_chain_spec (digits dst) (digits big) (digits sm)) as (r & E & Hr & Hlr & Ev); try done.
  { destruct Hdec as [|[]]; auto. }
  eapply wp_need; [exact E|]. set (c := r ++ drop (length (digits big)) (digits dst)).
  assert (Hc : chain_ok c) by (apply Forall_app_2; [done|by apply Forall_drop]).
  assert (length c = length (digits dst)) as Hlc.
  { unfold c. rewrite length_app, length_drop, Hlr. lia. }
  assert (cval c = mag big - mag sm) as Hvc.
  { unfold c. rewrite cval_app, Ev, Hlr. destruct Hdec as [Hdec|[_ ->]]; [|unfold mag; lia].
    rewrite Hdec, drop_all. cbn [cval]. unfold mag. lia. }
  apply wp_trim; cbn [digits negative]; [done| | |].
  - intros Ec. rewrite Ec in Hlc. pose proof (ne_length _ Hne). cbn [length] in Hlc. lia.
  - unfold owned in *. cbn [digits]. by rewrite Hlc.
  - intros b' z m' Hneg Ed Hz Hne' Ht Hlive.
    destruct (trimmed_wf (mk_bint (negative dst) c) b' z) as [Hwf Hmag]; try done.
    apply HQ; [done|done| |].
    + rewrite Hmag. done.
    + unfold owned. rewrite <- Hlc. rewrite Ed, length_app. pose proof (ne_length _ Hne'). lia.
Qed.

Lemma wp_do_subtract dst src m :
  bint_wf dst -> bint_wf src -> small dst -> small src -> (owned dst <= live m)%nat ->
  wp (do_subtract malloc_ok dst src) m (outcome malloc_ok dst m (fun b =>
    bval b = if negative dst then mag src - mag dst else mag dst - mag src)).
Proof.
  intros Hd Hs Hsd Hss Hl. unfold do_subtract.
  rewrite mag_cmp_trimmed by first [apply Hd|apply Hs|by apply ne_length, Hd|by apply ne_length, Hs].
  fold (mag dst). fold (mag src). rewrite bit_length_wf by done.
  pose proof (mag_nonneg _ (wf_chain _ Hd)) as Hmd. pose proof (mag_nonneg _ (wf_chain _ Hs)) as Hms.
  destruct (Z.ltb_spec (Z.sgn (mag dst - mag src)) 0) as [Hlt|Hge].
  - pose proof (bitlen_nonneg (mag src)). wp_bind. apply wp_extend_length; [apply Hd|done| |].
    + intros m1 Hm1. set (n := pad (digits dst) (bitlen (mag src))) in *.
      set (dst1 := mk_bint (negative dst) (digits dst ++ replicate n zero_chunk)).
      change (0 <? 0) with false. cbv iota.
      assert (Z.of_nat (length (digits dst1)) =
        Z.max (Z.of_nat (length (digits dst))) (1 + bitlen (mag src) / 128)) as Hlen.
      { apply length_pad; [apply Hd|done]. }
      assert (Hc1 : chain_ok (digits dst1)) by (apply chain_ok_pad, Hd).
      assert (mag dst1 = mag dst) as Hv1 by apply cval_pad.
      assert (length (digits src) <= length (digits dst1))%nat as Hls.
      { destruct (Nat.le_gt_cases (length (digits src)) 1) as [Hc|Hc].
        - pose proof (ne_length _ (wf_ne _ Hd)). lia.
        - pose proof (trimmed_length _ (wf_chain _ Hs) (wf_trim _ Hs) Hc) as Ht. fold (mag src) in Ht.
          pose proof (Z.div_mod (bitlen (mag src)) 128 ltac:(lia)).
          pose proof (Z.mod_pos_bound (bitlen (mag src)) 128 ltac:(lia)). lia. }
      wp_bind. apply wp_mag_sub; try done.
      * intros E. apply app_nil in E as [E _]. by apply (wf_ne _ Hd).
      * apply Hs.
      * right. split; [done|].
        pose proof (chain_ok_bound _ (wf_chain _ Hs)) as Hb. fold (mag src) in Hb.
        pose proof (cval_split (length (digits src)) (digits dst1) Hls) as Hsp.
        fold (mag dst1) in Hsp. rewrite Hv1 in Hsp. fold (WC (length (digits src))) in Hb.
        pose proof (chain_ok_bound _ (Forall_take _ (length (digits src)) _ Hc1)).
        pose proof (chain_ok_bound _ (Forall_drop _ (length (digits src)) _ Hc1)). nia.
      * rewrite Hv1. lia.
      * unfold owned in *. unfold dst1. cbn [digits]. rewrite length_app, length_replicate. lia.
      * intros b m2 Hwf Hneg Hmag Hlive. apply wp_ret. left. split_and!; [done| | |].
        -- destruct Hwf. by split.
        -- unfold bval, mag at 1 2. cbn [digits negative]. fold (mag b). rewrite Hneg, Hmag, Hv1.
           unfold dst1. cbn [negative]. destruct (negative dst); cbn [negb]; lia.
        -- unfold owned in *. unfold dst1 in Hlive. cbn [digits] in *.
           rewrite length_app, length_replicate in Hlive.
           pose proof (ne_length _ (wf_ne _ Hd)). pose proof (ne_length _ (wf_ne _ Hwf)). lia.
    + intros Ho m1 Hm1. apply wp_ret. by right.
  - wp_bind. apply wp_mag_sub; try apply Hd; try apply Hs; try done; [by left|lia|].
    intros b m2 Hwf Hneg Hmag Hlive. apply wp_ret. left. split_and!; try done.
    unfold bval. rewrite Hneg, Hmag. destruct (negative dst); lia.
Qed.

(** The carry [bint_add] loses, with its sign. *)
Definition sum_lost (neg : bool) (dst src : bint) : Z :=
  if Bool.eqb (negative dst) neg then
    (if negative dst then -1 else 1) * add_lost (digits dst) (digits src)
  else 0.

Lemma outcome_mono dst m P Q r m' :
  (forall b, P b -> Q b) -> outcome malloc_ok dst m P r m' -> outcome malloc_ok dst m Q r m'.
Proof. destruct r as [b rc]. intros H [(? & ? & ? & ?)|?]; [left|by right]. auto. Qed.

Lemma wp_bint_add dst src m :
  bint_wf dst -> bint_wf src -> small dst -> small src -> (owned dst <= live m)%nat ->
  wp (bint_add malloc_ok dst src) m (outcome malloc_ok dst m (fun b =>
    bval b = bval dst + bval src - sum_lost (negative src) dst src)).
Proof.
  intros Hd Hs Hsd Hss Hl. unfold bint_add, sum_lost.
  destruct (negative dst) eqn:Nd, (negative src) eqn:Ns; cbn [andb orb negb Bool.eqb].
  - eapply wp_mono; [by apply wp_mag_add|]. intros r m'. apply outcome_mono.
    intros b [Hneg E]. unfold bval. rewrite Hneg, Nd, Ns, E. lia.
  - eapply wp_mono; [by apply wp_do_subtract|]. intros r m'. apply outcome_mono.
    intros b ->. unfold bval. rewrite Nd, Ns. lia.
  - eapply wp_mono; [by apply wp_do_subtract|]. intros r m'. apply outcome_mono.
    intros b ->. unfold bval. rewrite Nd, Ns. lia.
  - eapply wp_mono; [by apply wp_mag_add|]. intros r m'. apply outcome_mono.
    intros b [Hneg E]. unfold bval. rewrite Hneg, Nd, Ns, E. lia.
Qed.

Lemma wp_bint_sub dst src m :
  bint_wf dst -> bint_wf src -> small dst -> small src -> (owned dst <= live m)%nat ->
  wp (bint_sub malloc_ok dst src) m (outcome malloc_ok dst m (fun b =>
    bval b = bval dst - bval src - sum_lost (negb (negative src)) dst src)).
Proof.
  intros Hd Hs Hsd Hss Hl. unfold bint_sub, sum_lost.
  destruct (negative dst) eqn:Nd, (negative src) eqn:Ns; cbn [andb orb negb Bool.eqb].
  - eapply wp_mono; [by apply wp_do_subtract|]. intros r m'. apply outcome_mono.
    intros b ->. unfold bval. rewrite Nd, Ns. lia.
  - eapply wp_mono; [by apply wp_mag_add|]. intros r m'. apply outcome_mono.
    intros b [Hneg E]. unfold bval. rewrite Hneg, Nd, Ns, E. lia.
  - eapply wp_mono; [by apply wp_mag_add|]. intros r m'. apply outcome_mono.
    intros b [Hneg E]. unfold bval. rewrite Hneg, Nd, Ns, E. lia.
  - eapply wp_mono; [by apply wp_do_subtract|]. intros r m'. apply outcome_mono.
    intros b ->. unfold bval. rewrite Nd, Ns. lia.
Qed.
End arith.
