(* ===== verification/BintMul.v ===== *)
(** Multiplication of bint.c: what [chunk_mac] computes, and that [bint_mul] is
    exact as long as no accumulation in it overflows. *)
From S2P Require Import Prelude Bint BintOps BintDigits BintMag BintLen BintArith.

(** A double chunk, the accumulator of [chunk_mac]. *)
Definition acc_ok (mm : list Z) : Prop := length mm = (BINT_CHUNK_SIZE * 2)%nat /\ digs mm.

Lemma acc_ok_digit mm i : acc_ok mm -> (i < 8)%nat -> digit (mm !!! i).
Proof. intros [Hl Hd] Hi. apply digs_lookup; [done|]. by rewrite Hl. Qed.

Lemma acc_ok_insert i v mm : acc_ok mm -> digit v -> acc_ok (<[i := v]> mm).
Proof. intros [Hl Hd] Hv. split; [by rewrite length_insert|by apply digs_insert]. Qed.

Lemma acc_insert_val i v mm :
  acc_ok mm -> (i < 8)%nat -> dval (<[i := v]> mm) = dval mm + (v - mm !!! i) * W i.
Proof. intros [Hl _] Hi. apply dval_insert. by rewrite Hl. Qed.

Lemma acc_bound mm : acc_ok mm -> 0 <= dval mm < W 8.
Proof. intros [Hl Hd]. pose proof (dval_bound mm Hd) as H. by rewrite Hl in H. Qed.

#[local] Hint Resolve acc_ok_insert : bint.

Lemma mac_row_spec ad b i mm :
  digit ad -> chunk_ok b -> acc_ok mm -> (i < BINT_CHUNK_SIZE)%nat ->
  let '(mm', carry) := mac_row ad b i mm in
  acc_ok mm' /\ digit carry /\ dval mm' + carry * W (i + BINT_CHUNK_SIZE) = dval mm + ad * dval b * W i.
Proof.
  intros Ha Hb Hmm Hi. unfold mac_row.
  for_inv (fun j '(mm', carry) => acc_ok mm' /\ digit carry /\
    dval mm' + carry * W (i + j) = dval mm + ad * dval (take j b) * W i) H.
  - rewrite dval_take_0. split_and!; [done|unfold digit; lia|lia].
  - intros j [mm' carry] [_ Hj] (Hm & Hc & E). unfold BINT_CHUNK_SIZE in Hi.
    pose proof (chunk_ok_digit b j Hb Hj) as Hbj.
    assert (i + j < 8)%nat as Hij by (unfold BINT_CHUNK_SIZE in Hj; lia).
    pose proof (acc_ok_digit mm' (i + j) Hm Hij) as Hmj. unfold digit in *.
    set (x := ad * b !!! j + mm' !!! (i + j)%nat + carry).
    assert (0 <= ad * b !!! j <= (2 ^ 32 - 1) * (2 ^ 32 - 1)) by nia.
    assert (0 <= x < 2 ^ 64) by (unfold x; lia).
    replace (u64 (u64 (u64 (ad * b !!! j) + mm' !!! (i + j)%nat) + carry)) with x; cycle 1.
    { rewrite (u64_small (ad * b !!! j)) by lia. rewrite (u64_small (ad * b !!! j + _)) by (unfold x in *; lia).
      by rewrite u64_small. }
    unfold COMPONENT_BITS. pose proof (shiftr_bound x (2 ^ 32) ltac:(lia)).
    rewrite (u32_small (Z.shiftr x 32)) by lia. split_and!; [auto with bint|lia|lia|].
    rewrite acc_insert_val by done. rewrite chunk_take_S by done.
    replace (i + S j)%nat with (S (i + j)) by lia. rewrite W_S.
    pose proof (split32 x) as Hs. rewrite (W_add i j) in *. unfold x in Hs at 1. nia.
  - intros [mm' carry]. by rewrite chunk_take.
Qed.

Lemma mac_carry_spec : forall n k mm carry,
  (k + n = 8)%nat -> acc_ok mm -> digit carry -> dval mm + carry * W k < W 8 ->
  acc_ok (mac_carry n k mm carry) /\ dval (mac_carry n k mm carry) = dval mm + carry * W k.
Proof.
  induction n as [|n IH]; intros k mm carry Hk Hm Hc Hb; cbn [mac_carry].
  - replace k with 8%nat in * by lia. pose proof (acc_bound mm Hm). unfold digit in Hc.
    pose proof (W_pos 8). assert (carry = 0) as -> by nia. split; [done|lia].
  - destruct (truth carry) eqn:Et; [|apply truth_false in Et as ->; split; [done|lia]].
    pose proof (acc_ok_digit mm k Hm ltac:(lia)) as Hd. unfold digit in *.
    rewrite u64_small by lia. unfold COMPONENT_BITS. set (x := mm !!! k + carry).
    pose proof (shiftr_bound x 2 ltac:(unfold x; lia)). rewrite (u32_small (Z.shiftr x 32)) by lia.
    assert (dval (<[k := u32 x]> mm) + Z.shiftr x 32 * W (S k) = dval mm + carry * W k) as E.
    { rewrite acc_insert_val by (done || lia). rewrite W_S. pose proof (split32 x) as Hs. unfold x in Hs at 1. nia. }
    destruct (IH (S k) (<[k := u32 x]> mm) (Z.shiftr x 32)) as [H1 H2];
      [lia|auto with bint|unfold digit; lia|by rewrite E|]. split; [done|]. by rewrite H2.
Qed.

Lemma mac_products_spec a b mm :
  chunk_ok a -> chunk_ok b -> acc_ok mm -> dval mm < 2 ^ 128 ->
  acc_ok (mac_products a b mm) /\ dval (mac_products a b mm) = dval mm + dval a * dval b.
Proof.
  intros Ha Hb Hmm Hlt. unfold mac_products.
  pose proof (chunk_ok_bound a Ha) as Hab. pose proof (chunk_ok_bound b Hb) as Hbb.
  for_inv (fun i mm' => acc_ok mm' /\ dval mm' = dval mm + dval (take i a) * dval b) H.
  - rewrite dval_take_0. split; [done|lia].
  - intros i mm' [_ Hi] [Hm E]. pose proof (chunk_ok_digit a i Ha Hi) as Hai.
    pose proof (mac_row_spec (a !!! i) b i mm' Hai Hb Hm Hi) as Hrow.
    destruct (mac_row (a !!! i) b i mm') as [mm1 carry]. destruct Hrow as (Hm1 & Hc & E1).
    assert (dval (take (S i) a) <= dval a) as Hle.
    { rewrite (dval_split (S i) a) by by rewrite (proj1 Ha).
      pose proof (dval_bound _ (digs_drop (S i) _ (proj2 Ha))). pose proof (W_pos (S i)). nia. }
    assert (dval mm1 + carry * W (i + BINT_CHUNK_SIZE) = dval mm + dval (take (S i) a) * dval b) as E2.
    { rewrite E1, E, chunk_take_S by done. ring. }
    pose proof (dval_bound _ (digs_take (S i) _ (proj2 Ha))).
    destruct (mac_carry_spec (BINT_CHUNK_SIZE - i) (i + BINT_CHUNK_SIZE) mm1 carry) as [H1 H2]; try done.
    { unfold BINT_CHUNK_SIZE in *. lia. }
    { rewrite E2. change (W 8) with (2 ^ 128 * 2 ^ 128). pose proof (acc_bound mm Hmm). nia. }
    split; [done|]. by rewrite H2.
  - intros r. by rewrite chunk_take.
Qed.

Lemma acc_split mm : acc_ok mm ->
  chunk_ok (take 4 mm) /\ chunk_ok (drop 4 mm) /\ dval mm = dval (take 4 mm) + 2 ^ 128 * dval (drop 4 mm).
Proof.
  intros [Hl Hd]. unfold BINT_CHUNK_SIZE in Hl. split_and!.
  - split; [rewrite length_take; unfold BINT_CHUNK_SIZE; lia|by apply digs_take].
  - split; [rewrite length_drop; unfold BINT_CHUNK_SIZE; lia|by apply digs_drop].
  - rewrite (dval_split 4 mm) at 1 by lia. done.
Qed.

(** What [chunk_mac] computes: the carry out of the sum of the result and the
    incoming carry is dropped. *)
Lemma chunk_mac_spec ab r c :
  chunk_ok r -> chunk_ok c -> match ab with Some (a, b) => chunk_ok a /\ chunk_ok b | None => True end ->
  let '(r', c') := chunk_mac ab r c in
  chunk_ok r' /\ chunk_ok c' /\
  dval r' + 2 ^ 128 * dval c' = (dval r + dval c) mod 2 ^ 128 +
    match ab with Some (a, b) => dval a * dval b | None => 0 end.
Proof.
  intros Hr Hc Hab. unfold chunk_mac.
  for_inv (fun i '(mm, carry) => acc_ok mm /\ 0 <= carry <= 1 /\
    drop i mm = replicate (8 - i) 0 /\
    dval mm + carry * W i = dval (take i r) + dval (take i c)) H.
  - rewrite !dval_take_0. split_and!; try done. split; [done|apply digs_replicate].
  - intros i [mm carry] [_ Hi] (Hm & Hk & Hz & E).
    pose proof (chunk_ok_digit r i Hr Hi) as Hri. pose proof (chunk_ok_digit c i Hc Hi) as Hci.
    assert (i < 8)%nat as Hi8 by (unfold BINT_CHUNK_SIZE in Hi; lia).
    assert (mm !!! i = 0) as Hmi.
    { rewrite <- (Nat.add_0_r i), <- lookup_total_drop, Hz. destruct (8 - i)%nat eqn:E8; [lia|done]. }
    unfold digit in *. rewrite (u64_small (r !!! i + c !!! i)) by lia. rewrite u64_small by lia.
    set (x := r !!! i + c !!! i + carry). unfold COMPONENT_BITS.
    pose proof (shiftr_bound x 2 ltac:(unfold x; lia)). rewrite (u32_small (Z.shiftr x 32)) by lia.
    split_and!; [auto with bint|lia|lia| |].
    + rewrite drop_insert_lt by lia. replace (S i) with (i + 1)%nat by lia.
      rewrite <- drop_drop, Hz. rewrite drop_replicate. f_equal. lia.
    + rewrite acc_insert_val, Hmi, !chunk_take_S, W_S by done.
      pose proof (split32 x) as Hs. unfold x in Hs at 1. nia.
  - intros [mm carry] (Hm & Hk & Hz & E). rewrite !chunk_take in E by done.
    assert (dval mm = (dval r + dval c) mod 2 ^ 128) as Emm.
    { pose proof (acc_split mm Hm) as (Ht & _ & Es). change BINT_CHUNK_SIZE with 4%nat in Hz.
      rewrite Hz in Es. rewrite dval_replicate in Es. pose proof (chunk_ok_bound _ Ht).
      change (W BINT_CHUNK_SIZE) with (2 ^ 128) in E. apply Z.mod_unique with carry; lia. }
    assert (exists mm', acc_ok mm' /\ dval mm' = (dval r + dval c) mod 2 ^ 128 +
      match ab with Some (a, b) => dval a * dval b | None => 0 end /\
      mm' = match ab with Some (a, b) => mac_products a b mm | None => mm end) as (mm' & Hm' & E' & <-).
    { destruct ab as [[a b]|].
      - destruct Hab as [Ha Hb]. pose proof (Z.mod_pos_bound (dval r + dval c) (2 ^ 128)).
        destruct (mac_products_spec a b mm Ha Hb Hm) as [H1 H2]; [lia|].
        eexists. split_and!; [exact H1| |done]. lia.
      - exists mm. split_and!; [done|lia|done]. }
    pose proof (acc_split mm' Hm') as (Ht & Hd & Es).
    for_inv (fun i '(r1, c1) => length r1 = 4%nat /\ length c1 = 4%nat /\
      take i r1 = take i mm' /\ take i c1 = take i (drop 4 mm')) H.
    + split_and!; [apply Hr|apply Hc|done|done].
    + intros i [r1 c1] [_ Hi] (Hl1 & Hl2 & E1 & E2). unfold BINT_CHUNK_SIZE in Hi.
      pose proof (proj1 Hm') as Hlm. unfold BINT_CHUNK_SIZE in Hlm.
      split_and!; [by rewrite length_insert|by rewrite length_insert| |].
      * rewrite !(take_S_r _ i (mm' !!! i)).
        -- by rewrite take_insert_ge, E1 by lia.
        -- apply list_lookup_lookup_total_lt. lia.
        -- apply list_lookup_insert_eq. lia.
      * rewrite !(take_S_r _ i (mm' !!! (i + BINT_CHUNK_SIZE)%nat)).
        -- by rewrite take_insert_ge, E2 by lia.
        -- rewrite lookup_drop. unfold BINT_CHUNK_SIZE. rewrite Nat.add_comm.
           apply list_lookup_lookup_total_lt. lia.
        -- apply list_lookup_insert_eq. lia.
    + intros [r1 c1] (Hl1 & Hl2 & E1 & E2). unfold BINT_CHUNK_SIZE in *.
      rewrite (take_ge r1) in E1 by lia. rewrite (take_ge c1) in E2 by lia.
      rewrite (take_ge (drop 4 mm')) in E2 by (rewrite (proj1 Hd); done). subst r1 c1.
      split_and!; [done|done|lia].
Qed.

(** * Chains *)

(** No accumulation overflows: at every [chunk_mac], the chunk of the result
    plus the incoming carry fits a chunk. *)
Fixpoint carry_fits (rcs : list chunk) (carry : chunk) : bool :=
  match rcs with
  | [] => true
  | r :: rcs => (dval r + dval carry <? 2 ^ 128) && carry_fits rcs (chunk_mac None r carry).2
  end.

Fixpoint row_fits (a : chunk) (bc rcs : list chunk) (carry : chunk) : bool :=
  match bc, rcs with
  | [], _ => carry_fits rcs carry
  | _ :: _, [] => false
  | b :: bc, r :: rcs =>
      (dval r + dval carry <? 2 ^ 128) &&
      row_fits a bc rcs (chunk_mac (Some (a, b)) r carry).2
  end.

Fixpoint rows_fit (ac bc rc : list chunk) : bool :=
  match ac with
  | [] => true
  | a :: ac =>
      row_fits a bc rc zero_chunk &&
      match mul_row a bc rc zero_chunk with
      | Some (_ :: rc) => rows_fit ac bc rc
      | _ => false
      end
  end.

(** A product fits when no accumulation overflows. *)
Definition mul_fits (a b : bint) : Prop :=
  forall n, (length (digits a) + length (digits b) <= n + 1)%nat ->
    mag a * mag b < WC n -> rows_fit (digits a) (digits b) (replicate n zero_chunk) = true.

Lemma mul_carry_spec : forall rcs carry,
  chain_ok rcs -> chunk_ok carry ->
  chain_ok (mul_carry rcs carry) /\ length (mul_carry rcs carry) = length rcs /\
  (carry_fits rcs carry = true -> exists k, 0 <= k /\
    cval (mul_carry rcs carry) + WC (length rcs) * k = cval rcs + dval carry).
Proof.
  induction rcs as [|r rcs IH]; intros carry Hr Hc; cbn [mul_carry carry_fits].
  - split_and!; [constructor|done|]. intros _. exists (dval carry).
    pose proof (chunk_ok_bound carry Hc). split; [lia|]. cbn [cval length]. rewrite WC_0. lia.
  - apply Forall_cons in Hr as [Hr Hrs].
    pose proof (chunk_mac_spec None r carry Hr Hc I) as Hm.
    destruct (chunk_mac None r carry) as [r' c'] eqn:Em. destruct Hm as (Hr' & Hc' & E).
    destruct (IH c' Hrs Hc') as (H1 & H2 & H3). cbn [fst snd].
    split_and!; [by constructor|cbn [length]; by rewrite H2|].
    intros [Hlt Hf]%andb_true_iff. apply Z.ltb_lt in Hlt. destruct (H3 Hf) as (k & Hk & Ek).
    exists k. split; [done|]. cbn [cval length]. rewrite WC_S.
    pose proof (chunk_ok_bound r Hr). pose proof (chunk_ok_bound carry Hc).
    rewrite Z.mod_small in E by lia. nia.
Qed.

Lemma mul_row_spec a : chunk_ok a -> forall bc rcs carry,
  chain_ok bc -> chain_ok rcs -> chunk_ok carry -> (length bc <= length rcs)%nat ->
  exists out, mul_row a bc rcs carry = Some out /\ chain_ok out /\ length out = length rcs /\
  (row_fits a bc rcs carry = true -> exists k, 0 <= k /\
    cval out + WC (length rcs) * k = cval rcs + dval carry + dval a * cval bc).
Proof.
  intros Ha. induction bc as [|b bc IH]; intros rcs carry Hb Hr Hc Hl; cbn [mul_row].
  - destruct (mul_carry_spec rcs carry Hr Hc) as (H1 & H2 & H3). eexists. split_and!; [done|done|done|].
    intros Hf. assert (carry_fits rcs carry = true) as Hf' by by destruct rcs.
    destruct (H3 Hf') as (k & Hk & E). exists k. split; [done|]. cbn [cval]. lia.
  - destruct rcs as [|r rcs]; [simpl in Hl; lia|]. cbn [row_fits].
    apply Forall_cons in Hr as [Hr Hrs]. apply Forall_cons in Hb as [Hb Hbs].
    pose proof (chunk_mac_spec (Some (a, b)) r carry Hr Hc (conj Ha Hb)) as Hm.
    destruct (chunk_mac (Some (a, b)) r carry) as [r' c'] eqn:Em. destruct Hm as (Hr' & Hc' & E).
    destruct (IH rcs c' Hbs Hrs Hc' ltac:(simpl in Hl; lia)) as (out & Eo & H1 & H2 & H3).
    rewrite Eo. cbn [fst snd mbind option_bind]. exists (r' :: out).
    split_and!; [done|by constructor|cbn [length]; by rewrite H2|].
    intros [Hlt Hf]%andb_true_iff. apply Z.ltb_lt in Hlt. destruct (H3 Hf) as (k & Hk & Ek).
    exists k. split; [done|]. cbn [cval length]. rewrite WC_S.
    pose proof (chunk_ok_bound r Hr). pose proof (chunk_ok_bound carry Hc).
    rewrite Z.mod_small in E by lia. nia.
Qed.

Lemma mul_rows_spec bc : chain_ok bc -> bc <> [] -> forall ac rc,
  chain_ok ac -> chain_ok rc -> (length ac + length bc <= length rc + 1)%nat ->
  exists out, mul_rows ac bc rc = Some out /\ chain_ok out /\ length out = length rc /\
  (rows_fit ac bc rc = true -> cval rc + cval ac * cval bc < WC (length rc) ->
    cval out = cval rc + cval ac * cval bc).
Proof.
  intros Hb Hbn. induction ac as [|a ac IH]; intros rc Ha Hr Hl; cbn [mul_rows rows_fit].
  - exists rc. split_and!; try done. cbn [cval]. lia.
  - apply Forall_cons in Ha as [Ha Has]. pose proof (ne_length _ Hbn) as Hbl. cbn [length] in Hl.
    destruct (mul_row_spec a Ha bc rc zero_chunk Hb Hr zero_chunk_ok ltac:(lia)) as (row & E & H1 & H2 & H3).
    rewrite E. cbn [mbind option_bind]. destruct row as [|r row]; [simpl in H2; lia|].
    apply Forall_cons in H1 as [Hr1 Hrow]. cbn [length] in H2.
    destruct (IH row Has Hrow ltac:(lia)) as (out & Eo & H4 & H5 & H6). rewrite Eo. cbn [mbind option_bind].
    exists (r :: out). split_and!; [done|by constructor|cbn [length]; lia|].
    intros [Hf1 Hf2]%andb_true_iff Hlt. destruct (H3 Hf1) as (k & Hk & Ek).
    rewrite zero_chunk_val in Ek. pose proof (chain_ok_bound ac Has) as [Hac _].
    pose proof (chain_ok_bound bc Hb) as [Hbc _]. pose proof (chunk_ok_bound r Hr1).
    cbn [cval] in *. assert (0 <= cval (r :: row)) as Hrb.
    { apply chain_ok_bound. by constructor. } cbn [cval] in Hrb.
    assert (k = 0) as ->.
    { assert (WC (length rc) * k < WC (length rc)); [|pose proof (WC_pos (length rc)); nia]. nia. }
    rewrite H6; [nia|done|]. rewrite <- H2, WC_S in Hlt. pose proof (WC_pos (length row)). nia.
Qed.

(** A product with a single-chunk factor fits. *)
Lemma carry_fits_zeros n c : chunk_ok c -> carry_fits (replicate n zero_chunk) c = true.
Proof.
  revert c. induction n as [|n IH]; intros c Hc; [done|]. cbn [replicate carry_fits].
  pose proof (chunk_ok_bound c Hc). rewrite zero_chunk_val. apply andb_true_iff.
  split; [apply Z.ltb_lt; lia|]. pose proof (chunk_mac_spec None zero_chunk c zero_chunk_ok Hc I) as Hm.
  destruct (chunk_mac None zero_chunk c) as [r' c']. apply IH. apply Hm.
Qed.

Lemma row_fits_zeros a : chunk_ok a -> forall bc n c,
  chain_ok bc -> chunk_ok c -> (length bc <= n)%nat ->
  row_fits a bc (replicate n zero_chunk) c = true.
Proof.
  intros Ha. induction bc as [|b bc IH]; intros n c Hb Hc Hl.
  - destruct n; [done|]. by apply (carry_fits_zeros (S n)).
  - destruct n as [|n]; [simpl in Hl; lia|]. cbn [replicate row_fits].
    apply Forall_cons in Hb as [Hb Hbs]. pose proof (chunk_ok_bound c Hc).
    rewrite zero_chunk_val. apply andb_true_iff. split; [apply Z.ltb_lt; lia|].
    pose proof (chunk_mac_spec (Some (a, b)) zero_chunk c zero_chunk_ok Hc (conj Ha Hb)) as Hm.
    destruct (chunk_mac (Some (a, b)) zero_chunk c) as [r' c'].
    apply IH; [done|apply Hm|simpl in Hl; lia].
Qed.

Lemma dval_inj l k : digs l -> digs k -> length l = length k -> dval l = dval k -> l = k.
Proof.
  intros Hl. revert k. induction Hl as [|x l Hx Hl IH]; intros [|y k] Hk Hlen E; try done.
  apply Forall_cons in Hk as [Hy Hk]. cbn [dval] in E. unfold digit in *.
  pose proof (dval_bound l Hl). pose proof (dval_bound k Hk).
  assert (x = y) as -> by lia. f_equal. apply IH; [done|by injection Hlen|lia].
Qed.

Lemma mul_carry_zeros n c : chunk_ok c ->
  mul_carry (replicate (S n) zero_chunk) c = c :: replicate n zero_chunk.
Proof.
  revert c. induction n as [|n IH]; intros c Hc; cbn [replicate mul_carry] in *;
    pose proof (chunk_mac_spec None zero_chunk c zero_chunk_ok Hc I) as Hm;
    destruct (chunk_mac None zero_chunk c) as [r' c']; destruct Hm as (Hr' & Hc' & E);
    pose proof (chunk_ok_bound c Hc); pose proof (chunk_ok_bound r' Hr'); pose proof (chunk_ok_bound c' Hc');
    rewrite zero_chunk_val, Z.add_0_l, Z.add_0_r, Z.mod_small in E by lia;
    assert (r' = c) as -> by (destruct Hr', Hc; apply dval_inj; [done|done|congruence|lia]).
  - done.
  - assert (c' = zero_chunk) as ->.
    { destruct Hc', zero_chunk_ok. apply dval_inj; [done|done|congruence|rewrite zero_chunk_val; lia]. }
    by rewrite (IH zero_chunk zero_chunk_ok).
Qed.

Lemma rows_fit_single b : chunk_ok b -> forall ac r n,
  chain_ok ac -> chunk_ok r -> (length ac <= S n)%nat ->
  rows_fit ac [b] (r :: replicate n zero_chunk) = true.
Proof.
  intros Hb. induction ac as [|a ac IH]; intros r n Ha Hr Hl; [done|].
  apply Forall_cons in Ha as [Ha Has].
  cbn [rows_fit row_fits mul_row]. pose proof (chunk_ok_bound r Hr).
  pose proof (chunk_mac_spec (Some (a, b)) r zero_chunk Hr zero_chunk_ok (conj Ha Hb)) as Hm.
  destruct (chunk_mac (Some (a, b)) r zero_chunk) as [r' c']. destruct Hm as (Hr' & Hc' & _).
  cbn [fst snd mbind option_bind]. rewrite zero_chunk_val.
  replace (dval r + 0 <? 2 ^ 128) with true by (symmetry; apply Z.ltb_lt; lia).
  rewrite carry_fits_zeros by done. cbn [andb].
  destruct n as [|n]; [destruct ac; [done|simpl in Hl; lia]|].
  rewrite mul_carry_zeros by done. apply IH; [done|done|simpl in Hl; lia].
Qed.

Lemma mul_fits_single a b :
  bint_wf a -> bint_wf b -> length (digits a) = 1%nat \/ length (digits b) = 1%nat -> mul_fits a b.
Proof.
  intros Ha Hb Hl n Hn Hlt. pose proof (wf_chain _ Ha) as Hca. pose proof (wf_chain _ Hb) as Hcb.
  pose proof (ne_length _ (wf_ne _ Ha)). pose proof (ne_length _ (wf_ne _ Hb)).
  destruct Hl as [Hl|Hl].
  - destruct (digits a) as [|x [|]]; try done. apply Forall_cons in Hca as [Hx _]. cbn [rows_fit length] in *.
    rewrite row_fits_zeros by (done || apply zero_chunk_ok || lia). cbn [andb].
    destruct (mul_row_spec x Hx (digits b) (replicate n zero_chunk) zero_chunk) as (out & -> & _ & Hlo & _).
    { done. } { apply chain_ok_zeros. } { apply zero_chunk_ok. } { rewrite length_replicate. lia. }
    rewrite length_replicate in Hlo. destruct out; [simpl in Hlo; lia|done].
  - destruct (digits b) as [|x [|]]; try done. apply Forall_cons in Hcb as [Hx _]. cbn [length] in *.
    destruct n as [|n]; [lia|]. apply (rows_fit_single x Hx _ zero_chunk); [done|apply zero_chunk_ok|lia].
Qed.

(** * [bint_mul] *)
Lemma is_zero_spec b : bint_wf b -> is_zero b = (mag b =? 0).
Proof.
  intros [Hc Hne Ht]. unfold is_zero, mag. destruct (digits b) as [|x [|y c]] eqn:E; [done| |].
  - apply Forall_cons in Hc as [Hx _]. cbn [cval]. rewrite Z.mul_0_r, Z.add_0_r.
    pose proof (chunk_is_zero_spec x Hx) as Hz.
    destruct (chunk_is_zero x), (Z.eqb_spec (dval x) 0); try done; [by rewrite (proj1 Hz) in *|].
    by rewrite (proj2 Hz) in *.
  - pose proof (trimmed_lower _ Hc Ht ltac:(simpl; lia)) as H. pose proof (WC_pos (length (x :: y :: c) - 1)).
    symmetry. apply Z.eqb_neq. lia.
Qed.

Lemma bint_get_sign_spec b : bint_wf b -> bint_get_sign b = Z.sgn (bval b).
Proof.
  intros Hb. unfold bint_get_sign, bval. rewrite is_zero_spec by done.
  pose proof (mag_nonneg b (wf_chain _ Hb)). destruct (Z.eqb_spec (mag b) 0) as [->|].
  - by destruct (negative b).
  - destruct (negative b); lia.
Qed.

Lemma mul_sign x y : chain_ok (digits x) -> chain_ok (digits y) ->
  (if Z.sgn (bval x) * Z.sgn (bval y) <? 0 then - (mag x * mag y) else mag x * mag y) =
  bval x * bval y.
Proof.
  intros Hx%mag_nonneg Hy%mag_nonneg. rewrite <- Z.sgn_mul.
  assert (forall z, (Z.sgn z <? 0) = (z <? 0)) as ->.
  { intros z. destruct (Z.ltb_spec (Z.sgn z) 0), (Z.ltb_spec z 0); lia. }
  destruct (Z.ltb_spec (bval x * bval y) 0); unfold bval in *;
    destruct (negative x), (negative y); nia.
Qed.

Section mul.
Context (malloc_ok : nat -> bool).

(** The result of [bint_mul] is not trimmed; the chunks are accounted for. *)
Lemma wp_bint_mul result a b m :
  chain_ok (digits result) -> digits result <> [] -> bint_wf a -> bint_wf b -> small a -> small b ->
  wp (bint_mul malloc_ok result a b) m (fun '(r, rc) m' =>
    rc = 0 /\ chain_ok (digits r) /\ digits r <> [] /\
      (mul_fits a b -> bval r = bval a * bval b) /\
      (live m' + owned result)%nat = (live m + owned r)%nat \/
    rc = -1 /\ r = result /\ live m' = live m /\ oom malloc_ok).
Proof.
  intros Hr Hrn Ha Hb Hsa Hsb. unfold bint_mul. rewrite !bit_length_wf by done. unfold small in *.
  pose proof (mag_nonneg _ (wf_chain _ Ha)) as Hma. pose proof (mag_nonneg _ (wf_chain _ Hb)) as Hmb.
  pose proof (chain_bitlen _ (wf_chain _ Ha)) as Hba. pose proof (chain_bitlen _ (wf_chain _ Hb)) as Hbb.
  fold (mag a) in Hba. fold (mag b) in Hbb.
  pose proof (bitlen_nonneg (mag a)). pose proof (bitlen_nonneg (mag b)).
  rewrite u32_small by lia. set (rl := bitlen (mag a) + bitlen (mag b)).
  wp_bind. apply wp_extend_length; [done|unfold rl; lia| |].
  - intros m1 Hm1. change (0 <? 0) with false. cbv iota. cbn [digits negative].
    set (dc := digits result ++ replicate _ zero_chunk).
    assert (Z.of_nat (length dc) = Z.max (Z.of_nat (length (digits result))) (1 + rl / 128)) as Hlen.
    { apply length_pad; [done|unfold rl; lia]. }
    assert (map (fun _ => zero_chunk) dc = replicate (length dc) zero_chunk) as ->.
    { clear. induction dc as [|x dc IH]; [done|]. cbn [map length replicate]. by rewrite IH. }
    pose proof (Z.div_mod rl 128 ltac:(lia)) as Hdm. pose proof (Z.mod_pos_bound rl 128 ltac:(lia)) as Hmod.
    assert (length (digits a) + length (digits b) <= length dc + 1)%nat as Hls.
    { assert (forall x, bint_wf x -> 128 * (Z.of_nat (length (digits x)) - 1) <= bitlen (mag x)) as Hx.
      { intros x Hx. destruct (Nat.le_gt_cases (length (digits x)) 1) as [Hc|Hc].
        - pose proof (bitlen_nonneg (mag x)). lia.
        - pose proof (trimmed_length _ (wf_chain _ Hx) (wf_trim _ Hx) Hc). unfold mag. lia. }
      pose proof (Hx a Ha). pose proof (Hx b Hb). unfold rl in *. lia. }
    assert (mag a * mag b < WC (length dc)) as Hfit.
    { pose proof (bitlen_upper _ Hma). pose proof (bitlen_upper _ Hmb).
      apply Z.lt_le_trans with (2 ^ rl).
      - unfold rl. rewrite Z.pow_add_r by lia. nia.
      - unfold WC. apply Z.pow_le_mono_r; lia. }
    destruct (mul_rows_spec (digits b) (wf_chain _ Hb) (wf_ne _ Hb) (digits a)
      (replicate (length dc) zero_chunk) (wf_chain _ Ha) (chain_ok_zeros _)) as (out & E & Ho & Hlo & Hv).
    { rewrite length_replicate. done. }
    rewrite length_replicate, cval_zeros in *. wp_bind. eapply wp_need; [exact E|]. apply wp_ret. left.
    pose proof (ne_length _ Hrn). unfold bint_set_sign. cbn [digits negative]. split_and!; try done.
    + intros ->. simpl in Hlo. lia.
    + intros Hmf. unfold bval at 1, mag. cbn [digits negative]. rewrite Hv; [|by apply Hmf|done].
      rewrite !bint_get_sign_spec by done. rewrite Z.add_0_l. fold (mag a). fold (mag b).
      apply mul_sign; by apply wf_chain.
    + unfold owned. cbn [digits]. rewrite Hlo. unfold dc. rewrite length_app, length_replicate. lia.
  - intros Ho m1 Hm1. apply wp_ret. by right.
Qed.
End mul.
