(* ===== verification/BintBits.v ===== *)
(** Bit operations of bint.c: test, set, clear, or, and, bic, xor. *)
From S2P Require Import Prelude Bint BintOps BintDigits BintMag BintLen BintArith.

(** * Single bits *)
Lemma dval_testbit l pos :
  digs l -> 0 <= pos < 32 * Z.of_nat (length l) ->
  Z.testbit (dval l) pos = Z.testbit (l !!! Z.to_nat (pos / 32)) (pos mod 32).
Proof.
  intros Hl. revert pos. induction Hl as [|d l Hd Hl IH]; intros pos Hp; cbn [length] in Hp; [simpl in Hp; lia|].
  cbn [dval]. rewrite testbit_join by (unfold digit in Hd; lia).
  destruct (Z.ltb_spec pos 32) as [Hlt|Hge].
  - rewrite Z.div_small, Z.mod_small by lia. done.
  - rewrite IH by lia. replace pos with ((pos - 32) + 1 * 32) at 3 4 by lia.
    rewrite Z.div_add, Z_mod_plus_full by lia. pose proof (Z.div_pos (pos - 32) 32).
    replace (Z.to_nat ((pos - 32) / 32 + 1)) with (S (Z.to_nat ((pos - 32) / 32))) by lia. done.
Qed.

Lemma chunk_testbit c pos :
  chunk_ok c -> 0 <= pos < 128 ->
  Z.testbit (dval c) pos = Z.testbit (c !!! Z.to_nat (pos / 32)) (pos mod 32).
Proof. intros [Hl Hd] Hp. apply dval_testbit; [done|]. rewrite Hl. unfold BINT_CHUNK_SIZE. lia. Qed.

Lemma pos_div pos : 0 <= pos < 128 ->
  (Z.to_nat (pos / 32) < BINT_CHUNK_SIZE)%nat /\ 0 <= pos mod 32 < 32 /\
  W (Z.to_nat (pos / 32)) * 2 ^ (pos mod 32) = 2 ^ pos.
Proof.
  intros Hp. pose proof (Z.div_pos pos 32 ltac:(lia) ltac:(lia)).
  pose proof (Z.div_lt_upper_bound pos 32 4 ltac:(lia) ltac:(lia)).
  pose proof (Z.mod_pos_bound pos 32 ltac:(lia)). split_and!; try lia.
  - unfold BINT_CHUNK_SIZE. lia.
  - unfold W. rewrite <- Z.pow_add_r by lia. f_equal. pose proof (Z.div_mod pos 32). lia.
Qed.

Lemma bit_get_chain_spec : forall c pos, chain_ok c -> 0 <= pos ->
  bit_get_chain c pos = Z.b2z (Z.testbit (cval c) pos).
Proof.
  induction c as [|x c IH]; intros pos Hc Hp; cbn [bit_get_chain cval]; [by rewrite Z.bits_0|].
  apply Forall_cons in Hc as [Hx Hc]. rewrite testbit_join by (done || by apply chunk_ok_bound).
  change CHUNK_BITS with 128. unfold COMPONENT_BITS.
  destruct (Z.leb_spec 128 pos) as [Hl|Hl], (Z.ltb_spec pos 128) as [Hl'|Hl']; try lia.
  - apply IH; [done|lia].
  - rewrite chunk_testbit by (done || lia). rewrite Z.shiftl_1_l, truth_land_bit.
    + by destruct (Z.testbit _ _).
    + apply Z.mod_pos_bound. lia.
Qed.

Lemma setbit_digit d j : digit d -> 0 <= j < 32 -> digit (Z.setbit d j).
Proof.
  intros Hd Hj. unfold digit in *. rewrite setbit_add by lia.
  pose proof (Z.pow_pos_nonneg 2 j ltac:(lia) ltac:(lia)). split; [destruct (Z.testbit d j); lia|].
  assert (Z.setbit d j = Z.setbit d j mod 2 ^ 32) as E.
  { apply Z.bits_inj'. intros k Hk. destruct (Z.lt_ge_cases k 32) as [Hl|Hl].
    - by rewrite Z.mod_pow2_bits_low.
    - rewrite Z.mod_pow2_bits_high by lia. rewrite Z.setbit_eqb by lia.
      rewrite (testbit_high 32 d k) by lia. destruct (Z.eqb_spec j k); [lia|done]. }
  rewrite <- setbit_add, E by lia. apply Z.mod_pos_bound. lia.
Qed.

Lemma set_bit_spec pos c : chunk_ok c -> 0 <= pos < 128 ->
  chunk_ok (set_bit pos c) /\ dval (set_bit pos c) = Z.setbit (dval c) pos.
Proof.
  intros Hc Hp. destruct (pos_div pos Hp) as (Hk & Hj & Hw). unfold set_bit, COMPONENT_BITS.
  set (k := Z.to_nat (pos / 32)) in *. pose proof (chunk_ok_digit c k Hc Hk) as Hd.
  split; [auto with bint|]. change (Z.lor ?d (Z.shiftl 1 ?j)) with (Z.setbit d j).
  rewrite u32_small by (apply setbit_digit; [done|lia]).
  rewrite chunk_insert_val, !setbit_add by (done || lia).
  rewrite chunk_testbit by done. fold k. destruct (Z.testbit _ _); lia.
Qed.

Lemma cval_setbit_low x c pos : chunk_ok x -> 0 <= pos < 128 ->
  Z.setbit (dval x + 2 ^ 128 * cval c) pos = Z.setbit (dval x) pos + 2 ^ 128 * cval c.
Proof.
  intros Hx Hp. rewrite !setbit_add by lia. rewrite testbit_join by (lia || by apply chunk_ok_bound).
  destruct (Z.ltb_spec pos 128); [|lia]. lia.
Qed.

Lemma cval_setbit_high x v pos : chunk_ok x -> 128 <= pos ->
  Z.setbit (dval x + 2 ^ 128 * v) pos = dval x + 2 ^ 128 * Z.setbit v (pos - 128).
Proof.
  intros Hx Hp. rewrite !setbit_add by lia. rewrite testbit_join by (lia || by apply chunk_ok_bound).
  destruct (Z.ltb_spec pos 128); [lia|]. replace pos with (128 + (pos - 128)) at 2 by lia.
  rewrite Z.pow_add_r by lia. destruct (Z.testbit _ _); lia.
Qed.

Lemma on_last_snoc f c x : on_last f (c ++ [x]) = c ++ [f x].
Proof. induction c as [|y c IH]; [done|]. cbn [app on_last]. rewrite IH. by destruct c. Qed.

Lemma trimmed_snoc c x : dval x <> 0 -> trimmed (c ++ [x]).
Proof. intros H. right. eauto. Qed.

Lemma trimmed_cons x y c : trimmed (x :: y :: c) <-> exists c' top, y :: c = c' ++ [top] /\ dval top <> 0.
Proof.
  split.
  - intros [H|([|z c'] & top & E & Ht)]; [simpl in H; lia|done|]. injection E as -> E. eauto.
  - intros (c' & top & E & Ht). right. exists (x :: c'), top. by rewrite E.
Qed.

Lemma trimmed_cons_ne x c : (exists c' top, c = c' ++ [top] /\ dval top <> 0) -> trimmed (x :: c).
Proof. intros (c' & top & -> & Ht). right. exists (x :: c'), top. done. Qed.

(** Setting a bit makes a number positive. *)
Lemma setbit_pos v n : 0 <= v -> 0 <= n -> 0 < Z.setbit v n.
Proof.
  intros Hv Hn. rewrite setbit_add by done. pose proof (Z.pow_pos_nonneg 2 n).
  destruct (Z.testbit v n) eqn:E; [|lia]. destruct (decide (v = 0)) as [->|]; [by rewrite Z.bits_0 in E|lia].
Qed.

Section bits.
Context (malloc_ok : nat -> bool).

(** [last_ne c]: the last chunk of [c] is not zero. *)
Definition last_ne (c : list chunk) : Prop := exists c' top, c = c' ++ [top] /\ dval top <> 0.

Lemma last_ne_cons x c : c <> [] -> last_ne (x :: c) <-> last_ne c.
Proof.
  intros Hne. split.
  - intros ([|z c'] & top & E & Ht); [by injection E as -> ->|]. injection E as -> ->. by exists c', top.
  - intros (c' & top & -> & Ht). by exists (x :: c'), top.
Qed.

Lemma last_ne_single x : last_ne [x] <-> dval x <> 0.
Proof.
  split; [|by exists [], x]. intros (c' & top & E & Ht). destruct c' as [|y [|]]; by injection E as ->.
Qed.

Lemma wp_bit_set_chain : forall c pos m Q,
  chain_ok c -> c <> [] -> 0 <= pos ->
  (forall c' m', chain_ok c' -> c' <> [] -> cval c' = Z.setbit (cval c) pos ->
     ((1 < length c)%nat -> last_ne c -> last_ne c') -> ((length c < length c')%nat -> last_ne c') ->
     (length c <= length c')%nat ->
     (live m' + length c)%nat = (live m + length c')%nat -> Q (c', 0) m') ->
  (oom malloc_ok -> forall m', live m' = live m -> Q (c, -1) m') ->
  wp (bit_set_chain malloc_ok c pos) m Q.
Proof.
  induction c as [|x c IH]; intros pos m Q Hc Hne Hp H1 H2; [done|].
  apply Forall_cons in Hc as [Hx Hc]. destruct c as [|y c].
  - cbn [bit_set_chain]. change CHUNK_BITS with 128. destruct (Z.leb_spec 128 pos) as [Hl|Hl].
    + pose proof (Z.div_mod pos 128 ltac:(lia)) as Hdm. pose proof (Z.mod_pos_bound pos 128 ltac:(lia)) as Hmod.
      wp_bind. apply wp_alloc_chain.
      * intros m1 Hm1. pose proof (Z.div_le_lower_bound pos 128 1 ltac:(lia) ltac:(lia)).
        destruct (Z.to_nat (pos / 128)) as [|n] eqn:En; [lia|].
        assert (replicate (S n) zero_chunk = replicate n zero_chunk ++ [zero_chunk]) as Er.
        { apply replicate_S_end. }
        destruct (replicate (S n) zero_chunk) as [|z zs] eqn:Ez; [done|]. rewrite Er.
        apply wp_ret. rewrite on_last_snoc.
        destruct (set_bit_spec (pos mod 128) zero_chunk zero_chunk_ok ltac:(lia)) as [Ho Hv].
        rewrite zero_chunk_val in Hv. pose proof (setbit_pos 0 (pos mod 128) ltac:(lia) ltac:(lia)).
        assert (last_ne (x :: replicate n zero_chunk ++ [set_bit (pos mod 128) zero_chunk])) as Hln.
        { exists (x :: replicate n zero_chunk), (set_bit (pos mod 128) zero_chunk). split; [done|lia]. }
        apply H1; try done.
        -- constructor; [done|]. apply Forall_app_2; [apply chain_ok_zeros|by constructor].
        -- cbn [cval]. rewrite cval_setbit_high by (done || lia).
           rewrite cval_app, cval_zeros, length_replicate. cbn [cval]. rewrite Hv, !setbit_add, !Z.bits_0 by lia.
           replace (pos - 128) with (128 * Z.of_nat n + pos mod 128) by lia.
           rewrite Z.pow_add_r by lia. lia.
        -- cbn [length]. lia.
        -- cbn [length]. rewrite length_app, length_replicate. cbn [length]. lia.
      * intros Ho m1 Hm1. apply wp_ret. by apply H2.
    + apply wp_ret. destruct (set_bit_spec pos x Hx ltac:(lia)) as [Ho Hv].
      apply H1; try done; cbn [length]; try lia; [by constructor|].
      change (cval [?a]) with (dval a + 2 ^ 128 * cval []).
      by rewrite cval_setbit_low, Hv by (done || lia).
  - assert (bit_set_chain malloc_ok (x :: y :: c) pos =
      (if CHUNK_BITS <=? pos then
        '(next, rc) ← bit_set_chain malloc_ok (y :: c) (pos - CHUNK_BITS); ret (x :: next, rc)
      else ret (set_bit pos x :: y :: c, 0))) as -> by done.
    change CHUNK_BITS with 128. destruct (Z.leb_spec 128 pos) as [Hl|Hl].
    + wp_bind. apply IH; [done|done|lia| |].
      * intros c' m1 Hc' Hne' Hv Ht1 Ht2 Hlen Hlive. apply wp_ret. apply H1; try done.
        -- by constructor.
        -- change (cval (x :: c')) with (dval x + 2 ^ 128 * cval c').
           change (cval (x :: y :: c)) with (dval x + 2 ^ 128 * cval (y :: c)).
           rewrite cval_setbit_high by (done || lia). by rewrite Hv.
        -- intros _ Hln. rewrite last_ne_cons in Hln by done. rewrite last_ne_cons by done.
           destruct (Nat.le_gt_cases (length c') (length (y :: c))) as [Hle|Hgt]; [|by apply Ht2].
           destruct c as [|z c]; [|apply Ht1; [simpl; lia|done]].
           destruct c' as [|w [|]]; [done| |simpl in Hle; lia]. apply last_ne_single.
           cbn [cval] in Hv. rewrite !Z.mul_0_r, !Z.add_0_r in Hv. rewrite Hv.
           apply Forall_cons in Hc as [Hy _]. apply chunk_ok_bound in Hy.
           pose proof (setbit_pos (dval y) (pos - 128) ltac:(lia) ltac:(lia)). lia.
        -- intros Hlt. rewrite last_ne_cons by done. apply Ht2. cbn [length] in *. lia.
        -- cbn [length] in *. lia.
        -- cbn [length] in *. lia.
      * intros Ho m1 Hm1. apply wp_ret. by apply H2.
    + apply wp_ret. destruct (set_bit_spec pos x Hx ltac:(lia)) as [Ho Hv].
      apply H1; try done; try (cbn [length]; lia); [by constructor| |].
      * rewrite (cval_cons (set_bit pos x)), (cval_cons x).
        by rewrite cval_setbit_low, Hv by (done || lia).
      * intros _. by rewrite (last_ne_cons x), (last_ne_cons (set_bit pos x)).
Qed.

Lemma last_ne_trimmed c : last_ne c -> trimmed c.
Proof. intros H. by right. Qed.

Lemma wp_bint_bit_set b pos m :
  bint_wf b -> 0 <= pos ->
  wp (bint_bit_set malloc_ok b pos) m (outcome malloc_ok b m (fun b' =>
    negative b' = negative b /\ mag b' = Z.setbit (mag b) pos)).
Proof.
  intros Hb Hp. unfold bint_bit_set. wp_bind.
  apply wp_bit_set_chain; [apply Hb|apply Hb|done| |].
  - intros c m1 Hc Hne Hv Ht1 Ht2 Hlen Hlive. apply wp_ret. left. split_and!; try done.
    + split; cbn [digits]; [done|done|].
      destruct (wf_trim _ Hb) as [Hl|Ht].
      * destruct (Nat.le_gt_cases (length c) 1) as [|Hgt]; [by left|]. apply last_ne_trimmed, Ht2. lia.
      * destruct (Nat.le_gt_cases (length c) 1) as [|Hgt]; [by left|].
        destruct (Nat.le_gt_cases (length (digits b)) 1); apply last_ne_trimmed; [apply Ht2; lia|by apply Ht1].
    + unfold owned. cbn [digits]. pose proof (ne_length _ Hne). pose proof (ne_length _ (wf_ne _ Hb)). lia.
  - intros Ho m1 Hm1. apply wp_ret. right. by destruct b.
Qed.
End bits.

(** * Clearing a bit *)
Lemma clearbit_digit d j : digit d -> 0 <= j < 32 ->
  Z.land d (u32 (Z.lnot (Z.shiftl 1 j))) = Z.clearbit d j /\ digit (Z.clearbit d j).
Proof.
  intros Hd Hj. unfold digit in Hd. split.
  - apply Z.bits_inj'. intros k Hk. rewrite Z.clearbit_eqb, Z.land_spec. unfold u32.
    destruct (Z.lt_ge_cases k 32) as [Hl|Hl].
    + rewrite Z.mod_pow2_bits_low, Z.lnot_spec, Z.shiftl_1_l, Z.pow2_bits_eqb by lia. done.
    + rewrite (testbit_high 32 d k) by lia. done.
  - unfold digit. rewrite clearbit_sub by lia. pose proof (Z.pow_pos_nonneg 2 j ltac:(lia) ltac:(lia)).
    split; [|destruct (Z.testbit d j); lia].
    rewrite <- clearbit_sub by lia. unfold Z.clearbit. apply Z.ldiff_nonneg. lia.
Qed.

Lemma bit_clear_chain_spec : forall c pos,
  chain_ok c -> 0 <= pos ->
  let '(c', last) := bit_clear_chain c pos in
  chain_ok c' /\ length c' = length c /\ cval c' = Z.clearbit (cval c) pos /\
  (last = false -> last_ne c -> last_ne c').
Proof.
  induction c as [|x c IH]; intros pos Hc Hp; cbn [bit_clear_chain].
  - split_and!; [constructor|done| |done]. cbn [cval]. by rewrite clearbit_sub, Z.bits_0.
  - apply Forall_cons in Hc as [Hx Hc]. change CHUNK_BITS with 128.
    destruct (Z.leb_spec 128 pos) as [Hl|Hl].
    + specialize (IH (pos - 128) Hc ltac:(lia)). destruct (bit_clear_chain c (pos - 128)) as [c' last].
      destruct IH as (H1 & H2 & H3 & H4). split_and!; [by constructor|cbn [length]; by rewrite H2| |].
      * rewrite !cval_cons, H3, !clearbit_sub by lia.
        rewrite testbit_join by (lia || by apply chunk_ok_bound).
        destruct (Z.ltb_spec pos 128); [lia|].
        assert (2 ^ pos = 2 ^ 128 * 2 ^ (pos - 128)) as ->.
        { rewrite <- Z.pow_add_r by lia. f_equal. lia. }
        destruct (Z.testbit _ _); lia.
      * intros E Hln. destruct c as [|y c]; [by destruct c'|].
        destruct c' as [|y' c']; [done|]. rewrite last_ne_cons in * by done. by apply H4.
    + unfold COMPONENT_BITS. destruct (pos_div pos ltac:(lia)) as (Hk & Hj & Hw).
      set (k := Z.to_nat (pos / 32)) in *. pose proof (chunk_ok_digit x k Hx Hk) as Hd.
      destruct (clearbit_digit (x !!! k) (pos mod 32) Hd Hj) as [-> Hcd].
      split_and!; [constructor; [auto with bint|done]|done| |].
      * rewrite !cval_cons, chunk_insert_val, !clearbit_sub by (done || lia).
        rewrite testbit_join by (lia || by apply chunk_ok_bound).
        destruct (Z.ltb_spec pos 128); [|lia]. rewrite chunk_testbit by (done || lia). fold k.
        destruct (Z.testbit _ _); lia.
      * destruct c as [|y c]; [done|]. intros _ Hln. rewrite last_ne_cons in * by done. done.
Qed.

Lemma wp_bint_bit_clear b pos m Q :
  bint_wf b -> 0 <= pos -> (owned b <= live m)%nat ->
  (forall b' m', bint_wf b' -> negative b' = negative b -> mag b' = Z.clearbit (mag b) pos ->
     (live m' + owned b)%nat = (live m + owned b')%nat -> Q b' m') ->
  wp (bint_bit_clear b pos) m Q.
Proof.
  intros Hb Hp Hl HQ. unfold bint_bit_clear.
  pose proof (bit_clear_chain_spec (digits b) pos (wf_chain _ Hb) Hp) as Hs.
  destruct (bit_clear_chain (digits b) pos) as [c last]. destruct Hs as (Hc & Hlen & Hv & Ht).
  pose proof (ne_length _ (wf_ne _ Hb)) as Hlb.
  assert (c <> []) as Hne by (intros ->; simpl in Hlen; lia).
  destruct last.
  - apply wp_trim; cbn [digits negative]; [done|done|unfold owned in *; cbn [digits]; by rewrite Hlen|].
    intros b' z m' Hneg E Hz Hne' Htr Hlive.
    destruct (trimmed_wf (mk_bint (negative b) c) b' z) as [Hwf Hmag]; try done.
    apply HQ; [done|done|by rewrite Hmag|]. unfold owned. apply (f_equal length) in E.
    rewrite length_app in E. pose proof (ne_length _ Hne'). lia.
  - apply wp_ret. apply HQ; try done.
    + split; cbn [digits]; [done|done|]. destruct (wf_trim _ Hb) as [Hl1|Hl1].
      * left. by rewrite Hlen.
      * right. by apply Ht.
    + unfold owned. cbn [digits]. lia.
Qed.

(** * Bitwise operations *)

(** A bitwise operation with no bit out of nothing. *)
Record bitwise (op : Z -> Z -> Z) (f : bool -> bool -> bool) : Prop := {
  bw_spec a b n : 0 <= n -> Z.testbit (op a b) n = f (Z.testbit a n) (Z.testbit b n);
  bw_00 : f false false = false;
}.

Lemma bitwise_lor : bitwise Z.lor orb.
Proof. split; [intros; apply Z.lor_spec|done]. Qed.
Lemma bitwise_land : bitwise Z.land andb.
Proof. split; [intros; apply Z.land_spec|done]. Qed.
Lemma bitwise_lxor : bitwise Z.lxor xorb.
Proof. split; [intros; apply Z.lxor_spec|done]. Qed.
Lemma bitwise_ldiff : bitwise Z.ldiff (fun a b => a && negb b).
Proof. split; [intros; apply Z.ldiff_spec|done]. Qed.

Section bitwise.
Context (op : Z -> Z -> Z) (f : bool -> bool -> bool) (Hop : bitwise op f).

Lemma bw_bound k a b : 0 <= k -> 0 <= a < 2 ^ k -> 0 <= b < 2 ^ k -> 0 <= op a b < 2 ^ k.
Proof.
  intros Hk Ha Hb. assert (op a b = op a b mod 2 ^ k) as ->; [|apply Z.mod_pos_bound; lia].
  apply Z.bits_inj'. intros n Hn. destruct (Z.lt_ge_cases n k) as [Hl|Hl].
  - by rewrite Z.mod_pow2_bits_low.
  - rewrite Z.mod_pow2_bits_high, (bw_spec _ _ Hop) by lia.
    rewrite (testbit_high k a), (testbit_high k b) by lia. apply (bw_00 _ _ Hop).
Qed.

Lemma bw_join k a b v w : 0 <= k -> 0 <= a < 2 ^ k -> 0 <= b < 2 ^ k ->
  op (a + 2 ^ k * v) (b + 2 ^ k * w) = op a b + 2 ^ k * op v w.
Proof.
  intros Hk Ha Hb. apply Z.bits_inj'. intros n Hn. rewrite (bw_spec _ _ Hop) by done.
  pose proof (bw_bound k a b Hk Ha Hb). rewrite !testbit_join by done.
  destruct (Z.ltb_spec n k); rewrite (bw_spec _ _ Hop) by lia; done.
Qed.

Lemma bw_zero : op 0 0 = 0.
Proof.
  apply Z.bits_inj'. intros n Hn. rewrite (bw_spec _ _ Hop), !Z.bits_0 by done. apply (bw_00 _ _ Hop).
Qed.

Lemma bw_zip : forall l k, digs l -> digs k -> length l = length k ->
  digs (zip_with op l k) /\ dval (zip_with op l k) = op (dval l) (dval k).
Proof.
  intros l k Hl. revert k. induction Hl as [|x l Hx Hl IH]; intros [|y k] Hk Hlen; try done.
  - cbn. split; [constructor|symmetry; apply bw_zero].
  - apply Forall_cons in Hk as [Hy Hk]. injection Hlen as Hlen. destruct (IH k Hk Hlen) as [H1 H2].
    cbn [zip_with dval]. unfold digit in *. rewrite H2. split.
    + constructor; [by apply (bw_bound 32)|done].
    + by rewrite (bw_join 32).
Qed.

Lemma bitop_chunk_zip op' d s : chunk_ok d -> chunk_ok s ->
  (forall x y, digit x -> digit y -> u32 (op' x y) = op x y) ->
  bitop_chunk op' d s = (zip_with op d s, chunk_is_zero (zip_with op d s)).
Proof.
  intros Hd Hs Heq. unfold bitop_chunk.
  for_inv (fun i '(r, nt) => length r = 4%nat /\ take i r = zip_with op (take i d) (take i s) /\
    drop i r = drop i d /\ nt = chunk_is_zero (zip_with op (take i d) (take i s))) H.
  - split_and!; [apply Hd|done|done|done].
  - intros i [r nt] [_ Hi] (Hl & E1 & E2 & E3).
    pose proof (chunk_ok_digit d i Hd Hi) as Hdi. pose proof (chunk_ok_digit s i Hs Hi) as Hsi.
    unfold BINT_CHUNK_SIZE in Hi. pose proof (proj1 Hd) as Hld. pose proof (proj1 Hs) as Hls.
    unfold BINT_CHUNK_SIZE in Hld, Hls.
    assert (r !!! i = d !!! i) as ->.
    { rewrite <- (Nat.add_0_r i), <- !lookup_total_drop. by rewrite E2. }
    rewrite Heq by done.
    assert (zip_with op (take (S i) d) (take (S i) s) =
      zip_with op (take i d) (take i s) ++ [op (d !!! i) (s !!! i)]) as Ez.
    { rewrite (take_S_r d i (d !!! i)), (take_S_r s i (s !!! i)) by (apply list_lookup_lookup_total_lt; lia).
      rewrite zip_with_app by (rewrite !length_take; lia). done. }
    split_and!.
    + by rewrite length_insert.
    + rewrite (take_S_r _ i (op (d !!! i) (s !!! i))) by (apply list_lookup_insert_eq; lia).
      by rewrite take_insert_ge, E1, Ez by lia.
    + rewrite drop_insert_lt by lia. replace (S i) with (i + 1)%nat by lia.
      by rewrite <- !drop_drop, E2.
    + rewrite Ez. unfold chunk_is_zero in *. rewrite forallb_app, E3. cbn [forallb].
      unfold truth. destruct (op (d !!! i) (s !!! i) =? 0); cbn [negb andb];
        [by rewrite andb_true_r|by rewrite andb_false_r].
  - intros [r nt] (Hl & E1 & E2 & E3). rewrite (chunk_take d Hd), (chunk_take s Hs) in *.
    unfold BINT_CHUNK_SIZE in *. rewrite take_ge in E1 by lia. by subst.
Qed.

(** The result over the common part of two chains. *)
Definition zip_chunks (dc sc : list chunk) : list chunk := zip_with (zip_with op) dc sc.

Lemma chunk_zip d s : chunk_ok d -> chunk_ok s ->
  chunk_ok (zip_with op d s) /\ dval (zip_with op d s) = op (dval d) (dval s).
Proof.
  intros [Hl1 Hd] [Hl2 Hs]. destruct (bw_zip d s Hd Hs ltac:(congruence)) as [H1 H2].
  split; [split; [|done]|done]. rewrite length_zip_with_l; [done|lia].
Qed.

Lemma zip_chunks_spec : forall dc sc, chain_ok dc -> chain_ok sc -> length dc = length sc ->
  chain_ok (zip_chunks dc sc) /\ length (zip_chunks dc sc) = length sc /\
  cval (zip_chunks dc sc) = op (cval dc) (cval sc).
Proof.
  intros dc sc Hd. revert sc. induction Hd as [|d dc Hd Hdc IH]; intros [|s sc] Hs Hl; try done.
  - split_and!; [constructor|done|]. cbn. symmetry. apply bw_zero.
  - apply Forall_cons in Hs as [Hs Hsc]. injection Hl as Hl. destruct (IH sc Hsc Hl) as (H1 & H2 & H3).
    destruct (chunk_zip d s Hd Hs) as [H4 H5]. cbn [zip_chunks zip_with]. fold (zip_chunks dc sc).
    split_and!; [by constructor|cbn [length]; by rewrite H2|].
    rewrite !cval_cons, H3, H5. by rewrite (bw_join 128) by (lia || by apply chunk_ok_bound).
Qed.
End bitwise.

(** [need_trim] after the loop over [z]. *)
Definition trim_flag (z : list chunk) (nt : bool) : bool :=
  match last z with Some top => chunk_is_zero top | None => nt end.

Lemma trim_flag_cons d z nt : trim_flag (d :: z) nt = trim_flag z (chunk_is_zero d).
Proof. unfold trim_flag. destruct z as [|x z]; [done|]. rewrite last_cons_cons.
  destruct (last (x :: z)) eqn:E; [done|]. by apply last_None in E. Qed.

Lemma trim_flag_trimmed z nt : chain_ok z -> z <> [] -> trim_flag z nt = false -> last_ne z.
Proof.
  intros Hz Hne Ht. unfold trim_flag in Ht. destruct (last z) as [top|] eqn:E; [|by apply last_None in E].
  apply last_Some in E as [z' ->]. exists z', top. split; [done|]. intros E0.
  apply Forall_app in Hz as [_ Hz]. apply Forall_cons in Hz as [Ht' _].
  apply chunk_is_zero_spec in E0; [congruence|done].
Qed.

Lemma last_ne_lower c : chain_ok c -> c <> [] -> WC (length c - 1) <= cval c -> last_ne c.
Proof.
  intros Hc Hne Hle. destruct (exists_last Hne) as (c' & top & ->). exists c', top. split; [done|].
  intros E0. rewrite cval_app in Hle. apply Forall_app in Hc as [Hc' _]. cbn [cval] in Hle.
  rewrite E0, length_app in Hle. cbn [length] in Hle. replace (length c' + 1 - 1)%nat with (length c') in Hle by lia.
  pose proof (chain_ok_bound c' Hc'). unfold WC in Hle. lia.
Qed.

Lemma last_ne_app c d : d <> [] -> last_ne (c ++ d) <-> last_ne d.
Proof.
  intros Hd. split.
  - destruct (exists_last Hd) as (d' & top & ->). intros (c' & top' & E & Ht).
    rewrite app_assoc in E. apply app_inj_2 in E as [_ E]; [|done]. injection E as <-. by exists d', top.
  - intros (d' & top & -> & Ht). exists (c ++ d'), top. by rewrite app_assoc.
Qed.

Lemma lor_ge a b : 0 <= a -> b <= Z.lor a b.
Proof.
  intros Ha. assert (Z.lor a b - b = Z.ldiff (Z.lor a b) b) as E.
  { apply Z.sub_nocarry_ldiff. apply Z.bits_inj'. intros n Hn.
    rewrite Z.ldiff_spec, Z.lor_spec, Z.bits_0. by destruct (Z.testbit a n), (Z.testbit b n). }
  assert (Z.lor a b - b = Z.ldiff a b) as E'.
  { rewrite E. apply Z.bits_inj'. intros n Hn.
    rewrite !Z.ldiff_spec, Z.lor_spec. by destruct (Z.testbit a n), (Z.testbit b n). }
  assert (0 <= Z.ldiff a b) by (apply Z.ldiff_nonneg; lia). lia.
Qed.

Section bitops.
Context (malloc_ok : nat -> bool).

Lemma chain_length_spec c : Z.of_nat (length c) < 2 ^ 32 -> chain_length c = Z.of_nat (length c).
Proof.
  induction c as [|x c IH]; intros H; [done|]. cbn [chain_length length] in *.
  rewrite IH by lia. rewrite u32_small; lia.
Qed.

Lemma wp_extend_like : forall dc sc m Q,
  dc <> [] -> sc <> [] -> Z.of_nat (length sc) < 2 ^ 32 ->
  (forall m', live m' = (live m + (length sc - length dc))%nat ->
     Q (dc ++ replicate (length sc - length dc) zero_chunk, 0) m') ->
  (oom malloc_ok -> forall m', live m' = live m -> Q (dc, -1) m') ->
  wp (extend_like malloc_ok dc sc) m Q.
Proof.
  induction dc as [|d dc IH]; intros [|s sc] m Q Hd Hs Hl H1 H2; try done.
  cbn [extend_like]. destruct dc as [|d2 dc], sc as [|s2 sc].
  - apply wp_ret. apply H1. simpl. lia.
  - cbn [length] in Hl. wp_bind. rewrite chain_length_spec by (cbn [length]; lia).
    apply wp_alloc_chain; rewrite ?Nat2Z.id.
    + intros m1 Hm1. cbn [length replicate] in *. apply wp_ret. apply H1. lia.
    + intros Ho m1 Hm1. apply wp_ret. by apply H2.
  - apply wp_ret. replace (length [s] - _)%nat with 0%nat in H1 by (simpl; lia).
    cbn [replicate] in H1. rewrite app_nil_r in H1. apply H1. lia.
  - wp_bind. apply IH; [done|done|cbn [length] in *; lia| |].
    + intros m1 Hm1. apply wp_ret. by apply H1.
    + intros Ho m1 Hm1. apply wp_ret. by apply H2.
Qed.

Context (op : Z -> Z -> Z) (f : bool -> bool -> bool) (Hop : bitwise op f).
Context (op' : Z -> Z -> Z) (Heq : forall x y, digit x -> digit y -> u32 (op' x y) = op x y).

(** The common part and the rest of the destination. *)
Definition zip_over (dc sc : list chunk) : list chunk :=
  zip_chunks op (take (length sc) dc) sc ++ drop (length sc) dc.

Lemma wp_bitop_chain : forall dc sc nt m Q,
  chain_ok dc -> chain_ok sc -> (length sc <= length dc)%nat ->
  Q (zip_over dc sc, trim_flag (zip_chunks op (take (length sc) dc) sc) nt) m ->
  wp (bitop_chain op' dc sc nt) m Q.
Proof.
  induction dc as [|d dc IH]; intros [|s sc] nt m Q Hd Hs Hl HQ; cbn [bitop_chain];
    try (simpl in Hl; lia); try by apply wp_ret.
  apply Forall_cons in Hd as [Hd Hdc]. apply Forall_cons in Hs as [Hs Hsc].
  rewrite (bitop_chunk_zip op) by done. wp_bind.
  apply IH; [done|done|simpl in Hl; lia|]. apply wp_ret.
  cbn [length take drop zip_chunks zip_with] in HQ. rewrite trim_flag_cons in HQ. exact HQ.
Qed.

Lemma bic_chain_spec : forall dc sc nt,
  (forall x y, digit x -> digit y -> u32 (Z.land x (u32 (Z.lnot y))) = op x y) ->
  chain_ok dc -> chain_ok sc ->
  bic_chain dc sc nt = (zip_over dc (take (length dc) sc),
    trim_flag (zip_chunks op (take (length sc) dc) (take (length dc) sc)) nt).
Proof.
  intros dc sc nt Hb Hd. revert sc nt. induction Hd as [|d dc Hd Hdc IH]; intros [|s sc] nt Hs;
    cbn [bic_chain]; try done.
  apply Forall_cons in Hs as [Hs Hsc]. rewrite (bitop_chunk_zip op) by done.
  rewrite IH by done. cbn [length take]. unfold zip_over. cbn [length take drop zip_chunks zip_with app].
  by rewrite trim_flag_cons.
Qed.

Lemma zip_over_spec dc sc :
  chain_ok dc -> chain_ok sc -> (length sc <= length dc)%nat -> (forall v, op v 0 = v) ->
  chain_ok (zip_over dc sc) /\ length (zip_over dc sc) = length dc /\
  cval (zip_over dc sc) = op (cval dc) (cval sc).
Proof.
  intros Hd Hs Hl H0. pose proof (Forall_take _ (length sc) _ Hd) as Ht.
  destruct (zip_chunks_spec op f Hop (take (length sc) dc) sc Ht Hs) as (H1 & H2 & H3).
  { rewrite length_take. lia. }
  unfold zip_over. split_and!.
  - apply Forall_app_2; [done|by apply Forall_drop].
  - rewrite length_app, H2, length_drop. lia.
  - rewrite cval_app, H2, H3. pose proof (chain_ok_bound sc Hs) as Hsb.
    pose proof (chain_ok_bound _ Ht) as Htb. rewrite length_take, Nat.min_l in Htb by lia.
    rewrite (cval_split (length sc) dc Hl).
    replace (cval sc) with (cval sc + 2 ^ (128 * Z.of_nat (length sc)) * 0) at 2 by lia.
    unfold WC. rewrite (bw_join op f Hop) by lia. by rewrite H0.
Qed.
End bitops.
