(* ===== verification/BintBitops.v ===== *)
(** The bitwise operations of bint.c on whole numbers. *)
From S2P Require Import Prelude Bint BintOps BintDigits BintMag BintLen BintArith BintBits.

Section ops.
Context (malloc_ok : nat -> bool).

(** Trimming when the flag asks for it. *)
Lemma wp_trim_if (flag : bool) b m Q :
  chain_ok (digits b) -> digits b <> [] -> (owned b <= live m)%nat ->
  (flag = false -> trimmed (digits b)) ->
  (forall b' m', bint_wf b' -> negative b' = negative b -> mag b' = mag b ->
     (live m' + owned b)%nat = (live m + owned b')%nat -> Q b' m') ->
  wp (if flag then trim_chunks b else ret b) m Q.
Proof.
  intros Hc Hne Hl Ht HQ. destruct flag.
  - apply wp_trim; [done|done|done|]. intros b' z m' Hneg E Hz Hne' Htr Hlive.
    destruct (trimmed_wf b b' z) as [Hwf Hmag]; try done. apply HQ; try done.
    unfold owned. apply (f_equal length) in E. rewrite length_app in E.
    pose proof (ne_length _ Hne'). lia.
  - apply wp_ret. apply HQ; try done. split; [done|done|by apply Ht].
Qed.

Lemma wf_last_ne b : bint_wf b -> (1 < length (digits b))%nat -> last_ne (digits b).
Proof. intros Hb Hl. destruct (wf_trim _ Hb) as [|H]; [lia|done]. Qed.

Section op.
Context (op : Z -> Z -> Z) (f : bool -> bool -> bool) (Hop : bitwise op f) (H0 : forall v, op v 0 = v).

(** Where the chain is not trimmed, the flag is set. *)
Lemma zip_over_trimmed dc sc nt :
  chain_ok dc -> chain_ok sc -> sc <> [] -> (length sc <= length dc)%nat ->
  ((length sc < length dc)%nat -> last_ne dc) ->
  trim_flag (zip_chunks op (take (length sc) dc) sc) nt = false -> trimmed (zip_over op dc sc).
Proof.
  intros Hd Hs Hne Hl Hln Hf.
  destruct (zip_chunks_spec op f Hop (take (length sc) dc) sc (Forall_take _ _ _ Hd) Hs) as (H1 & H2 & _).
  { rewrite length_take. lia. }
  pose proof (ne_length _ Hne). right. fold (last_ne (zip_over op dc sc)). unfold zip_over.
  destruct (decide (drop (length sc) dc = [])) as [E|E].
  - rewrite E, app_nil_r. apply (trim_flag_trimmed _ nt); [done| |done]. intros Ez.
    rewrite Ez in H2. simpl in H2. lia.
  - apply last_ne_app; [done|]. assert (length sc < length dc)%nat as Hlt.
    { apply ne_length in E. rewrite length_drop in E. lia. }
    specialize (Hln Hlt). rewrite <- (take_drop (length sc) dc) in Hln. by apply last_ne_app in Hln.
Qed.
End op.

Lemma digit_u32 op f x y : bitwise op f -> digit x -> digit y -> u32 (op x y) = op x y.
Proof. intros Hop Hx Hy. apply u32_small. by apply (bw_bound op f Hop 32). Qed.

Lemma digit_bic x y : digit x -> digit y -> u32 (Z.land x (u32 (Z.lnot y))) = Z.ldiff x y.
Proof.
  intros Hx Hy. unfold digit in *. assert (Z.land x (u32 (Z.lnot y)) = Z.ldiff x y) as ->.
  { apply Z.bits_inj'. intros n Hn. rewrite Z.land_spec, Z.ldiff_spec. unfold u32.
    destruct (Z.lt_ge_cases n 32) as [Hl|Hl].
    - by rewrite Z.mod_pow2_bits_low, Z.lnot_spec by lia.
    - by rewrite (testbit_high 32 x n) by lia. }
  apply u32_small. by apply (bw_bound _ _ bitwise_ldiff 32).
Qed.

(** What [extend_like] leaves behind. *)
Lemma extend_like_facts dst (src : bint) :
  bint_wf dst -> bint_wf src ->
  let n := (length (digits src) - length (digits dst))%nat in
  let dc := digits dst ++ replicate n zero_chunk in
  chain_ok dc /\ cval dc = mag dst /\ (length (digits src) <= length dc)%nat /\
  length dc = (length (digits dst) + n)%nat /\
  ((length (digits src) < length dc)%nat -> last_ne dc).
Proof.
  intros Hd Hs n dc. assert (length dc = (length (digits dst) + n)%nat) as Hl.
  { unfold dc. by rewrite length_app, length_replicate. }
  split_and!; [apply chain_ok_pad, Hd|apply cval_pad|unfold n in *; lia|done|].
  intros Hlt. assert (n = 0)%nat as Hn by (unfold n in *; lia). unfold dc. rewrite Hn.
  cbn [replicate]. rewrite app_nil_r. apply wf_last_ne; [done|].
  pose proof (ne_length _ (wf_ne _ Hs)). rewrite Hn in Hl. lia.
Qed.

Lemma wp_bint_or dst src m :
  bint_wf dst -> bint_wf src -> small dst -> small src -> (owned dst <= live m)%nat ->
  wp (bint_or malloc_ok dst src) m (outcome malloc_ok dst m (fun b =>
    negative b = negative dst /\ mag b = Z.lor (mag dst) (mag src))).
Proof.
  intros Hd Hs Hsd Hss Hl. unfold bint_or, small in *. wp_bind.
  destruct (extend_like_facts dst src Hd Hs) as (Hc & Hv & Hls & Hlc & Hln).
  set (n := (length (digits src) - length (digits dst))%nat) in *.
  set (dc := digits dst ++ replicate n zero_chunk) in *.
  apply wp_extend_like; [apply Hd|apply Hs|lia| |].
  - intros m1 Hm1. fold n dc. change (0 <? 0) with false. cbv iota. wp_bind.
    apply (wp_bitop_chain Z.lor Z.lor); [|done|apply Hs|done|].
    { intros x y. by apply (digit_u32 _ orb), bitwise_lor. }
    apply wp_ret. left.
    destruct (zip_over_spec Z.lor orb bitwise_lor dc (digits src) Hc (wf_chain _ Hs) Hls Z.lor_0_r) as (H1 & H2 & H3).
    pose proof (ne_length _ (wf_ne _ Hd)). pose proof (ne_length _ (wf_ne _ Hs)).
    assert (zip_over Z.lor dc (digits src) <> []) as Hne by (intros E; rewrite E in H2; simpl in H2; lia).
    split_and!; try done.
    + split; cbn [digits]; [done|done|].
      destruct (Nat.le_gt_cases (length dc) 1) as [|Hgt]; [left; lia|]. right.
      fold (last_ne (zip_over Z.lor dc (digits src))).
      destruct (decide (length (digits src) = length dc)) as [E|E].
      * apply last_ne_lower; [done|done|]. rewrite H2, H3, Hv.
        pose proof (trimmed_lower _ (wf_chain _ Hs) (wf_trim _ Hs) ltac:(lia)) as Hlow. rewrite E in Hlow.
        pose proof (lor_ge (mag dst) (cval (digits src)) (mag_nonneg _ (wf_chain _ Hd))). lia.
      * unfold zip_over. assert (drop (length (digits src)) dc <> []) as Hdr.
        { intros Ed%(f_equal length). rewrite length_drop in Ed. simpl in Ed. lia. }
        apply last_ne_app; [done|]. specialize (Hln ltac:(lia)).
        rewrite <- (take_drop (length (digits src)) dc) in Hln. by apply last_ne_app in Hln.
    + unfold mag at 1. cbn [digits]. by rewrite H3, Hv.
    + unfold owned. cbn [digits]. rewrite H2. lia.
  - intros Ho m1 Hm1. apply wp_ret. right. by destruct dst.
Qed.

Lemma wp_bint_xor dst src m :
  bint_wf dst -> bint_wf src -> small dst -> small src -> (owned dst <= live m)%nat ->
  wp (bint_xor malloc_ok dst src) m (outcome malloc_ok dst m (fun b =>
    negative b = negative dst /\ mag b = Z.lxor (mag dst) (mag src))).
Proof.
  intros Hd Hs Hsd Hss Hl. unfold bint_xor, small in *. wp_bind.
  destruct (extend_like_facts dst src Hd Hs) as (Hc & Hv & Hls & Hlc & Hln).
  set (n := (length (digits src) - length (digits dst))%nat) in *.
  set (dc := digits dst ++ replicate n zero_chunk) in *.
  apply wp_extend_like; [apply Hd|apply Hs|lia| |].
  - intros m1 Hm1. fold n dc. change (0 <? 0) with false. cbv iota. wp_bind.
    apply (wp_bitop_chain Z.lxor Z.lxor); [|done|apply Hs|done|].
    { intros x y. by apply (digit_u32 _ xorb), bitwise_lxor. }
    destruct (zip_over_spec Z.lxor xorb bitwise_lxor dc (digits src) Hc (wf_chain _ Hs) Hls Z.lxor_0_r) as (H1 & H2 & H3).
    pose proof (ne_length _ (wf_ne _ Hd)). pose proof (ne_length _ (wf_ne _ Hs)).
    assert (zip_over Z.lxor dc (digits src) <> []) as Hne by (intros E; rewrite E in H2; simpl in H2; lia).
    wp_bind. apply wp_trim_if; cbn [digits negative]; [done|done| | |].
    + unfold owned in *. cbn [digits]. rewrite H2. lia.
    + apply (zip_over_trimmed Z.lxor xorb bitwise_lxor); [done|apply Hs|apply Hs|done|done].
    + intros b' m2 Hwf Hneg Hmag Hlive. apply wp_ret. left. split_and!; try done.
      * rewrite Hmag. unfold mag at 1. cbn [digits]. by rewrite H3, Hv.
      * unfold owned in *. cbn [digits] in *. rewrite H2 in Hlive. lia.
  - intros Ho m1 Hm1. apply wp_ret. right. by destruct dst.
Qed.

(** [bint_and]: the destination is cut to the source. *)
Lemma wp_and_chain : forall dc sc nt m Q,
  chain_ok dc -> chain_ok sc -> sc <> [] -> (length dc - length sc <= live m)%nat ->
  (forall m', (live m' + (length dc - length sc))%nat = live m ->
     let z := zip_chunks Z.land (take (length sc) dc) (take (length dc) sc) in
     Q (z, trim_flag z nt) m') ->
  wp (and_chain dc sc nt) m Q.
Proof.
  induction dc as [|d dc IH]; intros sc nt m Q Hd Hs Hne Hl HQ; cbn [and_chain].
  - destruct sc; [done|]. apply wp_ret. apply HQ. simpl. lia.
  - destruct sc as [|s sc]; [done|]. apply Forall_cons in Hd as [Hd Hdc]. apply Forall_cons in Hs as [Hs Hsc].
    rewrite (bitop_chunk_zip Z.land) by
      first [done | intros x y; by apply (digit_u32 _ andb), bitwise_land].
    destruct sc as [|s2 sc].
    + cbn [length] in Hl. wp_bind. apply wp_destroy_chain; [lia|]. intros m' Hm'. apply wp_ret.
      replace (take (length (d :: dc)) [s]) with [s] in HQ by by destruct dc.
      cbn [length] in HQ. change (take 1 (d :: dc)) with [d] in HQ.
      apply (HQ m'). lia.
    + wp_bind. apply IH; [done|done|done|cbn [length] in *; lia|].
      intros m' Hm'. apply wp_ret. specialize (HQ m'). cbn [length take zip_chunks zip_with] in *.
      rewrite trim_flag_cons in HQ. apply HQ. lia.
Qed.

Lemma cval_take_mod n c : chain_ok c -> (n <= length c)%nat -> cval (take n c) = cval c mod WC n.
Proof.
  intros Hc Hn. rewrite (cval_split n c Hn). pose proof (chain_ok_bound _ (Forall_take _ n _ Hc)) as Hb.
  rewrite length_take, Nat.min_l in Hb by lia. fold (WC n) in Hb.
  rewrite Z.mul_comm, Z_mod_plus_full. by rewrite Z.mod_small.
Qed.

Lemma land_mod n a b : 0 <= n -> 0 <= b < 2 ^ n -> Z.land (a mod 2 ^ n) b = Z.land a b.
Proof.
  intros Hn Hb. apply Z.bits_inj'. intros k Hk. rewrite !Z.land_spec.
  destruct (Z.lt_ge_cases k n); [by rewrite Z.mod_pow2_bits_low|].
  by rewrite (testbit_high n b), !andb_false_r by lia.
Qed.

Lemma wp_bint_and dst src m Q :
  bint_wf dst -> bint_wf src -> (owned dst <= live m)%nat ->
  (forall b' m', bint_wf b' -> negative b' = negative dst -> mag b' = Z.land (mag dst) (mag src) ->
     (live m' + owned dst)%nat = (live m + owned b')%nat -> Q b' m') ->
  wp (bint_and dst src) m Q.
Proof.
  intros Hd Hs Hl HQ. unfold bint_and. wp_bind.
  pose proof (ne_length _ (wf_ne _ Hd)) as Hld. pose proof (ne_length _ (wf_ne _ Hs)) as Hls.
  apply wp_and_chain; [apply Hd|apply Hs|apply Hs|unfold owned in *; lia|].
  intros m1 Hm1. set (n := Nat.min (length (digits src)) (length (digits dst))).
  replace (take (length (digits src)) (digits dst)) with (take n (digits dst)); cycle 1.
  { unfold n. destruct (Nat.min_spec (length (digits src)) (length (digits dst))) as [[? ->]|[? ->]]; [done|].
    by rewrite !take_ge by lia. }
  replace (take (length (digits dst)) (digits src)) with (take n (digits src)); cycle 1.
  { unfold n. destruct (Nat.min_spec (length (digits src)) (length (digits dst))) as [[? ->]|[? ->]]; [|done].
    by rewrite !take_ge by lia. }
  destruct (zip_chunks_spec Z.land andb bitwise_land (take n (digits dst)) (take n (digits src)))
    as (H1 & H2 & H3); [by apply Forall_take, Hd|by apply Forall_take, Hs|rewrite !length_take; lia|].
  cbv zeta. set (z := zip_chunks _ _ _) in *. rewrite length_take in H2.
  assert (length z = n) as Hlz by lia. assert (z <> []) as Hne by (intros E; rewrite E in Hlz; simpl in Hlz; lia).
  apply wp_trim_if; cbn [digits negative]; [done|done| | |].
  - unfold owned in *. cbn [digits]. rewrite Hlz. lia.
  - intros Hf. right. by apply (trim_flag_trimmed _ false).
  - intros b' m2 Hwf Hneg Hmag Hlive. apply HQ; try done.
    + rewrite Hmag. unfold mag at 1. cbn [digits]. rewrite H3, !cval_take_mod by (apply Hd || apply Hs || lia).
      fold (mag dst) (mag src). pose proof (chain_ok_bound _ (wf_chain _ Hd)) as Hbd.
      pose proof (chain_ok_bound _ (wf_chain _ Hs)) as Hbs. fold (mag dst) in Hbd. fold (mag src) in Hbs.
      unfold WC. assert (n = length (digits src) \/ n = length (digits dst)) as [-> | ->] by lia.
      * rewrite (Z.mod_small (mag src)) by done. by apply land_mod; [lia|].
      * rewrite (Z.mod_small (mag dst)) by done. rewrite Z.land_comm, (Z.land_comm (mag dst)).
        by apply land_mod; [lia|].
    + unfold owned in *. cbn [digits] in *. rewrite Hlz in Hlive. lia.
Qed.

Lemma wp_bint_bic dst src m Q :
  bint_wf dst -> bint_wf src -> (owned dst <= live m)%nat ->
  (forall b' m', bint_wf b' -> negative b' = negative dst -> mag b' = Z.ldiff (mag dst) (mag src) ->
     (live m' + owned dst)%nat = (live m + owned b')%nat -> Q b' m') ->
  wp (bint_bic dst src) m Q.
Proof.
  intros Hd Hs Hl HQ. unfold bint_bic.
  rewrite (bic_chain_spec Z.ldiff) by first [apply Hd | apply Hs | apply digit_bic].
  set (sc := take (length (digits dst)) (digits src)).
  pose proof (ne_length _ (wf_ne _ Hd)) as Hld. pose proof (ne_length _ (wf_ne _ Hs)) as Hls.
  assert (length sc = Nat.min (length (digits dst)) (length (digits src))) as Hlsc by apply length_take.
  assert (Hsc : chain_ok sc) by by apply Forall_take, Hs.
  assert (take (length (digits src)) (digits dst) = take (length sc) (digits dst)) as ->.
  { rewrite Hlsc. destruct (Nat.min_spec (length (digits dst)) (length (digits src))) as [[? ->]|[? ->]]; [|done].
    by rewrite !take_ge by lia. }
  destruct (zip_over_spec Z.ldiff _ bitwise_ldiff (digits dst) sc (wf_chain _ Hd) Hsc) as (H1 & H2 & H3);
    [lia|apply Z.ldiff_0_r|].
  apply wp_trim_if; cbn [digits negative]; [done| | | |].
  - intros E. rewrite E in H2. simpl in H2. lia.
  - unfold owned in *. cbn [digits]. by rewrite H2.
  - apply (zip_over_trimmed Z.ldiff _ bitwise_ldiff); [apply Hd|done| |lia|].
    + intros E. rewrite E in Hlsc. simpl in Hlsc. lia.
    + intros Hlt. apply wf_last_ne; [done|lia].
  - intros b' m2 Hwf Hneg Hmag Hlive. apply HQ; try done.
    + rewrite Hmag. unfold mag at 1. cbn [digits]. rewrite H3. fold (mag dst).
      unfold sc. destruct (Nat.le_gt_cases (length (digits src)) (length (digits dst))) as [Hle|Hgt].
      * by rewrite take_ge.
      * rewrite cval_take_mod by (apply Hs || lia). fold (mag src). unfold WC.
        pose proof (chain_ok_bound _ (wf_chain _ Hd)) as Hbd. fold (mag dst) in Hbd.
        apply Z.bits_inj'. intros k Hk. rewrite !Z.ldiff_spec.
        destruct (Z.lt_ge_cases k (128 * Z.of_nat (length (digits dst)))); [by rewrite Z.mod_pow2_bits_low|].
        by rewrite (testbit_high _ (mag dst) k Hbd) by lia.
    + unfold owned in *. cbn [digits] in *. rewrite H2 in Hlive. lia.
Qed.
End ops.
