(* ===== verification/BintShift.v ===== *)
(** Shifts of bint.c. *)
From S2P Require Import Prelude Bint BintOps BintDigits BintMag BintLen BintArith BintMul BintBits.

(** * Bits of one component *)
Lemma lor_low s x c : 0 <= s -> 0 <= c < 2 ^ s -> Z.lor (2 ^ s * x) c = c + 2 ^ s * x.
Proof.
  intros Hs Hc. apply Z.bits_inj'. intros n Hn. rewrite Z.lor_spec, testbit_join by done.
  rewrite Z.mul_comm. destruct (Z.ltb_spec n s) as [Hl|Hl].
  - by rewrite Z.mul_pow2_bits_low.
  - rewrite Z.mul_pow2_bits by done. rewrite (testbit_high s c n) by lia. by rewrite orb_false_r.
Qed.

Lemma shl_digit d s k :
  digit d -> 0 < s < 32 -> 0 <= k < 2 ^ s ->
  let v := Z.lor (u32 (Z.shiftl d s)) k in
  let k' := Z.shiftr d (COMPONENT_BITS - s) in
  digit v /\ 0 <= k' < 2 ^ s /\ v + 2 ^ 32 * k' = 2 ^ s * d + k.
Proof.
  intros Hd Hs Hk v k'. unfold digit, COMPONENT_BITS in *.
  assert (2 ^ 32 = 2 ^ s * 2 ^ (32 - s)) as E32 by (rewrite <- Z.pow_add_r by lia; f_equal; lia).
  pose proof (Z.pow_pos_nonneg 2 s ltac:(lia) ltac:(lia)).
  pose proof (Z.pow_pos_nonneg 2 (32 - s) ltac:(lia) ltac:(lia)).
  assert (u32 (Z.shiftl d s) = 2 ^ s * (d mod 2 ^ (32 - s))) as Eu.
  { unfold u32. rewrite Z.shiftl_mul_pow2, E32 by lia. rewrite Z.mul_comm. apply Zmult_mod_distr_l. }
  assert (v = k + 2 ^ s * (d mod 2 ^ (32 - s))) as Ev.
  { unfold v. rewrite Eu. apply lor_low; lia. }
  assert (k' = d / 2 ^ (32 - s)) as Ek by (unfold k'; apply Z.shiftr_div_pow2; lia).
  pose proof (Z.mod_pos_bound d (2 ^ (32 - s)) ltac:(lia)).
  pose proof (Z.div_mod d (2 ^ (32 - s)) ltac:(lia)) as Hdm.
  assert (0 <= k' < 2 ^ s).
  { rewrite Ek. split; [apply Z.div_pos; lia|]. apply Z.div_lt_upper_bound; [lia|]. nia. }
  rewrite Ev. split_and!; try lia; [nia|]. rewrite Ek. nia.
Qed.

Lemma shr_digit d s k :
  digit d -> 0 < s < 32 -> 0 <= k < 2 ^ s ->
  let carry := k * 2 ^ (32 - s) in
  let v := Z.lor (Z.shiftr d s) carry in
  digit v /\ v = (d + 2 ^ 32 * k) / 2 ^ s /\
  u32 (Z.shiftl (Z.land d (Z.shiftl 1 s - 1)) (COMPONENT_BITS - s)) = (d mod 2 ^ s) * 2 ^ (32 - s).
Proof.
  intros Hd Hs Hk carry v. unfold digit, COMPONENT_BITS in *.
  assert (2 ^ 32 = 2 ^ s * 2 ^ (32 - s)) as E32 by (rewrite <- Z.pow_add_r by lia; f_equal; lia).
  pose proof (Z.pow_pos_nonneg 2 s ltac:(lia) ltac:(lia)).
  pose proof (Z.pow_pos_nonneg 2 (32 - s) ltac:(lia) ltac:(lia)).
  assert (0 <= d / 2 ^ s < 2 ^ (32 - s)) as Hq.
  { split; [apply Z.div_pos; lia|]. apply Z.div_lt_upper_bound; lia. }
  assert (v = d / 2 ^ s + 2 ^ (32 - s) * k) as Ev.
  { unfold v, carry. rewrite Z.shiftr_div_pow2, Z.lor_comm, (Z.mul_comm k) by lia. by apply lor_low; [lia|]. }
  assert (v = (d + 2 ^ 32 * k) / 2 ^ s) as Ev2.
  { rewrite Ev, E32. replace (d + 2 ^ s * 2 ^ (32 - s) * k) with (d + (2 ^ (32 - s) * k) * 2 ^ s) by lia.
    rewrite Z.div_add by lia. lia. }
  split_and!; [nia|nia|done|].
  replace (Z.shiftl 1 s - 1) with (Z.ones s) by by rewrite Z.ones_equiv, Z.shiftl_1_l.
  rewrite Z.land_ones, Z.shiftl_mul_pow2 by lia. pose proof (Z.mod_pos_bound d (2 ^ s) ltac:(lia)).
  apply u32_small. rewrite E32. nia.
Qed.

(** * Components of one chunk *)
Lemma dest4 (c : chunk) : length c = 4%nat -> exists a b d e, c = [a; b; d; e].
Proof. destruct c as [|a [|b [|d [|e [|]]]]]; try done. by exists a, b, d, e. Qed.

Lemma shl_move c data tmp : (c < 4)%nat -> length data = 4%nat -> length tmp = 4%nat ->
  for_up 0 c (fun i next_digits =>
      <[i := data !!! (BINT_CHUNK_SIZE - c + i)%nat]> next_digits) zero_chunk =
    drop (4 - c) data ++ replicate (4 - c) 0 /\
  for_up 0 c (fun i data => <[i := tmp !!! i]> data)
    (for_down c BINT_CHUNK_SIZE (fun i data => <[i := data !!! (i - c)%nat]> data) data) =
    take c tmp ++ take (4 - c) data.
Proof.
  intros Hc Hd Ht. apply dest4 in Hd as (a & b & d & e & ->). apply dest4 in Ht as (a' & b' & d' & e' & ->).
  destruct c as [|[|[|[|]]]]; [done|done|done|done|lia].
Qed.

Lemma shr_move c data tmp : (c < 4)%nat -> length data = 4%nat -> length tmp = 4%nat ->
  for_up 0 c (fun i next_digits =>
      <[(BINT_CHUNK_SIZE - c + i)%nat := data !!! i]> next_digits) zero_chunk =
    replicate (4 - c) 0 ++ take c data /\
  for_up 0 c (fun i data =>
      <[(BINT_CHUNK_SIZE - i - 1)%nat := tmp !!! (BINT_CHUNK_SIZE - i - 1)%nat]> data)
    (for_up c BINT_CHUNK_SIZE (fun i data => <[(i - c)%nat := data !!! i]> data) data) =
    drop c data ++ drop (4 - c) tmp.
Proof.
  intros Hc Hd Ht. apply dest4 in Hd as (a & b & d & e & ->). apply dest4 in Ht as (a' & b' & d' & e' & ->).
  destruct c as [|[|[|[|]]]]; [done|done|done|done|lia].
Qed.

(** * Shifting left *)
Lemma shl_chunk_spec c s data tmp k :
  (c < 4)%nat -> 0 <= s < 32 -> chunk_ok data -> chunk_ok tmp -> dval tmp < W c -> 0 <= k < 2 ^ s ->
  let '(data', tmp', k') := shl_chunk c s data tmp k in
  chunk_ok data' /\ chunk_ok tmp' /\ dval tmp' < W c /\ 0 <= k' < 2 ^ s /\
  dval data' + 2 ^ 128 * (2 ^ s * dval tmp' + k') = (2 ^ s * dval tmp + k) + 2 ^ s * W c * dval data.
Proof.
  intros Hc Hs Hd Ht Htc Hk. pose proof Hd as [Hld Hdd]. pose proof Ht as [Hlt Hdt].
  change BINT_CHUNK_SIZE with 4%nat in Hld, Hlt.
  destruct (shl_move c data tmp Hc Hld Hlt) as [E1 E2]. unfold shl_chunk. rewrite E1, E2.
  set (next := drop (4 - c) data ++ replicate (4 - c) 0). set (d1 := take c tmp ++ take (4 - c) data).
  assert (chunk_ok next) as Hn.
  { split; [|apply Forall_app_2; [by apply digs_drop|apply digs_replicate]].
    unfold next. rewrite length_app, length_drop, length_replicate. change BINT_CHUNK_SIZE with 4%nat. lia. }
  assert (chunk_ok d1) as Hd1.
  { split; [|apply Forall_app_2; by apply digs_take].
    unfold d1. rewrite length_app, !length_take. change BINT_CHUNK_SIZE with 4%nat. lia. }
  assert (dval next = dval (drop (4 - c) data)) as En.
  { unfold next. rewrite dval_app, dval_replicate. lia. }
  assert (dval next < W c) as Hnc.
  { rewrite En. pose proof (dval_bound _ (digs_drop (4 - c) _ Hdd)) as Hb.
    rewrite length_drop in Hb. replace (length data - (4 - c))%nat with c in Hb by lia. lia. }
  assert (dval (take c tmp) = dval tmp) as Ett.
  { pose proof (dval_split c tmp ltac:(lia)) as Hsp. pose proof (dval_bound _ (digs_drop c _ Hdt)).
    pose proof (dval_bound _ (digs_take c _ Hdt)). pose proof (W_pos c).
    assert (dval (drop c tmp) = 0) as E0 by nia.
    rewrite E0 in Hsp. lia. }
  assert (dval d1 + 2 ^ 128 * dval next = dval tmp + W c * dval data) as Ed1.
  { unfold d1. rewrite dval_app, Ett, length_take, Nat.min_l, En by lia.
    rewrite (dval_split (4 - c) data) by lia. change (2 ^ 128) with (W 4).
    replace (W 4) with (W c * W (4 - c)) by (rewrite <- W_add; f_equal; lia). ring. }
  destruct (truth s) eqn:Es.
  - apply truth_spec in Es.
    for_inv (fun i '(r, k') => chunk_ok r /\ 0 <= k' < 2 ^ s /\ drop i r = drop i d1 /\
      dval r + W i * k' = dval d1 + (2 ^ s - 1) * dval (take i d1) + k) H.
    + rewrite dval_take_0, W_0. split_and!; try done; lia.
    + intros i [r k'] [_ Hi] (Hr & Hk' & Edr & E).
      assert (r !!! i = d1 !!! i) as Eri.
      { rewrite <- (Nat.add_0_r i), <- !lookup_total_drop. by rewrite Edr. }
      pose proof (chunk_ok_digit d1 i Hd1 Hi) as Hdi. rewrite Eri.
      destruct (shl_digit (d1 !!! i) s k' Hdi ltac:(lia) Hk') as (H1 & H2 & H3).
      split_and!; [auto with bint|lia|lia| |].
      * rewrite drop_insert_lt by lia. replace (S i) with (i + 1)%nat by lia. by rewrite <- !drop_drop, Edr.
      * rewrite chunk_insert_val, Eri, chunk_take_S, W_S by done.
        revert H3 E. generalize (Z.lor (u32 (Z.shiftl (d1 !!! i) s)) k') as v.
        generalize (Z.shiftr (d1 !!! i) (COMPONENT_BITS - s)) as k2. intros k2 v H3 E. nia.
    + intros [r k'] (Hr & Hk' & _ & E). rewrite chunk_take, W_4 in E by done.
      split_and!; try done; try lia.
  - apply truth_false in Es as ->. change (2 ^ 0) with 1 in *. split_and!; try done; lia.
Qed.

Lemma shl_chain_spec c s : (c < 4)%nat -> 0 <= s < 32 -> forall ch tmp k,
  chain_ok ch -> chunk_ok tmp -> dval tmp < W c -> 0 <= k < 2 ^ s ->
  chain_ok (shl_chain c s ch tmp k) /\ length (shl_chain c s ch tmp k) = length ch /\
  exists p, 0 <= p /\ cval (shl_chain c s ch tmp k) + WC (length ch) * p =
    (2 ^ s * dval tmp + k) + 2 ^ s * W c * cval ch.
Proof.
  intros Hc Hs. induction ch as [|d ch IH]; intros tmp k Hch Ht Htc Hk; cbn [shl_chain].
  - split_and!; [constructor|done|]. exists (2 ^ s * dval tmp + k). pose proof (chunk_ok_bound tmp Ht).
    cbn [length cval]. rewrite WC_0. split; [nia|lia].
  - apply Forall_cons in Hch as [Hd Hch].
    pose proof (shl_chunk_spec c s d tmp k Hc Hs Hd Ht Htc Hk) as Hspec.
    destruct (shl_chunk c s d tmp k) as [[d' tmp'] k']. destruct Hspec as (H1 & H2 & H3 & H4 & E).
    destruct (IH tmp' k' Hch H2 H3 H4) as (H5 & H6 & p & Hp & E2).
    split_and!; [by constructor|cbn [length]; by rewrite H6|]. exists p. split; [done|].
    rewrite !cval_cons. cbn [length]. rewrite WC_S. nia.
Qed.

(** * Shifting right *)
Lemma div_mod_join a q m : 0 < m -> 0 <= q -> (a + m * q) / m = a / m + q.
Proof. intros Hm Hq. rewrite Z.mul_comm, Z.div_add; lia. Qed.

Lemma shr_bits s d1 k :
  0 < s < 32 -> chunk_ok d1 -> 0 <= k < 2 ^ s ->
  let '(r, carry) := for_down 0 BINT_CHUNK_SIZE (fun i '(data, carry) =>
      let d := data !!! i in
      (<[i := Z.lor (Z.shiftr d s) carry]> data,
       u32 (Z.shiftl (Z.land d (Z.shiftl 1 s - 1)) (COMPONENT_BITS - s))))
      (d1, k * 2 ^ (32 - s)) in
  chunk_ok r /\ dval r = (dval d1 + 2 ^ 128 * k) / 2 ^ s /\
  carry = (dval d1 mod 2 ^ s) * 2 ^ (32 - s).
Proof.
  intros Hs Hd Hk. pose proof (Z.pow_pos_nonneg 2 s ltac:(lia) ltac:(lia)) as Hps.
  for_inv (fun i '(r, carry) => chunk_ok r /\ take i r = take i d1 /\ exists k', 0 <= k' < 2 ^ s /\
    carry = k' * 2 ^ (32 - s) /\
    dval (drop i r) = (dval (drop i d1) + W (4 - i) * k) / 2 ^ s /\
    k' = (dval (drop i d1) + W (4 - i) * k) mod 2 ^ s) H.
  - split_and!; [done|done|]. exists k. change BINT_CHUNK_SIZE with 4%nat.
    rewrite !drop_ge by (rewrite (proj1 Hd); done). cbn [dval].
    replace (W (4 - 4)) with 1 by done. rewrite Z.add_0_l, Z.mul_1_l. split_and!; try lia.
    + by rewrite Z.div_small.
    + by rewrite Z.mod_small.
  - intros i [r carry] [_ Hi] (Hr & Etr & k' & Hk' & -> & E1 & E2).
    assert (r !!! i = d1 !!! i) as Eri.
    { assert (take (S i) r !!! i = take (S i) d1 !!! i) as E by by rewrite Etr.
      by rewrite !lookup_total_take_lt in E by lia. }
    pose proof (chunk_ok_digit d1 i Hd Hi) as Hdi. rewrite Eri.
    destruct (shr_digit (d1 !!! i) s k' Hdi Hs Hk') as (H1 & H2 & H3).
    split_and!; [auto with bint| |].
    + rewrite take_insert_ge by lia. assert (take i (take (S i) r) = take i (take (S i) d1)) as E by by rewrite Etr.
      by rewrite !take_take, !Nat.min_l in E by lia.
    + exists ((d1 !!! i) mod 2 ^ s). pose proof (Z.mod_pos_bound (d1 !!! i) (2 ^ s) Hps). change BINT_CHUNK_SIZE with 4%nat in Hi.
      assert (2 ^ 32 = 2 ^ s * 2 ^ (32 - s)) as E32 by (rewrite <- Z.pow_add_r by lia; f_equal; lia).
      assert (dval (drop i d1) + W (4 - i) * k =
        d1 !!! i + 2 ^ 32 * (dval (drop (S i) d1) + W (4 - S i) * k)) as Es.
      { rewrite (dval_drop_S i d1) by (rewrite (proj1 Hd); done).
        replace (4 - i)%nat with (S (4 - S i)) by lia. rewrite W_S. ring. }
      pose proof (dval_bound _ (digs_drop (S i) _ (proj2 Hd))) as Hbd.
      set (X := dval (drop (S i) d1) + W (4 - S i) * k) in *.
      assert (0 <= X) as HX by (pose proof (W_pos (4 - S i)); unfold X; nia).
      split_and!; [lia|lia|exact H3| |].
      * rewrite (dval_drop_S i) by (rewrite length_insert, (proj1 Hr); done).
        rewrite list_lookup_total_insert_eq by (rewrite (proj1 Hr); done).
        rewrite drop_insert_lt, E1, H2, Es by lia.
        rewrite (Z.div_mod X (2 ^ s)) at 2 by lia. rewrite <- E2.
        replace (d1 !!! i + 2 ^ 32 * (2 ^ s * (X / 2 ^ s) + k')) with
          ((d1 !!! i + 2 ^ 32 * k') + 2 ^ s * (2 ^ 32 * (X / 2 ^ s))) by ring.
        rewrite div_mod_join; [lia|lia|]. pose proof (Z.div_pos X (2 ^ s)). lia.
      * rewrite Es, E32. rewrite <- Z.mul_assoc, Z.mul_comm. symmetry.
        rewrite Z.add_comm. rewrite Z.mul_comm, (Z.mul_comm (2 ^ s)). rewrite Z.add_comm. apply Z_mod_plus_full.
  - intros [r carry] (Hr & _ & k' & Hk' & -> & E1 & E2). rewrite !drop_0 in *.
    change (W (4 - 0)) with (2 ^ 128) in *. split_and!; [done|done|]. f_equal. rewrite E2.
    replace (2 ^ 128) with (2 ^ (128 - s) * 2 ^ s) by (rewrite <- Z.pow_add_r by lia; f_equal; lia).
    replace (dval d1 + 2 ^ (128 - s) * 2 ^ s * k) with (dval d1 + (2 ^ (128 - s) * k) * 2 ^ s) by ring.
    apply Z_mod_plus_full.
Qed.

(** The state between two chunks: the low components and bits of the chunk
    above, as one number below [2 ^ (32 * c + s)]. *)
Definition shr_state (c : nat) (s : Z) (tmp : chunk) (carry : Z) (R : Z) : Prop :=
  chunk_ok tmp /\ exists k, 0 <= k < 2 ^ s /\ carry = k * 2 ^ (32 - s) * (if truth s then 1 else 0) /\
    R = dval (drop (4 - c) tmp) + W c * k.

Lemma shr_chunk_spec c s data tmp carry R :
  (c < 4)%nat -> 0 <= s < 32 -> chunk_ok data -> shr_state c s tmp carry R ->
  let '(data', tmp', carry') := shr_chunk c s data tmp carry in
  chunk_ok data' /\ dval data' = (dval data + 2 ^ 128 * R) / (W c * 2 ^ s) /\
  shr_state c s tmp' carry' (dval data mod (W c * 2 ^ s)).
Proof.
  intros Hc Hs Hd (Ht & k & Hk & Hcar & HR). pose proof Hd as [Hld Hdd]. pose proof Ht as [Hlt Hdt].
  change BINT_CHUNK_SIZE with 4%nat in Hld, Hlt.
  destruct (shr_move c data tmp Hc Hld Hlt) as [E1 E2]. unfold shr_chunk. rewrite E1, E2.
  set (next := replicate (4 - c) 0 ++ take c data). set (d1 := drop c data ++ drop (4 - c) tmp).
  assert (chunk_ok next) as Hn.
  { split; [|apply Forall_app_2; [apply digs_replicate|by apply digs_take]].
    unfold next. rewrite length_app, length_take, length_replicate. change BINT_CHUNK_SIZE with 4%nat. lia. }
  assert (chunk_ok d1) as Hd1.
  { split; [|apply Forall_app_2; by apply digs_drop].
    unfold d1. rewrite length_app, !length_drop. change BINT_CHUNK_SIZE with 4%nat. lia. }
  assert (drop (4 - c) next = take c data) as En.
  { unfold next. rewrite drop_app_length'; [done|]. by rewrite length_replicate. }
  pose proof (W_pos c) as HW. pose proof (Z.pow_pos_nonneg 2 s ltac:(lia) ltac:(lia)) as Hps.
  pose proof (dval_split c data ltac:(lia)) as Hsp.
  pose proof (dval_bound _ (digs_take c _ Hdd)) as Htb. rewrite length_take, Nat.min_l in Htb by lia.
  pose proof (dval_bound _ (digs_drop c _ Hdd)) as Hdb.
  set (t := dval (drop (4 - c) tmp)) in *.
  assert (dval d1 = dval (drop c data) + W (4 - c) * t) as Ed1.
  { unfold d1. rewrite dval_app, length_drop. f_equal. f_equal. f_equal. lia. }
  assert (2 ^ 128 = W c * W (4 - c)) as E128.
  { change (2 ^ 128) with (W 4). rewrite <- W_add. f_equal. lia. }
  assert ((dval data + 2 ^ 128 * R) / W c = dval d1 + 2 ^ 128 * k) as Ediv.
  { symmetry. apply Z.div_unique with (dval (take c data)); [lia|]. rewrite HR, Ed1, Hsp, E128. ring. }
  assert (dval data / W c = dval (drop c data)) as Ediv0.
  { symmetry. apply Z.div_unique with (dval (take c data)); [lia|]. rewrite Hsp. ring. }
  assert (forall x, dval data mod (W c * 2 ^ s) = dval (take c data) + W c * x <->
    x = dval (drop c data) mod 2 ^ s) as Hmod.
  { intros x. rewrite Z.rem_mul_r by lia. rewrite Ediv0.
    assert (dval data mod W c = dval (take c data)) as ->.
    { symmetry. apply Z.mod_unique with (dval (drop c data)); lia. }
    split; [nia|intros ->; lia]. }
  destruct (truth s) eqn:Es.
  - apply truth_spec in Es. rewrite Hcar, Z.mul_1_r.
    pose proof (shr_bits s d1 k ltac:(lia) Hd1 Hk) as Hb.
    destruct (for_down _ _ _ _) as [r carry']. destruct Hb as (Hr & Hv & Hc').
    split_and!; [done| |].
    + rewrite Hv, <- Ediv, Z.div_div by lia. done.
    + split; [done|]. exists (dval d1 mod 2 ^ s). pose proof (Z.mod_pos_bound (dval d1) (2 ^ s) Hps).
      assert (truth s = true) as -> by by apply truth_spec. split_and!; try lia.
      rewrite En. apply Hmod. rewrite Ed1.
      replace (W (4 - c)) with (2 ^ (32 * Z.of_nat (4 - c) - s) * 2 ^ s).
      * replace (_ * 2 ^ s * t) with ((2 ^ (32 * Z.of_nat (4 - c) - s) * t) * 2 ^ s) by ring. apply Z_mod_plus_full.
      * unfold W. rewrite <- Z.pow_add_r by lia. f_equal. lia.
  - apply truth_false in Es as ->. change (2 ^ 0) with 1 in *. rewrite Z.mul_1_r.
    assert (k = 0) as -> by lia. rewrite Z.mul_0_r, Z.add_0_r in Ediv. split_and!; [done|by rewrite Ediv|].
    split; [done|]. exists 0. split_and!; try lia.
    rewrite En. rewrite <- (Z.mul_1_r (W c)) at 1. apply Hmod. by rewrite Z.mod_1_r.
Qed.

Lemma cval_rev_cons d ch : cval (rev (d :: ch)) = cval (rev ch) + WC (length ch) * dval d.
Proof. cbn [rev]. rewrite cval_app, length_rev. cbn [cval]. unfold WC. lia. Qed.

Lemma div_cat P A D T : 0 < T -> (A + P * D) / T = (A + P * (D mod T)) / T + P * (D / T).
Proof.
  intros HT. rewrite (Z.div_mod D T) at 1 by lia.
  replace (A + P * (T * (D / T) + D mod T)) with ((A + P * (D mod T)) + (P * (D / T)) * T) by ring.
  by rewrite Z.div_add by lia.
Qed.

Lemma shr_state_bound c s tmp carry R : (c < 4)%nat -> shr_state c s tmp carry R -> 0 <= R < W c * 2 ^ s.
Proof.
  intros Hc ([Hl Hd] & k & Hk & _ & ->). pose proof (dval_bound _ (digs_drop (4 - c) _ Hd)) as Hb.
  change BINT_CHUNK_SIZE with 4%nat in Hl. rewrite length_drop in Hb.
  replace (length tmp - (4 - c))%nat with c in Hb by lia. nia.
Qed.

Lemma shr_chain_spec c s : (c < 4)%nat -> 0 <= s < 32 -> forall ch tmp carry R,
  chain_ok ch -> shr_state c s tmp carry R ->
  chain_ok (shr_chain c s ch tmp carry) /\ length (shr_chain c s ch tmp carry) = length ch /\
  cval (rev (shr_chain c s ch tmp carry)) = (cval (rev ch) + WC (length ch) * R) / (W c * 2 ^ s).
Proof.
  intros Hc Hs. pose proof (W_pos c) as HW. pose proof (Z.pow_pos_nonneg 2 s ltac:(lia) ltac:(lia)) as Hps.
  assert (exists q, 2 ^ 128 = q * (W c * 2 ^ s)) as [q Eq].
  { exists (2 ^ (128 - 32 * Z.of_nat c - s)). unfold W. rewrite <- !Z.pow_add_r by lia. f_equal. lia. }
  induction ch as [|d ch IH]; intros tmp carry R Hch Hst; cbn [shr_chain].
  - split_and!; [constructor|done|]. cbn [rev cval length]. rewrite WC_0, Z.mul_1_l, Z.add_0_l.
    symmetry. apply Z.div_small. by apply (shr_state_bound c s tmp carry).
  - apply Forall_cons in Hch as [Hd Hch].
    pose proof (shr_chunk_spec c s d tmp carry R Hc Hs Hd Hst) as Hspec.
    destruct (shr_chunk c s d tmp carry) as [[d' tmp'] carry']. destruct Hspec as (H1 & H2 & H3).
    destruct (IH tmp' carry' _ Hch H3) as (H4 & H5 & E).
    split_and!; [by constructor|cbn [length]; by rewrite H5|].
    rewrite !cval_rev_cons, H5, H2. cbn [length]. rewrite WC_S. set (T := W c * 2 ^ s) in *.
    assert (0 < T) as HT by (unfold T; nia).
    replace (cval (rev ch) + WC (length ch) * dval d + 2 ^ 128 * WC (length ch) * R)
      with (cval (rev ch) + WC (length ch) * (dval d + 2 ^ 128 * R)) by ring.
    rewrite (div_cat (WC (length ch)) _ (dval d + 2 ^ 128 * R) T HT).
    assert ((dval d + 2 ^ 128 * R) mod T = dval d mod T) as Em.
    { rewrite Eq. replace (dval d + q * T * R) with (dval d + q * R * T) by ring. apply Z_mod_plus_full. }
    rewrite Em, <- E. lia.
Qed.

(** * The operations *)
Lemma skip_chunks_spec src count :
  0 <= count -> (Z.to_nat (count / 128) <= length src)%nat ->
  skip_chunks src count = Some (drop (Z.to_nat (count / 128)) src, count mod 128).
Proof.
  revert count. induction src as [|x src IH]; intros count Hc Hl; cbn [skip_chunks]; change CHUNK_BITS with 128;
    destruct (Z.leb_spec 128 count) as [Hge|Hlt].
  - pose proof (Z.div_le_lower_bound count 128 1 ltac:(lia) ltac:(lia)). simpl in Hl. lia.
  - by rewrite Z.div_small, Z.mod_small by lia.
  - pose proof (Z.div_le_lower_bound count 128 1 ltac:(lia) ltac:(lia)).
    assert ((count - 128) / 128 = count / 128 - 1) as Ed.
    { replace (count - 128) with (count + (-1) * 128) by lia. rewrite Z.div_add by lia. lia. }
    rewrite IH by (rewrite ?Ed; simpl in Hl; lia). rewrite Ed.
    replace (Z.to_nat (count / 128)) with (S (Z.to_nat (count / 128 - 1))) by lia. cbn [drop].
    do 2 f_equal. replace (count - 128) with (count + (-1) * 128) by lia. apply Z_mod_plus_full.
  - by rewrite Z.div_small, Z.mod_small by lia.
Qed.

Lemma move_chunks_spec dst src : (length src <= length dst)%nat ->
  move_chunks dst src = src ++ replicate (length dst - length src) zero_chunk.
Proof.
  revert src. induction dst as [|d dst IH]; intros [|s src] Hl; cbn [move_chunks]; [done|simpl in Hl; lia| |].
  - rewrite IH by (simpl; lia). cbn [length app]. by rewrite !Nat.sub_0_r.
  - rewrite IH by (simpl in Hl; lia). done.
Qed.

Lemma rev_replicate {A} n (x : A) : rev (replicate n x) = replicate n x.
Proof.
  induction n as [|n IH]; [done|]. cbn [rev replicate]. rewrite IH. symmetry. apply replicate_S_end.
Qed.

(** The split of a shift into chunks, components and bits. *)
Lemma shift_split count : 0 <= count ->
  let r := count mod 128 in
  (Z.to_nat (r / 32) < 4)%nat /\ 0 <= r mod 32 < 32 /\
  2 ^ count = WC (Z.to_nat (count / 128)) * (W (Z.to_nat (r / 32)) * 2 ^ (r mod 32)).
Proof.
  intros Hc r. pose proof (Z.mod_pos_bound count 128 ltac:(lia)) as Hr. fold r in Hr.
  pose proof (Z.mod_pos_bound r 32 ltac:(lia)). pose proof (Z.div_pos r 32 ltac:(lia) ltac:(lia)).
  pose proof (Z.div_lt_upper_bound r 32 4 ltac:(lia) ltac:(lia)).
  pose proof (Z.div_pos count 128 ltac:(lia) ltac:(lia)). split_and!; try lia.
  unfold WC, W. rewrite <- !Z.pow_add_r by lia. f_equal.
  pose proof (Z.div_mod count 128 ltac:(lia)). pose proof (Z.div_mod r 32 ltac:(lia)). unfold r in *. lia.
Qed.

Lemma shr_state_init c s : (c < 4)%nat -> 0 <= s -> shr_state c s zero_chunk 0 0.
Proof.
  intros Hc Hs. split; [apply zero_chunk_ok|]. exists 0. pose proof (Z.pow_pos_nonneg 2 s).
  split_and!; try lia. unfold zero_chunk. by rewrite drop_replicate, dval_replicate, Z.mul_0_r.
Qed.

Lemma wf_length b : bint_wf b -> mag b <> 0 -> Z.of_nat (length (digits b)) = 1 + (bitlen (mag b) - 1) / 128.
Proof.
  intros Hb Hne. pose proof (ne_length _ (wf_ne _ Hb)). pose proof (mag_nonneg _ (wf_chain _ Hb)).
  pose proof (chain_bitlen _ (wf_chain _ Hb)) as Hup. fold (mag b) in Hup.
  assert (1 <= bitlen (mag b)).
  { unfold bitlen. destruct (Z.eqb_spec (mag b) 0); [lia|]. pose proof (Z.log2_nonneg (mag b)). lia. }
  assert (128 * (Z.of_nat (length (digits b)) - 1) <= bitlen (mag b) - 1).
  { destruct (Nat.le_gt_cases (length (digits b)) 1); [lia|].
    pose proof (trimmed_length _ (wf_chain _ Hb) (wf_trim _ Hb) ltac:(lia)) as Ht. fold (mag b) in Ht. lia. }
  assert (Z.of_nat (length (digits b)) - 1 = (bitlen (mag b) - 1) / 128); [|lia].
  apply Z.div_unique with (bitlen (mag b) - 1 - 128 * (Z.of_nat (length (digits b)) - 1)); lia.
Qed.

Section shift.
Context (malloc_ok : nat -> bool).

(** Shifting whole chunks of an extended chain. *)
Lemma shift_chunks dc q :
  chain_ok dc -> (q <= length dc)%nat -> cval dc < WC (length dc - q) ->
  let c := reverse_chain (move_chunks (reverse_chain dc) (drop q (reverse_chain dc))) in
  chain_ok c /\ length c = length dc /\ cval c = WC q * cval dc.
Proof.
  intros Hc Hq Hlt. cbv zeta. rewrite !reverse_chain_rev.
  rewrite move_chunks_spec by (rewrite length_drop; lia). rewrite length_drop, length_rev.
  replace (length dc - (length dc - q))%nat with q by lia. rewrite rev_app_distr, rev_replicate.
  assert (rev (drop q (rev dc)) = take (length dc - q) dc) as ->.
  { by rewrite skipn_rev, rev_involutive. }
  rewrite (cval_split (length dc - q) dc) in Hlt by lia.
  pose proof (chain_ok_bound _ (Forall_take _ (length dc - q) _ Hc)).
  pose proof (chain_ok_bound _ (Forall_drop _ (length dc - q) _ Hc)).
  split_and!.
  - apply Forall_app_2; [apply chain_ok_zeros|by apply Forall_take].
  - rewrite length_app, length_replicate, length_take. lia.
  - rewrite cval_app, cval_zeros, length_replicate. fold (WC q). rewrite Z.add_0_l. f_equal.
    rewrite (cval_split (length dc - q) dc) by lia. pose proof (WC_pos (length dc - q)).
    assert (cval (drop (length dc - q) dc) = 0) as ->; nia.
Qed.

Lemma wp_bint_shift_left b count m :
  bint_wf b -> small b -> 0 <= count < 2 ^ 31 ->
  wp (bint_shift_left malloc_ok b count) m (fun '(b', rc) m' =>
    rc = 0 /\ chain_ok (digits b') /\ digits b' <> [] /\ negative b' = negative b /\
      mag b' = mag b * 2 ^ count /\
      (mag b <> 0 -> Z.of_nat (length (digits b')) = 1 + (bitlen (mag b) + count) / 128) /\
      ((bitlen (mag b) + count) mod 128 <> 0 -> bint_wf b') /\
      (live m' + owned b)%nat = (live m + owned b')%nat \/
    rc = -1 /\ b' = b /\ live m' = live m /\ oom malloc_ok).
Proof.
  intros Hb Hsb Hc. unfold bint_shift_left. rewrite bit_length_wf, is_zero_spec by done.
  destruct (Z.eqb_spec (mag b) 0) as [E0|Hne].
  { apply wp_ret. left. split_and!; try apply Hb; try done. lia. }
  pose proof (mag_nonneg _ (wf_chain _ Hb)) as Hm0. unfold small in Hsb.
  pose proof (chain_bitlen _ (wf_chain _ Hb)) as Hbl. fold (mag b) in Hbl.
  pose proof (bitlen_nonneg (mag b)). rewrite u32_small by lia.
  set (rl := bitlen (mag b) + count). wp_bind. apply wp_extend_length; [apply Hb|unfold rl; lia| |].
  2: { intros Ho m1 Hm1. apply wp_ret. by right. }
  intros m1 Hm1. set (n := pad (digits b) rl) in *. set (dc := digits b ++ replicate n zero_chunk).
  change (0 <? 0) with false. cbv iota. cbn [digits negative].
  assert (Z.of_nat (length dc) = Z.max (Z.of_nat (length (digits b))) (1 + rl / 128)) as Hlen.
  { apply length_pad; [apply Hb|unfold rl; lia]. }
  assert (Z.of_nat (length dc) = 1 + rl / 128) as Hlen2.
  { rewrite Hlen, (wf_length b Hb Hne). pose proof (Z.div_le_mono (bitlen (mag b) - 1) rl 128 ltac:(lia)).
    unfold rl in *. lia. }
  assert (chain_ok dc) as Hdc by (apply chain_ok_pad, Hb).
  assert (cval dc = mag b) as Hv by apply cval_pad.
  destruct (shift_split count ltac:(lia)) as (Hcc & Hss & Epow).
  set (q := Z.to_nat (count / 128)) in *. set (r := count mod 128) in *.
  pose proof (Z.div_pos count 128 ltac:(lia) ltac:(lia)) as Hq0.
  assert (Z.of_nat q = count / 128) as Hqz by (unfold q; lia).
  pose proof (Z.div_mod count 128 ltac:(lia)) as Hdm. fold r in Hdm.
  pose proof (Z.mod_pos_bound count 128 ltac:(lia)) as Hrb. fold r in Hrb.
  pose proof (Z.div_mod rl 128 ltac:(lia)) as Hdm2. pose proof (Z.mod_pos_bound rl 128 ltac:(lia)) as Hrb2.
  assert (q <= length dc)%nat as Hq.
  { pose proof (Z.div_le_mono count rl 128 ltac:(lia)). unfold rl in *. lia. }
  assert (cval dc < WC (length dc - q)) as Hfit.
  { rewrite Hv. pose proof (bitlen_upper _ Hm0). apply Z.lt_le_trans with (2 ^ bitlen (mag b)); [done|].
    unfold WC. apply Z.pow_le_mono_r; [lia|]. unfold rl in *. lia. }
  destruct (shift_chunks dc q Hdc Hq Hfit) as (Hc1 & Hl1 & Hv1).
  set (c1 := reverse_chain (move_chunks _ _)) in *.
  wp_bind. apply (wp_mono _ _ (fun x m' => m' = m1 /\ chain_ok x.1 /\ length x.1 = length dc /\
    cval x.1 = WC q * mag b /\ x.2 = r)).
  { change CHUNK_BITS with 128. destruct (Z.leb_spec 128 count) as [Hge|Hlt].
    - wp_bind. eapply wp_need.
      + apply skip_chunks_spec; [lia|]. rewrite reverse_chain_rev, length_rev. exact Hq.
      + apply wp_ret. cbn [fst snd]. split_and!; try done. change (cval c1 = WC q * mag b). by rewrite Hv1, Hv.
    - apply wp_ret. cbn [fst snd]. assert (q = 0%nat) as -> by (unfold q; by rewrite Z.div_small by lia).
      rewrite WC_0. unfold r. rewrite Z.mod_small by lia. split_and!; try done. lia. }
  intros [c2 cnt] m2 (-> & Hc2 & Hl2 & Hv2 & Ecnt). cbn [fst snd] in *. subst cnt. apply wp_ret. left.
  destruct (shl_chain_spec (Z.to_nat (r / 32)) (r mod 32) Hcc Hss c2 zero_chunk 0 Hc2 zero_chunk_ok)
    as (Ho & Hlo & p & Hp & E).
  { rewrite zero_chunk_val. apply W_pos. } { split; [lia|apply Z.pow_pos_nonneg; lia]. }
  unfold COMPONENT_BITS. set (out := shl_chain _ _ c2 zero_chunk 0) in *. rewrite zero_chunk_val, Hl2, Hv2 in E.
  assert (mag b * 2 ^ count = 2 ^ (r mod 32) * W (Z.to_nat (r / 32)) * (WC q * mag b)) as Etot.
  { rewrite Epow. ring. }
  pose proof (bitlen_upper _ Hm0) as Hub. pose proof (Z.pow_pos_nonneg 2 count ltac:(lia) ltac:(lia)) as Hpc.
  assert (mag b * 2 ^ count < 2 ^ rl) as Hlt1.
  { unfold rl. rewrite Z.pow_add_r by lia. nia. }
  assert (2 ^ rl <= WC (length dc)) as Hle1 by (unfold WC; apply Z.pow_le_mono_r; lia).
  pose proof (chain_ok_bound out Ho) as Hob.
  assert (p = 0) as ->.
  { pose proof (WC_pos (length dc)). assert (WC (length dc) * p < WC (length dc)); [lia|nia]. }
  assert (cval out = mag b * 2 ^ count) as Hvo by lia.
  assert (out <> []) as Hno by (intros Eo; rewrite Eo in Hlo; simpl in Hlo; lia).
  split_and!; try done.
  - cbn [digits]. intros _. rewrite Hlo, Hl2. exact Hlen2.
  - intros Hmod. split; cbn [digits]; [done|done|]. right. apply last_ne_lower; [done|done|].
    rewrite Hlo, Hl2, Hvo. pose proof (bitlen_lower (mag b) ltac:(lia)) as Hlow.
    apply Z.le_trans with (2 ^ (rl - 1)).
    + unfold WC. apply Z.pow_le_mono_r; [lia|]. fold rl in Hmod. lia.
    + replace (rl - 1) with ((bitlen (mag b) - 1) + count) by (unfold rl; lia).
      assert (1 <= bitlen (mag b)).
      { unfold bitlen. destruct (Z.eqb_spec (mag b) 0); [lia|]. pose proof (Z.log2_nonneg (mag b)). lia. }
      rewrite Z.pow_add_r by lia. nia.
  - unfold owned. cbn [digits]. rewrite Hlo, Hl2. pose proof (ne_length _ (wf_ne _ Hb)).
    assert (length dc = (length (digits b) + n)%nat) by (unfold dc; by rewrite length_app, length_replicate). lia.
Qed.
End shift.

Lemma skip_down_spec src count : 0 <= count ->
  let q := Nat.min (Z.to_nat (count / 128)) (length src) in
  skip_down src count = (drop q src, count - 128 * Z.of_nat q).
Proof.
  revert count. induction src as [|x src IH]; intros count Hc q; cbn [skip_down].
  - unfold q. cbn [length]. rewrite Nat.min_0_r. cbn [drop]. f_equal. lia.
  - change CHUNK_BITS with 128. unfold q. clear q. destruct (Z.leb_spec 128 count) as [Hge|Hlt].
    + pose proof (Z.div_le_lower_bound count 128 1 ltac:(lia) ltac:(lia)).
      assert ((count - 128) / 128 = count / 128 - 1) as Ed.
      { replace (count - 128) with (count + (-1) * 128) by lia. rewrite Z.div_add by lia. lia. }
      rewrite IH by lia. rewrite Ed. cbn [length].
      replace (Nat.min (Z.to_nat (count / 128)) (S (length src)))
        with (S (Nat.min (Z.to_nat (count / 128 - 1)) (length src))) by lia. cbn [drop]. f_equal. lia.
    + rewrite Z.div_small by lia. cbn. by rewrite Z.sub_0_r.
Qed.

Lemma wp_move_down : forall dst src m Q,
  (length src < length dst)%nat -> (length dst - length src - 1 <= live m)%nat ->
  (forall m', (live m' + (length dst - length src - 1))%nat = live m -> Q (src ++ [zero_chunk]) m') ->
  wp (move_down dst src) m Q.
Proof.
  induction dst as [|d dst IH]; intros [|s src] m Q Hl Hlive HQ; cbn [move_down length] in *; try lia.
  - wp_bind. apply wp_destroy_chain; [lia|]. intros m' Hm'. apply wp_ret. apply HQ. lia.
  - wp_bind. apply IH; [lia|lia|]. intros m' Hm'. apply wp_ret. apply HQ. lia.
Qed.

Lemma wp_bint_shift_right b count m Q :
  chain_ok (digits b) -> digits b <> [] -> 0 <= count -> (owned b <= live m)%nat ->
  (forall b' m', bint_wf b' -> negative b' = negative b -> mag b' = mag b / 2 ^ count ->
     (length (digits b') <= length (digits b))%nat ->
     (live m' + owned b)%nat = (live m + owned b')%nat -> Q b' m') ->
  wp (bint_shift_right b count) m Q.
Proof.
  intros Hcb Hnb Hc Hl HQ. unfold bint_shift_right. pose proof (ne_length _ Hnb) as Hlb.
  pose proof (Z.div_pos count 128 ltac:(lia) ltac:(lia)) as Hq0.
  pose proof (chain_ok_bound _ Hcb) as Hbb. fold (mag b) in Hbb. fold (WC (length (digits b))) in Hbb.
  set (q := Nat.min (Z.to_nat (count / 128)) (length (digits b))).
  (* the shift by whole chunks *)
  wp_bind. apply (wp_mono _ _ (fun x m' => chain_ok x.1 /\ x.1 <> [] /\ x.2 = count - 128 * Z.of_nat q /\
    cval x.1 = mag b / WC q /\ (length x.1 <= length (digits b))%nat /\
    (live m' + length (digits b))%nat = (live m + length x.1)%nat /\ (128 <= x.2 -> length x.1 = 1%nat /\ cval x.1 = 0))).
  { change CHUNK_BITS with 128. destruct (Z.leb_spec 128 count) as [Hge|Hlt].
    - rewrite skip_down_spec by done. fold q.
      pose proof (Z.div_le_lower_bound count 128 1 ltac:(lia) ltac:(lia)).
      assert (cval (drop q (digits b)) = mag b / WC q) as Ev.
      { unfold mag. apply Z.div_unique with (cval (take q (digits b))).
        - pose proof (chain_ok_bound _ (Forall_take _ q _ Hcb)) as Hb. rewrite length_take in Hb.
          replace (Nat.min q (length (digits b))) with q in Hb by lia. fold (WC q) in Hb. lia.
        - rewrite (cval_split q (digits b)) at 1 by lia. lia. }
      wp_bind. apply wp_move_down; [rewrite length_drop; lia|rewrite length_drop; unfold owned in Hl; lia|].
      intros m1 Hm1. apply wp_ret. cbn [fst snd]. rewrite length_app, length_drop. cbn [length].
      rewrite length_drop in Hm1. split_and!; try lia.
      + apply Forall_app_2; [by apply Forall_drop|]. by constructor; [apply zero_chunk_ok|].
      + by destruct (drop q (digits b)).
      + rewrite cval_app. cbn [cval]. rewrite zero_chunk_val, Ev. lia.
      + intros Hend. rewrite cval_app. cbn [cval]. rewrite zero_chunk_val, Ev.
        assert (q = length (digits b)) as ->.
        { pose proof (Z.div_mod count 128 ltac:(lia)). pose proof (Z.mod_pos_bound count 128 ltac:(lia)). lia. }
        rewrite Z.div_small by lia. lia.
    - apply wp_ret. cbn [fst snd]. assert (q = 0%nat) as -> by (unfold q; rewrite Z.div_small by lia; done).
      rewrite WC_0, Z.div_1_r. split_and!; try done; lia. }
  intros [c cnt] m1 (Hc1 & Hn1 & Ecnt & Hv1 & Hl1 & Hlive1 & Hend). cbn [fst snd] in *.
  pose proof (ne_length _ Hn1) as Hlc. change CHUNK_BITS with 128.
  destruct (Z.leb_spec 128 cnt) as [Hge|Hlt].
  - destruct (Hend Hge) as [Hlen1 Hz]. apply wp_ret. apply HQ; cbn [digits negative]; try done.
    + split; cbn [digits]; [done|done|left; lia].
    + unfold mag at 1. cbn [digits]. rewrite Hz. symmetry. apply Z.div_small. split; [lia|].
      assert (q = length (digits b)) as Eq.
      { pose proof (Z.div_mod count 128 ltac:(lia)). pose proof (Z.mod_pos_bound count 128 ltac:(lia)). lia. }
      apply Z.lt_le_trans with (WC (length (digits b))); [lia|]. unfold WC. apply Z.pow_le_mono_r; lia.
    + unfold owned. cbn [digits]. lia.
  - assert (Z.of_nat q = count / 128 /\ cnt = count mod 128) as [Eq Er].
    { pose proof (Z.div_mod count 128 ltac:(lia)). pose proof (Z.mod_pos_bound count 128 ltac:(lia)). lia. }
    clear Ecnt. subst cnt. destruct (shift_split count Hc) as (Hcc & Hss & Epow).
    replace (Z.to_nat (count / 128)) with q in Epow by lia. set (r := count mod 128) in *.
    destruct (shr_chain_spec (Z.to_nat (r / 32)) (r mod 32) Hcc Hss (reverse_chain c) zero_chunk 0 0)
      as (Ho & Hlo & Hvo).
    { rewrite reverse_chain_rev. by apply chain_ok_rev. } { apply shr_state_init; lia. }
    unfold COMPONENT_BITS. set (out := shr_chain _ _ _ _ _) in *.
    rewrite reverse_chain_rev in Hlo, Hvo. rewrite length_rev in Hlo.
    rewrite rev_involutive, Z.mul_0_r, Z.add_0_r, Hv1, Z.div_div, <- Epow in Hvo; cycle 1.
    { pose proof (WC_pos q). lia. } { pose proof (W_pos (Z.to_nat (r / 32))). pose proof (Z.pow_pos_nonneg 2 (r mod 32)). nia. }
    rewrite (reverse_chain_rev out).
    apply wp_trim; cbn [digits negative].
    + by apply chain_ok_rev.
    + intros E%(f_equal length). rewrite length_rev in E. simpl in E. lia.
    + unfold owned in *. cbn [digits]. rewrite length_rev. lia.
    + intros b' z m2 Hneg E Hz Hne Ht Hlive.
      destruct (trimmed_wf (mk_bint (negative b) (rev out)) b' z) as [Hwf Hmag]; try done.
      { by apply chain_ok_rev. }
      pose proof (ne_length _ Hne) as Hl'. apply (f_equal length) in E. rewrite length_app, length_rev in E.
      apply HQ; try done; [by rewrite Hmag|lia|unfold owned in *; lia].
Qed.
