(* ===== verification/BintBasic.v ===== *)
(** Creating, copying, reading and comparing the numbers of bint.c; base conversion;
    the uniqueness of well-formed numbers. *)
From S2P Require Import Prelude Bint BintOps BintDigits BintMag BintLen BintArith BintMul BintBits BintShift.

Lemma mag_single c n : mag (mk_bint n [c]) = dval c.
Proof. unfold mag. cbn [digits cval]. lia. Qed.

Lemma wf_single c n : chunk_ok c -> bint_wf (mk_bint n [c]).
Proof. intros Hc. split; cbn [digits]; [by constructor|done|by left]. Qed.

Lemma bint_of_wf v : bint_wf (bint_of v) /\ owned (bint_of v) = 0%nat.
Proof. split; [|done]. apply wf_single. auto with bint. Qed.

Lemma abs_spec v : - 2 ^ 31 < v -> abs v = Some (Z.abs v).
Proof.
  intros Hv. unfold abs, neg32. destruct (Z.ltb_spec v 0); [|f_equal; lia].
  destruct (Z.eqb_spec v (- 2 ^ 31)); [lia|f_equal; lia].
Qed.

Lemma bint_of_val v : - 2 ^ 31 <= v < 2 ^ 31 -> bval (bint_of v) = v.
Proof.
  intros Hv. unfold bval, bint_of, bint_with. rewrite mag_single. cbn [negative].
  rewrite chunk_insert_val by (apply zero_chunk_ok || (unfold BINT_CHUNK_SIZE; lia)). change (zero_chunk !!! 0%nat) with 0.
  rewrite W_0, zero_chunk_val. rewrite u32_small by lia. destruct (Z.ltb_spec v 0); lia.
Qed.

Lemma bint_zero_val : bval bint_zero = 0 /\ bval bint_one = 1 /\ bint_wf bint_zero /\ bint_wf bint_one.
Proof.
  split_and!; try done; apply wf_single; (split; [done|]); repeat constructor; unfold digit; lia.
Qed.

Lemma i32_mod a b : a mod 2 ^ 32 = b mod 2 ^ 32 -> i32 a = i32 b.
Proof.
  intros H. unfold i32. f_equal. rewrite <- Zplus_mod_idemp_l, H. by rewrite Zplus_mod_idemp_l.
Qed.

Lemma i32_mod_self a : i32 a mod 2 ^ 32 = a mod 2 ^ 32.
Proof.
  unfold i32. rewrite Zminus_mod_idemp_l. f_equal. lia.
Qed.

Lemma neg32_spec v : i32 v = v -> i32 (- v) <> - 2 ^ 31 -> neg32 v = Some (i32 (- v)).
Proof.
  intros Hv Hn. unfold neg32. destruct (Z.eqb_spec v (- 2 ^ 31)) as [->|]; [done|].
  f_equal. symmetry. apply i32_small. rewrite <- Hv in *. unfold i32 in *.
  pose proof (Z.mod_pos_bound (v + 2 ^ 31) (2 ^ 32)). lia.
Qed.

Lemma bint_get_val b : bint_wf b -> (negative b = true -> i32 (bval b) <> - 2 ^ 31) ->
  bint_get b = Some (i32 (bval b)).
Proof.
  intros Hb. unfold bint_get, bval, mag. pose proof (wf_chain _ Hb) as Hc. pose proof (wf_ne _ Hb).
  destruct (digits b) as [|c d] eqn:E; [done|]. apply Forall_cons in Hc as [Hc Hd].
  assert (exists k, cval (c :: d) = c !!! 0%nat + 2 ^ 32 * k) as [k Ek].
  { destruct Hc as [Hl _]. destruct c as [|x c]; [done|]. exists (dval c + 2 ^ 96 * cval d).
    change ((x :: c) !!! 0%nat) with x. rewrite cval_cons. cbn [dval]. ring. }
  rewrite Ek. assert ((c !!! 0%nat + 2 ^ 32 * k) mod 2 ^ 32 = (c !!! 0%nat) mod 2 ^ 32) as Em.
  { rewrite Z.mul_comm. apply Z_mod_plus_full. }
  destruct (negative b).
  - intros Hn. assert (i32 (- (c !!! 0%nat + 2 ^ 32 * k)) = i32 (- i32 (c !!! 0%nat))) as E0.
    2: { rewrite E0 in *. apply neg32_spec; [by apply i32_mod, i32_mod_self|by apply Hn]. }
    symmetry. apply i32_mod. assert (i32 (c !!! 0%nat) mod 2 ^ 32 = (c !!! 0%nat + 2 ^ 32 * k) mod 2 ^ 32) as E1.
    { by rewrite i32_mod_self. }
    rewrite !Z.opp_eq_mul_m1. rewrite Z.mul_mod, E1 by lia. by rewrite <- Z.mul_mod by lia.
  - intros _. f_equal. by apply i32_mod.
Qed.

(** No negative zero. *)
Definition canonical (b : bint) : Prop := negative b = true -> mag b <> 0.

Lemma bint_compare_val a b :
  bint_wf a -> bint_wf b -> canonical a -> canonical b ->
  bint_compare a b = Z.sgn (bval a - bval b).
Proof.
  intros Ha Hb Hca Hcb. unfold bint_compare, bval, canonical in *.
  pose proof (mag_nonneg _ (wf_chain _ Ha)). pose proof (mag_nonneg _ (wf_chain _ Hb)).
  assert (mag_cmp a b = Z.sgn (mag a - mag b)) as E.
  { apply mag_cmp_trimmed; first [apply Ha|apply Hb|by apply ne_length, Ha|by apply ne_length, Hb]. }
  destruct (negative a), (negative b); cbn [andb negb].
  - rewrite E. rewrite <- Z.sgn_opp. f_equal. lia.
  - specialize (Hca eq_refl). symmetry. apply Z.sgn_neg. lia.
  - specialize (Hcb eq_refl). symmetry. apply Z.sgn_pos. lia.
  - rewrite E. done.
Qed.

Section basic.
Context (malloc_ok : nat -> bool).

Lemma wp_bint_destroy b m Q :
  digits b <> [] -> (owned b <= live m)%nat ->
  (forall m', (live m' + owned b)%nat = live m -> Q tt m') -> wp (bint_destroy b) m Q.
Proof.
  intros Hne Hl HQ. unfold bint_destroy, owned in *. destruct (digits b) as [|c d]; [done|].
  cbn [length] in *. apply wp_destroy_chain; [lia|]. intros m' Hm'. apply HQ. lia.
Qed.

Lemma wp_bint_set b v m Q :
  digits b <> [] -> (owned b <= live m)%nat -> - 2 ^ 31 < v ->
  (forall m', (live m' + owned b)%nat = live m -> Q (bint_of v) m') -> wp (bint_set b v) m Q.
Proof.
  intros Hne Hl Hv HQ. unfold bint_set. wp_bind. apply wp_bint_destroy; [done|done|].
  intros m' Hm'. rewrite (abs_spec v Hv). wp_bind. apply wp_ret, wp_ret. by apply HQ.
Qed.

Lemma wp_bint_init v m Q : - 2 ^ 31 < v ->
  (forall m', live m' = live m -> Q (bint_of v) m') -> wp (bint_init v) m Q.
Proof.
  intros Hv HQ. apply wp_bint_set; [done|unfold owned; simpl; lia|done|]. intros m' Hm'.
  apply HQ. unfold owned in Hm'. simpl in Hm'. lia.
Qed.

Lemma wp_copy_chain : forall dc sc m Q,
  sc <> [] -> (length sc <= length dc)%nat -> (length dc - length sc <= live m)%nat ->
  (forall m', (live m' + (length dc - length sc))%nat = live m -> Q sc m') ->
  wp (copy_chain dc sc) m Q.
Proof.
  induction dc as [|d dc IH]; intros [|s sc] m Q Hne Hl Hlive HQ; try done; [simpl in Hl; lia|].
  cbn [copy_chain]. destruct sc as [|s2 sc].
  - cbn [length] in *. wp_bind. apply wp_destroy_chain; [lia|]. intros m' Hm'. apply wp_ret. apply HQ. lia.
  - cbn [length] in *. wp_bind. apply IH; [done|cbn [length]; lia|cbn [length]; lia|].
    intros m' Hm'. apply wp_ret. apply HQ. cbn [length] in *. lia.
Qed.

Lemma wp_bint_copy dst src m :
  digits dst <> [] -> bint_wf src -> small src -> (owned dst <= live m)%nat ->
  wp (bint_copy malloc_ok dst src) m (outcome malloc_ok dst m (fun b => b = src)).
Proof.
  intros Hd Hs Hss Hl. unfold bint_copy. rewrite bit_length_wf by done.
  pose proof (bitlen_nonneg (mag src)). wp_bind. apply wp_extend_length; [done|done| |].
  - intros m1 Hm1. change (0 <? 0) with false. cbv iota. cbn [digits negative].
    set (n := pad (digits dst) (bitlen (mag src))) in *. set (dc := digits dst ++ replicate n zero_chunk).
    assert (Z.of_nat (length dc) = Z.max (Z.of_nat (length (digits dst))) (1 + bitlen (mag src) / 128)) as Hlen.
    { by apply length_pad. }
    assert (length dc = (length (digits dst) + n)%nat) as Hlc by (unfold dc; by rewrite length_app, length_replicate).
    pose proof (ne_length _ Hd) as Hld. pose proof (ne_length _ (wf_ne _ Hs)) as Hls.
    assert (length (digits src) <= length dc)%nat as Hle.
    { destruct (Nat.le_gt_cases (length (digits src)) 1) as [Hc|Hc]; [lia|].
      pose proof (trimmed_length _ (wf_chain _ Hs) (wf_trim _ Hs) Hc) as Ht. fold (mag src) in Ht.
      pose proof (Z.div_mod (bitlen (mag src)) 128 ltac:(lia)).
      pose proof (Z.mod_pos_bound (bitlen (mag src)) 128 ltac:(lia)). lia. }
    wp_bind. apply wp_copy_chain; [apply Hs|done|unfold owned in *; lia|].
    intros m2 Hm2. apply wp_ret. left. assert (mk_bint (negative src) (digits src) = src) as -> by by destruct src.
    split_and!; try done. unfold owned in *. lia.
  - intros Ho m1 Hm1. apply wp_ret. by right.
Qed.
End basic.

(** * Uniqueness *)
Lemma cval_inj c d : chain_ok c -> chain_ok d -> length c = length d -> cval c = cval d -> c = d.
Proof.
  intros Hc. revert d. induction Hc as [|x c Hx Hc IH]; intros [|y d] Hd Hl E; try done.
  apply Forall_cons in Hd as [Hy Hd]. rewrite !cval_cons in E. injection Hl as Hl.
  pose proof (chunk_ok_bound x Hx). pose proof (chunk_ok_bound y Hy).
  assert (dval x = dval y /\ cval c = cval d) as [E1 E2] by lia.
  f_equal; [|by apply IH]. destruct Hx, Hy. apply dval_inj; try done. congruence.
Qed.

(** A well-formed number is determined by its sign and magnitude. *)
Lemma wf_inj a b : bint_wf a -> bint_wf b -> negative a = negative b -> mag a = mag b -> a = b.
Proof.
  intros Ha Hb Hn Hm. assert (length (digits a) = length (digits b)) as Hl.
  { pose proof (trimmed_le _ _ (wf_chain _ Ha) (wf_chain _ Hb) (wf_trim _ Ha) (wf_ne _ Hb)) as H1.
    pose proof (trimmed_le _ _ (wf_chain _ Hb) (wf_chain _ Ha) (wf_trim _ Hb) (wf_ne _ Ha)) as H2.
    unfold mag in Hm. rewrite Hm in *. specialize (H1 ltac:(lia)). specialize (H2 ltac:(lia)). lia. }
  pose proof (cval_inj _ _ (wf_chain _ Ha) (wf_chain _ Hb) Hl Hm). destruct a, b. simpl in *. congruence.
Qed.

(** * Multiplication by a digit and addition of one *)
Lemma mul_digit_chunk_spec base c k :
  digit base -> chunk_ok c -> digit k ->
  let '(r, k') := mul_digit_chunk base c k in
  chunk_ok r /\ digit k' /\ dval r + 2 ^ 128 * k' = base * dval c + k.
Proof.
  intros Hb Hc Hk. unfold mul_digit_chunk.
  for_inv (fun i '(r, k') => chunk_ok r /\ digit k' /\ drop i r = drop i c /\
    dval r + W i * k' = dval c + (base - 1) * dval (take i c) + k) H.
  - rewrite dval_take_0, W_0. split_and!; try done; lia.
  - intros i [r k'] [_ Hi] (Hr & Hk' & Ed & E).
    assert (r !!! i = c !!! i) as Eri.
    { rewrite <- (Nat.add_0_r i), <- !lookup_total_drop. by rewrite Ed. }
    pose proof (chunk_ok_digit c i Hc Hi) as Hci. rewrite Eri. unfold digit in *.
    set (x := c !!! i * base + k'). assert (0 <= x < 2 ^ 64) by (unfold x; nia).
    rewrite (u64_small (c !!! i * base)) by nia. fold x. rewrite (u64_small x) by done.
    unfold COMPONENT_BITS. pose proof (shiftr_bound x (2 ^ 32) ltac:(lia)).
    rewrite (u32_small (Z.shiftr x 32)) by lia. split_and!; [auto with bint|lia|lia| |].
    + rewrite drop_insert_lt by lia. replace (S i) with (i + 1)%nat by lia. by rewrite <- !drop_drop, Ed.
    + rewrite chunk_insert_val, Eri, chunk_take_S, W_S by done.
      pose proof (split32 x) as Hs. unfold x in Hs at 1. nia.
  - intros [r k'] (Hr & Hk' & _ & E). rewrite chunk_take, W_4 in E by done. split_and!; [done|done|lia].
Qed.

Lemma add_digit_chunk_spec c k :
  chunk_ok c -> digit k ->
  let '(r, k') := add_digit_chunk c k in
  chunk_ok r /\ digit k' /\ dval r + 2 ^ 128 * k' = dval c + k.
Proof.
  intros Hc Hk. unfold add_digit_chunk.
  for_inv (fun i '(r, k') => chunk_ok r /\ digit k' /\ dval r + W i * k' = dval c + k) H.
  - rewrite W_0. split_and!; [done|done|lia].
  - intros i [r k'] [_ Hi] (Hr & Hk' & E). pose proof (chunk_ok_digit r i Hr Hi) as Hri. unfold digit in *.
    set (x := r !!! i + k'). rewrite (u64_small x) by (unfold x; lia).
    unfold COMPONENT_BITS. pose proof (shiftr_bound x 2 ltac:(unfold x; lia)).
    rewrite (u32_small (Z.shiftr x 32)) by lia. split_and!; [auto with bint|lia|lia|].
    rewrite chunk_insert_val, W_S by done. pose proof (split32 x) as Hs. unfold x in Hs at 1. nia.
  - intros [r k']. by rewrite W_4.
Qed.

Lemma mul_digit_chain_spec base : digit base -> forall c k, chain_ok c -> digit k ->
  chain_ok (mul_digit_chain base c k) /\ length (mul_digit_chain base c k) = length c /\
  exists p, 0 <= p /\ cval (mul_digit_chain base c k) + WC (length c) * p = base * cval c + k.
Proof.
  intros Hb. induction c as [|d c IH]; intros k Hc Hk; cbn [mul_digit_chain].
  - split_and!; [constructor|done|]. exists k. unfold digit in Hk. cbn [length cval]. rewrite WC_0. lia.
  - apply Forall_cons in Hc as [Hd Hc]. pose proof (mul_digit_chunk_spec base d k Hb Hd Hk) as Hs.
    destruct (mul_digit_chunk base d k) as [d' k']. destruct Hs as (H1 & H2 & E).
    destruct (IH k' Hc H2) as (H3 & H4 & p & Hp & E2).
    split_and!; [by constructor|cbn [length]; by rewrite H4|]. exists p. split; [done|].
    rewrite !cval_cons. cbn [length]. rewrite WC_S. lia.
Qed.

Lemma add_digit_chain_spec : forall c k, chain_ok c -> digit k ->
  chain_ok (add_digit_chain c k) /\ length (add_digit_chain c k) = length c /\
  exists p, 0 <= p /\ cval (add_digit_chain c k) + WC (length c) * p = cval c + k.
Proof.
  induction c as [|d c IH]; intros k Hc Hk; cbn [add_digit_chain].
  - split_and!; [constructor|done|]. exists k. unfold digit in Hk. cbn [length cval]. rewrite WC_0. lia.
  - destruct (truth k) eqn:Et.
    + apply Forall_cons in Hc as [Hd Hc]. pose proof (add_digit_chunk_spec d k Hd Hk) as Hs.
      destruct (add_digit_chunk d k) as [d' k']. destruct Hs as (H1 & H2 & E).
      destruct (IH k' Hc H2) as (H3 & H4 & p & Hp & E2).
      split_and!; [by constructor|cbn [length]; by rewrite H4|]. exists p. split; [done|].
      rewrite !cval_cons. cbn [length]. rewrite WC_S. lia.
    + apply truth_false in Et as ->. split_and!; [done|done|]. exists 0. split; [done|]. lia.
Qed.

(** * Division by a digit *)
Lemma div_digit_chunk_spec base c R :
  0 < base < 2 ^ 32 -> chunk_ok c -> 0 <= R < base ->
  let '(r, R') := div_digit_chunk base c R in
  chunk_ok r /\ dval r = (dval c + 2 ^ 128 * R) / base /\ R' = (dval c + 2 ^ 128 * R) mod base.
Proof.
  intros Hb Hc HR. unfold div_digit_chunk.
  for_inv (fun i '(r, R') => chunk_ok r /\ take i r = take i c /\ 0 <= R' < base /\
    dval (drop i r) = (dval (drop i c) + W (4 - i) * R) / base /\
    R' = (dval (drop i c) + W (4 - i) * R) mod base) H.
  - change BINT_CHUNK_SIZE with 4%nat. rewrite !drop_ge by (rewrite (proj1 Hc); done). cbn [dval].
    replace (W (4 - 4)) with 1 by done. rewrite Z.add_0_l, Z.mul_1_l.
    split_and!; try done; try lia; [by rewrite Z.div_small|by rewrite Z.mod_small].
  - intros i [r R'] [_ Hi] (Hr & Etr & HR' & E1 & E2).
    assert (r !!! i = c !!! i) as Eri.
    { assert (take (S i) r !!! i = take (S i) c !!! i) as E by by rewrite Etr.
      by rewrite !lookup_total_take_lt in E by lia. }
    pose proof (chunk_ok_digit c i Hc Hi) as Hdi. rewrite Eri. unfold digit in Hdi.
    rewrite Z.shiftl_mul_pow2 by done. change (2 ^ COMPONENT_BITS) with (2 ^ 32).
    rewrite (u64_small (R' * 2 ^ 32)) by lia. rewrite (u64_small (_ + _)) by lia.
    set (x := c !!! i + R' * 2 ^ 32). change BINT_CHUNK_SIZE with 4%nat in Hi.
    assert (0 <= x / base < 2 ^ 32) as Hq.
    { split; [apply Z.div_pos; unfold x; lia|]. apply Z.div_lt_upper_bound; unfold x; nia. }
    rewrite u32_small by done. pose proof (Z.mod_pos_bound x base ltac:(lia)) as Hrb.
    assert (dval (drop i c) + W (4 - i) * R =
      c !!! i + 2 ^ 32 * (dval (drop (S i) c) + W (4 - S i) * R)) as Es.
    { rewrite (dval_drop_S i c) by (rewrite (proj1 Hc); done).
      replace (4 - i)%nat with (S (4 - S i)) by lia. rewrite W_S. ring. }
    set (X := dval (drop (S i) c) + W (4 - S i) * R) in *.
    assert (c !!! i + 2 ^ 32 * X = x + (2 ^ 32 * (X / base)) * base) as Ex.
    { pose proof (Z.div_mod X base ltac:(lia)). unfold x. rewrite E2. lia. }
    split_and!; try lia.
    + apply chunk_ok_insert; [done|]. unfold digit. lia.
    + rewrite take_insert_ge by lia. assert (take i (take (S i) r) = take i (take (S i) c)) as E by by rewrite Etr.
      by rewrite !take_take, !Nat.min_l in E by lia.
    + rewrite (dval_drop_S i) by (rewrite length_insert, (proj1 Hr); done).
      rewrite list_lookup_total_insert_eq by (rewrite (proj1 Hr); done).
      rewrite drop_insert_lt, E1, Es, Ex, Z.div_add by lia. lia.
    + rewrite Es, Ex, Z_mod_plus_full. done.
  - intros [r R'] (Hr & _ & HR' & E1 & E2). by rewrite !drop_0 in *.
Qed.

Lemma div_digit_chain_spec base : 0 < base < 2 ^ 32 -> forall ch R,
  chain_ok ch -> 0 <= R < base ->
  let '(out, R') := div_digit_chain base ch R in
  chain_ok out /\ length out = length ch /\
  cval (rev out) = (cval (rev ch) + WC (length ch) * R) / base /\
  R' = (cval (rev ch) + WC (length ch) * R) mod base.
Proof.
  intros Hb. induction ch as [|d ch IH]; intros R Hch HR; cbn [div_digit_chain].
  - cbn [rev cval length]. rewrite WC_0, Z.mul_1_l, Z.add_0_l.
    split_and!; [constructor|done|by rewrite Z.div_small|by rewrite Z.mod_small].
  - apply Forall_cons in Hch as [Hd Hch]. pose proof (div_digit_chunk_spec base d R Hb Hd HR) as Hs.
    destruct (div_digit_chunk base d R) as [d' R1]. destruct Hs as (H1 & H2 & H3).
    assert (0 <= R1 < base) as HR1 by (rewrite H3; apply Z.mod_pos_bound; lia).
    specialize (IH R1 Hch HR1). destruct (div_digit_chain base ch R1) as [out R2].
    destruct IH as (H4 & H5 & E1 & E2).
    replace (cval (rev (d :: ch)) + WC (length (d :: ch)) * R)
      with (cval (rev ch) + WC (length ch) * (dval d + 2 ^ 128 * R)); cycle 1.
    { rewrite cval_rev_cons. cbn [length]. rewrite WC_S. ring. }
    split_and!; [by constructor|cbn [length]; by rewrite H5| |].
    + rewrite cval_rev_cons, H5, E1, H2, H3. symmetry. apply div_cat. lia.
    + rewrite E2, H3. rewrite Zplus_mod, Zmult_mod. rewrite (Zmod_mod (dval d + 2 ^ 128 * R)).
      rewrite <- Zmult_mod, <- Zplus_mod. done.
Qed.

Section base.
Context (malloc_ok : nat -> bool).

Lemma wp_bint_digit_push b base d m :
  bint_wf b -> small b -> digit base -> 0 <= d < base -> (owned b <= live m)%nat ->
  wp (bint_digit_push malloc_ok b base d) m (outcome malloc_ok b m (fun b' =>
    negative b' = negative b /\ mag b' = mag b * base + d)).
Proof.
  intros Hb Hsb Hbase Hd Hl. unfold bint_digit_push. destruct (Z.leb_spec base d); [lia|].
  unfold small in *. unfold digit in Hbase. rewrite bit_length_wf, bit_length_spec by done.
  pose proof (mag_nonneg _ (wf_chain _ Hb)) as Hm0.
  pose proof (chain_bitlen _ (wf_chain _ Hb)) as Hbl. fold (mag b) in Hbl.
  pose proof (bitlen_nonneg (mag b)). pose proof (bitlen_nonneg base).
  assert (bitlen base <= 32) by (apply bitlen_le; lia). rewrite u32_small by lia.
  set (rl := bitlen (mag b) + bitlen base + 1). wp_bind.
  apply wp_extend_length; [apply Hb|unfold rl; lia| |].
  2: { intros Ho m1 Hm1. apply wp_ret. by right. }
  intros m1 Hm1. set (n := pad (digits b) rl) in *. set (dc := digits b ++ replicate n zero_chunk).
  change (0 <? 0) with false. cbv iota. cbn [digits negative].
  assert (Z.of_nat (length dc) = Z.max (Z.of_nat (length (digits b))) (1 + rl / 128)) as Hlen.
  { apply length_pad; [apply Hb|unfold rl; lia]. }
  assert (chain_ok dc) as Hdc by (apply chain_ok_pad, Hb).
  assert (cval dc = mag b) as Hv by apply cval_pad.
  destruct (mul_digit_chain_spec base Hbase dc 0 Hdc ltac:(unfold digit; lia)) as (Hc1 & Hl1 & p & Hp & E1).
  destruct (add_digit_chain_spec (mul_digit_chain base dc 0) d Hc1 ltac:(unfold digit; lia))
    as (Hc2 & Hl2 & p' & Hp' & E2).
  set (out := add_digit_chain _ d) in *. rewrite Hl1 in Hl2, E2. rewrite Hv in E1.
  assert (mag b * base + d < WC (length dc)) as Hfit.
  { pose proof (bitlen_upper _ Hm0). pose proof (bitlen_upper base ltac:(lia)).
    pose proof (Z.div_mod rl 128 ltac:(lia)). pose proof (Z.mod_pos_bound rl 128 ltac:(lia)).
    apply Z.lt_le_trans with (2 ^ rl).
    - unfold rl. rewrite !Z.pow_add_r by lia. nia.
    - unfold WC. apply Z.pow_le_mono_r; lia. }
  pose proof (chain_ok_bound _ Hc1) as Hb1. pose proof (chain_ok_bound _ Hc2) as Hb2.
  assert (cval out = mag b * base + d) as Hvo.
  { pose proof (WC_pos (length dc)). rewrite Hl1 in Hb1. fold (WC (length dc)) in Hb1.
    assert (p = 0) as -> by nia. assert (p' = 0) as -> by nia. lia. }
  pose proof (ne_length _ (wf_ne _ Hb)) as Hlb.
  assert (length dc = (length (digits b) + n)%nat) as Hlc by (unfold dc; by rewrite length_app, length_replicate).
  wp_bind. apply wp_trim; cbn [digits negative]; [done| | |].
  - intros E. rewrite E in Hl2. simpl in Hl2. lia.
  - unfold owned in *. cbn [digits]. lia.
  - intros b' z m2 Hneg E Hz Hne Ht Hlive. apply wp_ret. left.
    destruct (trimmed_wf (mk_bint (negative b) out) b' z) as [Hwf Hmag]; try done.
    pose proof (ne_length _ Hne). apply (f_equal length) in E. rewrite length_app in E.
    split_and!; try done; [by rewrite Hmag|unfold owned in *; lia].
Qed.

Lemma wp_bint_digit_pop b base m Q :
  bint_wf b -> 0 < base < 2 ^ 32 -> (owned b <= live m)%nat ->
  (forall b' m', bint_wf b' -> negative b' = negative b -> mag b' = mag b / base ->
     (live m' + owned b)%nat = (live m + owned b')%nat -> Q (b', mag b mod base) m') ->
  wp (bint_digit_pop b base) m Q.
Proof.
  intros Hb Hbase Hl HQ. unfold bint_digit_pop. destruct (Z.eqb_spec base 0); [lia|].
  rewrite reverse_chain_rev. pose proof (chain_ok_rev _ (wf_chain _ Hb)) as Hrev.
  pose proof (div_digit_chain_spec base Hbase (rev (digits b)) 0 Hrev ltac:(lia)) as Hs.
  destruct (div_digit_chain base (rev (digits b)) 0) as [out R].
  destruct Hs as (H1 & H2 & E1 & E2). rewrite rev_involutive, Z.mul_0_r, Z.add_0_r in *. fold (mag b) in E1, E2.
  rewrite length_rev in H2. pose proof (ne_length _ (wf_ne _ Hb)) as Hlb.
  wp_bind. rewrite reverse_chain_rev. apply wp_trim; cbn [digits negative].
  - by apply chain_ok_rev.
  - intros E%(f_equal length). rewrite length_rev in E. simpl in E. lia.
  - unfold owned in *. cbn [digits]. rewrite length_rev. lia.
  - intros b' z m2 Hneg E Hz Hne Ht Hlive. apply wp_ret.
    destruct (trimmed_wf (mk_bint (negative b) (rev out)) b' z) as [Hwf Hmag]; try done.
    { by apply chain_ok_rev. }
    pose proof (ne_length _ Hne). apply (f_equal length) in E. rewrite length_app, length_rev in E.
    assert (u32 R = mag b mod base) as ->.
    { rewrite E2. pose proof (Z.mod_pos_bound (mag b) base ltac:(lia)). apply u32_small. lia. }
    apply HQ; try done; [by rewrite Hmag|unfold owned in *; lia].
Qed.
End base.
