(* ===== verification/BintDiv.v ===== *)
(** Division of bint.c. *)
From S2P Require Import Prelude Bint BintOps BintDigits BintMag BintLen BintArith BintMul BintBits BintBasic BintShift.

Lemma small_bitlen b : bint_wf b -> bitlen (mag b) < 2 ^ 31 - 128 -> small b.
Proof.
  intros Hb Hl. unfold small. destruct (decide (mag b = 0)) as [E|E].
  - pose proof (trimmed_le (digits b) [zero_chunk] (wf_chain _ Hb)) as H.
    unfold mag in E. rewrite E in H. specialize (H ltac:(by constructor; [apply zero_chunk_ok|]) (wf_trim _ Hb) ltac:(done) ltac:(done)).
    simpl in H. lia.
  - rewrite (wf_length b Hb E). pose proof (Z.div_mod (bitlen (mag b) - 1) 128 ltac:(lia)).
    pose proof (Z.mod_pos_bound (bitlen (mag b) - 1) 128 ltac:(lia)). lia.
Qed.

Lemma set_negative_wf b n : bint_wf b -> bint_wf (mk_bint n (digits b)).
Proof. intros [H1 H2 H3]. by split. Qed.

(** Setting a clear bit below which the number has no bits adds it. *)
Lemma setbit_clear Q n : 0 <= n -> Q mod 2 ^ (n + 1) = 0 -> Z.setbit Q n = Q + 2 ^ n.
Proof.
  intros Hn Hm. rewrite setbit_add by done. replace (Z.testbit Q n) with false; [done|]. symmetry.
  rewrite <- (Z.mod_pow2_bits_low Q (n + 1) n) by lia. by rewrite Hm, Z.bits_0.
Qed.

Section div.
Context (malloc_ok : nat -> bool).

(** The state of the loop, before bit [n - 1] is tried: [D] is the divisor, [N]
    the dividend. *)
Definition div_inv (N D : Z) (n : nat) (sdiv rem quot : bint) : Prop :=
  bint_wf sdiv /\ bint_wf rem /\ bint_wf quot /\
  negative quot = false /\ negative rem = false /\
  mag sdiv = D * 2 ^ Z.of_nat n / 2 /\ N = mag quot * D + mag rem /\
  mag rem < D * 2 ^ Z.of_nat n /\ mag quot mod 2 ^ Z.of_nat n = 0.

Lemma wp_div_loop N D : 0 < D -> forall n sdiv rem quot m Q,
  div_inv N D n sdiv rem quot ->
  (owned sdiv + owned rem + owned quot <= live m)%nat ->
  (forall sdiv' rem' quot' m', div_inv N D 0 sdiv' rem' quot' ->
     (live m' + (owned sdiv + owned rem + owned quot))%nat =
       (live m + (owned sdiv' + owned rem' + owned quot'))%nat ->
     Q (sdiv', rem', quot', false) m') ->
  (oom malloc_ok -> forall sdiv' rem' quot' m',
     digits sdiv' <> [] -> digits rem' <> [] -> digits quot' <> [] ->
     (live m' + (owned sdiv + owned rem + owned quot))%nat =
       (live m + (owned sdiv' + owned rem' + owned quot'))%nat ->
     Q (sdiv', rem', quot', true) m') ->
  wp (div_loop malloc_ok n sdiv rem quot) m Q.
Proof.
  intros HD. induction n as [|n IH]; intros sdiv rem quot m Q Hinv Hl H1 H2; cbn [div_loop].
  { apply wp_ret. by apply H1. }
  pose proof Hinv as (Hs & Hr & Hq & Nq & Nr & Es & EN & HR & HQ0).
  pose proof (Z.pow_pos_nonneg 2 (Z.of_nat n) ltac:(lia) ltac:(lia)) as Hp.
  assert (2 ^ Z.of_nat (S n) = 2 * 2 ^ Z.of_nat n) as Ep.
  { rewrite Nat2Z.inj_succ, Z.pow_succ_r by lia. done. }
  assert (mag sdiv = D * 2 ^ Z.of_nat n) as Esd.
  { rewrite Es, Ep. replace (D * (2 * 2 ^ Z.of_nat n)) with (D * 2 ^ Z.of_nat n * 2) by ring.
    by rewrite Z.div_mul. }
  wp_bind. apply (wp_mono _ _ (fun x m' => let '(rem', quot', failed) := x in
    (live m' + (owned rem + owned quot))%nat = (live m + (owned rem' + owned quot'))%nat /\
    if failed : bool then digits rem' <> [] /\ digits quot' <> [] /\ oom malloc_ok
    else bint_wf rem' /\ bint_wf quot' /\ negative quot' = false /\ negative rem' = false /\
      N = mag quot' * D + mag rem' /\ mag rem' < D * 2 ^ Z.of_nat n /\ mag quot' mod 2 ^ Z.of_nat n = 0)).
  { rewrite mag_cmp_trimmed by first [apply Hs|apply Hr|by apply ne_length, Hs|by apply ne_length, Hr].
    fold (mag sdiv) (mag rem). destruct (Z.leb_spec (Z.sgn (mag sdiv - mag rem)) 0) as [Hle|Hgt].
    - wp_bind. eapply wp_mono; [by apply wp_bint_bit_set; [|lia]|].
      intros [quot' rc] m1 [(-> & Hq' & [Nq' Eq'] & Hl1)|(-> & -> & Hl1 & Ho)].
      + change (0 <? 0) with false. cbv iota. wp_bind.
        apply wp_mag_sub; try apply Hr; try apply Hs; [done|by left|lia|unfold owned in *; lia|].
        intros rem' m2 Hr' Nr' Er' Hl2. apply wp_ret. split; [lia|].
        rewrite setbit_clear in Eq' by (rewrite ?Z.add_1_r, <- ?Nat2Z.inj_succ; lia).
        split_and!; try done; [congruence|congruence|lia|lia|].
        rewrite Eq', Ep in *. rewrite <- (Z.mul_1_l (2 ^ Z.of_nat n)) at 1. rewrite Z_mod_plus_full.
        pose proof (Z.div_mod (mag quot) (2 * 2 ^ Z.of_nat n) ltac:(lia)) as Hdm. rewrite HQ0 in Hdm.
        rewrite Hdm, Z.add_0_r.
        replace (2 * 2 ^ Z.of_nat n * (mag quot / (2 * 2 ^ Z.of_nat n))) with
          (2 * (mag quot / (2 * 2 ^ Z.of_nat n)) * 2 ^ Z.of_nat n) by ring. apply Z_mod_mult.
      + change (-1 <? 0) with true. cbv iota. apply wp_ret. split; [lia|]. split_and!; [apply Hr|apply Hq|done].
    - apply wp_ret. split; [lia|]. split_and!; try done; [lia|].
      rewrite Ep in HQ0. pose proof (Z.div_mod (mag quot) (2 * 2 ^ Z.of_nat n) ltac:(lia)) as Hdm.
      rewrite HQ0 in Hdm. rewrite Hdm, Z.add_0_r.
      replace (2 * 2 ^ Z.of_nat n * (mag quot / (2 * 2 ^ Z.of_nat n))) with
        (2 * (mag quot / (2 * 2 ^ Z.of_nat n)) * 2 ^ Z.of_nat n) by ring. apply Z_mod_mult. }
  intros [[rem' quot'] failed] m1 [Hl1 Hf]. destruct failed.
  - destruct Hf as (Hne1 & Hne2 & Ho). apply wp_ret. apply H2; try done; [apply Hs|lia].
  - destruct Hf as (Hr' & Hq' & Nq' & Nr' & EN' & HR' & HQ').
    wp_bind. apply wp_bint_shift_right; [apply Hs|apply Hs|lia|lia|].
    intros sdiv' m2 Hs' Ns' Es' _ Hl2. apply IH.
    + split_and!; try done. by rewrite Es', Esd, Z.pow_1_r.
    + lia.
    + intros s3 r3 q3 m3 Hinv3 Hl3. apply H1; [done|lia].
    + intros Ho s3 r3 q3 m3 ? ? ? Hl3. apply H2; try done. lia.
Qed.

(** Where adding one loses the carry. *)
Lemma add_one_lost c : chain_ok c -> cval c mod 2 ^ 160 <> 2 ^ 160 - 1 -> add_lost c (digits bint_one) = 0.
Proof.
  intros Hc Hm. unfold add_lost. destruct (add_loses c (digits bint_one)) eqn:E; [|done].
  exfalso. unfold add_loses in E. cbn [digits bint_one length] in E.
  destruct c as [|x [|y c]]; [done|done|]. cbn [drop] in E. apply andb_true_iff in E as [E1 E2].
  apply Z.leb_le in E1. apply Z.eqb_eq in E2. cbn [take cval length digits bint_one] in E1.
  change (dval [1; 0; 0; 0]) with 1 in E1. change (2 ^ (128 * Z.of_nat 1)) with (2 ^ 128) in E1.
  apply Forall_cons in Hc as [Hx Hc]. apply Forall_cons in Hc as [Hy Hc].
  apply chunk_ok_bound in Hx. apply Hm. rewrite !cval_cons. destruct Hy as [Hly Hy].
  destruct y as [|y0 y]; [done|]. change ((y0 :: y) !!! 0%nat) with y0 in E2. cbn [dval]. subst y0.
  symmetry. apply Z.mod_unique with (dval y + 2 ^ 96 * cval c); lia.
Qed.

(** The quotient and the remainder of [bint_div]. *)
Definition div_result (a b q r : bint) : Prop :=
  bint_wf q /\ bint_wf r /\
  if Bool.eqb (negative a) (negative b) then
    bval q = mag a / mag b /\ negative r = negative b /\ mag r = mag a mod mag b
  else
    bval q = - (mag a / mag b + 1) /\ negative r = negative b /\ mag r = mag b - mag a mod mag b.

Lemma wp_div_sign a b rem quot m Q :
  bint_wf a -> bint_wf b -> small a -> small b -> 0 < mag b -> bint_wf rem -> bint_wf quot ->
  negative quot = false -> mag quot = mag a / mag b -> mag rem = mag a mod mag b ->
  (negative a <> negative b -> (mag a / mag b) mod 2 ^ 160 <> 2 ^ 160 - 1) ->
  small rem -> small quot -> (owned rem + owned quot <= live m)%nat ->
  (forall rem' quot' m', div_result a b quot' rem' ->
     (live m' + (owned rem + owned quot))%nat = (live m + (owned rem' + owned quot'))%nat ->
     Q (rem', quot', false) m') ->
  (oom malloc_ok -> forall rem' quot' m', digits rem' <> [] -> digits quot' <> [] ->
     (live m' + (owned rem + owned quot))%nat = (live m + (owned rem' + owned quot'))%nat ->
     Q (rem', quot', true) m') ->
  wp (div_sign malloc_ok a b rem quot) m Q.
Proof.
  intros Ha Hb Hsa Hsb HD Hr Hq Nq Eq Er Hlost Hsr Hsq Hl H1 H2. unfold div_sign.
  set (rem1 := mk_bint (negative b) (digits rem)).
  assert (bint_wf rem1) as Hr1 by by apply set_negative_wf.
  assert (((negative b && negb (negative a)) || (negb (negative b) && negative a))%bool =
    negb (Bool.eqb (negative a) (negative b))) as -> by by destruct (negative a), (negative b).
  pose proof (Z.mod_pos_bound (mag a) (mag b) HD) as Hmb.
  destruct (Bool.eqb (negative a) (negative b)) eqn:Esg; cbn [negb].
  { apply wp_ret. apply H1; [|done]. unfold div_result. rewrite Esg. split_and!; try done.
    unfold bval. by rewrite Nq. }
  apply eqb_false_iff in Esg as Hne.
  wp_bind. eapply wp_mono; [apply wp_bint_add; [done|apply bint_zero_val|done|done|lia]|].
  intros [quot' rc] m1 [(-> & Hq' & Eq' & Hl1)|(-> & -> & Hl1 & Ho)].
  2: { change (-1 <? 0) with true. cbv iota. apply wp_ret. apply H2; [done|apply Hr|apply Hq|].
       change (owned rem1) with (owned rem). lia. }
  change (0 <? 0) with false. cbv iota. unfold sum_lost in Eq'. rewrite Nq in Eq'.
  change (negative bint_one) with false in Eq'. cbn [Bool.eqb] in Eq'.
  rewrite add_one_lost in Eq' by (first [apply Hq | fold (mag quot); rewrite Eq; by apply Hlost]).
  change (bval bint_one) with 1 in Eq'. unfold bval at 2 in Eq'. rewrite Nq in Eq'.
  wp_bind. eapply wp_mono; [apply wp_bint_sub; [done|done|done|done|unfold owned in *; cbn [rem1 digits]; lia]|].
  intros [rem2 rc] m2 [(-> & Hr2 & Er2 & Hl2)|(-> & -> & Hl2 & Ho)].
  2: { change (-1 <? 0) with true. cbv iota. apply wp_ret. apply H2; [done|apply Hr|apply Hq'|].
       change (owned rem1) with (owned rem). lia. }
  change (0 <? 0) with false. cbv iota. apply wp_ret. apply H1.
  - unfold div_result. rewrite Esg.
    pose proof (mag_nonneg _ (wf_chain _ Hq')). pose proof (mag_nonneg _ (wf_chain _ Hr2)).
    pose proof (Z.div_pos (mag a) (mag b) (mag_nonneg _ (wf_chain _ Ha)) HD).
    split_and!; [by apply set_negative_wf|by apply set_negative_wf| |done|].
    + unfold bval at 1, mag at 1. cbn [negative digits]. fold (mag quot').
      unfold bval in Eq'. destruct (negative quot'); lia.
    + unfold mag at 1. cbn [digits]. fold (mag rem2).
      unfold sum_lost in Er2. change (negative rem1) with (negative b) in Er2.
      replace (Bool.eqb (negative b) (negb (negative b))) with false in Er2 by by destruct (negative b).
      unfold bval in Er2. change (negative rem1) with (negative b) in Er2. change (mag rem1) with (mag rem) in Er2.
      destruct (negative rem2), (negative b); lia.
  - unfold owned in *. cbn [digits rem1] in *. lia.
Qed.

(** The optional outputs. *)
Definition owned_opt (o : option bint) : nat := match o with Some b => owned b | None => 0 end.
Definition opt_ne (o : option bint) : Prop := match o with Some b => digits b <> [] | None => True end.

Lemma wp_div_fail q r rem sdiv quot m Q :
  digits rem <> [] -> digits sdiv <> [] -> digits quot <> [] ->
  (owned rem + owned sdiv + owned quot <= live m)%nat ->
  (forall m', (live m' + (owned rem + owned sdiv + owned quot))%nat = live m -> Q (q, r, -1) m') ->
  wp (div_fail q r rem sdiv quot) m Q.
Proof.
  intros H1 H2 H3 Hl HQ. unfold div_fail.
  wp_bind. apply wp_bint_destroy; [done|lia|]. intros m1 Hm1.
  wp_bind. apply wp_bint_destroy; [done|lia|]. intros m2 Hm2.
  wp_bind. apply wp_bint_destroy; [done|lia|]. intros m3 Hm3.
  apply wp_ret. apply HQ. lia.
Qed.

(** The shifted divisor is well formed unless the dividend fills its chunks. *)
Definition div_aligned (a b : bint) : Prop :=
  bitlen (mag a) mod 128 <> 0 \/ bitlen (mag a) <= bitlen (mag b).

Lemma wp_bint_div oq a b orr m :
  bint_wf a -> bint_wf b -> bitlen (mag a) < 2 ^ 31 - 128 -> bitlen (mag b) < 2 ^ 31 - 128 ->
  mag b <> 0 -> div_aligned a b ->
  (negative a <> negative b -> (mag a / mag b) mod 2 ^ 160 <> 2 ^ 160 - 1) ->
  opt_ne oq -> opt_ne orr -> (owned_opt oq + owned_opt orr <= live m)%nat ->
  wp (bint_div malloc_ok oq a b orr) m (fun '(oq', or', rc) m' =>
    rc = 0 /\ (exists q r, div_result a b q r /\
      oq' = (_ ← oq; Some q)%stdpp /\ or' = (_ ← orr; Some r)%stdpp) /\
      (live m' + (owned_opt oq + owned_opt orr))%nat =
        (live m + (owned_opt oq' + owned_opt or'))%nat \/
    rc = -1 /\ oq' = oq /\ or' = orr /\ live m' = live m /\ oom malloc_ok).
Proof.
  intros Ha Hb Hla Hlb Hb0 Hal Hlost Hoq Hor Hl. unfold bint_div.
  pose proof (small_bitlen a Ha Hla) as Hsa. pose proof (small_bitlen b Hb Hlb) as Hsb.
  rewrite !bit_length_wf by done.
  pose proof (mag_nonneg _ (wf_chain _ Ha)) as Hma. pose proof (mag_nonneg _ (wf_chain _ Hb)) as Hmb.
  pose proof (bitlen_nonneg (mag a)) as Hna. pose proof (bitlen_nonneg (mag b)) as Hnb.
  pose proof (bitlen_upper _ Hma) as Hua. pose proof (bitlen_lower (mag b) ltac:(lia)) as Hlow.
  assert (1 <= bitlen (mag b)) as Hb1.
  { unfold bitlen. destruct (Z.eqb_spec (mag b) 0); [lia|]. pose proof (Z.log2_nonneg (mag b)). lia. }
  destruct (Z.eqb_spec (bitlen (mag b)) 0); [lia|].
  wp_bind. apply wp_bint_init; [done|]. intros m1 Hm1. wp_bind. apply wp_bint_init; [done|]. intros m2 Hm2.
  wp_bind. apply wp_bint_init; [done|]. intros m3 Hm3.
  pose proof (bint_of_wf 0) as [Hz Hzo]. set (z := bint_of 0) in *.
  wp_bind. eapply wp_mono; [apply wp_bint_copy; [apply Hz|done|done|lia]|].
  intros [sd rc] m4 [(-> & _ & -> & Hm4)|(-> & -> & Hm4 & Ho)]; [change (0 <? 0) with false|change (-1 <? 0) with true]; cbv iota.
  2: { apply wp_div_fail; try apply Hz; [lia|]. intros m5 Hm5. right. split_and!; try done. lia. }
  set (pos := if bitlen (mag b) <? bitlen (mag a) then bitlen (mag a) - bitlen (mag b) else 0).
  assert (pos = Z.max 0 (bitlen (mag a) - bitlen (mag b))) as Epos.
  { unfold pos. destruct (Z.ltb_spec (bitlen (mag b)) (bitlen (mag a))); lia. }
  wp_bind. apply (wp_mono _ _ (fun '(sd, rc) m' =>
    rc = 0 /\ bint_wf sd /\ mag sd = mag b * 2 ^ pos /\ (live m' + owned b)%nat = (live m4 + owned sd)%nat \/
    rc = -1 /\ sd = b /\ live m' = live m4 /\ oom malloc_ok)).
  { destruct (Z.ltb_spec (bitlen (mag b)) (bitlen (mag a))) as [Hlt|Hge].
    - eapply wp_mono; [apply wp_bint_shift_left; [done|done|lia]|].
      intros [sd rc] m5 [(-> & _ & _ & _ & Em & _ & Hwf & Hm5)|Hf]; [left|by right].
      split_and!; try done. apply Hwf. unfold div_aligned in Hal.
      replace (bitlen (mag b) + pos) with (bitlen (mag a)) by lia. lia.
    - apply wp_ret. left. split_and!; try done. replace pos with 0 by lia. lia. }
  intros [sd rc] m5 [(-> & Hsd & Esd & Hm5)|(-> & -> & Hm5 & Ho)]; [change (0 <? 0) with false|change (-1 <? 0) with true]; cbv iota.
  2: { apply wp_div_fail; try apply Hz; [apply Hb|lia|]. intros m6 Hm6. right. split_and!; try done. lia. }
  wp_bind. eapply wp_mono; [apply wp_bint_copy; [apply Hz|done|done|lia]|].
  intros [rm rc] m6 [(-> & _ & -> & Hm6)|(-> & -> & Hm6 & Ho)]; [change (0 <? 0) with false|change (-1 <? 0) with true]; cbv iota.
  2: { apply wp_div_fail; try apply Hz; [apply Hsd|lia|]. intros m7 Hm7. right. split_and!; try done. lia. }
  pose proof (Z.pow_pos_nonneg 2 pos ltac:(lia) ltac:(lia)) as Hpp.
  wp_bind. apply (wp_div_loop (mag a) (mag b) ltac:(lia)).
  - split_and!; [by apply set_negative_wf|by apply set_negative_wf|done|done|done| |done| |done].
    + unfold mag at 1. cbn [digits]. fold (mag sd). rewrite Z2Nat.id, Z.pow_add_r, Esd by lia.
      replace (mag b * (2 ^ pos * 2 ^ 1)) with (mag b * 2 ^ pos * 2) by lia. by rewrite Z.div_mul.
    + unfold mag at 1. cbn [digits]. fold (mag a). rewrite Z2Nat.id by lia.
      apply Z.lt_le_trans with (2 ^ bitlen (mag a)); [done|].
      apply Z.le_trans with (2 ^ (bitlen (mag b) - 1) * 2 ^ (pos + 1)).
      * rewrite <- Z.pow_add_r by lia. apply Z.pow_le_mono_r; lia.
      * apply Z.mul_le_mono_nonneg_r; [apply Z.pow_nonneg|]; lia.
  - unfold owned in *. cbn [digits] in *. lia.
  - intros sd7 rm7 qt7 m7 Hinv Hm7. cbv iota.
    assert (owned (mk_bint false (digits sd)) = owned sd) as E1 by done. rewrite E1 in Hm7.
    assert (owned (mk_bint false (digits a)) = owned a) as E2 by done. rewrite E2 in Hm7. clear E1 E2.
    destruct Hinv as (Hs7 & Hr7 & Hq7 & Nq7 & Nr7 & _ & EN & HR7 & _).
    change (2 ^ Z.of_nat 0) with 1 in HR7. pose proof (mag_nonneg _ (wf_chain _ Hr7)) as Hr7n.
    assert (mag qt7 = mag a / mag b) as Eq7 by (apply Z.div_unique with (mag rm7); lia).
    assert (mag rm7 = mag a mod mag b) as Er7 by (apply Z.mod_unique with (mag qt7); lia).
    assert (small rm7) as Hsr.
    { apply small_bitlen; [done|]. pose proof (bitlen_mono (mag rm7) (mag b) ltac:(lia)). lia. }
    assert (small qt7) as Hsq.
    { apply small_bitlen; [done|]. pose proof (mag_nonneg _ (wf_chain _ Hq7)).
      pose proof (bitlen_mono (mag qt7) (mag a) ltac:(nia)). lia. }
    wp_bind. apply wp_div_sign; try done; [lia|lia| |].
    + intros rm8 qt8 m8 Hres Hm8. cbv iota. pose proof Hres as (Hq8 & Hr8 & _).
      destruct orr as [r0|], oq as [q0|]; cbn [owned_opt opt_ne mbind option_bind] in *;
        (wp_bind; apply wp_bint_destroy; [done || apply Hr8|lia|]; intros m9 Hm9;
         wp_bind; apply wp_bint_destroy; [apply Hs7|lia|]; intros m10 Hm10;
         wp_bind; apply wp_bint_destroy; [done || apply Hq8|lia|]; intros m11 Hm11;
         apply wp_ret; left; split_and!; [done|by exists qt8, rm8|cbn [owned_opt]; lia]).
    + intros Ho rm8 qt8 m8 Hne1 Hne2 Hm8. cbv iota. apply wp_div_fail; [done|apply Hs7|done|lia|].
      intros m9 Hm9. right. split_and!; try done. lia.
  - intros Ho sd7 rm7 qt7 m7 Hne1 Hne2 Hne3 Hm7. cbv iota.
    assert (owned (mk_bint false (digits sd)) = owned sd) as E1 by done. rewrite E1 in Hm7.
    assert (owned (mk_bint false (digits a)) = owned a) as E2 by done. rewrite E2 in Hm7.
    apply wp_div_fail; try done; [lia|]. intros m8 Hm8. right. split_and!; try done. lia.
Qed.
End div.
