(* ===== verification/BintMain.v ===== *)
(** The theorems of bint.c: what each operation of the public interface computes,
    on well-formed numbers, with every chunk accounted for. *)
From S2P Require Import Prelude Bint BintOps BintDigits BintMag BintLen BintArith BintMul BintBits BintBitops BintBasic BintShift BintDiv.

(** Deciding well-formedness, for the concrete runs below. *)
Definition wf_b (b : bint) : bool :=
  forallb (fun c => (length c =? BINT_CHUNK_SIZE)%nat &&
    forallb (fun d => (0 <=? d) && (d <? 2 ^ 32)) c)%bool (digits b) &&
  match last (digits b) with
  | None => false
  | Some top => (length (digits b) <=? 1)%nat || negb (dval top =? 0)
  end.

Lemma wf_b_sound b : wf_b b = true -> bint_wf b.
Proof.
  unfold wf_b. intros [H1 H2]%andb_true_iff. split.
  - apply Forall_forall. intros c Hc. rewrite forallb_forall in H1.
    specialize (H1 c (proj1 (list_elem_of_In _ _) Hc)). apply andb_true_iff in H1 as [Hl Hd].
    apply Nat.eqb_eq in Hl. split; [done|]. apply Forall_forall. intros d Hdc.
    rewrite forallb_forall in Hd. specialize (Hd d (proj1 (list_elem_of_In _ _) Hdc)). unfold digit. lia.
  - by destruct (digits b).
  - destruct (last (digits b)) as [top|] eqn:E; [|done].
    apply orb_true_iff in H2 as [H2|H2]; [left; by apply Nat.leb_le|right].
    apply last_Some in E as [c' ->]. exists c', top. split; [done|].
    by apply negb_true_iff, Z.eqb_neq in H2.
Qed.

Section bint.
Context (malloc_ok : nat -> bool).

(** C10. [bint_add] and [bint_sub]: unless an allocation fails, in which case
    the status is -1 and nothing has changed, the destination is a well-formed
    number, and its value is the sum (the difference) less [sum_lost], which is
    zero unless the signs make this an addition of magnitudes whose carry
    leaves the chunks of the source and meets a component with all bits set.
    No chunk is lost or freed twice. *)
Theorem bint_add_sub_value dst src m :
  bint_wf dst -> bint_wf src -> small dst -> small src -> (owned dst <= live m)%nat ->
  wp (bint_add malloc_ok dst src) m (outcome malloc_ok dst m (fun b =>
    bval b = bval dst + bval src - sum_lost (negative src) dst src)) /\
  wp (bint_sub malloc_ok dst src) m (outcome malloc_ok dst m (fun b =>
    bval b = bval dst - bval src - sum_lost (negb (negative src)) dst src)).
Proof. intros. split; [by apply wp_bint_add|by apply wp_bint_sub]. Qed.

(** C11. [bint_mul] multiplies: unless an allocation fails, it succeeds and the
    result is the signed product, provided no accumulation of a chunk and an
    incoming carry overflows a chunk ([mul_fits]), which cannot happen when one
    of the factors has a single chunk.  No chunk is lost. *)
Theorem bint_mul_value result a b m :
  chain_ok (digits result) -> digits result <> [] -> bint_wf a -> bint_wf b -> small a -> small b ->
  length (digits a) = 1%nat \/ length (digits b) = 1%nat \/ mul_fits a b ->
  wp (bint_mul malloc_ok result a b) m (fun '(r, rc) m' =>
    rc = 0 /\ bval r = bval a * bval b /\
      (live m' + owned result)%nat = (live m + owned r)%nat \/
    rc = -1 /\ r = result /\ live m' = live m /\ oom malloc_ok).
Proof.
  intros Hr Hrn Ha Hb Hsa Hsb Hf. eapply wp_mono; [by apply (wp_bint_mul _ result a b)|].
  intros [r rc] m' [(-> & _ & _ & Hv & Hl)|H]; [left|by right]. split_and!; [done| |done].
  apply Hv. destruct Hf as [Hf|[Hf|Hf]]; [apply mul_fits_single; auto..|done].
Qed.

(** C12. [bint_div] divides, when the bits of the dividend do not fill whole
    chunks or the divisor is as long: unless an allocation fails, in which case
    the status is -1 and the outputs have not changed, the outputs that are
    asked for hold a quotient and a remainder with
    [dividend = divisor * quotient + remainder], the remainder has the sign
    of the divisor and is at most as large in magnitude, and smaller when the
    signs agree.  For opposite signs, where the code adds one to the quotient of
    the magnitudes, the low 160 bits of that quotient must not all be set, since
    the carry would be lost.  Outside these conditions the code can be wrong
    ([bint_div_unaligned]).  Every temporary is freed. *)
Theorem bint_div_value oq a b orr m :
  bint_wf a -> bint_wf b -> bitlen (mag a) < 2 ^ 31 - 128 -> bitlen (mag b) < 2 ^ 31 - 128 ->
  mag b <> 0 -> div_aligned a b ->
  (negative a <> negative b -> (mag a / mag b) mod 2 ^ 160 <> 2 ^ 160 - 1) ->
  opt_ne oq -> opt_ne orr -> (owned_opt oq + owned_opt orr <= live m)%nat ->
  wp (bint_div malloc_ok oq a b orr) m (fun '(oq', or', rc) m' =>
    rc = 0 /\ (exists q r, bint_wf q /\ bint_wf r /\
      bval a = bval b * bval q + bval r /\ negative r = negative b /\
      mag r <= mag b /\ (negative a = negative b -> mag r < mag b) /\
      oq' = (_ ← oq; Some q)%stdpp /\ or' = (_ ← orr; Some r)%stdpp) /\
      (live m' + (owned_opt oq + owned_opt orr))%nat =
        (live m + (owned_opt oq' + owned_opt or'))%nat \/
    rc = -1 /\ oq' = oq /\ or' = orr /\ live m' = live m /\ oom malloc_ok).
Proof.
  intros Ha Hb Hla Hlb Hb0 Hal Hlost Hoq Hor Hl. eapply wp_mono; [by apply (wp_bint_div _ oq a b)|].
  intros [[oq' or'] rc] m' [(-> & (q & r & (Hq & Hr & Hres) & E1 & E2) & Hm)|H]; [left|by right].
  split_and!; [done| |done]. exists q, r.
  pose proof (mag_nonneg _ (wf_chain _ Hb)) as Hmb. pose proof (Z.mod_pos_bound (mag a) (mag b) ltac:(lia)) as Hmod.
  pose proof (Z.div_mod (mag a) (mag b) Hb0) as Hdm.
  destruct (Bool.eqb (negative a) (negative b)) eqn:Es.
  - apply eqb_prop in Es. destruct Hres as (Eq & Nr & Er). split_and!; try done; [|lia|lia].
    rewrite Eq. unfold bval. rewrite Nr, Er, Es. destruct (negative b); nia.
  - apply eqb_false_iff in Es. destruct Hres as (Eq & Nr & Er). split_and!; try done; [|lia].
    rewrite Eq. unfold bval. rewrite Nr, Er. destruct (negative a), (negative b); try done; nia.
Qed.

(** C13. [bint_shift_left] multiplies by a power of two, allocating the chunks
    it needs, and [bint_shift_right] divides by one, rounding the magnitude
    down and freeing the chunks that become zero; both keep the sign. *)
Theorem bint_shift_value b count m :
  bint_wf b -> small b -> 0 <= count < 2 ^ 31 -> (owned b <= live m)%nat ->
  wp (bint_shift_left malloc_ok b count) m (fun '(b', rc) m' =>
    rc = 0 /\ negative b' = negative b /\ mag b' = mag b * 2 ^ count /\
      ((bitlen (mag b) + count) mod 128 <> 0 -> bint_wf b') /\
      (live m' + owned b)%nat = (live m + owned b')%nat \/
    rc = -1 /\ b' = b /\ live m' = live m /\ oom malloc_ok) /\
  wp (bint_shift_right b count) m (fun b' m' =>
    bint_wf b' /\ negative b' = negative b /\ mag b' = mag b / 2 ^ count /\
    (live m' + owned b)%nat = (live m + owned b')%nat).
Proof.
  intros Hb Hs Hc Hl. split.
  - eapply wp_mono; [by apply wp_bint_shift_left|].
    intros [b' rc] m' [(-> & _ & _ & Hn & Hm & _ & Hw & Hlive)|H]; [left|by right].
    by split_and!.
  - apply wp_bint_shift_right; [apply Hb|apply Hb|lia|done|]. intros b' m' Hw Hn Hm _ Hlive. by split_and!.
Qed.

(** C14. Base conversion round trip: [bint_digit_push] makes the number
    [b * base + digit], unless an allocation fails and nothing changes, and
    [bint_digit_pop] then returns the digit and leaves the very same number as
    before the push, chunks and all. *)
Theorem bint_digit_roundtrip b base d m :
  bint_wf b -> small b -> digit base -> 0 <= d < base -> (owned b <= live m)%nat ->
  wp (bint_digit_push malloc_ok b base d) m (outcome malloc_ok b m (fun b1 =>
    negative b1 = negative b /\ mag b1 = mag b * base + d /\
    forall m1, (owned b1 <= live m1)%nat ->
      wp (bint_digit_pop b1 base) m1 (fun x m2 => x = (b, d) /\
        (live m2 + owned b1)%nat = (live m1 + owned b)%nat))).
Proof.
  intros Hb Hs Hbase Hd Hl. eapply wp_mono; [by apply wp_bint_digit_push|].
  intros [b1 rc] m1 [(-> & Hb1 & [Hn Hm] & Hlive)|H]; [left|by right].
  split_and!; try done. intros m2 Hl2. apply wp_bint_digit_pop; [done|unfold digit in Hbase; lia|done|].
  intros b2 m3 Hb2 Hn2 Hm2 Hl3.
  assert (mag b1 / base = mag b) as Ediv by (symmetry; apply Z.div_unique with d; lia).
  assert (mag b1 mod base = d) as Emod by (symmetry; apply Z.mod_unique with (mag b); lia).
  rewrite Emod. assert (b2 = b) as -> by (apply wf_inj; [done|done|congruence|lia]). done.
Qed.

(** C15. Bits: [bint_bit_length] is the index after the most significant one of
    the magnitude, [bint_bit_get] tests a bit of it, [bint_bit_set] and
    [bint_bit_clear] change just that bit; [bint_or], [bint_and], [bint_bic] and
    [bint_xor] are the bitwise operations on magnitudes.  All keep the sign of
    the destination, leave a well-formed number and account for every chunk;
    only those that can add digits can fail, and then change nothing. *)
Theorem bint_bits dst src pos m :
  bint_wf dst -> bint_wf src -> small dst -> small src -> 0 <= pos ->
  (owned dst <= live m)%nat ->
  let grows_to v := outcome malloc_ok dst m (fun b =>
    negative b = negative dst /\ mag b = v) in
  let becomes v b' m' := bint_wf b' /\ negative b' = negative dst /\ mag b' = v /\
    (live m' + owned dst)%nat = (live m + owned b')%nat in
  bint_bit_length dst = (if mag dst =? 0 then 0 else Z.log2 (mag dst) + 1) /\
  bint_bit_get dst pos = Z.b2z (Z.testbit (mag dst) pos) /\
  wp (bint_bit_set malloc_ok dst pos) m (grows_to (Z.setbit (mag dst) pos)) /\
  wp (bint_bit_clear dst pos) m (becomes (Z.clearbit (mag dst) pos)) /\
  wp (bint_or malloc_ok dst src) m (grows_to (Z.lor (mag dst) (mag src))) /\
  wp (bint_xor malloc_ok dst src) m (grows_to (Z.lxor (mag dst) (mag src))) /\
  wp (bint_and dst src) m (becomes (Z.land (mag dst) (mag src))) /\
  wp (bint_bic dst src) m (becomes (Z.ldiff (mag dst) (mag src))).
Proof.
  intros Hd Hs Hsd Hss Hp Hl grows_to becomes. split_and!.
  - by apply bit_length_wf.
  - by apply bit_get_chain_spec; [apply Hd|].
  - by apply wp_bint_bit_set.
  - by apply wp_bint_bit_clear.
  - by apply wp_bint_or.
  - by apply wp_bint_xor.
  - by apply wp_bint_and.
  - by apply wp_bint_bic.
Qed.

(** C17. Values: a number made from any 32-bit [int] but the least, for which C does
    not define the code ([bint_set_least]), is well formed and reads back as that
    [int]; [bint_get] truncates any other number to 32 bits, when that is not the
    least [int] of a negative number, where it is undefined too;
    [bint_get_sign] is its sign; [bint_compare] is the order of the integers,
    for numbers that are not a negative zero.  [bint_copy]: unless an allocation
    fails and nothing changes, the destination becomes an exact copy of the
    source, whatever it held, and the chunks it does not need are freed;
    [bint_set] and [bint_destroy] free all chunks of the number. *)
Theorem bint_values a b v m :
  digits a <> [] -> bint_wf b -> - 2 ^ 31 < v < 2 ^ 31 ->
  bint_wf (bint_of v) /\ bval (bint_of v) = v /\ bint_get (bint_of v) = Some v /\
  ((negative b = true -> i32 (bval b) <> - 2 ^ 31) -> bint_get b = Some (i32 (bval b))) /\ bint_get_sign b = Z.sgn (bval b) /\
  (bint_wf a -> canonical a -> canonical b -> bint_compare a b = Z.sgn (bval a - bval b)) /\
  ((owned a <= live m)%nat ->
    (small b -> wp (bint_copy malloc_ok a b) m (outcome malloc_ok a m (fun b' => b' = b))) /\
    wp (bint_set a v) m (fun b' m' => b' = bint_of v /\ (live m' + owned a)%nat = live m) /\
    wp (bint_destroy a) m (fun _ m' => (live m' + owned a)%nat = live m)).
Proof.
  intros Hd Hb Hv. pose proof (bint_of_wf v) as [Hw _]. pose proof (bint_of_val v ltac:(lia)) as Ev.
  assert (i32 v = v) as Ei by (apply i32_small; lia). split_and!; try done.
  - rewrite bint_get_val, Ev, Ei; [done|done|]. rewrite Ev, Ei. lia.
  - by apply bint_get_val.
  - by apply bint_get_sign_spec.
  - intros. by apply bint_compare_val.
  - intros Hl. split_and!; [|apply wp_bint_set; by (done || lia)|by apply wp_bint_destroy].
    intros Hs. by apply wp_bint_copy.
Qed.
End bint.

(** * Concrete runs *)

(** 2^130 - 1, 2^32 + 5 and -7; one chunk is allocated. *)
Definition ex_a : bint := mk_bint false [[2 ^ 32 - 1; 2 ^ 32 - 1; 2 ^ 32 - 1; 2 ^ 32 - 1]; [3; 0; 0; 0]].
Definition ex_b : bint := mk_bint false [[5; 1; 0; 0]].
Definition ex_7 : bint := mk_bint true [[7; 0; 0; 0]].
Definition ex_mem : mem := mk_mem 0 1.
(** An allocator that never fails. *)
Definition ex_malloc (n : nat) : bool := true.

Lemma ex_a_wf : bint_wf ex_a.
Proof. by apply wf_b_sound. Qed.
Lemma ex_b_wf : bint_wf ex_b.
Proof. by apply wf_b_sound. Qed.
Lemma ex_7_wf : bint_wf ex_7.
Proof. by apply wf_b_sound. Qed.

Lemma bint_add_sub_value_witness :
  wp (bint_add ex_malloc ex_a ex_b) ex_mem (outcome ex_malloc ex_a ex_mem (fun b =>
    bval b = bval ex_a + bval ex_b - sum_lost (negative ex_b) ex_a ex_b)) /\
  wp (bint_sub ex_malloc ex_a ex_b) ex_mem (outcome ex_malloc ex_a ex_mem (fun b =>
    bval b = bval ex_a - bval ex_b - sum_lost (negb (negative ex_b)) ex_a ex_b)).
Proof.
  apply (bint_add_sub_value ex_malloc ex_a ex_b ex_mem);
    [apply ex_a_wf|apply ex_b_wf|done|done|unfold owned; simpl; lia].
Defined.

Lemma bint_mul_value_witness :
  wp (bint_mul ex_malloc bint_zero ex_a ex_7) ex_mem (fun '(r, rc) m' =>
    rc = 0 /\ bval r = bval ex_a * bval ex_7 /\
      (live m' + owned bint_zero)%nat = (live ex_mem + owned r)%nat \/
    rc = -1 /\ r = bint_zero /\ live m' = live ex_mem /\ oom ex_malloc).
Proof.
  apply (bint_mul_value ex_malloc bint_zero ex_a ex_7 ex_mem);
    [apply bint_zero_val|done|apply ex_a_wf|apply ex_7_wf|done|done|right; by left].
Defined.

Lemma bint_div_value_witness :
  wp (bint_div ex_malloc (Some bint_zero) ex_a ex_7 None) ex_mem (fun '(oq', or', rc) m' =>
    rc = 0 /\ (exists q r, bint_wf q /\ bint_wf r /\
      bval ex_a = bval ex_7 * bval q + bval r /\ negative r = negative ex_7 /\
      mag r <= mag ex_7 /\ (negative ex_a = negative ex_7 -> mag r < mag ex_7) /\
      oq' = Some q /\ or' = None) /\
      (live m' + (owned_opt (Some bint_zero) + owned_opt None))%nat =
        (live ex_mem + (owned_opt oq' + owned_opt or'))%nat \/
    rc = -1 /\ oq' = Some bint_zero /\ or' = None /\ live m' = live ex_mem /\ oom ex_malloc).
Proof.
  apply (bint_div_value ex_malloc (Some bint_zero) ex_a ex_7 None ex_mem);
    [apply ex_a_wf|apply ex_7_wf|done|done|done|left; done|done|done|done|simpl; lia].
Defined.

Lemma bint_shift_value_witness :
  wp (bint_shift_left ex_malloc ex_a 200) ex_mem (fun '(b', rc) m' =>
    rc = 0 /\ negative b' = negative ex_a /\ mag b' = mag ex_a * 2 ^ 200 /\
      ((bitlen (mag ex_a) + 200) mod 128 <> 0 -> bint_wf b') /\
      (live m' + owned ex_a)%nat = (live ex_mem + owned b')%nat \/
    rc = -1 /\ b' = ex_a /\ live m' = live ex_mem /\ oom ex_malloc) /\
  wp (bint_shift_right ex_a 200) ex_mem (fun b' m' =>
    bint_wf b' /\ negative b' = negative ex_a /\ mag b' = mag ex_a / 2 ^ 200 /\
    (live m' + owned ex_a)%nat = (live ex_mem + owned b')%nat).
Proof.
  apply (bint_shift_value ex_malloc ex_a 200 ex_mem);
    [apply ex_a_wf|done|lia|unfold owned; simpl; lia].
Defined.

Lemma bint_digit_roundtrip_witness :
  wp (bint_digit_push ex_malloc ex_a 10 7) ex_mem (outcome ex_malloc ex_a ex_mem (fun b1 =>
    negative b1 = negative ex_a /\ mag b1 = mag ex_a * 10 + 7 /\
    forall m1, (owned b1 <= live m1)%nat ->
      wp (bint_digit_pop b1 10) m1 (fun x m2 => x = (ex_a, 7) /\
        (live m2 + owned b1)%nat = (live m1 + owned ex_a)%nat))).
Proof.
  apply (bint_digit_roundtrip ex_malloc ex_a 10 7 ex_mem);
    [apply ex_a_wf|done|unfold digit; lia|lia|unfold owned; simpl; lia].
Defined.

Lemma bint_bits_witness :
  bint_bit_length ex_a = 130 /\ bint_bit_get ex_a 129 = 1 /\
  wp (bint_bit_clear ex_a 129) ex_mem (fun b' m' => bint_wf b' /\ negative b' = negative ex_a /\
    mag b' = Z.clearbit (mag ex_a) 129 /\ (live m' + owned ex_a)%nat = (live ex_mem + owned b')%nat) /\
  wp (bint_or ex_malloc ex_a ex_b) ex_mem (outcome ex_malloc ex_a ex_mem (fun b =>
    negative b = negative ex_a /\ mag b = Z.lor (mag ex_a) (mag ex_b))).
Proof.
  destruct (bint_bits ex_malloc ex_a ex_b 129 ex_mem) as (H1 & H2 & _ & H3 & H4 & _);
    [apply ex_a_wf|apply ex_b_wf|done|done|lia|unfold owned; simpl; lia|].
  split_and!; [exact H1|exact H2|exact H3|exact H4].
Defined.

Lemma bint_values_witness :
  bint_wf (bint_of (-12)) /\ bval (bint_of (-12)) = -12 /\ bint_get (bint_of (-12)) = Some (-12) /\
  bint_get ex_7 = Some (i32 (bval ex_7)) /\ bint_get_sign ex_7 = -1 /\
  bint_compare ex_a ex_7 = Z.sgn (bval ex_a - bval ex_7) /\
  wp (bint_copy ex_malloc ex_a ex_7) ex_mem (outcome ex_malloc ex_a ex_mem (fun b => b = ex_7)).
Proof.
  destruct (bint_values ex_malloc ex_a ex_7 (-12) ex_mem) as (H1 & H2 & H3 & H4 & H5 & H6 & H7);
    [done|apply ex_7_wf|lia|].
  split_and!; [exact H1|exact H2|exact H3|by apply H4|exact H5|by apply H6; [apply ex_a_wf|..]|].
  apply H7; [unfold owned; simpl; lia|done].
Defined.

(** * Where the code departs from its contract

    Runs of the model that show the limits in the hypotheses above to be those of
    the code. *)
Definition run {A} (c : M mem A) : option A :=
  match c (mk_mem 0 100) with Ok (_, a) => Some a | _ => None end.

Definition ones_chunk : chunk := replicate 4 (2 ^ 32 - 1).

(** [abs] of the least [int] overflows, and so does [bint_get] on its value. *)
Example bint_set_least b m : bint_set (mk_bint b [zero_chunk]) (- 2 ^ 31) m = Crash.
Proof. done. Qed.
Example bint_get_least : bval (mk_bint true [[2 ^ 31; 0; 0; 0]]) = - 2 ^ 31 /\ bint_get (mk_bint true [[2 ^ 31; 0; 0; 0]]) = None.
Proof. done. Qed.

(** (2^256 - 1) + 1: the carry into the second chunk stops at its first
    component. *)
Example mag_add_loses_carry :
  option_map (fun '(b, _) => bval b) (run (bint_add ex_malloc (mk_bint false [ones_chunk; ones_chunk]) bint_one))
  = Some (2 ^ 256 - 2 ^ 160).
Proof. by vm_compute. Qed.

(** (2^256 - 1)^2: a carry between two partial products is dropped. *)
Example chunk_mac_loses_carry :
  let a := mk_bint false [ones_chunk; ones_chunk] in
  option_map (fun '(b, _) => bval b) (run (bint_mul ex_malloc bint_zero a a)) <> Some (bval a * bval a).
Proof. by vm_compute. Qed.

(** 2^127 / 1: the shifted divisor has a leading zero chunk, and the top bit of
    the quotient is missed. *)
Example bint_div_unaligned :
  let a := mk_bint false [[0; 0; 0; 2 ^ 31]] in
  option_map (fun '(q, r, _) => (option_map bval q, option_map bval r))
    (run (bint_div ex_malloc (Some bint_zero) a bint_one (Some bint_zero)))
  = Some (Some (2 ^ 127 - 1), Some 1).
Proof. by vm_compute. Qed.

(** -8 / 2: the remainder is as large as the divisor. *)
Example bint_div_exact_negative :
  option_map (fun '(q, r, _) => (option_map bval q, option_map bval r))
    (run (bint_div ex_malloc (Some bint_zero) (bint_of (-8)) (bint_of 2) (Some bint_zero)))
  = Some (Some (-5), Some 2).
Proof. by vm_compute. Qed.

(** (2^63)^2: the square has a leading zero chunk, its bit length is taken to be
    zero, and the next multiplication runs off the end of its result. *)
Example bint_expt_crashes :
  bint_expt ex_malloc bint_zero (mk_bint false [[0; 2 ^ 31; 0; 0]]) (bint_of 2) (mk_mem 0 100) = Crash.
Proof. by vm_compute. Qed.

(** The sign of zero can be set, and zero is then less than zero. *)
Example negative_zero : bint_compare (bint_set_sign bint_zero (-1)) bint_zero = -1.
Proof. by vm_compute. Qed.
