(* ===== verification/Cbuf.v ===== *)
(** Model of src/cbuf.h and src/cbuf.c: circular buffers.

    [data] is the area the buffer refers to, [capacity], [head] and [size] are
    [size_t] fields with their arithmetic modulo 2^64.  A [memcpy] to or from
    outside an area and a division by a zero capacity are errors. *)
From S2P Require Import Prelude.

Record cbuf := mk_cbuf {
  data : list Z;
  capacity : Z;
  head : Z;
  size : Z;
}.

Definition cbuf_init (area : list Z) (cap : Z) : cbuf := mk_cbuf area cap 0 0.
Definition cbuf_clear (c : cbuf) : cbuf := mk_cbuf (data c) (capacity c) 0 0.

Definition cbuf_used (c : cbuf) : Z := size c.
Definition cbuf_avail (c : cbuf) : Z := u64 (capacity c - size c).
Definition cbuf_head (c : cbuf) : Z := head c.

(** [x % y] on [size_t] operands. *)
Definition umod (x y : Z) : option Z := if y =? 0 then None else Some (x mod y).

Definition cbuf_tail (c : cbuf) : option Z := umod (u64 (head c + size c)) (capacity c).

Definition cbuf_head_size (c : cbuf) : Z :=
  let r := u64 (capacity c - head c) in
  if r <? size c then r else size c.

Definition cbuf_tail_size (c : cbuf) : option Z :=
  match cbuf_tail c with
  | None => None
  | Some t => Some (u64 (capacity c - (if size c <? t then t else size c)))
  end.

Definition cbuf_head_advance (c : cbuf) (count : Z) : option cbuf :=
  let count := if size c <? count then size c else count in
  match umod (u64 (head c + count)) (capacity c) with
  | None => None
  | Some h => Some (mk_cbuf (data c) (capacity c) h (u64 (size c - count)))
  end.

Definition cbuf_tail_advance (c : cbuf) (count : Z) : cbuf :=
  let a := cbuf_avail c in
  let count := if a <? count then a else count in
  mk_cbuf (data c) (capacity c) (head c) (u64 (size c + count)).

Definition set_data (d : list Z) (c : cbuf) : cbuf := mk_cbuf d (capacity c) (head c) (size c).

(** [memcpy(cbuf_tail_data(c), bs, x)] *)
Definition cbuf_write_tail (c : cbuf) (bs : list Z) : option cbuf :=
  match cbuf_tail c with
  | None => None
  | Some t =>
      match write_at t bs (data c) with
      | None => None
      | Some d => Some (set_data d c)
      end
  end.

(** The bytes [memcpy(_, cbuf_head_data(c), x)] copies. *)
Definition cbuf_read_head (c : cbuf) (x : Z) : option (list Z) := read_at (head c) x (data c).

Definition fuel_of (c : cbuf) : nat := Datatypes.S (length (data c)).

(** [cbuf_move_in]: [src] is the flat area the bytes come from. *)
Definition move_in_step (src : list Z) (max_size count : Z) : M cbuf (Z + Z) :=
  c ← get;
  tail_size ← need (cbuf_tail_size c);
  let src_size := u64 (max_size - count) in
  let x := if tail_size <? src_size then tail_size else src_size in
  if x =? 0 then ret (inr count)
  else
    bs ← need (read_at count x src);
    c ← need (cbuf_write_tail c bs);
    put (cbuf_tail_advance c x);;
    ret (inl (u64 (count + x))).

Definition cbuf_move_in (src : list Z) (max_size : Z) : M cbuf Z :=
  fuel ← gets fuel_of;
  loop fuel (move_in_step src max_size) 0.

(** [cbuf_move_out]: the flat area the bytes go to is part of the state. *)
Definition move_out_step (max_size count : Z) : M (cbuf * list Z) (Z + Z) :=
  ' (c, dst) ← get;
  let head_size := cbuf_head_size c in
  let dst_size := u64 (max_size - count) in
  let x := if head_size <? dst_size then head_size else dst_size in
  if x =? 0 then ret (inr count)
  else
    bs ← need (cbuf_read_head c x);
    dst ← need (write_at count bs dst);
    c ← need (cbuf_head_advance c x);
    put (c, dst);;
    ret (inl (u64 (count + x))).

Definition cbuf_move_out (max_size : Z) : M (cbuf * list Z) Z :=
  fuel ← gets (fun s => fuel_of s.1);
  loop fuel (move_out_step max_size) 0.

(** [cbuf_move(dst, src, max_size)], two distinct buffers. *)
Definition move_step (max_size count : Z) : M (cbuf * cbuf) (Z + Z) :=
  ' (dst, src) ← get;
  let head_size := cbuf_head_size src in
  tail_size ← need (cbuf_tail_size dst);
  let limit := u64 (max_size - count) in
  let x := if head_size <? tail_size then head_size else tail_size in
  let y := if x <? limit then x else limit in
  if y =? 0 then ret (inr count)
  else
    bs ← need (cbuf_read_head src y);
    dst ← need (cbuf_write_tail dst bs);
    let dst := cbuf_tail_advance dst y in
    src ← need (cbuf_head_advance src y);
    put (dst, src);;
    ret (inl (u64 (count + y))).

Definition cbuf_move (max_size : Z) : M (cbuf * cbuf) Z :=
  ' (_, src) ← get;
  let max_size := if max_size =? 0 then size src else max_size in
  loop (fuel_of src) (move_step max_size) 0.

(** * Contents

    The bytes held, oldest first: the cells from [head] on, wrapping round. *)
Definition at_ (c : cbuf) (i : nat) : Z :=
  data c !!! Z.to_nat ((head c + Z.of_nat i) mod capacity c).

Definition contents (c : cbuf) : list Z := at_ c <$> seq 0 (Z.to_nat (size c)).

Record cbuf_wf (c : cbuf) : Prop := {
  wf_len : Z.of_nat (length (data c)) = capacity c;
  wf_cap : 0 < capacity c < 2 ^ 63;
  wf_head : 0 <= head c < capacity c;
  wf_size : 0 <= size c <= capacity c;
}.

Lemma length_contents c : length (contents c) = Z.to_nat (size c).
Proof. unfold contents. by rewrite length_fmap, length_seq. Qed.

Lemma contents_lookup c i :
  contents c !! i = if decide (i < Z.to_nat (size c))%nat then Some (at_ c i) else None.
Proof.
  unfold contents. rewrite list_lookup_fmap. destruct (decide _).
  - by rewrite lookup_seq_lt by done.
  - by rewrite lookup_seq_ge by lia.
Qed.

Lemma u64_id x : 0 <= x < 2 ^ 64 -> u64 x = x.
Proof. intros. unfold u64. by rewrite Z.mod_small. Qed.

(** A remainder of something below twice the divisor. *)
Lemma mod_wrap a n : 0 < n -> 0 <= a < 2 * n -> a mod n = if a <? n then a else a - n.
Proof.
  intros Hn Ha. destruct (Z.ltb_spec a n).
  - rewrite Z.mod_small; lia.
  - rewrite <- (Z_mod_plus_full a (-1)), Z.mod_small; lia.
Qed.

Section step.
Context (c : cbuf) (Hc : cbuf_wf c).

Lemma avail_val : cbuf_avail c = capacity c - size c.
Proof. destruct Hc. unfold cbuf_avail. rewrite u64_id; lia. Qed.

Lemma tail_val : cbuf_tail c = Some ((head c + size c) mod capacity c).
Proof.
  destruct Hc. unfold cbuf_tail, umod. rewrite u64_id by lia.
  destruct (Z.eqb_spec (capacity c) 0); [lia|done].
Qed.

(** The contiguous free area is not empty unless the buffer is full, and what
    it leaves out is the free area at the start of the cells. *)
Lemma tail_size_val : exists t, cbuf_tail_size c = Some t /\ 0 <= t <= capacity c - size c /\
  (t = 0 <-> size c = capacity c) /\ (head c + size c) mod capacity c + t <= capacity c.
Proof.
  unfold cbuf_tail_size. rewrite tail_val. destruct Hc as [_ H1 H2 H3].
  eexists. split; [done|]. rewrite mod_wrap by lia.
  destruct (Z.ltb_spec (head c + size c) (capacity c)).
  - destruct (Z.ltb_spec (size c) (head c + size c)); rewrite u64_id; lia.
  - destruct (Z.ltb_spec (size c) (head c + size c - capacity c)); rewrite u64_id; lia.
Qed.

Lemma head_size_val : 0 <= cbuf_head_size c <= size c /\ head c + cbuf_head_size c <= capacity c /\
  (cbuf_head_size c = 0 <-> size c = 0).
Proof.
  unfold cbuf_head_size. destruct Hc. rewrite u64_id by lia.
  destruct (Z.ltb_spec (capacity c - head c) (size c)); lia.
Qed.

(** Reading the head area and advancing past it consumes a prefix. *)
Lemma head_advance_spec x : 0 <= x ->
  exists c', cbuf_head_advance c x = Some c' /\ cbuf_wf c' /\
    contents c' = drop (Z.to_nat x) (contents c) /\ capacity c' = capacity c /\
    size c' = size c - Z.min x (size c) /\ data c' = data c.
Proof.
  intros Hx. unfold cbuf_head_advance. pose proof Hc as [H0 H1 H2 H3].
  set (k := if size c <? x then size c else x).
  assert (k = Z.min x (size c)) as Hk by (unfold k; destruct (Z.ltb_spec (size c) x); lia).
  rewrite !u64_id by lia. unfold umod. destruct (Z.eqb_spec (capacity c) 0); [lia|].
  eexists. split; [done|].
  split; [|split; [|simpl; split_and!; [done|lia|done]]].
  - split; simpl; [done|done|apply Z.mod_pos_bound; lia|lia].
  - apply list_eq. intros i. rewrite lookup_drop, !contents_lookup. simpl.
    destruct (decide _), (decide _); try lia; [|done].
    unfold at_; simpl. do 3 f_equal. rewrite Zplus_mod_idemp_l. f_equal. lia.
Qed.

Lemma read_head_spec x : 0 <= x <= cbuf_head_size c ->
  cbuf_read_head c x = Some (take (Z.to_nat x) (contents c)).
Proof.
  intros Hx. pose proof head_size_val as (Hs1 & Hs2 & _). destruct Hc as [H0 H1 H2 H3].
  unfold cbuf_read_head. rewrite read_at_Some by lia. f_equal.
  apply list_eq. intros i. destruct (decide (i < Z.to_nat x)%nat).
  - rewrite !lookup_take_lt, lookup_drop, contents_lookup by done.
    rewrite decide_True by lia. unfold at_. rewrite Z.mod_small by lia.
    rewrite list_lookup_total_alt.
    destruct (lookup_lt_is_Some_2 (data c) (Z.to_nat (head c) + i)) as [v Hv]; [lia|].
    replace (Z.to_nat (head c + Z.of_nat i)) with (Z.to_nat (head c) + i)%nat by lia.
    by rewrite Hv.
  - rewrite !lookup_take_ge by lia. done.
Qed.

(** Writing to the tail area and advancing over it appends. *)
Lemma tail_write_spec bs t : cbuf_tail_size c = Some t -> Z.of_nat (length bs) <= t ->
  exists c', cbuf_write_tail c bs = Some c' /\
    cbuf_wf (cbuf_tail_advance c' (Z.of_nat (length bs))) /\
    contents (cbuf_tail_advance c' (Z.of_nat (length bs))) = contents c ++ bs /\
    capacity c' = capacity c /\ head c' = head c /\
    size (cbuf_tail_advance c' (Z.of_nat (length bs))) = size c + Z.of_nat (length bs).
Proof.
  intros Ht Hbs. destruct tail_size_val as (t' & Ht' & Ht1 & _ & Ht2).
  rewrite Ht in Ht'. injection Ht' as <-. unfold cbuf_write_tail. rewrite tail_val.
  pose proof avail_val as Ha. destruct Hc as [H0 H1 H2 H3].
  pose proof (Z.mod_pos_bound (head c + size c) (capacity c)) as Hm.
  assert (exists d, write_at ((head c + size c) mod capacity c) bs (data c) = Some d) as [d Hd].
  { rewrite write_at_Some by lia. eauto. }
  rewrite Hd. eexists. split; [done|]. unfold cbuf_tail_advance, cbuf_avail in *. simpl.
  rewrite Ha. destruct (Z.ltb_spec (capacity c - size c) (Z.of_nat (length bs))); [lia|].
  rewrite u64_id by lia. split_and!; try done.
  - pose proof (length_write_at _ _ _ _ Hd). split; simpl; lia.
  - apply list_eq. intros i. rewrite contents_lookup. simpl. unfold at_; simpl.
    rewrite list_lookup_total_alt, (lookup_write_at _ _ _ _ _ Hd).
    destruct (decide (i < Z.to_nat (size c))%nat).
    + rewrite (decide_True (P := (i < _)%nat)) by lia.
      rewrite lookup_app_l by (rewrite length_contents; lia).
      rewrite contents_lookup, (decide_True (P := (i < _)%nat)) by done. rewrite decide_False; [by rewrite <- list_lookup_total_alt|].
      intros []. rewrite !mod_wrap in * by lia.
      destruct (Z.ltb_spec (head c + size c) (capacity c)),
        (Z.ltb_spec (head c + Z.of_nat i) (capacity c)); lia.
    + rewrite lookup_app_r, length_contents by (rewrite length_contents; lia).
      destruct (decide (i < _)%nat).
      * assert (Z.to_nat ((head c + Z.of_nat i) mod capacity c) =
          Z.to_nat ((head c + size c) mod capacity c) + (i - Z.to_nat (size c)))%nat as ->.
        { rewrite !mod_wrap in * by lia.
          destruct (Z.ltb_spec (head c + size c) (capacity c)),
            (Z.ltb_spec (head c + Z.of_nat i) (capacity c)); lia. }
        rewrite decide_True by lia.
        replace (_ + _ - _)%nat with (i - Z.to_nat (size c))%nat by lia.
        destruct (lookup_lt_is_Some_2 bs (i - Z.to_nat (size c))) as [v Hv]; [lia|].
        by rewrite Hv.
      * symmetry. apply lookup_ge_None_2. lia.
Qed.

End step.

(** * Transfers *)
Lemma take_app_chunk {A} (l : list A) n x : 0 <= n -> 0 <= x ->
  take (Z.to_nat n) l ++ take (Z.to_nat x) (drop (Z.to_nat n) l) = take (Z.to_nat (n + x)) l.
Proof. intros. rewrite Z2Nat.inj_add by lia. by rewrite take_take_drop. Qed.

Lemma wp_move_in src max_size c :
  cbuf_wf c -> 0 <= max_size < 2 ^ 64 -> max_size <= Z.of_nat (length src) ->
  wp (cbuf_move_in src max_size) c (fun n c' =>
    n = Z.min max_size (capacity c - size c) /\ cbuf_wf c' /\
    contents c' = contents c ++ take (Z.to_nat n) src /\
    head c' = head c /\ capacity c' = capacity c).
Proof.
  intros Hc Hm Hl. unfold cbuf_move_in. wp_bind. apply wp_gets.
  apply (wp_loop (fun k count c' => cbuf_wf c' /\ capacity c' = capacity c /\ head c' = head c /\
    size c' = size c + count /\ 0 <= count <= max_size /\ k = Z.to_nat (capacity c - size c') /\
    contents c' = contents c ++ take (Z.to_nat count) src)) with (k := Z.to_nat (capacity c - size c)).
  - intros k count d (Hd & Hcap & Hhd & Hsz & Hcnt & -> & Hcs). unfold move_in_step.
    wp_bind. apply wp_get. destruct (tail_size_val d Hd) as (t & Ht & Ht1 & Ht0 & _).
    wp_bind. apply (wp_need _ t); [done|]. rewrite u64_id by lia.
    set (x := if t <? max_size - count then t else max_size - count).
    assert (x = Z.min t (max_size - count)) as Hx.
    { unfold x. destruct (Z.ltb_spec t (max_size - count)); lia. }
    pose proof Hd as [_ Hcp _ Hsd]. destruct (Z.eqb_spec x 0) as [E|E].
    + apply wp_ret. split_and!; [lia|done|done|done|done].
    + wp_bind. eapply wp_need; [apply read_at_Some; lia|]. wp_bind.
      set (bs := take (Z.to_nat x) (drop (Z.to_nat count) src)).
      assert (Z.of_nat (length bs) = x) as Hbs by (unfold bs; rewrite length_take, length_drop; lia).
      destruct (tail_write_spec d Hd bs t Ht ltac:(lia)) as (d' & -> & W & C & P & H' & Z').
      rewrite Hbs in *. apply wp_need with d'; [done|]. wp_bind. apply wp_put. apply wp_ret.
      rewrite u64_id by lia. exists (Z.to_nat (capacity c - size (cbuf_tail_advance d' x))).
      rewrite Z'. split_and!; try done; try lia.
      * simpl. lia.
      * simpl. by rewrite H'.
      * unfold bs in C. rewrite C, Hcs, <- (assoc_L (++)), take_app_chunk by lia. done.
  - unfold fuel_of. destruct Hc. lia.
  - rewrite Z.add_0_r, take_0, app_nil_r. pose proof Hc as []. split_and!; try done; lia.
Qed.

Lemma wp_move_out max_size c dst :
  cbuf_wf c -> 0 <= max_size < 2 ^ 64 -> max_size <= Z.of_nat (length dst) ->
  wp (cbuf_move_out max_size) (c, dst) (fun n '(c', dst') =>
    n = Z.min max_size (size c) /\ cbuf_wf c' /\
    dst' = take (Z.to_nat n) (contents c) ++ drop (Z.to_nat n) dst /\
    contents c' = drop (Z.to_nat n) (contents c) /\ capacity c' = capacity c).
Proof.
  intros Hc Hm Hl. unfold cbuf_move_out. wp_bind. apply wp_gets.
  apply (wp_loop (fun k count '(c', dst') => cbuf_wf c' /\ capacity c' = capacity c /\
    size c' = size c - count /\ 0 <= count <= max_size /\ k = Z.to_nat (size c') /\
    contents c' = drop (Z.to_nat count) (contents c) /\
    dst' = take (Z.to_nat count) (contents c) ++ drop (Z.to_nat count) dst))
    with (k := Z.to_nat (size c)).
  - intros k count [d dst'] (Hd & Hcap & Hsz & Hcnt & -> & Hcs & ->). unfold move_out_step.
    wp_bind. apply wp_get. destruct (head_size_val d Hd) as (Hs1 & Hs2 & Hs0).
    rewrite u64_id by lia.
    set (x := if cbuf_head_size d <? max_size - count then cbuf_head_size d else max_size - count).
    assert (x = Z.min (cbuf_head_size d) (max_size - count)) as Hx.
    { unfold x. destruct (Z.ltb_spec (cbuf_head_size d) (max_size - count)); lia. }
    pose proof Hd as [_ Hcp _ Hsd]. destruct (Z.eqb_spec x 0) as [E|E].
    + apply wp_ret. split_and!; [lia|done|done|done|done].
    + wp_bind. eapply wp_need; [apply read_head_spec; [done|lia]|]. wp_bind.
      pose proof (length_contents c) as Lc. pose proof Hc as [_ _ _ Hsc].
      assert (length (take (Z.to_nat x) (contents d)) = Z.to_nat x) as Lx.
      { rewrite length_take, length_contents. lia. }
      eapply wp_need.
      { apply write_at_Some; [lia|]. rewrite Lx, length_app, length_take, length_drop. lia. }
      wp_bind. destruct (head_advance_spec d Hd x ltac:(lia)) as (d' & -> & W & C & P & Z' & _).
      apply wp_need with d'; [done|]. wp_bind. apply wp_put. apply wp_ret. rewrite u64_id by lia.
      exists (Z.to_nat (size d')). split_and!; try done; try lia.
      * rewrite C, Hcs, drop_drop. f_equal. lia.
      * rewrite Lx, Hcs. rewrite take_app_le, take_take, Nat.min_id by (rewrite length_take; lia).
        rewrite (assoc_L (++)), take_app_chunk by lia. f_equal.
        rewrite drop_app_ge, drop_drop by (rewrite length_take; lia). f_equal.
        rewrite length_take. lia.
  - unfold fuel_of. destruct Hc. simpl. lia.
  - rewrite Z.sub_0_r, take_0, !drop_0. split_and!; try done; lia.
Qed.

Lemma wp_move max_size dst src :
  cbuf_wf dst -> cbuf_wf src -> 0 <= max_size < 2 ^ 64 ->
  wp (cbuf_move max_size) (dst, src) (fun n '(dst', src') =>
    n = Z.min (if max_size =? 0 then size src else max_size)
          (Z.min (size src) (capacity dst - size dst)) /\
    cbuf_wf dst' /\ cbuf_wf src' /\
    contents dst' = contents dst ++ take (Z.to_nat n) (contents src) /\
    contents src' = drop (Z.to_nat n) (contents src)).
Proof.
  intros Hc Hb Hm. unfold cbuf_move. wp_bind. apply wp_get. cbn beta iota zeta.
  set (m := if max_size =? 0 then size src else max_size).
  assert (0 <= m < 2 ^ 64) as Hm'.
  { unfold m. pose proof Hb as []. destruct (Z.eqb_spec max_size 0); lia. }
  apply (wp_loop (fun k count '(c', d') => cbuf_wf c' /\ cbuf_wf d' /\
    capacity c' = capacity dst /\ size c' = size dst + count /\ size d' = size src - count /\
    0 <= count <= m /\ k = Z.to_nat (size d') /\
    contents d' = drop (Z.to_nat count) (contents src) /\
    contents c' = contents dst ++ take (Z.to_nat count) (contents src)))
    with (k := Z.to_nat (size src)).
  - intros k count [c' d'] (Hc' & Hd & Hcap & Hsz & Hsd & Hcnt & -> & Cd & Cc). unfold move_step.
    wp_bind. apply wp_get. destruct (head_size_val d' Hd) as (Hs1 & Hs2 & Hs0).
    destruct (tail_size_val c' Hc') as (t & Ht & Ht1 & Ht0 & _). cbn beta iota zeta.
    wp_bind. apply (wp_need _ t); [done|]. rewrite u64_id by lia.
    set (x := if cbuf_head_size d' <? t then cbuf_head_size d' else t).
    assert (x = Z.min (cbuf_head_size d') t) as Hx.
    { unfold x. destruct (Z.ltb_spec (cbuf_head_size d') t); lia. }
    set (y := if x <? m - count then x else m - count).
    assert (y = Z.min x (m - count)) as Hy.
    { unfold y. destruct (Z.ltb_spec x (m - count)); lia. }
    pose proof Hc' as [_ Hcp _ Hsc]. pose proof Hd as [_ Hcp' _ Hsd'].
    destruct (Z.eqb_spec y 0) as [E|E].
    + apply wp_ret. split_and!; [lia|done|done|done|done].
    + wp_bind. eapply wp_need; [apply read_head_spec; [done|lia]|]. wp_bind.
      set (bs := take (Z.to_nat y) (contents d')).
      assert (Z.of_nat (length bs) = y) as Hbs.
      { unfold bs. rewrite length_take, length_contents. lia. }
      destruct (tail_write_spec c' Hc' bs t Ht ltac:(lia)) as (c2 & -> & W & C & P & H' & Z').
      rewrite Hbs in *. apply wp_need with c2; [done|]. wp_bind.
      destruct (head_advance_spec d' Hd y ltac:(lia)) as (d2 & -> & W2 & C2 & P2 & Z2 & _).
      apply wp_need with d2; [done|]. wp_bind. apply wp_put. apply wp_ret. rewrite u64_id by lia.
      exists (Z.to_nat (size d2)). split_and!; try done; try lia.
      * simpl. lia.
      * rewrite C2, Cd, drop_drop. f_equal. lia.
      * rewrite C, Cc, <- (assoc_L (++)). f_equal. unfold bs. rewrite Cd, take_app_chunk by lia. done.
  - unfold fuel_of. destruct Hb. lia.
  - rewrite Z.add_0_r, Z.sub_0_r, take_0, drop_0, app_nil_r. split_and!; try done; lia.
Qed.

(** * The buffer as a bounded queue of bytes *)

(** The oldest bytes of the source go to the end of the destination: as many as are
    asked for (all of them for 0), held, and there is room for. *)
Definition transfers (dst src : cbuf) (max_size : Z) : Prop :=
  wp (cbuf_move max_size) (dst, src) (fun n '(dst', src') =>
    n = Z.min (if max_size =? 0 then cbuf_used src else max_size)
          (Z.min (cbuf_used src) (cbuf_avail dst)) /\
    cbuf_wf dst' /\ cbuf_wf src' /\
    contents dst' ++ contents src' = contents dst ++ contents src /\
    cbuf_used dst' = cbuf_used dst + n).

Lemma wp_transfers dst src max_size : cbuf_wf dst -> cbuf_wf src -> 0 <= max_size < 2 ^ 64 -> transfers dst src max_size.
Proof.
  intros Hd Hs Hm. eapply wp_mono; [by apply wp_move|].
  intros n [dst' src'] (Hn & Hd' & Hs' & Ed & Es). rewrite avail_val by done.
  split_and!; try done.
  - rewrite Ed, Es, <- (assoc_L (++)). by rewrite take_drop.
  - pose proof (length_contents dst') as H. rewrite Ed, length_app, length_take in H.
    rewrite !length_contents in H. unfold cbuf_used. destruct Hd, Hs, Hd'.
    destruct (Z.eqb_spec max_size 0); lia.
Qed.

(** C19. A circular buffer is a queue of at most [capacity] bytes with a flat
    area at either end.  [cbuf_move_in] appends as many bytes of the area as
    fit, without moving the head; [cbuf_move_out] takes the oldest bytes, as
    many as are held or asked for, in order, and writes nothing else of the
    destination area; both terminate, stay inside both areas and return the
    number of bytes moved.  The contiguous regions make progress: the head
    (tail) region is empty only when the buffer is empty (full).  [cbuf_move] between
    two distinct buffers loses, duplicates and reorders no byte, whatever the two
    wrap-around positions are. *)
Theorem cbuf_queue c area max_size dst :
  cbuf_wf c -> cbuf_wf dst -> 0 <= max_size < 2 ^ 64 -> max_size <= Z.of_nat (length area) ->
  wp (cbuf_move_in area max_size) c (fun n c' =>
    n = Z.min max_size (cbuf_avail c) /\ cbuf_wf c' /\
    contents c' = contents c ++ take (Z.to_nat n) area /\
    cbuf_head c' = cbuf_head c /\ capacity c' = capacity c) /\
  wp (cbuf_move_out max_size) (c, area) (fun n '(c', area') =>
    n = Z.min max_size (cbuf_used c) /\ cbuf_wf c' /\
    area' = take (Z.to_nat n) (contents c) ++ drop (Z.to_nat n) area /\
    contents c' = drop (Z.to_nat n) (contents c) /\ capacity c' = capacity c) /\
  (cbuf_head_size c = 0 <-> contents c = []) /\
  (cbuf_tail_size c = Some 0 <-> Z.of_nat (length (contents c)) = capacity c) /\
  transfers dst c max_size.
Proof.
  intros Hc Hd Hm Hl. split_and!.
  - rewrite avail_val by done. by apply wp_move_in.
  - by apply wp_move_out.
  - destruct (head_size_val c Hc) as (_ & _ & ->). rewrite <- length_zero_iff_nil, length_contents.
    destruct Hc. lia.
  - destruct (tail_size_val c Hc) as (t & -> & _ & Ht & _). rewrite length_contents.
    destruct Hc. split; [intros [= ->]; lia|intros; f_equal; lia].
  - by apply wp_transfers.
Qed.

(** ** Examples *)
Definition ex_cbuf : cbuf := mk_cbuf [10; 11; 12; 13; 14] 5 3 4.
Definition ex_cbuf2 : cbuf := mk_cbuf [1; 2; 3; 4] 4 2 3.

Lemma cbuf_queue_witness :
  cbuf_wf ex_cbuf /\ cbuf_wf ex_cbuf2 /\
  cbuf_move_in [7; 8; 9] 3 ex_cbuf = Ok (mk_cbuf [10; 11; 7; 13; 14] 5 3 5, 1) /\
  contents ex_cbuf = [13; 14; 10; 11] /\
  wp (cbuf_move_in [7; 8; 9] 3) ex_cbuf (fun n c' => n = 1 /\ contents c' = [13; 14; 10; 11; 7]) /\
  wp (cbuf_move 0) (ex_cbuf2, ex_cbuf) (fun n '(dst', src') =>
    n = 1 /\ contents dst' ++ contents src' = [3; 4; 1; 13; 14; 10; 11]).
Proof.
  assert (W : cbuf_wf ex_cbuf) by (split; simpl; lia).
  assert (W2 : cbuf_wf ex_cbuf2) by (split; simpl; lia).
  split_and!; [done|done|vm_compute; reflexivity|vm_compute; reflexivity| |].
  - destruct (cbuf_queue ex_cbuf [7; 8; 9] 3 ex_cbuf2 W W2 ltac:(lia) ltac:(simpl; lia)) as (H & _).
    eapply wp_mono; [exact H|]. intros n c' (-> & _ & -> & _). split; vm_compute; reflexivity.
  - destruct (cbuf_queue ex_cbuf [] 0 ex_cbuf2 W W2 ltac:(lia) ltac:(simpl; lia)) as (_ & _ & _ & _ & H).
    unfold transfers in H. eapply wp_mono; [exact H|]. intros n [dst' src'] (-> & _ & _ & -> & _). split; vm_compute; reflexivity.
Defined.
