(* ===== verification/Hash.v ===== *)
(** Model of src/hash.h and src/hash.c: the intrusive, dynamically sized hash
    table.

    The nodes live in a store from addresses to [struct hash_node]; the table is
    NULL or an array of pointers.  [func] and [compare] are the user's callbacks:
    what is embedded around a node is not touched by this code, so [compare] is
    a function of the key and of the node's address.  [malloc] may fail at any
    call ([malloc_ok]).  [unsigned int] fields are integers modulo 2^32, and an
    [int] product that overflows is an error. *)
From S2P Require Import Prelude.

Definition HASH_INSERT_PREHASHED : Z := 1.
Definition HASH_INSERT_UNIQUE : Z := 2.
Definition INT_MAX : Z := 2 ^ 31 - 1.

Record hash_node := mk_hnode {
  code : Z;
  next : option positive;
}.

Abbreviation table_t := (list (option positive)).

Record hash := mk_hash {
  hsize : Z;
  count : Z;
  table : option table_t;
  hnodes : gmap positive hash_node;
  mallocs : nat;  (** calls of [malloc] so far *)
}.

Definition with_nodes (h : gmap positive hash_node) (s : hash) : hash :=
  mk_hash (hsize s) (count s) (table s) h (mallocs s).
Definition with_count (c : Z) (s : hash) : hash :=
  mk_hash (hsize s) c (table s) (hnodes s) (mallocs s).
Definition with_table (t : table_t) (s : hash) : hash :=
  mk_hash (hsize s) (count s) (Some t) (hnodes s) (mallocs s).

Definition hld (p : positive) : M hash hash_node :=
  s ← get; need (hnodes s !! p).
Definition hst (p : positive) (n : hash_node) : M hash unit :=
  s ← get; _ ← need (hnodes s !! p); put (with_nodes (<[p := n]> (hnodes s)) s).
Definition set_next (p : positive) (v : option positive) : M hash unit :=
  n ← hld p; hst p (mk_hnode (code n) v).
Definition set_code (p : positive) (v : Z) : M hash unit :=
  n ← hld p; hst p (mk_hnode v (next n)).

(** [h->table[i]] *)
Definition tld (i : Z) : M hash (option positive) :=
  s ← get; t ← need (table s); need (t !! Z.to_nat i).
Definition tst (i : Z) (p : option positive) : M hash unit :=
  s ← get; t ← need (table s); _ ← need (t !! Z.to_nat i);
  put (with_table (<[Z.to_nat i := p]> t) s).

(** [x % y] on unsigned operands. *)
Definition hmod {S} (x y : Z) : M S Z := if y =? 0 then crash else ret (x mod y).

(** Fuel for a walk along a chain: chains hold distinct nodes of the store. *)
Definition chain_fuel : M hash nat := gets (fun s => Datatypes.S (size (hnodes s))).

(** [while (new_size < hint) new_size <<= 1;]: 32 is doubled at most 32 times
    before it wraps to 0. *)
Definition double_step (hint new_size : Z) : M hash (Z + Z) :=
  if new_size <? hint then ret (inl (u32 (Z.shiftl new_size 1))) else ret (inr new_size).

Definition double_to (hint : Z) : M hash Z := loop 33 (double_step hint) 32.

(** The inner loop of the search for a prime: [true] is the [break]. *)
Definition trial (n : Z) : M hash bool :=
  loop (Z.to_nat (Z.sqrt n + 2)) (fun d =>
    if INT_MAX <? d * d then crash
    else if d * d <=? n
    then if n mod d =? 0 then ret (inr false) else ret (inl (d + 1))
    else ret (inr true)) 2.

(** No gap between a power of two below 2^31 and the next prime reaches 128. *)
Definition next_prime (new_size : Z) : M hash Z :=
  loop 128 (fun n =>
    p ← trial n;
    if p then ret (inr n) else ret (inl (u32 (n + 1)))) new_size.

(** One node of the chain of the old table, moved to the new one. *)
Definition rehash_step (new_size : Z) (nt : table_t) (p : positive) :
    M hash (table_t * option positive) :=
  n ← hld p;
  let nx := next n in
  new_index ← hmod (code n) new_size;
  q ← need (nt !! Z.to_nat new_index);
  set_next p q;;
  ret (<[Z.to_nat new_index := Some p]> nt, nx).

Definition rehash_chain (new_size : Z) (nt : table_t) (p : option positive) : M hash table_t :=
  fuel ← chain_fuel;
  loop fuel (fun '(nt, p) =>
    match p with
    | Some p => r ← rehash_step new_size nt p; ret (inl r)
    | None => ret (inr nt)
    end) (nt, p).

Definition rehash (new_size : Z) (nt : table_t) : M hash table_t :=
  size ← gets hsize;
  loop (Datatypes.S (Z.to_nat size)) (fun '(i, nt) =>
    if i <? size
    then p ← tld i; nt ← rehash_chain new_size nt p; ret (inl (i + 1, nt))
    else ret (inr nt)) (0, nt).

Section hash.
Context {K : Type} (func : K -> Z) (compare : K -> positive -> Z) (malloc_ok : nat -> bool).

Definition malloc : M hash bool :=
  s ← get;
  put (mk_hash (hsize s) (count s) (table s) (hnodes s) (Datatypes.S (mallocs s)));;
  ret (malloc_ok (mallocs s)).

Definition hash_init (nodes : gmap positive hash_node) : hash := mk_hash 0 0 None nodes 0.

Definition hash_destroy : M hash unit :=
  modify (fun s => mk_hash 0 0 None (hnodes s) (mallocs s)).

Definition hash_capacity_hint (hint : Z) : M hash Z :=
  s ← get;
  if hint <? count s then ret 0
  else
    new_size ← double_to hint;
    new_size ← next_prime new_size;
    if hsize s =? new_size then ret 0
    else
      ok ← malloc;
      if negb ok then ret (-1)
      else
        nt ← rehash new_size (replicate (Z.to_nat new_size) None);
        modify (fun s => mk_hash new_size (count s) (Some nt) (hnodes s) (mallocs s));;
        ret 0.

Definition find_chain (key : K) (p : option positive) : M hash (option positive) :=
  fuel ← chain_fuel;
  loop fuel (fun p =>
    match p with
    | None => ret (inr None)
    | Some n =>
        if negb (truth (compare key n)) then ret (inr (Some n))
        else nd ← hld n; ret (inl (next nd))
    end) p.

Definition hash_find (key : K) : M hash (option positive) :=
  size ← gets hsize;
  if truth size
  then
    let code := func key in
    index ← hmod code size;
    n ← tld index;
    find_chain key n
  else ret None.

(** The loop of [hash_insert] that rebuilds a chain onto [ins]. *)
Definition insert_chain (key : K) (ins : positive) (p : option positive) :
    M hash (positive * option positive) :=
  fuel ← chain_fuel;
  loop fuel (fun '(ins, old, p) =>
    match p with
    | None => ret (inr (ins, old))
    | Some n =>
        nd ← hld n;
        if truth (compare key n)
        then set_next n (Some ins);; ret (inl (n, old, next nd))
        else ret (inl (ins, Some n, next nd))
    end) (ins, None, p).

(** [hash_insert] from the computation of the index on: the status and, where
    it is assigned, [*old_ret]. *)
Definition insert_link (key : K) (ins : positive) (flags : Z) :
    M hash (Z * option (option positive)) :=
  nd ← hld ins;
  size ← gets hsize;
  index ← hmod (code nd) size;
  n ← tld index;
  if truth (Z.land flags HASH_INSERT_UNIQUE)
  then
    set_next ins n;;
    tst index (Some ins);;
    modify (fun s => with_count (u32 (count s + 1)) s);;
    ret (0, None)
  else
    ' (top, old) ← insert_chain key ins n;
    tst index (Some top);;
    (match old with
     | None => modify (fun s => with_count (u32 (count s + 1)) s)
     | Some _ => ret tt
     end);;
    ret (0, Some old).

Definition hash_insert (key : K) (ins : positive) (flags : Z) :
    M hash (Z * option (option positive)) :=
  s ← get;
  rc ← (if hsize s <=? count s then hash_capacity_hint (u32 (count s + 1)) else ret 0);
  if rc <? 0 then ret (-1, None)
  else
    set_next ins None;;
    (if negb (truth (Z.land flags HASH_INSERT_PREHASHED)) then set_code ins (func key)
     else ret tt);;
    insert_link key ins flags.

(** [while (s && s->next != n) s = s->next;] *)
Definition find_prev (n : positive) (p : option positive) : M hash (option positive) :=
  fuel ← chain_fuel;
  loop fuel (fun p =>
    match p with
    | None => ret (inr None)
    | Some q =>
        nd ← hld q;
        if decide (next nd = Some n) then ret (inr (Some q)) else ret (inl (next nd))
    end) p.

Definition dec_count : M hash unit := modify (fun s => with_count (u32 (count s - 1)) s).

(** [hash_remove] up to the shrinking of the table. *)
Definition unlink (n : positive) : M hash unit :=
  nd ← hld n;
  size ← gets hsize;
  index ← hmod (code nd) size;
  p ← tld index;
  if decide (p = Some n)
  then tst index (next nd);; dec_count
  else
    q ← find_prev n p;
    match q with
    | Some q => set_next q (next nd);; dec_count
    | None => ret tt
    end.

Definition hash_remove (n : positive) : M hash unit :=
  unlink n;;
  s ← get;
  if u32 (count s * 4) <? hsize s
  then _ ← hash_capacity_hint (count s); ret tt
  else ret tt.

End hash.
