(* ===== verification/HashTable.v ===== *)
(** The hash table of src/hash.c as chains: the predicate [rep_tab] that ties an
    array of pointers and the node store to a set of nodes, and its lemmas for
    walking, pushing, unlinking and rehashing; and the table sizes: [double_to] and
    [next_prime] terminate and give the least prime that is not below a power of
    two. *)
From Stdlib Require Import Znumtheory.
From stdpp Require Import fin_maps fin_sets.
From S2P Require Import Prelude Hash.

Section table.
Context (hcode : positive -> Z).
(** [hcode n] is the hash code of the key of node [n]. *)

Abbreviation store := (gmap positive hash_node).

Fixpoint rep_chain (h : store) (p : option positive) (l : list positive) : Prop :=
  match l with
  | [] => p = None
  | a :: l => p = Some a /\ exists nx, h !! a = Some (mk_hnode (hcode a) nx) /\ rep_chain h nx l
  end.

Definition bucket (sz : Z) (a : positive) : nat := Z.to_nat (hcode a mod sz).

(** The chain at [i] holds exactly the nodes of [X] that hash to [i]. *)
Definition chain_of (h : store) (sz : Z) (X : gset positive) (i : nat) (p : option positive)
    (l : list positive) : Prop :=
  rep_chain h p l /\ NoDup l /\ forall a, a ∈ l <-> a ∈ X /\ bucket sz a = i.

Definition rep_tab (h : store) (t : table_t) (X : gset positive) : Prop :=
  forall i p, t !! i = Some p -> exists l, chain_of h (Z.of_nat (length t)) X i p l.

Lemma rep_chain_ext h h' p l : (forall a, a ∈ l -> h' !! a = h !! a) ->
  rep_chain h p l -> rep_chain h' p l.
Proof.
  revert p. induction l as [|a l IH]; intros p Hx; simpl; [done|].
  intros (-> & nx & Ha & Hl). split; [done|]. exists nx. rewrite Hx by set_solver.
  split; [done|]. apply IH; [set_solver|done].
Qed.

Lemma rep_chain_dom h p l a : rep_chain h p l -> a ∈ l -> exists nx, h !! a = Some (mk_hnode (hcode a) nx).
Proof.
  revert p. induction l as [|b l IH]; intros p; simpl; [set_solver|].
  intros (_ & nx & Hb & Hl) [->|Ha]%elem_of_cons; eauto.
Qed.

Lemma rep_chain_fuel h p l : rep_chain h p l -> NoDup l -> (length l < Datatypes.S (size h))%nat.
Proof.
  intros Hr Hnd. rewrite <- (size_list_to_set (C := gset positive)) by done.
  assert (list_to_set (C := gset positive) l ⊆ dom h) as Hs.
  { intros a Ha%elem_of_list_to_set. destruct (rep_chain_dom _ _ _ _ Hr Ha) as [nx E].
    by apply elem_of_dom; exists (mk_hnode (hcode a) nx). }
  apply subseteq_size in Hs. rewrite size_dom in Hs. lia.
Qed.

Lemma bucket_lt sz a : 0 < sz -> (bucket sz a < Z.to_nat sz)%nat.
Proof. intros. unfold bucket. pose proof (Z.mod_pos_bound (hcode a) sz). lia. Qed.

Lemma rep_tab_ext h h' t X : (forall a, a ∈ X -> h' !! a = h !! a) -> rep_tab h t X -> rep_tab h' t X.
Proof.
  intros Hx H i p Hi. destruct (H i p Hi) as (l & Hr & Hnd & Hl). exists l. split_and!; [|done|done].
  eapply rep_chain_ext; [|done]. intros a Ha. apply Hx, Hl, Ha.
Qed.

Lemma rep_tab_empty h n : rep_tab h (replicate n None) ∅.
Proof.
  intros i p Hi. apply lookup_replicate in Hi as [-> _]. exists []. split_and!; [done|constructor|].
  intros a. set_solver.
Qed.

(** A new chain [l] at [i] for the nodes [X'], which differ from [X] only in
    bucket [i]. *)
Lemma rep_tab_upd h h' t X X' i p l :
  rep_tab h t X -> (i < length t)%nat ->
  chain_of h' (Z.of_nat (length t)) X' i p l ->
  (forall a, bucket (Z.of_nat (length t)) a <> i -> a ∈ X' <-> a ∈ X) ->
  (forall a, a ∈ X -> bucket (Z.of_nat (length t)) a <> i -> h' !! a = h !! a) ->
  rep_tab h' (<[i := p]> t) X'.
Proof.
  intros H Hi Hl Ho He j q Hj. rewrite length_insert.
  destruct (decide (j = i)) as [->|Hne].
  - rewrite list_lookup_insert_eq in Hj by done. injection Hj as <-. by exists l.
  - rewrite list_lookup_insert_ne in Hj by done. destruct (H j q Hj) as (k & Hr & Hnd & Hk).
    exists k. split_and!; [|done|].
    + eapply rep_chain_ext; [|done]. intros a [Ha Hb]%Hk. apply He; [done|congruence].
    + intros a. rewrite Hk. split; intros [Ha Hb]; (split; [apply Ho|]); congruence || done.
Qed.

(** Pushing a node on the front of its chain. *)
Lemma rep_tab_push h t X n q :
  rep_tab h t X -> (0 < length t)%nat -> n ∉ X ->
  t !! bucket (Z.of_nat (length t)) n = Some q ->
  rep_tab (<[n := mk_hnode (hcode n) q]> h) (<[bucket (Z.of_nat (length t)) n := Some n]> t) ({[n]} ∪ X).
Proof.
  intros H Ht Hn Hq. destruct (H _ _ Hq) as (l & Hr & Hnd & Hl).
  assert (n ∉ l) by (intros Ha%Hl; set_solver).
  eapply rep_tab_upd with (l := n :: l); [done| | | |].
  - by apply lookup_lt_is_Some_1; exists q.
  - split_and!.
    + split; [done|]. exists q. rewrite lookup_insert_eq. split; [done|].
      eapply rep_chain_ext; [|done]. intros a Ha. rewrite lookup_insert_ne; [done|]. by intros <-.
    + by constructor.
    + intros a. rewrite elem_of_cons, Hl, elem_of_union, elem_of_singleton. naive_solver.
  - intros a Ha. rewrite elem_of_union, elem_of_singleton. split; [intros [->|]|]; auto; done.
  - intros a Ha Hb. rewrite lookup_insert_ne; [done|]. intros <-. done.
Qed.

(** ** Store access *)
Lemma wp_hld p n s Q : hnodes s !! p = Some n -> Q n s -> wp (hld p) s Q.
Proof. intros Hn HQ. unfold hld. wp_bind. apply wp_get. by apply (wp_need _ n). Qed.

Lemma wp_hash_set_next p v c nx s Q : hnodes s !! p = Some (mk_hnode c nx) ->
  Q tt (with_nodes (<[p := mk_hnode c v]> (hnodes s)) s) -> wp (set_next p v) s Q.
Proof.
  intros Hn HQ. unfold set_next. wp_bind. eapply wp_hld; [done|]. unfold hst.
  wp_bind. apply wp_get. wp_bind. by apply (wp_need _ (mk_hnode c nx)).
Qed.

Lemma wp_set_code p v c nx s Q : hnodes s !! p = Some (mk_hnode c nx) ->
  Q tt (with_nodes (<[p := mk_hnode v nx]> (hnodes s)) s) -> wp (set_code p v) s Q.
Proof.
  intros Hn HQ. unfold set_code. wp_bind. eapply wp_hld; [done|]. unfold hst.
  wp_bind. apply wp_get. wp_bind. by apply (wp_need _ (mk_hnode c nx)).
Qed.

Lemma wp_tld i p t s Q : table s = Some t -> t !! Z.to_nat i = Some p -> Q p s -> wp (tld i) s Q.
Proof.
  intros Ht Hp HQ. unfold tld. wp_bind. apply wp_get. wp_bind. apply (wp_need _ t); [done|].
  by apply (wp_need _ p).
Qed.

Lemma wp_tst i p q t s Q : table s = Some t -> t !! Z.to_nat i = Some q ->
  Q tt (with_table (<[Z.to_nat i := p]> t) s) -> wp (tst i p) s Q.
Proof.
  intros Ht Hp HQ. unfold tst. wp_bind. apply wp_get. wp_bind. apply (wp_need _ t); [done|].
  wp_bind. by apply (wp_need _ q).
Qed.

Lemma wp_hmod {S} x y (s : S) Q : y <> 0 -> Q (x mod y) s -> wp (hmod x y) s Q.
Proof. intros Hy HQ. unfold hmod. by destruct (Z.eqb_spec y 0). Qed.

(** ** Rehashing *)

(** The state of the rehash loop when the table's rows below [i] and the first
    nodes of row [i] have been moved: [D] are the moved nodes and [nt] their
    table. *)
Record rehashing (s0 s : hash) (t nt : table_t) (X D : gset positive) : Prop := {
  rh_sub : D ⊆ X;
  rh_new : rep_tab (hnodes s) nt D;
  rh_old : forall a, a ∉ D -> hnodes s !! a = hnodes s0 !! a;
  rh_dom : size (hnodes s) = size (hnodes s0);
  rh_eq : s = with_nodes (hnodes s) s0;
  rh_len : (0 < length nt)%nat;
}.

Lemma with_nodes_eta s0 h : with_nodes h (with_nodes h s0) = with_nodes h s0.
Proof. done. Qed.

Lemma wp_rehash_step s0 s t nt X D p nx n :
  rehashing s0 s t nt X D -> Z.of_nat (length nt) = n -> p ∈ X -> p ∉ D ->
  hnodes s !! p = Some (mk_hnode (hcode p) nx) ->
  wp (rehash_step n nt p) s (fun r s' =>
    r.2 = nx /\ length r.1 = length nt /\ rehashing s0 s' t r.1 X ({[p]} ∪ D)).
Proof.
  intros [Hs Hr Ho Hd He Hl] <- Hp HpD Hn. unfold rehash_step.
  wp_bind. eapply wp_hld; [done|]. simpl. wp_bind. apply wp_hmod; [lia|].
  pose proof (bucket_lt (Z.of_nat (length nt)) p ltac:(lia)) as Hb.
  assert (exists q, nt !! bucket (Z.of_nat (length nt)) p = Some q) as [q Hq].
  { apply lookup_lt_is_Some_2. lia. }
  wp_bind. apply (wp_need _ q); [done|]. wp_bind. eapply wp_hash_set_next; [done|]. apply wp_ret. simpl.
  split_and!; [done|by rewrite length_insert|]. split; simpl.
  - set_solver.
  - apply rep_tab_push; [done|done|done|done].
  - intros a Ha. rewrite lookup_insert_ne by set_solver. apply Ho. set_solver.
  - rewrite <- Hd. apply map_size_insert_Some. by rewrite Hn.
  - by rewrite He.
  - by rewrite length_insert.
Qed.

Lemma wp_rehash_chain s0 s t nt X D n p l i :
  rehashing s0 s t nt X D -> Z.of_nat (length nt) = n ->
  chain_of (hnodes s0) (Z.of_nat (length t)) X i p l ->
  (forall a, a ∈ l -> a ∉ D) ->
  wp (rehash_chain n nt p) s (fun nt' s' =>
    length nt' = length nt /\ rehashing s0 s' t nt' X (list_to_set l ∪ D)).
Proof.
  intros HR Hn (Hc & Hnd & Hl) HD. unfold rehash_chain. wp_bind. apply wp_gets.
  pose proof (rep_chain_fuel _ _ _ Hc Hnd) as Hf. rewrite <- (rh_dom _ _ _ _ _ _ HR) in Hf.
  apply (wp_loop (fun k '(nt', p) s' => length nt' = length nt /\ exists l1 l2, l = l1 ++ l2 /\
    k = length l2 /\ rep_chain (hnodes s0) p l2 /\
    rehashing s0 s' t nt' X (list_to_set l1 ∪ D))) with (k := length l); [|done|].
  - intros k [nt' q] s' (Hlen & l1 & l2 & -> & -> & Hq & HR'). destruct l2 as [|a l2]; simpl in Hq.
    + subst q. apply wp_ret. rewrite app_nil_r. done.
    + destruct Hq as (-> & nx & Ha & Hq). apply NoDup_app in Hnd as (Hnd1 & Hnd2 & Hnd3).
      apply NoDup_cons in Hnd3 as [Hal2 Hnd3].
      wp_bind. eapply wp_mono.
      * apply (wp_rehash_step s0 s' t nt' X (list_to_set l1 ∪ D) a nx); [done|by rewrite Hlen|..].
        -- by apply (Hl a); set_solver.
        -- assert (a ∉ D) by (apply HD; set_solver). set_solver.
        -- rewrite (rh_old _ _ _ _ _ _ HR'); [done|]. assert (a ∉ D) by (apply HD; set_solver). set_solver.
      * intros [nt2 nx'] s2 (E1 & E2 & HR2). simpl in E1, E2, HR2. subst nx'. apply wp_ret.
        exists (length l2). split; [simpl; lia|]. split; [congruence|].
        exists (l1 ++ [a]), l2. split_and!; [by rewrite <- (assoc_L (++))|done|done|].
        replace (list_to_set (l1 ++ [a]) ∪ D) with ({[a]} ∪ (list_to_set l1 ∪ D)) by set_solver. done.
  - split; [done|]. exists [], l. split_and!; [done..|]. by rewrite list_to_set_nil, left_id_L by apply _.
Qed.

Definition rows_below (sz : Z) (X : gset positive) (i : Z) : gset positive :=
  filter (fun a => Z.of_nat (bucket sz a) < i) X.

Lemma wp_rehash s t X nt n :
  default [] (table s) = t -> hsize s = Z.of_nat (length t) -> rep_tab (hnodes s) t X ->
  (t = [] -> X = ∅) -> nt = replicate (Z.to_nat n) None -> 0 < n ->
  wp (rehash n nt) s (fun nt' s' =>
    Z.of_nat (length nt') = n /\ rep_tab (hnodes s') nt' X /\
    (forall a, a ∉ X -> hnodes s' !! a = hnodes s !! a) /\
    size (hnodes s') = size (hnodes s) /\ s' = with_nodes (hnodes s') s).
Proof.
  intros Ht Hsz Hr Hnil -> Hn. unfold rehash. wp_bind. apply wp_gets.
  apply (wp_loop (fun k '(i, nt') s' => 0 <= i <= hsize s /\ Z.of_nat k = hsize s - i /\
    Z.of_nat (length nt') = n /\ rehashing s s' t nt' X (rows_below (hsize s) X i)))
    with (k := Z.to_nat (hsize s)); [|lia|].
  - intros k [i nt'] s' (Hi & Hk & Hlen & HR). destruct (Z.ltb_spec i (hsize s)).
    + assert (exists p, t !! Z.to_nat i = Some p) as [p Hp].
      { apply lookup_lt_is_Some_2. lia. }
      destruct (Hr _ _ Hp) as (l & Hc & Hnd & Hl). rewrite <- Hsz in *.
      wp_bind. eapply wp_tld; [|done|].
      { rewrite (rh_eq _ _ _ _ _ _ HR). simpl. destruct (table s); simpl in Ht; subst; done. }
      wp_bind. eapply wp_mono.
      * apply (wp_rehash_chain s s' t nt' X _ n p l (Z.to_nat i) HR); [done|by rewrite <- Hsz|].
        intros a Ha. unfold rows_below. rewrite elem_of_filter. intros [Hb _].
        apply Hl in Ha as [_ Hb']. lia.
      * intros nt2 s2 [Hlen2 HR2]. apply wp_ret. exists (k - 1)%nat. split; [lia|].
        split_and!; [lia|lia|lia|lia|].
        replace (rows_below (hsize s) X (i + 1)) with (list_to_set l ∪ rows_below (hsize s) X i); [done|].
        apply set_eq. intros a. unfold rows_below. rewrite elem_of_union, elem_of_list_to_set, Hl, !elem_of_filter.
        split; [intros [[? ?]|[? ?]]; split; [lia|done|lia|done]|]. intros [? ?].
        destruct (decide (bucket (hsize s) a = Z.to_nat i)); [by left|right; split; [lia|done]].
    + apply wp_ret. destruct HR as [_ Hnew Hold Hdom Heq _].
      assert (rows_below (hsize s) X i = X) as E.
      { apply set_eq. intros a. unfold rows_below. rewrite elem_of_filter. split; [by intros []|].
        intros Ha. split; [|done]. destruct (decide (hsize s = 0)) as [E0|].
        - rewrite Hnil in Ha by (apply length_zero_iff_nil; lia). set_solver.
        - pose proof (bucket_lt (hsize s) a ltac:(lia)). lia. }
      rewrite E in *. by split_and!.
  - split_and!; [lia|lia|lia|by rewrite length_replicate; lia|].
    assert (rows_below (hsize s) X 0 = ∅) as ->.
    { apply set_eq. intros a. unfold rows_below. rewrite elem_of_filter. set_solver by lia. }
    split; [set_solver|apply rep_tab_empty|done|done|by destruct s|by rewrite length_replicate; lia].
Qed.
End table.

(** ** Primality by trial division *)

(** No divisor of [n] from [d] on, for [k] candidates, the last one past the square
    root. *)
Fixpoint no_divisor (k : nat) (d n : Z) : bool :=
  match k with
  | O => n <? d * d
  | Datatypes.S k => negb (n mod d =? 0) && no_divisor k (d + 1) n
  end.

Definition clear_below (d n : Z) : Prop := forall e, 2 <= e < d -> n mod e <> 0.

Lemma no_divisor_clear k d n : clear_below d n -> no_divisor k d n = true ->
  exists d', clear_below d' n /\ n < d' * d' /\ d <= d'.
Proof.
  revert d. induction k as [|k IH]; intros d Hd; simpl.
  - intros H%Z.ltb_lt. exists d. split_and!; [done|done|lia].
  - intros [H1%negb_true_iff%Z.eqb_neq H2]%andb_true_iff.
    destruct (IH (d + 1)) as (d' & ? & ? & ?); [|done|exists d'; split_and!; [done|done|lia]].
    intros e He. destruct (decide (e = d)) as [->|]; [done|apply Hd; lia].
Qed.

Lemma prime_clear d n : 2 <= n -> clear_below d n -> n < d * d -> 0 <= d -> prime n.
Proof.
  intros Hn Hc Hd Hd0. apply prime_alt. split; [lia|]. intros e He [q Hq].
  assert (0 < q) by nia. assert (q < n) by nia. assert (1 < q) by nia.
  destruct (decide (e < d)).
  - apply (Hc e); [lia|]. rewrite Hq. by apply Z_mod_mult.
  - assert (q < d) by nia. apply (Hc q); [lia|]. rewrite Hq, Z.mul_comm. by apply Z_mod_mult.
Qed.

Lemma prime_not_divided n d : prime n -> 2 <= d < n -> n mod d <> 0.
Proof.
  intros [_ Hp]%prime_alt Hd E. apply (Hp d); [lia|]. by apply Z.mod_divide; [lia|].
Qed.

Lemma wp_trial n s : 2 <= n <= 2 ^ 30 + 2 ^ 8 ->
  wp (trial n) s (fun b s' => s' = s /\ (b = true <-> prime n)).
Proof.
  intros Hn. pose proof (Z.sqrt_spec n ltac:(lia)) as Hs. pose proof (Z.sqrt_nonneg n) as Hs0. cbv zeta in Hs.
  unfold trial.
  apply (wp_loop (fun k d s' => s' = s /\ 2 <= d <= Z.sqrt n + 2 /\ clear_below d n /\
    (Z.of_nat k = Z.sqrt n + 2 - d)%Z)) with (k := Z.to_nat (Z.sqrt n)).
  - intros k d s' (-> & Hd & Hc & Hk). unfold INT_MAX.
    assert (Z.sqrt n < 32900) by (apply Z.nle_gt; intros Hge; pose proof (Z.mul_le_mono_nonneg 32900 _ 32900 _ ltac:(lia) Hge ltac:(lia) Hge); lia).
    destruct (Z.ltb_spec (2 ^ 31 - 1) (d * d)); [nia|].
    destruct (Z.leb_spec (d * d) n).
    + assert (d < Z.sqrt n + 1) by nia.
      destruct (Z.eqb_spec (n mod d) 0) as [E|E]; apply wp_ret.
      * split; [done|]. split; [done|]. intros Hp. destruct (prime_not_divided n d Hp); [nia|done].
      * exists (k - 1)%nat. split; [lia|]. split_and!; [done|lia|lia| |lia].
        intros e He. destruct (decide (e = d)) as [->|]; [done|apply Hc; lia].
    + apply wp_ret. split; [done|]. split; [|done]. intros _. eapply (prime_clear d); [lia|done|lia|lia].
  - lia.
  - split_and!; [done|lia|lia| |lia]. intros e He. lia.
Qed.

(** ** Powers of two and the next prime *)
Definition gaps : list Z :=
  [5; 3; 3; 1; 9; 7; 5; 3; 17; 27; 3; 1; 29; 3; 21; 7; 17; 15; 9; 43;
   35; 15; 29; 3; 11; 3].

Definition isqrt_up (n : Z) : nat := Z.to_nat (Z.sqrt n).

Lemma gaps_ok : forallb (fun '(k, g) => no_divisor (isqrt_up (2 ^ k + g)) 2 (2 ^ k + g))
  (zip (seqZ 5 26) gaps) = true.
Proof. vm_compute. reflexivity. Qed.

Lemma prime_gap k : 5 <= k < 31 -> exists g, 0 <= g < 64 /\ prime (2 ^ k + g).
Proof.
  intros Hk. assert (exists g, gaps !! Z.to_nat (k - 5) = Some g) as [g Hg].
  { apply lookup_lt_is_Some_2. simpl. lia. }
  exists g. assert (0 <= g < 64) as Hg'.
  { apply (list_elem_of_lookup_2 gaps) in Hg. revert g Hg. apply Forall_forall.
    repeat (constructor; [lia|]). constructor. }
  split; [done|]. pose proof gaps_ok as H. rewrite forallb_forall in H.
  specialize (H (k, g)). rewrite <- list_elem_of_In in H.
  assert (E : (k, g) ∈ zip (seqZ 5 26) gaps).
  { apply (list_elem_of_lookup_2 _ (Z.to_nat (k - 5))). apply lookup_zip_with_Some.
    exists k, g. split_and!; [done| |done]. rewrite lookup_seqZ. lia. }
  apply H in E. apply no_divisor_clear in E as (d & H1 & H2 & H3); [|intros e He; lia].
  assert (0 < 2 ^ k) by (apply Z.pow_pos_nonneg; lia).
  assert (2 ^ 5 <= 2 ^ k) by (apply Z.pow_le_mono_r; lia).
  by apply (prime_clear d); [lia|done|lia|lia].
Qed.

Lemma wp_double_to hint s : 0 <= hint <= 2 ^ 30 ->
  wp (double_to hint) s (fun n s' => s' = s /\ hint <= n /\
    (exists k, 5 <= k < 31 /\ n = 2 ^ k) /\ (n = 32 \/ n < 2 * hint)).
Proof.
  intros Hh. unfold double_to, double_step.
  apply (wp_loop (fun j n s' => s' = s /\ exists k, 5 <= k < 31 /\ n = 2 ^ k /\ Z.of_nat j = 31 - k /\
    (n = 32 \/ n < 2 * hint))) with (k := 26%nat).
  - intros j n s' (-> & k & Hk & -> & Hj & Hn). destruct (Z.ltb_spec (2 ^ k) hint) as [Hl|Hl].
    + apply wp_ret. assert (2 ^ k < 2 ^ 30) as Hl' by lia.
      apply Z.pow_lt_mono_r_iff in Hl'; [|lia|lia].
      exists (j - 1)%nat. split; [lia|]. split; [done|]. exists (k + 1).
      rewrite Z.shiftl_mul_pow2, Z.pow_add_r by lia. unfold u32.
      rewrite Z.mod_small; [split_and!; try lia|].
      assert (2 ^ k <= 2 ^ 30) by (apply Z.pow_le_mono_r; lia).
      assert (0 < 2 ^ k) by (apply Z.pow_pos_nonneg; lia). lia.
    + apply wp_ret. split_and!; [done|lia|eauto|lia].
  - lia.
  - split; [done|]. exists 5. split_and!; [lia|lia|done|lia|by left].
Qed.

(** The size the table is given for [hint] nodes. *)
Record table_size (hint n : Z) : Prop := {
  ts_prime : prime n;
  ts_min : 32 <= n;
  ts_hint : hint <= n;
  ts_max : n < Z.max 32 (2 * hint) + 64;
}.

Lemma wp_next_prime k s : 5 <= k < 31 ->
  wp (next_prime (2 ^ k)) s (fun n s' => s' = s /\ prime n /\ 2 ^ k <= n < 2 ^ k + 64 /\
    forall q, prime q -> 2 ^ k <= q -> n <= q).
Proof.
  intros Hk. destruct (prime_gap k Hk) as (g & Hg & Hp).
  assert (2 ^ 5 <= 2 ^ k <= 2 ^ 30) as Hk' by (split; apply Z.pow_le_mono_r; lia).
  unfold next_prime.
  apply (wp_loop (fun j n s' => s' = s /\ 2 ^ k <= n <= 2 ^ k + g /\ Z.of_nat j = 2 ^ k + g - n /\
    forall q, prime q -> 2 ^ k <= q -> n <= q)) with (k := Z.to_nat g).
  - intros j n s' (-> & Hn & Hj & Hq). wp_bind. eapply wp_mono; [apply wp_trial; lia|].
    intros [] s' [-> Hb].
    + apply wp_ret. split_and!; [done|by apply Hb|lia|lia|done].
    + apply wp_ret. assert (n <> 2 ^ k + g) by (intros ->; by apply Hb in Hp).
      exists (j - 1)%nat. split; [lia|]. unfold u32. rewrite Z.mod_small by lia.
      split_and!; [done|lia|lia|lia|]. intros q Hpq Hkq. specialize (Hq q Hpq Hkq).
      destruct (decide (q = n)) as [->|]; [by apply Hb in Hpq|lia].
  - lia.
  - split_and!; [done|lia|lia|lia|]. intros; lia.
Qed.

Lemma wp_table_size hint s : 0 <= hint <= 2 ^ 30 ->
  wp (bind (double_to hint) next_prime) s (fun n s' => s' = s /\ table_size hint n).
Proof.
  intros Hh. wp_bind. eapply wp_mono; [by apply wp_double_to|].
  intros n s' (-> & Hn & (k & Hk & ->) & Hm). eapply wp_mono; [by apply wp_next_prime|].
  intros p s' (-> & Hp & Hpn & _). split; [done|].
  assert (2 ^ 5 <= 2 ^ k) by (apply Z.pow_le_mono_r; lia). split; [done|lia|lia|lia].
Qed.

(** Above 2^31 the doubling wraps to 0 and the loop does not end. *)
Lemma double_to_diverges hint s fuel : 2 ^ 31 < hint -> loop fuel (double_step hint) 32 s = NoFuel.
Proof.
  intros Hh. assert (forall n, (exists k, 0 <= k <= 31 /\ n = 2 ^ k) \/ n = 0 ->
    loop fuel (double_step hint) n s = NoFuel) as H; [|apply H; left; by exists 5].
  induction fuel as [|fuel IH]; intros n Hn; [done|].
  change (bind (double_step hint n) (fun r => match r with
    | inl a => loop fuel (double_step hint) a | inr b => ret b end) s = NoFuel).
  unfold double_step at 1, bind.
  assert (n <= 2 ^ 31) as Hn'.
  { destruct Hn as [(k & Hk & ->)| ->]; [apply Z.pow_le_mono_r|]; lia. }
  destruct (Z.ltb_spec n hint); [|lia]. unfold ret. apply IH.
  destruct Hn as [(k & Hk & ->)| ->]; [|by right].
  rewrite Z.shiftl_mul_pow2 by lia. unfold u32. rewrite <- Z.pow_add_r by lia.
  destruct (decide (k = 31)) as [->|]; [by right|left]. exists (k + 1). split; [lia|].
  rewrite Z.mod_small; [done|]. split; [lia|]. apply Z.pow_lt_mono_r; lia.
Qed.
