(* ===== verification/HashMain.v ===== *)
(** Correctness of src/hash.c: the table refines a finite map from keys to
    nodes. *)
From stdpp Require Import fin_maps fin_sets.
From S2P Require Import Prelude Hash HashTable.

(** The user's side: every node has a key, equal keys have equal hash codes by
    construction, and [compare] returns 0 exactly when the key matches. *)
Class HashKey (K : Type) `{Countable K} := {
  key_of : positive -> K;
  func : K -> Z;
  compare : K -> positive -> Z;
  func_range : forall k, 0 <= func k < 2 ^ 32;
  compare_spec : forall k n, compare k n = 0 <-> key_of n = k;
}.

Section main.
Context {K : Type} `{HashKey K} (malloc_ok : nat -> bool).

Abbreviation hcode := (fun n => func (key_of n)).

(** The nodes held by a table that stands for [m]. *)
Definition nodes_of (m : gmap K positive) : gset positive := map_img m.

(** [s] is a well-formed table that stands for the map [m]. *)
Record is_hash (s : hash) (m : gmap K positive) : Prop := {
  ih_size : hsize s = Z.of_nat (length (default [] (table s)));
  ih_bound : hsize s < 2 ^ 32;
  ih_nil : default [] (table s) = [] -> m = ∅;
  ih_count : count s = Z.of_nat (size m);
  ih_max : count s <= 2 ^ 29;
  ih_key : forall k a, m !! k = Some a -> key_of a = k;
  ih_tab : rep_tab hcode (hnodes s) (default [] (table s)) (nodes_of m);
}.

Lemma elem_of_nodes_of (m : gmap K positive) a : a ∈ nodes_of m <-> exists k, m !! k = Some a.
Proof. apply elem_of_map_img. Qed.

Lemma nodes_key s m a : is_hash s m -> a ∈ nodes_of m <-> m !! key_of a = Some a.
Proof.
  intros Hs. rewrite elem_of_nodes_of. split; [|eauto]. intros [k Hk].
  by rewrite (ih_key _ _ Hs _ _ Hk).
Qed.

Lemma is_hash_init h : is_hash (hash_init h) ∅.
Proof.
  split; simpl; [done|lia|done|by rewrite map_size_empty|lia| |intros i p Hi; done].
  intros k a. by rewrite lookup_empty.
Qed.

(** ** Resizing *)
Lemma wp_hash_hint s m hint : is_hash s m -> 0 <= hint <= 2 ^ 30 ->
  wp (hash_capacity_hint malloc_ok hint) s (fun rc s' =>
    is_hash s' m /\ (forall x, x ∉ nodes_of m -> hnodes s' !! x = hnodes s !! x) /\
    count s' = count s /\
    (rc = 0 /\ (hint < count s /\ s' = s \/ table_size hint (hsize s')) \/
     rc = -1 /\ malloc_ok (mallocs s) = false /\ hnodes s' = hnodes s /\ table s' = table s)).
Proof.
  intros Hs Hh. unfold hash_capacity_hint. wp_bind. apply wp_get.
  destruct (Z.ltb_spec hint (count s)); [apply wp_ret; split_and!; auto|].
  pose proof (wp_table_size hint s Hh) as Hw. revert Hw. unfold wp, bind.
  destruct (double_to hint s) as [[s1 n1]| |]; [|done..].
  destruct (next_prime n1 s1) as [[s2 n]| |]; [|done..]. intros [-> Hn].
  fold (@wp hash Z). destruct (Z.eqb_spec (hsize s) n) as [<-|Hne].
  { simpl. split_and!; auto. }
  unfold malloc, bind, get, put, ret. simpl. destruct (malloc_ok (mallocs s)) eqn:Em; simpl.
  - pose proof Hn as [_ Hn1 Hn2 Hn3].
    pose proof (wp_rehash hcode (mk_hash (hsize s) (count s) (table s) (hnodes s) (Datatypes.S (mallocs s)))
      (default [] (table s)) (nodes_of m) (replicate (Z.to_nat n) None) n eq_refl (ih_size _ _ Hs) (ih_tab _ _ Hs)) as Hw.
    specialize (Hw ltac:(intros E; by rewrite (ih_nil _ _ Hs E)) eq_refl ltac:(lia)).
    unfold wp in Hw. destruct (rehash _ _ _) as [[s2 nt]| |]; [|done..].
    destruct Hw as (Hlen & Hr & Hf & Hd & Heq). simpl. split_and!.
    + destruct Hs. rewrite Heq. split; simpl; try done; [lia|].
      intros ->. simpl in Hlen. lia.
    + by rewrite Heq.
    + by rewrite Heq.
    + left. split; [done|right]. done.
  - split_and!; [by destruct Hs; split|done|done|right; by split_and!].
Qed.

(** ** Lookup *)
Lemma wp_find_chain s key p l :
  rep_chain hcode (hnodes s) p l -> NoDup l ->
  wp (find_chain compare key p) s (fun r s' => s' = s /\ r = list_find (fun a => key_of a = key) l ≫= fun x => Some x.2).
Proof.
  intros Hr Hnd. unfold find_chain. wp_bind. apply wp_gets.
  pose proof (rep_chain_fuel _ _ _ _ Hr Hnd) as Hf. clear Hnd.
  revert p Hr Hf. generalize (Datatypes.S (size (hnodes s))) as fuel. intros fuel.
  revert fuel. induction l as [|a l IH]; intros fuel p Hr Hf; (destruct fuel as [|fuel]; [simpl in Hf; lia|]);
    simpl in Hr; apply wp_loop_step.
  - subst p. by apply wp_ret.
  - destruct Hr as (-> & nx & Ha & Hr). unfold truth. destruct (Z.eqb_spec (compare key a) 0) as [E|E]; simpl.
    + apply wp_ret. rewrite decide_True by by apply compare_spec. done.
    + wp_bind. eapply wp_hld; [done|]. apply wp_ret. rewrite decide_False by by rewrite <- compare_spec.
      eapply wp_mono; [apply IH; [done|simpl in Hf; lia]|]. intros r s' [-> ->]. split; [done|].
      by destruct (list_find _ l) as [[]|].
Qed.

(** Where a key's node is. *)
Lemma chain_lookup s m key p l :
  is_hash s m -> 0 < hsize s ->
  chain_of hcode (hnodes s) (hsize s) (nodes_of m) (Z.to_nat (func key mod hsize s)) p l ->
  list_find (fun a => key_of a = key) l ≫= (fun x => Some x.2) = m !! key.
Proof.
  intros Hs Hsz (_ & _ & Hl). destruct (list_find _ l) as [[i a]|] eqn:E; simpl.
  - apply list_find_Some in E as (Ha & <- & _). symmetry. apply (nodes_key _ _ _ Hs), Hl.
    by eapply list_elem_of_lookup_2.
  - apply list_find_None in E. destruct (m !! key) as [a|] eqn:Em; [|done].
    pose proof (ih_key _ _ Hs _ _ Em) as <-. rewrite Forall_forall in E.
    destruct (E a); [|done]. apply Hl. split; [by apply (nodes_key _ _ _ Hs)|done].
Qed.

Lemma table_row s m c : is_hash s m -> 0 < hsize s -> 
  exists t p l, table s = Some t /\ Z.of_nat (length t) = hsize s /\
    t !! Z.to_nat (c mod hsize s) = Some p /\
    chain_of hcode (hnodes s) (hsize s) (nodes_of m) (Z.to_nat (c mod hsize s)) p l.
Proof.
  intros [Hsz _ _ _ _ _ Ht] Hpos. destruct (table s) as [t|]; simpl in *; [|lia]. 
  pose proof (Z.mod_pos_bound c (hsize s) Hpos).
  destruct (lookup_lt_is_Some_2 t (Z.to_nat (c mod hsize s))) as [p Hp]; [lia|].
  destruct (Ht _ _ Hp) as [l Hl]. rewrite <- Hsz in Hl. by exists t, p, l.
Qed.

Lemma wp_find s m key : is_hash s m ->
  wp (hash_find func compare key) s (fun r s' => s' = s /\ r = m !! key).
Proof.
  intros Hs. unfold hash_find. wp_bind. apply wp_gets. unfold truth.
  pose proof (ih_size _ _ Hs) as Hsz. destruct (Z.eqb_spec (hsize s) 0) as [E|E]; simpl.
  - apply wp_ret. split; [done|]. rewrite (ih_nil _ _ Hs); [by rewrite lookup_empty|].
    apply length_zero_iff_nil. lia.
  - wp_bind. apply wp_hmod; [done|].
    destruct (table_row s m (func key) Hs ltac:(lia)) as (t & p & l & Ht & Hlen & Hp & Hl).
    wp_bind. eapply wp_tld; [done|done|]. pose proof Hl as (Hr & Hnd & _).
    eapply wp_mono; [by apply wp_find_chain|]. intros r s' [-> ->]. split; [done|].
    apply (chain_lookup s m key p l); [done|lia|done].
Qed.

(** ** Insertion *)

(** The chain [hash_insert] builds: the nodes with another key, reversed, on
    top of the new node. *)
Lemma wp_insert_chain s key ins p l c0 :
  rep_chain hcode (hnodes s) p l -> NoDup (ins :: l) ->
  hnodes s !! ins = Some (mk_hnode c0 None) -> c0 = hcode ins ->
  wp (insert_chain compare key ins p) s (fun '(top, old) s' => exists l',
    rep_chain hcode (hnodes s') (Some top) l' /\ NoDup l' /\
    (forall a, a ∈ l' <-> a = ins \/ a ∈ l /\ key_of a <> key) /\
    match old with
    | Some a => a ∈ l /\ key_of a = key
    | None => forall a, a ∈ l -> key_of a <> key
    end /\
    (forall x, x ∉ l -> hnodes s' !! x = hnodes s !! x) /\
    s' = with_nodes (hnodes s') s).
Proof.
  intros Hr Hnd Hins ->. unfold insert_chain. wp_bind. apply wp_gets.
  pose proof Hnd as [Hni Hl]%NoDup_cons.
  pose proof (rep_chain_fuel _ _ _ _ Hr Hl) as Hf.
  apply (wp_loop (fun k '(top, old, p) s' => exists l1 l2 acc, l = l1 ++ l2 /\ k = length l2 /\
    rep_chain hcode (hnodes s') p l2 /\ rep_chain hcode (hnodes s') (Some top) acc /\
    NoDup acc /\ (forall a, a ∈ acc <-> a = ins \/ a ∈ l1 /\ key_of a <> key) /\
    match old with
    | Some a => a ∈ l1 /\ key_of a = key
    | None => forall a, a ∈ l1 -> key_of a <> key
    end /\
    (forall x, x ∉ l1 -> hnodes s' !! x = hnodes s !! x) /\
    s' = with_nodes (hnodes s') s)) with (k := length l); [|done|].
  - intros k [[top old] q] s' (l1 & l2 & acc & -> & -> & Hq & Ht & Ha & Hacc & Ho & Hx & He).
    destruct l2 as [|a l2]; simpl in Hq.
    + subst q. apply wp_ret. rewrite app_nil_r in *. exists acc. by split_and!.
    + destruct Hq as (-> & nx & Haa & Hq). wp_bind. eapply wp_hld; [done|]. simpl.
      apply NoDup_app in Hl as (Hn1 & Hn2 & [Hn3 Hn4]%NoDup_cons).
      assert (a ∉ l1) by (intros ?; by eapply Hn2; [done|left]).
      assert (a ≠ ins) by (intros ->; set_solver).
      unfold truth. destruct (Z.eqb_spec (compare key a) 0) as [E|E]; simpl.
      * apply compare_spec in E. apply wp_ret. exists (length l2). split; [simpl; lia|].
        exists (l1 ++ [a]), l2, acc. split_and!; try done; [by rewrite <- (assoc_L (++))| | |].
        -- intros x. rewrite Hacc. set_solver.
        -- set_solver.
        -- intros x ?. apply Hx. set_solver.
      * assert (key_of a ≠ key) as E' by by rewrite <- compare_spec.
        wp_bind. eapply wp_hash_set_next; [done|]. apply wp_ret. exists (length l2). split; [simpl; lia|].
        assert (a ∉ acc) as Haacc by (rewrite Hacc; naive_solver).
        exists (l1 ++ [a]), l2, (a :: acc). simpl. split_and!; [by rewrite <- (assoc_L (++))|done|..].
        -- eapply rep_chain_ext; [|done]. intros x Hxl. rewrite lookup_insert_ne; [done|]. by intros <-.
        -- done.
        -- exists (Some top). rewrite lookup_insert_eq. split; [done|]. eapply rep_chain_ext; [|done].
           intros x Hxl. rewrite lookup_insert_ne; [done|]. by intros <-.
        -- by constructor.
        -- intros x. rewrite elem_of_cons, Hacc. set_solver.
        -- destruct old; set_solver.
        -- intros x Hxl. rewrite lookup_insert_ne by set_solver. apply Hx. set_solver.
        -- by rewrite He.
  - exists [], l, [ins]. split_and!; try done; [|apply NoDup_singleton|set_solver|set_solver|by destruct s].
    simpl. eauto.
Qed.

Lemma is_hash_ext s m h : is_hash s m ->
  (forall a, a ∈ nodes_of m -> h !! a = hnodes s !! a) -> is_hash (with_nodes h s) m.
Proof.
  intros [] Hx. split; simpl; try done. by eapply rep_tab_ext.
Qed.

Lemma is_hash_upd s m m' t t' h' c :
  is_hash s m -> table s = Some t -> length t' = length t -> 0 < hsize s ->
  rep_tab hcode h' t' (nodes_of m') -> c = Z.of_nat (size m') -> c <= 2 ^ 29 ->
  (forall k a, m' !! k = Some a -> key_of a = k) ->
  is_hash (with_count c (with_table t' (with_nodes h' s))) m'.
Proof.
  intros [] Ht Hlen Hpos Hr -> Hc Hk. rewrite Ht in *. simpl in *.
  split; simpl; try done; [lia|]. intros ->. simpl in Hlen. lia.
Qed.

Lemma nodes_of_insert s m key ins : is_hash s m -> key_of ins = key ->
  forall a, a ∈ nodes_of (<[key := ins]> m) <-> a = ins \/ a ∈ nodes_of m /\ key_of a <> key.
Proof.
  intros Hs Hk a. rewrite (nodes_key s m) by done. rewrite elem_of_nodes_of. split.
  - intros [k Ha]. destruct (decide (k = key)) as [->|Hne].
    + rewrite lookup_insert_eq in Ha. left. congruence.
    + rewrite lookup_insert_ne in Ha by done. right.
      pose proof (ih_key _ _ Hs _ _ Ha) as <-. done.
  - intros [->|[Ha Hne]].
    + exists key. by rewrite lookup_insert_eq.
    + exists (key_of a). by rewrite lookup_insert_ne.
Qed.

Lemma insert_key s m key ins : is_hash s m -> key_of ins = key ->
  forall k a, <[key := ins]> m !! k = Some a -> key_of a = k.
Proof.
  intros Hs Hk k a. destruct (decide (k = key)) as [->|Hne].
  - rewrite lookup_insert_eq. congruence.
  - rewrite lookup_insert_ne by done. apply Hs.
Qed.

Definition inserted (s : hash) (m : gmap K positive) key ins flags (r : Z * option (option positive))
    (s' : hash) : Prop :=
  r = (0, if truth (Z.land flags HASH_INSERT_UNIQUE) then None else Some (m !! key)) /\
  is_hash s' (<[key := ins]> m) /\
  forall x, x ∉ nodes_of m -> x <> ins -> hnodes s' !! x = hnodes s !! x.

Lemma wp_insert_link s m key ins flags :
  is_hash s m -> ins ∉ nodes_of m -> key_of ins = key -> 0 < hsize s -> count s < 2 ^ 29 ->
  hnodes s !! ins = Some (mk_hnode (func key) None) ->
  (truth (Z.land flags HASH_INSERT_UNIQUE) = true -> m !! key = None) ->
  wp (insert_link compare key ins flags) s (inserted s m key ins flags).
Proof.
  intros Hs Hni Hk Hpos Hc Hins Hu. unfold insert_link, inserted. wp_bind. eapply wp_hld; [done|]. simpl.
  wp_bind. apply wp_gets. wp_bind. apply wp_hmod; [lia|].
  destruct (table_row s m (func key) Hs Hpos) as (t & p & l & Ht & Hlen & Hp & Hl).
  wp_bind. eapply wp_tld; [done|done|]. pose proof (ih_tab _ _ Hs) as Hrep. rewrite Ht in Hrep. simpl in Hrep.
  pose proof (ih_count _ _ Hs) as Hcnt. pose proof (nodes_of_insert s m key ins Hs Hk) as Hno.
  pose proof (insert_key s m key ins Hs Hk) as Hik.
  assert (u32 (count s + 1) = count s + 1) as Hu32 by (unfold u32; rewrite Z.mod_small; lia).
  assert (forall o, is_hash s m -> m !! key = o -> Z.of_nat (size (<[key := ins]> m)) =
    if o then count s else count s + 1) as Hsize.
  { intros [a|] _ Hm; [rewrite map_size_insert_Some by (rewrite Hm; eauto); lia|].
    rewrite map_size_insert_None by done. lia. }
  destruct (truth _) eqn:Eu.
  - specialize (Hu eq_refl). wp_bind. eapply wp_hash_set_next; [done|].
    wp_bind. eapply wp_tst; [done|done|]. wp_bind. apply wp_modify. apply wp_ret.
    split_and!; [done| |intros x ? ?; simpl; by rewrite lookup_insert_ne].
    eapply is_hash_upd; [done|done|by rewrite length_insert|done| | |simpl; lia|done].
    + pose proof (rep_tab_push hcode (hnodes s) t (nodes_of m) ins p Hrep ltac:(lia) Hni) as Hpush.
      unfold bucket in Hpush. rewrite Hlen, Hk in Hpush. specialize (Hpush Hp).
      replace (nodes_of (<[key:=ins]> m)) with ({[ins]} ∪ nodes_of m); [done|].
      apply set_eq. intros a. rewrite Hno, elem_of_union, elem_of_singleton.
      split; [|naive_solver]. intros [|Ha]; [by left|right]. split; [done|].
      intros <-. apply (nodes_key _ _ _ Hs) in Ha. congruence.
    + rewrite (Hsize None) by done. simpl. lia.
  - destruct Hl as (Hr & Hnd & Hl).
    assert (ins ∉ l) as Hil by (intros ?%Hl; naive_solver).
    wp_bind. eapply wp_mono.
    { eapply (wp_insert_chain s key ins p l); [done|by constructor|done|by rewrite Hk]. }
    intros [top old] s1 (l' & Hr' & Hnd' & Hl' & Hold & Hx & He).
    assert (old = m !! key) as ->.
    { destruct old as [a|].
      - destruct Hold as [Ha <-]. symmetry. by apply (nodes_key _ _ _ Hs), Hl.
      - destruct (m !! key) as [a|] eqn:Em; [|done]. pose proof (ih_key _ _ Hs _ _ Em) as <-.
        destruct (Hold a); [|done]. apply Hl. split; [by apply (nodes_key _ _ _ Hs)|done]. }
    wp_bind. eapply wp_tst; [by rewrite He|done|].
    assert (rep_tab hcode (hnodes s1) (<[Z.to_nat (func key mod hsize s) := Some top]> t)
      (nodes_of (<[key := ins]> m))) as Hrep'.
    { eapply rep_tab_upd with (l := l'); [exact Hrep|by apply lookup_lt_is_Some_1; exists p|..]; rewrite Hlen.
      - split_and!; [done|done|]. intros a. rewrite Hl', Hno, Hl. unfold bucket. naive_solver.
      - intros a Hb. rewrite Hno. split.
        + intros [->|[]]; [|done]. by unfold bucket in Hb; rewrite Hk in Hb.
        + intros Ha. right. split; [done|]. by intros <-.
      - intros a Ha Hb. apply Hx. rewrite Hl. naive_solver. }
    assert (forall c, c = Z.of_nat (size (<[key:=ins]> m)) -> c <= 2 ^ 29 ->
      is_hash (with_count c (with_table (<[Z.to_nat (func key mod hsize s) := Some top]> t) s1))
        (<[key := ins]> m)) as Hfin.
    { intros c Hcc Hcm. rewrite He. eapply is_hash_upd; [exact Hs|done|by rewrite length_insert|..]; done. }
    assert (forall x, x ∉ nodes_of m -> x <> ins -> hnodes s1 !! x = hnodes s !! x) as Hframe.
    { intros x Hxm Hxi. apply Hx. intros ?%Hl. naive_solver. }
    assert (count s1 = count s) as Hc1 by by rewrite He.
    destruct (m !! key) as [a|] eqn:Em; wp_bind.
    + apply wp_ret, wp_ret. split_and!; [done| |exact Hframe].
      replace (with_table _ s1) with
        (with_count (count s1) (with_table (<[Z.to_nat (func key mod hsize s) := Some top]> t) s1)) by done.
      apply Hfin; rewrite ?(Hsize (Some a)) by done; lia.
    + apply wp_modify, wp_ret. split_and!; [done| |exact Hframe].
      apply Hfin; simpl; rewrite ?(Hsize None), Hc1, Hu32 by done; lia.
Qed.

Lemma wp_room s m : is_hash s m -> count s < 2 ^ 29 ->
  wp (if hsize s <=? count s then hash_capacity_hint malloc_ok (u32 (count s + 1)) else ret 0) s
    (fun rc s' => is_hash s' m /\ count s' = count s /\
      (forall x, x ∉ nodes_of m -> hnodes s' !! x = hnodes s !! x) /\
      (rc = 0 /\ 0 < hsize s' \/
       rc = -1 /\ malloc_ok (mallocs s) = false /\ hsize s <= count s /\ hnodes s' = hnodes s)).
Proof.
  intros Hs Hc. pose proof (ih_count _ _ Hs). unfold u32. rewrite Z.mod_small by lia.
  destruct (Z.leb_spec (hsize s) (count s)).
  - eapply wp_mono; [apply (wp_hash_hint s m); [done|lia]|].
    intros rc s' (Hs' & Hf & Hcc & [[-> Hr]|(-> & Hm & Hn & _)]); (split_and!; [done|done|done|]).
    + left. split; [done|]. destruct Hr as [[]|[? ? ? ?]]; lia.
    + right. by split_and!.
  - apply wp_ret. split_and!; [done|done|done|]. left. lia.
Qed.

Lemma wp_insert s m key ins flags c nx :
  is_hash s m -> ins ∉ nodes_of m -> key_of ins = key -> count s < 2 ^ 29 ->
  hnodes s !! ins = Some (mk_hnode c nx) ->
  (truth (Z.land flags HASH_INSERT_PREHASHED) = true -> c = func key) ->
  (truth (Z.land flags HASH_INSERT_UNIQUE) = true -> m !! key = None) ->
  wp (hash_insert func compare malloc_ok key ins flags) s (fun r s' =>
    inserted s m key ins flags r s' \/
    r = (-1, None) /\ is_hash s' m /\ malloc_ok (mallocs s) = false /\ hsize s <= count s /\
    hnodes s' = hnodes s).
Proof.
  intros Hs Hni Hk Hc Hins Hpre Hu. unfold hash_insert. wp_bind. apply wp_get.
  wp_bind. eapply wp_mono; [by apply (wp_room s m)|].
  intros rc s1 (Hs1 & Hc1 & Hf & [[-> Hpos]|(-> & Hm & Hsz & Hn)]); simpl.
  2: { apply wp_ret. right. by split_and!. }
  wp_bind. eapply wp_hash_set_next; [by rewrite Hf|].
  assert (forall c0, is_hash (with_nodes (<[ins := mk_hnode c0 None]> (hnodes s1)) s1) m) as Hext.
  { intros c0. apply is_hash_ext; [done|]. intros a Ha. rewrite lookup_insert_ne; [done|]. by intros ->. }
  assert (wp (insert_link compare key ins flags)
    (with_nodes (<[ins := mk_hnode (func key) None]> (hnodes s1)) s1)
    (fun r s' => inserted s m key ins flags r s')) as Hlink.
  { eapply wp_mono.
    - apply (wp_insert_link _ m); [apply Hext|done|done|done|simpl; lia|simpl; by rewrite lookup_insert_eq|done].
    - intros r s' (Hr & Hs' & Hx). split_and!; [done|done|]. intros x Hxm Hxi.
      rewrite Hx by done. simpl. rewrite lookup_insert_ne by done. by apply Hf. }
  wp_bind. destruct (truth (Z.land flags HASH_INSERT_PREHASHED)) eqn:Ep; simpl.
  - rewrite Hpre by done. apply wp_ret. eapply wp_mono; [exact Hlink|]. by left.
  - eapply wp_set_code; [simpl; by rewrite lookup_insert_eq|].
    simpl. rewrite insert_insert_eq. eapply wp_mono; [exact Hlink|]. by left.
Qed.

(** ** Removal *)
Lemma wp_find_prev s n p l :
  rep_chain hcode (hnodes s) p l -> NoDup l -> head l <> Some n ->
  wp (find_prev n p) s (fun r s' => s' = s /\
    match r with
    | Some q => exists l1 l2, l = l1 ++ q :: n :: l2
    | None => n ∉ l
    end).
Proof.
  intros Hr Hnd Hh. unfold find_prev. wp_bind. apply wp_gets.
  pose proof (rep_chain_fuel _ _ _ _ Hr Hnd) as Hf.
  apply (wp_loop (fun k p s' => s' = s /\ exists l1 l2, l = l1 ++ l2 /\ k = length l2 /\
    rep_chain hcode (hnodes s) p l2 /\ n ∉ l1 /\ head l2 <> Some n)) with (k := length l); [|done|].
  - intros k q s' (-> & l1 & l2 & -> & -> & Hq & Hn1 & Hn2). destruct l2 as [|a l2]; simpl in Hq.
    + subst q. apply wp_ret. split; [done|]. by rewrite app_nil_r.
    + destruct Hq as (-> & nx & Ha & Hq). wp_bind. eapply wp_hld; [done|]. simpl.
      destruct (decide (nx = Some n)) as [->|Hne].
      * apply wp_ret. split; [done|]. destruct l2 as [|b l2]; simpl in Hq; [done|].
        destruct Hq as [[= <-] _]. eauto.
      * apply wp_ret. exists (length l2). split; [simpl; lia|]. split; [done|].
        exists (l1 ++ [a]), l2. simpl in Hn2. split_and!; [by rewrite <- (assoc_L (++))|done|done| |].
        -- rewrite not_elem_of_app, list_elem_of_singleton. split; congruence.
        -- destruct l2; simpl in *; [done|]. destruct Hq as [-> _]. congruence.
  - split; [done|]. exists [], l. split_and!; try done. set_solver.
Qed.

Lemma rep_chain_unlink h p l1 l2 q n nx :
  rep_chain hcode h p (l1 ++ q :: n :: l2) -> NoDup (l1 ++ q :: n :: l2) ->
  h !! n = Some (mk_hnode (hcode n) nx) ->
  rep_chain hcode (<[q := mk_hnode (hcode q) nx]> h) p (l1 ++ q :: l2).
Proof.
  intros Hr Hnd Hn. revert p Hr. induction l1 as [|a l1 IH]; simpl in *; intros p.
  - intros (-> & nx0 & Hq & -> & nx1 & Hn' & Hr). rewrite Hn in Hn'. injection Hn' as <-.
    split; [done|]. exists nx. rewrite lookup_insert_eq. split; [done|].
    eapply rep_chain_ext; [|done]. intros x Hx. rewrite lookup_insert_ne; [done|].
    intros <-. apply NoDup_cons in Hnd as [Hnd _]. set_solver.
  - intros (-> & nx0 & Ha & Hr). apply NoDup_cons in Hnd as [Hna Hnd].
    split; [done|]. exists nx0. rewrite lookup_insert_ne by set_solver. split; [done|]. by apply IH.
Qed.

Definition removed (m : gmap K positive) (n : positive) : gmap K positive :=
  if decide (m !! key_of n = Some n) then delete (key_of n) m else m.

Lemma nodes_of_delete s m n : is_hash s m -> m !! key_of n = Some n ->
  forall a, a ∈ nodes_of (delete (key_of n) m) <-> a ∈ nodes_of m /\ a <> n.
Proof.
  intros Hs Hn a. rewrite (nodes_key s m) by done. rewrite elem_of_nodes_of. split.
  - intros [k [Hne Ha]%lookup_delete_Some]. pose proof (ih_key _ _ Hs _ _ Ha) as <-.
    split; [done|]. by intros ->.
  - intros [Ha Hne]. exists (key_of a). apply lookup_delete_Some. split; [|done].
    intros E. rewrite <- E, Hn in Ha. congruence.
Qed.

(** [n] is cut out of its chain [l], which becomes [l']. *)
Lemma is_hash_cut s m n t q l' h' :
  is_hash s m -> 0 < hsize s -> table s = Some t -> m !! key_of n = Some n ->
  rep_chain hcode h' q l' -> NoDup l' ->
  (forall a, a ∈ l' <-> a ∈ nodes_of m /\ bucket hcode (hsize s) a = bucket hcode (hsize s) n /\ a <> n) ->
  (forall a, a ∈ nodes_of m -> bucket hcode (hsize s) a <> bucket hcode (hsize s) n -> h' !! a = hnodes s !! a) ->
  is_hash (with_count (u32 (count s - 1))
    (with_table (<[Z.to_nat (hcode n mod hsize s) := q]> t) (with_nodes h' s))) (delete (key_of n) m).
Proof.
  intros Hs Hpos Ht Hn Hr Hnd Hl He. pose proof (nodes_of_delete s m n Hs Hn) as Hno.
  pose proof (ih_count _ _ Hs) as Hc. pose proof (ih_max _ _ Hs).
  pose proof (ih_size _ _ Hs) as Hsz. rewrite Ht in Hsz. simpl in Hsz.
  assert (0 < size m)%nat.
  { destruct (size m) eqn:E; [|lia]. apply map_size_empty_iff in E. subst. by rewrite lookup_empty in Hn. }
  assert (u32 (count s - 1) = count s - 1) as -> by (unfold u32; rewrite Z.mod_small; lia).
  pose proof (bucket_lt hcode (hsize s) n Hpos) as Hb. unfold bucket in Hb.
  eapply is_hash_upd; [done|done|by rewrite length_insert|done| | |lia|].
  - eapply (rep_tab_upd hcode (hnodes s) _ _ (nodes_of m) _ _ _ l'); [|lia|..]; rewrite <- ?Hsz.
    + pose proof (ih_tab _ _ Hs) as Hrep. by rewrite Ht in Hrep.
    + split_and!; [done|done|]. intros a. rewrite Hl, Hno. unfold bucket. naive_solver.
    + intros a Ha. rewrite Hno. split; [by intros []|]. intros Hm. split; [done|]. by intros ->.
    + done.
  - rewrite map_size_delete_Some by eauto. lia.
  - intros k a [_ Ha]%lookup_delete_Some. by apply (ih_key _ _ Hs).
Qed.

Lemma wp_hash_unlink s m n c nx :
  is_hash s m -> 0 < hsize s -> hnodes s !! n = Some (mk_hnode c nx) ->
  wp (unlink n) s (fun _ s' => is_hash s' (removed m n) /\
    forall x, x ∉ nodes_of m -> hnodes s' !! x = hnodes s !! x).
Proof.
  intros Hs Hpos Hn. unfold unlink. wp_bind. eapply wp_hld; [done|]. simpl.
  wp_bind. apply wp_gets. wp_bind. apply wp_hmod; [lia|].
  destruct (table_row s m c Hs Hpos) as (t & p & l & Ht & Hlen & Hp & Hr & Hnd & Hl).
  wp_bind. eapply wp_tld; [done|done|]. unfold removed.
  assert (n ∈ l -> m !! key_of n = Some n /\ c = hcode n) as Hin.
  { intros Hnl. split; [by apply (nodes_key _ _ _ Hs), Hl|].
    destruct (rep_chain_dom _ _ _ _ _ Hr Hnl) as [? E]. congruence. }
  destruct (decide (p = Some n)) as [->|Hpn].
  - destruct l as [|a l]; simpl in Hr; [done|]. destruct Hr as ([= <-] & nx0 & Ha & Hr).
    destruct Hin as [Hm ->]; [by left|]. rewrite decide_True by done.
    rewrite Hn in Ha. injection Ha as <-. apply NoDup_cons in Hnd as [Hnl Hnd].
    wp_bind. eapply wp_tst; [done|done|]. apply wp_modify. split; [|done].
    apply (is_hash_cut s m n t nx l (hnodes s)); [done|done|done|done|done|done| |done].
    intros b. specialize (Hl b). rewrite elem_of_cons in Hl. unfold bucket.
    split; [|naive_solver]. intros Hb. split_and!; [apply Hl; auto|apply Hl; auto|by intros ->].
  - wp_bind. eapply wp_mono.
    { eapply (wp_find_prev s n p l); [done|done|]. destruct l as [|a l]; simpl in *; [done|].
      destruct Hr as [-> _]. congruence. }
    intros [q|] s' [-> Hq].
    + destruct Hq as (l1 & l2 & ->). destruct Hin as [Hm ->]; [set_solver|]. rewrite decide_True by done.
      destruct (rep_chain_dom _ _ _ _ q Hr) as [nq Hqq]; [set_solver|].
      wp_bind. eapply wp_hash_set_next; [done|]. apply wp_modify. simpl.
      assert (NoDup (l1 ++ q :: l2) /\ n ∉ l1 ++ q :: l2) as [Hnd' Hnl].
      { rewrite NoDup_app, !NoDup_cons in Hnd. rewrite NoDup_app, NoDup_cons. set_solver. }
      split.
      * replace (with_nodes (<[q:=mk_hnode (hcode q) nx]> (hnodes s)) s) with
          (with_table (<[Z.to_nat (hcode n mod hsize s):=p]> t) (with_nodes (<[q:=mk_hnode (hcode q) nx]> (hnodes s)) s))
          by (unfold with_table, with_nodes; simpl; by rewrite list_insert_id, <- Ht).
        apply (is_hash_cut s m n t p (l1 ++ q :: l2)); [done|done|done|done|by eapply rep_chain_unlink|done|..].
        -- intros b. specialize (Hl b). rewrite elem_of_app, !elem_of_cons in Hl, Hnl |- *.
           assert (b = n -> ~ (b ∈ l1 \/ b = q \/ b ∈ l2)) by by intros ->.
           unfold bucket in *. cbn beta in *.  rewrite elem_of_cons in Hl. tauto.
        -- intros a Ha Hb. rewrite lookup_insert_ne; [done|]. intros <-. apply Hb.
           destruct (proj1 (Hl q)) as [_ E]; [set_solver|]. exact E.
      * intros x Hx. rewrite lookup_insert_ne; [done|]. intros <-. apply Hx, Hl. set_solver.
    + apply wp_ret. split; [|done]. destruct (decide _) as [Hm|]; [|done].
      assert (n ∈ nodes_of m) as Hnm by by apply (nodes_key _ _ _ Hs).
      destruct (table_row s m (hcode n) Hs Hpos) as (t2 & p2 & k & _ & _ & _ & Hr2 & _ & Hk).
      destruct (rep_chain_dom _ _ _ _ n Hr2) as [? E]; [by apply Hk|].
      rewrite Hn in E. injection E as -> ->. destruct Hq. by apply Hl.
Qed.

Lemma wp_remove s m n c nx :
  is_hash s m -> 0 < hsize s -> hnodes s !! n = Some (mk_hnode c nx) ->
  wp (hash_remove malloc_ok n) s (fun _ s' => is_hash s' (removed m n) /\
    forall x, x ∉ nodes_of m -> hnodes s' !! x = hnodes s !! x).
Proof.
  intros Hs Hpos Hn. unfold hash_remove. wp_bind. eapply wp_mono; [by eapply wp_hash_unlink|].
  intros _ s1 [Hs1 Hf]. wp_bind. apply wp_get. pose proof (ih_count _ _ Hs1). pose proof (ih_max _ _ Hs1).
  pose proof (ih_bound _ _ Hs1). unfold u32. rewrite Z.mod_small by lia.
  destruct (Z.ltb_spec (count s1 * 4) (hsize s1)); [|by apply wp_ret].
  wp_bind. eapply wp_mono; [apply (wp_hash_hint s1 (removed m n)); [done|lia]|].
  intros rc s2 (Hs2 & Hf2 & _). apply wp_ret. split; [done|]. intros x Hx. rewrite Hf2; [by apply Hf|].
  intros Hx2. apply Hx. rewrite (nodes_key s m) by done. rewrite (nodes_key s2 (removed m n)) in Hx2 by done.
  unfold removed in Hx2. destruct (decide _); [|done]. by apply lookup_delete_Some in Hx2 as [].
Qed.
End main.

(** * The table as a map *)
Section properties.
Context {K : Type} `{HashKey K} (malloc_ok : nat -> bool).

(** C21. The table refines a finite map from keys to nodes.  On a table that stands
    for [m] (every node in the chain of its hash code, no node twice, the count
    right), with fewer than 2^29 nodes when one is inserted, and without a bad access: [hash_find] changes nothing and returns the
    node the map holds for the key, or NULL.  [hash_insert] of a node outside the
    table either succeeds, reports the node that had the key (unless the caller
    declared the key unique, in which case it must be), and leaves a table for
    [<[key := ins]> m], whatever resizing that took; or, only when the table is full
    and [malloc] fails, it returns -1 and changes nothing.  [hash_remove] deletes the
    node it is given if the table holds it and otherwise leaves the map alone (it
    never fails, even when the shrinking of the table runs out of memory).  Nodes
    outside the table are not written. *)
Theorem hash_map_refines s m key :
  is_hash s m ->
  wp (hash_find func compare key) s (fun r s' => s' = s /\ r = m !! key) /\
  (forall ins flags c nx, ins ∉ nodes_of m -> key_of ins = key -> Z.of_nat (size m) < 2 ^ 29 ->
   hnodes s !! ins = Some (mk_hnode c nx) ->
   (truth (Z.land flags HASH_INSERT_PREHASHED) = true -> c = func key) ->
   (truth (Z.land flags HASH_INSERT_UNIQUE) = true -> m !! key = None) ->
   wp (hash_insert func compare malloc_ok key ins flags) s (fun '(rc, old) s' =>
     rc = 0 /\ old = (if truth (Z.land flags HASH_INSERT_UNIQUE) then None else Some (m !! key)) /\
       is_hash s' (<[key := ins]> m) /\
       (forall x, x ∉ nodes_of m -> x <> ins -> hnodes s' !! x = hnodes s !! x) \/
     rc = -1 /\ old = None /\ is_hash s' m /\ hsize s <= count s /\ malloc_ok (mallocs s) = false /\
       hnodes s' = hnodes s)) /\
  (forall n c nx, 0 < hsize s -> hnodes s !! n = Some (mk_hnode c nx) ->
   wp (hash_remove malloc_ok n) s (fun _ s' =>
     is_hash s' (if decide (m !! key_of n = Some n) then delete (key_of n) m else m) /\
     forall x, x ∉ nodes_of m -> hnodes s' !! x = hnodes s !! x)).
Proof.
  intros Hs. split; [by apply wp_find|]. split.
  - intros ins flags c nx Hni Hk Hc Hins Hp Hu. pose proof (ih_count _ _ Hs).
    eapply wp_mono; [eapply wp_insert; try done; lia|].
    intros [rc old] s' [(E & Hs' & Hf)|(E & ?)]; simplify_eq; [left|right]; naive_solver.
  - intros. by eapply (wp_remove malloc_ok s m n).
Qed.

(** C23. [hash_capacity_hint] terminates and keeps the map.  It succeeds with a
    table whose size is a prime that is at least the hint and less than twice
    it plus 64 (so that insertions up to the hint allocate nothing), unless the
    table already holds more nodes than the hint, when it does nothing; or it
    returns -1 because [malloc] failed, with the table as it was.  This is for
    hints of at most 2^30 and, as [is_hash] has it, a table of at most 2^29
    nodes; with a hint above 2^31 the doubling need not end
    ([double_to_diverges]). *)
Theorem hash_capacity_hint_reserves s m hint :
  is_hash s m -> 0 <= hint <= 2 ^ 30 ->
  wp (hash_capacity_hint malloc_ok hint) s (fun rc s' =>
    is_hash s' m /\ (forall x, x ∉ nodes_of m -> hnodes s' !! x = hnodes s !! x) /\
    (rc = 0 /\ (hint < count s /\ s' = s \/ table_size hint (hsize s')) \/
     rc = -1 /\ malloc_ok (mallocs s) = false /\ hnodes s' = hnodes s /\ table s' = table s)).
Proof.
  intros Hs Hh. eapply wp_mono; [by apply wp_hash_hint|]. naive_solver.
Qed.
End properties.

(** ** Examples: nodes [2k] and [2k + 1] have key [k] *)
Definition ex_compare (k : Z) (n : positive) : Z := if Z.pos n / 2 =? k then 0 else 1.
Lemma ex_compare_spec k n : ex_compare k n = 0 <-> Z.pos n / 2 = k.
Proof. unfold ex_compare. by destruct (Z.eqb_spec (Z.pos n / 2) k). Qed.
Lemma ex_func_range k : 0 <= k mod 2 ^ 32 < 2 ^ 32.
Proof. apply Z.mod_pos_bound. lia. Qed.

#[local] Instance ex_key : HashKey Z := {
  key_of n := Z.pos n / 2;
  func k := k mod 2 ^ 32;
  compare := ex_compare;
  func_range := ex_func_range;
  compare_spec := ex_compare_spec;
}.

Definition ex_mem (n : nat) : bool := true.
Definition ex_nodes : gmap positive hash_node :=
  list_to_map ((fun n => (n, mk_hnode 0 None)) <$> [10; 11; 84; 12]%positive).

(** The table after inserting node 10. *)
Definition ex_h1 : hash :=
  match hash_insert func compare ex_mem 5 10 0 (hash_init ex_nodes) with
  | Ok (s, _) => s
  | _ => hash_init ex_nodes
  end.

Lemma ex_h1_ok : is_hash ex_h1 {[5 := 10%positive]}.
Proof.
  pose proof (wp_insert ex_mem (hash_init ex_nodes) ∅ 5 10 0 0 None) as Hw. unfold wp in Hw.
  unfold ex_h1. destruct (hash_insert _ _ _ _ _ _ _) as [[s r]| |].
  - destruct Hw as [(_ & Hs & _)|(_ & _ & E & _)]; [apply is_hash_init|set_solver|reflexivity| | | | |exact Hs|done].
    all: vm_compute; done.
  - exfalso. apply Hw; [apply is_hash_init|set_solver|reflexivity|vm_compute; done..].
  - exfalso. apply Hw; [apply is_hash_init|set_solver|reflexivity|vm_compute; done..].
Qed.

Lemma hash_map_refines_witness :
  is_hash ex_h1 {[5 := 10%positive]} /\
  wp (hash_find func compare 5) ex_h1 (fun r s' => s' = ex_h1 /\ r = Some 10%positive) /\
  wp (hash_insert func compare ex_mem 5 11 0) ex_h1 (fun '(rc, old) s' =>
    rc = 0 /\ old = Some (Some 10%positive) /\ is_hash s' {[5 := 11%positive]}) /\
  wp (hash_remove ex_mem 10) ex_h1 (fun _ s' => is_hash s' ∅).
Proof.
  destruct (hash_map_refines ex_mem ex_h1 {[5 := 10%positive]} 5 ex_h1_ok) as (H1 & H2 & H3).
  split; [apply ex_h1_ok|]. split_and!.
  - eapply wp_mono; [exact H1|]. intros r s' [-> ->]. by rewrite lookup_singleton_eq.
  - eapply wp_mono; [apply (H2 11%positive 0 0 None)|].
    + rewrite (nodes_key _ _ _ ex_h1_ok). vm_compute. discriminate.
    + reflexivity.
    + rewrite map_size_singleton. reflexivity.
    + vm_compute. reflexivity.
    + discriminate.
    + discriminate.
    + intros [rc old] s' [(-> & -> & Hs & _)|(_ & _ & _ & _ & E & _)]; [|discriminate].
      split_and!; [reflexivity|vm_compute; reflexivity|].
      rewrite insert_singleton_eq in Hs. exact Hs.
  - eapply wp_mono; [eapply (H3 10%positive); vm_compute; reflexivity|]. intros _ s' [Hs _].
    rewrite decide_True in Hs by (vm_compute; reflexivity).
    replace (delete _ _) with (∅ : gmap Z positive) in Hs by (vm_compute; reflexivity). exact Hs.
Defined.

Lemma hash_capacity_hint_reserves_witness :
  is_hash ex_h1 {[5 := 10%positive]} /\
  wp (hash_capacity_hint ex_mem 100) ex_h1 (fun rc s' =>
    rc = 0 /\ is_hash s' {[5 := 10%positive]} /\ 100 <= hsize s').
Proof.
  split; [apply ex_h1_ok|].
  eapply wp_mono; [apply (hash_capacity_hint_reserves ex_mem ex_h1 {[5 := 10%positive]} 100 ex_h1_ok); lia|].
  intros rc s' (Hs & _ & [[-> [[E _]|[_ _ E _]]]|(_ & E & _)]).
  - exfalso. revert E. vm_compute. discriminate.
  - by split_and!.
  - discriminate.
Defined.
