(* ===== verification/Lists.v ===== *)
(** Model of src/list.h, src/list.c (circular doubly-linked lists) and of
    src/slist.h, src/slist.c (singly-linked lists with an end pointer), with
    their correctness.  Nodes live in a store indexed by address. *)
From S2P Require Import Prelude.

(** * Doubly-linked lists *)
Module DList.

Record list_node := mk_lnode {
  next : option positive;
  prev : option positive;
}.

Abbreviation store := (gmap positive list_node).

Definition ld (p : option positive) : M store list_node :=
  a ← need p; h ← get; need (h !! a).
Definition upd (f : list_node -> list_node) (p : option positive) : M store unit :=
  a ← need p; h ← get; n ← need (h !! a); put (<[a := f n]> h).
Definition set_next (p v : option positive) := upd (fun n => mk_lnode v (prev n)) p.
Definition set_prev (p v : option positive) := upd (fun n => mk_lnode (next n) v) p.

Definition list_init (head : option positive) : M store unit :=
  set_next head head;; set_prev head head.

Definition list_is_empty (lst : option positive) : M store bool :=
  n ← ld lst; ret (bool_decide (next n = lst)).

Definition list_insert (item after : option positive) : M store unit :=
  set_next item after;;
  a ← ld after;
  set_prev item (prev a);;
  a ← ld after;
  set_next (prev a) item;;
  set_prev after item.

Definition list_remove (item : option positive) : M store unit :=
  i ← ld item;
  set_prev (next i) (prev i);;
  i ← ld item;
  set_next (prev i) (next i);;
  set_prev item None;;
  set_next item None.

Definition list_move (dst src : option positive) : M store unit :=
  e ← list_is_empty src;
  if (e : bool)
  then set_prev dst dst;; d ← ld dst; set_next dst (prev d)
  else
    s ← ld src;
    set_next dst (next s);;
    s ← ld src;
    set_prev dst (prev s);;
    d ← ld dst;
    set_prev (next d) dst;;
    d ← ld dst;
    set_next (prev d) dst;;
    set_prev src src;;
    s ← ld src;
    set_next src (prev s).

(** ** Representation *)
Definition nx (h : store) (a : positive) : option positive := h !! a ≫= next.
Definition pv (h : store) (a : positive) : option positive := h !! a ≫= prev.

(** Consecutive nodes of [l] point at each other. *)
Fixpoint linked (h : store) (l : list positive) : Prop :=
  match l with
  | [] => True
  | a :: l' =>
      match l' with
      | [] => True
      | b :: _ => nx h a = Some b /\ pv h b = Some a /\ linked h l'
      end
  end.

(** [hd] is the head of a circular list of the nodes [xs]. *)
Definition is_list (h : store) (hd : positive) (xs : list positive) : Prop :=
  NoDup (hd :: xs) /\ linked h (hd :: xs ++ [hd]).

Lemma linked_cons h a b l : linked h (a :: b :: l) <-> nx h a = Some b /\ pv h b = Some a /\ linked h (b :: l).
Proof. done. Qed.

Lemma linked_app h l1 a l2 : linked h (l1 ++ a :: l2) <-> linked h (l1 ++ [a]) /\ linked h (a :: l2).
Proof.
  induction l1 as [|b l1 IH]; simpl; [naive_solver|].
  destruct l1 as [|c l1]; simpl in *; [naive_solver|]. rewrite IH. naive_solver.
Qed.

(** A list is not affected by changes to other nodes, to the [next] of its last
    node or to the [prev] of its first. *)
Lemma linked_ext h h' l :
  (forall l1 a b l2, l = l1 ++ a :: b :: l2 -> nx h' a = nx h a /\ pv h' b = pv h b) ->
  linked h l -> linked h' l.
Proof.
  induction l as [|a l IH]; [done|]. destruct l as [|b l]; [done|]. intros He (Hn & Hp & Hl).
  destruct (He [] a b l eq_refl) as [En Ep]. apply linked_cons. rewrite En, Ep. split_and!; [done|done|].
  apply IH; [|done]. intros l1 c d l2 E. apply (He (a :: l1) c d l2). by rewrite E.
Qed.

Lemma nx_next h a v n : h !! a = Some n -> forall b,
  nx (<[a := mk_lnode v (prev n)]> h) b = (if decide (b = a) then v else nx h b) /\
  pv (<[a := mk_lnode v (prev n)]> h) b = pv h b.
Proof.
  intros Ha b. unfold nx, pv. destruct (decide (b = a)) as [->|].
  - by rewrite !lookup_insert_eq, Ha.
  - by rewrite !lookup_insert_ne.
Qed.

Lemma nx_prev h a v n : h !! a = Some n -> forall b,
  nx (<[a := mk_lnode (next n) v]> h) b = nx h b /\
  pv (<[a := mk_lnode (next n) v]> h) b = (if decide (b = a) then v else pv h b).
Proof.
  intros Ha b. unfold nx, pv. destruct (decide (b = a)) as [->|].
  - by rewrite !lookup_insert_eq, Ha.
  - by rewrite !lookup_insert_ne.
Qed.

Lemma wp_dl_ld a (h : store) Q : is_Some (h !! a) ->
  (forall n, h !! a = Some n -> next n = nx h a -> prev n = pv h a -> Q n h) -> wp (ld (Some a)) h Q.
Proof.
  intros [n Hn] HQ. unfold ld. wp_bind. apply (wp_need _ a); [done|]. wp_bind. apply wp_get.
  apply (wp_need _ n); [done|]. apply HQ; [done|..]; unfold nx, pv; by rewrite Hn.
Qed.

(** After a store access the heap is known through [nx] and [pv] only. *)
Lemma wp_dl_set_next a v (h : store) Q : is_Some (h !! a) ->
  (forall h', (forall b, is_Some (h' !! b) <-> is_Some (h !! b)) ->
     (forall b, nx h' b = if decide (b = a) then v else nx h b) -> (forall b, pv h' b = pv h b) ->
     (forall b, b <> a -> h' !! b = h !! b) -> Q tt h') ->
  wp (set_next (Some a) v) h Q.
Proof.
  intros [n Hn] HQ. unfold set_next, upd. wp_bind. apply (wp_need _ a); [done|]. wp_bind. apply wp_get.
  wp_bind. apply (wp_need _ n); [done|]. apply wp_put. apply HQ.
  - intros b. destruct (decide (b = a)) as [->|]; [rewrite lookup_insert_eq, Hn; naive_solver|].
    by rewrite lookup_insert_ne.
  - intros b. apply nx_next; done.
  - intros b. apply nx_next; done.
  - intros b Hb. by rewrite lookup_insert_ne.
Qed.

Lemma wp_set_prev a v (h : store) Q : is_Some (h !! a) ->
  (forall h', (forall b, is_Some (h' !! b) <-> is_Some (h !! b)) ->
     (forall b, nx h' b = nx h b) -> (forall b, pv h' b = if decide (b = a) then v else pv h b) ->
     (forall b, b <> a -> h' !! b = h !! b) -> Q tt h') ->
  wp (set_prev (Some a) v) h Q.
Proof.
  intros [n Hn] HQ. unfold set_prev, upd. wp_bind. apply (wp_need _ a); [done|]. wp_bind. apply wp_get.
  wp_bind. apply (wp_need _ n); [done|]. apply wp_put. apply HQ.
  - intros b. destruct (decide (b = a)) as [->|]; [rewrite lookup_insert_eq, Hn; naive_solver|].
    by rewrite lookup_insert_ne.
  - intros b. apply nx_prev; done.
  - intros b. apply nx_prev; done.
  - intros b Hb. by rewrite lookup_insert_ne.
Qed.

Lemma linked_dom h l a : linked h l -> a ∈ l -> (2 <= length l)%nat -> is_Some (h !! a).
Proof.
  revert a. induction l as [|x l IH]; intros a; [set_solver|]. destruct l as [|b l]; [simpl; lia|].
  intros (Hn & Hp & Hl) Ha _. assert (forall y z, nx h y = Some z \/ pv h y = Some z -> is_Some (h !! y)) as Hy.
  { intros y z. unfold nx, pv. destruct (h !! y); naive_solver. }
  apply elem_of_cons in Ha as [->|Ha]; [eauto|]. destruct l as [|c l].
  - apply list_elem_of_singleton in Ha as ->. eauto.
  - apply IH; [done|done|simpl; lia].
Qed.

Lemma is_list_dom h hd xs a : is_list h hd xs -> a ∈ hd :: xs -> is_Some (h !! a).
Proof.
  intros [_ Hl] Ha. eapply linked_dom; [done| |simpl; rewrite length_app; simpl; lia]. set_solver.
Qed.

(** [x] just before [after], at the end if [after] is not there. *)
Fixpoint ins_before (x after : positive) (xs : list positive) : list positive :=
  match xs with
  | [] => [x]
  | y :: ys => if decide (y = after) then x :: y :: ys else y :: ins_before x after ys
  end.

Lemma ins_before_app x a l1 l2 : a ∉ l1 -> ins_before x a (l1 ++ l2) = l1 ++ ins_before x a l2.
Proof.
  induction l1 as [|b l1 IH]; simpl; [done|]. intros [Hb Hl]%not_elem_of_cons.
  rewrite decide_False by done. by rewrite IH.
Qed.

(** Insertion before the head is insertion at the end. *)
Lemma ins_before_end x a l : a ∉ l -> ins_before x a l = l ++ [x].
Proof. intros Ha. by rewrite <- (app_nil_r l) at 1; rewrite ins_before_app. Qed.

Lemma elem_of_ins_before x a xs y : y ∈ ins_before x a xs <-> y = x \/ y ∈ xs.
Proof. induction xs as [|z xs IH]; simpl; [set_solver|]. destruct (decide _); set_solver. Qed.

Lemma NoDup_ins_before x a xs : NoDup (x :: xs) -> NoDup (ins_before x a xs).
Proof.
  induction xs as [|z xs IH]; simpl; [done|]. intros [Hx [Hz Hn]%NoDup_cons]%NoDup_cons.
  destruct (decide (z = a)).
  - constructor; [done|by constructor].
  - constructor; [rewrite elem_of_ins_before; set_solver|]. apply IH. constructor; [set_solver|done].
Qed.

(** [a] is directly before [b] in [l]. *)
Definition adjacent (l : list positive) (a b : positive) : Prop :=
  exists k1 k2, l = k1 ++ a :: b :: k2.

Lemma adjacent_in l a b : adjacent l a b -> a ∈ l /\ b ∈ l.
Proof. intros (k1 & k2 & ->). set_solver. Qed.

Lemma adjacent_tail x l a b : adjacent (x :: l) a b -> b ∈ l.
Proof. intros ([|y k1] & k2 & E); simpl in E; simplify_eq; set_solver. Qed.

Lemma adjacent_snoc x l a b : adjacent (l ++ [x]) a b -> a ∈ l.
Proof.
  intros (k1 & k2 & E). destruct (exists_last (l := b :: k2)) as (k & y & Ek); [done|].
  rewrite Ek in E. replace (k1 ++ a :: k ++ [y]) with ((k1 ++ a :: k) ++ [y]) in E by by rewrite <- (assoc_L (++)).
  apply app_inj_tail in E as [-> _]. set_solver.
Qed.

Lemma linked_adj h h' l :
  (forall a b, adjacent l a b -> nx h' a = nx h a /\ pv h' b = pv h b) -> linked h l -> linked h' l.
Proof. intros He. apply linked_ext. intros l1 a b l2 ->. apply He. by exists l1, l2. Qed.

(** A node [b] of the circle, its predecessor [p], and the circle with [x]
    between them. *)
Lemma pred_split hd xs b x : b ∈ hd :: xs -> NoDup (hd :: xs) ->
  exists l0 p l2, hd :: xs ++ [hd] = l0 ++ p :: b :: l2 /\
    hd :: ins_before x b xs ++ [hd] = l0 ++ p :: x :: b :: l2 /\ p ∉ l0 /\
    (forall a c, adjacent (l0 ++ [p]) a c -> c <> b) /\
    (forall a c, adjacent (b :: l2) a c -> a <> p /\ c <> b).
Proof.
  intros Hb Hnd. pose proof Hnd as [Hh Hx]%NoDup_cons. destruct (decide (b = hd)) as [->|Hne].
  - destruct (exists_last (l := hd :: xs)) as (l0 & p & E); [done|]. exists l0, p, [].
    rewrite <- (app_nil_r xs) at 2. rewrite ins_before_app by done. simpl.
    rewrite <- (assoc_L (++)), !app_comm_cons, E, <- !(assoc_L (++)). split_and!; [done|done| | |].
    + rewrite E in Hnd. apply NoDup_app in Hnd as (_ & Hd & _). intros ?. by apply (Hd p); [|left].
    + intros a c Hac ->. rewrite <- E in Hac. by apply adjacent_tail in Hac.
    + intros a c Hac%adjacent_tail. set_solver.
  - apply elem_of_cons in Hb as [|Hb]; [done|]. apply list_elem_of_split in Hb as (l1 & l2 & ->).
    destruct (exists_last (l := hd :: l1)) as (l0 & p & E); [done|]. exists l0, p, (l2 ++ [hd]).
    rewrite app_comm_cons, E, NoDup_app, NoDup_cons in Hnd. destruct Hnd as (Hnp & Hd & Hb2 & Hn2).
    rewrite ins_before_app by (rewrite NoDup_app in Hx; set_solver). simpl.
    rewrite decide_True by done.
    assert (forall k, hd :: (l1 ++ k) ++ [hd] = l0 ++ p :: k ++ [hd]) as Ek.
    { intros k. by rewrite <- (assoc_L (++)), app_comm_cons, E, <- (assoc_L (++)). }
    rewrite !Ek. split_and!; [done|done| | |].
    + apply NoDup_app in Hnp as (_ & Hp & _). intros ?. by apply (Hp p); [|left].
    + intros a c Hac ->. apply adjacent_in in Hac as [_ Hac]. by apply (Hd b Hac); left.
    + intros a c Hac. split.
      * rewrite app_comm_cons in Hac. apply adjacent_snoc in Hac. intros ->. apply (Hd p); set_solver.
      * intros ->. apply adjacent_tail in Hac. set_solver.
Qed.

Lemma wp_list_insert h hd xs item after :
  is_list h hd xs -> after ∈ hd :: xs -> item ∉ hd :: xs -> is_Some (h !! item) ->
  wp (list_insert (Some item) (Some after)) h (fun _ h' =>
    is_list h' hd (ins_before item after xs) /\
    forall x, x ∉ item :: hd :: xs -> h' !! x = h !! x).
Proof.
  intros Hl Ha Hi Hs. pose proof Hl as [Hnd Hlk].
  destruct (pred_split hd xs after item Ha Hnd) as (l0 & p & l2 & E & E' & Hnp & Hc1 & Hc2).
  rewrite E in Hlk. pose proof Hlk as Hlk'. apply linked_app in Hlk' as (Hl0 & Hnx & Hpv & Hl2).
  assert (forall y, y ∈ l0 ++ p :: after :: l2 -> y ∈ hd :: xs) as Hin by (rewrite <- E; set_solver).
  assert (p ∈ hd :: xs) as Hp by (apply Hin; set_solver).
  assert (item <> p /\ item <> after) as [Hip Hia] by (split; intros ->; done).
  unfold list_insert. wp_bind. apply wp_dl_set_next; [done|]. intros h1 D1 N1 P1 F1.
  wp_bind. apply wp_dl_ld; [apply D1; by eapply is_list_dom|]. intros n _ _ ->.
  wp_bind. apply wp_set_prev; [by apply D1|]. intros h2 D2 N2 P2 F2.
  wp_bind. apply wp_dl_ld; [apply D2, D1; by eapply is_list_dom|]. intros n2 _ _ ->.
  rewrite P2, P1, decide_False, Hpv by done.
  wp_bind. apply wp_dl_set_next; [apply D2, D1; by eapply is_list_dom|]. intros h3 D3 N3 P3 F3.
  apply wp_set_prev; [apply D3, D2, D1; by eapply is_list_dom|]. intros h4 D4 N4 P4 F4.
  assert (forall a, nx h4 a = if decide (a = p) then Some item else if decide (a = item) then Some after else nx h a) as N.
  { intros a. by rewrite N4, N3, N2, N1. }
  assert (forall a, pv h4 a = if decide (a = after) then Some item else if decide (a = item) then Some p else pv h a) as P.
  { intros a. by rewrite P4, P3, P2, P1, P1, Hpv. }
  assert (forall a c, adjacent (l0 ++ [p]) a c \/ adjacent (after :: l2) a c -> a <> item /\ c <> item) as Hni.
  { intros a c [Hac|Hac]; apply adjacent_in in Hac as [? ?]; (split; intros ->; apply Hi, Hin; set_solver). }
  split.
  - split.
    + apply NoDup_cons in Hnd as [? ?]. constructor; [rewrite elem_of_ins_before; set_solver|].
      apply NoDup_ins_before. by constructor; [set_solver|].
    + rewrite E', linked_app, !linked_cons. split_and!.
      * eapply linked_adj; [|exact Hl0]. intros a b Hab. destruct (Hni a b) as [? ?]; [auto|].
        pose proof (adjacent_snoc _ _ _ _ Hab). rewrite N, P.
        rewrite !decide_False by (congruence || by eapply Hc1). done.
      * by rewrite N, decide_True.
      * by rewrite P, decide_False, decide_True.
      * by rewrite N, decide_False, decide_True.
      * by rewrite P, decide_True.
      * eapply linked_adj; [|exact Hl2]. intros a b Hab. destruct (Hni a b) as [? ?]; [auto|].
        destruct (Hc2 a b Hab). rewrite N, P, !decide_False by done. done.
  - intros x Hx. rewrite F4, F3, F2, F1 by set_solver. done.
Qed.

Lemma filter_ne (x : positive) (l : list positive) : x ∉ l -> filter (fun y => y <> x) l = l.
Proof. intros Hx. apply filter_all, Forall_forall. by intros y Hy ->. Qed.

(** A node of the list, its neighbours, and the circle without it. *)
Lemma mid_split hd xs x : x ∈ xs -> NoDup (hd :: xs) ->
  exists l0 p n l3, hd :: xs ++ [hd] = l0 ++ p :: x :: n :: l3 /\
    hd :: filter (fun y => y <> x) xs ++ [hd] = l0 ++ p :: n :: l3 /\ p ∉ l0 /\
    (forall a c, adjacent (l0 ++ [p]) a c -> c <> n) /\
    (forall a c, adjacent (n :: l3) a c -> a <> p /\ c <> n) /\
    x ∉ l0 ++ p :: n :: l3.
Proof.
  intros Hx Hnd. apply list_elem_of_split in Hx as (l1 & l2 & ->).
  destruct (exists_last (l := hd :: l1)) as (l0 & p & E); [done|].
  assert (exists n l3, l2 ++ [hd] = n :: l3) as (n & l3 & E3) by (destruct l2; eauto).
  pose proof Hnd as [Hh Hnd']%NoDup_cons. apply NoDup_app in Hnd' as (H1 & H2 & [H3 H4]%NoDup_cons).
  assert (filter (fun y => y <> x) (l1 ++ x :: l2) = l1 ++ l2) as Ef.
  { rewrite filter_app, filter_cons_False, !filter_ne by (done || set_solver). done. }
  assert (forall k, hd :: (l1 ++ k) ++ [hd] = l0 ++ p :: k ++ [hd]) as Ek.
  { intros k. by rewrite <- (assoc_L (++)), app_comm_cons, E, <- (assoc_L (++)). }
  exists l0, p, n, l3. rewrite Ef, !Ek. simpl. rewrite E3.
  assert (NoDup (l0 ++ [p])) as Hnp.
  { rewrite <- E, NoDup_cons. split; [set_solver|done]. }
  assert (forall y, y ∈ hd :: l1 -> y ∉ l2) as Hd.
  { intros y [->|Hy]%elem_of_cons; [set_solver|]. intros Hy2. apply (H2 y Hy). by right. }
  assert (n ∉ l3 /\ n ∉ l1) as [Hn3 Hn1].
  { destruct l2 as [|m l2]; simpl in E3; simplify_eq; [set_solver|].
    split; [|intros ?; by eapply Hd; [right|left]]. apply NoDup_cons in H4 as [? ?]. set_solver. }
  split_and!; [done|done| | | |].
  - apply NoDup_app in Hnp as (_ & Hp & _). intros ?. by apply (Hp p); [|left].
  - intros a c Hac ->. rewrite <- E in Hac. by apply adjacent_tail in Hac.
  - intros a c Hac. split.
    + rewrite <- E3 in Hac. apply adjacent_snoc in Hac. intros ->. apply (Hd p); [|done]. rewrite E. set_solver.
    + intros ->. by apply adjacent_tail in Hac.
  - rewrite <- E3. change (x ∉ l0 ++ [p] ++ l2 ++ [hd]). rewrite (assoc_L (++)), <- E. set_solver.
Qed.

Lemma wp_list_remove h hd xs item :
  is_list h hd xs -> item ∈ xs ->
  wp (list_remove (Some item)) h (fun _ h' =>
    is_list h' hd (filter (fun y => y <> item) xs) /\ nx h' item = None /\ pv h' item = None /\
    forall x, x ∉ hd :: xs -> h' !! x = h !! x).
Proof.
  intros Hl Hi. pose proof Hl as [Hnd Hlk].
  destruct (mid_split hd xs item Hi Hnd) as (l0 & p & n & l3 & E & E' & Hnp & Hc1 & Hc2 & Hx).
  rewrite E in Hlk. apply linked_app in Hlk as (Hl0 & Hnx & Hpv & Hnx2 & Hpv2 & Hl3).
  assert (forall y, y ∈ l0 ++ p :: item :: n :: l3 -> y ∈ hd :: xs) as Hin by (rewrite <- E; set_solver).
  assert (item ∈ hd :: xs /\ p ∈ hd :: xs /\ n ∈ hd :: xs) as (Hii & Hp & Hn) by (split_and!; apply Hin; set_solver).
  assert (item <> p /\ item <> n) as [Hip Hia] by (split; intros ->; set_solver).
  unfold list_remove. wp_bind. apply wp_dl_ld; [by eapply is_list_dom|]. intros ? _ -> ->. rewrite Hnx2, Hpv.
  wp_bind. apply wp_set_prev; [by eapply is_list_dom|]. intros h1 D1 N1 P1 F1.
  wp_bind. apply wp_dl_ld; [apply D1; by eapply is_list_dom|]. intros ? _ -> ->.
  rewrite P1, N1, decide_False, Hpv, Hnx2 by done.
  wp_bind. apply wp_dl_set_next; [apply D1; by eapply is_list_dom|]. intros h2 D2 N2 P2 F2.
  wp_bind. apply wp_set_prev; [apply D2, D1; by eapply is_list_dom|]. intros h3 D3 N3 P3 F3.
  apply wp_dl_set_next; [apply D3, D2, D1; by eapply is_list_dom|]. intros h4 D4 N4 P4 F4.
  assert (forall a, nx h4 a = if decide (a = item) then None else if decide (a = p) then Some n else nx h a) as N.
  { intros a. by rewrite N4, N3, N2, N1. }
  assert (forall a, pv h4 a = if decide (a = item) then None else if decide (a = n) then Some p else pv h a) as P.
  { intros a. by rewrite P4, P3, P2, P1. }
  assert (forall a c, adjacent (l0 ++ [p]) a c \/ adjacent (n :: l3) a c -> a <> item /\ c <> item) as Hni.
  { intros a c [Hac|Hac]; apply adjacent_in in Hac as [? ?]; (split; intros ->; apply Hx; set_solver). }
  split_and!.
  - split.
    + apply NoDup_cons in Hnd as [? ?]. constructor; [|by apply NoDup_filter].
      rewrite list_elem_of_filter. naive_solver.
    + rewrite E', linked_app, !linked_cons. split_and!.
      * eapply linked_adj; [|exact Hl0]. intros a b Hab. destruct (Hni a b) as [? ?]; [auto|].
        pose proof (adjacent_snoc _ _ _ _ Hab). rewrite N, P.
        rewrite !decide_False by (congruence || by eapply Hc1). done.
      * by rewrite N, decide_False, decide_True.
      * by rewrite P, decide_False, decide_True.
      * eapply linked_adj; [|exact Hl3]. intros a b Hab. destruct (Hni a b) as [? ?]; [auto|].
        destruct (Hc2 a b Hab). rewrite N, P, !decide_False by done. done.
  - by rewrite N, decide_True.
  - by rewrite P, decide_True.
  - intros x Hxx. rewrite F4, F3, F2, F1 by (intros ->; done). done.
Qed.

Lemma wp_list_is_empty h hd xs : is_list h hd xs ->
  wp (list_is_empty (Some hd)) h (fun b h' => h' = h /\ (b = true <-> xs = [])).
Proof.
  intros Hl. unfold list_is_empty. wp_bind. apply wp_dl_ld; [by eapply is_list_dom; [|left]|].
  intros n _ -> _. apply wp_ret. split; [done|]. rewrite bool_decide_eq_true. destruct Hl as [Hnd Hl].
  destruct xs as [|x xs]; simpl in Hl; destruct Hl as [-> _]; [naive_solver|].
  apply NoDup_cons in Hnd as [Hnd _]. split; [|done]. intros [= ->]. set_solver.
Qed.

(** The circle under another head. *)
Lemma linked_rehead h h' hd hd' x y l :
  linked h (hd :: (x :: l) ++ [hd]) -> last (x :: l) = Some y ->
  NoDup (hd :: x :: l) -> hd' ∉ x :: l ->
  nx h' hd' = Some x -> pv h' hd' = Some y -> pv h' x = Some hd' -> nx h' y = Some hd' ->
  (forall a, a ∈ x :: l -> a <> y -> nx h' a = nx h a) ->
  (forall a, a ∈ x :: l -> a <> x -> pv h' a = pv h a) ->
  linked h' (hd' :: (x :: l) ++ [hd']).
Proof.
  intros Hl Hy Hnd Hd N1 P1 P2 N2 N P. apply last_Some in Hy as [k Ek]. rewrite Ek in *.
  apply NoDup_cons in Hnd as [_ Hnd]. simpl. destruct k as [|z k]; simpl in Ek; injection Ek as -> ->.
  { simpl. by split_and!. }
  simpl in Hl |- *. destruct Hl as (_ & _ & Hl). split_and!; [done|done|].
  rewrite <- (assoc_L (++)) in Hl |- *. change (linked h ((z :: k) ++ y :: [hd])) in Hl.
  change (linked h' ((z :: k) ++ y :: [hd'])). apply linked_app in Hl as [Hl _]. apply linked_app.
  split; [|by simpl; split_and!]. eapply linked_adj; [|exact Hl]. intros a b Hab.
  pose proof (adjacent_snoc _ _ _ _ Hab) as Ha. pose proof (adjacent_tail _ _ _ _ Hab) as Hb.
  change (NoDup ((z :: k) ++ [y])) in Hnd. apply NoDup_app in Hnd as (Hz & Hn2 & _).
  apply NoDup_cons in Hz as [Hz _].
  split.
  - apply N; [set_solver|]. intros ->. by apply (Hn2 y Ha); left.
  - apply P; [set_solver|]. intros ->. assert (z = y) as -> by set_solver.
    apply (Hn2 y); [by left|by left].
Qed.

Lemma wp_list_move h src dst xs :
  is_list h src xs -> dst ∉ src :: xs -> is_Some (h !! dst) ->
  wp (list_move (Some dst) (Some src)) h (fun _ h' =>
    is_list h' dst xs /\ is_list h' src [] /\
    forall x, x ∉ dst :: src :: xs -> h' !! x = h !! x).
Proof.
  intros Hl Hd Hs. pose proof Hl as [Hnd Hlk]. unfold list_move. wp_bind.
  eapply wp_mono; [by apply wp_list_is_empty|]. intros b h0 [-> Hb].
  assert (is_Some (h !! src)) as Hsrc by (eapply is_list_dom; [done|by left]).
  destruct b.
  - rewrite (proj1 Hb) in * by done. wp_bind. apply wp_set_prev; [done|]. intros h1 D1 N1 P1 F1.
    wp_bind. apply wp_dl_ld; [by apply D1|]. intros ? _ _ ->. rewrite P1, decide_True by done.
    apply wp_dl_set_next; [by apply D1|]. intros h2 D2 N2 P2 F2. assert (src <> dst) by set_solver.
    destruct Hlk as (Hn & Hp & _). split_and!.
    + split; [apply NoDup_singleton|]. simpl. rewrite N2, P2, P1, !decide_True by done. done.
    + split; [done|]. simpl. rewrite N2, P2, P1, N1, !decide_False by done. done.
    + intros x Hx. rewrite F2, F1 by set_solver. done.
  - destruct xs as [|x xs]; [by discriminate (proj2 Hb eq_refl)|]. clear Hb.
    assert (exists y, last (x :: xs) = Some y) as [y Hy] by (apply last_is_Some; done).
    assert (y ∈ x :: xs) as Hyin by (apply last_Some in Hy as [k ->]; set_solver).
    assert (nx h src = Some x /\ pv h src = Some y) as [Hnx Hpv].
    { destruct Hlk as (Hn & _ & Hlk). split; [done|]. apply last_Some in Hy as [k Ek].
      change (linked h ((x :: xs) ++ [src])) in Hlk. rewrite Ek, <- (assoc_L (++)) in Hlk.
      apply linked_app in Hlk as [_ (_ & Hp & _)]. done. }
    assert (is_Some (h !! x) /\ is_Some (h !! y)) as [Hsx Hsy] by (split; eapply is_list_dom; (done || set_solver)).
    assert (src <> dst /\ x <> dst /\ y <> dst /\ x <> src /\ y <> src) as (Hne & Hxd & Hyd & Hxs & Hys).
    { apply NoDup_cons in Hnd as [Hnd _]. set_solver. }
    wp_bind. apply wp_dl_ld; [done|]. intros ? _ -> _. rewrite Hnx.
    wp_bind. apply wp_dl_set_next; [done|]. intros h1 D1 N1 P1 F1.
    wp_bind. apply wp_dl_ld; [by apply D1|]. intros ? _ _ ->. rewrite P1, Hpv.
    wp_bind. apply wp_set_prev; [by apply D1|]. intros h2 D2 N2 P2 F2.
    wp_bind. apply wp_dl_ld; [by apply D2, D1|]. intros ? _ -> _. rewrite N2, N1, decide_True by done.
    wp_bind. apply wp_set_prev; [by apply D2, D1|]. intros h3 D3 N3 P3 F3.
    wp_bind. apply wp_dl_ld; [by apply D3, D2, D1|]. intros ? _ _ ->.
    rewrite P3, P2, decide_False, decide_True by done.
    wp_bind. apply wp_dl_set_next; [by apply D3, D2, D1|]. intros h4 D4 N4 P4 F4.
    wp_bind. apply wp_set_prev; [by apply D4, D3, D2, D1|]. intros h5 D5 N5 P5 F5.
    wp_bind. apply wp_dl_ld; [by apply D5, D4, D3, D2, D1|]. intros ? _ _ ->. rewrite P5, decide_True by done.
    apply wp_dl_set_next; [by apply D5, D4, D3, D2, D1|]. intros h6 D6 N6 P6 F6.
    assert (forall a, nx h6 a = if decide (a = src) then Some src else if decide (a = y) then Some dst
      else if decide (a = dst) then Some x else nx h a) as N.
    { intros a. by rewrite N6, N5, N4, N3, N2, N1. }
    assert (forall a, pv h6 a = if decide (a = src) then Some src else if decide (a = x) then Some dst
      else if decide (a = dst) then Some y else pv h a) as P.
    { intros a. by rewrite P6, P5, P4, P3, P2, P1. }
    split_and!.
    + split; [by apply NoDup_cons; split; [set_solver|apply NoDup_cons in Hnd as []]|].
      eapply (linked_rehead h); [exact Hlk|exact Hy|done|set_solver|..].
      * by rewrite N, decide_False, decide_False, decide_True.
      * by rewrite P, decide_False, decide_False, decide_True.
      * by rewrite P, decide_False, decide_True.
      * by rewrite N, decide_False, decide_True.
      * intros a Ha Hay. rewrite N, !decide_False; [done|..]; try done; intros ->; [set_solver|].
        apply NoDup_cons in Hnd as [? _]. done.
      * intros a Ha Hay. rewrite P, !decide_False; [done|..]; try done; intros ->; [set_solver|].
        apply NoDup_cons in Hnd as [? _]. done.
    + split; [apply NoDup_singleton|]. simpl. rewrite N, P, !decide_True by done. done.
    + intros z Hz. rewrite F6, F5, F4, F3, F2, F1 by set_solver. done.
Qed.

Lemma wp_list_init h hd : is_Some (h !! hd) ->
  wp (list_init (Some hd)) h (fun _ h' => is_list h' hd [] /\ forall x, x <> hd -> h' !! x = h !! x).
Proof.
  intros Hs. unfold list_init. wp_bind. apply wp_dl_set_next; [done|]. intros h1 D1 N1 P1 F1.
  apply wp_set_prev; [by apply D1|]. intros h2 D2 N2 P2 F2. split.
  - split; [apply NoDup_singleton|]. simpl. rewrite N2, N1, P2, !decide_True by done. done.
  - intros x Hx. by rewrite F2, F1.
Qed.

(** The operations of list.h make and destroy no nodes. *)
Definition same_dom {A} (m : M store A) : Prop :=
  forall h h' r, m h = Ok (h', r) -> forall a, is_Some (h' !! a) <-> is_Some (h !! a).

Lemma same_dom_bind {A B} (m : M store A) (f : A -> M store B) :
  same_dom m -> (forall r, same_dom (f r)) -> same_dom (bind m f).
Proof.
  intros Hm Hf h h' r E a. unfold bind in E. destruct (m h) as [[h1 r1]| |] eqn:E1; [|done|done].
  rewrite (Hf r1 _ _ _ E a). by apply (Hm _ _ _ E1).
Qed.

Lemma same_dom_upd f p : same_dom (upd f p).
Proof.
  intros h h' r E a. unfold upd, bind, need, get, put, ret, crash in E.
  destruct p as [p|]; [|done]. destruct (h !! p) as [n|] eqn:Ep; [|done]. simplify_eq.
  destruct (decide (a = p)) as [->|]; [rewrite lookup_insert_eq, Ep|rewrite lookup_insert_ne by done]; naive_solver.
Qed.

Lemma same_dom_ld p : same_dom (ld p).
Proof.
  intros h h' r E a. unfold ld, bind, need, get, ret, crash in E.
  destruct p as [p|]; [|done]. destruct (h !! p) as [n|] eqn:Ep; [|done]. by simplify_eq.
Qed.

Ltac same_dom := unfold set_prev, set_next; repeat first [apply same_dom_ld|apply same_dom_upd|apply same_dom_bind; [|intros ?]].
Lemma same_dom_remove x : same_dom (list_remove x).
Proof. unfold list_remove. same_dom. Qed.
Lemma same_dom_insert x y : same_dom (list_insert x y).
Proof. unfold list_insert. same_dom. Qed.

Lemma wp_same_dom {A} (m : M store A) h (Q : A -> store -> Prop) : same_dom m -> wp m h Q ->
  wp m h (fun r h' => Q r h' /\ forall a, is_Some (h' !! a) <-> is_Some (h !! a)).
Proof.
  intros Hm. unfold wp. destruct (m h) as [[h' r]| |] eqn:E; [|done|done]. intros HQ. split; [done|].
  by apply (Hm _ _ _ E).
Qed.
End DList.

(** * Singly-linked lists *)
Module SList.

(** [struct slist] and the store of [struct slist_node]s ([next] alone). *)
Record slist := mk_slist {
  start : option positive;
  end_ : option positive;
  snodes : gmap positive (option positive);
}.

Definition set_start v : M slist unit := modify (fun s => mk_slist v (end_ s) (snodes s)).
Definition set_end v : M slist unit := modify (fun s => mk_slist (start s) v (snodes s)).
Definition ld_next (p : option positive) : M slist (option positive) :=
  a ← need p; s ← get; need (snodes s !! a).
Definition set_next (p v : option positive) : M slist unit :=
  a ← need p; s ← get; _ ← need (snodes s !! a);
  put (mk_slist (start s) (end_ s) (<[a := v]> (snodes s))).

Definition slist_is_empty : M slist bool := gets (fun s => bool_decide (start s = None)).

Definition slist_init : M slist unit := set_start None;; set_end None.

Definition slist_push (n : option positive) : M slist unit :=
  s ← gets start;
  set_next n s;;
  set_start n;;
  e ← gets end_;
  match e with None => set_end n | Some _ => ret tt end.

Definition slist_pop : M slist (option positive) :=
  r ← gets start;
  match r with
  | None => ret None
  | Some _ =>
      nx ← ld_next r;
      set_start nx;;
      (match nx with None => set_end None | Some _ => ret tt end);;
      ret r
  end.

Definition slist_append (n : option positive) : M slist unit :=
  set_next n None;;
  e ← gets end_;
  (match e with Some _ => set_next e n | None => set_start n end);;
  set_end n.

(** ** Representation *)
Fixpoint chain (h : gmap positive (option positive)) (p : option positive) (l : list positive) : Prop :=
  match l with
  | [] => p = None
  | a :: l => p = Some a /\ exists q, h !! a = Some q /\ chain h q l
  end.

Definition is_slist (s : slist) (xs : list positive) : Prop :=
  NoDup xs /\ chain (snodes s) (start s) xs /\ end_ s = last xs.

Lemma chain_ext h h' p l : (forall a, a ∈ l -> h' !! a = h !! a) -> chain h p l -> chain h' p l.
Proof.
  revert p. induction l as [|a l IH]; intros p Hx; simpl; [done|].
  intros (-> & q & Ha & Hl). split; [done|]. exists q. rewrite Hx by set_solver. split; [done|].
  apply IH; [set_solver|done].
Qed.

Lemma chain_dom h p l a : chain h p l -> a ∈ l -> is_Some (h !! a).
Proof.
  revert p. induction l as [|b l IH]; intros p; simpl; [set_solver|].
  intros (_ & q & Hb & Hl) [->|Ha]%elem_of_cons; eauto.
Qed.

Lemma chain_det h p l l' : chain h p l -> chain h p l' -> l = l'.
Proof.
  revert p l'. induction l as [|b l IH]; intros p [|c l']; simpl; [done|naive_solver..|].
  intros (-> & q & Hb & Hl) ([= <-] & q' & Hb' & Hl'). f_equal. apply (IH q); [done|]. congruence.
Qed.

Lemma slist_det s xs ys : is_slist s xs -> is_slist s ys -> xs = ys.
Proof. intros (_ & H & _) (_ & H' & _). by eapply chain_det. Qed.

(** Changing the last pointer of a chain. *)
Lemma chain_snoc h p l e n : chain h p (l ++ [e]) -> NoDup (l ++ [e]) -> n ∉ l ++ [e] ->
  chain (<[e := Some n]> (<[n := None]> h)) p (l ++ [e; n]).
Proof.
  revert p. induction l as [|a l IH]; simpl; intros p.
  - intros (-> & q & He & ->) _ Hn. split; [done|]. exists (Some n). rewrite lookup_insert_eq.
    split; [done|]. split; [done|]. exists None.
    rewrite lookup_insert_ne, lookup_insert_eq by set_solver. done.
  - intros (-> & q & Ha & Hl) [Hnd1 Hnd2]%NoDup_cons Hn. split; [done|]. exists q.
    rewrite !lookup_insert_ne by set_solver. split; [done|]. apply IH; [done|done|set_solver].
Qed.

Lemma wp_ld_next a q s Q : snodes s !! a = Some q -> Q q s -> wp (ld_next (Some a)) s Q.
Proof.
  intros Ha HQ. unfold ld_next. wp_bind. apply (wp_need _ a); [done|]. wp_bind. apply wp_get.
  by apply (wp_need _ q).
Qed.

Lemma wp_sl_set_next a v s Q : is_Some (snodes s !! a) ->
  Q tt (mk_slist (start s) (end_ s) (<[a := v]> (snodes s))) -> wp (set_next (Some a) v) s Q.
Proof.
  intros [q Hq] HQ. unfold set_next. wp_bind. apply (wp_need _ a); [done|]. wp_bind. apply wp_get.
  wp_bind. by apply (wp_need _ q).
Qed.

Lemma wp_slist_push s xs n : is_slist s xs -> n ∉ xs -> is_Some (snodes s !! n) ->
  wp (slist_push (Some n)) s (fun _ s' => is_slist s' (n :: xs) /\
    forall x, x <> n -> snodes s' !! x = snodes s !! x).
Proof.
  intros (Hnd & Hc & He) Hn Hs. unfold slist_push, is_slist. wp_bind. apply wp_gets. wp_bind.
  apply wp_sl_set_next; [done|]. wp_bind. apply wp_modify. wp_bind. apply wp_gets. simpl.
  assert (chain (<[n:=start s]> (snodes s)) (Some n) (n :: xs)) as Hc'.
  { split; [done|]. exists (start s). rewrite lookup_insert_eq. split; [done|].
    eapply chain_ext; [|done]. intros a Ha. rewrite lookup_insert_ne; [done|]. by intros <-. }
  assert (forall x, x <> n -> <[n:=start s]> (snodes s) !! x = snodes s !! x) as Hf.
  { intros x Hx. by rewrite lookup_insert_ne. }
  destruct xs as [|x xs]; rewrite He; simpl.
  - apply wp_modify. split; [split; [apply NoDup_singleton|split; [exact Hc'|done]]|exact Hf].
  - destruct (last (x :: xs)) as [e|] eqn:El; [|by apply last_None in El].
    apply wp_ret. split; [|done]. split; [by constructor|split; [exact Hc'|]]. done.
Qed.

Lemma wp_slist_pop s xs : is_slist s xs ->
  wp slist_pop s (fun r s' => r = head xs /\ is_slist s' (tail xs) /\ snodes s' = snodes s).
Proof.
  intros (Hnd & Hc & He). unfold slist_pop, is_slist. wp_bind. apply wp_gets. destruct xs as [|a xs]; simpl in Hc.
  - rewrite Hc. apply wp_ret. split; [done|]. split; [|done]. split; [done|split; [done|by rewrite He]].
  - destruct Hc as (-> & q & Ha & Hc). wp_bind. eapply wp_ld_next; [done|]. wp_bind. apply wp_modify.
    apply NoDup_cons in Hnd as [_ Hnd]. destruct xs as [|b xs].
    + simpl in Hc. subst q. wp_bind. apply wp_modify, wp_ret. split; [done|]. split; [|done]. split; [done|by split].
    + pose proof Hc as [-> _]. wp_bind. apply wp_ret, wp_ret. split; [done|]. split; [|done].
      split; [done|split; [exact Hc|]]. simpl. by rewrite He.
Qed.

Lemma wp_slist_append s xs n : is_slist s xs -> n ∉ xs -> is_Some (snodes s !! n) ->
  wp (slist_append (Some n)) s (fun _ s' => is_slist s' (xs ++ [n]) /\
    forall x, x ∉ n :: xs -> snodes s' !! x = snodes s !! x).
Proof.
  intros (Hnd & Hc & He) Hn Hs. unfold slist_append, is_slist. wp_bind. apply wp_sl_set_next; [done|].
  wp_bind. apply wp_gets. simpl. rewrite He. destruct (last xs) as [e|] eqn:El; wp_bind.
  - apply last_Some in El as [l ->]. apply wp_sl_set_next.
    { simpl. rewrite lookup_insert_ne by set_solver. eapply chain_dom; [done|set_solver]. }
    apply wp_modify. simpl. split.
    + rewrite <- (assoc_L (++)). split; [|split]; simpl.
      * change (l ++ [e; n]) with (l ++ ([e] ++ [n])). rewrite (assoc_L (++)). apply NoDup_app. split_and!; [done|set_solver|apply NoDup_singleton].
      * by apply chain_snoc.
      * change (l ++ [e; n]) with (l ++ ([e] ++ [n])). by rewrite (assoc_L (++)), last_snoc.
    + intros x Hx. rewrite !lookup_insert_ne by set_solver. done.
  - apply last_None in El as ->. apply wp_modify, wp_modify. simpl. split.
    + split; [apply NoDup_singleton|split; [|done]]. split; [done|]. exists None. by rewrite lookup_insert_eq.
    + intros x Hx. rewrite !lookup_insert_ne by set_solver. done.
Qed.

Lemma wp_slist_is_empty s xs : is_slist s xs ->
  wp slist_is_empty s (fun b s' => s' = s /\ b = bool_decide (xs = [])).
Proof.
  intros (_ & Hc & _). apply wp_gets. split; [done|]. destruct xs; simpl in Hc.
  - by rewrite Hc.
  - destruct Hc as [-> _]. by rewrite !bool_decide_eq_false_2.
Qed.
End SList.

(** * The lists as sequences *)

(** C24. On a circular list of the nodes [xs]: [list_is_empty] is the test for
    no nodes; [list_insert] puts a node of the store before [after], at the end
    when [after] is the head; [list_remove] takes a node out and clears its
    links; [list_move] hands all the nodes over to another head, in order, and
    leaves the old head empty; [list_init] makes an empty list.  A singly-linked
    list of the nodes [ys] is a queue and a stack: [slist_append] adds at the
    end in constant time, [slist_push] at the front, [slist_pop] takes the first
    node or returns NULL, and the end pointer stays right whenever the list
    becomes empty or stops being so.  Each terminates and writes to no other
    node. *)
Theorem lists_refine h hd xs item after dst s ys n :
  (DList.is_list h hd xs ->
    wp (DList.list_is_empty (Some hd)) h (fun b h' => h' = h /\ (b = true <-> xs = [])) /\
    (after ∈ hd :: xs -> item ∉ hd :: xs -> is_Some (h !! item) ->
      wp (DList.list_insert (Some item) (Some after)) h (fun _ h' =>
        DList.is_list h' hd (DList.ins_before item after xs) /\
        forall x, x ∉ item :: hd :: xs -> h' !! x = h !! x)) /\
    (item ∈ xs ->
      wp (DList.list_remove (Some item)) h (fun _ h' =>
        DList.is_list h' hd (filter (fun y => y <> item) xs) /\
        DList.nx h' item = None /\ DList.pv h' item = None /\
        forall x, x ∉ hd :: xs -> h' !! x = h !! x)) /\
    (dst ∉ hd :: xs -> is_Some (h !! dst) ->
      wp (DList.list_move (Some dst) (Some hd)) h (fun _ h' =>
        DList.is_list h' dst xs /\ DList.is_list h' hd [] /\
        forall x, x ∉ dst :: hd :: xs -> h' !! x = h !! x) /\
      wp (DList.list_init (Some dst)) h (fun _ h' =>
        DList.is_list h' dst [] /\ forall x, x <> dst -> h' !! x = h !! x))) /\
  (SList.is_slist s ys ->
    wp SList.slist_is_empty s (fun b s' => s' = s /\ b = bool_decide (ys = [])) /\
    wp SList.slist_pop s (fun r s' =>
      r = head ys /\ SList.is_slist s' (tail ys) /\ SList.snodes s' = SList.snodes s) /\
    (n ∉ ys -> is_Some (SList.snodes s !! n) ->
      wp (SList.slist_push (Some n)) s (fun _ s' => SList.is_slist s' (n :: ys) /\
        forall x, x <> n -> SList.snodes s' !! x = SList.snodes s !! x) /\
      wp (SList.slist_append (Some n)) s (fun _ s' => SList.is_slist s' (ys ++ [n]) /\
        forall x, x ∉ n :: ys -> SList.snodes s' !! x = SList.snodes s !! x))).
Proof.
  split; [intros Hl; split_and!|intros Hs; split_and!].
  - by apply DList.wp_list_is_empty.
  - intros. by apply DList.wp_list_insert.
  - intros. by apply DList.wp_list_remove.
  - intros. split; [by apply DList.wp_list_move|by apply DList.wp_list_init].
  - by apply SList.wp_slist_is_empty.
  - by apply SList.wp_slist_pop.
  - intros. split; [by apply SList.wp_slist_push|by apply SList.wp_slist_append].
Qed.

(** ** Examples *)
Definition ex_dl : DList.store :=
  list_to_map [(1%positive, DList.mk_lnode (Some 2%positive) (Some 3%positive));
    (2%positive, DList.mk_lnode (Some 3%positive) (Some 1%positive));
    (3%positive, DList.mk_lnode (Some 1%positive) (Some 2%positive));
    (4%positive, DList.mk_lnode None None)].

Definition ex_sl : SList.slist :=
  SList.mk_slist (Some 2%positive) (Some 5%positive)
    (list_to_map [(2%positive, Some 5%positive); (5%positive, None); (7%positive, None)]).

Lemma lists_refine_witness :
  DList.is_list ex_dl 1 [2; 3]%positive /\
  wp (DList.list_insert (Some 4%positive) (Some 3%positive)) ex_dl (fun _ h' =>
    DList.is_list h' 1 [2; 4; 3]%positive) /\
  wp (DList.list_remove (Some 2%positive)) ex_dl (fun _ h' => DList.is_list h' 1 [3%positive]) /\
  wp (DList.list_move (Some 4%positive) (Some 1%positive)) ex_dl (fun _ h' =>
    DList.is_list h' 4 [2; 3]%positive /\ DList.is_list h' 1 []) /\
  SList.is_slist ex_sl [2; 5]%positive /\
  wp SList.slist_pop ex_sl (fun r s' => r = Some 2%positive /\ SList.is_slist s' [5%positive]) /\
  wp (SList.slist_append (Some 7%positive)) ex_sl (fun _ s' => SList.is_slist s' [2; 5; 7]%positive).
Proof.
  assert (W : DList.is_list ex_dl 1 [2; 3]%positive).
  { split; [by apply (bool_decide_unpack _); vm_compute|]. vm_compute. repeat split. }
  assert (W' : SList.is_slist ex_sl [2; 5]%positive).
  { split; [by apply (bool_decide_unpack _); vm_compute|]. split; [|done]. vm_compute. eauto 10. }
  assert (E4 : is_Some (ex_dl !! 4%positive)) by (eexists; vm_compute; reflexivity).
  assert (N4 : (4 ∉ [1; 2; 3])%positive) by (apply (bool_decide_unpack _); vm_compute; done).
  split_and!; [exact W| | | |exact W'| |].
  - destruct (lists_refine ex_dl 1 [2; 3]%positive 4 3 4 ex_sl [2; 5]%positive 7) as [H _].
    destruct (H W) as (_ & H' & _).
    eapply wp_mono; [apply H'; [apply (bool_decide_unpack _); vm_compute; done|done|done]|]. intros _ h' [Hl _]. exact Hl.
  - destruct (lists_refine ex_dl 1 [2; 3]%positive 2 3 4 ex_sl [2; 5]%positive 7) as [H _].
    destruct (H W) as (_ & _ & H' & _).
    eapply wp_mono; [apply H'; apply (bool_decide_unpack _); vm_compute; done|]. intros _ h' [Hl _]. exact Hl.
  - destruct (lists_refine ex_dl 1 [2; 3]%positive 2 3 4 ex_sl [2; 5]%positive 7) as [H _].
    destruct (H W) as (_ & _ & _ & H').
    eapply wp_mono; [apply H'; done|]. intros _ h' (Hl & Hl2 & _). by split.
  - destruct (lists_refine ex_dl 1 [2; 3]%positive 2 3 4 ex_sl [2; 5]%positive 7) as [_ H].
    destruct (H W') as (_ & H1 & _).
    eapply wp_mono; [exact H1|]. intros r s' (-> & Hs & _). by split.
  - destruct (lists_refine ex_dl 1 [2; 3]%positive 2 3 4 ex_sl [2; 5]%positive 7) as [_ H].
    destruct (H W') as (_ & _ & H2).
    destruct H2 as [_ H2]; [apply (bool_decide_unpack _); vm_compute; done|eexists; vm_compute; reflexivity|].
    eapply wp_mono; [exact H2|]. intros _ s' [Hs _]. exact Hs.
Defined.
