(* ===== verification/Bytes.v ===== *)
(** Model of src/bytes.h: access to little-endian and network-order integers in
    byte arrays, and its equivalence with the positional notation. *)
From S2P Require Import Prelude.

(** [data[i] = v] for [uint8_t *data]. *)
Definition put8 (i : nat) (v : Z) (data : list Z) : option (list Z) :=
  match data !! i with Some _ => Some (<[i := u8 v]> data) | None => None end.

(** The assignments of a writer, in order. *)
Fixpoint stores (l : list (nat * Z)) (data : list Z) : option (list Z) :=
  match l with
  | [] => Some data
  | (i, v) :: l => match put8 i v data with Some data => stores l data | None => None end
  end.

(** [((T)data[i]) << k], in an integer type that holds it. *)
Definition get8 (data : list Z) (i : nat) (k : Z) : option Z :=
  match data !! i with Some b => Some (Z.shiftl b k) | None => None end.

Definition bor (a b : option Z) : option Z :=
  match a, b with Some a, Some b => Some (Z.lor a b) | _, _ => None end.

Definition bytes_r16le (data : list Z) : option Z :=
  bor (get8 data 0 0) (get8 data 1 8).
Definition bytes_w16le (data : list Z) (v : Z) : option (list Z) :=
  stores [(0%nat, v); (1%nat, Z.shiftr v 8)] data.
Definition bytes_r16net (data : list Z) : option Z :=
  bor (get8 data 1 0) (get8 data 0 8).
Definition bytes_w16net (data : list Z) (v : Z) : option (list Z) :=
  stores [(1%nat, v); (0%nat, Z.shiftr v 8)] data.

Definition bytes_r32le (data : list Z) : option Z :=
  bor (bor (bor (get8 data 0 0) (get8 data 1 8)) (get8 data 2 16)) (get8 data 3 24).
Definition bytes_w32le (data : list Z) (v : Z) : option (list Z) :=
  stores [(0%nat, v); (1%nat, Z.shiftr v 8); (2%nat, Z.shiftr v 16); (3%nat, Z.shiftr v
    24)] data.
Definition bytes_r32net (data : list Z) : option Z :=
  bor (bor (bor (get8 data 3 0) (get8 data 2 8)) (get8 data 1 16)) (get8 data 0 24).
Definition bytes_w32net (data : list Z) (v : Z) : option (list Z) :=
  stores [(3%nat, v); (2%nat, Z.shiftr v 8); (1%nat, Z.shiftr v 16); (0%nat, Z.shiftr v
    24)] data.

Definition bytes_r64le (data : list Z) : option Z :=
  bor (bor (bor (bor (bor (bor (bor (get8 data 0 0) (get8 data 1 8)) (get8 data 2 16))
    (get8 data 3 24)) (get8 data 4 32)) (get8 data 5 40)) (get8 data 6 48)) (get8 data 7
    56).
Definition bytes_w64le (data : list Z) (v : Z) : option (list Z) :=
  stores [(0%nat, v); (1%nat, Z.shiftr v 8); (2%nat, Z.shiftr v 16); (3%nat, Z.shiftr v
    24); (4%nat, Z.shiftr v 32); (5%nat, Z.shiftr v 40); (6%nat, Z.shiftr v 48); (7%nat,
    Z.shiftr v 56)] data.
Definition bytes_r64net (data : list Z) : option Z :=
  bor (bor (bor (bor (bor (bor (bor (get8 data 7 0) (get8 data 6 8)) (get8 data 5 16))
    (get8 data 4 24)) (get8 data 3 32)) (get8 data 2 40)) (get8 data 1 48)) (get8 data 0
    56).
Definition bytes_w64net (data : list Z) (v : Z) : option (list Z) :=
  stores [(7%nat, v); (6%nat, Z.shiftr v 8); (5%nat, Z.shiftr v 16); (4%nat, Z.shiftr v
    24); (3%nat, Z.shiftr v 32); (2%nat, Z.shiftr v 40); (1%nat, Z.shiftr v 48); (0%nat,
    Z.shiftr v 56)] data.

(** * Positional notation *)

(** The [n] low digits of [v] in base 256, least significant first. *)
Fixpoint digits (n : nat) (v : Z) : list Z :=
  match n with O => [] | Datatypes.S n => v mod 256 :: digits n (v / 256) end.

Fixpoint value (bs : list Z) : Z :=
  match bs with [] => 0 | b :: bs => b + 256 * value bs end.

Definition is_byte (b : Z) : Prop := 0 <= b < 256.

Lemma digits_bytes n v : Forall is_byte (digits n v).
Proof. revert v. induction n; intros v; constructor; [apply Z.mod_pos_bound; lia|done]. Qed.

Lemma length_digits n v : length (digits n v) = n.
Proof. revert v. induction n; intros v; simpl; [done|]. by rewrite IHn. Qed.

Lemma value_digits n v : 0 <= v < 256 ^ Z.of_nat n -> value (digits n v) = v.
Proof.
  revert v. induction n as [|n IH]; intros v Hv; simpl; [simpl in Hv; lia|].
  rewrite Nat2Z.inj_succ, Z.pow_succ_r in Hv by lia.
  rewrite IH; [pose proof (Z.div_mod v 256); lia|].
  split; [apply Z.div_pos; lia|apply Z.div_lt_upper_bound; lia].
Qed.

Lemma digits_value bs : Forall is_byte bs -> digits (length bs) (value bs) = bs.
Proof.
  induction 1 as [|b bs Hb _ IH]; simpl; [done|]. unfold is_byte in Hb.
  rewrite (Z.mul_comm 256), Z_mod_plus_full, Z.mod_small, Z.div_add, Z.div_small by lia. by rewrite Z.add_0_l, IH.
Qed.

Lemma lor_shift a b k : 0 <= k -> 0 <= a < 2 ^ k -> Z.lor a (Z.shiftl b k) = a + 2 ^ k * b.
Proof.
  intros Hk Ha. apply Z.bits_inj'. intros n Hn. rewrite Z.lor_spec, testbit_join, Z.shiftl_spec by done.
  destruct (Z.ltb_spec n k).
  - rewrite (Z.testbit_neg_r b) by lia. apply orb_false_r.
  - by rewrite (testbit_high k).
Qed.

(** [m] divides out of a digit, the shape [w16le] and the like leave behind. *)
Lemma u8_shiftr v k : 0 <= k -> u8 (Z.shiftr v k) = (v / 2 ^ k) mod 256.
Proof. intros. unfold u8. by rewrite Z.shiftr_div_pow2. Qed.

Lemma u8_mod v : u8 v = v mod 256.
Proof. done. Qed.

(** [n]-byte integers stored least significant byte first by [w] and read
    by [r], and in network order by [wn] and [rn]. *)
Record codec (n : nat) (w wn : list Z -> Z -> option (list Z)) (r rn : list Z -> option Z) : Prop := {
  w_digits : forall bs rest v, length bs = n -> w (bs ++ rest) v = Some (digits n v ++ rest);
  wn_digits : forall bs rest v, length bs = n -> wn (bs ++ rest) v = Some (rev (digits n v) ++ rest);
  r_value : forall bs rest, length bs = n -> Forall is_byte bs -> r (bs ++ rest) = Some (value bs);
  rn_value : forall bs rest, length bs = n -> Forall is_byte bs -> rn (rev bs ++ rest) = Some (value bs);
}.

Lemma codec_roundtrip n w wn r rn data v : codec n w wn r rn ->
  (n <= length data)%nat -> 0 <= v < 256 ^ Z.of_nat n ->
  (exists d, w data v = Some d /\ r d = Some v) /\ (exists d, wn data v = Some d /\ rn d = Some v).
Proof.
  intros C Hl Hv. rewrite <- (take_drop n data). assert (length (take n data) = n) by (rewrite length_take; lia).
  rewrite (w_digits _ _ _ _ _ C), (wn_digits _ _ _ _ _ C) by done.
  split; eexists; (split; [done|]).
  - rewrite (r_value _ _ _ _ _ C) by (apply length_digits || apply digits_bytes). by rewrite value_digits.
  - rewrite (rn_value _ _ _ _ _ C) by (apply length_digits || apply digits_bytes). by rewrite value_digits.
Qed.

Ltac bytes_list bs := repeat (destruct bs as [|? bs]; try discriminate).
Ltac bytes_write :=
  intros bs rest v Hl; bytes_list bs;
  unfold bytes_w16le, bytes_w16net, bytes_w32le, bytes_w32net, bytes_w64le, bytes_w64net;
  simpl; rewrite ?u8_shiftr, ?u8_mod, ?Z.div_div by lia; reflexivity.
Ltac bytes_read :=
  intros bs rest Hl Hb; bytes_list bs;
  repeat match goal with H : Forall is_byte (_ :: _) |- _ => apply Forall_cons in H as [? H] end;
  unfold is_byte, bytes_r16le, bytes_r16net, bytes_r32le, bytes_r32net, bytes_r64le, bytes_r64net in *;
  cbn -[Z.lor Z.shiftl Z.mul Z.add];
  rewrite ?Z.shiftl_0_r;
  repeat match goal with
    | |- context [Z.lor ?a (Z.shiftl ?b ?k)] =>
        lazymatch a with context [Z.lor] => fail | _ => rewrite (lor_shift a b k) by lia end
    end; f_equal; lia.

Lemma codec16 : codec 2 bytes_w16le bytes_w16net bytes_r16le bytes_r16net.
Proof. split; [bytes_write|bytes_write|bytes_read|bytes_read]. Qed.
Lemma codec32 : codec 4 bytes_w32le bytes_w32net bytes_r32le bytes_r32net.
Proof. split; [bytes_write|bytes_write|bytes_read|bytes_read]. Qed.
Lemma codec64 : codec 8 bytes_w64le bytes_w64net bytes_r64le bytes_r64net.
Proof. split; [bytes_write|bytes_write|bytes_read|bytes_read]. Qed.

(** C26. The functions of bytes.h are the positional notation: the [le]
    writers store the base-256 digits of the value from the least significant
    on, the [net] writers from the most significant on, in the first 2, 4 or 8
    bytes and nowhere else, and the readers return the value of those bytes;
    so reading back what was written gives the value, for every value of the
    type and whatever was in the array. *)
Theorem bytes_endian :
  (codec 2 bytes_w16le bytes_w16net bytes_r16le bytes_r16net /\
   codec 4 bytes_w32le bytes_w32net bytes_r32le bytes_r32net /\
   codec 8 bytes_w64le bytes_w64net bytes_r64le bytes_r64net) /\
  (forall data v, (2 <= length data)%nat -> 0 <= v < 2 ^ 16 ->
    (exists d, bytes_w16le data v = Some d /\ bytes_r16le d = Some v) /\
    (exists d, bytes_w16net data v = Some d /\ bytes_r16net d = Some v)) /\
  (forall data v, (4 <= length data)%nat -> 0 <= v < 2 ^ 32 ->
    (exists d, bytes_w32le data v = Some d /\ bytes_r32le d = Some v) /\
    (exists d, bytes_w32net data v = Some d /\ bytes_r32net d = Some v)) /\
  (forall data v, (8 <= length data)%nat -> 0 <= v < 2 ^ 64 ->
    (exists d, bytes_w64le data v = Some d /\ bytes_r64le d = Some v) /\
    (exists d, bytes_w64net data v = Some d /\ bytes_r64net d = Some v)).
Proof.
  split_and!; [apply codec16|apply codec32|apply codec64|..]; intros data v Hl Hv.
  - by apply (codec_roundtrip 2); [apply codec16|..].
  - by apply (codec_roundtrip 4); [apply codec32|..].
  - by apply (codec_roundtrip 8); [apply codec64|..].
Qed.

Lemma bytes_endian_witness :
  bytes_w32net [9; 9; 9; 9; 1] 305419896 = Some [18; 52; 86; 120; 1] /\
  exists d, bytes_w32net [9; 9; 9; 9; 1] 305419896 = Some d /\ bytes_r32net d = Some 305419896.
Proof.
  split; [vm_compute; reflexivity|].
  destruct bytes_endian as (_ & _ & H & _). apply H; [simpl; lia|lia].
Defined.
