(* ===== verification/Strlcpy.v ===== *)
(** Model of src/strlcpy.c: bounded copy and concatenation of C strings.

    A [char *] argument is the list of the characters from it to the end of
    its area; running off the area is an error. *)
From S2P Require Import Prelude.

Fixpoint strlen (r : list Z) : option Z :=
  match r with
  | [] => None
  | c :: r => if c =? 0 then Some 0 else option_map (Z.add 1) (strlen r)
  end.

(** [memcpy(dst + at, src, len); dst[at + len] = 0;] *)
Definition copy_nul (dst src : list Z) (at_ len : Z) : option (list Z) :=
  match read_at 0 len src with
  | None => None
  | Some bs =>
      match write_at at_ bs dst with
      | None => None
      | Some d => write_at (at_ + len) [0] d
      end
  end.

Definition strlcpy (dst src : list Z) (size : Z) : option (list Z * Z) :=
  match strlen src with
  | None => None
  | Some src_len =>
      let max_len := u64 (size - 1) in
      let len := if max_len <? src_len then max_len else src_len in
      if size =? 0 then Some (dst, 0)
      else
        match copy_nul dst src 0 len with
        | None => None
        | Some d => Some (d, src_len)
        end
  end.

Definition strlcat (dst src : list Z) (size : Z) : option (list Z * Z) :=
  match strlen dst, strlen src with
  | Some dst_len, Some src_len =>
      let res_len := u64 (dst_len + src_len) in
      let max_len := u64 (size - dst_len - 1) in
      let copy := if max_len <? src_len then max_len else src_len in
      if (size =? 0) || (u64 (size - 1) <? dst_len) then Some (dst, 0)
      else
        match copy_nul dst src dst_len copy with
        | None => None
        | Some d => Some (d, res_len)
        end
  | _, _ => None
  end.

(** * C strings *)

(** The area [r] starts with the string [s]. *)
Definition holds (r s : list Z) : Prop := exists rest, r = s ++ 0 :: rest /\ Forall (fun c => c <> 0) s.

Lemma strlen_holds r s : holds r s -> strlen r = Some (Z.of_nat (length s)).
Proof.
  intros (rest & -> & Hs). induction Hs as [|c s Hc Hs IH]; simpl; [done|].
  destruct (Z.eqb_spec c 0); [done|]. rewrite IH. simpl. f_equal. lia.
Qed.

Lemma holds_length r s : holds r s -> (length s < length r)%nat.
Proof. intros (rest & -> & _). rewrite length_app. simpl. lia. Qed.

Lemma holds_take r s n : holds r s -> (n <= length s)%nat -> take n r = take n s.
Proof. intros (rest & -> & _) Hn. by rewrite take_app_le. Qed.

(** What is written: the [n] first characters of [s] and a NUL after [l1]. *)
Lemma copy_nul_spec l1 mid x l2 src s n :
  holds src s -> (n <= length s)%nat -> length mid = n ->
  copy_nul (l1 ++ mid ++ x :: l2) src (Z.of_nat (length l1)) (Z.of_nat n) =
    Some (l1 ++ take n s ++ 0 :: l2).
Proof.
  intros Hs Hn Hm. pose proof (holds_length _ _ Hs). unfold copy_nul.
  rewrite read_at_Some by lia. rewrite Nat2Z.id, drop_0, (holds_take _ s) by done.
  assert (length (take n s) = n) as Ln by (rewrite length_take; lia).
  rewrite write_at_app by lia. rewrite (assoc_L (++)).
  change (x :: l2) with ([x] ++ l2). rewrite write_at_app; [by rewrite <- (assoc_L (++))| |done].
  rewrite length_app. lia.
Qed.

(** [size] leaves room for the NUL after [take n s]. *)
Lemma bounded_result l1 mid x l2 s t n size :
  length mid = n -> n = Nat.min (size - 1 - length l1) (length s) -> (length l1 < size)%nat ->
  (size <= length (l1 ++ mid ++ x :: l2))%nat -> l1 = t -> Forall (fun c => c <> 0) (t ++ s) ->
  drop size (l1 ++ take n s ++ 0 :: l2) = drop size (l1 ++ mid ++ x :: l2) /\
  length (l1 ++ take n s ++ 0 :: l2) = length (l1 ++ mid ++ x :: l2) /\
  holds (l1 ++ take n s ++ 0 :: l2) (take (size - 1) (t ++ s)).
Proof.
  intros Hm Hn Hlt Hs -> Hf. assert (length (take n s) = n) as Ln by (rewrite length_take; lia).
  split_and!.
  - rewrite !drop_app_ge by (rewrite ?length_app; lia). rewrite Hm, Ln.
    destruct (size - length t - n)%nat eqn:E; [lia|done].
  - rewrite !length_app, Ln, Hm. done.
  - exists l2. rewrite take_app_ge by lia.
    assert (take (size - 1 - length t) s = take n s) as ->.
    { rewrite Hn. destruct (decide (size - 1 - length t <= length s)%nat).
      - by rewrite Nat.min_l.
      - rewrite Nat.min_r, !take_ge by lia. done. }
    rewrite <- (assoc_L (++)). split; [done|]. apply Forall_app in Hf as [H1 H2].
    apply Forall_app. split; [done|by apply Forall_take].
Qed.

(** What the code returns when it writes nothing: 0, where the documented
    result is the length of the string it tried to make. *)
Lemma strlcpy_no_room dst src s :
  holds src s -> strlcpy dst src 0 = Some (dst, 0).
Proof. intros Hs. unfold strlcpy. by rewrite (strlen_holds _ _ Hs). Qed.

Lemma strlcat_no_room dst src t s size :
  holds src s -> holds dst t -> 0 <= size <= Z.of_nat (length t) -> Z.of_nat (length t) < 2 ^ 63 ->
  strlcat dst src size = Some (dst, 0).
Proof.
  intros Hs Ht Hz Hl. unfold strlcat. rewrite (strlen_holds _ _ Hs), (strlen_holds _ _ Ht).
  destruct (Z.eqb_spec size 0) as [->|Hne]; [done|]. unfold u64. rewrite (Z.mod_small (size - 1)) by lia.
  by destruct (Z.ltb_spec (size - 1) (Z.of_nat (length t))); [|lia].
Qed.

(** C27. [strlcpy] and [strlcat] never touch the destination from index [size]
    on.  [strlcpy] with a non-zero size leaves in the destination a terminated
    string, as much of the source as fits in [size - 1] characters, and returns
    the source's length; [strlcat] with a size above the length of the
    destination's string leaves a terminated string, as much of that string
    followed by the source as fits in [size - 1] characters, and returns the
    length of the two, so that a result of at least [size] tells truncation.
    Where there is no room for anything (size 0, and [strlcat] when the
    destination's string already fills [size]) nothing is written; the result
    there, [strlcpy_no_room] and [strlcat_no_room], is not part of the claim. *)
Theorem strlcpy_strlcat_bounded dst src s size :
  holds src s -> 0 <= size < 2 ^ 63 -> size <= Z.of_nat (length dst) -> Z.of_nat (length src) < 2 ^ 63 ->
  (exists d r, strlcpy dst src size = Some (d, r) /\
    drop (Z.to_nat size) d = drop (Z.to_nat size) dst /\ length d = length dst /\
    (size = 0 -> d = dst) /\
    (0 < size -> r = Z.of_nat (length s) /\ holds d (take (Z.to_nat (size - 1)) s))) /\
  (forall t, holds dst t -> Z.of_nat (length dst) < 2 ^ 63 ->
    exists d r, strlcat dst src size = Some (d, r) /\
    drop (Z.to_nat size) d = drop (Z.to_nat size) dst /\ length d = length dst /\
    (size <= Z.of_nat (length t) -> d = dst) /\
    (Z.of_nat (length t) < size ->
      r = Z.of_nat (length t + length s) /\ holds d (take (Z.to_nat (size - 1)) (t ++ s)))).
Proof.
  intros Hs Hz Hd Hl. pose proof (holds_length _ _ Hs) as Hsl. pose proof Hs as (_ & _ & Hsf). split.
  - unfold strlcpy. rewrite (strlen_holds _ _ Hs). destruct (Z.eqb_spec size 0) as [->|Hne].
    { eexists _, _. split_and!; [done..|lia]. }
    unfold u64. rewrite Z.mod_small by lia.
    set (n := Nat.min (Z.to_nat size - 1 - 0) (length s)).
    replace (if size - 1 <? Z.of_nat (length s) then size - 1 else Z.of_nat (length s)) with (Z.of_nat n)
      by (destruct (Z.ltb_spec (size - 1) (Z.of_nat (length s))); lia).
    destruct (cut3 dst 0 n) as (l1 & mid & l2 & -> & E0 & Hm); [lia|].
    apply length_zero_iff_nil in E0 as ->. destruct l2 as [|x l2]; [rewrite !length_app in Hd; simpl in Hd; lia|].
    cbn [app]. assert (copy_nul (mid ++ x :: l2) src 0 (Z.of_nat n) = Some (take n s ++ 0 :: l2)) as -> by exact (copy_nul_spec [] mid x l2 src s n Hs ltac:(lia) Hm). eexists _, _. split; [done|].
    destruct (bounded_result [] mid x l2 s [] n (Z.to_nat size)) as (H1 & H2 & H3); [done|done|simpl; lia|lia|done|done|].
    split_and!; [done|done|lia|]. intros _. split; [done|].
    replace (Z.to_nat (size - 1)) with (Z.to_nat size - 1)%nat by lia. done.
  - intros t Ht Hdl. pose proof (holds_length _ _ Ht) as Htl. unfold strlcat.
    rewrite (strlen_holds _ _ Hs), (strlen_holds _ _ Ht). destruct (Z.eqb_spec size 0) as [->|Hne]; simpl.
    { eexists _, _. split_and!; [done..|lia]. }
    unfold u64. rewrite (Z.mod_small (size - 1)), (Z.mod_small (_ + _)) by lia.
    destruct (Z.ltb_spec (size - 1) (Z.of_nat (length t))).
    { eexists _, _. split_and!; [done..|lia]. }
    rewrite Z.mod_small by lia.
    set (n := Nat.min (Z.to_nat size - 1 - length t) (length s)).
    replace (if size - Z.of_nat (length t) - 1 <? Z.of_nat (length s) then size - Z.of_nat (length t) - 1
      else Z.of_nat (length s)) with (Z.of_nat n)
      by (destruct (Z.ltb_spec (size - Z.of_nat (length t) - 1) (Z.of_nat (length s))); lia).
    destruct (cut3 dst (length t) n) as (l1 & mid & l2 & E & E1 & Hm); [lia|].
    assert (l1 = t) as ->.
    { pose proof (holds_take _ _ (length t) Ht (Nat.le_refl _)) as Hk.
      rewrite E, <- E1, take_app_length, E1, take_ge in Hk by lia. done. }
    subst dst. destruct l2 as [|x l2]; [rewrite !length_app in *; simpl in *; lia|].
    rewrite (copy_nul_spec t mid x l2 src s n) by (done || lia). eexists _, _. split; [done|].
    destruct Ht as (_ & _ & Htf).
    destruct (bounded_result t mid x l2 s t n (Z.to_nat size)) as (H1 & H2 & H3);
      [done|done|lia|lia|done|by apply Forall_app|].
    split_and!; [done|done|lia|]. intros _. split; [lia|].
    replace (Z.to_nat (size - 1)) with (Z.to_nat size - 1)%nat by lia. done.
Qed.

Lemma strlcpy_strlcat_bounded_witness :
  holds [104; 105; 0; 7] [104; 105] /\
  (exists d r, strlcpy [1; 2; 3; 4] [104; 105; 0; 7] 2 = Some (d, r) /\ holds d [104] /\ r = 2) /\
  (exists d r, strlcat [97; 0; 3; 4] [104; 105; 0; 7] 3 = Some (d, r) /\ holds d [97; 104] /\ r = 3).
Proof.
  assert (W : holds [104; 105; 0; 7] [104; 105]) by (exists [7]; split; [done|repeat constructor; lia]).
  assert (W2 : holds [97; 0; 3; 4] [97]) by (exists [3; 4]; split; [done|repeat constructor; lia]).
  split_and!; [exact W| |].
  - destruct (strlcpy_strlcat_bounded [1; 2; 3; 4] [104; 105; 0; 7] [104; 105] 2 W)
      as [(d & r & E & _ & _ & _ & H) _]; [lia|simpl; lia|simpl; lia|].
    exists d, r. destruct H as [-> Hd]; [lia|]. by split_and!.
  - destruct (strlcpy_strlcat_bounded [97; 0; 3; 4] [104; 105; 0; 7] [104; 105] 3 W)
      as [_ H]; [lia|simpl; lia|simpl; lia|].
    destruct (H [97] W2) as (d & r & E & _ & _ & _ & Hr); [simpl; lia|].
    exists d, r. destruct Hr as [-> Hd]; [simpl; lia|]. by split_and!.
Defined.
