(* ===== verification/Heap.v ===== *)
(** The C heap as the containers of the library use it: regions of cells, some
    of them indeterminate, from an allocator that may fail at any call.

    A region has a single owner in this code, so it is a value held by its
    owner; the allocator's state counts the calls made and the regions alive, and
    freeing more regions than are alive is an error. *)
From S2P Require Import Prelude.

(** A cell holds a byte, or nothing determinate. *)
Abbreviation cells := (list (option Z)).

Record heap := mk_heap { calls : nat; alive : nat }.

Definition blank_cells (n : Z) : cells := replicate (Z.to_nat n) None.

Section alloc.
Context (malloc_ok : nat -> bool).

(** [malloc(n)]: NULL or a fresh region. *)
Definition malloc (n : Z) (h : heap) : heap * option cells :=
  if malloc_ok (calls h)
  then (mk_heap (Datatypes.S (calls h)) (Datatypes.S (alive h)), Some (blank_cells n))
  else (mk_heap (Datatypes.S (calls h)) (alive h), None).

(** [realloc(p, n)] for a region: NULL, or the region at its new size. *)
Definition realloc (old : cells) (n : Z) (h : heap) : heap * option cells :=
  if malloc_ok (calls h)
  then (mk_heap (Datatypes.S (calls h)) (alive h), Some (resize (Z.to_nat n) None old))
  else (mk_heap (Datatypes.S (calls h)) (alive h), None).

Definition free (h : heap) : option heap :=
  match alive h with
  | O => None
  | Datatypes.S n => Some (mk_heap (calls h) n)
  end.

(** An allocation failed at or after call [n]. *)
Definition oom_from (n : nat) : Prop := exists k, (n <= k)%nat /\ malloc_ok k = false.
End alloc.

Lemma take_resize_le {A} (x : A) n m l : (n <= m)%nat -> (n <= length l)%nat ->
  take n (resize m x l) = take n l.
Proof. intros. by rewrite take_resize_le, resize_le by lia. Qed.
