(* ===== verification/Strbuf.v ===== *)
(** Model of src/strbuf.h and src/strbuf.c: resizable text buffers.

    [text] is NULL (after [strbuf_destroy]), the constant empty string, or a
    heap region.  [size_t] arithmetic wraps modulo 2^64; an access outside the
    region is an error. *)
From S2P Require Import Prelude Heap Strlcpy.

Inductive text_ptr :=
  | Null
  | Blank   (** [strbuf_blank] *)
  | Text (c : cells).

Record strbuf := mk_strbuf {
  text : text_ptr;
  length_ : Z;
  capacity : Z;
  failed : Z;
}.

(** A buffer and the heap. *)
Abbreviation st := (strbuf * heap)%type.

Definition with_failed (v : Z) (b : strbuf) : strbuf :=
  mk_strbuf (text b) (length_ b) (capacity b) v.
Definition with_length (v : Z) (b : strbuf) : strbuf :=
  mk_strbuf (text b) v (capacity b) (failed b).
Definition with_text (v : text_ptr) (b : strbuf) : strbuf :=
  mk_strbuf v (length_ b) (capacity b) (failed b).

Definition get_buf : M st strbuf := gets fst.
Definition set_buf (b : strbuf) : M st unit := modify (fun s => (b, s.2)).
Definition upd_buf (f : strbuf -> strbuf) : M st unit := modify (fun s => (f s.1, s.2)).

(** [if (buf->text != strbuf_blank) free(buf->text);] *)
Definition free_text : M st unit :=
  ' (b, h) ← get;
  match text b with
  | Text _ => h ← need (free h); put (b, h)
  | _ => ret tt
  end.

(** [memcpy(buf->text + at_, bs, n)], and [buf->text[at_] = 0]: only a heap
    region may be written. *)
Definition write_text (at_ : Z) (bs : list (option Z)) : M st unit :=
  b ← get_buf;
  match text b with
  | Text c => c ← need (write_at at_ bs c); set_buf (with_text (Text c) b)
  | _ => crash
  end.

Definition strbuf_init : M st unit := set_buf (mk_strbuf Blank 0 0 0).

Definition strbuf_destroy : M st unit := free_text;; set_buf (mk_strbuf Null 0 0 0).

Definition strbuf_clear : M st unit := free_text;; set_buf (mk_strbuf Blank 0 0 0).

Definition strbuf_text : M st text_ptr := gets (fun s => text s.1).
Definition strbuf_len : M st Z := gets (fun s => length_ s.1).

(** [while (new_cap < need) new_cap <<= 1;]: 32 is doubled at most 59 times
    before it wraps to 0. *)
Definition double_cap (n : Z) : M st Z :=
  loop 60 (fun new_cap =>
    if new_cap <? n then ret (inl (u64 (Z.shiftl new_cap 1))) else ret (inr new_cap)) 32.

Section strbuf.
Context (malloc_ok : nat -> bool).

Definition strbuf_capacity_hint (length : Z) : M st Z :=
  b ← get_buf;
  if length <? length_ b then ret 0
  else
    new_cap ← double_cap (u64 (length + 1));
    if new_cap =? capacity b then ret 0
    else
      ' (b, h) ← get;
      new_text ←
        (match text b with
         | Text c => let '(h, r) := realloc malloc_ok c new_cap h in put (b, h);; ret r
         | _ => let '(h, r) := malloc malloc_ok new_cap h in put (b, h);; ret r
         end);
      match new_text with
      | None => ret (-1)
      | Some c => set_buf (mk_strbuf (Text c) (length_ b) new_cap (failed b));; ret 0
      end.

Definition strbuf_resize (new_length : Z) : M st Z :=
  b ← get_buf;
  rc ← (if capacity b <? u64 (new_length + 1) then strbuf_capacity_hint new_length else ret 0);
  if rc <? 0 then upd_buf (with_failed 1);; ret (-1)
  else
    upd_buf (with_length new_length);;
    write_text new_length [Some 0];;
    b ← get_buf;
    (if u64 (u64 (new_length + 1) * 4) <? capacity b
     then _ ← strbuf_capacity_hint (u64 (new_length + 1)); ret tt
     else ret tt);;
    ret 0.

(** [src] is the area [text] points to. *)
Definition strbuf_add_string (src : list Z) (length : Z) : M st Z :=
  length ← (if length <? 0 then need (strlen src) else ret length);
  b ← get_buf;
  rc ← strbuf_capacity_hint (u64 (length_ b + length));
  if rc <? 0 then ret (-1)
  else
    bs ← need (read_at 0 length src);
    write_text (length_ b) (Some <$> bs);;
    upd_buf (fun b => with_length (u64 (length_ b + length)) b);;
    b ← get_buf;
    write_text (length_ b) [Some 0];;
    ret (i32 length).

(** [char ch = c; strbuf_add_string(buf, &ch, 1)] *)
Definition strbuf_add_char (c : Z) : M st Z := strbuf_add_string [u8 c] 1.

(** [vsnprintf(text + at_, room, fmt, ap)] where the format and the arguments
    make [out], or fail: at most [room - 1] characters and a NUL are written. *)
Definition vsnprintf (at_ room : Z) (out : option (list Z)) : M st Z :=
  match out with
  | None => ret (-1)
  | Some s =>
      (if 0 <? room
       then write_text at_ ((Some <$> take (Z.to_nat (room - 1)) s) ++ [Some 0])
       else ret tt);;
      ret (Z.of_nat (List.length s))
  end.

(** One round of the loop of [strbuf_vprintf]. *)
Definition vprintf_step (out : option (list Z)) (_ : unit) : M st (unit + Z) :=
  b ← get_buf;
  let room := i32 (u64 (capacity b - length_ b)) in
  r ← vsnprintf (length_ b) room out;
  if r + 1 <? room
  then upd_buf (fun b => with_length (u64 (length_ b + r)) b);; ret (inr r)
  else
    b ← get_buf;
    rc ← strbuf_capacity_hint (u64 (capacity b + 1));
    if rc <? 0 then upd_buf (with_failed 1);; ret (inr (-1)) else ret (inl tt).

(** The room at least doubles each round: 64 rounds are enough. *)
Definition strbuf_vprintf (out : option (list Z)) : M st Z :=
  rc ← strbuf_capacity_hint 1;
  if rc <? 0 then ret (-1) else loop 64 (vprintf_step out) tt.

Definition strbuf_printf (out : option (list Z)) : M st Z := strbuf_vprintf out.
End strbuf.
