(* ===== verification/StrbufMain.v ===== *)
(** Correctness of src/strbuf.c: every operation keeps the buffer well formed
    and NUL-terminated, accounts for memory, and has the documented effect on the
    text, with the errors of failed allocations. *)
From S2P Require Import Prelude Heap Strlcpy Strbuf.

Definition pow2_cap (c : Z) : Prop := exists k, 5 <= k /\ c = 2 ^ k.

(** The region of the text and what it holds up to the length. *)
Definition region (b : strbuf) : cells := match text b with Text c => c | _ => [] end.
Definition contents (b : strbuf) : cells := take (Z.to_nat (length_ b)) (region b).
Definition owned (b : strbuf) : nat := match text b with Text _ => 1 | _ => 0 end.

(** A buffer with or without a terminator right after its text. *)
Record strbuf_ok (b : strbuf) : Prop := {
  ok_blank : text b = Blank -> length_ b = 0 /\ capacity b = 0;
  ok_null : text b <> Null;
  ok_cap : forall c, text b = Text c -> Z.of_nat (List.length c) = capacity b /\ pow2_cap (capacity b) /\
    0 <= length_ b < capacity b;
}.

Definition strbuf_wf (b : strbuf) : Prop :=
  strbuf_ok b /\ forall c, text b = Text c -> c !! Z.to_nat (length_ b) = Some (Some 0).

Lemma wp_set_buf b (s : st) Q : Q tt (b, s.2) -> wp (set_buf b) s Q.
Proof. done. Qed.

Lemma wp_upd_buf f (s : st) Q : Q tt (f s.1, s.2) -> wp (upd_buf f) s Q.
Proof. done. Qed.

Lemma pow2_le c : pow2_cap c -> 32 <= c.
Proof. intros (k & Hk & ->). change 32 with (2 ^ 5). by apply Z.pow_le_mono_r. Qed.

Lemma wp_double_cap n (s : st) : 0 <= n <= 2 ^ 62 ->
  wp (double_cap n) s (fun c s' => s' = s /\ n <= c /\ pow2_cap c /\ c <= 2 ^ 62 /\ (c = 32 \/ c < 2 * n)).
Proof.
  intros Hn. unfold double_cap.
  apply (wp_loop (fun j c s' => s' = s /\ exists k, 5 <= k <= 62 /\ c = 2 ^ k /\ Z.of_nat j = 62 - k /\
    (c = 32 \/ c < 2 * n))) with (k := 57%nat).
  - intros j c s' (-> & k & Hk & -> & Hj & Hc). destruct (Z.ltb_spec (2 ^ k) n) as [Hl|Hl]; apply wp_ret.
    + assert (2 ^ k < 2 ^ 62) as Hl' by lia. apply Z.pow_lt_mono_r_iff in Hl'; [|lia|lia].
      exists (j - 1)%nat. split; [lia|]. split; [done|]. exists (k + 1).
      rewrite Z.shiftl_mul_pow2, Z.pow_add_r by lia.
      assert (2 ^ k <= 2 ^ 61) by (apply Z.pow_le_mono_r; lia).
      assert (0 < 2 ^ k) by (apply Z.pow_pos_nonneg; lia).
      unfold u64. rewrite Z.mod_small by lia. split_and!; lia.
    + split_and!; [done|done|exists k; split; [lia|done]|apply Z.pow_le_mono_r; lia|done].
  - lia.
  - split; [done|]. exists 5. split_and!; [lia|lia|done|lia|by left].
Qed.

Lemma i32_id x : 0 <= x < 2 ^ 31 -> i32 x = x.
Proof. intros. unfold i32. rewrite Z.mod_small; lia. Qed.

Section strbuf.
Context (malloc_ok : nat -> bool).

(** [b'] is [b] with another capacity. *)
Record resized (b b' : strbuf) : Prop := {
  rs_len : length_ b' = length_ b;
  rs_failed : failed b' = failed b;
  rs_cells : forall i, (i <= Z.to_nat (length_ b))%nat -> region b !! i <> None -> region b' !! i = region b !! i;
}.

Lemma resized_contents b b' : strbuf_ok b -> resized b b' -> contents b' = contents b.
Proof.
  intros Ho [Hl _ Hc]. unfold contents. rewrite Hl. apply list_eq. intros i.
  destruct (decide (i < Z.to_nat (length_ b))%nat) as [Hi|Hi].
  - rewrite !lookup_take_lt by done. destruct (region b !! i) as [x|] eqn:E; [rewrite <- E; apply Hc; [lia|by rewrite E]|].
    apply lookup_ge_None in E. unfold region in E. destruct (text b) as [| |c] eqn:Et.
    + by destruct (ok_null _ Ho).
    + destruct (ok_blank _ Ho Et). lia.
    + destruct (ok_cap _ Ho c Et). lia.
  - rewrite !lookup_take_ge by lia. done.
Qed.

Lemma resized_wf b b' : strbuf_wf b -> resized b b' -> strbuf_ok b' -> text b <> Blank -> strbuf_wf b'.
Proof.
  intros [Ho Hz] [Hl _ Hc] Ho' Hb. split; [done|]. intros c' Hc'. rewrite Hl.
  destruct (text b) as [| |c] eqn:Et; [by destruct (ok_null _ Ho)|done|].
  specialize (Hz c eq_refl). specialize (Hc (Z.to_nat (length_ b))). unfold region in Hc. rewrite Et, Hc' in Hc.
  rewrite Hc; [done|done|by rewrite Hz].
Qed.

Lemma wp_buf_hint b h len : strbuf_ok b -> 0 <= len < 2 ^ 61 ->
  wp (strbuf_capacity_hint malloc_ok len) (b, h) (fun rc '(b', h') =>
    (alive h' + owned b = alive h + owned b')%nat /\
    (rc = 0 /\ resized b b' /\ strbuf_ok b' /\
      (len < length_ b /\ b' = b \/
       length_ b <= len /\ len < capacity b' /\ (exists c, text b' = Text c) /\
       capacity b' <= Z.max 32 (2 * len + 2)) \/
     rc = -1 /\ b' = b /\ oom_from malloc_ok (calls h))).
Proof.
  intros Hb Hl. unfold strbuf_capacity_hint. wp_bind. apply wp_gets. simpl.
  destruct (Z.ltb_spec len (length_ b)).
  { apply wp_ret. split; [lia|left]. split_and!; [done| |done|by left]. by split. }
  wp_bind. unfold u64. rewrite Z.mod_small by lia.
  eapply wp_mono; [apply wp_double_cap; lia|]. intros cap s' (-> & Hcap & Hp & Hmax & Hc2).
  pose proof (pow2_le _ Hp) as Hp32. destruct (Z.eqb_spec cap (capacity b)) as [->|Hne].
  { apply wp_ret. split; [lia|left]. split_and!; [done|by split|done|right].
    split_and!; [lia|lia| |lia]. destruct (text b) as [| |c] eqn:E; [by destruct (ok_null _ Hb)| |eauto].
    destruct (ok_blank _ Hb E). lia. }
  wp_bind. apply wp_get. cbn beta iota.
  destruct (text b) as [| |c] eqn:E; [by destruct (ok_null _ Hb)| |].
  - destruct (ok_blank _ Hb E) as [E1 E2]. wp_bind. unfold malloc.
    destruct (malloc_ok (calls h)) eqn:Em; wp_bind; apply wp_put; apply wp_ret.
    + wp_bind. apply wp_set_buf, wp_ret. simpl. unfold owned. rewrite E. split; [simpl; lia|left].
      split_and!; [done| | |right].
      * split; simpl; [done|done|]. intros i _ Hi. unfold region in Hi. by rewrite E in Hi.
      * split; simpl; [done|done|]. intros c [= <-]. unfold blank_cells. rewrite length_replicate.
        split_and!; [lia|done|lia|lia].
      * split_and!; [done|simpl; lia|by eexists|simpl; lia].
    + apply wp_ret. split; [done|]. right. split_and!; [done|done|]. by exists (calls h).
  - destruct (ok_cap _ Hb c E) as (E1 & E2 & E3). wp_bind. unfold realloc.
    destruct (malloc_ok (calls h)) eqn:Em; wp_bind; apply wp_put; apply wp_ret.
    + wp_bind. apply wp_set_buf, wp_ret. simpl. unfold owned. rewrite E. split; [simpl; lia|left].
      split_and!; [done| | |right].
      * split; simpl; [done|done|]. intros i Hi Hr. unfold region in *. rewrite E in *. simpl.
        apply lookup_resize; [lia|]. destruct (c !! i) eqn:Ei; [|done]. by apply lookup_lt_Some in Ei.
      * split; simpl; [done|done|]. intros c' [= <-]. rewrite length_resize. split_and!; [lia|done|lia|lia].
      * split_and!; [done|simpl; lia|by eexists|simpl; lia].
    + apply wp_ret. split; [done|]. right. split_and!; [done|done|]. by exists (calls h).
Qed.

Lemma wp_write_text b h c at_ bs c' Q : text b = Text c -> write_at at_ bs c = Some c' ->
  Q tt (with_text (Text c') b, h) -> wp (write_text at_ bs) (b, h) Q.
Proof.
  intros Ht Hw HQ. unfold write_text. wp_bind. apply wp_gets. simpl. rewrite Ht, Hw. done.
Qed.

(** The buffer with the region [l1 ++ x :: l2] and the length of [l1]. *)
Lemma ok_cells b l1 (x : option Z) l2 cap : length_ b = Z.of_nat (List.length l1) ->
  text b = Text (l1 ++ x :: l2) -> capacity b = cap -> pow2_cap cap ->
  cap = Z.of_nat (List.length (l1 ++ x :: l2)) ->
  strbuf_ok b /\ contents b = l1 /\ (x = Some 0 -> strbuf_wf b).
Proof.
  intros Hl Ht Hc Hp Hcl. assert (strbuf_ok b) as Ho.
  { split; [by rewrite Ht|by rewrite Ht|]. intros c. rewrite Ht. intros [= <-]. rewrite Hc, Hl.
    split_and!; [done|done|lia|]. rewrite Hcl, length_app. simpl. lia. }
  split_and!; [done| |].
  - unfold contents, region. rewrite Hl, Ht, Nat2Z.id. apply take_app_length.
  - intros ->. split; [done|]. intros c. rewrite Ht, Hl, Nat2Z.id. intros [= <-]. 
    by apply list_lookup_middle.
Qed.

(** Writing [bs] and a NUL at the end of the text. *)
Lemma wp_append {A} b h c bs (k : M st A) Q :
  strbuf_ok b -> text b = Text c -> length_ b + Z.of_nat (List.length bs) < capacity b -> capacity b <= 2 ^ 62 ->
  (forall b', strbuf_wf b' -> contents b' = contents b ++ bs -> capacity b' = capacity b ->
    length_ b' = length_ b + Z.of_nat (List.length bs) -> failed b' = failed b -> owned b' = owned b ->
    wp k (b', h) Q) ->
  wp (write_text (length_ b) bs;; upd_buf (fun b => with_length (u64 (length_ b + Z.of_nat (List.length bs))) b);;
      b ← get_buf; write_text (length_ b) [Some 0];; k) (b, h) Q.
Proof.
  intros Ho Ht Hn Hcap HQ. destruct (ok_cap _ Ho c Ht) as (E1 & E2 & E3).
  destruct (cut3 c (Z.to_nat (length_ b)) (List.length bs)) as (l1 & mid & l2 & -> & L1 & Lm); [lia|].
  destruct l2 as [|x l2]; [rewrite !length_app in E1; simpl in E1; lia|].
  wp_bind. eapply wp_write_text; [done|apply write_at_app; lia|].
  wp_bind. apply wp_upd_buf. wp_bind. apply wp_gets. simpl.
  assert (u64 (length_ b + Z.of_nat (List.length bs)) = length_ b + Z.of_nat (List.length bs)) as Hu
    by (unfold u64; rewrite Z.mod_small; lia).
  rewrite Hu. wp_bind. eapply wp_write_text.
  - simpl. done.
  - change (x :: l2) with ([x] ++ l2). rewrite (assoc_L (++)). apply write_at_app; [|done]. rewrite length_app. lia.
  - simpl. destruct (ok_cells (mk_strbuf (Text ((l1 ++ bs) ++ [Some 0] ++ l2)) (length_ b + Z.of_nat (List.length bs))
      (capacity b) (failed b)) (l1 ++ bs) (Some 0) l2 (capacity b)) as (_ & H2 & H3); try done.
    + simpl. rewrite length_app. lia.
    + rewrite <- E1, !length_app. simpl. rewrite <- Lm. lia.
    + apply HQ; try done.
      * by apply H3.
      * etrans; [exact H2|]. unfold contents, region. rewrite Ht. f_equal.
        rewrite <- L1. by rewrite take_app_length.
      * simpl. unfold owned. by rewrite Ht.
Qed.

(** What appending [bs] does, or its failure. *)
Definition appended (b : strbuf) (h : heap) (bs : list Z) (rc : Z) (s : st) : Prop :=
  let '(b', h') := s in
  (alive h' + owned b = alive h + owned b')%nat /\
  (rc = Z.of_nat (List.length bs) /\ strbuf_wf b' /\ contents b' = contents b ++ (Some <$> bs) /\
     failed b' = failed b \/
   rc = -1 /\ b' = b /\ oom_from malloc_ok (calls h)).

Lemma wp_add_string b h src len bs :
  strbuf_ok b -> 0 <= length_ b < 2 ^ 60 -> Z.of_nat (List.length bs) < 2 ^ 31 ->
  (0 <= len /\ read_at 0 len src = Some bs /\ len = Z.of_nat (List.length bs) \/ len < 0 /\ holds src bs) ->
  wp (strbuf_add_string malloc_ok src len) (b, h) (appended b h bs).
Proof.
  intros Hb Hl Hbs Hsrc. unfold strbuf_add_string.
  assert (read_at 0 (Z.of_nat (List.length bs)) src = Some bs) as Hr.
  { destruct Hsrc as [(_ & Hr & ->)|[_ Hh]]; [done|]. pose proof (holds_length _ _ Hh).
    rewrite read_at_Some, drop_0, Nat2Z.id by lia. rewrite (holds_take _ bs) by done. by rewrite take_ge. }
  wp_bind. eapply wp_mono with (P := fun n s' => s' = (b, h) /\ n = Z.of_nat (List.length bs)).
  { destruct Hsrc as [(H1 & H2 & ->)|[H1 H2]].
    - destruct (Z.ltb_spec (Z.of_nat (List.length bs)) 0); [lia|]. by apply wp_ret.
    - destruct (Z.ltb_spec len 0); [|lia]. rewrite (strlen_holds _ _ H2). done. }
  intros n s' [-> ->]. wp_bind. apply wp_gets. simpl. unfold u64 at 1. rewrite Z.mod_small by lia.
  wp_bind. eapply wp_mono; [apply wp_buf_hint; [exact Hb|lia]|].
  intros rc [b1 h1] (Ha & [(-> & Hrs & Ho1 & Hc)|(-> & -> & Ho)]).
  2: { apply wp_ret. split; [lia|right]. by split_and!. }
  simpl. pose proof (resized_contents _ _ Hb Hrs) as Hcont. pose proof (rs_len _ _ Hrs) as Hlen.
  wp_bind. rewrite Hr. apply wp_ret.
  assert (exists c, text b1 = Text c) as [c Hc1].
  { destruct Hc as [[? ->]|(_ & _ & ? & _)]; [lia|done]. }
  assert (length_ b1 + Z.of_nat (List.length bs) < capacity b1 /\ capacity b1 <= 2 ^ 62) as [Hcap Hcap2].
  { destruct Hc as [[? ->]|(_ & ? & _ & ?)]; lia. }
  assert (List.length (Some <$> bs) = List.length bs) as Lb by apply length_fmap.
  rewrite <- Hlen, <- Lb. eapply wp_append; [done|done|lia|done|].
  intros b2 Hw2 Hc2 _ _ Hf2 Ho2. apply wp_ret. split; [lia|left]. rewrite Lb.
  split_and!; [apply i32_id; lia|done| |by rewrite Hf2, (rs_failed _ _ Hrs)].
  by rewrite Hc2, Hcont.
Qed.

Definition resize_post (b : strbuf) (h : heap) (n rc : Z) (s : st) : Prop :=
  let '(b', h') := s in
  (alive h' + owned b = alive h + owned b')%nat /\ strbuf_wf b' /\
  (rc = 0 /\ length_ b' = n /\ failed b' = failed b /\
     take (Z.to_nat (length_ b)) (contents b') = take (Z.to_nat n) (contents b) \/
   rc = -1 /\ contents b' = contents b /\ failed b' = 1 /\ oom_from malloc_ok (calls h)).

Lemma resized_region b b' n : strbuf_ok b -> resized b b' -> strbuf_ok b' ->
  (n <= Z.to_nat (length_ b))%nat -> take n (region b') = take n (region b).
Proof.
  intros Ho Hr Ho' Hn. pose proof (resized_contents _ _ Ho Hr) as E. pose proof (rs_len _ _ Hr) as El.
  unfold contents in E. rewrite El in E. assert (n = n `min` Z.to_nat (length_ b))%nat as -> by lia.
  by rewrite <- !take_take, E.
Qed.

Lemma wp_buf_resize b h n : strbuf_wf b -> 0 <= n < 2 ^ 60 -> length_ b < 2 ^ 60 ->
  wp (strbuf_resize malloc_ok n) (b, h) (resize_post b h n).
Proof.
  intros Hb Hn Hl. unfold strbuf_resize. wp_bind. apply wp_gets. simpl. unfold u64 at 1. rewrite Z.mod_small by lia.
  wp_bind. eapply wp_mono with (P := fun rc '(b', h') => (alive h' + owned b = alive h + owned b')%nat /\
    (rc = 0 /\ resized b b' /\ strbuf_ok b' /\ (exists c, text b' = Text c) /\ n < capacity b' \/
     rc = -1 /\ b' = b /\ oom_from malloc_ok (calls h))).
  { destruct (Z.ltb_spec (capacity b) (n + 1)).
    - eapply wp_mono; [apply wp_buf_hint; [apply Hb|lia]|].
      intros rc [b' h'] (Ha & [(-> & Hr & Ho & Hc)|Hf]); (split; [done|]); [left|by right].
      split_and!; [done|done|done|..]; destruct Hc as [[Hc ->]|(_ & ? & ? & _)]; try done.
      + destruct (text b) as [| |c] eqn:E; [by destruct (ok_null _ Ho)| |by exists c].
        destruct (ok_blank _ Ho E). lia.
      + destruct (text b) as [| |c] eqn:E; [by destruct (ok_null _ Ho)| |].
        * destruct (ok_blank _ Ho E). lia.
        * destruct (ok_cap _ Ho c E). lia.
    - apply wp_ret. split; [done|left]. split_and!; [done|by split|apply Hb| |lia].
      destruct Hb as [Ho _]. destruct (text b) as [| |c] eqn:E; [by destruct (ok_null _ Ho)| |by exists c].
      destruct (ok_blank _ Ho E). lia. }
  intros rc [b1 h1] (Ha & [(-> & Hr & Ho & [c Hc] & Hcap)|(-> & -> & Ho)]); simpl.
  2: { wp_bind. apply wp_upd_buf, wp_ret. split; [done|]. split; [|by right].
       destruct Hb as [[] Hz]. by split; [split|]. }
  destruct (ok_cap _ Ho c Hc) as (E1 & E2 & E3). pose proof (pow2_le _ E2).
  destruct (cut3 c (Z.to_nat n) 1) as (l1 & mid & l2 & Ec & L1 & Lm); [lia|].
  wp_bind. apply wp_upd_buf. wp_bind. eapply wp_write_text; [done|rewrite Ec; apply write_at_app; simpl; lia|].
  set (b2 := with_text _ _). wp_bind. apply wp_gets. simpl.
  destruct (ok_cells b2 l1 (Some 0) l2 (capacity b1)) as (H1 & H2 & H3);
    [unfold b2; simpl; lia|done|done|done|rewrite <- E1, Ec, !length_app; simpl; lia|].
  specialize (H3 eq_refl).
  assert (resize_post b h n 0 (b2, h1)) as Hpost.
  { split; [unfold b2, owned in *; simpl; rewrite Hc in Ha; lia|]. split; [done|left].
    split_and!; [done|done|by rewrite <- (rs_failed _ _ Hr)|]. rewrite H2. unfold contents.
    rewrite take_take, Nat.min_comm. replace l1 with (take (Z.to_nat n) (region b1)).
    - rewrite take_take. apply resized_region; [apply Hb|done|done|lia].
    - unfold region. rewrite Hc, Ec, <- L1. apply take_app_length. }
  assert (u64 (n + 1) = n + 1) as -> by (unfold u64; rewrite Z.mod_small; lia).
  assert (u64 ((n + 1) * 4) = (n + 1) * 4) as -> by (unfold u64; rewrite Z.mod_small; lia).
  wp_bind. destruct (Z.ltb_spec ((n + 1) * 4) (capacity b1)); [|by apply wp_ret, wp_ret].
  wp_bind. eapply wp_mono; [apply wp_buf_hint; [apply H1|lia]|]. intros rc [b3 h3] (Ha3 & Hc3). apply wp_ret, wp_ret.
  destruct Hpost as (Hp1 & Hp2 & Hp3). destruct Hc3 as [(-> & Hr3 & Ho3 & _)|(-> & -> & _)].
  - split; [lia|]. assert (strbuf_wf b3) as Hw3 by (eapply resized_wf; done). split; [done|left].
    destruct Hp3 as [(_ & Hp4 & Hp5 & Hp6)|(? & _)]; [|lia].
    split_and!; [done|by rewrite (rs_len _ _ Hr3)|by rewrite (rs_failed _ _ Hr3)|].
    by rewrite (resized_contents b2 b3).
  - split; [lia|]. by split.
Qed.

Lemma wp_clear b h (Q : unit -> st -> Prop) v : strbuf_ok b -> (owned b <= alive h)%nat ->
  (forall h', (alive h' + owned b = alive h)%nat -> Q tt (mk_strbuf v 0 0 0, h')) ->
  wp (free_text;; set_buf (mk_strbuf v 0 0 0)) (b, h) Q.
Proof.
  intros Hb Ha HQ. unfold free_text. wp_bind. wp_bind. apply wp_get. cbn beta iota.
  unfold owned in *. destruct (text b) as [| |c] eqn:E.
  - by destruct (ok_null _ Hb).
  - apply wp_ret, wp_set_buf, HQ. simpl. lia.
  - unfold free. destruct (alive h) as [|k] eqn:Ek; [lia|]. wp_bind. apply wp_ret, wp_put, wp_set_buf, HQ. simpl. lia.
Qed.

(** [vsnprintf] into the room after the text. *)
Lemma wp_vsnprintf b h c str Q :
  strbuf_ok b -> text b = Text c ->
  let room := capacity b - length_ b in
  (forall b', strbuf_ok b' -> contents b' = contents b -> length_ b' = length_ b -> capacity b' = capacity b ->
    failed b' = failed b -> owned b' = owned b ->
    (Z.of_nat (List.length str) + 1 < room ->
      strbuf_wf (with_length (length_ b + Z.of_nat (List.length str)) b') /\
      contents (with_length (length_ b + Z.of_nat (List.length str)) b') = contents b ++ (Some <$> str)) ->
    Q (Z.of_nat (List.length str)) (b', h)) ->
  wp (vsnprintf (length_ b) room (Some str)) (b, h) Q.
Proof.
  intros Ho Ht room HQ. destruct (ok_cap _ Ho c Ht) as (E1 & E2 & E3). unfold vsnprintf.
  destruct (Z.ltb_spec 0 room); [|lia]. set (out := (Some <$> take (Z.to_nat (room - 1)) str) ++ [Some 0]).
  assert (Z.of_nat (List.length out) <= room) as Lo.
  { unfold out. rewrite length_app, length_fmap, length_take. simpl. lia. }
  destruct (cut3 c (Z.to_nat (length_ b)) (List.length out)) as (l1 & mid & l2 & -> & L1 & Lm); [lia|].
  assert (exists y l3, out ++ l2 = y :: l3) as (y & l3 & Ey).
  { destruct (out ++ l2) as [|y l3] eqn:Eo; [|by eexists _, _]. apply app_nil in Eo as [Eo _]. unfold out in Eo. by apply app_nil in Eo as [_ ?]. }
  assert (Z.of_nat (List.length (l1 ++ out ++ l2)) = capacity b) as Lc.
  { rewrite <- E1, !length_app. lia. }
  wp_bind. eapply wp_write_text; [done|apply write_at_app; lia|]. apply wp_ret.
  assert (contents b = l1) as Hcb.
  { unfold contents, region. rewrite Ht, <- L1. apply take_app_length. }
  set (b' := with_text _ _). destruct (ok_cells b' l1 y l3 (capacity b)) as (H1 & H2 & _).
  - unfold b'. simpl. lia.
  - unfold b'. simpl. by rewrite Ey.
  - done.
  - done.
  - by rewrite <- Ey.
  - apply HQ; try done; [by rewrite H2, Hcb|unfold b', owned; simpl; by rewrite Ht|].
    intros Hfit. assert (out = (Some <$> str) ++ [Some 0]) as Eo by (unfold out; rewrite take_ge by lia; done).
    destruct (ok_cells (with_length (length_ b + Z.of_nat (List.length str)) b') (l1 ++ (Some <$> str)) (Some 0) l2 (capacity b))
      as (_ & H3 & H4); try done.
    + simpl. rewrite length_app, length_fmap. lia.
    + unfold b'. simpl. rewrite Eo. by rewrite <- !(assoc_L (++)).
    + rewrite <- Lc, Eo. by rewrite <- !(assoc_L (++)).
    + split; [by apply H4|]. by rewrite H3, Hcb.
Qed.

Lemma oom_le n m : (n <= m)%nat -> oom_from malloc_ok m -> oom_from malloc_ok n.
Proof. intros Hn (k & Hk & Ho). exists k. split; [lia|done]. Qed.

(** An allocator that has failed at some call. *)
Definition oom_ever : Prop := oom_from malloc_ok 0.

(** What printing [str] does.  After a failure the text up to the length is as
    it was, but a part of [str] may follow it. *)
Definition printed (b : strbuf) (h : heap) (str : list Z) (rc : Z) (s : st) : Prop :=
  let '(b', h') := s in
  (alive h' + owned b = alive h + owned b')%nat /\
  (rc = Z.of_nat (List.length str) /\ strbuf_wf b' /\ contents b' = contents b ++ (Some <$> str) /\
     failed b' = failed b \/
   rc = -1 /\ strbuf_ok b' /\ contents b' = contents b /\ (b' = b \/ failed b' = 1) /\ oom_ever).

Lemma wp_vprintf b h str :
  strbuf_wf b -> 0 <= length_ b -> length_ b + Z.of_nat (List.length str) < 2 ^ 29 -> capacity b < 2 ^ 31 ->
  wp (strbuf_vprintf malloc_ok (Some str)) (b, h) (printed b h str).
Proof.
  intros Hb Hl0 Hl Hcap. unfold strbuf_vprintf. wp_bind. eapply wp_mono; [apply wp_buf_hint; [apply Hb|lia]|].
  intros rc [b1 h1] (Ha & [(-> & Hr & Ho1 & Hc)|(-> & -> & Ho)]); simpl.
  2: { apply wp_ret. split; [done|right]. split_and!; [done|apply Hb|done|by left|eapply oom_le; [|done]; lia]. }
  pose proof (resized_contents _ _ (proj1 Hb) Hr) as Hcont. destruct Hr as [Hlen Hfl _].
  assert (exists c, text b1 = Text c) as [c1 Hc1].
  { destruct Hc as [[Hx ->]|(_ & _ & Hx & _)]; [|done].
    destruct (text b) as [| |c] eqn:E; [by destruct (ok_null _ Ho1)|destruct (ok_blank _ Ho1 E); lia|by exists c]. }
  assert (capacity b1 < 2 ^ 31) as Hcap1.
  { destruct Hc as [[Hx ->]|(_ & _ & _ & Hx)]; lia. }
  apply (wp_loop (fun k _ '(b2, h2) => strbuf_ok b2 /\ contents b2 = contents b /\ length_ b2 = length_ b /\
    failed b2 = failed b /\ (exists c, text b2 = Text c) /\ capacity b2 < 2 ^ 31 /\
    (alive h2 + owned b = alive h + owned b2)%nat /\
    exists j, 5 <= j <= 31 /\ capacity b2 = 2 ^ j /\ Z.of_nat k = 31 - j))
    with (k := Z.to_nat (31 - Z.log2 (capacity b1))).
  - intros k [] [b2 h2] (Ho2 & Hcc & Hl2 & Hf2 & [c2 Ht2] & Hcap2 & Ha2 & j & Hj & Ej & Hk).
    destruct (ok_cap _ Ho2 c2 Ht2) as (E1 & E2 & E3). unfold vprintf_step.
    wp_bind. apply wp_gets. simpl.
    assert (i32 (u64 (capacity b2 - length_ b2)) = capacity b2 - length_ b2) as ->.
    { unfold u64. rewrite Z.mod_small, i32_id by lia. done. }
    wp_bind. eapply wp_vsnprintf; [done|done|]. intros b3 Ho3 Hc3 Hl3 Hcap3 Hf3 How3 Hfit.
    destruct (Z.ltb_spec (Z.of_nat (List.length str) + 1) (capacity b2 - length_ b2)) as [Hlt|Hge].
    + destruct (Hfit Hlt) as [Hw Hcw]. wp_bind. apply wp_upd_buf, wp_ret. simpl.
      assert (u64 (length_ b3 + Z.of_nat (List.length str)) = length_ b2 + Z.of_nat (List.length str)) as ->.
      { rewrite Hl3. unfold u64. rewrite Z.mod_small by lia. done. }
      split; [unfold with_length, owned in *; simpl; destruct (text b3); lia|left]. split_and!; [done|done|congruence|simpl; congruence].
    + wp_bind. apply wp_gets. simpl. rewrite Hcap3.
      assert (u64 (capacity b2 + 1) = capacity b2 + 1) as -> by (unfold u64; rewrite Z.mod_small by lia; done).
      wp_bind. eapply wp_mono; [apply wp_buf_hint; [done|lia]|].
      intros rc [b4 h4] (Ha4 & [(-> & Hr4 & Ho4 & Hc4)|(-> & -> & Hom)]); simpl.
      * apply wp_ret. destruct Hc4 as [[Hx _]|(_ & Hx & [c4 Ht4] & Hy)]; [lia|].
        pose proof (resized_contents _ _ Ho3 Hr4) as Hc4. destruct Hr4 as [Hl4 Hf4 _].
        destruct (ok_cap _ Ho4 c4 Ht4) as (_ & (j4 & Hj4 & Ej4) & _).
        assert (j < j4) by (apply (Z.pow_lt_mono_r_iff 2); lia).
        assert (capacity b4 < 2 ^ 31) by lia.
        assert (j4 < 31) by (apply (Z.pow_lt_mono_r_iff 2); lia).
        exists (Z.to_nat (31 - j4)). split; [lia|].
        split_and!; [done|congruence|congruence|congruence|by exists c4|done|lia|].
        exists j4. split_and!; [lia|lia|done|lia].
      * wp_bind. apply wp_upd_buf, wp_ret. split; [unfold with_failed, owned in *; simpl; destruct (text b3); lia|right].
        split_and!; [done|by destruct Ho3; split|by rewrite <- Hcc, <- Hc3|by right|eapply oom_le; [|done]; lia].
  - destruct (ok_cap _ Ho1 c1 Hc1) as (_ & E2 & _). pose proof (pow2_le _ E2).
    pose proof (Z.log2_nonneg (capacity b1)). lia.
  - destruct (ok_cap _ Ho1 c1 Hc1) as (_ & (j & Hj & Ej) & _).
    assert (j < 31) by (apply (Z.pow_lt_mono_r_iff 2); lia).
    split_and!; [done|done|done|done|by exists c1|done|lia|].
    exists j. rewrite Ej, Z.log2_pow2 by lia. split_and!; [lia|lia|done|lia].
Qed.

(** * The buffer as a string under construction *)

(** What an appending function promises: the text grows by [bs] and the result
    says so, or the result is -1 for want of memory and the text is the old one.
    The value of [failed] after a failure, which the functions set in one case
    only, and the terminator after a failed [strbuf_printf] are not part of it. *)
Definition grown (success : Z -> Prop) (intact : strbuf -> Prop) (b : strbuf) (h : heap) (bs : list Z) (rc : Z) (s : st) : Prop :=
  let '(b', h') := s in
  (alive h' + owned b = alive h + owned b')%nat /\
  (success rc /\ strbuf_wf b' /\ contents b' = contents b ++ (Some <$> bs) \/
   rc = -1 /\ intact b' /\ contents b' = contents b /\ oom_ever).

Lemma appended_grown (success : Z -> Prop) b h bs rc s : strbuf_wf b ->
  success (Z.of_nat (List.length bs)) -> appended b h bs rc s -> grown success strbuf_wf b h bs rc s.
Proof.
  destruct s as [b' h']. intros Hb Hs [Ha [(-> & Hw & Hc & _)|(-> & -> & k & _ & Hk)]]; (split; [done|]); [by left|right].
  split_and!; [done..|]. exists k. by split; [lia|].
Qed.

Lemma printed_grown b h bs rc s : printed b h bs rc s ->
  grown (fun rc => rc = Z.of_nat (List.length bs)) strbuf_ok b h bs rc s.
Proof.
  destruct s as [b' h']. intros [Ha [(-> & Hw & Hc & _)|(-> & Hw & Hc & _ & Ho)]]; (split; [done|]); [by left|by right].
Qed.

End strbuf.

(** ** Examples *)
Definition ok_mem (n : nat) : bool := true.
Definition ex_heap : heap := mk_heap 0 1.
Definition ex_buf : strbuf :=
  mk_strbuf (Text ((Some <$> [104; 105; 0]) ++ replicate 29 None)) 2 32 0.

Lemma ex_buf_wf : strbuf_wf ex_buf.
Proof.
  split; [split|]; try done.
  - intros c [= <-]. split_and!; [done|by exists 5|simpl; lia|simpl; lia].
  - intros c [= <-]. done.
Qed.


(** An allocator that fails from its second call on. *)
Definition one_shot (n : nat) : bool := Nat.eqb n 0.
Definition empty_buf : strbuf := mk_strbuf Blank 0 0 0.

(** A failed [strbuf_add_string] leaves [failed] clear. *)
Example add_string_failed_clear :
  strbuf_add_string (fun _ => false) [33] 1 (empty_buf, mk_heap 0 0) = Ok ((empty_buf, mk_heap 1 0), -1).
Proof. reflexivity. Qed.

(** A preallocation is given back by the next character, which can then fail. *)
Example reserve_not_kept :
  match bind (strbuf_capacity_hint one_shot 100) (fun rc => bind (strbuf_add_char one_shot 65)
    (fun rc' => ret (rc, rc'))) (empty_buf, mk_heap 0 0) with
  | Ok ((b, _), r) => r = (0, -1) /\ capacity b = 128
  | _ => False
  end.
Proof. vm_compute. done. Qed.

(** [strbuf_add_char] returns 1, the number of characters, not 0. *)
Example add_char_returns_one :
  match strbuf_add_char ok_mem 65 (empty_buf, mk_heap 0 0) with Ok (_, r) => r = 1 | _ => False end.
Proof. vm_compute. done. Qed.

(** When [vsnprintf] fails, the length wraps below 0. *)
Example printf_error_length :
  match strbuf_printf ok_mem None (empty_buf, mk_heap 0 0) with
  | Ok ((b, _), r) => r = -1 /\ length_ b = 2 ^ 64 - 1
  | _ => False
  end.
Proof. vm_compute. done. Qed.

(** After a failed [strbuf_printf] the text is not terminated at its length. *)
Example printf_failed_unterminated :
  match strbuf_printf (fun _ => false) (Some (replicate 40 65)) (ex_buf, ex_heap) with
  | Ok ((b, _), r) => r = -1 /\ length_ b = 2 /\ region b !! 2%nat = Some (Some 65)
  | _ => False
  end.
Proof. vm_compute. done. Qed.
