(* ===== verification/Vector.v ===== *)
(** Model of src/vector.h and src/vector.c (flexible arrays), and its
    correctness.  [unsigned int] arithmetic wraps modulo 2^32; an [int] operation
    that overflows is an error, and so is an access outside the region. *)
From S2P Require Import Prelude Heap.

Record vector := mk_vector {
  ptr : option cells;
  elemsize : Z;
  capacity : Z;
  size : Z;
}.

Abbreviation st := (vector * heap)%type.

Definition get_vec : M st vector := gets fst.
Definition set_vec (v : vector) : M st unit := modify (fun s => (v, s.2)).

(** The result of an [int] operation. *)
Definition int_ok {S} (x : Z) : M S Z :=
  if (- 2 ^ 31 <=? x) && (x <? 2 ^ 31) then ret x else crash.

Definition vector_init (elemsize : Z) : M st unit := set_vec (mk_vector None elemsize 0 0).

Definition vector_clear : M st unit :=
  ' (v, h) ← get;
  (match ptr v with
   | Some _ => h ← need (free h); put (v, h)
   | None => ret tt
   end);;
  set_vec (mk_vector None (elemsize v) 0 0).

Definition vector_destroy : M st unit :=
  vector_clear;; set_vec (mk_vector None 0 0 0).

(** [while (cap & (cap - 1)) cap &= (cap - 1);]: each round clears a bit. *)
Definition clear_bit_step (cap : Z) : M st (Z + Z) :=
  c1 ← int_ok (cap - 1);
  if truth (Z.land cap c1) then ret (inl (Z.land cap c1)) else ret (inr cap).

Definition cap_for (needed : Z) : M st Z :=
  cap ← loop 33 clear_bit_step (i32 needed);
  cap ← (if u32 cap <? needed then int_ok (Z.shiftl cap 1) else ret cap);
  ret (if cap <? 8 then 8 else cap).

Section vector.
Context (malloc_ok : nat -> bool).

Definition size_for (needed : Z) : M st Z :=
  cap ← cap_for needed;
  v ← get_vec;
  cap2 ← int_ok (cap * 2);
  if (u32 cap <=? capacity v) && (capacity v <=? u32 cap2) then ret 0
  else
    ' (v, h) ← get;
    let n := u32 (u32 cap * elemsize v) in
    let '(h, new_ptr) :=
      match ptr v with
      | Some c => realloc malloc_ok c n h
      | None => malloc malloc_ok n h
      end in
    put (v, h);;
    match new_ptr with
    | None => if needed <=? capacity v then ret 0 else ret (-1)
    | Some c => set_vec (mk_vector (Some c) (elemsize v) (u32 cap) (size v));; ret 0
    end.

Definition vector_resize (new_size : Z) : M st Z :=
  rc ← size_for new_size;
  if rc <? 0 then ret (-1)
  else
    v ← get_vec;
    set_vec (mk_vector (ptr v) (elemsize v) (capacity v) new_size);;
    ret 0.

(** [data] is the area the elements come from. *)
Definition vector_push (data : cells) (count : Z) : M st Z :=
  v ← get_vec;
  let needed := i32 (u32 (size v + count)) in
  rc ← size_for (u32 needed);
  if rc <? 0 then ret (-1)
  else
    v ← get_vec;
    bs ← need (read_at 0 (u32 (count * elemsize v)) data);
    c ← need (ptr v);
    c ← need (write_at (u32 (size v * elemsize v)) bs c);
    set_vec (mk_vector (Some c) (elemsize v) (capacity v) (u32 (size v + count)));;
    ret 0.

Definition vector_pop (count : Z) : M st unit :=
  v ← get_vec;
  let count := if size v <? count then size v else count in
  _ ← vector_resize (u32 (size v - count));
  ret tt.
End vector.

(** * The capacity *)

Lemma land_pred_low c k : 0 <= k -> 0 < c -> (2 ^ k | c) -> (2 ^ (k + 1) | Z.land c (c - 1)).
Proof.
  intros Hk Hc [m Hm]. apply Z.mod_divide; [apply Z.pow_nonzero; lia|].
  apply Z.bits_inj'. intros n Hn. rewrite Z.bits_0. destruct (Z.ltb_spec n (k + 1)).
  2: { by rewrite Z.mod_pow2_bits_high by lia. }
  rewrite Z.mod_pow2_bits_low, Z.land_spec by lia. rewrite Hm, Z.mul_comm.
  assert (Z.testbit (2 ^ k * m) n = Z.testbit (0 + 2 ^ k * m) n) as -> by done.
  assert (0 < 2 ^ k) by (apply Z.pow_pos_nonneg; lia).
  rewrite testbit_join by lia. destruct (Z.ltb_spec n k); [by rewrite Z.bits_0|].
  replace (2 ^ k * m - 1) with ((2 ^ k - 1) + 2 ^ k * (m - 1)) by ring.
  rewrite testbit_join by lia. destruct (Z.ltb_spec n k); [lia|].
  replace (n - k) with 0 by lia. rewrite !Z.bit0_odd, Z.odd_sub. by destruct (Z.odd m).
Qed.

(** [c & (c - 1)] keeps the top bit, and is 0 exactly for a power of two. *)
Lemma land_pred_top c : 0 < c ->
  (Z.land c (c - 1) = 0 -> c = 2 ^ Z.log2 c) /\
  (Z.land c (c - 1) <> 0 -> 0 < Z.land c (c - 1) /\ Z.log2 (Z.land c (c - 1)) = Z.log2 c).
Proof.
  intros Hc. pose proof (Z.log2_spec c Hc) as [H1 H2]. rewrite Z.pow_succ_r in H2 by apply Z.log2_nonneg.
  pose proof (Z.log2_nonneg c) as H0.
  assert (forall x, 2 ^ Z.log2 c <= x < 2 * 2 ^ Z.log2 c -> Z.testbit x (Z.log2 c) = true) as Ht.
  { intros x Hx. assert (Z.log2 x = Z.log2 c) as <- by (apply Z.log2_unique; [done|rewrite Z.pow_succ_r by done; lia]).
    apply Z.bit_log2. lia. }
  assert (0 <= Z.land c (c - 1)) as Hp by (apply Z.land_nonneg; lia).
  destruct (decide (c = 2 ^ Z.log2 c)) as [E|E].
  - split; [done|]. intros Hn. destruct Hn. rewrite E.
    replace (2 ^ Z.log2 c - 1) with (Z.ones (Z.log2 c)) by (rewrite Z.ones_equiv; lia).
    rewrite Z.land_ones by done. apply Z_mod_same_full.
  - assert (Z.testbit (Z.land c (c - 1)) (Z.log2 c) = true) as Hb.
    { rewrite Z.land_spec, !Ht by lia. done. }
    split; [intros Hz; by rewrite Hz, Z.bits_0 in Hb|]. intros Hn. split; [lia|].
    pose proof (Z.log2_land c (c - 1) ltac:(lia) ltac:(lia)).
    assert (~ Z.log2 (Z.land c (c - 1)) < Z.log2 c); [|lia].
    intros Hl. by rewrite Z.bits_above_log2 in Hb by lia.
Qed.

Lemma wp_int_ok {S} x (s : S) Q : - 2 ^ 31 <= x < 2 ^ 31 -> Q x s -> wp (int_ok x) s Q.
Proof.
  intros Hx HQ. unfold int_ok. destruct (Z.leb_spec (- 2 ^ 31) x), (Z.ltb_spec x (2 ^ 31)); done || lia.
Qed.

(** The loop leaves the top bit alone. *)
Lemma wp_clear_bits c (s : st) : 0 < c <= 2 ^ 30 ->
  wp (loop 33 clear_bit_step c) s (fun r s' => s' = s /\ r = 2 ^ Z.log2 c).
Proof.
  intros Hc. assert (Z.log2 c <= 30) as Hlog by (apply (Z.log2_le_mono c (2 ^ 30)); lia).
  apply (wp_loop (fun k d s' => s' = s /\ 0 < d < 2 ^ 31 /\ Z.log2 d = Z.log2 c /\
    exists j, 0 <= j /\ (2 ^ j | d) /\ (Z.of_nat k = 31 - j)%Z)) with (k := 31%nat).
  - intros k d s' (-> & Hd & El & j & Hj & Hdiv & Hk). unfold clear_bit_step.
    wp_bind. apply wp_int_ok; [lia|]. destruct (land_pred_top d) as [T1 T2]; [lia|].
    unfold truth. destruct (Z.eqb_spec (Z.land d (d - 1)) 0) as [E|E]; simpl; apply wp_ret.
    + split; [done|]. rewrite <- El. by apply T1.
    + destruct (T2 E) as [Hp Hlg]. pose proof (land_pred_low d j Hj ltac:(lia) Hdiv) as Hd2.
      assert (2 ^ (j + 1) <= Z.land d (d - 1)) as Hge by (apply Z.divide_pos_le; [lia|done]).
      assert (j + 1 <= 30) as Hj2.
      { rewrite <- (Z.log2_pow2 (j + 1)) by lia. rewrite <- Hlog, <- El, <- Hlg. by apply Z.log2_le_mono. }
      exists (k - 1)%nat. split; [lia|]. split_and!; [done|lia| |congruence|exists (j + 1); split_and!; [lia|done|lia]].
      apply Z.log2_lt_pow2; [lia|]. lia.
  - lia.
  - split_and!; [done|lia|lia|done|]. exists 0. split_and!; [lia|apply Z.divide_1_l|lia].
Qed.

(** The capacity for [n] elements: a power of two, or 8. *)
Lemma wp_cap_for n (s : st) : 0 <= n <= 2 ^ 29 ->
  wp (cap_for n) s (fun c s' => s' = s /\ n <= c /\ 8 <= c <= Z.max 8 (2 * n)).
Proof.
  intros Hn. unfold cap_for. wp_bind.
  assert (i32 n = n) as -> by (unfold i32; rewrite Z.mod_small; lia).
  destruct (decide (n = 0)) as [->|Hne].
  { change (loop 33 clear_bit_step 0) with (bind (clear_bit_step 0) (fun r : Z + Z => match r with
      | inl a => loop 32 clear_bit_step a | inr b => ret b end)).
    wp_bind. unfold clear_bit_step. wp_bind. apply wp_int_ok; [lia|]. apply wp_ret, wp_ret.
    wp_bind. apply wp_ret, wp_ret. split; [done|]. simpl. lia. }
  eapply wp_mono; [apply wp_clear_bits; lia|]. intros c s' [-> ->].
  pose proof (Z.log2_spec n ltac:(lia)) as [H1 H2]. rewrite Z.pow_succ_r in H2 by apply Z.log2_nonneg.
  unfold u32. rewrite Z.mod_small by lia. wp_bind.
  destruct (Z.ltb_spec (2 ^ Z.log2 n) n); [apply wp_int_ok|apply wp_ret]; rewrite ?Z.shiftl_mul_pow2 by lia; [lia|apply wp_ret..];
    split; try done; match goal with |- context [?x <? 8] => destruct (Z.ltb_spec x 8) end; lia.
Qed.

(** * Contents *)
Definition bytes_of (v : vector) (n : Z) : nat := Z.to_nat (n * elemsize v).
Definition region (v : vector) : cells := default [] (ptr v).
Definition contents (v : vector) : cells := take (bytes_of v (size v)) (region v).
Definition owned (v : vector) : nat := match ptr v with Some _ => 1 | None => 0 end.

Record vector_wf (v : vector) : Prop := {
  vw_elem : 0 < elemsize v;
  vw_len : Z.of_nat (length (region v)) = capacity v * elemsize v;
  vw_size : 0 <= size v <= capacity v;
  vw_bytes : capacity v * elemsize v < 2 ^ 32;
}.

(** [n] elements of [v], with the slack the capacity may have, fit in 32 bits. *)
Definition fits (v : vector) (n : Z) : Prop := 0 <= n <= 2 ^ 28 /\ Z.max 8 (2 * n) * elemsize v < 2 ^ 32.

Section vector.
Context (malloc_ok : nat -> bool).

(** [v'] is [v] with the capacity changed to hold [n] elements. *)
Record grown (v v' : vector) (n : Z) : Prop := {
  gr_elem : elemsize v' = elemsize v;
  gr_size : size v' = size v;
  gr_cap : n <= capacity v';
  gr_len : Z.of_nat (length (region v')) = capacity v' * elemsize v';
  gr_bytes : capacity v' * elemsize v' < 2 ^ 32;
  gr_ptr : 0 < n -> is_Some (ptr v');
  gr_cells : forall k, 0 <= k <= n -> k <= size v -> take (bytes_of v k) (region v') = take (bytes_of v k) (region v);
}.

Lemma wp_size_for v h n : vector_wf v -> fits v n ->
  wp (size_for malloc_ok n) (v, h) (fun rc '(v', h') =>
    (alive h' + owned v = alive h + owned v')%nat /\
    (rc = 0 /\ grown v v' n \/
     rc = -1 /\ v' = v /\ capacity v < n /\ oom_from malloc_ok (calls h))).
Proof.
  intros [W1 W2 W3 W4] [Hn Hf]. unfold size_for. wp_bind. eapply wp_mono; [apply wp_cap_for; lia|].
  intros c s' (-> & Hc1 & Hc2). wp_bind. apply wp_gets. simpl. wp_bind. apply wp_int_ok; [lia|].
  assert (u32 c = c) as -> by (unfold u32; rewrite Z.mod_small; lia).
  assert (is_Some (ptr v) \/ ptr v = None /\ capacity v = 0) as Hp.
  { unfold region in W2. destruct (ptr v); [eauto|right]. simpl in W2. split; [done|nia]. }
  assert (capacity v >= n -> (0 < n -> is_Some (ptr v)) -> grown v v n) as Hsame.
  { intros ? ?. by split; try done; lia. }
  destruct ((c <=? capacity v) && (capacity v <=? u32 (c * 2))) eqn:Et.
  { apply andb_true_iff in Et as [E1%Z.leb_le _]. apply wp_ret. split; [done|left]. split; [done|].
    apply Hsame; [lia|]. destruct Hp as [|[_ ?]]; [done|lia]. }
  wp_bind. apply wp_get. cbn beta iota.
  assert (c * elemsize v < 2 ^ 32) as Hce.
  { pose proof (Z.mul_le_mono_nonneg_r c (Z.max 8 (2 * n)) (elemsize v)). lia. }
  assert (u32 (c * elemsize v) = c * elemsize v) as -> by (unfold u32; rewrite Z.mod_small; nia).
  assert (forall cl, length cl = Z.to_nat (c * elemsize v) ->
    (forall k, 0 <= k <= n -> k <= size v -> take (bytes_of v k) cl = take (bytes_of v k) (region v)) ->
    grown v (mk_vector (Some cl) (elemsize v) c (size v)) n) as Hg.
  { intros cl Hl Ht. split; simpl; try done; try nia. unfold region. simpl. nia. }
  unfold owned. destruct (ptr v) as [cl|] eqn:Ep.
  - unfold realloc. destruct (malloc_ok (calls h)) eqn:Em; wp_bind; apply wp_put.
    + wp_bind. apply wp_modify, wp_ret. simpl. split; [lia|left]. split; [done|].
      apply Hg; [by rewrite length_resize|]. intros k Hk Hks. unfold region in *. rewrite Ep in *. simpl in *.
      apply take_resize_le; unfold bytes_of; nia.
    + destruct (Z.leb_spec n (capacity v)); apply wp_ret.
      * simpl. rewrite Ep. split; [done|left]. split; [done|]. apply Hsame; [lia|]. eauto.
      * simpl. rewrite Ep. split; [done|right]. split_and!; [done|done|lia|by exists (calls h)].
  - destruct Hp as [[? ?]|[_ Hz]]; [done|]. unfold malloc. destruct (malloc_ok (calls h)) eqn:Em; wp_bind; apply wp_put.
    + wp_bind. apply wp_modify, wp_ret. simpl. split; [lia|left]. split; [done|].
      apply Hg; [apply length_replicate|]. intros k Hk Hks. replace k with 0 by lia. done.
    + destruct (Z.leb_spec n (capacity v)) as [Hle|Hgt]; apply wp_ret; simpl; rewrite Ep.
      * split; [done|left]. split; [done|]. apply Hsame; lia.
      * split; [done|right]. split_and!; [done|done|lia|by exists (calls h)].
Qed.

Lemma grown_wf v v' n m : vector_wf v -> grown v v' n -> 0 <= m <= capacity v' ->
  vector_wf (mk_vector (ptr v') (elemsize v') (capacity v') m).
Proof. intros [] []. split; simpl; unfold region in *; simpl; try done; lia. Qed.

Lemma wp_vec_resize v h n : vector_wf v -> fits v n ->
  wp (vector_resize malloc_ok n) (v, h) (fun rc '(v', h') =>
    (alive h' + owned v = alive h + owned v')%nat /\
    (rc = 0 /\ vector_wf v' /\ size v' = n /\ elemsize v' = elemsize v /\
       (forall k, 0 <= k <= n -> k <= size v -> take (bytes_of v k) (contents v') = take (bytes_of v k) (contents v)) \/
     rc = -1 /\ v' = v /\ capacity v < n /\ oom_from malloc_ok (calls h))).
Proof.
  intros Hw Hf. unfold vector_resize. wp_bind. eapply wp_mono; [by apply wp_size_for|].
  intros rc [v1 h1] (Ha & [[-> Hg]|(-> & -> & Hc & Ho)]); simpl.
  - wp_bind. apply wp_gets. simpl. wp_bind. apply wp_modify, wp_ret. simpl. split; [done|left].
    destruct Hf as [Hn _]. split_and!; [done| |done|apply Hg|].
    + eapply grown_wf; [done|done|]. destruct Hg; lia.
    + intros k Hk Hs. destruct Hw, Hg. unfold contents. simpl. rewrite !take_take.
      unfold bytes_of in *. simpl. rewrite gr_elem0.
      rewrite !Nat.min_l by nia. unfold region in *. simpl. by apply gr_cells0.
  - apply wp_ret. split; [done|right]. by split_and!.
Qed.

Lemma wp_push v h data count bs : vector_wf v -> 0 < count -> fits v (size v + count) ->
  read_at 0 (count * elemsize v) data = Some bs ->
  wp (vector_push malloc_ok data count) (v, h) (fun rc '(v', h') =>
    (alive h' + owned v = alive h + owned v')%nat /\
    (rc = 0 /\ vector_wf v' /\ size v' = size v + count /\ contents v' = contents v ++ bs \/
     rc = -1 /\ v' = v /\ oom_from malloc_ok (calls h))).
Proof.
  intros Hw Hc Hf Hr. pose proof Hw as [W1 W2 W3 W4]. pose proof Hf as [Hn Hm].
  assert (Z.of_nat (length bs) = count * elemsize v) as Lb.
  { revert Hr. unfold read_at. destruct (_ && _) eqn:E; [|done]. intros [= <-].
    apply andb_true_iff in E as [E E3%Z.leb_le]. rewrite length_take, length_drop. nia. }
  unfold vector_push. wp_bind. apply wp_gets. simpl.
  assert (u32 (size v + count) = size v + count) as Hu by (unfold u32; rewrite Z.mod_small; lia).
  assert (i32 (size v + count) = size v + count) as Hi by (unfold i32; rewrite Z.mod_small; lia).
  rewrite Hu, Hi, Hu. wp_bind. eapply wp_mono; [by apply wp_size_for|].
  intros rc [v1 h1] (Ha & [[-> Hg]|(-> & -> & _ & Ho)]); simpl.
  2: { apply wp_ret. split; [done|right]. by split_and!. }
  pose proof Hg as [G1 G2 G3 G4 G5 G6 G7]. wp_bind. apply wp_gets. simpl.
  assert (count * elemsize v < 2 ^ 32) as Hce by nia.
  rewrite G1. assert (u32 (count * elemsize v) = count * elemsize v) as -> by (unfold u32; rewrite Z.mod_small; nia).
  wp_bind. eapply wp_need; [exact Hr|]. destruct G6 as [cl Hcl]; [lia|].
  wp_bind. eapply wp_need; [exact Hcl|].
  assert (u32 (size v1 * elemsize v) = size v * elemsize v) as -> by (rewrite G2; unfold u32; rewrite Z.mod_small; nia).
  assert (Z.of_nat (length cl) = capacity v1 * elemsize v) as Lc.
  { unfold region in G4. rewrite Hcl in G4. simpl in G4. by rewrite G4, G1. }
  destruct (cut3 cl (Z.to_nat (size v * elemsize v)) (length bs)) as (l1 & mid & l2 & -> & L1 & Lm); [nia|].
  wp_bind. eapply wp_need; [apply write_at_app; lia|].
  assert (u32 (size v1 + count) = size v + count) as -> by by rewrite G2.
  wp_bind. apply wp_modify, wp_ret. simpl. split; [unfold owned in *; simpl; rewrite Hcl in Ha; lia|left].
  split; [done|]. split; [|split; [done|]].
  - split; unfold region; simpl; [done| |lia|by rewrite <- G1].
    rewrite <- Lc, !length_app. lia.
  - unfold contents at 1, bytes_of, region. simpl. rewrite (assoc_L (++)), take_app_le, take_ge.
    + f_equal. specialize (G7 (size v) ltac:(lia) ltac:(lia)). unfold contents. rewrite <- G7.
      unfold region, bytes_of. rewrite Hcl. simpl. by rewrite <- L1, take_app_length.
    + rewrite length_app. nia.
    + rewrite length_app. nia.
Qed.

Lemma wp_pop v h count : vector_wf v -> 0 <= count -> fits v (size v) ->
  wp (vector_pop malloc_ok count) (v, h) (fun _ '(v', h') =>
    (alive h' + owned v = alive h + owned v')%nat /\ vector_wf v' /\
    size v' = size v - Z.min count (size v) /\ contents v' = take (bytes_of v (size v')) (contents v)).
Proof.
  intros Hw Hc [Hn Hf]. pose proof Hw as [W1 W2 W3 W4]. unfold vector_pop. wp_bind. apply wp_gets. simpl.
  set (c := if size v <? count then size v else count).
  assert (c = Z.min count (size v)) as E by (unfold c; destruct (Z.ltb_spec (size v) count); lia).
  assert (u32 (size v - c) = size v - c) as -> by (unfold u32; rewrite Z.mod_small; lia).
  assert (fits v (size v - c)) as Hf2.
  { split; [lia|]. pose proof (Z.mul_le_mono_nonneg_r (Z.max 8 (2 * (size v - c))) (Z.max 8 (2 * size v)) (elemsize v)). lia. }
  wp_bind. eapply wp_mono; [by apply wp_vec_resize|].
  intros rc [v1 h1] (Ha & [(-> & Hw1 & Hs & He & Hk)|(_ & _ & ? & _)]); [|lia]. apply wp_ret.
  split_and!; [done|done|lia|].
  rewrite Hs, <- Hk by lia. unfold contents. rewrite take_take. unfold bytes_of. by rewrite Hs, He, Nat.min_id.
Qed.

(** C30. A vector is a sequence of elements of [elemsize] bytes: on a well-formed
    vector, as long as the sizes in bytes fit in 32 bits, [vector_push] appends
    the elements it is given, [vector_pop] drops as many as it is told, at most
    all, and never fails, [vector_resize] keeps the elements up to the shorter
    length; the result is well formed: the region has the size of the capacity,
    which is at least the size.  When [realloc] fails, [vector_push] and
    [vector_resize] return -1 with the vector unchanged.  No memory is lost, and
    [vector_clear] gives back all of it. *)
Theorem vector_sequence v h :
  vector_wf v -> (owned v <= alive h)%nat ->
  (forall data count bs, 0 < count -> fits v (size v + count) ->
    read_at 0 (count * elemsize v) data = Some bs ->
    wp (vector_push malloc_ok data count) (v, h) (fun rc '(v', h') =>
      (alive h' + owned v = alive h + owned v')%nat /\
      (rc = 0 /\ vector_wf v' /\ size v' = size v + count /\ contents v' = contents v ++ bs \/
       rc = -1 /\ v' = v /\ oom_from malloc_ok (calls h)))) /\
  (forall count, 0 <= count -> fits v (size v) ->
    wp (vector_pop malloc_ok count) (v, h) (fun _ '(v', h') =>
      (alive h' + owned v = alive h + owned v')%nat /\ vector_wf v' /\
      size v' = size v - Z.min count (size v) /\ contents v' = take (bytes_of v (size v')) (contents v))) /\
  (forall n, fits v n ->
    wp (vector_resize malloc_ok n) (v, h) (fun rc '(v', h') =>
      (alive h' + owned v = alive h + owned v')%nat /\
      (rc = 0 /\ vector_wf v' /\ size v' = n /\ elemsize v' = elemsize v /\
         (forall k, 0 <= k <= n -> k <= size v ->
            take (bytes_of v k) (contents v') = take (bytes_of v k) (contents v)) \/
       rc = -1 /\ v' = v /\ capacity v < n /\ oom_from malloc_ok (calls h)))) /\
  wp vector_clear (v, h) (fun _ '(v', h') => vector_wf v' /\ contents v' = [] /\ size v' = 0 /\
    elemsize v' = elemsize v /\ (alive h' + owned v = alive h)%nat).
Proof.
  intros Hw Ho. split_and!.
  - intros. by apply wp_push.
  - intros. by apply wp_pop.
  - intros. by apply wp_vec_resize.
  - unfold vector_clear. wp_bind. apply wp_get. cbn beta iota. destruct Hw.
    assert (vector_wf (mk_vector None (elemsize v) 0 0)) by (split; simpl; lia).
    wp_bind. unfold owned in *. destruct (ptr v) eqn:E.
    + unfold free. destruct (alive h) as [|k] eqn:Ek; [lia|]. wp_bind. apply wp_ret, wp_put, wp_modify.
      split_and!; try done. simpl. lia.
    + apply wp_ret, wp_modify. split_and!; try done.
Qed.
End vector.

(** ** Examples *)
Definition vec_mem (n : nat) : bool := true.
Definition ex_vec : vector := mk_vector (Some (Some <$> seqZ 0 16)) 2 8 3.

Lemma vector_sequence_witness :
  vector_wf ex_vec /\
  wp (vector_push vec_mem (Some <$> [90; 91; 92; 93; 94; 95]) 2) (ex_vec, mk_heap 0 1) (fun rc '(v', _) =>
    rc = 0 /\ vector_wf v' /\ contents v' = Some <$> [0; 1; 2; 3; 4; 5; 90; 91; 92; 93]) /\
  wp (vector_pop vec_mem 2) (ex_vec, mk_heap 0 1) (fun _ '(v', _) =>
    vector_wf v' /\ contents v' = Some <$> [0; 1]).
Proof.
  assert (W : vector_wf ex_vec) by (split; simpl; lia).
  destruct (vector_sequence vec_mem ex_vec (mk_heap 0 1) W ltac:(apply Nat.le_refl)) as (H1 & H2 & _).
  split_and!; [exact W| |].
  - eapply wp_mono; [apply (H1 (Some <$> [90; 91; 92; 93; 94; 95]) 2 (Some <$> [90; 91; 92; 93])); [lia|split; simpl; lia|reflexivity]|].
    intros rc [v' h'] (_ & [(-> & Hw & _ & ->)|(_ & _ & k & _ & E)]); [|discriminate].
    split_and!; [reflexivity|exact Hw|vm_compute; reflexivity].
  - eapply wp_mono; [apply (H2 2); [lia|split; simpl; lia]|].
    intros _ [v' h'] (_ & Hw & E & ->). split; [exact Hw|]. rewrite E. vm_compute. reflexivity.
Defined.
