(* ===== verification/Thr.v ===== *)
(** Model of src/io/thr.h and src/io/thr.c (POSIX branch): event variables on top
    of a mutex and a condition variable.

    The mutex makes each critical section one step.  Threads inside
    [thr_event_wait] are counted by where they are: about to test the state, or
    blocked in [pthread_cond_wait]; threads inside [thr_event_raise] are counted
    while they still owe a [pthread_cond_signal].  A blocked thread may also wake
    spuriously, as POSIX allows. *)
From S2P Require Import Prelude.

Record event := mk_event {
  state : bool;
  testing : nat;  (** about to test [state] *)
  blocked : nat;  (** in [pthread_cond_wait] *)
  signals : nat;  (** [pthread_cond_signal]s still to come *)
}.

Definition thr_event_init : event := mk_event false 0 0 0.

(** The critical section of [thr_event_raise]. *)
Definition thr_event_raise (e : event) : event :=
  mk_event true (testing e) (blocked e) (if state e then signals e else Datatypes.S (signals e)).

(** [pthread_cond_signal]: one blocked thread, if there is one, goes back to
    its test. *)
Definition cond_signal (e : event) : event :=
  match blocked e with
  | O => mk_event (state e) (testing e) 0 (pred (signals e))
  | Datatypes.S b => mk_event (state e) (Datatypes.S (testing e)) b (pred (signals e))
  end.

Definition thr_event_clear (e : event) : event :=
  mk_event false (testing e) (blocked e) (signals e).

(** A thread enters [thr_event_wait]. *)
Definition wait_enter (e : event) : event :=
  mk_event (state e) (Datatypes.S (testing e)) (blocked e) (signals e).

(** Its test: the wait is over, or the thread blocks. *)
Definition thr_event_wait (e : event) : event :=
  if state e
  then mk_event (state e) (pred (testing e)) (blocked e) (signals e)
  else mk_event (state e) (pred (testing e)) (Datatypes.S (blocked e)) (signals e).

(** [pthread_cond_timedwait] gives up: [thr_event_wait_timeout] returns -1. *)
Definition wait_timed_out (e : event) : event :=
  mk_event (state e) (testing e) (pred (blocked e)) (signals e).

(** The absolute time [thr_event_wait_timeout] waits until, as seconds and
    nanoseconds, from [gettimeofday] (C division truncates). *)
Definition wait_deadline (tv_sec tv_usec timeout_ms : Z) : Z * Z :=
  let sec := tv_sec + Z.quot timeout_ms 1000 in
  let nsec := tv_usec * 1000 + Z.rem timeout_ms 1000 * 1000000 in
  if 1000000000 <=? nsec then (sec + 1, nsec - 1000000000) else (sec, nsec).

Lemma wait_deadline_spec tv_sec tv_usec timeout_ms :
  0 <= tv_usec < 1000000 -> 0 <= timeout_ms ->
  let '(sec, nsec) := wait_deadline tv_sec tv_usec timeout_ms in
  0 <= nsec < 1000000000 /\
  sec * 1000000000 + nsec = (tv_sec * 1000000 + tv_usec) * 1000 + timeout_ms * 1000000.
Proof.
  intros Hu Ht. unfold wait_deadline. rewrite Z.quot_div_nonneg, Z.rem_mod_nonneg by lia.
  pose proof (Z.div_mod timeout_ms 1000 ltac:(lia)). pose proof (Z.mod_pos_bound timeout_ms 1000 ltac:(lia)).
  destruct (Z.leb_spec 1000000000 (tv_usec * 1000 + timeout_ms mod 1000 * 1000000)); lia.
Qed.

Inductive ev_step : event -> event -> Prop :=
  | ev_raise e : ev_step e (thr_event_raise e)
  | ev_signal e : (0 < signals e)%nat -> ev_step e (cond_signal e)
  | ev_clear e : ev_step e (thr_event_clear e)
  | ev_enter e : ev_step e (wait_enter e)
  | ev_test e : (0 < testing e)%nat -> ev_step e (thr_event_wait e)
  | ev_spurious e : (0 < blocked e)%nat ->
      ev_step e (mk_event (state e) (Datatypes.S (testing e)) (pred (blocked e)) (signals e))
  | ev_timeout e : (0 < blocked e)%nat -> ev_step e (wait_timed_out e).

(** Runs in which at most [k] threads wait at a time. *)
Inductive ev_reach (k : nat) : event -> Prop :=
  | ev_start : ev_reach k thr_event_init
  | ev_next e e' : ev_reach k e -> ev_step e e' -> (testing e' + blocked e' <= k)%nat -> ev_reach k e'.

Lemma ev_wakeup_invariant e : ev_reach 1 e ->
  (testing e + blocked e <= 1)%nat /\ (state e = true -> (0 < blocked e)%nat -> (0 < signals e)%nat).
Proof.
  induction 1 as [|e e' _ [IH1 IH2] Hs Hk]; [simpl; lia|]. split; [done|].
  inversion Hs; subst; simpl in *.
  - destruct (state e); [by apply IH2|lia].
  - unfold cond_signal in *. destruct (blocked e) as [|[|b]] eqn:E; simpl in *; intros; lia.
  - done.
  - intros. lia.
  - unfold thr_event_wait in *. destruct (state e) eqn:E; simpl in *; [|done]. intros. by apply IH2.
  - intros. lia.
  - unfold wait_timed_out in *. simpl in *. intros. lia.
Qed.

(** C31. With one waiting thread, as every event of the library has, no wakeup is
    lost: whenever the event is raised and the thread is still blocked, a
    signal that will wake it is on its way, in every interleaving of raising,
    clearing, waiting and spurious wakeups.  A blocked thread that gets the signal
    returns to its test, and the test of a raised event ends the wait. *)
Theorem event_wakes_waiter e :
  ev_reach 1 e ->
  (state e = true -> (0 < blocked e)%nat -> (0 < signals e)%nat /\
    testing (cond_signal e) = 1%nat /\ blocked (cond_signal e) = 0%nat /\
    testing (thr_event_wait (cond_signal e)) = 0%nat /\ blocked (thr_event_wait (cond_signal e)) = 0%nat).
Proof.
  intros He Hs Hb. destruct (ev_wakeup_invariant e He) as [H1 H2]. split; [by apply H2|].
  unfold cond_signal, thr_event_wait. destruct (blocked e) as [|[|b]] eqn:E; simpl; [lia| |lia].
  rewrite Hs. simpl. lia.
Qed.

Lemma event_wakes_waiter_witness :
  let e := mk_event true 0 1 1 in
  ev_reach 1 e /\ (0 < signals e)%nat /\ blocked (cond_signal e) = 0%nat.
Proof.
  intros e. assert (W : ev_reach 1 e).
  { eapply ev_next; [|apply (ev_raise (mk_event false 0 1 0))|simpl; lia].
    eapply ev_next; [|apply (ev_test (mk_event false 1 0 0)); simpl; lia|simpl; lia].
    eapply ev_next; [|apply (ev_enter thr_event_init)|simpl; lia]. apply ev_start. }
  split; [exact W|]. destruct (event_wakes_waiter e W) as (H1 & _ & H2 & _); [reflexivity|simpl; lia|].
  by split.
Defined.

(** Two waiters are one too many: a single raise wakes one of them, and the
    other stays blocked on a raised event with no signal to come. *)
Example two_waiters_stuck : exists e, ev_reach 2 e /\ state e = true /\ blocked e = 1%nat /\
  signals e = 0%nat /\ testing e = 0%nat.
Proof.
  exists (mk_event true 0 1 0). split; [|done].
  eapply ev_next; [|apply (ev_test (mk_event true 1 1 0)); simpl; lia|simpl; lia].
  eapply ev_next; [|apply (ev_signal (mk_event true 0 2 1)); simpl; lia|simpl; lia].
  eapply ev_next; [|apply (ev_raise (mk_event false 0 2 0))|simpl; lia].
  eapply ev_next; [|apply (ev_test (mk_event false 1 1 0)); simpl; lia|simpl; lia].
  eapply ev_next; [|apply (ev_enter (mk_event false 0 1 0))|simpl; lia].
  eapply ev_next; [|apply (ev_test (mk_event false 1 0 0)); simpl; lia|simpl; lia].
  eapply ev_next; [|apply (ev_enter thr_event_init)|simpl; lia]. apply ev_start.
Qed.
