(* ===== verification/Runq.v ===== *)
(** Model of src/io/runq.h and src/io/runq.c: a queue of tasks with a pool of
    worker threads.

    The lock makes each critical section one step; they are the operations of
    the queue below, on the list of SList.  The rest of each function is a
    program counter: a worker between its wait, its test of the queue and its
    call of a task; a submitter that still has workers to wake; a thread in
    [runq_destroy] (or in the error path of [runq_init]).  A task's function is
    user code, which the model runs in [WIn]: it may submit tasks, which are steps of
    their own. *)
From S2P Require Import Prelude Lists.

Record runq := mk_runq {
  job_list : SList.slist;
  func : gmap positive Z;   (** [t->func], by task *)
  quit_request : bool;
  has_wakeup : bool;        (** [r->wakeup != NULL] *)
  num_workers : nat;
}.

Definition set_jobs (l : SList.slist) (r : runq) : runq :=
  mk_runq l (func r) (quit_request r) (has_wakeup r) (num_workers r).

(** An operation of [job_list]. *)
Definition jobs {A} (m : M SList.slist A) : M runq A := fun r =>
  match m (job_list r) with
  | Ok (l, a) => Ok (set_jobs l r, a)
  | Crash => Crash
  | NoFuel => NoFuel
  end.

(** [run_one] up to the call of the task: -1, or 0, or 1 and the task. *)
Definition run_one : M runq (Z * option positive) :=
  r ← get;
  if quit_request r then ret (-1, None)
  else
    n ← jobs SList.slist_pop;
    match n with
    | None => ret (0, None)
    | Some t => ret (1, Some t)
    end.

Definition request_quit : M runq unit :=
  modify (fun r => mk_runq (job_list r) (func r) true (has_wakeup r) (num_workers r)).

(** [runq_task_exec] up to the end of its critical section: [was_empty]. *)
Definition task_exec_lock (t : positive) (f : Z) : M runq bool :=
  modify (fun r => mk_runq (job_list r) (<[t := f]> (func r)) (quit_request r) (has_wakeup r) (num_workers r));;
  was_empty ← jobs SList.slist_is_empty;
  jobs (SList.slist_append (Some t));;
  ret was_empty.

(** The owner of a task may write to it while it is not pending: its function, its
    node. *)
Definition set_task_func (t : positive) (f : Z) : M runq unit := modify (fun r =>
  mk_runq (job_list r) (<[t := f]> (func r)) (quit_request r) (has_wakeup r) (num_workers r)).
Definition clear_task_node (t : positive) : M runq unit :=
  jobs (modify (fun l => SList.mk_slist (SList.start l) (SList.end_ l) (<[t := None]> (SList.snodes l)))).

(** * The pool *)
(** [WCall]: [run_one] has taken the task, and released the lock; [WIn]: it is in
    [t->func(t)]. *)
Inductive wpc := WWait | WClear | WRun | WCall (t : positive) | WIn (t : positive) | WExit.

Record worker := mk_worker {
  pc : wpc;
  wakeup : bool;  (** the event *)
}.

(** [request_quit] and [join_worker] for a list of workers: to request, to raise
    the event of the first, to join the first. *)
Inductive dpc := DIdle | DQuit (ws : list nat) | DRaise (ws : list nat) | DJoin (w : nat) (ws : list nat) | DDone.

Record pool := mk_pool {
  rq : runq;
  workers : list worker;
  waking : list nat;       (** [runq_task_exec]s in their loop, at worker [i] *)
  hooks : nat;             (** calls of [r->wakeup] *)
  destroyer : dpc;
  submitted : list positive;  (** the history: submitted, taken from the queue, called *)
  taken : list positive;
  started : list positive;
}.

Definition raise_event (w : worker) : worker := mk_worker (pc w) true.

Definition with_worker (i : nat) (w : worker) (p : pool) : pool :=
  mk_pool (rq p) (<[i := w]> (workers p)) (waking p) (hooks p) (destroyer p) (submitted p) (taken p) (started p).
Definition with_waking (l : list nat) (p : pool) : pool :=
  mk_pool (rq p) (workers p) l (hooks p) (destroyer p) (submitted p) (taken p) (started p).
Definition with_rq (r : runq) (p : pool) : pool :=
  mk_pool r (workers p) (waking p) (hooks p) (destroyer p) (submitted p) (taken p) (started p).
Definition with_destroyer (d : dpc) (p : pool) : pool :=
  mk_pool (rq p) (workers p) (waking p) (hooks p) d (submitted p) (taken p) (started p).

(** The tasks that workers have taken and are about to call. *)
Definition task_of (w : worker) : option positive := match pc w with WCall t => Some t | _ => None end.
Definition calling (p : pool) : list positive := omap task_of (workers p).

(** ** Steps of the pool *)

(** What a worker does next. *)
Inductive work : pool -> pool -> Prop :=
  | work_wait p i w : workers p !! i = Some w -> pc w = WWait -> wakeup w = true ->
      work p (with_worker i (mk_worker WClear (wakeup w)) p)
  | work_clear p i w : workers p !! i = Some w -> pc w = WClear ->
      work p (with_worker i (mk_worker WRun false) p)
  | work_quit p i w r : workers p !! i = Some w -> pc w = WRun ->
      run_one (rq p) = Ok (r, (-1, None)) ->
      work p (with_worker i (mk_worker WExit (wakeup w)) (with_rq r p))
  | work_empty p i w r : workers p !! i = Some w -> pc w = WRun ->
      run_one (rq p) = Ok (r, (0, None)) ->
      work p (with_worker i (mk_worker WWait (wakeup w)) (with_rq r p))
  | work_pop p i w r t : workers p !! i = Some w -> pc w = WRun ->
      run_one (rq p) = Ok (r, (1, Some t)) ->
      work p (with_worker i (mk_worker (WCall t) (wakeup w))
        (mk_pool r (workers p) (waking p) (hooks p) (destroyer p) (submitted p) (taken p ++ [t]) (started p)))
  | work_call p i w t : workers p !! i = Some w -> pc w = WCall t ->
      work p (with_worker i (mk_worker (WIn t) (wakeup w))
        (mk_pool (rq p) (workers p) (waking p) (hooks p) (destroyer p) (submitted p) (taken p) (started p ++ [t])))
  | work_return p i w t : workers p !! i = Some w -> pc w = WIn t ->
      work p (with_worker i (mk_worker WRun (wakeup w)) p).

(** What a submitter does after its critical section. *)
Inductive wake : pool -> pool -> Prop :=
  | wake_raise p l1 i l2 w : waking p = l1 ++ i :: l2 -> (i < num_workers (rq p))%nat ->
      workers p !! i = Some w ->
      wake p (with_waking (l1 ++ Datatypes.S i :: l2) (with_worker i (raise_event w) p))
  | wake_hook p l1 i l2 : waking p = l1 ++ i :: l2 -> (num_workers (rq p) <= i)%nat ->
      wake p (mk_pool (rq p) (workers p) (l1 ++ l2) (hooks p + if has_wakeup (rq p) then 1 else 0)
        (destroyer p) (submitted p) (taken p) (started p)).

(** What a thread that tears the pool down does. *)
Inductive destroy : pool -> pool -> Prop :=
  | destroy_quit p ws r : destroyer p = DQuit ws -> request_quit (rq p) = Ok (r, tt) ->
      destroy p (with_destroyer (DRaise ws) (with_rq r p))
  | destroy_raise p i ws w : destroyer p = DRaise (i :: ws) -> workers p !! i = Some w ->
      destroy p (with_destroyer (DJoin i ws) (with_worker i (raise_event w) p))
  | destroy_join p i ws w : destroyer p = DJoin i ws -> workers p !! i = Some w -> pc w = WExit ->
      destroy p (with_destroyer (DRaise ws) p)
  | destroy_done p : destroyer p = DRaise [] -> destroy p (with_destroyer DDone p).

Definition internal (p p' : pool) : Prop := work p p' \/ wake p p' \/ destroy p p'.

(** What the users of the queue do: submit a task of the store that is not
    pending (nor about to be called), or tear the queue down once. *)
Inductive external : pool -> pool -> Prop :=
  | ext_submit p t f r b : destroyer p = DIdle ->
      is_Some (SList.snodes (job_list (rq p)) !! t) -> (count_occ Pos.eq_dec (submitted p) t = count_occ Pos.eq_dec (started p) t) ->
      task_exec_lock t f (rq p) = Ok (r, b) ->
      external p (mk_pool r (workers p) (waking p ++ if b then [0%nat] else []) (hooks p) (destroyer p)
        (submitted p ++ [t]) (taken p) (started p))
  | ext_destroy p : destroyer p = DIdle -> (0 < num_workers (rq p))%nat ->
      external p (with_destroyer (DQuit (seq 0 (num_workers (rq p)))) p).

(** [runq_init]: the status and the pool, where [start_ok i] tells whether
    worker [i] can be started; when one cannot, the ones before it are
    joined, from the last. *)
Fixpoint start_workers (start_ok : nat -> bool) (i n : nat) : nat :=
  match n with
  | O => i
  | Datatypes.S n => if start_ok i then start_workers start_ok (Datatypes.S i) n else i
  end.

Definition runq_init (nodes : gmap positive (option positive)) (bg_workers : nat) (hook : bool)
    (malloc_ok : bool) (start_ok : nat -> bool) : option (pool * Z) :=
  let r := mk_runq (SList.mk_slist None None nodes) ∅ false hook bg_workers in
  if Nat.eqb bg_workers 0 then Some (mk_pool r [] [] 0 DIdle [] [] [], 0)
  else if negb malloc_ok then None
  else
    let k := start_workers start_ok 0 bg_workers in
    if Nat.eqb k bg_workers
    then Some (mk_pool r (replicate k (mk_worker WWait false)) [] 0 DIdle [] [] [], 0)
    else Some (mk_pool r (replicate k (mk_worker WWait false)) [] 0 (DQuit (rev (seq 0 k))) [] [] [], -1).

(** Runs from [runq_init]. *)
Inductive reach : pool -> Prop :=
  | reach_init nodes n hook m st p rc : runq_init nodes n hook m st = Some (p, rc) -> reach p
  | reach_int p p' : reach p -> internal p p' -> reach p'
  | reach_ext p p' : reach p -> external p p' -> reach p'.

(** * Dispatching by hand *)
Section dispatch.
(** [U] is what the tasks work on; a task may also use the queue. *)
Context {U : Type} (call : positive -> Z -> M (runq * U) unit).

Definition on_rq {A} (m : M runq A) : M (runq * U) A := fun s =>
  match m s.1 with
  | Ok (r, a) => Ok ((r, s.2), a)
  | Crash => Crash
  | NoFuel => NoFuel
  end.

(** The whole of [run_one]. *)
Definition run_task : M (runq * U) Z :=
  ' (rc, t) ← on_rq run_one;
  match t with
  | Some t => s ← get; f ← need (func s.1 !! t); call t f;; ret rc
  | None => ret rc
  end.

Definition dispatch_step (limit count : Z) : M (runq * U) (Z + Z) :=
  if (limit =? 0) || (u32 count <? limit)
  then
    rc ← run_task;
    if rc <=? 0 then ret (inr count) else ret (inl (i32 (count + 1)))
  else ret (inr count).

(** [runq_dispatch]; [fuel] bounds the number of tasks run. *)
Definition runq_dispatch (fuel : nat) (limit : Z) : M (runq * U) Z :=
  count ← loop fuel (dispatch_step limit) 0; ret (u32 count).
End dispatch.
