(* ===== verification/RunqMain.v ===== *)
(** Correctness of src/io/runq.c: every task submitted is taken in order and called
    exactly once; no wakeup is lost; the pool runs all of its tasks, and shuts down. *)
From S2P Require Import Prelude Lists Runq.

(** * The critical sections *)
Lemma run_one_spec r xs : SList.is_slist (job_list r) xs ->
  exists l, SList.is_slist l (if quit_request r then xs else tail xs) /\
    SList.snodes l = SList.snodes (job_list r) /\
    run_one r = Ok (set_jobs l r,
      if quit_request r then (-1, None) else match xs with [] => (0, None) | t :: _ => (1, Some t) end).
Proof.
  intros Hs. unfold run_one, bind, get. destruct (quit_request r).
  { exists (job_list r). by destruct r. }
  pose proof (SList.wp_slist_pop _ _ Hs) as Hp. unfold wp in Hp. unfold jobs.
  destruct (SList.slist_pop (job_list r)) as [[l n]| |]; [|done..].
  destruct Hp as (-> & Hl & Hn). exists l. by destruct xs.
Qed.

Lemma task_exec_spec r xs t f : SList.is_slist (job_list r) xs -> t ∉ xs ->
  is_Some (SList.snodes (job_list r) !! t) ->
  exists l, SList.is_slist l (xs ++ [t]) /\
    (forall x, x ∉ t :: xs -> SList.snodes l !! x = SList.snodes (job_list r) !! x) /\
    task_exec_lock t f r = Ok (mk_runq l (<[t := f]> (func r)) (quit_request r) (has_wakeup r) (num_workers r),
      bool_decide (xs = [])).
Proof.
  intros Hs Ht Hn. unfold task_exec_lock, bind, modify, jobs. simpl.
  pose proof (SList.wp_slist_append _ _ t Hs Ht Hn) as Ha. unfold wp in Ha.
  destruct (SList.slist_append (Some t) (job_list r)) as [[l []]| |]; [|done..].
  destruct Ha as [Ha Hx]. exists l. split; [done|]. split; [done|]. unfold ret, set_jobs. simpl. do 3 f_equal.
  destruct Hs as (_ & Hc & _). destruct xs as [|x xs]; simpl in Hc.
  - by rewrite Hc.
  - destruct Hc as [-> _]. by rewrite !bool_decide_eq_false_2.
Qed.

(** ** The tasks of a user

    The queue has the tasks [J], and those of the user, which satisfy [D], are
    objects that it can submit. *)
Record jobs_ok (D : positive -> Prop) (r : runq) (J : list positive) : Prop := {
  jo_list : SList.is_slist (job_list r) J;
  jo_tasks t : D t -> is_Some (SList.snodes (job_list r) !! t) /\ is_Some (func r !! t);
  jo_runs : quit_request r = false;
}.

Lemma jobs_exec D r J t f : jobs_ok D r J -> is_Some (SList.snodes (job_list r) !! t) -> t ∉ J ->
  exists r' b, task_exec_lock t f r = Ok (r', b) /\ jobs_ok D r' (J ++ [t]) /\ func r' = <[t := f]> (func r).
Proof.
  intros [Hl Ht Hq] Hs Hn. destruct (task_exec_spec r J t f Hl Hn Hs) as (l & Hl' & Hx & E).
  do 2 eexists. split; [exact E|]. split; [|done]. split; [done| |done]. intros u [[n Hu] Hf]%Ht. cbn. split.
  - destruct (decide (u ∈ t :: J)) as [Hi|Hi]; [|rewrite Hx by done; by exists n].
    destruct Hl' as (_ & Hc & _). eapply SList.chain_dom; [exact Hc|]. set_solver.
  - apply lookup_insert_is_Some'. by right.
Qed.

Lemma jobs_called D r J r' t : jobs_ok D r J -> run_one r = Ok (r', (1, Some t)) ->
  exists J', J = t :: J' /\ jobs_ok D r' J' /\ func r' = func r.
Proof.
  intros [Hl Ht Hq] E. destruct (run_one_spec _ _ Hl) as (l & Hl' & En & Er). rewrite Er, Hq in E. rewrite Hq in Hl'.
  destruct J as [|u J]; [done|]. injection E as <- ->. exists J. split; [done|]. split; [|done]. split; [done| |done].
  intros v Hv. cbn. rewrite En. by apply Ht.
Qed.

Lemma jobs_set_func D r J t f : jobs_ok D r J ->
  wp (set_task_func t f) r (fun _ r' => jobs_ok D r' J /\ func r' = <[t := f]> (func r)).
Proof.
  intros [Hl Ht Hq]. apply wp_modify. split; [|done]. split; [done| |done]. intros u [Hu Hf]%Ht. split; [done|].
  apply lookup_insert_is_Some'. by right.
Qed.

(** * The invariant *)

(** A worker that will look at the queue again. *)
Definition awake_worker (w : worker) : Prop := wakeup w = true \/ (pc w <> WWait /\ pc w <> WExit).

Definition awake (p : pool) : Prop :=
  (exists i, i ∈ waking p /\ (i < num_workers (rq p))%nat) \/ (exists i w, workers p !! i = Some w /\ awake_worker w).

(** The threads a teardown has still to join. *)
Definition to_join (d : dpc) : list nat :=
  match d with DQuit ws => ws | DRaise ws => ws | DJoin w ws => w :: ws | _ => [] end.

Record inv (p : pool) (xs : list positive) : Prop := {
  iv_list : SList.is_slist (job_list (rq p)) xs;
  iv_fifo : submitted p = taken p ++ xs;
  iv_func : forall t, t ∈ xs ++ calling p -> is_Some (func (rq p) !! t);
  iv_workers : length (workers p) = num_workers (rq p) \/ waking p = [] /\ destroyer p <> DIdle /\ xs = [];
  iv_awake : xs <> [] -> quit_request (rq p) = false -> (0 < num_workers (rq p))%nat -> awake p;
  iv_clear : forall i w, workers p !! i = Some w -> pc w = WClear -> wakeup w = true;
  iv_quit : quit_request (rq p) = match destroyer p with DIdle | DQuit _ => false | _ => true end;
  iv_exit : forall i w, workers p !! i = Some w -> pc w = WExit -> quit_request (rq p) = true;
  iv_joined : destroyer p <> DIdle -> forall i w, workers p !! i = Some w ->
    i ∈ to_join (destroyer p) \/ pc w = WExit;
  iv_tojoin : forall i, i ∈ to_join (destroyer p) -> (i < length (workers p))%nat;
  iv_joining : forall i ws w, destroyer p = DJoin i ws -> workers p !! i = Some w ->
    pc w <> WWait \/ wakeup w = true;
}.

Lemma calling_with_worker p i w w' t : workers p !! i = Some w ->
  t ∈ calling (with_worker i w' p) -> t ∈ calling p \/ pc w' = WCall t.
Proof.
  intros Hi. unfold calling. simpl. rewrite !list_elem_of_omap. intros (v & Hv & E).
  apply list_elem_of_lookup in Hv as [j Hj]. destruct (decide (j = i)) as [->|Hne].
  - rewrite list_lookup_insert_eq in Hj by by apply lookup_lt_Some in Hi. injection Hj as <-.
    right. unfold task_of in E. by destruct (pc w'); simplify_eq.
  - rewrite list_lookup_insert_ne in Hj by done. left. exists v. split; [|done]. by apply list_elem_of_lookup; exists j.
Qed.

(** Changing one worker. *)
Lemma lookup_with_worker p i w w' j v : workers p !! i = Some w ->
  workers (with_worker i w' p) !! j = Some v -> j = i /\ v = w' \/ j <> i /\ workers p !! j = Some v.
Proof.
  intros Hi. simpl. destruct (decide (j = i)) as [->|Hne].
  - rewrite list_lookup_insert_eq by by apply lookup_lt_Some in Hi. intros [= <-]. by left.
  - rewrite list_lookup_insert_ne by done. by right.
Qed.

Lemma inv_with_worker p xs i w w' : inv p xs -> workers p !! i = Some w ->
  (forall t, pc w' = WCall t -> is_Some (func (rq p) !! t)) ->
  (pc w' = WClear -> wakeup w' = true) ->
  (pc w' = WExit -> quit_request (rq p) = true) ->
  (pc w = WExit -> pc w' = WExit) ->
  (awake_worker w -> awake_worker w' \/ xs = [] \/ quit_request (rq p) = true) ->
  (forall ws, destroyer p = DJoin i ws -> (pc w <> WWait \/ wakeup w = true) -> (pc w' <> WWait \/ wakeup w' = true)) ->
  inv (with_worker i w' p) xs.
Proof.
  intros [] Hi Hc Hcl Hx Hxx Ha Hj. split; simpl; try done.
  - intros t [Ht|Ht]%elem_of_app; [apply iv_func0; set_solver|].
    apply (calling_with_worker _ _ w) in Ht as [Ht|Ht]; [apply iv_func0; set_solver|by apply Hc|done].
  - by rewrite length_insert.
  - intros Hxs Hq Hn. destruct (iv_awake0 Hxs Hq Hn) as [?|(j & v & Hv & Hav)]; [by left|right].
    destruct (decide (j = i)) as [->|Hne].
    + rewrite Hi in Hv. injection Hv as ->. destruct (Ha Hav) as [?|[?|?]]; [|done|congruence]. exists i, w'. split; [|done].
      simpl. apply list_lookup_insert_eq. by eapply lookup_lt_Some.
    + exists j, v. split; [|done]. simpl. by rewrite list_lookup_insert_ne.
  - intros j v Hv. apply (lookup_with_worker _ _ w) in Hv as [[-> ->]|[_ Hv]]; [done|by eapply iv_clear0|done].
  - intros j v Hv. apply (lookup_with_worker _ _ w) in Hv as [[-> ->]|[_ Hv]]; [done|by eapply iv_exit0|done].
  - intros Hd j v Hv. apply (lookup_with_worker _ _ w) in Hv as [[-> ->]|[_ Hv]]; [|by eapply iv_joined0|done].
    destruct (iv_joined0 Hd i w Hi); auto.
  - rewrite length_insert. done.
  - intros j ws v Hd Hv. apply (lookup_with_worker _ _ w) in Hv as [[-> ->]|[_ Hv]]; [|by eapply iv_joining0|done].
    eapply Hj; [done|]. by eapply iv_joining0.
Qed.

Lemma set_jobs_inv p xs l taken' xs' : inv p xs -> SList.is_slist l xs' ->
  submitted p = taken' ++ xs' -> (forall t, t ∈ xs' -> t ∈ xs) -> (xs = [] -> xs' = []) ->
  inv (mk_pool (set_jobs l (rq p)) (workers p) (waking p) (hooks p) (destroyer p) (submitted p) taken' (started p)) xs'.
Proof.
  intros [] Hl Hs Hx Hnil. split; simpl; try done.
  - intros t [Ht|Ht]%elem_of_app; apply iv_func0; [|set_solver]. apply elem_of_app. left. by apply Hx.
  - destruct iv_workers0 as [?|(? & ? & ?)]; [by left|right]. auto.
  - intros Hne. apply iv_awake0. intros ->. auto.
Qed.

(** * Every step keeps the invariant *)
Lemma set_jobs_same_inv p xs l : inv p xs -> SList.is_slist l xs -> inv (with_rq (set_jobs l (rq p)) p) xs.
Proof. intros Hi Hl. eapply set_jobs_inv; [done|done|apply Hi|done|done]. Qed.

Lemma inv_work p p' xs : inv p xs -> work p p' -> exists xs', inv p' xs'.
Proof.
  intros Hi Hw. pose proof Hi as [Hl Hf Hfn _ _ Hcl Hq Hx _ _ _].
  destruct (run_one_spec _ _ Hl) as (l & Hl' & _ & Hr).
  inversion Hw as [? i w E1 E2 E3|? i w E1 E2|? i w r E1 E2 E3|? i w r E1 E2 E3|? i w r t E1 E2 E3|? i w t E1 E2|? i w t E1 E2]; subst.
  - exists xs. eapply inv_with_worker; simpl; try done; [congruence|..].
    + intros _. left. by left.
    + intros. by left.
  - exists xs. eapply inv_with_worker; simpl; try done; [congruence|..].
    + intros _. left. by right.
    + intros. by left.
  - rewrite Hr in E3. destruct (quit_request (rq p)) eqn:Eq; [|by destruct xs].
    injection E3 as <-. exists xs. apply (inv_with_worker _ _ _ w); simpl; try done; [by apply set_jobs_same_inv|..].
    + by rewrite Eq; auto.
    + intros. by left.
  - rewrite Hr in E3. destruct (quit_request (rq p)) eqn:Eq; [done|]. destruct xs as [|x xs]; [|done].
    injection E3 as <-. exists []. apply (inv_with_worker _ _ _ w); simpl; try done; [by apply set_jobs_same_inv|congruence|auto|].
    intros ws Hd. by rewrite Hd in Hq.
  - rewrite Hr in E3. destruct (quit_request (rq p)) eqn:Eq; [done|]. destruct xs as [|x xs]; [done|].
    injection E3 as <- <-. exists xs.
    eapply inv_with_worker; simpl; try done; [| |congruence|by left; right|by intros; left].
    + eapply (set_jobs_inv p (x :: xs)); [done..| |set_solver|done]. by rewrite Hf, <- app_assoc.
    + intros t [= <-]. apply Hfn. set_solver.
  - exists xs. eapply inv_with_worker; simpl; try done; [by destruct Hi; split|congruence|by left; right|by intros; left].
  - exists xs. eapply inv_with_worker; simpl; try done; [congruence|by left; right|by intros; left].
Qed.

Lemma inv_wake p p' xs : inv p xs -> wake p p' -> inv p' xs.
Proof.
  intros Hi Hw. inversion Hw as [? l1 i l2 w E1 E2 E3|? l1 i l2 E1 E2]; subst.
  - assert (H1 : inv (with_worker i (raise_event w) p) xs).
    { eapply inv_with_worker; simpl; try done; [|by eapply iv_exit|by left; left|by right].
      intros t Ht. apply (iv_func _ _ Hi). apply elem_of_app. right. apply list_elem_of_omap. exists w.
      split; [by apply list_elem_of_lookup; exists i|unfold task_of; by rewrite Ht]. }
    destruct H1. split; simpl in *; try done.
    + destruct iv_workers0 as [?|(Hn & ?)]; [by left|]. rewrite Hn in E1. by destruct l1.
    + intros _ _ _. right. exists i, (raise_event w). split; [|by left].
      simpl. apply list_lookup_insert_eq. by eapply lookup_lt_Some.
  - destruct Hi. split; simpl in *; try done.
    + destruct iv_workers0 as [?|(Hn & ?)]; [by left|]. rewrite Hn in E1. by destruct l1.
    + intros Hx Hq Hn. destruct (iv_awake0 Hx Hq Hn) as [(j & Hj & Hlt)|?]; [|by right].
      left. exists j. split; [|done]. simpl. rewrite E1 in Hj. set_unfold.
      destruct Hj as [?|[->|?]]; [by left|lia|by right].
Qed.

Lemma inv_destroy p p' xs : inv p xs -> destroy p p' -> inv p' xs.
Proof.
  intros Hi Hd. inversion Hd as [? ws r E1 E2|? i ws w E1 E2|? i ws w E1 E2 E3|? E1]; subst.
  - unfold request_quit, modify in E2. injection E2 as <-. destruct Hi. rewrite E1 in *. split; simpl in *; try done.
    + destruct iv_workers0 as [?|(? & ? & ?)]; [by left|by right].
    + intros _. by apply iv_joined0.
  - assert (H1 : inv (with_worker i (raise_event w) p) xs).
    { eapply inv_with_worker; simpl; try done; [|by eapply iv_exit|by left; left|by right].
      intros t Ht. apply (iv_func _ _ Hi). apply elem_of_app. right. apply list_elem_of_omap. exists w.
      split; [by apply list_elem_of_lookup; exists i|unfold task_of; by rewrite Ht]. }
    destruct H1. simpl in *. rewrite E1 in *. split; simpl in *; try done.
    + destruct iv_workers0 as [?|(? & ? & ?)]; [by left|by right].
    + intros _. by apply iv_joined0.
    + intros j ws' v [= <- <-]. rewrite list_lookup_insert_eq by by eapply lookup_lt_Some.
      intros [= <-]. by right.
  - destruct Hi. rewrite E1 in *. split; simpl in *; try done.
    + destruct iv_workers0 as [?|(? & ? & ?)]; [by left|by right].
    + intros _ j v Hv. destruct (iv_joined0 ltac:(done) j v Hv) as [[->|?]%elem_of_cons|?]; [|by left|by right].
      right. congruence.
    + intros j Hj. apply iv_tojoin0. set_solver.
  - destruct Hi. rewrite E1 in *. split; simpl in *; try done.
    + destruct iv_workers0 as [?|(? & ? & ?)]; [by left|by right].
    + intros _. by apply iv_joined0.
Qed.

(** ** What has been taken, and what has been called *)
Record log_ok (p : pool) : Prop := {
  lo_once : taken p ≡ₚ started p ++ calling p;
  lo_order : (length (workers p) <= 1)%nat -> taken p = started p ++ calling p;
}.

Lemma log_count p t : log_ok p ->
  count_occ Pos.eq_dec (taken p) t = (count_occ Pos.eq_dec (started p) t + count_occ Pos.eq_dec (calling p) t)%nat.
Proof. intros [H _]. by rewrite (Permutation_count_occ Pos.eq_dec) in H; rewrite H, count_occ_app. Qed.

Lemma log_same p p' : log_ok p -> taken p' = taken p -> started p' = started p -> calling p' = calling p ->
  length (workers p') = length (workers p) -> log_ok p'.
Proof. intros [H1 H2] E1 E2 E3 E4. split; by rewrite ?E1, ?E2, ?E3, ?E4. Qed.

(** The tasks of the workers before and after the worker [i]. *)
Lemma calling_split p i w : workers p !! i = Some w -> exists l1 l2,
  ((length (workers p) <= 1)%nat -> l1 = [] /\ l2 = []) /\ calling p = l1 ++ option_list (task_of w) ++ l2 /\
  forall w', calling (with_worker i w' p) = l1 ++ option_list (task_of w') ++ l2.
Proof.
  intros Hi. pose proof (take_drop_middle _ _ _ Hi) as E. pose proof (lookup_lt_Some _ _ _ Hi) as Hl.
  exists (omap task_of (take i (workers p))), (omap task_of (drop (Datatypes.S i) (workers p))). split_and!.
  - intros Hle. destruct (workers p) as [|v [|v' l]]; simpl in *; [lia| |lia]. destruct i; [done|lia].
  - unfold calling. rewrite <- E at 1. rewrite omap_app. simpl. by destruct (task_of w).
  - intros w'. unfold calling. simpl. rewrite (insert_take_drop _ _ _ Hl), omap_app. simpl. by destruct (task_of w').
Qed.

Lemma log_worker p i w w' : log_ok p -> workers p !! i = Some w -> task_of w' = task_of w -> log_ok (with_worker i w' p).
Proof.
  intros H Hi Ht. apply (log_same p); [done|done|done| |simpl; by rewrite length_insert].
  destruct (calling_split p i w Hi) as (l1 & l2 & _ & -> & E). by rewrite E, Ht.
Qed.

Lemma log_work p p' : log_ok p -> work p p' -> log_ok p'.
Proof.
  intros H Hw. inversion Hw as [? i w E1 E2 E3|? i w E1 E2|? i w r E1 E2 E3|? i w r E1 E2 E3|? i w r t E1 E2 E3|? i w t E1 E2|? i w t E1 E2]; subst.
  1-4, 7: apply (log_worker _ i w); [by apply (log_same p)|done|unfold task_of; by rewrite E2].
  - destruct (calling_split p i w E1) as (l1 & l2 & Hn & Ec & E). unfold task_of at 1 in Ec. rewrite E2 in Ec. simpl in Ec.
    destruct H as [H1 H2]. rewrite Ec in *. split; simpl; unfold calling; simpl;
      change (omap task_of (<[i:=mk_worker (WCall t) (wakeup w)]> (workers p))) with (calling (with_worker i (mk_worker (WCall t) (wakeup w)) p)); rewrite E; simpl.
    + rewrite H1. solve_Permutation.
    + rewrite length_insert. intros Hl. rewrite H2 by done. destruct (Hn Hl) as [-> ->]. by rewrite !app_nil_r.
  - destruct (calling_split p i w E1) as (l1 & l2 & Hn & Ec & E). unfold task_of at 1 in Ec. rewrite E2 in Ec. simpl in Ec.
    destruct H as [H1 H2]. rewrite Ec in *. split; simpl; unfold calling; simpl;
      change (omap task_of (<[i:=mk_worker (WIn t) (wakeup w)]> (workers p))) with (calling (with_worker i (mk_worker (WIn t) (wakeup w)) p)); rewrite E; simpl.
    + rewrite H1. solve_Permutation.
    + rewrite length_insert. intros Hl. rewrite H2 by done. destruct (Hn Hl) as [-> ->]. by rewrite !app_nil_r.
Qed.

Lemma log_wake p p' : log_ok p -> wake p p' -> log_ok p'.
Proof.
  intros H Hw. inversion Hw as [? l1 i l2 w E1 E2 E3|? l1 i l2 E1 E2]; subst; [|by apply (log_same p)].
  apply (log_same (with_worker i (raise_event w) p)); [by apply (log_worker _ i w)|done..].
Qed.
Lemma log_destroy p p' : log_ok p -> destroy p p' -> log_ok p'.
Proof.
  intros H Hd. inversion Hd as [? ws r E1 E2|? i ws w E1 E2|? i ws w E1 E2 E3|? E1]; subst; try by apply (log_same p).
  apply (log_same (with_worker i (raise_event w) p)); [by apply (log_worker _ i w)|done..].
Qed.
Lemma log_internal p p' : log_ok p -> internal p p' -> log_ok p'.
Proof. intros H [?|[?|?]]; [by eapply log_work|by eapply log_wake|by eapply log_destroy]. Qed.
Lemma log_ext p p' : log_ok p -> external p p' -> log_ok p'.
Proof. intros H He. inversion He; subst; by apply (log_same p). Qed.

Lemma inv_ext p p' xs : inv p xs -> log_ok p -> external p p' -> exists xs', inv p' xs'.
Proof.
  intros Hi Hlog He. inversion He as [? t f r b E1 E2 E3 E5|? E1 E2]; subst.
  - pose proof Hi as [Hl Hf Hfn Hwk Haw _ _ _ _ _ _].
    assert (Ht : t ∉ xs).
    { intros Ht%list_elem_of_In%(count_occ_In Pos.eq_dec). rewrite Hf, count_occ_app, (log_count _ _ Hlog) in E3. lia. }
    destruct (task_exec_spec _ xs t f Hl Ht E2) as (l & Hl' & _ & Hr). rewrite Hr in E5. injection E5 as <- <-.
    exists (xs ++ [t]). destruct Hi. split; simpl; try done.
    + by rewrite Hf, app_assoc.
    + intros u Hu. destruct (decide (u = t)) as [->|Hne]; [by rewrite lookup_insert_eq|].
      rewrite lookup_insert_ne by done. apply Hfn. unfold calling in Hu. simpl in Hu. set_solver.
    + destruct Hwk as [?|(? & ? & ?)]; [by left|congruence].
    + intros _ Hq Hn. destruct xs as [|x xs].
      * left. exists 0%nat. simpl. split; [set_solver|done].
      * destruct (Haw ltac:(done) Hq Hn) as [(j & Hj & Hlt)|?]; [left|by right].
        exists j. simpl. rewrite app_nil_r. done.
  - exists xs. destruct Hi. rewrite E1 in *. split; simpl; try done.
    + destruct iv_workers0 as [?|(? & ? & ?)]; [by left|done].
    + intros _ i w Hw. left. apply elem_of_seq. apply lookup_lt_Some in Hw.
      destruct iv_workers0 as [?|(? & ? & ?)]; [lia|done].
    + intros i Hs%elem_of_seq. destruct iv_workers0 as [?|(? & ? & ?)]; [lia|done].
Qed.

Lemma start_workers_le st n : forall i, (i <= start_workers st i n)%nat.
Proof. induction n as [|n IH]; simpl; intros i; [done|]. destruct (st i); [|done]. specialize (IH (S i)). lia. Qed.

Lemma calling_idle k r d a b c e h : calling (mk_pool r (replicate k (mk_worker WWait false)) a h d b c e) = [].
Proof. unfold calling. simpl. induction k; by simpl. Qed.

Lemma inv_init nodes n hook m st p rc : runq_init nodes n hook m st = Some (p, rc) -> inv p [].
Proof.
  assert (Hs : SList.is_slist (SList.mk_slist None None nodes) []).
  { split; [constructor|]. split; done. }
  assert (Hw : forall k i w, replicate k (mk_worker WWait false) !! i = Some w -> w = mk_worker WWait false).
  { intros k i w Hr%lookup_replicate. by destruct Hr. }
  unfold runq_init. destruct (Nat.eqb_spec n 0) as [->|Hn]; [|destruct m; [|done]; simpl;
    destruct (Nat.eqb_spec (start_workers st 0 n) n) as [->|Hk]];
    (intros [= <- <-]; split; simpl; try done; try (by intros t; rewrite ?calling_idle; set_solver);
     try (by intros i w; try destruct 1; intros Hv%Hw; subst)).
  - by left.
  - by left; rewrite length_replicate.
  - by right.
  - intros _ i w Hv%lookup_lt_Some. rewrite length_replicate in Hv. left. apply list_elem_of_In, in_rev.
    rewrite rev_involutive, in_seq. lia.
  - intros i Hi%list_elem_of_In%in_rev%in_seq. rewrite length_replicate. lia.
Qed.

Lemma inv_internal p p' xs : inv p xs -> internal p p' -> exists xs', inv p' xs'.
Proof.
  intros Hi [?|[?|?]]; [by eapply inv_work|exists xs..]; [by eapply inv_wake|by eapply inv_destroy].
Qed.

Lemma log_init nodes n hook m st p rc : runq_init nodes n hook m st = Some (p, rc) -> log_ok p.
Proof.
  unfold runq_init. destruct (Nat.eqb n 0); [|destruct m; [|done]; simpl; destruct (Nat.eqb _ n)]; intros [= <- _];
    split; simpl; rewrite ?calling_idle; done.
Qed.

Lemma inv_reach p : reach p -> (exists xs, inv p xs) /\ log_ok p.
Proof.
  induction 1 as [|p p' _ [[xs IH] IL] Hs|p p' _ [[xs IH] IL] Hs].
  - split; [exists []; by eapply inv_init|by eapply log_init].
  - split; [by eapply inv_internal|by eapply log_internal].
  - split; [by eapply inv_ext|by eapply log_ext].
Qed.

(** * Progress *)
Definition worker_weight (w : worker) : nat :=
  match pc w with WWait => 1 | WClear => 0 | WRun => 2 | WCall _ => 4 | WIn _ => 3 | WExit => 0 end +
  if wakeup w then 3 else 0.

Definition destroyer_weight (d : dpc) : nat :=
  match d with
  | DIdle | DDone => 0
  | DQuit ws => 8 * length ws + 2
  | DRaise ws => 8 * length ws + 1
  | DJoin _ ws => 8 * length ws + 4
  end.

Definition waking_weight (n i : nat) : nat := 4 * (n - i) + 1.

(** Every internal step makes this smaller. *)
Definition weight (p : pool) (xs : list positive) : nat :=
  3 * length xs + sum_list_with worker_weight (workers p) +
  sum_list_with (waking_weight (num_workers (rq p))) (waking p) + destroyer_weight (destroyer p).

Lemma sum_insert {A} (f : A -> nat) (l : list A) i x y : l !! i = Some x ->
  (sum_list_with f (<[i := y]> l) + f x = sum_list_with f l + f y)%nat.
Proof. revert i. induction l as [|z l IH]; intros [|i] H; simplify_eq/=; [lia|]. specialize (IH i H). lia. Qed.

Lemma inv_unique p xs ys : inv p xs -> inv p ys -> xs = ys.
Proof. intros [_ H1 _] [_ H2 _]. rewrite H1 in H2. by apply app_inv_head in H2. Qed.

Lemma num_workers_jobs l r : num_workers (set_jobs l r) = num_workers r.
Proof. done. Qed.

Lemma weight_work p p' xs xs' : inv p xs -> work p p' -> inv p' xs' -> (weight p' xs' < weight p xs)%nat.
Proof.
  intros Hi Hw Hi'. pose proof (iv_fifo _ _ Hi) as Hf. pose proof (iv_fifo _ _ Hi') as Hf'.
  destruct (run_one_spec _ _ (iv_list _ _ Hi)) as (l & _ & _ & Hr). unfold weight.
  inversion Hw as [? i w E1 E2 E3|? i w E1 E2|? i w r E1 E2 E3|? i w r E1 E2 E3|? i w r t E1 E2 E3|? i w t E1 E2|? i w t E1 E2]; subst;
    simpl in *; match goal with |- context [sum_list_with worker_weight (<[i := ?v]> _)] =>
      pose proof (sum_insert worker_weight (workers p) i w v E1) as Hsum end;
    unfold worker_weight in Hsum at 2 4; rewrite E2 in Hsum; simpl in Hsum;
    try (rewrite Hr in E3; destruct (quit_request (rq p)); destruct xs as [|x xs]; simplify_eq;
      rewrite ?num_workers_jobs);
    rewrite Hf in Hf'; try (apply app_inv_head in Hf'; subst xs'); simpl;
    try (destruct (wakeup w) eqn:Ew; simpl in *; lia).
  - rewrite (iv_clear _ _ Hi i w E1 E2) in Hsum. lia.
  - rewrite <- app_assoc in Hf'. apply app_inv_head in Hf'. injection Hf' as <-.
    destruct (wakeup w); simpl in *; lia.
Qed.

Lemma weight_wake p p' xs xs' : inv p xs -> wake p p' -> inv p' xs' -> (weight p' xs' < weight p xs)%nat.
Proof.
  intros Hi Hw Hi'. rewrite <- (inv_unique _ _ _ (inv_wake _ _ _ Hi Hw) Hi'). unfold weight.
  inversion Hw as [? l1 i l2 w E1 E2 E3|? l1 i l2 E1 E2]; subst; simpl; rewrite E1, !sum_list_with_app; simpl.
  - pose proof (sum_insert worker_weight (workers p) i w (raise_event w) E3) as Hsum.
    unfold worker_weight in Hsum at 2 4. simpl in Hsum. unfold waking_weight.
    destruct (wakeup w); destruct (pc w); lia.
  - unfold waking_weight. lia.
Qed.

Lemma weight_destroy p p' xs xs' : inv p xs -> destroy p p' -> inv p' xs' -> (weight p' xs' < weight p xs)%nat.
Proof.
  intros Hi Hd Hi'. rewrite <- (inv_unique _ _ _ (inv_destroy _ _ _ Hi Hd) Hi'). unfold weight.
  inversion Hd as [? ws r E1 E2|? i ws w E1 E2|? i ws w E1 E2 E3|? E1]; subst; simpl; rewrite E1; simpl.
  - unfold request_quit, modify in E2. injection E2 as <-. simpl. lia.
  - pose proof (sum_insert worker_weight (workers p) i w (raise_event w) E2) as Hsum.
    unfold worker_weight in Hsum at 2 4. simpl in Hsum. destruct (wakeup w); destruct (pc w); lia.
  - lia.
  - lia.
Qed.

Lemma weight_internal p p' xs xs' : inv p xs -> internal p p' -> inv p' xs' -> (weight p' xs' < weight p xs)%nat.
Proof. intros Hi [?|[?|?]]; [by apply weight_work|by apply weight_wake|by apply weight_destroy]. Qed.

(** Nothing is left to do. *)
Definition quiescent (p : pool) : Prop := forall p', ~ internal p p'.

Lemma worker_stuck p xs i w : inv p xs -> quiescent p -> workers p !! i = Some w ->
  pc w = WWait /\ wakeup w = false \/ pc w = WExit.
Proof.
  intros Hi Hq Hw. destruct (run_one_spec _ _ (iv_list _ _ Hi)) as (l & _ & _ & Hr).
  destruct (pc w) as [| | |t|t|] eqn:Ep; [|exfalso..|by right].
  - left. split; [done|]. destruct (wakeup w) eqn:Ew; [|done]. destruct (Hq _ (or_introl (work_wait _ _ _ Hw Ep Ew))).
  - destruct (Hq _ (or_introl (work_clear _ _ _ Hw Ep))).
  - destruct (quit_request (rq p)); [|destruct xs as [|x xs]].
    + destruct (Hq _ (or_introl (work_quit _ _ _ _ Hw Ep Hr))).
    + destruct (Hq _ (or_introl (work_empty _ _ _ _ Hw Ep Hr))).
    + destruct (Hq _ (or_introl (work_pop _ _ _ _ _ Hw Ep Hr))).
  - destruct (Hq _ (or_introl (work_call _ _ _ _ Hw Ep))).
  - destruct (Hq _ (or_introl (work_return _ _ _ _ Hw Ep))).
Qed.

Lemma waking_stuck p xs : inv p xs -> quiescent p -> waking p = [].
Proof.
  intros Hi Hq. destruct (waking p) as [|i l] eqn:Ew; [done|exfalso].
  destruct (decide (i < num_workers (rq p))%nat) as [Hlt|Hge].
  - destruct (iv_workers _ _ Hi) as [Hn|(Hn & _)]; [|congruence].
    destruct (lookup_lt_is_Some_2 (workers p) i) as [w Hw]; [lia|].
    apply (Hq _ (or_intror (or_introl (wake_raise p [] i l w Ew Hlt Hw)))).
  - assert (Hge' : (num_workers (rq p) <= i)%nat) by lia.
    apply (Hq _ (or_intror (or_introl (wake_hook p [] i l Ew Hge')))).
Qed.

Lemma destroy_stuck p xs : inv p xs -> quiescent p -> destroyer p = DIdle \/ destroyer p = DDone.
Proof.
  intros Hi Hq. pose proof (fun p' H => Hq p' (or_intror (or_intror H))) as Hd. pose proof (iv_tojoin _ _ Hi) as Ht.
  destruct (destroyer p) as [|ws|[|i ws]|i ws|] eqn:E; [by left|exfalso..|by right]; simpl in Ht.
  - eapply Hd, destroy_quit; [done|reflexivity].
  - by eapply Hd, destroy_done.
  - destruct (lookup_lt_is_Some_2 (workers p) i) as [w Hw]; [apply Ht; set_solver|].
    by eapply Hd, destroy_raise.
  - destruct (lookup_lt_is_Some_2 (workers p) i) as [w Hw]; [apply Ht; set_solver|].
    destruct (worker_stuck _ _ i w Hi Hq Hw) as [[Hp Hk]|Hp]; [|by eapply Hd, destroy_join].
    destruct (iv_joining _ _ Hi i ws w E Hw); congruence.
Qed.

(** What the pool has achieved when it rests. *)
Definition settled (p : pool) : Prop :=
  waking p = [] /\
  ((destroyer p = DIdle /\ ((0 < num_workers (rq p))%nat ->
      taken p = submitted p /\ started p ≡ₚ submitted p /\ Forall (fun w => pc w = WWait) (workers p))) \/
   (destroyer p = DDone /\ Forall (fun w => pc w = WExit) (workers p))).

Lemma quiescent_settled p xs : inv p xs -> log_ok p -> quiescent p -> settled p.
Proof.
  intros Hi Hlog Hq. split; [by eapply waking_stuck|]. pose proof (iv_quit _ _ Hi) as Hqr.
  destruct (destroy_stuck _ _ Hi Hq) as [E|E]; rewrite E in Hqr; [left|right]; (split; [done|]).
  - intros Hn. assert (Hw : forall i w, workers p !! i = Some w -> pc w = WWait /\ wakeup w = false).
    { intros i w Hw. destruct (worker_stuck _ _ i w Hi Hq Hw) as [?|Hx]; [done|].
      by rewrite (iv_exit _ _ Hi i w Hw Hx) in Hqr. }
    assert (taken p = submitted p) as Et.
    { rewrite (iv_fifo _ _ Hi). destruct xs as [|x xs]; [by rewrite app_nil_r|exfalso].
      destruct (iv_awake _ _ Hi ltac:(done) Hqr Hn) as [(i & Hx & _)|(i & w & Hx & [Ha|[Ha _]])].
      - rewrite (waking_stuck _ _ Hi Hq) in Hx. set_solver.
      - destruct (Hw i w Hx). congruence.
      - destruct (Hw i w Hx). congruence. }
    assert (calling p = []) as Ec.
    { unfold calling. apply elem_of_nil_inv. intros t (w & Hx & Ht)%list_elem_of_omap.
      apply list_elem_of_lookup in Hx as [i Hx]. destruct (Hw i w Hx) as [Hp _]. unfold task_of in Ht. by rewrite Hp in Ht. }
    split; [done|]. split.
    + pose proof (lo_once _ Hlog) as Ho. by rewrite Ec, app_nil_r, Et in Ho.
    + apply Forall_lookup. intros i w Hx. apply (Hw i w Hx).
  - apply Forall_lookup. intros i w Hw. pose proof (iv_joined _ _ Hi) as Hj. rewrite E in Hj.
    destruct (Hj ltac:(done) i w Hw) as [Hn|?]; [|done]. simpl in Hn. set_solver.
Qed.

(** * Properties *)

(** C32. In every interleaving of submitters (who submit a task again only once it has
    been called), workers and teardown: the tasks taken
    from the queue so far, followed by those in it, are the tasks submitted, in
    order; each task that is taken has been called exactly once, or is about to be
    called by one worker, so none is called twice; with one worker the calls are in
    the order of submission (with more, workers may overtake each other between
    taking a task and calling it); each task that is queued or about to be called has
    its function.  A worker never leaves before the queue is told to quit. *)
Theorem runq_fifo_exactly_once p :
  reach p ->
  exists xs, SList.is_slist (job_list (rq p)) xs /\ submitted p = taken p ++ xs /\
    taken p ≡ₚ started p ++ calling p /\
    ((length (workers p) <= 1)%nat -> submitted p = started p ++ calling p ++ xs) /\
    (forall t, t ∈ xs ++ calling p -> is_Some (func (rq p) !! t)) /\
    (quit_request (rq p) = false -> forall i w, workers p !! i = Some w -> pc w <> WExit).
Proof.
  intros Hr. destruct (inv_reach p Hr) as [[xs Hi] [H1 H2]]. exists xs. destruct Hi. split_and!; [done..| |done|].
  - intros Hl. by rewrite iv_fifo0, H2, <- (assoc_L (++)).
  - intros Hq i w Hw Hx. rewrite (iv_exit0 i w Hw Hx) in Hq. done.
Qed.

(** C33. No wakeup is lost: from any reachable state of the pool, in every
    interleaving, the pool comes to rest after finitely many steps of its own,
    and when it does, every task that was submitted has been started and has
    returned (if the queue has workers), or, if it was being torn down, every
    worker has left and the teardown has returned. *)
Theorem runq_settles p :
  reach p ->
  Acc (fun p2 p1 => internal p1 p2) p /\
  (forall p', rtc internal p p' -> quiescent p' -> settled p').
Proof.
  intros Hr. destruct (inv_reach p Hr) as [[xs Hi] Hlog]. clear Hr. split.
  - clear Hlog. remember (weight p xs) as n eqn:E. revert p xs Hi E.
    induction (lt_wf n) as [n _ IH]. intros p xs Hi ->. constructor. intros p' Hp'.
    destruct (inv_internal _ _ _ Hi Hp') as [xs' Hi'].
    eapply IH; [by eapply weight_internal|done|done].
  - intros p' Hp'. revert xs Hi Hlog. induction Hp' as [p|p p2 p3 Hp _ IH]; intros xs Hi Hlog Hq.
    + by eapply quiescent_settled.
    + destruct (inv_internal _ _ _ Hi Hp) as [xs' Hi']. eapply IH; [done|by eapply log_internal|done].
Qed.

Section dispatch.
Context {U : Type} (call : positive -> Z -> M (runq * U) unit).

(** The queue holds [xs], each with its function, and runs. *)
Definition holds (r : runq) (xs : list positive) : Prop :=
  SList.is_slist (job_list r) xs /\ quit_request r = false /\ forall t, t ∈ xs -> is_Some (func r !! t).

(** Calling a task keeps the user's invariant; the tasks it submits go to the end
    of the queue, out of a budget. *)
Definition call_ok (I : list positive -> U -> Prop) (budget : U -> nat) : Prop :=
  forall t f r u xs done, holds r xs -> func r !! t = Some f -> I done u ->
    wp (call t f) (r, u) (fun _ '(r', u') => exists ys, holds r' (xs ++ ys) /\
      (length ys + budget u' <= budget u)%nat /\ I (done ++ [t]) u').

Lemma wp_on_rq {A} (m : M runq A) r (u : U) r' a Q : m r = Ok (r', a) -> Q a (r', u) -> wp (on_rq m) (r, u) Q.
Proof. intros Hm HQ. unfold wp, on_rq. simpl. by rewrite Hm. Qed.

Lemma wp_run_task I budget r u xs done : call_ok I budget -> holds r xs -> I done u ->
  wp (run_task call) (r, u) (fun rc '(r', u') =>
    match xs with
    | [] => rc = 0 /\ holds r' [] /\ u' = u
    | t :: xs => rc = 1 /\ exists ys, holds r' (xs ++ ys) /\ (length ys + budget u' <= budget u)%nat /\ I (done ++ [t]) u'
    end).
Proof.
  intros Hc (Hl & Hq & Hf) HI. destruct (run_one_spec _ _ Hl) as (l & Hl' & _ & Hr). rewrite Hq in *.
  unfold run_task. apply wp_bind. eapply wp_on_rq; [exact Hr|]. destruct xs as [|t xs]; [by apply wp_ret|].
  destruct (Hf t ltac:(set_solver)) as [f Ef].
  apply wp_bind, wp_get, wp_bind. eapply wp_need; [exact Ef|]. apply wp_bind. simpl.
  eapply wp_mono; [apply (Hc t f (set_jobs l r) u xs done); [|done..]|].
  - split; [done|]. split; [done|]. intros t' Ht'. apply Hf. set_solver.
  - intros _ [r' u'] H. by apply wp_ret.
Qed.

(** A run of [runq_dispatch]: tasks in order, those submitted meanwhile included, up
    to the limit. *)
Definition runs (I : list positive -> U -> Prop) (r : runq) (u : U) (xs : list positive) (limit : Z) (fuel : nat) : Prop :=
  wp (runq_dispatch call fuel limit) (r, u) (fun n '(r', u') => exists done rest,
    n = Z.of_nat (length done) /\ holds r' rest /\ I done u' /\ xs `prefix_of` done ++ rest /\
    (limit <> 0 -> n <= limit) /\ (limit = 0 \/ n < limit -> rest = [])).

Lemma wp_runq_dispatch I budget r u xs limit fuel :
  call_ok I budget -> holds r xs -> I [] u -> 0 <= limit < 2 ^ 32 ->
  Z.of_nat (length xs + budget u) < 2 ^ 31 -> (length xs + budget u < fuel)%nat -> runs I r u xs limit fuel.
Proof.
  intros Hc Hh HI Hlim Hmax Hfuel. unfold runs, runq_dispatch. apply wp_bind.
  apply (wp_loop (fun k count '(r', u') => exists done rest, count = Z.of_nat (length done) /\
    holds r' rest /\ I done u' /\ xs `prefix_of` done ++ rest /\ (limit <> 0 -> count <= limit) /\
    (length done + length rest + budget u' <= length xs + budget u)%nat /\ k = (length rest + budget u')%nat))
    with (k := (length xs + budget u)%nat); [|done|].
  - intros k count [r' u'] (dn & rest & -> & Hh' & HI' & Hp & Hle & Hn & ->). unfold dispatch_step.
    assert (Hpost : (limit = 0 \/ Z.of_nat (length dn) < limit -> rest = []) ->
      wp (ret (u32 (Z.of_nat (length dn)))) (r', u') (fun n '(r', u') => exists done rest,
        n = Z.of_nat (length done) /\ holds r' rest /\ I done u' /\ xs `prefix_of` done ++ rest /\
        (limit <> 0 -> n <= limit) /\ (limit = 0 \/ n < limit -> rest = []))).
    { intros Hr. apply wp_ret. rewrite u32_small by lia. by exists dn, rest. }
    rewrite u32_small by lia. destruct ((limit =? 0) || (Z.of_nat (length dn) <? limit)) eqn:Ec; simpl.
    2: { apply wp_ret, Hpost. lia. }
    apply wp_bind. eapply wp_mono; [by eapply wp_run_task|]. intros rc [r2 u2]. destruct rest as [|t rest].
    { intros (-> & Hh2 & ->). apply wp_ret, wp_ret. rewrite u32_small by lia. exists dn, []. by split_and!. }
    intros (-> & ys & Hh2 & Hb & HI2). apply wp_ret. simpl in Hn. rewrite i32_small by lia. eexists. split.
    2: { exists (dn ++ [t]), (rest ++ ys). rewrite !length_app. split_and!; [simpl; lia|done|done| |simpl; lia|simpl; lia|done].
      rewrite <- app_assoc. etrans; [exact Hp|]. simpl. apply prefix_app, prefix_cons, prefix_app_r. done. }
    rewrite ?length_app. simpl. lia.
  - exists [], xs. split_and!; simpl; auto; lia.
Qed.

(** C34. [runq_dispatch] runs the tasks of the queue on the calling thread, in
    order, those that running tasks submit included, up to the limit: it
    returns how many it ran, and it stops early only when the queue is
    empty. *)
Theorem runq_dispatch_runs I budget r u xs limit fuel :
  call_ok I budget -> holds r xs -> I [] u -> 0 <= limit < 2 ^ 32 ->
  Z.of_nat (length xs + budget u) < 2 ^ 31 -> (length xs + budget u < fuel)%nat ->
  wp (runq_dispatch call fuel limit) (r, u) (fun n '(r', u') => exists done rest,
    n = Z.of_nat (length done) /\ holds r' rest /\ I done u' /\ xs `prefix_of` done ++ rest /\
    (limit <> 0 -> n <= limit) /\ (limit = 0 \/ n < limit -> rest = [])).
Proof. intros. by eapply wp_runq_dispatch. Qed.
End dispatch.

(** * Witnesses *)

(** One worker, one task submitted: the worker's event is raised, it wakes, takes
    the task and calls it. *)
Definition ex_nodes : gmap positive (option positive) := {[ 5%positive := None; 6%positive := None ]}.
Definition ex_rq (quit : bool) : runq := mk_runq (SList.mk_slist None None ex_nodes) ∅ quit false 1.

Lemma ex_reach : exists p, reach p /\ submitted p = [5%positive] /\ waking p = [0%nat] /\
  num_workers (rq p) = 1%nat /\ destroyer p = DIdle.
Proof.
  eexists. split; [eapply reach_ext; [eapply (reach_init ex_nodes 1 false true (fun _ => true)); reflexivity|]|].
  - eapply (ext_submit _ 5 7); simpl; [done|by eexists|done|vm_compute; reflexivity].
  - done.
Qed.

Lemma runq_fifo_exactly_once_witness :
  exists p xs, reach p /\ SList.is_slist (job_list (rq p)) xs /\ [5%positive] = taken p ++ xs /\
    taken p ≡ₚ started p ++ calling p.
Proof.
  destruct ex_reach as (p & Hr & Hs & _). destruct (runq_fifo_exactly_once p Hr) as (xs & H1 & H2 & H3 & _).
  exists p, xs. split_and!; [exact Hr|exact H1| |exact H3]. rewrite <- H2. symmetry. exact Hs.
Defined.

Lemma runq_settles_witness :
  exists p, reach p /\ submitted p = [5%positive] /\
    Acc (fun p2 p1 => internal p1 p2) p /\ (forall p', rtc internal p p' -> quiescent p' -> settled p').
Proof.
  destruct ex_reach as (p & Hr & Hs & _). exists p. split; [exact Hr|]. split; [exact Hs|].
  exact (runq_settles p Hr).
Defined.

(** Two tasks; the user's state is the log of the tasks called. *)
Definition ex_call (t : positive) (f : Z) : M (runq * list positive) unit := modify (fun s => (s.1, s.2 ++ [t])).
Definition ex_rq2 : runq := mk_runq (SList.mk_slist (Some 5%positive) (Some 6%positive)
  {[ 5%positive := Some 6%positive; 6%positive := None ]}) {[ 5%positive := 1; 6%positive := 2 ]} false false 0.

Lemma runq_dispatch_runs_witness :
  call_ok ex_call (fun done u => u = done) (fun _ => 0%nat) /\ holds ex_rq2 [5%positive; 6%positive] /\
  wp (runq_dispatch ex_call 3 1) (ex_rq2, []) (fun n '(r', u') => exists done rest,
    n = Z.of_nat (length done) /\ holds r' rest /\ u' = done /\ [5%positive; 6%positive] `prefix_of` done ++ rest /\
    (1 <> 0 -> n <= 1) /\ (1 = 0 \/ n < 1 -> rest = [])).
Proof.
  assert (Hc : call_ok ex_call (fun done u => u = done) (fun _ => 0%nat)).
  { intros t f r u xs dn Hh _ ->. exists []. rewrite app_nil_r. split; [exact Hh|]. split; [simpl; lia|reflexivity]. }
  assert (Hh : holds ex_rq2 [5%positive; 6%positive]).
  { split; [|split; [reflexivity|]].
    - split; [by apply (bool_decide_unpack _); vm_compute|]. split; [|reflexivity]. vm_compute. eauto 10.
    - intros t Ht. apply elem_of_cons in Ht as [->|Ht]; [by eexists|].
      apply elem_of_cons in Ht as [->|Ht]; [by eexists|]. by apply not_elem_of_nil in Ht. }
  split; [exact Hc|]. split; [exact Hh|].
  apply (runq_dispatch_runs ex_call (fun done u => u = done) (fun _ => 0%nat) ex_rq2 [] [5%positive; 6%positive] 1 3 Hc Hh);
    simpl; [reflexivity|lia|lia|lia].
Defined.
