(* ===== verification/Mailbox.v ===== *)
(** Model of src/io/mailbox.h and src/io/mailbox.c: 32 flags that any thread may
    raise, and one consumer that waits for some or all of a set of them.

    Each operation holds the mailbox's lock once and then, if the wait is over,
    hands the mailbox's task to its run queue.  The operations below are the
    critical sections and return [fire]; [mb_step] interleaves them with the
    calls of [runq_task_exec] they owe and with the run queue's call of the
    task. *)
From S2P Require Import Prelude.

Inductive wait_mode := MAILBOX_WAIT_NONE | MAILBOX_WAIT_ANY | MAILBOX_WAIT_ALL.

Record mailbox := mk_mailbox {
  task_func : Z;
  state : Z;      (** mailbox_flags_t *)
  expected : Z;
  mode : wait_mode;
}.

Definition mailbox_init (func : Z) : mailbox := mk_mailbox func 0 0 MAILBOX_WAIT_NONE.

(** [~mask], on 32 bits *)
Definition not32 (x : Z) : Z := Z.lxor x (2 ^ 32 - 1).

Definition mailbox_take (clear_mask : Z) : M mailbox Z :=
  m ← get;
  put (mk_mailbox (task_func m) (Z.land (state m) (not32 clear_mask)) (expected m) (mode m));;
  ret (state m).

Definition mailbox_raise (set_mask : Z) : M mailbox bool :=
  modify (fun m => mk_mailbox (task_func m) (Z.lor (state m) set_mask) (expected m) (mode m));;
  m ← get;
  let fire :=
    match mode m with
    | MAILBOX_WAIT_NONE => false
    | MAILBOX_WAIT_ANY => truth (Z.land (expected m) (state m))
    | MAILBOX_WAIT_ALL => Z.land (expected m) (state m) =? expected m
    end in
  when fire (put (mk_mailbox (task_func m) (state m) (expected m) MAILBOX_WAIT_NONE));;
  ret fire.

Definition mailbox_wait (set cb : Z) : M mailbox bool :=
  modify (fun m => mk_mailbox cb (state m) set (mode m));;
  m ← get;
  if truth (Z.land (state m) set) then ret true
  else put (mk_mailbox (task_func m) (state m) (expected m) MAILBOX_WAIT_ANY);; ret false.

Definition mailbox_wait_all (set cb : Z) : M mailbox bool :=
  modify (fun m => mk_mailbox cb (state m) set (mode m));;
  m ← get;
  if Z.land (state m) set =? set then ret true
  else put (mk_mailbox (task_func m) (state m) (expected m) MAILBOX_WAIT_ALL);; ret false.

(** * The mailbox among its threads *)
Record mb_sys := mk_mb_sys {
  mb : mailbox;
  waiting : option wait_mode;  (** the consumer's wait, until its callback runs *)
  firing : nat;    (** threads about to call [runq_task_exec] *)
  queued : nat;    (** times the task is in the run queue *)
  waits : nat;     (** waits begun *)
  calls : list Z;  (** callbacks run *)
}.


Inductive mb_step : mb_sys -> mb_sys -> Prop :=
  | mb_raise s mask m fire : 0 <= mask < 2 ^ 32 -> mailbox_raise mask (mb s) = Ok (m, fire) ->
      mb_step s (mk_mb_sys m (waiting s) (firing s + b2n fire) (queued s) (waits s) (calls s))
  | mb_take s mask m flags : 0 <= mask < 2 ^ 32 -> waiting s = None -> mailbox_take mask (mb s) = Ok (m, flags) ->
      mb_step s (mk_mb_sys m (waiting s) (firing s) (queued s) (waits s) (calls s))
  | mb_wait s set cb m fire : 0 <= set < 2 ^ 32 -> waiting s = None -> mailbox_wait set cb (mb s) = Ok (m, fire) ->
      mb_step s (mk_mb_sys m (Some MAILBOX_WAIT_ANY) (firing s + b2n fire) (queued s) (Datatypes.S (waits s)) (calls s))
  | mb_wait_all s set cb m fire : 0 <= set < 2 ^ 32 -> waiting s = None -> mailbox_wait_all set cb (mb s) = Ok (m, fire) ->
      mb_step s (mk_mb_sys m (Some MAILBOX_WAIT_ALL) (firing s + b2n fire) (queued s) (Datatypes.S (waits s)) (calls s))
  | mb_exec s n : firing s = Datatypes.S n ->
      mb_step s (mk_mb_sys (mb s) (waiting s) n (Datatypes.S (queued s)) (waits s) (calls s))
  | mb_call s n : queued s = Datatypes.S n ->
      mb_step s (mk_mb_sys (mb s) None (firing s) n (waits s) (calls s ++ [task_func (mb s)])).

Inductive mb_reach : mb_sys -> Prop :=
  | mb_start func : mb_reach (mk_mb_sys (mailbox_init func) None 0 0 0 [])
  | mb_next s s' : mb_reach s -> mb_step s s' -> mb_reach s'.

(** * Flags *)
Lemma not32_testbit x n : 0 <= n < 32 -> Z.testbit (not32 x) n = negb (Z.testbit x n).
Proof.
  intros Hn. unfold not32. change (2 ^ 32 - 1) with (Z.ones 32). rewrite Z.lxor_spec, Z.ones_spec_low by lia.
  by destruct (Z.testbit x n).
Qed.

Lemma lor_range a b : 0 <= a < 2 ^ 32 -> 0 <= b < 2 ^ 32 -> 0 <= Z.lor a b < 2 ^ 32.
Proof.
  intros Ha Hb. assert (0 <= Z.lor a b) by (apply Z.lor_nonneg; lia). split; [done|].
  destruct (Z.eq_dec (Z.lor a b) 0) as [->|Hne]; [lia|]. apply Z.log2_lt_pow2; [lia|].
  rewrite Z.log2_lor by lia.
  apply Z.max_lub_lt; [destruct (Z.eq_dec a 0) as [->|]|destruct (Z.eq_dec b 0) as [->|]]; simpl; try lia;
    by apply Z.log2_lt_pow2; lia.
Qed.

Lemma land_range a b : 0 <= a < 2 ^ 32 -> 0 <= Z.land a b < 2 ^ 32.
Proof.
  intros Ha. assert (0 <= Z.land a b) by (apply Z.land_nonneg; lia). split; [done|].
  destruct (Z.eq_dec a 0) as [->|Hne]; [by rewrite Z.land_0_l|].
  apply Z.le_lt_trans with a; [|lia]. apply Z.ldiff_le; [lia|]. apply Z.bits_inj'. intros n Hn.
  rewrite Z.ldiff_spec, Z.land_spec, Z.bits_0. by destruct (Z.testbit a n), (Z.testbit b n).
Qed.

(** What a wait for [set] waits for: one, or all, of its flags. *)
Definition ready (w : wait_mode) (set flags : Z) : Prop :=
  match w with
  | MAILBOX_WAIT_NONE => True
  | MAILBOX_WAIT_ANY => exists n, 0 <= n /\ Z.testbit set n = true /\ Z.testbit flags n = true
  | MAILBOX_WAIT_ALL => forall n, 0 <= n -> Z.testbit set n = true -> Z.testbit flags n = true
  end.

Lemma ready_any set flags : 0 <= set -> truth (Z.land set flags) = true <-> ready MAILBOX_WAIT_ANY set flags.
Proof.
  intros Hs. unfold truth. simpl. rewrite negb_true_iff, Z.eqb_neq. split.
  - intros Hne. assert (0 <= Z.land set flags) by (apply Z.land_nonneg; lia).
    pose proof (Z.bit_log2 (Z.land set flags) ltac:(lia)) as Hb. rewrite Z.land_spec in Hb.
    apply andb_true_iff in Hb. exists (Z.log2 (Z.land set flags)). split; [apply Z.log2_nonneg|done].
  - intros (n & Hn & H1 & H2) E. pose proof (Z.land_spec set flags n) as Hb. by rewrite E, H1, H2, Z.bits_0 in Hb.
Qed.

Lemma ready_all set flags : (Z.land set flags =? set) = true <-> ready MAILBOX_WAIT_ALL set flags.
Proof.
  rewrite Z.eqb_eq. simpl. split.
  - intros E n Hn Hs. rewrite <- E, Z.land_spec in Hs. by apply andb_true_iff in Hs as [_ ?].
  - intros H. apply Z.bits_inj'. intros n Hn. rewrite Z.land_spec. specialize (H n Hn).
    destruct (Z.testbit set n); [by rewrite H|done].
Qed.

Definition readyb (w : wait_mode) (set flags : Z) : bool :=
  match w with
  | MAILBOX_WAIT_NONE => true
  | MAILBOX_WAIT_ANY => truth (Z.land set flags)
  | MAILBOX_WAIT_ALL => Z.land set flags =? set
  end.

#[local] Arguments readyb : simpl never.

Lemma readyb_spec w set flags : 0 <= set -> readyb w set flags = true <-> ready w set flags.
Proof. intros Hs. destruct w; [done|by apply ready_any|apply ready_all]. Qed.

Lemma ready_mono w set flags mask : ready w set flags -> ready w set (Z.lor flags mask).
Proof.
  destruct w; simpl; [done| |].
  - intros (n & Hn & H1 & H2). exists n. by rewrite Z.lor_spec, H2.
  - intros H n Hn Hs. by rewrite Z.lor_spec, H.
Qed.

(** * The invariant *)
Definition wait_inv (s : mb_sys) : Prop :=
  match waiting s with
  | None => mode (mb s) = MAILBOX_WAIT_NONE /\ (firing s + queued s = 0)%nat /\ waits s = length (calls s)
  | Some w => w <> MAILBOX_WAIT_NONE /\ waits s = Datatypes.S (length (calls s)) /\
      if readyb w (expected (mb s)) (state (mb s))
      then mode (mb s) = MAILBOX_WAIT_NONE /\ (firing s + queued s = 1)%nat
      else mode (mb s) = w /\ (firing s + queued s = 0)%nat
  end.

Definition flags_ok (m : mailbox) : Prop := 0 <= state m < 2 ^ 32 /\ 0 <= expected m < 2 ^ 32.

Definition mb_inv (s : mb_sys) : Prop := flags_ok (mb s) /\ wait_inv s.

Lemma raise_run m mask : mailbox_raise mask m =
  let fire := match mode m with MAILBOX_WAIT_NONE => false | w => readyb w (expected m) (Z.lor (state m) mask) end in
  Ok (mk_mailbox (task_func m) (Z.lor (state m) mask) (expected m) (if fire then MAILBOX_WAIT_NONE else mode m), fire).
Proof.
  destruct m as [f st ex []]; unfold mailbox_raise, readyb, bind, modify, get; simpl; [done|..];
    match goal with |- context [when ?b _] => by destruct b end.
Qed.

Lemma wait_run m set cb : mailbox_wait set cb m =
  let fire := readyb MAILBOX_WAIT_ANY set (state m) in
  Ok (mk_mailbox cb (state m) set (if fire then mode m else MAILBOX_WAIT_ANY), fire).
Proof.
  destruct m as [f st ex md]. cbv -[Z.lor Z.land Z.eqb truth]. rewrite Z.land_comm. by destruct (truth _).
Qed.

Lemma wait_all_run m set cb : mailbox_wait_all set cb m =
  let fire := readyb MAILBOX_WAIT_ALL set (state m) in
  Ok (mk_mailbox cb (state m) set (if fire then mode m else MAILBOX_WAIT_ALL), fire).
Proof.
  destruct m as [f st ex md]. cbv -[Z.lor Z.land Z.eqb truth]. rewrite Z.land_comm. by destruct (_ =? _).
Qed.

Lemma take_run m mask : mailbox_take mask m =
  Ok (mk_mailbox (task_func m) (Z.land (state m) (not32 mask)) (expected m) (mode m), state m).
Proof. done. Qed.

Lemma inv_raise s mask m fire : 0 <= mask < 2 ^ 32 -> mailbox_raise mask (mb s) = Ok (m, fire) -> mb_inv s ->
  mb_inv (mk_mb_sys m (waiting s) (firing s + b2n fire) (queued s) (waits s) (calls s)).
Proof.
  intros Hmask. rewrite raise_run. intros [= <- <-] [[Hst Hex] Hw].
  split; [split; [by apply lor_range|done]|]. unfold wait_inv in *. simpl.
  destruct (waiting s) as [w|]; [|by destruct Hw as (-> & Hfq & Hws); simpl; split_and!; [done|lia|done]].
  destruct Hw as (Hw & Hws & Hb). split_and!; [done..|].
  destruct (readyb w (expected (mb s)) (state (mb s))) eqn:Er.
  - apply readyb_spec in Er; [|lia]. assert (Er' := ready_mono _ _ _ mask Er). apply readyb_spec in Er' as ->; [|lia].
    destruct Hb as [-> Hb]. simpl. split; [done|lia].
  - clear Er. destruct Hb as [-> Hb]. destruct w; [done|..]; simpl; destruct (readyb _ _ _); simpl; (split; [done|lia]).
Qed.

(** Either kind of wait. *)
Lemma inv_wait s w set cb m fire : w <> MAILBOX_WAIT_NONE -> 0 <= set < 2 ^ 32 -> waiting s = None ->
  fire = readyb w set (state (mb s)) ->
  m = mk_mailbox cb (state (mb s)) set (if fire then mode (mb s) else w) -> mb_inv s ->
  mb_inv (mk_mb_sys m (Some w) (firing s + b2n fire) (queued s) (Datatypes.S (waits s)) (calls s)).
Proof.
  intros Hw Hset Hn -> -> [[Hst Hex] Hi]. unfold wait_inv in *. rewrite Hn in Hi. destruct Hi as (Hm & Hfq & Hws).
  split; [by split|]. unfold wait_inv. simpl. split_and!; [done|by f_equal|].
  destruct (readyb w set (state (mb s))); simpl; (split; [done|lia]).
Qed.

Lemma inv_step s s' : mb_step s s' -> mb_inv s -> mb_inv s'.
Proof.
  intros Hs. destruct Hs as [s mask m fire Hm Hr|s mask m flags Hm Hn Hr|s set cb m fire Hset Hn Hr|s set cb m fire Hset Hn Hr|s n Hf|s n Hq].
  - by eapply inv_raise.
  - rewrite take_run in Hr. injection Hr as <- <-. intros [[Hst Hex] Hw]. unfold wait_inv in Hw. rewrite Hn in Hw.
    split; [by split; [apply land_range|]|]. unfold wait_inv. simpl. by rewrite Hn.
  - rewrite wait_run in Hr. injection Hr as <- <-. by eapply inv_wait.
  - rewrite wait_all_run in Hr. injection Hr as <- <-. by eapply inv_wait.
  - intros [Hok Hw]. split; [done|]. unfold wait_inv in *. simpl. rewrite Hf in Hw.
    destruct (waiting s) as [w|]; [|by destruct Hw as (? & ? & ?); split_and!; [done|lia|done]].
    destruct Hw as (? & ? & Hb). split_and!; [done..|]. destruct (readyb _ _ _); destruct Hb; (split; [done|lia]).
  - intros [Hok Hw]. split; [done|]. unfold wait_inv in *. simpl. rewrite length_app. simpl.
    destruct (waiting s) as [w|]; [|lia]. destruct Hw as (? & Hws & Hb).
    destruct (readyb _ _ _); destruct Hb as [Hb Hfq]; [|lia]. split_and!; [done|lia|lia].
Qed.

Lemma mb_inv_reach s : mb_reach s -> mb_inv s.
Proof.
  induction 1 as [func|s s' _ IH Hs]; [|by eapply inv_step].
  split; [split; simpl; lia|]. done.
Qed.

(** * Properties *)

(** C35. A wait is completed exactly once, and exactly when its condition holds,
    in every interleaving of the consumer with the threads that raise flags:
    while the consumer waits, the task is in the run queue, or about to be put
    there, once if some (or all) of the flags it waits for are raised, and not at
    all otherwise; while it does not, never.  So the task is never handed to
    the run queue while it is still there, and no wait gets two callbacks.  A
    wait for some of the flags of the empty set is left out of the condition:
    what the code does with it is [wait_empty_never]. *)
Theorem mailbox_wait_completes s :
  mb_reach s ->
  (firing s + queued s <= 1)%nat /\
  match waiting s with
  | None => (firing s + queued s = 0)%nat /\ waits s = length (calls s)
  | Some w => waits s = Datatypes.S (length (calls s)) /\
      (expected (mb s) <> 0 \/ w = MAILBOX_WAIT_ALL ->
       ((firing s + queued s = 1)%nat <-> ready w (expected (mb s)) (state (mb s))))
  end.
Proof.
  intros [[_ Hex] Hw]%mb_inv_reach. unfold wait_inv in Hw. destruct (waiting s) as [w|]; [|split; [lia|tauto]].
  destruct Hw as (_ & Hws & Hb). pose proof (readyb_spec w (expected (mb s)) (state (mb s)) ltac:(lia)) as Hr.
  destruct (readyb _ _ _); destruct Hb as [_ Hfq]; (split; [lia|]); (split; [done|]); intros _.
  - rewrite <- Hr. split; [done|lia].
  - rewrite <- Hr. split; [lia|done].
Qed.

(** The operations on the flags, bit by bit: raising sets the flags of the
    mask and no others, taking returns all of them and clears those of the mask
    and no others, and a wait changes none, so no flag is lost; a wait that need not
    block fires at once. *)
Theorem mailbox_flags m mask set cb n :
  0 <= n < 32 -> 0 <= set ->
  wp (mailbox_raise mask) m (fun _ m' => Z.testbit (state m') n = Z.testbit (state m) n || Z.testbit mask n) /\
  wp (mailbox_take mask) m (fun r m' => r = state m /\
    Z.testbit (state m') n = Z.testbit (state m) n && negb (Z.testbit mask n)) /\
  wp (mailbox_wait set cb) m (fun fire m' => state m' = state m /\ expected m' = set /\ task_func m' = cb /\
    (fire = true <-> ready MAILBOX_WAIT_ANY set (state m))) /\
  wp (mailbox_wait_all set cb) m (fun fire m' => state m' = state m /\ expected m' = set /\ task_func m' = cb /\
    (fire = true <-> ready MAILBOX_WAIT_ALL set (state m))).
Proof.
  intros Hn Hs. unfold wp. rewrite raise_run, take_run, wait_run, wait_all_run. simpl. split_and!; try done.
  - apply Z.lor_spec.
  - by rewrite Z.land_spec, not32_testbit.
  - by apply (readyb_spec MAILBOX_WAIT_ANY).
  - by apply (readyb_spec MAILBOX_WAIT_ALL).
Qed.

(** Waiting for some of the flags of the empty set never ends. *)
Lemma wait_empty_never s mask m fire : mb_reach s -> waiting s = Some MAILBOX_WAIT_ANY -> expected (mb s) = 0 ->
  mailbox_raise mask (mb s) = Ok (m, fire) -> fire = false /\ firing s = 0%nat /\ queued s = 0%nat.
Proof.
  intros Hr Hw He. rewrite raise_run, He. intros [= _ <-].
  apply mb_inv_reach in Hr as [_ Hi]. unfold wait_inv in Hi. rewrite Hw, He in Hi.
  destruct Hi as (_ & _ & Hm & Hf). rewrite Hm. split; [done|lia].
Qed.

(** A consumer waits for flags 0 and 2; a producer raises 1, then 2. *)
Lemma mailbox_wait_completes_witness : exists s, mb_reach s /\ waiting s = Some MAILBOX_WAIT_ANY /\
  state (mb s) = 6 /\ (firing s + queued s <= 1)%nat /\
  ((firing s + queued s = 1)%nat <-> ready MAILBOX_WAIT_ANY (expected (mb s)) (state (mb s))).
Proof.
  assert (W : exists s, mb_reach s /\ waiting s = Some MAILBOX_WAIT_ANY /\ state (mb s) = 6 /\ expected (mb s) = 5).
  { eexists. split; [eapply mb_next; [eapply mb_next; [eapply mb_next; [apply (mb_start 0)|]|]|]|].
    - apply (mb_wait _ 5 9); [lia|reflexivity|cbv; reflexivity].
    - apply (mb_raise _ 2); [lia|cbv; reflexivity].
    - apply (mb_raise _ 4); [lia|cbv; reflexivity].
    - repeat split; reflexivity. }
  destruct W as (s & Hr & Hw & Hs & He). destruct (mailbox_wait_completes s Hr) as [H1 H2]. rewrite Hw in H2.
  destruct H2 as [_ H2]. rewrite He in H2. specialize (H2 ltac:(left; discriminate)). exists s. rewrite <- He in H2.
  repeat (apply conj; [first [exact Hr|exact Hw|exact Hs|exact H1]|]). exact H2.
Defined.

Lemma mailbox_flags_witness :
  wp (mailbox_raise 5) (mk_mailbox 0 2 0 MAILBOX_WAIT_NONE) (fun _ m' => Z.testbit (state m') 2 = true) /\
  wp (mailbox_take 1) (mk_mailbox 0 3 0 MAILBOX_WAIT_NONE) (fun r m' => r = 3 /\ Z.testbit (state m') 0 = false).
Proof.
  split.
  - exact (proj1 (mailbox_flags (mk_mailbox 0 2 0 MAILBOX_WAIT_NONE) 5 0 0 2 ltac:(lia) ltac:(lia))).
  - exact (proj1 (proj2 (mailbox_flags (mk_mailbox 0 3 0 MAILBOX_WAIT_NONE) 1 0 0 0 ltac:(lia) ltac:(lia)))).
Defined.
