(* ===== verification/Waitq.v ===== *)
(** Model of src/io/waitq.h and src/io/waitq.c: timers in a red-black tree, ordered
    by deadline, that become tasks of a run queue when they expire.

    A timer is one object: the same address stands for the timer, its node in
    the tree and its task.  Each function runs with the lock held where it
    touches the tree, so it is one step here; [clock_now] is an argument, and the
    hook is counted.  [runq_task_exec] is the operation of the run queue's
    model. *)
From S2P Require Import Prelude Rbt RbtTree RbtInv RbtSpec RbtMain RbtIter Lists Runq RunqMain.

Record waitq := mk_waitq {
  waiting_set : rbt;
  deadline : gmap positive Z;   (** clock_ticks_t, by timer *)
  tfunc : gmap positive Z;      (** [t->task.func] *)
  has_hook : bool;              (** [wq->wakeup != NULL] *)
  hook_calls : nat;
  run : runq;
}.

Definition deadline_of (wq : waitq) (t : positive) : Z := default 0 (deadline wq !! t).
Definition func_of (wq : waitq) (t : positive) : Z := default 0 (tfunc wq !! t).

(** * The order: by deadline, then by address *)
Definition cmp_by_deadline (kt nt : Z * positive) : Z :=
  if kt.1 <? nt.1 then -1
  else if nt.1 <? kt.1 then 1
  else if (kt.2 <? nt.2)%positive then -1
  else if (nt.2 <? kt.2)%positive then 1
  else 0.

Definition key_of (wq : waitq) (t : positive) : Z * positive := (deadline_of wq t, t).
Definition wq_compare (wq : waitq) : Z * positive -> positive -> Z := compare cmp_by_deadline (key_of wq).

Definition with_set (s : rbt) (wq : waitq) : waitq :=
  mk_waitq s (deadline wq) (tfunc wq) (has_hook wq) (hook_calls wq) (run wq).
Definition with_run (r : runq) (wq : waitq) : waitq :=
  mk_waitq (waiting_set wq) (deadline wq) (tfunc wq) (has_hook wq) (hook_calls wq) r.

(** Operations of the tree and of the run queue. *)
Definition wset {A} (m : M rbt A) : M waitq A := fun wq =>
  match m (waiting_set wq) with
  | Ok (s, a) => Ok (with_set s wq, a)
  | Crash => Crash
  | NoFuel => NoFuel
  end.

Definition on_run {A} (m : M runq A) : M waitq A := fun wq =>
  match m (run wq) with
  | Ok (r, a) => Ok (with_run r wq, a)
  | Crash => Crash
  | NoFuel => NoFuel
  end.

Definition set_deadline (t : positive) (d : Z) : M waitq unit := modify (fun wq =>
  mk_waitq (waiting_set wq) (<[t := d]> (deadline wq)) (tfunc wq) (has_hook wq) (hook_calls wq) (run wq)).

Definition set_func (t : positive) (f : Z) : M waitq unit := modify (fun wq =>
  mk_waitq (waiting_set wq) (deadline wq) (<[t := f]> (tfunc wq)) (has_hook wq) (hook_calls wq) (run wq)).

(** [if (need_wakeup && wq->wakeup) wq->wakeup(wq);] *)
Definition call_hook (need_wakeup : bool) : M waitq unit := modify (fun wq =>
  mk_waitq (waiting_set wq) (deadline wq) (tfunc wq) (has_hook wq)
    (if need_wakeup && has_hook wq then Datatypes.S (hook_calls wq) else hook_calls wq) (run wq)).

(** [runq_task_exec(&t->task, t->task.func)] *)
Definition exec (t : positive) : M waitq unit :=
  wq ← get;
  on_run (task_exec_lock t (func_of wq t));;
  ret tt.

Definition waitq_init (h : gmap positive rbt_node) (hook : bool) (r : runq) : waitq :=
  mk_waitq (rbt_init h) ∅ ∅ hook 0 r.

Definition expire_one (now : Z) : M waitq (option positive) :=
  n ← wset rbt_iter_first;
  match n with
  | None => ret None
  | Some t =>
      wq ← get;
      if now <? deadline_of wq t then ret None
      else wset (rbt_remove n);; ret (Some t)
  end.

Definition waitq_next_deadline (now : Z) : M waitq Z :=
  n ← wset rbt_iter_first;
  match n with
  | None => ret (-1)
  | Some t =>
      wq ← get;
      if deadline_of wq t <? now then ret 0 else ret (i32 (u64 (deadline_of wq t - now)))
  end.

Definition waitq_dispatch (fuel : nat) (now limit : Z) : M waitq Z :=
  loop fuel (fun count =>
    if (limit =? 0) || (count <? limit) then
      t ← expire_one now;
      match t with
      | None => ret (inr count)
      | Some t => exec t;; ret (inl (u32 (count + 1)))
      end
    else ret (inr count)) 0.

Definition wset_add (t : positive) : M waitq unit :=
  wq ← get;
  wset (rbt_insert (wq_compare wq) (key_of wq t) (Some t));;
  p ← wset (rbt_iter_prev (Some t));
  call_hook (bool_decide (p = None)).

Definition wset_remove (t : positive) : M waitq bool :=
  wq ← get;
  n ← wset (rbt_find (wq_compare wq) (key_of wq t));
  match n with
  | None => call_hook false;; ret false
  | Some _ =>
      wset (rbt_remove n);;
      p ← wset (rbt_iter_prev n);
      call_hook (bool_decide (p = None));;
      ret true
  end.

Definition waitq_timer_wait (now : Z) (t : positive) (interval_ms func : Z) : M waitq unit :=
  set_func t func;;
  set_deadline t (u64 (now + interval_ms));;
  wset_add t.

Definition waitq_timer_cancelled (t : positive) : M waitq bool :=
  wq ← get; ret (deadline_of wq t =? 0).

Definition waitq_timer_cancel (t : positive) : M waitq unit :=
  r ← wset_remove t;
  when r (set_deadline t 0;; exec t).

Definition waitq_timer_reschedule (now : Z) (t : positive) (interval_ms : Z) : M waitq unit :=
  r ← wset_remove t;
  when r (set_deadline t (u64 (now + interval_ms));; wset_add t).

(** * The order is one *)
#[export] Instance cmp_by_deadline_order : KeyOrder cmp_by_deadline.
Proof.
  assert (H : forall x y, (cmp_by_deadline x y < 0 <-> (x.1 < y.1 \/ x.1 = y.1 /\ (x.2 < y.2)%positive)) /\
    (cmp_by_deadline x y = 0 <-> x = y) /\ (0 < cmp_by_deadline x y <-> (y.1 < x.1 \/ y.1 = x.1 /\ (y.2 < x.2)%positive))).
  { intros [a b] [c d]. unfold cmp_by_deadline. simpl.
    destruct (Z.ltb_spec a c), (Z.ltb_spec c a), (Pos.ltb_spec b d), (Pos.ltb_spec d b); try lia;
      (split_and!; split; intros Hx; try (injection Hx as ? ?); try lia; try (f_equal; lia)). }
  split.
  - intros x. by apply H.
  - intros x y. rewrite (proj1 (H x y)), (proj2 (proj2 (H y x))). done.
  - intros x y z. rewrite !(proj1 (H _ _)). lia.
  - intros x y z H1 ->%H. done.
  - intros x y z ->%H H2. done.
Qed.

(** Strictly before, as timers of [wq]. *)
Definition earlier (wq : waitq) (a b : positive) : Prop :=
  deadline_of wq a < deadline_of wq b \/ deadline_of wq a = deadline_of wq b /\ (a < b)%positive.

Lemma key_lt_earlier wq a b : key_lt cmp_by_deadline (key_of wq) a b <-> earlier wq a b.
Proof.
  unfold key_lt, key_of, cmp_by_deadline, earlier. simpl.
  destruct (Z.ltb_spec (deadline_of wq a) (deadline_of wq b)), (Z.ltb_spec (deadline_of wq b) (deadline_of wq a)),
    (Pos.ltb_spec a b), (Pos.ltb_spec b a); lia.
Qed.
