(* ===== verification/WaitqMain.v ===== *)
(** Correctness of src/io/waitq.c: the timers form a well-formed tree in order of
    deadline; dispatching hands exactly the due ones to the run queue, in that
    order; setting, cancelling and rescheduling a timer do what they say, and
    the hook is called when a new timer becomes the first. *)
From S2P Require Import Prelude Rbt RbtTree RbtInv RbtSpec RbtMain RbtIter Lists Runq RunqMain Waitq.

(** The timers waiting, in order, and the tasks in the run queue. *)
Record wq_ok (wq : waitq) (xs ys : list positive) : Prop := {
  wo_tree : is_rbt cmp_by_deadline (key_of wq) (waiting_set wq) xs;
  wo_queue : SList.is_slist (job_list (run wq)) ys;
  wo_apart : forall t, t ∈ xs -> t ∉ ys /\ is_Some (SList.snodes (job_list (run wq)) !! t);
}.

Lemma is_rbt_key_ext (k1 k2 : positive -> Z * positive) s xs : (forall a, a ∈ xs -> k1 a = k2 a) ->
  is_rbt cmp_by_deadline k1 s xs -> is_rbt cmp_by_deadline k2 s xs.
Proof.
  intros Hk (t & H & Hb & E & Hs). exists t. split_and!; [done..|]. clear - Hk Hs.
  induction Hs as [|x xs Hs IH Hf]; constructor.
  - apply IH. intros a Ha. apply Hk. set_solver.
  - apply Forall_forall. intros y Hy. rewrite Forall_forall in Hf. specialize (Hf y Hy).
    unfold key_lt in *. rewrite <- !Hk by set_solver. done.
Qed.

Lemma wq_ok_sorted wq xs ys : wq_ok wq xs ys -> StronglySorted (earlier wq) xs.
Proof.
  intros [(_ & _ & _ & _ & Hs) _ _]. induction Hs as [|x xs Hs IH Hf]; constructor; [done|].
  eapply Forall_impl; [exact Hf|]. intros y. apply key_lt_earlier.
Qed.

(** * Running the parts *)
Lemma wp_wset {A} (m : M rbt A) wq Q : wp m (waiting_set wq) (fun a s => Q a (with_set s wq)) -> wp (wset m) wq Q.
Proof. unfold wp, wset. by destruct (m _) as [[s a]| |]. Qed.

Lemma wp_wset_read {A} (m : M rbt A) wq Q (P : A -> Prop) :
  wp m (waiting_set wq) (fun a s => s = waiting_set wq /\ P a) -> (forall a, P a -> Q a wq) -> wp (wset m) wq Q.
Proof. intros Hm HQ. apply wp_wset. eapply wp_mono; [exact Hm|]. intros a s [-> Ha]. destruct wq. by apply HQ. Qed.

(** The task goes to the end of the run queue. *)
Lemma wq_ok_exec wq xs ys t f : wq_ok wq xs ys -> t ∉ xs -> t ∉ ys -> is_Some (SList.snodes (job_list (run wq)) !! t) ->
  exists r b, task_exec_lock t f (run wq) = Ok (r, b) /\ wq_ok (with_run r wq) xs (ys ++ [t]) /\ func r = <[t := f]> (func (run wq)) /\
    quit_request r = quit_request (run wq).
Proof.
  intros [H1 H2 H3] Ht Hy Hn. destruct (task_exec_spec (run wq) ys t f H2 Hy Hn) as (l & Hl & Hx & E).
  do 2 eexists. split; [exact E|]. split; [|done]. split; [done|done|]. intros u Hu. destruct (H3 u Hu) as [Hu1 Hu2]. simpl.
  split; [set_solver|]. rewrite Hx; [done|]. set_solver.
Qed.

Lemma exec_ok wq xs ys t Q : wq_ok wq xs ys -> t ∉ xs -> t ∉ ys ->
  is_Some (SList.snodes (job_list (run wq)) !! t) ->
  (forall r, wq_ok (with_run r wq) xs (ys ++ [t]) -> func r = <[t := func_of wq t]> (func (run wq)) ->
     quit_request r = quit_request (run wq) -> Q tt (with_run r wq)) ->
  wp (exec t) wq Q.
Proof.
  intros H Ht Hy Hn HQ. destruct (wq_ok_exec wq xs ys t (func_of wq t) H Ht Hy Hn) as (r & b & E & Hok & Hf & Hq).
  unfold exec. wp_bind. apply wp_get. wp_bind. unfold wp, on_run. rewrite E. by apply HQ.
Qed.

(** * The tree of timers *)
Lemma compare_ne wq t x : x <> t -> wq_compare wq (key_of wq t) x <> 0.
Proof.
  intros Hne. unfold wq_compare, compare, key_of, cmp_by_deadline. simpl.
  destruct (Z.ltb_spec (deadline_of wq t) (deadline_of wq x)); [done|].
  destruct (Z.ltb_spec (deadline_of wq x) (deadline_of wq t)); [done|].
  destruct (Pos.ltb_spec t x); [done|]. destruct (Pos.ltb_spec x t); [done|]. lia.
Qed.

Lemma compare_self wq t : cmp_by_deadline (key_of wq t) (key_of wq t) = 0.
Proof. apply cmp_refl. Qed.

(** A new timer goes between two others. *)
Lemma spec_insert_fresh wq t xs : t ∉ xs -> exists l1 l2, xs = l1 ++ l2 /\
  spec_insert cmp_by_deadline (key_of wq) (key_of wq t) t xs = (None, l1 ++ t :: l2).
Proof.
  induction xs as [|x xs IH]; intros Ht; simpl; [by exists [], []|].
  pose proof (compare_ne wq t x ltac:(set_solver)) as Hc. fold (wq_compare wq).
  destruct (Z.eqb_spec (wq_compare wq (key_of wq t) x) 0); [done|].
  destruct (wq_compare wq (key_of wq t) x <? 0); [by exists [], (x :: xs)|].
  destruct IH as (l1 & l2 & -> & ->); [set_solver|]. by exists (x :: l1), l2.
Qed.

Lemma spec_find_timer wq t xs :
  spec_find cmp_by_deadline (key_of wq) (key_of wq t) xs = if decide (t ∈ xs) then Some t else None.
Proof.
  induction xs as [|x xs IH]; simpl; [done|]. fold (wq_compare wq).
  destruct (decide (x = t)) as [->|Hne].
  - unfold wq_compare, compare. rewrite compare_self. simpl. by rewrite decide_True by set_solver.
  - destruct (Z.eqb_spec (wq_compare wq (key_of wq t) x) 0) as [E|_]; [by apply compare_ne in E|].
    rewrite IH. destruct (decide (t ∈ xs)); [by rewrite decide_True by set_solver|].
    by rewrite decide_False by set_solver.
Qed.

Definition count_hook (wq : waitq) (b : bool) : nat :=
  if b && has_hook wq then Datatypes.S (hook_calls wq) else hook_calls wq.

(** Only the tree and the count of hook calls differ. *)
Definition same_rest (wq wq' : waitq) : Prop :=
  deadline wq' = deadline wq /\ tfunc wq' = tfunc wq /\ has_hook wq' = has_hook wq /\ run wq' = run wq.

Lemma wp_wset_add wq xs ys t Q : wq_ok wq xs ys -> t ∉ xs -> t ∉ ys ->
  is_Some (nodes (waiting_set wq) !! t) -> is_Some (SList.snodes (job_list (run wq)) !! t) ->
  (forall wq' l1 l2, xs = l1 ++ l2 -> wq_ok wq' (l1 ++ t :: l2) ys -> same_rest wq wq' ->
     hook_calls wq' = count_hook wq (bool_decide (l1 = [])) -> Q tt wq') ->
  wp (wset_add t) wq Q.
Proof.
  intros [H1 H2 H3] Ht Hy Hn Hs HQ. unfold wset_add. wp_bind. apply wp_get. wp_bind. apply wp_wset.
  eapply wp_mono; [by apply (wp_tree_insert cmp_by_deadline (key_of wq)); [..|apply compare_self]|].
  intros r s' (_ & Hr & _). destruct (spec_insert_fresh wq t xs Ht) as (l1 & l2 & -> & E). rewrite E in Hr.
  destruct (wp_iter_next_prev cmp_by_deadline (key_of wq) s' l1 t l2 Hr) as [_ Hp].
  wp_bind. eapply wp_wset_read; [exact Hp|]. intros p ->. apply wp_modify.
  eapply (HQ _ l1 l2); [done| |done|].
  - split; [done|done|]. intros u Hu. destruct (decide (u = t)) as [->|]; [done|]. apply H3. set_solver.
  - unfold count_hook. simpl. by rewrite (bool_decide_ext _ _ (last_None l1)).
Qed.

Lemma wp_wset_remove wq xs ys t Q : wq_ok wq xs ys ->
  (t ∉ xs -> Q false wq) ->
  (forall wq', t ∈ xs -> wq_ok wq' (spec_remove t xs) ys -> same_rest wq wq' ->
     is_Some (nodes (waiting_set wq') !! t) ->
     (hook_calls wq' = hook_calls wq \/
      hook_calls wq' = Datatypes.S (hook_calls wq) /\ exists zs, xs = t :: zs /\ (length zs <= 1)%nat) ->
     Q true wq') ->
  wp (wset_remove t) wq Q.
Proof.
  intros Hok HQ1 HQ2. pose proof Hok as [H1 H2 H3]. unfold wset_remove. wp_bind. apply wp_get. wp_bind.
  eapply (wp_wset_read _ _ _ (fun n => n = spec_find cmp_by_deadline (key_of wq) (key_of wq t) xs)).
  { eapply wp_mono; [by apply (wp_tree_find cmp_by_deadline (key_of wq))|]. by intros a s [-> ->]. }
  intros n ->. rewrite spec_find_timer.
  destruct (decide (t ∈ xs)) as [Ht|Ht].
  - wp_bind. apply wp_wset. eapply wp_mono; [by apply (wp_tree_remove cmp_by_deadline (key_of wq))|]. intros _ s' (Hr & _ & Hl).
    wp_bind. assert (Hn : t ∉ spec_remove t xs) by (unfold spec_remove; rewrite list_elem_of_filter; tauto).
    eapply wp_wset_read; [by eapply (wp_iter_prev_stale cmp_by_deadline (key_of wq) s' xs)|].
    intros p Hp. wp_bind. apply wp_modify, wp_ret, HQ2; [done| |done| |].
    + split; [done|done|]. intros u Hu. apply H3. by apply list_elem_of_filter in Hu as [_ ?].
    + destruct Hl as (nd & Hnd & _). by exists nd.
    + simpl. destruct p; [by left|]. destruct (has_hook wq); simpl; [right|by left]. split; [done|]. by apply Hp.
  - wp_bind. apply wp_modify, wp_ret. simpl. destruct wq. by apply HQ1.
Qed.

(** * Expiry *)
Lemma wp_expire_one wq xs ys now Q : wq_ok wq xs ys ->
  ((forall t, t ∈ xs -> now < deadline_of wq t) -> Q None wq) ->
  (forall wq' t xs', xs = t :: xs' -> deadline_of wq t <= now -> wq_ok wq' xs' ys -> same_rest wq wq' ->
     hook_calls wq' = hook_calls wq -> Q (Some t) wq') ->
  wp (expire_one now) wq Q.
Proof.
  intros Hok HQ1 HQ2. pose proof (wq_ok_sorted _ _ _ Hok) as Hs. pose proof Hok as [H1 H2 H3].
  unfold expire_one. wp_bind. eapply wp_wset_read; [by eapply wp_iter_first|]. intros n ->.
  destruct xs as [|t xs]; simpl; [apply wp_ret, HQ1; set_solver|]. wp_bind. apply wp_get.
  apply StronglySorted_cons in Hs as [Hf Hs]. destruct (Z.ltb_spec now (deadline_of wq t)) as [Hlt|Hge].
  - apply wp_ret, HQ1. intros u [->|Hu]%elem_of_cons; [done|]. rewrite Forall_forall in Hf.
    specialize (Hf u Hu). unfold earlier in Hf. lia.
  - wp_bind. apply wp_wset. eapply wp_mono; [apply (wp_tree_remove cmp_by_deadline (key_of wq) _ _ t H1); set_solver|].
    intros _ s' (Hr & _ & _). apply wp_ret. eapply HQ2; [done|done| |done|done].
    assert (Hnt : t ∉ xs) by (apply is_rbt_NoDup, NoDup_cons in H1; tauto).
    assert (E : spec_remove t (t :: xs) = xs).
    { unfold spec_remove. rewrite filter_cons_False by tauto. apply filter_all, Forall_forall. by intros u Hu ->. }
    rewrite E in Hr. split; [done|done|]. intros u Hu. apply H3. set_solver.
Qed.

Lemma deadline_same wq wq' t : same_rest wq wq' -> deadline_of wq' t = deadline_of wq t.
Proof. unfold deadline_of. by intros (-> & _). Qed.

(** [waitq_dispatch] takes the timers that are due, in order, up to the limit. *)
Definition fires (wq : waitq) (xs ys : list positive) (now limit : Z) (fuel : nat) : Prop :=
  wp (waitq_dispatch fuel now limit) wq (fun n wq' => exists fired rest,
    xs = fired ++ rest /\ n = Z.of_nat (length fired) /\ wq_ok wq' rest (ys ++ fired) /\
    StronglySorted (earlier wq) xs /\
    deadline wq' = deadline wq /\ hook_calls wq' = hook_calls wq /\
    (forall t, t ∈ fired -> deadline_of wq t <= now /\ func (run wq') !! t = Some (func_of wq t)) /\
    (forall t, t ∉ fired -> func (run wq') !! t = func (run wq) !! t) /\ quit_request (run wq') = quit_request (run wq) /\
    (limit <> 0 -> n <= limit) /\
    (limit = 0 \/ n < limit -> forall t, t ∈ rest -> now < deadline_of wq t)).

Lemma wp_dispatch wq xs ys now limit fuel :
  wq_ok wq xs ys -> 0 <= limit < 2 ^ 32 -> Z.of_nat (length xs) < 2 ^ 32 -> (length xs < fuel)%nat -> fires wq xs ys now limit fuel.
Proof.
  intros Hok Hlim Hmax Hfuel. unfold fires, waitq_dispatch. pose proof (wq_ok_sorted _ _ _ Hok) as Hsort.
  pose proof (is_rbt_NoDup _ _ _ _ (wo_tree _ _ _ Hok)) as Hnd.
  apply (wp_loop (fun k count wq' => exists fired rest, xs = fired ++ rest /\ count = Z.of_nat (length fired) /\
    wq_ok wq' rest (ys ++ fired) /\ deadline wq' = deadline wq /\ tfunc wq' = tfunc wq /\
    hook_calls wq' = hook_calls wq /\
    (forall t, t ∈ fired -> deadline_of wq t <= now /\ func (run wq') !! t = Some (func_of wq t)) /\
    (forall t, t ∉ fired -> func (run wq') !! t = func (run wq) !! t) /\ quit_request (run wq') = quit_request (run wq) /\
    (limit <> 0 -> count <= limit) /\ k = length rest)) with (k := length xs); [|done|].
  - intros k count wq' (fired & rest & E & -> & Hok' & Hd & Htf & Hh & Hf & Hnf & Hq & Hle & ->).
    assert (Hdl : forall t, deadline_of wq' t = deadline_of wq t) by (intros t; unfold deadline_of; by rewrite Hd).
    destruct ((limit =? 0) || (Z.of_nat (length fired) <? limit)) eqn:Ec.
    2: { apply wp_ret. exists fired, rest. split_and!; try done. lia. }
    wp_bind. eapply wp_expire_one; [exact Hok'| |].
    + intros Hnone. apply wp_ret. exists fired, rest. split_and!; try done.
      intros _ t Ht. rewrite <- Hdl. by apply Hnone.
    + intros w2 t rest' -> Hdue Hok2 Hsame Hh2. pose proof (wo_apart _ _ _ Hok' t ltac:(set_solver)) as [Hty Htn].
      assert (Htr : t ∉ rest').
      { destruct Hok' as [H1 _ _]. apply is_rbt_NoDup, NoDup_cons in H1. tauto. }
      destruct Hsame as (S1 & S2 & S3 & S4). wp_bind. eapply exec_ok; [exact Hok2|done|done|by rewrite S4|].
      intros r Hok3 Hfr Hqr. apply wp_ret. assert (Hlen : (length (fired ++ [t]) <= length xs)%nat).
      { rewrite E, !length_app. simpl. lia. }
      rewrite length_app in Hlen. simpl in Hlen. rewrite u32_small by lia. exists (length rest'). split; [simpl; lia|].
      exists (fired ++ [t]), rest'. rewrite <- !app_assoc in *. split_and!; simpl; try done; try congruence.
      * rewrite length_app. simpl. lia.
      * intros u [Hu| ->%list_elem_of_singleton]%elem_of_app; rewrite Hfr, S4.
        -- rewrite lookup_insert_ne; [by apply Hf|]. intros ->. rewrite E in Hnd. apply NoDup_app in Hnd. set_solver.
        -- rewrite lookup_insert_eq. split; [by rewrite <- Hdl|]. unfold func_of. by rewrite S2, Htf.
      * intros u Hu. rewrite Hfr, S4, lookup_insert_ne by set_solver. apply Hnf. set_solver.
      * lia.
  - exists [], xs. rewrite app_nil_r. split_and!; try done; [set_solver|simpl; lia].
Qed.

(** * Setting, cancelling and rescheduling *)

(** [t] waits until [d], every other timer as before, and the hook is called when
    [t] is now the first. *)
Definition timer_set (wq wq' : waitq) (hooks : nat) (xs ys : list positive) (t : positive) (d : Z) : Prop :=
  exists l1 l2, xs = l1 ++ l2 /\ wq_ok wq' (l1 ++ t :: l2) ys /\
    StronglySorted (earlier wq') (l1 ++ t :: l2) /\ deadline_of wq' t = d /\
    (forall u, u <> t -> deadline_of wq' u = deadline_of wq u) /\
    hook_calls wq' = if has_hook wq && bool_decide (l1 = []) then Datatypes.S hooks else hooks.

Lemma deadline_set wq wq' t d u : deadline wq' = <[t := d]> (deadline wq) ->
  deadline_of wq' u = if decide (u = t) then d else deadline_of wq u.
Proof.
  unfold deadline_of. intros ->. destruct (decide (u = t)) as [->|]; [by rewrite lookup_insert_eq|].
  by rewrite lookup_insert_ne.
Qed.

(** A timer outside the tree may change its deadline. *)
Lemma wq_ok_set_deadline wq xs ys t d : wq_ok wq xs ys -> t ∉ xs ->
  wq_ok (mk_waitq (waiting_set wq) (<[t := d]> (deadline wq)) (tfunc wq) (has_hook wq) (hook_calls wq) (run wq)) xs ys.
Proof.
  intros [H1 H2 H3] Ht. split; [|done|done]. eapply is_rbt_key_ext; [|exact H1].
  intros a Ha. unfold key_of. f_equal. symmetry. etrans; [by apply (deadline_set wq)|].
  by rewrite decide_False by (intros ->; done).
Qed.

Lemma wp_set_and_add wq xs ys t d Q : wq_ok wq xs ys -> t ∉ xs -> t ∉ ys ->
  is_Some (nodes (waiting_set wq) !! t) -> is_Some (SList.snodes (job_list (run wq)) !! t) ->
  (forall wq', timer_set wq wq' (hook_calls wq) xs ys t d -> tfunc wq' = tfunc wq -> Q tt wq') ->
  wp (set_deadline t d;; wset_add t) wq Q.
Proof.
  intros Hok Ht Hy Hn Hs HQ. wp_bind. apply wp_modify. eapply wp_wset_add; [by apply wq_ok_set_deadline|done..|].
  intros wq' l1 l2 -> Hok' (S1 & S2 & S3 & S4) Hh. simpl in *. apply HQ; [|done].
  pose proof (deadline_set wq wq' t d) as Hd. exists l1, l2. split_and!; [done|done|by eapply wq_ok_sorted| | |].
  - by rewrite Hd, decide_True.
  - intros u Hu. by rewrite Hd, decide_False.
  - rewrite Hh. unfold count_hook. simpl. by rewrite andb_comm.
Qed.

(** A timer [t] that is set, cancelled or rescheduled, and the next deadline. *)
Definition serves (wq : waitq) (xs ys : list positive) (now : Z) (t : positive) (interval_ms f : Z) : Prop :=
  (t ∉ xs -> t ∉ ys -> is_Some (nodes (waiting_set wq) !! t) -> is_Some (SList.snodes (job_list (run wq)) !! t) ->
    wp (waitq_timer_wait now t interval_ms f) wq (fun _ wq' =>
      timer_set wq wq' (hook_calls wq) xs ys t (u64 (now + interval_ms)) /\ func_of wq' t = f)) /\
  wp (waitq_next_deadline now) wq (fun r wq' => wq' = wq /\
    match xs with
    | [] => r = -1
    | x :: _ => if deadline_of wq x <? now then r = 0
                else deadline_of wq x - now < 2 ^ 31 -> r = deadline_of wq x - now
    end) /\
  wp (waitq_timer_cancel t) wq (fun _ wq' =>
    if decide (t ∈ xs) then
      wq_ok wq' (spec_remove t xs) (ys ++ [t]) /\ deadline_of wq' t = 0 /\
      (forall u, u <> t -> deadline_of wq' u = deadline_of wq u) /\ func (run wq') !! t = Some (func_of wq t)
    else wq' = wq) /\
  wp (waitq_timer_reschedule now t interval_ms) wq (fun _ wq' =>
    if decide (t ∈ xs) then
      exists hooks, timer_set wq wq' hooks (spec_remove t xs) ys t (u64 (now + interval_ms)) /\
        (hook_calls wq <= hooks)%nat
    else wq' = wq).

Lemma wp_timer wq xs ys now t interval_ms f : wq_ok wq xs ys -> serves wq xs ys now t interval_ms f.
Proof.
  intros Hok. split_and!.
  - intros Ht Hy Hn Hs. unfold waitq_timer_wait. wp_bind. apply wp_modify.
    apply (wp_set_and_add _ xs ys); [|done..|].
    + destruct Hok as [H1 H2 H3]. by split.
    + intros wq' Hset Hf. split; [done|]. unfold func_of. rewrite Hf. simpl. by rewrite lookup_insert_eq.
  - pose proof (wq_ok_sorted _ _ _ Hok) as Hsort. unfold waitq_next_deadline. wp_bind.
    eapply wp_wset_read; [eapply (wp_iter_first cmp_by_deadline (key_of wq)), Hok|]. intros n ->.
    destruct xs as [|x xs]; simpl; [by apply wp_ret|]. wp_bind. apply wp_get.
    destruct (Z.ltb_spec (deadline_of wq x) now) as [Hlt|Hge]; apply wp_ret; (split; [done|]); [done|].
    intros Hd. unfold u64. rewrite Z.mod_small by lia. apply i32_small. lia.
  - unfold waitq_timer_cancel. wp_bind. eapply wp_wset_remove; [exact Hok| |].
    + intros Ht. apply wp_ret. by rewrite decide_False.
    + intros w Ht Hok2 (S1 & S2 & S3 & S4) _ _. simpl. wp_bind. apply wp_modify.
      assert (Htr : t ∉ spec_remove t xs) by (unfold spec_remove; rewrite list_elem_of_filter; tauto).
      destruct (wo_apart _ _ _ Hok t Ht) as [Hty Htn].
      eapply exec_ok; [by apply wq_ok_set_deadline|done|done|by simpl; rewrite S4|].
      intros r Hok3 Hf _. rewrite decide_True by done. split_and!; [done|..].
      * etrans; [by apply (deadline_set w)|]. by rewrite decide_True.
      * intros u Hu. etrans; [by apply (deadline_set w)|]. rewrite decide_False by done. by apply deadline_same.
      * simpl. rewrite Hf, lookup_insert_eq. unfold func_of. simpl. by rewrite S2.
  - unfold waitq_timer_reschedule. wp_bind. eapply wp_wset_remove; [exact Hok| |].
    + intros Ht. apply wp_ret. by rewrite decide_False.
    + intros w Ht Hok2 Hsame Hn Hh. destruct Hsame as (S1 & S2 & S3 & S4).
      assert (Htr : t ∉ spec_remove t xs) by (unfold spec_remove; rewrite list_elem_of_filter; tauto).
      destruct (wo_apart _ _ _ Hok t Ht) as [Hty Htn].
      eapply wp_set_and_add; [exact Hok2|done|done|done|by rewrite S4|].
      intros wq' (l1 & l2 & E & H1 & H2 & H3 & H4 & H5) _. rewrite decide_True by done.
      exists (hook_calls w). split; [|destruct Hh as [->|[-> _]]; lia].
      exists l1, l2. split_and!; [done..| |by rewrite <- S3].
      intros u Hu. rewrite H4 by done. unfold deadline_of. by rewrite S1.
Qed.

(** C36. Timers: [waitq_dispatch] hands exactly the due timers to the run queue, in the
    order of their deadlines (and of their addresses, for equal ones), up to
    the limit, and takes them out of the tree; it returns how many, and no
    timer fires before its deadline.  A timer that is set waits, until the given
    interval from now, at its place in the order of deadlines, and the hook is called
    exactly when it becomes the first; the next deadline is the first timer's;
    cancelling a waiting timer takes it out, marks it cancelled and runs it once,
    rescheduling moves it, and both do nothing to one that does not wait.  A
    timer is at any time in the tree or in the run queue, never in both. *)
Theorem waitq_runs_timers wq xs ys now :
  wq_ok wq xs ys ->
  (forall limit fuel, 0 <= limit < 2 ^ 32 -> Z.of_nat (length xs) < 2 ^ 32 -> (length xs < fuel)%nat ->
     fires wq xs ys now limit fuel) /\
  forall t interval_ms f, serves wq xs ys now t interval_ms f.
Proof. intros Hok. split; intros; [by apply wp_dispatch|by apply wp_timer]. Qed.

(** * Witnesses *)

(** Two timers: 2 is due at 10, 5 at 30; timer 7 does not wait. *)
Definition ex_wq : waitq := mk_waitq
  (mk_rbt (Some 2%positive) (list_to_map
    [(2%positive, mk_node 0 None (Some 5%positive) None); (5%positive, mk_node 1 None None (Some 2%positive));
     (7%positive, mk_node 0 None None None)]))
  (list_to_map [(2%positive, 10); (5%positive, 30)]) (list_to_map [(2%positive, 100); (5%positive, 101)])
  true 0
  (mk_runq (SList.mk_slist None None (list_to_map [(2%positive, None); (5%positive, None); (7%positive, None)]))
    ∅ false false 0).

Lemma ex_wq_ok : wq_ok ex_wq [2; 5]%positive [].
Proof.
  split.
  - exists (Node Leaf 2 0 (Node Leaf 5 1 Leaf)). split_and!; [split; try done| |done|].
    + apply (bool_decide_unpack _). by vm_compute.
    + split; [done|]. exists 1%nat. apply RB_black; [done|constructor|].
      by apply RB_red; [| | |done|done]; (done || constructor).
    + repeat constructor.
  - split; [constructor|]. by vm_compute.
  - intros t Ht. split; [apply not_elem_of_nil|]. set_unfold. destruct Ht as [->|[->|[]]]; by eexists.
Qed.

Lemma waitq_runs_timers_witness :
  wq_ok ex_wq [2; 5]%positive [] /\
  wp (waitq_dispatch 3 20 0) ex_wq (fun n wq' => exists fired rest,
    [2; 5]%positive = fired ++ rest /\ n = Z.of_nat (length fired) /\ wq_ok wq' rest fired /\
    (forall t, t ∈ rest -> 20 < deadline_of ex_wq t)) /\
  wp (waitq_timer_wait 15 7 5 102) ex_wq (fun _ wq' => timer_set ex_wq wq' 0 [2; 5]%positive [] 7 20) /\
  wp (waitq_next_deadline 4) ex_wq (fun r wq' => wq' = ex_wq /\ (6 < 2 ^ 31 -> r = 6)).
Proof.
  destruct (waitq_runs_timers ex_wq [2; 5]%positive [] 20 ex_wq_ok) as (Hd & _).
  destruct (waitq_runs_timers ex_wq [2; 5]%positive [] 15 ex_wq_ok) as (_ & H1).
  destruct (waitq_runs_timers ex_wq [2; 5]%positive [] 4 ex_wq_ok) as (_ & H2).
  split; [exact ex_wq_ok|]. split; [|split; [|exact (proj1 (proj2 (H2 7%positive 5 102)))]].
  - eapply wp_mono; [apply (Hd 0 3%nat); simpl; lia|].
    intros n wq' (fired & rest & E1 & E2 & E3 & _ & _ & _ & _ & _ & _ & _ & E4). exists fired, rest.
    split; [exact E1|]. split; [exact E2|]. split; [exact E3|]. apply E4. left. reflexivity.
  - eapply wp_mono; [apply (proj1 (H1 7%positive 5 102))|].
    + apply (bool_decide_unpack _). by vm_compute.
    + apply not_elem_of_nil.
    + by eexists.
    + by eexists.
    + intros _ wq' [H _]. exact H.
Defined.

(** Cancelling the first of three timers changes the next deadline, but the hook
    is not called: the node's stale parent pointer still leads somewhere. *)
Definition ex_wq3 : waitq := mk_waitq
  (mk_rbt (Some 5%positive) (list_to_map
    [(2%positive, mk_node 1 None None (Some 5%positive)); (5%positive, mk_node 0 (Some 2%positive) (Some 7%positive) None);
     (7%positive, mk_node 1 None None (Some 5%positive))]))
  (list_to_map [(2%positive, 10); (5%positive, 30); (7%positive, 40)])
  (list_to_map [(2%positive, 100); (5%positive, 101); (7%positive, 102)]) true 0
  (mk_runq (SList.mk_slist None None (list_to_map [(2%positive, None); (5%positive, None); (7%positive, None)]))
    ∅ false false 0).

Example cancel_first_no_hook :
  wp (waitq_next_deadline 0) ex_wq3 (fun r _ => r = 10) /\
  wp (waitq_timer_cancel 2) ex_wq3 (fun _ wq' => hook_calls wq' = 0%nat /\
    wp (waitq_next_deadline 0) wq' (fun r _ => r = 30)).
Proof. by vm_compute. Qed.
