(* ===== verification/Arena.v ===== *)
(** Model of src/arena.h and src/arena.c: a buddy allocator in one piece of memory.

    Pointers are offsets from [base].  The memory is seen twice: [mem x] is what
    the bytes at [x] mean when read as a [struct arena_block], and [data y] is the
    byte at [y], or nothing once a block header has been written over it.  Both
    are arbitrary to begin with.  A write changes the other view too: what a
    header means after its bytes were partly overwritten is [junk], about which
    nothing is known.  Reading or writing a header that is not wholly inside the
    memory is undefined. *)
From S2P Require Import Prelude.

Record arena_block := mk_block {
  prev : option Z;
  next : option Z;
  order : Z;    (** uint8_t *)
  is_free : Z;  (** uint8_t *)
}.

(** [sizeof(struct arena_block)] *)
Definition BLK : Z := 24.
Definition ARENA_ORDERS : Z := 32.

Record arena := mk_arena {
  size : Z;
  blocks : list (option Z);
  mem : Z -> arena_block;
  data : Z -> option Z;
}.

(** [(size_t)(1 << o)]: for 31 the int overflows, to INT_MIN. *)
Definition shl1 (o : Z) : Z := u64 (i32 (Z.shiftl 1 o)).

Section arena.
Context (junk : arena -> Z -> arena_block).

(** * Access *)
Definition in_range (a : arena) (b : Z) : bool := (0 <=? b) && (b + BLK <=? size a).

Definition ld {A} (f : arena_block -> A) (b : Z) : M arena A :=
  a ← get;
  if in_range a b then ret (f (mem a b)) else crash.

(** [f] applied to the header at [b]. *)
Definition write (f : arena_block -> arena_block) (b : Z) (a : arena) : arena :=
  mk_arena (size a) (blocks a)
    (fun x => if x =? b then f (mem a x)
              else if (b - BLK <? x) && (x <? b + BLK) then junk a x else mem a x)
    (fun y => if (b <=? y) && (y <? b + BLK) then None else data a y).

Definition upd (f : arena_block -> arena_block) (b : Z) : M arena unit :=
  a ← get;
  if in_range a b then put (write f b a) else crash.

Definition set_prev (b : Z) (v : option Z) := upd (fun h => mk_block v (next h) (order h) (is_free h)) b.
Definition set_next (b : Z) (v : option Z) := upd (fun h => mk_block (prev h) v (order h) (is_free h)) b.
Definition set_order (b v : Z) := upd (fun h => mk_block (prev h) (next h) (u8 v) (is_free h)) b.
Definition set_is_free (b v : Z) := upd (fun h => mk_block (prev h) (next h) (order h) v) b.

(** [a->blocks[o]] *)
Definition get_list (o : Z) : M arena (option Z) :=
  a ← get;
  if 0 <=? o then need (blocks a !! Z.to_nat o) else crash.
Definition set_list (o : Z) (v : option Z) : M arena unit :=
  get_list o;;
  modify (fun a => mk_arena (size a) (<[Z.to_nat o := v]> (blocks a)) (mem a) (data a)).

Definition block_link (o blk : Z) : M arena unit :=
  l ← get_list o;
  set_next blk l;;
  set_prev blk None;;
  n ← ld next blk;
  match n with Some n => set_prev n (Some blk) | None => ret tt end;;
  set_list o (Some blk).

Definition block_unlink (o blk : Z) : M arena unit :=
  n ← ld next blk;
  match n with Some n => p ← ld prev blk; set_prev n p | None => ret tt end;;
  p ← ld prev blk;
  match p with
  | Some p => n ← ld next blk; set_next p n
  | None => n ← ld next blk; set_list o n
  end.

(** * Operations *)

(** One round of the loop of [arena_init]; [base] and [size] are its variables. *)
Definition init_step (st : Z * (Z * Z)) : M arena (Z * (Z * Z) + unit) :=
  let '(o, (base, size)) := st in
  let bs := shl1 o in
  if bs <? BLK then ret (inr tt)
  else if size <? bs then ret (inl (o - 1, (base, size)))
  else
    set_is_free base 1;;
    set_order base o;;
    block_link o base;;
    ret (inl (o, (base + bs, u64 (size - bs)))).

Definition arena_init (mem0 : Z -> arena_block) (data0 : Z -> option Z) (size : Z) : res (arena * unit) :=
  loop (Z.to_nat (64 + size / 2 ^ 30)) init_step (ARENA_ORDERS - 1, (0, size))
    (mk_arena size (replicate 32 None) mem0 data0).

(** [while ((o < ARENA_ORDERS) && (1 << o) < size + sizeof(struct arena_block)) o++;] *)
Fixpoint order_from (fuel : nat) (o size : Z) : Z :=
  match fuel with
  | O => o
  | Datatypes.S fuel =>
      if (o <? ARENA_ORDERS) && (shl1 o <? u64 (size + BLK)) then order_from fuel (o + 1) size else o
  end.

Definition block_order (size : Z) : Z := order_from 32 1 size.

(** [while ((i < ARENA_ORDERS) && !a->blocks[i]) i++;] *)
Definition find_order (o : Z) : M arena Z :=
  loop 33 (fun i =>
    if i <? ARENA_ORDERS then
      l ← get_list i;
      match l with None => ret (inl (i + 1)) | Some _ => ret (inr i) end
    else ret (inr i)) o.

Definition split_step (o i : Z) : M arena (Z + unit) :=
  if o <? i then
    b ← get_list i;
    b ← need b;
    block_unlink i b;;
    let i := i - 1 in
    let c := b + Z.shiftl 1 i in
    set_is_free c 1;;
    set_order c i;;
    set_order b i;;
    block_link i b;;
    block_link i c;;
    ret (inl i)
  else ret (inr tt).

Definition arena_alloc (size : Z) : M arena (option Z) :=
  if truth (Z.shiftr size (ARENA_ORDERS - 1)) then ret None
  else
    let o := block_order size in
    if ARENA_ORDERS <=? o then ret None
    else
      i ← find_order o;
      if ARENA_ORDERS <=? i then ret None
      else
        loop 33 (split_step o) i;;
        b ← get_list o;
        b ← need b;
        block_unlink o b;;
        set_is_free b 0;;
        ret (Some (b + BLK)).

Definition buddy_of (b o : Z) : Z := Z.lxor b (Z.shiftl 1 o).

Definition join_step (st : Z * Z) : M arena (Z * Z + unit) :=
  let '(b, o) := st in
  if o + 1 <? ARENA_ORDERS then
    let c := buddy_of b o in
    a ← get;
    if size a <? c + BLK then ret (inr tt)
    else
      cf ← ld is_free c;
      co ← ld order c;
      if negb (truth cf) || negb (co =? o) then ret (inr tt)
      else
        let '(b, c) := if c <? b then (c, b) else (b, c) in
        block_unlink o b;;
        block_unlink o c;;
        let o := o + 1 in
        set_order b o;;
        block_link o b;;
        ret (inl (b, o))
  else ret (inr tt).

Definition arena_free (ptr : option Z) : M arena unit :=
  match ptr with
  | None => ret tt
  | Some ptr =>
      let b := ptr - BLK in
      o ← ld order b;
      set_is_free b 1;;
      block_link o b;;
      loop 33 join_step (b, o)
  end.

(** [memcpy(dst, src, n)] *)
Definition copy_data (dst src n : Z) : M arena unit :=
  modify (fun a => mk_arena (size a) (blocks a)
    (fun x => if (0 <? n) && (dst - BLK <? x) && (x <? dst + n) then junk a x else mem a x)
    (fun y => if (dst <=? y) && (y <? dst + n) then data a (src + (y - dst)) else data a y)).

Definition arena_realloc (ptr : option Z) (size : Z) : M arena (option Z) :=
  match ptr with
  | None => arena_alloc size
  | Some ptr =>
      let b := ptr - BLK in
      if truth (Z.shiftr size (ARENA_ORDERS - 1)) then ret None
      else
        let o := block_order size in
        if ARENA_ORDERS <=? o then ret None
        else
          bo ← ld order b;
          if (bo =? o) || (o + 1 =? bo) then ret (Some ptr)
          else
            new_ptr ← arena_alloc size;
            match new_ptr with
            | None => ret None
            | Some q =>
                bo ← ld order b;
                let copy_size := u64 (shl1 bo - BLK) in
                let copy_size := if size <? copy_size then size else copy_size in
                copy_data q ptr copy_size;;
                arena_free (Some ptr);;
                ret (Some q)
            end
  end.

(** The length of a free list. *)
Definition count_list (l : option Z) : M arena Z :=
  a ← get;
  ' (_, c) ← loop (Z.to_nat (size a / 32 + 2)) (fun '(b, c) =>
    match b with
    | None => ret (inr (b, c))
    | Some x => n ← ld next x; ret (inl (n, u64 (c + 1)))
    end) (l, 0);
  ret c.

Definition arena_count_free : M arena Z :=
  ' (_, count) ← loop 33 (fun '(i, count) =>
    if i <? ARENA_ORDERS then
      l ← get_list i;
      c ← count_list l;
      ret (inl (i + 1, u64 (count + u64 (c * u64 (shl1 i - BLK)))))
    else ret (inr (i, count))) (0, 0);
  ret count.
End arena.
