(* ===== verification/ArenaMap.v ===== *)
(** Partitions of an arena into aligned blocks, as finite maps from where a block
    starts to its order and whether it is free: splitting, joining, and the
    place of a block's buddy. *)
From S2P Require Import Prelude Arena.

Notation bmap := (gmap Z (Z * bool)).

(** * Arithmetic of buddies *)
Lemma shiftl_1 o : 0 <= o -> Z.shiftl 1 o = 2 ^ o.
Proof. intros Ho. rewrite Z.shiftl_mul_pow2 by done. lia. Qed.

Lemma pow2_S o : 0 <= o -> 2 ^ (o + 1) = 2 * 2 ^ o.
Proof. intros Ho. rewrite Z.pow_add_r by lia. lia. Qed.

Lemma pow2_32 o : 5 <= o -> 32 <= 2 ^ o.
Proof. intros Ho. change 32 with (2 ^ 5). apply Z.pow_le_mono_r; lia. Qed.

Lemma mod_double b o : 0 <= o -> 0 <= b -> b mod 2 ^ o = 0 ->
  b mod 2 ^ (o + 1) = if Z.testbit b o then 2 ^ o else 0.
Proof.
  intros Ho Hb Hm. rewrite pow2_S, (Z.mul_comm 2), Z.rem_mul_r, Hm by (lia || apply Z.pow_nonzero; lia).
  rewrite Z.testbit_eqb by done.
  pose proof (Z.mod_pos_bound (b / 2 ^ o) 2 ltac:(lia)). destruct (Z.eqb_spec ((b / 2 ^ o) mod 2) 1) as [->|]; [lia|].
  replace ((b / 2 ^ o) mod 2) with 0 by lia. lia.
Qed.

Lemma buddy_cases b o : 0 <= o -> 0 <= b -> b mod 2 ^ o = 0 ->
  (b mod 2 ^ (o + 1) = 0 /\ buddy_of b o = b + 2 ^ o) \/
  (b mod 2 ^ (o + 1) = 2 ^ o /\ buddy_of b o = b - 2 ^ o).
Proof.
  intros Ho Hb Hm. rewrite mod_double by done. unfold buddy_of. rewrite shiftl_1 by done.
  assert (E : Z.lxor b (2 ^ o) = if Z.testbit b o then Z.clearbit b o else Z.setbit b o).
  { apply Z.bits_inj'. intros n Hn. rewrite Z.lxor_spec, Z.pow2_bits_eqb by done.
    destruct (Z.testbit b o) eqn:Eb; rewrite ?Z.clearbit_eqb, ?Z.setbit_eqb by done;
      destruct (Z.eqb_spec o n) as [->|]; rewrite ?Eb; by destruct (Z.testbit b n). }
  rewrite E. destruct (Z.testbit b o) eqn:Eb; [right|left].
  - by rewrite clearbit_sub, Eb by done.
  - by rewrite setbit_add, Eb by done.
Qed.

(** Aligned at a higher power is aligned at a lower one. *)
Lemma mod_pow_le b o o' : 0 <= o <= o' -> b mod 2 ^ o' = 0 -> b mod 2 ^ o = 0.
Proof.
  intros Ho Hm. apply Z.mod_divide in Hm; [|apply Z.pow_nonzero; lia].
  apply Z.mod_divide; [apply Z.pow_nonzero; lia|]. etrans; [|exact Hm].
  exists (2 ^ (o' - o)). rewrite <- Z.pow_add_r by lia. f_equal. lia.
Qed.

Lemma mod_add_pow b o : 0 <= o -> b mod 2 ^ o = 0 -> (b + 2 ^ o) mod 2 ^ o = 0.
Proof.
  intros Ho Hm. rewrite <- (Z.mul_1_l (2 ^ o)) at 1. by rewrite Z.mod_add by (apply Z.pow_nonzero; lia).
Qed.

(** Two aligned blocks that meet are nested. *)
Lemma aligned_nested b o c k : 0 <= o <= k -> b mod 2 ^ o = 0 -> c mod 2 ^ k = 0 ->
  b < c + 2 ^ k -> c < b + 2 ^ o -> c <= b /\ b + 2 ^ o <= c + 2 ^ k.
Proof.
  intros Ho Hb Hc H1 H2. assert (Hco : c mod 2 ^ o = 0) by (apply (mod_pow_le c o k); [lia|done]).
  pose proof (Z.pow_pos_nonneg 2 o ltac:(lia) ltac:(lia)) as Hp.
  assert (Hk : (c + 2 ^ k) mod 2 ^ o = 0) by (apply (mod_pow_le _ o k); [lia|by apply mod_add_pow; [lia|]]).
  apply Z.mod_divide in Hb as [x ->], Hco as [y Ey], Hk as [z Ez]; [|lia..].
  assert (x * 2 ^ o < z * 2 ^ o) by lia. assert (y * 2 ^ o < (x + 1) * 2 ^ o) by lia.
  assert (x < z) by nia. assert (y <= x) by nia. split; nia.
Qed.

(** * Partitions *)
Record parts (B : bmap) (top : Z) : Prop := {
  p_shape b o f : B !! b = Some (o, f) -> 5 <= o <= 30 /\ 0 <= b /\ b mod 2 ^ o = 0 /\ b + 2 ^ o <= top;
  p_disj b o f b' o' f' : B !! b = Some (o, f) -> B !! b' = Some (o', f') -> b < b' -> b + 2 ^ o <= b';
  p_cover x : 0 <= x < top -> exists b o f, B !! b = Some (o, f) /\ b <= x < b + 2 ^ o;
}.

Section parts.
Context (B : bmap) (top : Z) (HP : parts B top).

Lemma parts_near b o f b' o' f' : B !! b = Some (o, f) -> B !! b' = Some (o', f') -> b <> b' -> 32 <= Z.abs (b - b').
Proof.
  intros H1 H2 Hne. destruct (p_shape _ _ HP _ _ _ H1) as (Ho & _), (p_shape _ _ HP _ _ _ H2) as (Ho' & _).
  pose proof (pow2_32 o ltac:(lia)). pose proof (pow2_32 o' ltac:(lia)).
  destruct (Z.lt_total b b') as [Hl|[?|Hl]]; [|done|].
  - pose proof (p_disj _ _ HP _ _ _ _ _ _ H1 H2 Hl). lia.
  - pose proof (p_disj _ _ HP _ _ _ _ _ _ H2 H1 Hl). lia.
Qed.

(** The buddy of a block, when it is inside, starts a block that is no larger. *)
Lemma buddy_start b o f : B !! b = Some (o, f) -> 0 <= buddy_of b o < top ->
  exists o' f', B !! buddy_of b o = Some (o', f') /\ o' <= o.
Proof.
  intros Hb Hc. destruct (p_shape _ _ HP _ _ _ Hb) as (Ho & Hb0 & Hm & Ht).
  pose proof (pow2_32 o ltac:(lia)) as Hp. destruct (p_cover _ _ HP _ Hc) as (c & k & g & Hck & Hin).
  destruct (p_shape _ _ HP _ _ _ Hck) as (Hk & Hc0 & Hmc & _).
  assert (Hmb : buddy_of b o mod 2 ^ o = 0).
  { destruct (buddy_cases b o) as [[_ ->]|[_ ->]]; [lia|done|done|by apply mod_add_pow; [lia|]|].
    rewrite <- (Z.mul_1_l (2 ^ o)) at 1. rewrite <- Z.add_opp_r, <- Z.mul_opp_l.
    by rewrite Z.mod_add by lia. }
  destruct (Z.le_gt_cases k o) as [Hle|Hgt].
  - exists k, g. split; [|done].
    destruct (aligned_nested c k (buddy_of b o) o) as [E1 E2]; [lia|done|done|lia|lia|].
    assert (c = buddy_of b o) as <- by lia. done.
  - exfalso. pose proof (pow2_S o ltac:(lia)) as E2.
    assert (Hk2 : 2 ^ (o + 1) <= 2 ^ k) by (apply Z.pow_le_mono_r; lia).
    destruct (aligned_nested (b - b mod 2 ^ (o + 1)) (o + 1) c k) as [E3 E4]; [lia| |done| | |].
    + rewrite Zminus_mod_idemp_r, Z.sub_diag. by rewrite Z.mod_0_l by lia.
    + destruct (buddy_cases b o) as [[-> Eb]|[-> Eb]]; [lia|done|done|lia..].
    + destruct (buddy_cases b o) as [[-> Eb]|[-> Eb]]; [lia|done|done|lia..].
    + assert (Hbc : c <= b < c + 2 ^ k) by (destruct (buddy_cases b o) as [[Em Eb]|[Em Eb]]; [lia|done|done|lia..]).
      destruct (Z.eq_dec b c) as [->|Hne]; [rewrite Hb in Hck; injection Hck as -> ->; lia|].
      pose proof (p_disj _ _ HP _ _ _ _ _ _ Hck Hb ltac:(lia)). lia.
Qed.

Lemma parts_flag b o f f' : B !! b = Some (o, f) -> parts (<[b := (o, f')]> B) top.
Proof.
  intros Hb. assert (Hl : forall c k g, <[b := (o, f')]> B !! c = Some (k, g) -> exists g', B !! c = Some (k, g')).
  { intros c k g. rewrite lookup_insert. case_decide; [|eauto]. subst. intros [= <- <-]. eauto. }
  split.
  - intros c k g [g' Hc]%Hl. by eapply p_shape.
  - intros c k g c' k' g' [? Hc]%Hl [? Hc']%Hl. by eapply p_disj.
  - intros x Hx. destruct (p_cover _ _ HP x Hx) as (c & k & g & Hc & Hin).
    destruct (Z.eq_dec b c) as [->|Hne].
    + rewrite Hb in Hc. injection Hc as -> ->. exists c, k, f'. by rewrite lookup_insert_eq.
    + exists c, k, g. by rewrite lookup_insert_ne.
Qed.
End parts.

(** * Splitting and joining *)
Definition split_map (b o : Z) (B : bmap) : bmap := <[b + 2 ^ o := (o, true)]> (<[b := (o, true)]> B).
Definition join_map (b o : Z) (B : bmap) : bmap := <[b := (o + 1, true)]> (delete (b + 2 ^ o) B).

Lemma lookup_split b o B c : 0 <= o -> split_map b o B !! c =
  if decide (c = b) then Some (o, true) else if decide (c = b + 2 ^ o) then Some (o, true) else B !! c.
Proof.
  intros Ho. pose proof (Z.pow_pos_nonneg 2 o ltac:(lia) Ho). unfold split_map.
  repeat case_decide; subst; rewrite ?lookup_insert_eq; [|done|];
    rewrite ?lookup_insert_ne, ?lookup_insert_eq by lia; done.
Qed.

Lemma lookup_join b o B c : 0 <= o -> join_map b o B !! c =
  if decide (c = b) then Some (o + 1, true) else if decide (c = b + 2 ^ o) then None else B !! c.
Proof.
  intros Ho. unfold join_map. repeat case_decide; subst; rewrite ?lookup_insert_eq; [done|..];
    rewrite lookup_insert_ne by lia; [by rewrite lookup_delete_eq|by rewrite lookup_delete_ne by lia].
Qed.

Lemma parts_split B top b o f : parts B top -> 5 <= o -> B !! b = Some (o + 1, f) -> parts (split_map b o B) top.
Proof.
  intros HP Ho Hb. destruct (p_shape _ _ HP _ _ _ Hb) as (Ho1 & Hb0 & Hm & Ht).
  pose proof (pow2_32 o Ho) as Hp. rewrite pow2_S in Ht by lia.
  assert (Hmo : b mod 2 ^ o = 0) by (apply (mod_pow_le b o (o + 1)); [lia|done]).
  split.
  - intros c k f'. rewrite lookup_split by lia. repeat case_decide; [..|by apply p_shape]; intros [= <- <-]; subst.
    + split_and!; lia.
    + split_and!; [lia..|by apply mod_add_pow; [lia|]|lia].
  - intros c k f' c' k' f''. rewrite !lookup_split by lia.
    pose proof (fun c k g => p_disj _ _ HP c k g b (o + 1) f) as Hd1.
    pose proof (fun c k g => p_disj _ _ HP b (o + 1) f c k g Hb) as Hd2.
    rewrite pow2_S in Hd2 by lia.
    repeat case_decide; subst; intros Hc Hc' Hlt; simplify_eq; try lia.
    + pose proof (Hd2 _ _ _ Hc' Hlt). lia.
    + specialize (Hd2 c' k' f'' Hc'). lia.
    + exact (Hd1 _ _ _ Hc Hb Hlt).
    + destruct (Z.lt_total c b) as [Hl|[?|Hl]]; [pose proof (Hd1 _ _ _ Hc Hb Hl); lia|done|].
      pose proof (Hd2 _ _ _ Hc Hl). lia.
    + by eapply (p_disj _ _ HP c).
  - intros x Hx. destruct (p_cover _ _ HP x Hx) as (c & k & g & Hc & Hin).
    destruct (Z.eq_dec c b) as [->|Hne].
    + rewrite Hb in Hc. injection Hc as <- <-. rewrite pow2_S in Hin by lia.
      destruct (Z.lt_ge_cases x (b + 2 ^ o)).
      * exists b, o, true. rewrite lookup_split, decide_True by lia. split; [done|lia].
      * exists (b + 2 ^ o), o, true. rewrite lookup_split, decide_False, decide_True by lia. split; [done|lia].
    + exists c, k, g. rewrite lookup_split, decide_False by lia. rewrite decide_False; [done|]. intros ->.
      pose proof (p_disj _ _ HP _ _ _ _ _ _ Hb Hc ltac:(lia)) as Hd. rewrite pow2_S in Hd by lia. lia.
Qed.

Lemma parts_join B top b o f f' : parts B top -> top < 2 ^ 31 -> b mod 2 ^ (o + 1) = 0 ->
  B !! b = Some (o, f) -> B !! (b + 2 ^ o) = Some (o, f') -> parts (join_map b o B) top.
Proof.
  intros HP Htop Hm Hb Hc. destruct (p_shape _ _ HP _ _ _ Hb) as (Ho & Hb0 & _ & _).
  destruct (p_shape _ _ HP _ _ _ Hc) as (_ & _ & _ & Ht). pose proof (pow2_32 o ltac:(lia)) as Hp.
  pose proof (pow2_S o ltac:(lia)) as HS.
  split.
  - intros c k g. rewrite lookup_join by lia. repeat case_decide; [|done|by apply p_shape]. intros [= <- <-]; subst.
    assert (o + 1 < 31) by (apply (Z.pow_lt_mono_r_iff 2); lia). split_and!; lia.
  - intros c k g c' k' g'. rewrite !lookup_join by lia.
    repeat case_decide; subst; intros Hc1 Hc2 Hlt; simplify_eq; try lia.
    + pose proof (p_disj _ _ HP _ _ _ _ _ _ Hb Hc2 Hlt).
      pose proof (p_disj _ _ HP _ _ _ _ _ _ Hc Hc2 ltac:(lia)). lia.
    + by eapply (p_disj _ _ HP c).
    + by eapply (p_disj _ _ HP c).
  - intros x Hx. destruct (p_cover _ _ HP x Hx) as (c & k & g & Hck & Hin).
    destruct (decide (b <= x < b + 2 ^ (o + 1))).
    + exists b, (o + 1), true. by rewrite lookup_join, decide_True by lia.
    + exists c, k, g. rewrite lookup_join by lia. rewrite decide_False by (intros ->; simplify_eq; lia).
      rewrite decide_False by (intros ->; simplify_eq; lia). done.
Qed.

(** * Coalescing *)

(** No two buddies are both free, but for a pair that [E] belongs to. *)
Definition coal (E : option Z) (B : bmap) : Prop := forall b o,
  B !! b = Some (o, true) -> B !! buddy_of b o = Some (o, true) -> E = Some b \/ E = Some (buddy_of b o).

Lemma buddy_invol b o : 0 <= o -> 0 <= b -> buddy_of (buddy_of b o) o = b.
Proof. intros. unfold buddy_of. by rewrite Z.lxor_assoc, Z.lxor_nilpotent, Z.lxor_0_r. Qed.

Lemma buddy_ne b o : 0 <= o -> buddy_of b o <> b.
Proof.
  intros Ho E. pose proof (Z.pow_pos_nonneg 2 o ltac:(lia) Ho). assert (Z.lxor (buddy_of b o) b = 0) as H0 by (rewrite E; apply Z.lxor_nilpotent).
  unfold buddy_of in H0. rewrite shiftl_1, (Z.lxor_comm b), Z.lxor_assoc, Z.lxor_nilpotent, Z.lxor_0_r in H0 by done. lia.
Qed.

Lemma coal_split B top b o f : parts B top -> coal (Some b) B -> 5 <= o -> B !! b = Some (o + 1, f) ->
  coal (Some (b + 2 ^ o)) (split_map b o B).
Proof.
  intros HP Hc Ho Hb x k. destruct (p_shape _ _ HP _ _ _ Hb) as (_ & Hb0 & Hm & _).
  assert (Hmo : b mod 2 ^ o = 0) by (apply (mod_pow_le b o (o + 1)); [lia|done]).
  pose proof (pow2_32 o Ho) as Hp.
  assert (E : buddy_of b o = b + 2 ^ o) by (destruct (buddy_cases b o) as [[_ ?]|[? _]]; lia).
  assert (E' : buddy_of (b + 2 ^ o) o = b) by (rewrite <- E; apply buddy_invol; lia).
  intros Hx Hy. rewrite lookup_split in Hx by lia.
  destruct (decide (x = b)) as [->|Hxb]; [injection Hx as <-; right; by rewrite E|].
  destruct (decide (x = b + 2 ^ o)) as [->|Hxc]; [by left|].
  destruct (p_shape _ _ HP _ _ _ Hx) as (Hk & Hx0 & _).
  rewrite lookup_split in Hy by lia.
  destruct (decide (buddy_of x k = b)) as [Ey|Hyb].
  { exfalso. injection Hy as <-. apply Hxc. rewrite <- E, <- Ey. symmetry. apply buddy_invol; lia. }
  destruct (decide (buddy_of x k = b + 2 ^ o)) as [Ey|Hyc].
  { exfalso. injection Hy as <-. apply Hxb. rewrite <- E', <- Ey. symmetry. apply buddy_invol; lia. }
  exfalso. destruct (Hc x k Hx Hy); congruence.
Qed.

Lemma coal_join B top b o f f' E : parts B top -> top < 2 ^ 31 -> b mod 2 ^ (o + 1) = 0 ->
  B !! b = Some (o, f) -> B !! (b + 2 ^ o) = Some (o, f') -> E = b \/ E = b + 2 ^ o ->
  coal (Some E) B -> coal (Some b) (join_map b o B).
Proof.
  intros HP Htop Hm Hb Hbc HE Hc x k. destruct (p_shape _ _ HP _ _ _ Hb) as (Ho & Hb0 & Hmo & _).
  assert (Eb : buddy_of b o = b + 2 ^ o) by (destruct (buddy_cases b o) as [[_ ?]|[? _]]; lia).
  assert (Ec : buddy_of (b + 2 ^ o) o = b) by (rewrite <- Eb; apply buddy_invol; lia).
  intros Hx Hy. rewrite lookup_join in Hx by lia.
  destruct (decide (x = b)) as [->|Hxb]; [by left|].
  destruct (decide (x = b + 2 ^ o)) as [->|Hxc]; [done|].
  destruct (p_shape _ _ HP _ _ _ Hx) as (Hk & Hx0 & _).
  rewrite lookup_join in Hy by lia.
  destruct (decide (buddy_of x k = b)) as [Ey|Hyb]; [by right; f_equal|].
  destruct (decide (buddy_of x k = b + 2 ^ o)) as [Ey|Hyc]; [done|].
  exfalso. destruct (Hc x k Hx Hy), HE; congruence.
Qed.

(** A block becomes used, or free. *)
Lemma coal_use B b o : coal (Some b) B -> coal None (<[b := (o, false)]> B).
Proof.
  intros Hc x k. rewrite !lookup_insert. repeat case_decide; try done. intros Hx Hy.
  destruct (Hc x k Hx Hy); congruence.
Qed.

Lemma coal_free B top b o : parts B top -> coal None B -> B !! b = Some (o, false) ->
  coal (Some b) (<[b := (o, true)]> B).
Proof.
  intros HP Hc Hb x k. rewrite !lookup_insert. repeat case_decide; subst; intros Hx Hy; simplify_eq; auto.
  destruct (Hc x k Hx Hy); done.
Qed.

(** The exception goes away when its buddy is not free. *)
Lemma coal_done B top b o : parts B top -> coal (Some b) B -> B !! b = Some (o, true) ->
  B !! buddy_of b o <> Some (o, true) -> coal None B.
Proof.
  intros HP Hc Hb Hn x k Hx Hy. exfalso. destruct (p_shape _ _ HP _ _ _ Hx) as (Hk & Hx0 & _).
  destruct (Hc x k Hx Hy) as [[= <-]|[= E]].
  - rewrite Hx in Hb. injection Hb as ->. done.
  - rewrite <- E in Hy. rewrite Hy in Hb. injection Hb as ->. apply Hn.
    rewrite E, buddy_invol by lia. done.
Qed.

Lemma coal_weaken E B : coal None B -> coal E B.
Proof. intros Hc x k Hx Hy. by destruct (Hc x k Hx Hy). Qed.
