(* ===== verification/ArenaList.v ===== *)
(** The free lists of an arena: linking and unlinking blocks, and what these leave
    alone. *)
From S2P Require Import Prelude Arena ArenaMap.

(** * Frames *)

(** Only the bytes of [R] have changed. *)
Record only (R : Z -> Prop) (a a' : arena) : Prop := {
  on_size : size a' = size a;
  on_mem x : (forall y, x <= y < x + BLK -> ~ R y) -> mem a' x = mem a x;
  on_data y : ~ R y -> data a' y = data a y;
}.

Lemma only_refl R a : only R a a.
Proof. by split. Qed.

Lemma only_trans R a1 a2 a3 : only R a1 a2 -> only R a2 a3 -> only R a1 a3.
Proof.
  intros [H1 H2 H3] [H4 H5 H6]. split; [congruence|..].
  - intros x Hx. by rewrite H5, H2.
  - intros y Hy. by rewrite H6, H3.
Qed.

Lemma only_mono (R R' : Z -> Prop) a a' : (forall y, R y -> R' y) -> only R a a' -> only R' a a'.
Proof. intros HR [H1 H2 H3]. split; [done|..]; naive_solver. Qed.

Lemma only_set_list R a o v : only R a (mk_arena (size a) (<[o := v]> (blocks a)) (mem a) (data a)).
Proof. by split. Qed.

Section arena.
Context (junk : arena -> Z -> arena_block).

Lemma mem_write_eq f b a : mem (write junk f b a) b = f (mem a b).
Proof. simpl. by rewrite Z.eqb_refl. Qed.

Lemma mem_write_far f b a x : BLK <= Z.abs (x - b) -> mem (write junk f b a) x = mem a x.
Proof.
  unfold BLK. intros Hx. simpl. unfold BLK. destruct (Z.eqb_spec x b); [lia|].
  destruct (Z.ltb_spec (b - 24) x), (Z.ltb_spec x (b + 24)); simpl; (done || lia).
Qed.

Lemma only_write (R : Z -> Prop) f b a : (forall y, b <= y < b + BLK -> R y) -> only R a (write junk f b a).
Proof.
  intros HR. split; [done|..].
  - intros x Hx. apply mem_write_far. unfold BLK in *. destruct (Z.le_gt_cases 24 (Z.abs (x - b))); [done|].
    exfalso. apply (Hx (Z.max x b)); [lia|]. apply HR. lia.
  - intros y Hy. simpl. destruct (Z.leb_spec b y), (Z.ltb_spec y (b + BLK)); simpl; try done.
    exfalso. apply Hy, HR. lia.
Qed.

Lemma wp_ar_ld {A} (f : arena_block -> A) b a Q : 0 <= b -> b + BLK <= size a -> Q (f (mem a b)) a -> wp (ld f b) a Q.
Proof.
  intros H1 H2 HQ. unfold ld, in_range. wp_bind. apply wp_get.
  rewrite (proj2 (Z.leb_le _ _) H1), (proj2 (Z.leb_le _ _) H2). by apply wp_ret.
Qed.

Lemma wp_ar_upd f b a Q : 0 <= b -> b + BLK <= size a -> Q tt (write junk f b a) -> wp (upd junk f b) a Q.
Proof.
  intros H1 H2 HQ. unfold upd, in_range. wp_bind. apply wp_get.
  rewrite (proj2 (Z.leb_le _ _) H1), (proj2 (Z.leb_le _ _) H2). by apply wp_put.
Qed.

Lemma wp_get_list o st a Q : 0 <= o -> blocks a !! Z.to_nat o = Some st -> Q st a -> wp (get_list o) a Q.
Proof.
  intros Ho Hb HQ. unfold get_list. wp_bind. apply wp_get. rewrite (proj2 (Z.leb_le _ _) Ho).
  by eapply wp_need.
Qed.

Lemma wp_set_list o st v a Q : 0 <= o -> blocks a !! Z.to_nat o = Some st ->
  Q tt (mk_arena (size a) (<[Z.to_nat o := v]> (blocks a)) (mem a) (data a)) -> wp (set_list o v) a Q.
Proof. intros Ho Hb HQ. unfold set_list. wp_bind. eapply wp_get_list; [done..|]. by apply wp_modify. Qed.
End arena.

(** * Doubly linked lists ended by NULL *)
Fixpoint dl (m : Z -> arena_block) (p start : option Z) (xs : list Z) : Prop :=
  match xs with
  | [] => start = None
  | x :: xs => start = Some x /\ prev (m x) = p /\ dl m (Some x) (next (m x)) xs
  end.

Lemma dl_ext m m' p st xs : (forall x, x ∈ xs -> prev (m' x) = prev (m x) /\ next (m' x) = next (m x)) ->
  dl m p st xs -> dl m' p st xs.
Proof.
  revert p st. induction xs as [|x xs IH]; intros p st Hm; simpl; [done|]. intros (-> & <- & Hd).
  destruct (Hm x ltac:(set_solver)) as [-> ->]. split_and!; [done..|]. apply IH; [|done]. set_solver.
Qed.

Lemma dl_head m p st xs : dl m p st xs -> st = head xs.
Proof. destruct xs; simpl; [done|]. by intros [-> _]. Qed.

Lemma dl_mid m p st l1 b l2 : dl m p st (l1 ++ b :: l2) ->
  prev (m b) = match last l1 with Some y => Some y | None => p end /\ next (m b) = head l2.
Proof.
  revert p st. induction l1 as [|x l1 IH]; intros p st; simpl.
  - intros (_ & -> & Hd). by apply dl_head in Hd.
  - intros (_ & _ & Hd). apply IH in Hd as [-> ->]. split; [|done].
    rewrite last_cons. by destruct (last l1).
Qed.

Lemma dl_cut m m' p st l1 b l2 : NoDup (l1 ++ b :: l2) -> dl m p st (l1 ++ b :: l2) ->
  (forall x, x ∈ l1 -> prev (m' x) = prev (m x)) -> (forall x, x ∈ l2 -> next (m' x) = next (m x)) ->
  (forall x, x ∈ l1 -> next (m' x) = if decide (last l1 = Some x) then head l2 else next (m x)) ->
  (forall x, x ∈ l2 -> prev (m' x) =
     if decide (head l2 = Some x) then match last l1 with Some y => Some y | None => p end else prev (m x)) ->
  dl m' p (match l1 with [] => head l2 | _ => st end) (l1 ++ l2).
Proof.
  revert p st. induction l1 as [|y l1 IH]; intros p st Hnd Hd H1 H2 H3 H4; simpl in *.
  - destruct Hd as (_ & _ & Hd). destruct l2 as [|n l2]; simpl in *; [done|]. destruct Hd as (_ & Hp & Hd).
    apply NoDup_cons in Hnd as [_ [Hn _]%NoDup_cons]. split_and!; [done|by rewrite H4, decide_True by set_solver|].
    rewrite H2 by set_solver. eapply dl_ext; [|exact Hd]. intros x Hx. split; [|by apply H2; set_solver].
    rewrite H4, decide_False by set_solver. done.
  - destruct Hd as (-> & Hp & Hd). apply NoDup_cons in Hnd as [Hy Hnd]. split_and!; [done|by rewrite H1 by set_solver|].
    assert (Hl : last (y :: l1) = match last l1 with Some z => Some z | None => Some y end)
      by (rewrite last_cons; by destruct (last l1)).
    assert (E : next (m' y) = match l1 with [] => head l2 | _ => next (m y) end).
    { rewrite H3, Hl by set_solver. destruct l1 as [|z l1]; [by rewrite decide_True|].
      rewrite decide_False; [done|]. destruct (last (z :: l1)) as [w|] eqn:Ew; [|by apply last_None in Ew].
      intros [= ->]. apply last_Some_elem_of in Ew. set_solver. }
    rewrite E. apply IH; [done|done|set_solver|done|..].
    + intros x Hx. rewrite H3, Hl by set_solver. destruct (last l1) eqn:El; [done|]. apply last_None in El as ->. set_solver.
    + intros x Hx. rewrite H4, Hl by done. by destruct (last l1).
Qed.

(** * The free lists *)

(** Each list holds the free blocks of its order. *)
Definition lists (a : arena) (B : bmap) : Prop := forall o, 0 <= o < 32 -> exists st xs,
  blocks a !! Z.to_nat o = Some st /\ dl (mem a) None st xs /\ NoDup xs /\
  forall x, x ∈ xs <-> B !! x = Some (o, true).

Lemma lists_ext a B B' : (forall x o, B !! x = Some (o, true) <-> B' !! x = Some (o, true)) -> lists a B -> lists a B'.
Proof.
  intros HB Hl o Ho. destruct (Hl o Ho) as (st & xs & H1 & H2 & H3 & H4). exists st, xs.
  split_and!; [done..|]. intros x. by rewrite H4.
Qed.

(** The blocks of [B] lie in the arena, 32 bytes apart. *)
Record placed (a : arena) (B : bmap) : Prop := {
  pl_in b o f : B !! b = Some (o, f) -> 0 <= o < 32 /\ 0 <= b /\ b + BLK <= size a;
  pl_far b o f b' o' f' : B !! b = Some (o, f) -> B !! b' = Some (o', f') -> b <> b' -> 32 <= Z.abs (b - b');
}.

Lemma parts_placed a B top : parts B top -> top <= size a -> placed a B.
Proof.
  intros HP Ht. split.
  - intros b o f Hb. destruct (p_shape _ _ HP _ _ _ Hb) as (? & ? & _ & ?). pose proof (pow2_32 o ltac:(lia)).
    unfold BLK. lia.
  - intros b o f b' o' f'. by apply (parts_near B top HP).
Qed.

(** The orders and flags in the headers of [B] are unchanged. *)
Definition same_heads (B : bmap) (a a' : arena) : Prop := forall b o f, B !! b = Some (o, f) ->
  order (mem a' b) = order (mem a b) /\ is_free (mem a' b) = is_free (mem a b).

Lemma same_heads_trans B a1 a2 a3 : same_heads B a1 a2 -> same_heads B a2 a3 -> same_heads B a1 a3.
Proof. intros H1 H2 b o f Hb. destruct (H1 b o f Hb), (H2 b o f Hb). by split; etrans. Qed.

(** The header of a free block, or of [b]. *)
Definition headers (B : bmap) (b : Z) (y : Z) : Prop := exists x, b <= y < b + BLK \/
  (exists o, B !! x = Some (o, true)) /\ x <= y < x + BLK.

Section arena.
Context (junk : arena -> Z -> arena_block).

Lemma same_heads_write B a b o f g : placed a B -> B !! b = Some (o, f) ->
  (forall h, order (g h) = order h /\ is_free (g h) = is_free h) -> same_heads B a (write junk g b a).
Proof.
  intros Hpl Hb Hg x k e Hx. destruct (Z.eq_dec x b) as [->|Hne]; [by rewrite mem_write_eq|].
  rewrite mem_write_far; [done|]. pose proof (pl_far _ _ Hpl _ _ _ _ _ _ Hx Hb Hne). unfold BLK. lia.
Qed.

(** The effect of a write on the links of blocks of [B]. *)
Lemma write_links B a b o f g x k e : placed a B -> B !! b = Some (o, f) -> B !! x = Some (k, e) ->
  mem (write junk g b a) x = if decide (x = b) then g (mem a x) else mem a x.
Proof.
  intros Hpl Hb Hx. case_decide as Hd; [subst; by rewrite mem_write_eq|].
  apply mem_write_far. pose proof (pl_far _ _ Hpl _ _ _ _ _ _ Hx Hb Hd). unfold BLK. lia.
Qed.

Lemma wp_link a B o b Q : placed a B -> lists a B -> B !! b = Some (o, false) ->
  (forall a', lists a' (<[b := (o, true)]> B) -> same_heads B a a' -> only (headers B b) a a' ->
     length (blocks a') = length (blocks a) -> blocks a' !! Z.to_nat o = Some (Some b) -> Q tt a') ->
  wp (block_link junk o b) a Q.
Proof.
  intros Hpl Hl Hb HQ. destruct (pl_in _ _ Hpl _ _ _ Hb) as (Ho & Hb0 & Hbs).
  destruct (Hl o Ho) as (st & xs & Hst & Hd & Hnd & Hin).
  assert (Hbx : b ∉ xs) by (rewrite Hin; congruence).
  unfold block_link. wp_bind. eapply wp_get_list; [lia|done|]. wp_bind. apply wp_ar_upd; [done..|].
  wp_bind. apply wp_ar_upd; [done..|]. set (a1 := write junk _ b a). set (a2 := write junk _ b a1).
  wp_bind. apply wp_ar_ld; [done..|]. unfold a2. rewrite mem_write_eq. unfold a1. rewrite mem_write_eq. fold a1. fold a2. cbn [next].
  assert (Hm2 : forall x k e, B !! x = Some (k, e) -> mem a2 x =
    if decide (x = b) then mk_block None st (order (mem a x)) (is_free (mem a x)) else mem a x).
  { intros x k e Hx. unfold a2. erewrite (write_links B a1); [|by destruct Hpl; split|done|done].
    unfold a1. erewrite (write_links B a); [|done|done|done]. by case_decide. }
  assert (Hs2 : same_heads B a a2) by (intros x k e Hx; rewrite (Hm2 x k e Hx); by case_decide).
  assert (Ho2 : only (headers B b) a a2).
  { eapply only_trans; apply only_write; intros y Hy; exists 0; by left. }
  assert (Hb2 : blocks a2 = blocks a) by done. assert (Hz2 : size a2 = size a) by done.
  assert (Hp2 : placed a2 B) by (destruct Hpl; by split). clearbody a2. clear a1. wp_bind.
  apply (wp_mono _ _ (fun _ a3 => only (headers B b) a a3 /\ same_heads B a a3 /\ blocks a3 = blocks a /\
    forall x k e, B !! x = Some (k, e) -> prev (mem a3 x) =
      (if decide (x = b) then None else if decide (st = Some x) then Some b else prev (mem a x)) /\
      next (mem a3 x) = if decide (x = b) then st else next (mem a x))).
  - destruct st as [n|].
    + assert (Hn : n ∈ xs) by (destruct xs; simpl in Hd; [done|]; destruct Hd as ([= ->] & _); set_solver).
      apply Hin in Hn. destruct (pl_in _ _ Hp2 _ _ _ Hn) as (_ & Hn0 & Hns).
      apply wp_ar_upd; [done..|]. split_and!.
      * eapply only_trans; [exact Ho2|]. apply only_write. intros y Hy. exists n. right. eauto.
      * eapply same_heads_trans; [exact Hs2|]. by eapply same_heads_write.
      * done.
      * intros x k e Hx. erewrite write_links by done. rewrite !(Hm2 x k e Hx).
        destruct (decide (x = n)) as [->|Hxn].
        -- repeat case_decide; done || congruence.
        -- repeat case_decide; done || congruence.
    + apply wp_ret. split_and!; [done..|]. intros x k e Hx. rewrite !(Hm2 x k e Hx).
      by repeat case_decide.
  - intros [] a3 (Ho3 & Hs3 & Hb3 & Hm3). eapply wp_set_list; [lia|by rewrite Hb3|]. apply HQ; simpl.
    + intros k Hk. simpl. rewrite Hb3. destruct (Z.eq_dec k o) as [->|Hne].
      * exists (Some b), (b :: xs). rewrite list_lookup_insert_eq by by apply lookup_lt_Some in Hst.
        split_and!; [done|..].
        -- simpl. destruct (Hm3 b o false Hb) as [-> ->]. rewrite !decide_True by done. split_and!; [done..|].
           destruct xs as [|n xs]; [done|]. simpl in *. destruct Hd as (-> & Hp & Hd).
           apply NoDup_cons in Hnd as [Hnx Hnd].
           destruct (Hm3 n o true) as [-> ->]; [apply Hin; set_solver|].
           assert (n <> b) by set_solver. rewrite !(decide_False (P := n = b)) by done.
           rewrite decide_True by done. split_and!; [done..|].
           eapply dl_ext; [|exact Hd]. intros x Hx. destruct (Hm3 x o true) as [-> ->]; [apply Hin; set_solver|].
           assert (x <> b) by set_solver.
           rewrite !(decide_False (P := x = b)) by done. rewrite decide_False; [done|]. intros [= ->]. done.
        -- by constructor.
        -- intros x. rewrite elem_of_cons, Hin, lookup_insert. case_decide; [naive_solver|]. naive_solver.
      * destruct (Hl k Hk) as (st' & xs' & Hst' & Hd' & Hnd' & Hin'). exists st', xs'.
        rewrite list_lookup_insert_ne by lia. split_and!; [done| |done|].
        -- eapply dl_ext; [|exact Hd']. intros x Hx. pose proof (proj1 (Hin' x) Hx) as Hxk.
           destruct (Hm3 x k true Hxk) as [-> ->]. assert (x <> b) by congruence.
           rewrite !(decide_False (P := x = b)) by done.
           rewrite decide_False; [done|]. intros ->. destruct xs as [|n xs]; simpl in Hd; [done|].
           destruct Hd as ([= ->] & _). assert (B !! n = Some (o, true)) by (apply Hin; set_solver). congruence.
        -- intros x. rewrite Hin', lookup_insert. case_decide; [|done]. naive_solver.
    + done.
    + destruct Ho3. by split.
    + by rewrite length_insert, Hb3.
    + rewrite Hb3, list_lookup_insert_eq; [done|]. by apply lookup_lt_Some in Hst.
Qed.
(** The links around [b] after it is taken out of a list. *)
Lemma unlink_lists a a' B o b st l1 l2 : lists a B -> placed a B -> 0 <= o < 32 ->
  blocks a !! Z.to_nat o = Some st -> dl (mem a) None st (l1 ++ b :: l2) -> NoDup (l1 ++ b :: l2) ->
  (forall x, x ∈ l1 ++ b :: l2 <-> B !! x = Some (o, true)) ->
  blocks a' = <[Z.to_nat o := match l1 with [] => head l2 | _ => st end]> (blocks a) ->
  (forall x k e, B !! x = Some (k, e) ->
     prev (mem a' x) = (if decide (head l2 = Some x) then last l1 else prev (mem a x)) /\
     next (mem a' x) = (if decide (last l1 = Some x) then head l2 else next (mem a x))) ->
  lists a' (<[b := (o, false)]> B).
Proof.
  intros Hl Hpl Ho Hst Hd Hnd Hin Hb' Hm k Hk. rewrite Hb'.
  assert (Hside : forall x, x ∈ l1 \/ x ∈ l2 -> B !! x = Some (o, true)) by (intros x Hx; apply Hin; set_solver).
  destruct (Z.eq_dec k o) as [->|Hne].
  - eexists _, (l1 ++ l2). rewrite list_lookup_insert_eq by by apply lookup_lt_Some in Hst. split_and!; [done|..].
    + eapply (dl_cut (mem a) (mem a') None st l1 b l2 Hnd Hd).
      * intros x Hx. destruct (Hm x o true) as [-> _]; [auto|]. rewrite decide_False; [done|].
        intros Hh. destruct l2; [done|]. injection Hh as ->. apply NoDup_app in Hnd. set_solver.
      * intros x Hx. destruct (Hm x o true) as [_ ->]; [auto|]. rewrite decide_False; [done|].
        intros Hh%last_Some_elem_of. apply NoDup_app in Hnd. set_solver.
      * intros x Hx. by destruct (Hm x o true) as [_ ->]; [auto|].
      * intros x Hx. destruct (Hm x o true) as [-> _]; [auto|]. by destruct (last l1).
    + apply NoDup_app in Hnd as (H1 & H2 & [_ H3]%NoDup_cons). apply NoDup_app. set_solver.
    + intros x. rewrite lookup_insert. apply NoDup_app in Hnd as (_ & H1 & [H2 _]%NoDup_cons).
      case_decide as Hx; [subst; split; [set_solver|done]|]. rewrite <- Hin. set_solver.
  - destruct (Hl k Hk) as (st' & xs' & Hst' & Hd' & Hnd' & Hin'). exists st', xs'.
    rewrite list_lookup_insert_ne by lia. split_and!; [done| |done|].
    + eapply dl_ext; [|exact Hd']. intros x Hx. pose proof (proj1 (Hin' x) Hx) as Hxk.
      assert (Hxo : ~ (x ∈ l1 \/ x ∈ l2)) by (intros Hs%Hside; congruence).
      destruct (Hm x k true Hxk) as [-> ->]. rewrite !decide_False; [done|..]; intros Hh; apply Hxo.
      * left. by apply last_Some_elem_of.
      * right. destruct l2; [done|]. injection Hh as ->. set_solver.
    + intros x. rewrite Hin', lookup_insert. case_decide; [|done]. subst.
      assert (B !! x = Some (o, true)) by (apply Hin; set_solver). naive_solver.
Qed.

Lemma wp_unlink_block a B o b Q : placed a B -> lists a B -> B !! b = Some (o, true) ->
  (forall a', lists a' (<[b := (o, false)]> B) -> same_heads B a a' -> only (headers B b) a a' ->
     length (blocks a') = length (blocks a) -> Q tt a') ->
  wp (block_unlink junk o b) a Q.
Proof.
  intros Hpl Hl Hb HQ. destruct (pl_in _ _ Hpl _ _ _ Hb) as (Ho & Hb0 & Hbs).
  destruct (Hl o Ho) as (st & xs & Hst & Hd & Hnd & Hin).
  destruct (list_elem_of_split xs b) as (l1 & l2 & ->); [by apply Hin|].
  destruct (dl_mid _ _ _ _ _ _ Hd) as [Hpb Hnb].
  assert (Epb : prev (mem a b) = last l1) by (rewrite Hpb; by destruct (last l1)). clear Hpb.
  assert (Hside : forall x, x ∈ l1 \/ x ∈ l2 -> B !! x = Some (o, true) /\ x <> b).
  { intros x Hx. split; [apply Hin; set_solver|]. intros ->. apply NoDup_app in Hnd as (_ & H1 & [H2 _]%NoDup_cons). set_solver. }
  assert (Hlast : forall p, last l1 = Some p -> p ∈ l1) by (intros p; apply last_Some_elem_of).
  assert (Hhead : forall n, head l2 = Some n -> n ∈ l2) by (intros n; destruct l2; [done|]; intros [= ->]; set_solver).
  unfold block_unlink. wp_bind. apply wp_ar_ld; [done..|]. rewrite Hnb. wp_bind.
  apply (wp_mono _ _ (fun _ a1 => only (headers B b) a a1 /\ same_heads B a a1 /\ blocks a1 = blocks a /\
    forall x k e, B !! x = Some (k, e) ->
      prev (mem a1 x) = (if decide (head l2 = Some x) then last l1 else prev (mem a x)) /\
      next (mem a1 x) = next (mem a x))).
  - destruct (head l2) as [n|] eqn:En.
    + destruct (Hside n) as [Hn _]; [auto|]. destruct (pl_in _ _ Hpl _ _ _ Hn) as (_ & Hn0 & Hns).
      wp_bind. apply wp_ar_ld; [done..|]. apply wp_ar_upd; [done..|]. split_and!; [|by eapply same_heads_write|done|].
      * apply only_write. intros y Hy. exists n. right. eauto.
      * intros x k e Hx. erewrite write_links by done. rewrite Epb. repeat case_decide; simpl; done || congruence.
    + apply wp_ret. split_and!; [apply only_refl|done|done|]. intros x k e Hx. by rewrite decide_False.
  - intros [] a1 (Ho1 & Hs1 & Hb1 & Hm1). pose proof (on_size _ _ _ Ho1) as Hz1.
    assert (Hp1 : placed a1 B) by (destruct Hpl; split; [rewrite Hz1|]; done).
    assert (Hnh : head l2 <> Some b) by (intros Hx%Hhead; destruct (Hside b); auto).
    destruct (Hm1 b o true Hb) as [E1 E2]. rewrite decide_False in E1 by done. rewrite Epb in E1. rewrite Hnb in E2.
    wp_bind. apply wp_ar_ld; [done|by rewrite Hz1|]. rewrite E1.
    destruct (last l1) as [p|] eqn:El.
    + destruct (Hside p) as [Hp Hpne]; [auto|]. destruct (pl_in _ _ Hp1 _ _ _ Hp) as (_ & Hp0 & Hps).
      wp_bind. apply wp_ar_ld; [done|by rewrite Hz1|]. rewrite E2. apply wp_ar_upd; [done..|]. apply HQ.
      * eapply (unlink_lists a _ B o b st l1 l2); try done.
        -- simpl. rewrite Hb1. destruct l1; [done|]. symmetry. by apply list_insert_id.
        -- intros x k e Hx. erewrite write_links by done. destruct (Hm1 x k e Hx) as [E3 E4]. rewrite El.
           repeat case_decide; simplify_eq/=; auto; congruence.
      * eapply same_heads_trans; [exact Hs1|]. by eapply same_heads_write.
      * eapply only_trans; [exact Ho1|]. apply only_write. intros y Hy. exists p. right. eauto.
      * simpl. by rewrite Hb1.
    + wp_bind. apply wp_ar_ld; [done|by rewrite Hz1|]. rewrite E2. eapply wp_set_list; [lia|by rewrite Hb1|].
      apply last_None in El as ->. apply HQ; simpl.
      * eapply (unlink_lists a _ B o b st [] l2); try done; try by rewrite <- Hb1.
      * done.
      * destruct Ho1. by split.
      * by rewrite length_insert, Hb1.
Qed.
(** Writing to a block that is in no list. *)
Lemma lists_write B a b o g : placed a B -> lists a B -> B !! b = Some (o, false) -> lists (write junk g b a) B.
Proof.
  intros Hpl Hl Hb k Hk. destruct (Hl k Hk) as (st & xs & H1 & H2 & H3 & H4). exists st, xs.
  split_and!; [done| |done|done]. eapply dl_ext; [|exact H2]. intros x Hx%H4.
  erewrite write_links by done. by rewrite decide_False by congruence.
Qed.
End arena.
