(* ===== verification/ArenaOps.v ===== *)
(** What [arena_alloc] and [arena_free] do to the blocks of an arena. *)
From S2P Require Import Prelude Arena ArenaMap ArenaList.

Definition top (a : arena) : Z := size a - size a mod 32.

(** The headers say what the blocks are. *)
Definition heads (a : arena) (B : bmap) : Prop := forall b o f, B !! b = Some (o, f) ->
  order (mem a b) = o /\ truth (is_free (mem a b)) = f.

(** The arena is cut into the blocks [B]; what is left over at its end is too
    short to be taken for a block. *)
Record arena_ok (a : arena) (B : bmap) : Prop := {
  ao_size : 0 <= size a < 2 ^ 31 /\ size a mod 32 < BLK;
  ao_parts : parts B (top a);
  ao_heads : heads a B;
  ao_lists : lists a B;
}.

(** The bytes of free blocks, and of one block. *)
Definition free_bytes (B : bmap) (y : Z) : Prop := exists b o, B !! b = Some (o, true) /\ b <= y < b + 2 ^ o.
Definition block_bytes (b o y : Z) : Prop := b <= y < b + 2 ^ o.

Lemma top_le a : 0 <= size a -> top a <= size a /\ top a < size a + 1 /\ size a < top a + 32 /\ top a mod 32 = 0.
Proof.
  intros Hs. unfold top. pose proof (Z.mod_pos_bound (size a) 32 ltac:(lia)).
  pose proof (Z.div_mod (size a) 32 ltac:(lia)). split_and!; try lia.
  replace (size a - size a mod 32) with ((size a / 32) * 32) by lia. by rewrite Z.mod_mul.
Qed.

Lemma top_only R a a' : only R a a' -> top a' = top a.
Proof. intros Ho. unfold top. by rewrite (on_size _ _ _ Ho). Qed.

Lemma placed_size a a' B : size a' = size a -> placed a B -> placed a' B.
Proof. intros Hs [H1 H2]. split; [|done]. by rewrite Hs. Qed.

Lemma ok_placed a B : arena_ok a B -> placed a B.
Proof.
  intros [[Hs _] Hp _ _]. eapply parts_placed; [exact Hp|]. apply top_le. lia.
Qed.

Lemma headers_free B top b o : parts B top -> B !! b = Some (o, true) ->
  forall y, headers B b y -> free_bytes B y.
Proof.
  intros HP Hb y [x [Hy|[[k Hx] Hy]]].
  - exists b, o. split; [done|]. destruct (p_shape _ _ HP _ _ _ Hb) as (? & _). pose proof (pow2_32 o ltac:(lia)).
    unfold BLK in Hy. lia.
  - exists x, k. split; [done|]. destruct (p_shape _ _ HP _ _ _ Hx) as (? & _). pose proof (pow2_32 k ltac:(lia)).
    unfold BLK in Hy. lia.
Qed.

Lemma headers_block B top b o f : parts B top -> B !! b = Some (o, f) ->
  forall y, headers B b y -> free_bytes B y \/ block_bytes b o y.
Proof.
  intros HP Hb y [x [Hy|[[k Hx] Hy]]].
  - right. destruct (p_shape _ _ HP _ _ _ Hb) as (? & _). pose proof (pow2_32 o ltac:(lia)).
    unfold BLK, block_bytes in *. lia.
  - left. exists x, k. split; [done|]. destruct (p_shape _ _ HP _ _ _ Hx) as (? & _). pose proof (pow2_32 k ltac:(lia)).
    unfold BLK in Hy. lia.
Qed.

Section arena.
Context (junk : arena -> Z -> arena_block).

(** Two blocks have just been cut out of a free one. *)
Lemma split_far B top b o f : parts B top -> 5 <= o -> B !! b = Some (o + 1, f) -> B !! (b + 2 ^ o) = None.
Proof.
  intros HP Ho Hb. destruct (B !! (b + 2 ^ o)) as [[k g]|] eqn:E; [|done]. pose proof (pow2_32 o Ho).
  pose proof (p_disj _ _ HP _ _ _ _ _ _ Hb E ltac:(lia)) as Hd. rewrite pow2_S in Hd by lia. lia.
Qed.

Lemma wp_split_step a B o i b Q : arena_ok a B -> coal (Some b) B -> 5 <= o <= i -> B !! b = Some (i + 1, true) ->
  blocks a !! Z.to_nat (i + 1) = Some (Some b) ->
  (forall a', arena_ok a' (split_map b i B) -> coal (Some (b + 2 ^ i)) (split_map b i B) ->
     blocks a' !! Z.to_nat i = Some (Some (b + 2 ^ i)) -> only (free_bytes B) a a' -> Q (inl i) a') ->
  wp (split_step junk o (i + 1)) a Q.
Proof.
  intros Hok Hco Ho Hb Hst HQ. pose proof (ok_placed _ _ Hok) as Hpl. destruct Hok as [Hsz HP Hh Hl].
  destruct (p_shape _ _ HP _ _ _ Hb) as (Hi & Hb0 & Hmod & Htop). pose proof (pow2_32 i ltac:(lia)) as Hp.
  pose proof (pow2_S i ltac:(lia)) as HS. pose proof (split_far B (top a) b i true HP ltac:(lia) Hb) as Hnc.
  set (c := b + 2 ^ i) in *. set (B2 := <[c := (i, false)]> (<[b := (i, false)]> B)).
  assert (HP3 : parts (split_map b i B) (top a)) by (eapply parts_split; [done|lia|done]).
  assert (HP2 : parts B2 (top a)).
  { replace B2 with (<[c := (i, false)]> (<[b := (i, false)]> (split_map b i B))).
    - eapply parts_flag; [eapply parts_flag; [done|]|].
      + rewrite lookup_split, decide_True by lia. done.
      + rewrite lookup_insert_ne, lookup_split by lia. rewrite decide_False, decide_True by lia. done.
    - unfold B2, split_map. fold c. apply map_eq. intros x. rewrite !lookup_insert. by repeat case_decide. }
  pose proof (parts_placed a B2 _ HP2 (proj1 (top_le a ltac:(lia)))) as Hpl2.
  assert (Hb2 : B2 !! b = Some (i, false)) by (unfold B2; rewrite lookup_insert_ne, lookup_insert_eq by lia; done).
  assert (Hc2 : B2 !! c = Some (i, false)) by (unfold B2; by rewrite lookup_insert_eq).
  assert (Hx2 : forall x, x <> b -> x <> c -> B2 !! x = B !! x) by (intros x ??; unfold B2; by rewrite !lookup_insert_ne).
  destruct (pl_in _ _ Hpl2 _ _ _ Hb2) as (_ & _ & Hbs). destruct (pl_in _ _ Hpl2 _ _ _ Hc2) as (_ & Hc0 & Hcs).
  assert (Hfb : forall y, block_bytes b (i + 1) y -> free_bytes B y) by (intros y Hy; exists b, (i + 1); done).
  unfold split_step. rewrite (proj2 (Z.ltb_lt o (i + 1))) by lia. wp_bind. eapply wp_get_list; [lia|done|].
  wp_bind. eapply wp_need; [done|]. wp_bind. eapply wp_unlink_block; [exact Hpl|exact Hl|exact Hb|].
  intros a1 Hl1 Hs1 Ho1 _. pose proof (on_size _ _ _ Ho1) as Hz1.
  replace (i + 1 - 1) with i by lia. rewrite shiftl_1 by lia. fold c. cbv zeta.
  assert (Hl2 : lists a1 B2).
  { eapply lists_ext; [|exact Hl1]. intros x k. unfold B2. rewrite !lookup_insert.
    split; intros Hx; repeat case_decide; congruence. }
  rewrite <- Hz1 in Hbs, Hcs.
  wp_bind. apply wp_ar_upd; [lia|exact Hcs|]. set (a2 := write junk _ c a1).
  wp_bind. apply wp_ar_upd; [lia|exact Hcs|]. set (a3 := write junk _ c a2).
  wp_bind. apply wp_ar_upd; [lia|exact Hbs|]. set (a4 := write junk _ b a3).
  assert (Hp1 : placed a1 B2) by (by eapply placed_size).
  assert (Hl4 : lists a4 B2).
  { repeat (eapply lists_write; [by eapply (placed_size a1)| |done]). done. }
  assert (Ho4 : only (free_bytes B) a a4).
  { eapply only_trans; [eapply only_mono; [|exact Ho1]; by eapply headers_free|].
    eapply only_trans; [|eapply only_trans]; apply only_write; intros y Hy; apply Hfb; unfold block_bytes, BLK in *; lia. }
  assert (Hm4 : forall x k f, B2 !! x = Some (k, f) -> order (mem a4 x) = k /\
    truth (is_free (mem a4 x)) = if decide (x = b \/ x = c) then true else f).
  { intros x k f Hx. unfold a4. erewrite (write_links junk B2 a3); [|by eapply (placed_size a1)|done|done].
    unfold a3. erewrite (write_links junk B2 a2); [|by eapply (placed_size a1)|done|done].
    unfold a2. erewrite (write_links junk B2 a1); [|done|done|done].
    destruct (decide (x = b)) as [->|Hxb].
    - rewrite Hb2 in Hx. injection Hx as <- <-. rewrite !(decide_False (P := b = c)) by lia.
      rewrite decide_True by auto. simpl. destruct (Hs1 b _ _ Hb) as [_ ->]. split; [by apply Z.mod_small; lia|by apply Hh in Hb as [_ ?]].
    - destruct (decide (x = c)) as [->|Hxc].
      + rewrite Hc2 in Hx. injection Hx as <- <-. rewrite decide_True by auto. split; [by apply Z.mod_small; lia|done].
      + rewrite decide_False by tauto. rewrite Hx2 in Hx by done. destruct (Hs1 x _ _ Hx) as [-> ->]. by apply Hh. }
  assert (Hz4 : size a4 = size a) by done. clearbody a4. clear a3 a2.
  wp_bind. eapply (wp_link junk a4 B2); [by eapply (placed_size a)|exact Hl4|exact Hb2|].
  intros a5 Hl5 Hs5 Ho5 _ _. assert (Hz5 : size a5 = size a) by (by rewrite (on_size _ _ _ Ho5)).
  set (B3 := <[b := (i, true)]> B2) in *.
  assert (Hc3 : B3 !! c = Some (i, false)) by (unfold B3; by rewrite lookup_insert_ne by lia).
  assert (HP3' : parts B3 (top a)) by (by eapply parts_flag).
  wp_bind. eapply (wp_link junk a5 B3); [|exact Hl5|exact Hc3|].
  { eapply parts_placed; [exact HP3'|]. rewrite Hz5. apply top_le; lia. }
  intros a6 Hl6 Hs6 Ho6 _ Hst6. apply wp_ret.
  assert (E6 : <[c := (i, true)]> B3 = split_map b i B).
  { unfold B3, B2, split_map. fold c. apply map_eq. intros x. rewrite !lookup_insert. by repeat case_decide. }
  rewrite E6 in Hl6. assert (Hz6 : size a6 = size a) by (by rewrite (on_size _ _ _ Ho6)).
  apply HQ; [|eapply coal_split; [done|done|lia|done]|done|].
  - split; [by rewrite Hz6|by unfold top in *; rewrite Hz6| |done]. intros x k f Hx.
    assert (Hx' : exists f', B2 !! x = Some (k, f') /\ f = if decide (x = b \/ x = c) then true else f').
    { rewrite lookup_split in Hx by lia. fold c in Hx. repeat case_decide; simplify_eq; try tauto; eauto.
      exists f. split; [by rewrite Hx2|done]. }
    destruct Hx' as (f' & Hx' & ->). destruct (Hm4 x k f' Hx') as [E1 E2].
    assert (Hx3 : exists f'', B3 !! x = Some (k, f'')).
    { unfold B3. rewrite lookup_insert. destruct (decide (b = x)); [|eauto]. exists true. congruence. }
    destruct Hx3 as [f'' Hx3]. destruct (Hs6 x k f'' Hx3) as [-> ->]. destruct (Hs5 x k f' Hx') as [-> ->]. done.
  - eapply only_trans; [exact Ho4|]. eapply only_trans; (eapply only_mono; [|eassumption]).
    + intros y Hy. eapply headers_block in Hy; [|exact HP2|exact Hb2].
      destruct Hy as [(x & k & Hx & Hy)|Hy]; [|apply Hfb; unfold block_bytes in *; lia].
      unfold B2 in Hx. rewrite !lookup_insert in Hx. repeat case_decide; try done. by exists x, k.
    + intros y Hy. eapply headers_block in Hy; [|exact HP3'|exact Hc3].
      destruct Hy as [(x & k & Hx & Hy)|Hy]; [|apply Hfb; unfold block_bytes in *; lia].
      unfold B3, B2 in Hx. rewrite !lookup_insert in Hx. repeat case_decide; simplify_eq; [|by exists x, k].
      apply Hfb. unfold block_bytes. lia.
Qed.
(** ** Orders *)
Lemma shl1_small o : 0 <= o <= 30 -> shl1 o = 2 ^ o.
Proof.
  intros Ho. unfold shl1. rewrite shiftl_1 by lia. pose proof (Z.pow_pos_nonneg 2 o ltac:(lia) ltac:(lia)).
  assert (2 ^ o <= 2 ^ 30) by (apply Z.pow_le_mono_r; lia).
  rewrite i32_small by lia. apply u64_small. lia.
Qed.

Lemma shl1_31 : shl1 31 = 2 ^ 64 - 2 ^ 31.
Proof. reflexivity. Qed.

Lemma order_from_spec sz : 0 <= sz < 2 ^ 31 -> forall fuel o, 1 <= o -> o + Z.of_nat fuel = 33 ->
  (forall k, 1 <= k < o -> 2 ^ k < sz + BLK) -> o <= 31 ->
  let r := order_from fuel o sz in
  1 <= r <= 31 /\ (forall k, 1 <= k < r -> 2 ^ k < sz + BLK) /\ (r <= 30 -> sz + BLK <= 2 ^ r).
Proof.
  intros Hsz. induction fuel as [|fuel IH]; intros o Ho Hf Hk Ho31; [lia|]. cbn [order_from].
  unfold ARENA_ORDERS, BLK in *. rewrite (proj2 (Z.ltb_lt o 32)), u64_small by lia. simpl.
  destruct (Z.ltb_spec (shl1 o) (sz + 24)) as [Hlt|Hge].
  - assert (Ho30 : o <= 30) by (destruct (Z.eq_dec o 31) as [->|]; [rewrite shl1_31 in Hlt|]; lia).
    rewrite shl1_small in Hlt by lia. apply IH; [lia|lia| |lia]. intros k Hk'.
    destruct (Z.eq_dec k o) as [->|]; [done|]. apply Hk. lia.
  - split; [lia|]. split; [done|]. intros Hr. by rewrite shl1_small in Hge by lia.
Qed.

(** The order [arena_alloc] looks for: the least that fits, or 31 if none does. *)
Lemma block_order_spec sz : 0 <= sz < 2 ^ 31 ->
  5 <= block_order sz <= 31 /\ (forall k, 1 <= k < block_order sz -> 2 ^ k < sz + BLK) /\
  (block_order sz <= 30 -> sz + BLK <= 2 ^ block_order sz).
Proof.
  intros Hsz. destruct (order_from_spec sz Hsz 32 1) as (H1 & H2 & H3); [lia|lia|lia|lia|].
  fold (block_order sz) in *. split_and!; try done; try lia.
  destruct (Z.le_gt_cases 5 (block_order sz)) as [?|Hlt]; [lia|]. exfalso.
  assert (2 ^ block_order sz <= 2 ^ 4) by (apply Z.pow_le_mono_r; lia). unfold BLK in H3. lia.
Qed.

Lemma wp_find_order a B o : lists a B -> 0 <= o <= 31 ->
  wp (find_order o) a (fun i a' => a' = a /\ o <= i <= 32 /\
    (forall b k, B !! b = Some (k, true) -> o <= k -> i <= k \/ k >= 32) /\
    (i < 32 -> exists b, blocks a !! Z.to_nat i = Some (Some b) /\ B !! b = Some (i, true))).
Proof.
  intros Hl Ho. unfold find_order.
  apply (wp_loop (fun k i a' => a' = a /\ o <= i <= 32 /\ k = Z.to_nat (32 - i) /\
    (forall b k, B !! b = Some (k, true) -> o <= k -> i <= k \/ k >= 32))) with (k := Z.to_nat (32 - o)); [|lia|].
  - intros k i a' (-> & Hi & -> & Hn). unfold ARENA_ORDERS. destruct (Z.ltb_spec i 32) as [Hlt|Hge].
    + destruct (Hl i ltac:(lia)) as (st & xs & Hst & Hd & _ & Hin). wp_bind. eapply wp_get_list; [lia|done|].
      destruct st as [b|]; apply wp_ret.
      * split_and!; try done; try lia. intros _. exists b. split; [done|]. apply Hin.
        destruct xs; simpl in Hd; [done|]. destruct Hd as ([= ->] & _). set_solver.
      * exists (Z.to_nat (32 - (i + 1))). split; [lia|]. split_and!; try done; try lia.
        intros b k Hb Hk. destruct (Hn b k Hb Hk) as [?|?]; [|by right]. left.
        destruct (Z.eq_dec i k) as [->|]; [|lia]. apply Hin in Hb. destruct xs; simpl in Hd; [set_solver|].
        by destruct Hd.
    + apply wp_ret. split_and!; try done; lia.
  - split_and!; try done; lia.
Qed.
(** ** Allocation *)
(** The blocks in use. *)
Definition used (B : bmap) (b o : Z) : Prop := B !! b = Some (o, false).

Lemma used_split B top b i x k : parts B top -> 5 <= i -> B !! b = Some (i + 1, true) ->
  used (split_map b i B) x k <-> used B x k.
Proof.
  intros HP Hi Hb. pose proof (split_far _ _ _ _ _ HP Hi Hb) as Hc. unfold used. rewrite lookup_split by lia.
  destruct (decide (x = b)) as [->|]; [rewrite Hb; naive_solver|].
  destruct (decide (x = b + 2 ^ i)) as [->|]; [rewrite Hc; naive_solver|done].
Qed.

Lemma free_split B b i y : 0 <= i -> B !! b = Some (i + 1, true) -> free_bytes (split_map b i B) y -> free_bytes B y.
Proof.
  intros Hi Hb (x & k & Hx & Hy). rewrite lookup_split in Hx by done. pose proof (pow2_S i Hi).
  pose proof (Z.pow_pos_nonneg 2 i ltac:(lia) Hi).
  destruct (decide (x = b)) as [->|]; [injection Hx as <-; exists b, (i + 1); split; [done|lia]|].
  destruct (decide (x = b + 2 ^ i)) as [->|]; [|by exists x, k].
  injection Hx as <-. exists b, (i + 1). split; [done|lia].
Qed.

(** A block of order [o] has been taken out of the free ones. *)
Record allocated (a : arena) (B : bmap) (a' : arena) (B' : bmap) (b o : Z) : Prop := {
  al_ok : arena_ok a' B';
  al_coal : coal None B';
  al_block : used B' b o;
  al_used x k : x <> b -> (used B' x k <-> used B x k);
  al_fresh y : block_bytes b o y -> free_bytes B y;
  al_free y : free_bytes B' y -> free_bytes B y;
  al_only : only (free_bytes B) a a';
}.

Lemma wp_take a B b o Q : arena_ok a B -> coal (Some b) B -> B !! b = Some (o, true) ->
  (forall a', allocated a B a' (<[b := (o, false)]> B) b o -> Q tt a') ->
  wp (block_unlink junk o b) a (fun _ a1 => wp (set_is_free junk b 0) a1 Q).
Proof.
  intros Hok Hco Hb HQ. pose proof (ok_placed _ _ Hok) as Hpl. destruct Hok as [Hsz HP Hh Hl].
  destruct (pl_in _ _ Hpl _ _ _ Hb) as (Ho & Hb0 & Hbs). destruct (p_shape _ _ HP _ _ _ Hb) as (Ho5 & _).
  pose proof (pow2_32 o ltac:(lia)) as Hp.
  eapply wp_unlink_block; [exact Hpl|exact Hl|exact Hb|]. intros a1 Hl1 Hs1 Ho1 _.
  pose proof (on_size _ _ _ Ho1) as Hz1. apply wp_ar_upd; [lia|by rewrite Hz1|]. set (a2 := write junk _ b a1).
  set (B' := <[b := (o, false)]> B) in *. assert (Hb' : B' !! b = Some (o, false)) by (unfold B'; by rewrite lookup_insert_eq).
  assert (HP' : parts B' (top a)) by (by eapply parts_flag).
  assert (Hpl' : placed a1 B').
  { eapply parts_placed; [exact HP'|]. rewrite Hz1. apply top_le. lia. }
  assert (Ho2 : only (free_bytes B) a a2).
  { eapply only_trans; [eapply only_mono; [|exact Ho1]; by eapply headers_free|]. apply only_write.
    intros y Hy. exists b, o. unfold BLK in *. split; [done|lia]. }
  apply HQ. split.
  - split; [by rewrite (on_size _ _ _ Ho2)|by rewrite (top_only _ _ _ Ho2)| |by eapply lists_write].
    intros x k f Hx. unfold a2. erewrite write_links by done. destruct (decide (x = b)) as [->|Hne]; simpl.
    + rewrite Hb' in Hx. injection Hx as <- <-. destruct (Hs1 b _ _ Hb) as [-> _]. split; [by apply Hh in Hb as [? _]|done].
    + unfold B' in Hx. rewrite lookup_insert_ne in Hx by done. destruct (Hs1 x _ _ Hx) as [-> ->]. by apply Hh.
  - by apply coal_use.
  - done.
  - intros x k Hne. unfold used, B'. by rewrite lookup_insert_ne.
  - intros y Hy. by exists b, o.
  - intros y (x & k & Hx & Hy). unfold B' in Hx. rewrite lookup_insert in Hx. case_decide; [done|]. by exists x, k.
  - done.
Qed.

Lemma wp_split_loop a B o i b : arena_ok a B -> coal (Some b) B -> 5 <= o <= i -> B !! b = Some (i, true) ->
  blocks a !! Z.to_nat i = Some (Some b) ->
  wp (loop 33 (split_step junk o) i) a (fun _ a' => exists B' c, arena_ok a' B' /\ coal (Some c) B' /\
    B' !! c = Some (o, true) /\ blocks a' !! Z.to_nat o = Some (Some c) /\
    (forall x k, used B' x k <-> used B x k) /\ (forall y, free_bytes B' y -> free_bytes B y) /\
    only (free_bytes B) a a').
Proof.
  intros Hok Hco Ho Hb Hst. destruct (p_shape _ _ (ao_parts _ _ Hok) _ _ _ Hb) as (Hi & _).
  apply (wp_loop (fun k i a' => o <= i /\ k = Z.to_nat (i - o) /\ exists B' c, arena_ok a' B' /\ coal (Some c) B' /\
    B' !! c = Some (i, true) /\ blocks a' !! Z.to_nat i = Some (Some c) /\
    (forall x k, used B' x k <-> used B x k) /\ (forall y, free_bytes B' y -> free_bytes B y) /\
    only (free_bytes B) a a')) with (k := Z.to_nat (i - o)); [|lia|].
  - intros n j a' (Hoj & -> & B' & c & Hok' & Hco' & Hc & Hst' & Hu & Hf & Hon).
    destruct (Z.eq_dec o j) as [<-|Hne].
    + unfold split_step. rewrite (proj2 (Z.ltb_ge o o)) by lia. apply wp_ret. by exists B', c.
    + replace j with ((j - 1) + 1) in * by lia. set (j' := j - 1) in *. clearbody j'.
      eapply wp_split_step; [exact Hok'|exact Hco'|lia|exact Hc|exact Hst'|].
      intros a2 Hok2 Hco2 Hst2 Hon2. exists (Z.to_nat (j' - o)). split; [lia|]. split; [lia|]. split; [done|].
      exists (split_map c j' B'), (c + 2 ^ j'). split_and!; [done|done| |done|..].
      * rewrite lookup_split by lia. by repeat case_decide.
      * intros x k. rewrite <- Hu. eapply used_split; [apply Hok'|lia|exact Hc].
      * intros y Hy. apply Hf. eapply free_split; [|exact Hc|exact Hy]. lia.
      * eapply only_trans; [exact Hon|]. by eapply only_mono.
  - split; [lia|]. split; [done|]. exists B, b. by split_and!; try apply only_refl.
Qed.

(** [size >> (ARENA_ORDERS - 1)] *)
Lemma big_size sz : 0 <= sz -> truth (Z.shiftr sz 31) = bool_decide (2 ^ 31 <= sz).
Proof.
  intros Hsz. rewrite Z.shiftr_div_pow2 by lia. unfold truth. destruct (decide (2 ^ 31 <= sz)) as [Hle|Hlt].
  - rewrite bool_decide_eq_true_2 by done. pose proof (Z.div_le_lower_bound sz (2 ^ 31) 1).
    destruct (Z.eqb_spec (sz / 2 ^ 31) 0); [lia|done].
  - rewrite bool_decide_eq_false_2, Z.div_small by lia. done.
Qed.

Lemma wp_arena_alloc a B sz : arena_ok a B -> coal None B -> 0 <= sz < 2 ^ 64 ->
  wp (arena_alloc junk sz) a (fun r a' =>
    match r with
    | None => a' = a /\ forall b k, B !! b = Some (k, true) -> 2 ^ k < sz + BLK
    | Some p => exists o B', sz + BLK <= 2 ^ o /\ (forall k, 5 <= k < o -> 2 ^ k < sz + BLK) /\
        allocated a B a' B' (p - BLK) o
    end).
Proof.
  intros Hok Hco Hsz. assert (Hmax : forall b k f, B !! b = Some (k, f) -> 2 ^ k <= 2 ^ 30 /\ 5 <= k <= 30).
  { intros b k f Hb. destruct (p_shape _ _ (ao_parts _ _ Hok) _ _ _ Hb) as (? & _). split; [|done].
    apply Z.pow_le_mono_r; lia. }
  unfold arena_alloc, ARENA_ORDERS. change (32 - 1) with 31.
  rewrite (big_size sz) by lia. destruct (decide (2 ^ 31 <= sz)) as [Hle|Hlt].
  { rewrite bool_decide_eq_true_2 by done. apply wp_ret. split; [done|]. intros b k Hb.
    destruct (Hmax _ _ _ Hb). unfold BLK. lia. }
  rewrite bool_decide_eq_false_2 by done. destruct (block_order_spec sz ltac:(lia)) as (Ho & Hlo & Hfit).
  set (o := block_order sz) in *. rewrite (proj2 (Z.leb_gt 32 o)) by lia.
  wp_bind. eapply wp_mono; [apply (wp_find_order a B o (ao_lists _ _ Hok)); lia|].
  intros i a' (-> & Hi & Hnone & Hsome). destruct (Z.leb_spec 32 i) as [Hi32|Hi32].
  - apply wp_ret. split; [done|]. intros b k Hb. destruct (Hmax _ _ _ Hb). apply Hlo.
    destruct (Z.le_gt_cases o k) as [Hok'|?]; [|lia]. destruct (Hnone b k Hb Hok'); lia.
  - destruct (Hsome Hi32) as (b & Hst & Hb). destruct (Hmax _ _ _ Hb).
    wp_bind. eapply wp_mono; [eapply (wp_split_loop a B o i b); [done|by apply coal_weaken|lia|done|done]|].
    intros _ a1 (B1 & c & Hok1 & Hco1 & Hc & Hst1 & Hu & Hf & Hon).
    wp_bind. eapply wp_get_list; [lia|done|]. wp_bind. eapply wp_need; [done|].
    wp_bind. eapply wp_mono; [apply (wp_take a1 B1 c o (fun _ a2 => allocated a1 B1 a2 (<[c := (o, false)]> B1) c o)); done|].
    intros [] a2 Ha2. wp_bind. eapply wp_mono; [exact Ha2|]. intros _ a3 [H1 H2 H3 H4 H5 H6 H7]. apply wp_ret.
    exists o, (<[c := (o, false)]> B1). destruct (Hmax b i true Hb). split; [apply Hfit; lia|]. split; [intros k Hk; apply Hlo; lia|].
    replace (c + BLK - BLK) with c by lia. split; [done|done|done|..].
    + intros x k Hne. by rewrite H4, Hu.
    + intros y Hy. auto.
    + intros y Hy. auto.
    + eapply only_trans; [exact Hon|]. by eapply only_mono.
Qed.
(** ** Freeing *)
Lemma used_join B l k x j : 0 <= k -> B !! l = Some (k, true) -> B !! (l + 2 ^ k) = Some (k, true) ->
  used (join_map l k B) x j <-> used B x j.
Proof.
  intros Hk Hl Hu. unfold used. rewrite lookup_join by done.
  destruct (decide (x = l)) as [->|]; [rewrite Hl; naive_solver|].
  destruct (decide (x = l + 2 ^ k)) as [->|]; [rewrite Hu; naive_solver|done].
Qed.

Lemma free_join B l k y : 0 <= k -> B !! l = Some (k, true) -> B !! (l + 2 ^ k) = Some (k, true) ->
  free_bytes (join_map l k B) y -> free_bytes B y.
Proof.
  intros Hk Hl Hu (x & j & Hx & Hy). rewrite lookup_join in Hx by done. pose proof (pow2_S k Hk).
  destruct (decide (x = l)) as [->|].
  - injection Hx as <-. destruct (Z.lt_ge_cases y (l + 2 ^ k)).
    + exists l, k. split; [done|lia].
    + exists (l + 2 ^ k), k. split; [done|lia].
  - destruct (decide (x = l + 2 ^ k)); [done|]. by exists x, j.
Qed.

(** The lower of two free buddies becomes a block of the next order. *)
Lemma wp_join a B l k Q : arena_ok a B -> l mod 2 ^ (k + 1) = 0 -> B !! l = Some (k, true) ->
  B !! (l + 2 ^ k) = Some (k, true) ->
  (forall a', arena_ok a' (join_map l k B) -> only (free_bytes B) a a' -> Q tt a') ->
  wp (block_unlink junk k l) a (fun _ a1 => wp (block_unlink junk k (l + 2 ^ k)) a1 (fun _ a2 =>
    wp (set_order junk l (k + 1)) a2 (fun _ a3 => wp (block_link junk (k + 1) l) a3 Q))).
Proof.
  intros Hok Hmod Hb Hu HQ. pose proof (ok_placed _ _ Hok) as Hpl. destruct Hok as [Hsz HP Hh Hl].
  destruct (pl_in _ _ Hpl _ _ _ Hb) as (_ & Hb0 & Hbs). destruct (p_shape _ _ HP _ _ _ Hb) as (Hk & _).
  pose proof (pow2_32 k ltac:(lia)) as Hp. pose proof (top_le a ltac:(lia)) as Htop.
  set (u := l + 2 ^ k) in *.
  assert (HPj : parts (join_map l k B) (top a)) by (eapply parts_join; [done|lia|done..]).
  destruct (p_shape _ _ HPj l (k + 1) true) as (Hk1 & _); [by rewrite lookup_join, decide_True by lia|].
  set (B2 := <[u := (k, false)]> (<[l := (k, false)]> B)). set (B3 := <[l := (k + 1, false)]> (delete u B)).
  assert (HP3 : parts B3 (top a)).
  { replace B3 with (<[l := (k + 1, false)]> (join_map l k B)).
    - eapply parts_flag; [done|]. by rewrite lookup_join, decide_True by lia.
    - unfold B3, join_map. fold u. apply map_eq. intros x. rewrite !lookup_insert. by repeat case_decide. }
  assert (Hl3 : B3 !! l = Some (k + 1, false)) by (unfold B3; by rewrite lookup_insert_eq).
  assert (Hx3 : forall x, x <> l -> x <> u -> B3 !! x = B !! x).
  { intros x H1 H2. unfold B3. by rewrite lookup_insert_ne, lookup_delete_ne by done. }
  pose proof (parts_placed a B3 _ HP3 (proj1 Htop)) as Hpl3.
  eapply wp_unlink_block; [exact Hpl|exact Hl|exact Hb|]. intros a1 Hl1 Hs1 Ho1 _.
  pose proof (on_size _ _ _ Ho1) as Hz1. set (B1 := <[l := (k, false)]> B) in *.
  assert (Hu1 : B1 !! u = Some (k, true)) by (unfold B1; by rewrite lookup_insert_ne by lia).
  assert (HP1 : parts B1 (top a)) by (by eapply parts_flag).
  eapply (wp_unlink_block junk a1 B1); [|exact Hl1|exact Hu1|].
  { eapply (placed_size a); [done|]. eapply parts_placed; [exact HP1|lia]. }
  intros a2 Hl2 Hs2 Ho2 _. fold B2 in Hl2. assert (Hz2 : size a2 = size a) by (by rewrite (on_size _ _ _ Ho2)).
  assert (Hl23 : lists a2 B3).
  { eapply lists_ext; [|exact Hl2]. intros x j. unfold B2, B1, B3. rewrite !lookup_insert, lookup_delete.
    split; intros Hx; repeat case_decide; congruence. }
  apply wp_ar_upd; [lia|by rewrite Hz2|]. set (a3 := write junk _ l a2).
  assert (Hl33 : lists a3 B3) by (eapply lists_write; [by eapply (placed_size a)|done|done]).
  assert (Hm3 : forall x j f, B3 !! x = Some (j, f) -> order (mem a3 x) = j /\
    truth (is_free (mem a3 x)) = if decide (x = l) then true else f).
  { intros x j f Hx. unfold a3. erewrite write_links; [|by eapply (placed_size a)|done|done].
    destruct (decide (x = l)) as [->|Hxl].
    - rewrite Hl3 in Hx. injection Hx as <- <-. simpl. split; [by apply Z.mod_small; lia|].
      destruct (Hs2 l k false) as [_ ->]; [unfold B1; by rewrite lookup_insert_eq|].
      destruct (Hs1 l _ _ Hb) as [_ ->]. by apply Hh in Hb as [_ ?].
    - assert (Hxu : x <> u).
      { intros ->. unfold B3 in Hx. rewrite lookup_insert_ne, lookup_delete_eq in Hx by lia. done. }
      rewrite Hx3 in Hx by done. destruct (Hs2 x j f) as [-> ->]; [unfold B1; by rewrite lookup_insert_ne|].
      destruct (Hs1 x _ _ Hx) as [-> ->]. by apply Hh. }
  assert (Hf1 : forall y, headers B1 u y -> free_bytes B y).
  { intros y Hy. eapply headers_free in Hy; [|exact HP1|exact Hu1]. destruct Hy as (x & j & Hx & Hy).
    unfold B1 in Hx. rewrite lookup_insert in Hx. case_decide; [done|]. by exists x, j. }
  assert (Ho3 : only (free_bytes B) a a3).
  { eapply only_trans; [eapply only_mono; [|exact Ho1]; by eapply headers_free|].
    eapply only_trans; [eapply only_mono; [exact Hf1|exact Ho2]|]. apply only_write.
    intros y Hy. exists l, k. unfold BLK in *. split; [done|lia]. }
  eapply (wp_link junk a3 B3); [by eapply (placed_size a)|exact Hl33|exact Hl3|].
  intros a4 Hl4 Hs4 Ho4 _ _.
  assert (E4 : <[l := (k + 1, true)]> B3 = join_map l k B).
  { unfold B3, join_map. fold u. apply map_eq. intros x. rewrite !lookup_insert. by repeat case_decide. }
  rewrite E4 in Hl4. assert (Ho4' : only (free_bytes B) a a4).
  { eapply only_trans; [exact Ho3|]. eapply only_mono; [|exact Ho4]. intros y Hy.
    eapply headers_block in Hy; [|exact HP3|exact Hl3].
    destruct Hy as [(x & j & Hx & Hy)|Hy].
    - unfold B3 in Hx. rewrite lookup_insert, lookup_delete in Hx. repeat case_decide; try done. by exists x, j.
    - eapply (free_join _ l k); [lia|exact Hb|exact Hu|]. exists l, (k + 1). split; [|exact Hy].
      by rewrite lookup_join, decide_True by lia. }
  apply HQ; [|done]. split; [by rewrite (on_size _ _ _ Ho4')|by rewrite (top_only _ _ _ Ho4')| |done].
  intros x j f Hx. rewrite lookup_join in Hx by lia. fold u in Hx.
  destruct (decide (x = l)) as [->|Hxl].
  - injection Hx as <- <-. destruct (Hs4 l _ _ Hl3) as [-> ->]. destruct (Hm3 l _ _ Hl3) as [-> ->].
    by rewrite decide_True.
  - destruct (decide (x = u)); [done|]. rewrite <- Hx3 in Hx by done. destruct (Hs4 x _ _ Hx) as [-> ->].
    destruct (Hm3 x _ _ Hx) as [-> ->]. by rewrite decide_False.
Qed.
Lemma wp_join_step a B b k Q : arena_ok a B -> coal (Some b) B -> B !! b = Some (k, true) ->
  (coal None B -> Q (inr tt) a) ->
  (forall a' l, B !! l = Some (k, true) -> B !! (l + 2 ^ k) = Some (k, true) ->
     arena_ok a' (join_map l k B) -> coal (Some l) (join_map l k B) -> only (free_bytes B) a a' ->
     Q (inl (l, k + 1)) a') ->
  wp (join_step junk (b, k)) a Q.
Proof.
  intros Hok Hco Hb HQ1 HQ2. pose proof (ok_placed _ _ Hok) as Hpl. pose proof Hok as [Hsz HP Hh Hl].
  destruct (p_shape _ _ HP _ _ _ Hb) as (Hk & Hb0 & Hmod & Htopb). pose proof (pow2_32 k ltac:(lia)) as Hp.
  pose proof (top_le a ltac:(lia)) as (Ht1 & _ & Ht2 & Ht3).
  unfold join_step, ARENA_ORDERS. rewrite (proj2 (Z.ltb_lt (k + 1) 32)) by lia. cbv zeta.
  set (c := buddy_of b k) in *. wp_bind. apply wp_get.
  assert (Hc0 : 0 <= c) by (unfold c; destruct (buddy_cases b k) as [[E ->]|[E ->]]; [lia|done|done|lia|];
    pose proof (Z.mod_le b (2 ^ (k + 1)) Hb0 ltac:(pose proof (pow2_S k ltac:(lia)); lia)); lia).
  destruct (Z.ltb_spec (size a) (c + BLK)) as [Hout|Hin].
  { apply wp_ret, HQ1. eapply coal_done; [exact HP|exact Hco|exact Hb|]. intros Hc. fold c in Hc.
    destruct (pl_in _ _ Hpl _ _ _ Hc). lia. }
  assert (Hct : 0 <= c < top a).
  { split; [done|]. destruct (Z.lt_ge_cases c (top a)) as [?|Hge]; [done|exfalso].
    assert (Hcm : c mod 32 = 0).
    { change 32 with (2 ^ 5). apply (mod_pow_le c 5 k); [lia|]. unfold c.
      destruct (buddy_cases b k) as [[_ ->]|[_ ->]]; [lia|done|done|by apply mod_add_pow; [lia|]|].
      replace (b - 2 ^ k) with (b + (-1) * 2 ^ k) by lia. by rewrite Z.mod_add by lia. }
    unfold BLK, top in *. lia. }
  destruct (buddy_start B (top a) HP b k true Hb Hct) as (k' & g & Hc & Hk'). fold c in Hc.
  destruct (pl_in _ _ Hpl _ _ _ Hc) as (_ & _ & Hcs). destruct (Hh c k' g Hc) as [Eo Ef].
  wp_bind. apply wp_ar_ld; [done..|]. rewrite Ef. wp_bind. apply wp_ar_ld; [done..|]. rewrite Eo.
  destruct (negb g || negb (k' =? k)) eqn:E.
  { apply wp_ret, HQ1. eapply coal_done; [exact HP|exact Hco|exact Hb|]. fold c. rewrite Hc. intros [= -> ->].
    rewrite Z.eqb_refl in E. done. }
  apply orb_false_iff in E as [E1%negb_false_iff E2%negb_false_iff%Z.eqb_eq]. rewrite E1, E2 in Hc.
  pose proof (buddy_invol b k ltac:(lia) Hb0) as Einv. fold c in Einv.
  assert (Hcase : exists l, (if c <? b then (c, b) else (b, c)) = (l, l + 2 ^ k) /\ l mod 2 ^ (k + 1) = 0 /\
    B !! l = Some (k, true) /\ B !! (l + 2 ^ k) = Some (k, true) /\ (b = l \/ b = l + 2 ^ k)).
  { destruct (buddy_cases b k) as [[Em Eb]|[Em Eb]]; [lia|done|done|..]; fold c in Eb.
    - exists b. rewrite <- Eb, (proj2 (Z.ltb_ge c b)) by lia. by split_and!; auto.
    - exists c. replace (c + 2 ^ k) with b by lia. rewrite (proj2 (Z.ltb_lt c b)) by lia.
      split_and!; auto. replace c with (b - b mod 2 ^ (k + 1)) by lia.
      pose proof (pow2_S k ltac:(lia)).
      rewrite Zminus_mod_idemp_r, Z.sub_diag. by rewrite Z.mod_0_l by lia. }
  destruct Hcase as (l & -> & Hlm & Hbl & Hbu & Hbe). cbv zeta.
  wp_bind. eapply wp_mono; [apply (wp_join a B l k (fun _ a' => arena_ok a' (join_map l k B) /\ only (free_bytes B) a a'));
    [done|done|done|done|by auto]|].
  intros [] a1 H1. wp_bind. eapply wp_mono; [exact H1|]. intros [] a2 H2. wp_bind. eapply wp_mono; [exact H2|].
  intros [] a3 H3. wp_bind. eapply wp_mono; [exact H3|]. intros [] a4 [Hok4 Ho4]. apply wp_ret, HQ2; try done.
  eapply coal_join; [exact HP|lia|done|done|done|exact Hbe|exact Hco].
Qed.

(** A block has been given back. *)
Record freed (a : arena) (B : bmap) (a' : arena) (B' : bmap) (b o : Z) : Prop := {
  fr_ok : arena_ok a' B';
  fr_coal : coal None B';
  fr_used x k : used B' x k <-> x <> b /\ used B x k;
  fr_only : only (fun y => free_bytes B y \/ block_bytes b o y) a a';
}.

Lemma wp_join_loop a B b k : arena_ok a B -> coal (Some b) B -> B !! b = Some (k, true) ->
  wp (loop 33 (join_step junk) (b, k)) a (fun _ a' => exists B', arena_ok a' B' /\ coal None B' /\
    (forall x j, used B' x j <-> used B x j) /\ only (free_bytes B) a a').
Proof.
  intros Hok Hco Hb. destruct (p_shape _ _ (ao_parts _ _ Hok) _ _ _ Hb) as (Hk & _).
  apply (wp_loop (fun n '(c, j) a' => n = Z.to_nat (32 - j) /\ exists B', arena_ok a' B' /\ coal (Some c) B' /\
    B' !! c = Some (j, true) /\ (forall x i, used B' x i <-> used B x i) /\
    (forall y, free_bytes B' y -> free_bytes B y) /\ only (free_bytes B) a a')) with (k := Z.to_nat (32 - k)); [|lia|].
  - intros n [c j] a' (-> & B' & Hok' & Hco' & Hc & Hu & Hf & Ho).
    destruct (p_shape _ _ (ao_parts _ _ Hok') _ _ _ Hc) as (Hj & _).
    eapply wp_join_step; [exact Hok'|exact Hco'|exact Hc|by exists B'|].
    intros a2 l Hl Hlu Hok2 Hco2 Ho2. exists (Z.to_nat (32 - (j + 1))). split; [lia|]. split; [done|].
    exists (join_map l j B'). split_and!; [done|done|by rewrite lookup_join, decide_True by lia|..].
    + intros x i. rewrite <- Hu. apply used_join; [lia|done|done].
    + intros y Hy. apply Hf. eapply free_join; [|exact Hl|exact Hlu|exact Hy]. lia.
    + eapply only_trans; [exact Ho|]. by eapply only_mono.
  - split; [done|]. exists B. by split_and!; try apply only_refl.
Qed.

Lemma wp_arena_free a B b o : arena_ok a B -> coal None B -> used B b o ->
  wp (arena_free junk (Some (b + BLK))) a (fun _ a' => exists B', freed a B a' B' b o).
Proof.
  intros Hok Hco Hb. pose proof (ok_placed _ _ Hok) as Hpl. pose proof Hok as [Hsz HP Hh Hl]. unfold used in Hb.
  destruct (pl_in _ _ Hpl _ _ _ Hb) as (Ho & Hb0 & Hbs). destruct (p_shape _ _ HP _ _ _ Hb) as (Ho5 & _).
  pose proof (pow2_32 o ltac:(lia)) as Hp. destruct (Hh b o false Hb) as [Eo _].
  unfold arena_free. replace (b + BLK - BLK) with b by lia. wp_bind. apply wp_ar_ld; [done..|]. rewrite Eo.
  wp_bind. apply wp_ar_upd; [done..|]. set (a1 := write junk _ b a).
  assert (Hl1 : lists a1 B) by (by eapply lists_write).
  wp_bind. eapply (wp_link junk a1 B); [by eapply (placed_size a)|exact Hl1|exact Hb|].
  intros a2 Hl2 Hs2 Ho2 _ _. set (R := fun y => free_bytes B y \/ block_bytes b o y).
  assert (Ho12 : only R a a2).
  { eapply only_trans; [apply (only_write junk R)|eapply only_mono; [|exact Ho2]].
    - intros y Hy. right. unfold block_bytes, BLK in *. lia.
    - intros y Hy. by eapply headers_block. }
  assert (Hok2 : arena_ok a2 (<[b := (o, true)]> B)).
  { split; [by rewrite (on_size _ _ _ Ho12)|rewrite (top_only _ _ _ Ho12); by eapply parts_flag| |done].
    intros x k f Hx. rewrite lookup_insert in Hx. destruct (decide (b = x)) as [<-|Hne].
    - injection Hx as <- <-. destruct (Hs2 b _ _ Hb) as [-> ->]. unfold a1. rewrite mem_write_eq. simpl.
      split; [done|done].
    - destruct (Hs2 x _ _ Hx) as [-> ->]. unfold a1. erewrite write_links by done.
      rewrite decide_False by congruence. by apply Hh. }
  eapply wp_mono; [apply (wp_join_loop a2 (<[b := (o, true)]> B) b o); [exact Hok2|by eapply coal_free|by rewrite lookup_insert_eq]|].
  intros _ a3 (B' & Hok3 & Hco3 & Hu3 & Ho3). exists B'. split; [done|done|..].
  - intros x k. rewrite Hu3. unfold used. rewrite lookup_insert. case_decide; [subst; naive_solver|naive_solver].
  - eapply only_trans; [exact Ho12|]. eapply only_mono; [|exact Ho3].
    intros y (x & k & Hx & Hy). rewrite lookup_insert in Hx. case_decide as Hd; [|by left; exists x, k].
    injection Hx as <-. subst x. by right.
Qed.
End arena.
