(* ===== verification/ArenaMain.v ===== *)
(** Correctness of src/arena.c: allocation, freeing and reallocation on a
    well-formed arena, its creation, and the count of free space. *)
From S2P Require Import Prelude Arena ArenaMap ArenaList ArenaOps.

(** The invariant of an arena: it is cut into aligned blocks without gaps, the
    headers and the free lists say which, and no two buddies are both free. *)
Definition arena_inv (a : arena) (B : bmap) : Prop := arena_ok a B /\ coal None B.

(** What the user may touch. *)
Definition payload (B : bmap) (y : Z) : Prop := exists b o, used B b o /\ b + BLK <= y < b + 2 ^ o.

(** The payload of the blocks in use, but for [b], is unchanged. *)
Definition same_data (B : bmap) (b : option Z) (a a' : arena) : Prop := forall x k y,
  used B x k -> b <> Some x -> x + BLK <= y < x + 2 ^ k -> data a' y = data a y.

Lemma blocks_apart B top x k f x' k' f' y : parts B top -> B !! x = Some (k, f) -> B !! x' = Some (k', f') ->
  block_bytes x k y -> block_bytes x' k' y -> x = x'.
Proof.
  intros HP H1 H2 Hy Hy'. unfold block_bytes in *. destruct (Z.lt_total x x') as [Hl|[?|Hl]]; [|done|].
  - pose proof (p_disj _ _ HP _ _ _ _ _ _ H1 H2 Hl). lia.
  - pose proof (p_disj _ _ HP _ _ _ _ _ _ H2 H1 Hl). lia.
Qed.

Lemma used_not_free B top x k y : parts B top -> used B x k -> block_bytes x k y -> ~ free_bytes B y.
Proof.
  intros HP Hx Hy (x' & k' & Hx' & Hy'). assert (x = x') as <- by (eapply blocks_apart; eauto).
  unfold used in Hx. congruence.
Qed.

Lemma payload_block x k y : x + BLK <= y < x + 2 ^ k -> block_bytes x k y.
Proof. unfold block_bytes, BLK. lia. Qed.

(** Nothing the user does to the blocks it was given breaks the arena. *)
Lemma user_write_ok a a' B : arena_ok a B -> blocks a' = blocks a -> only (payload B) a a' -> arena_ok a' B.
Proof.
  intros [Hsz HP Hh Hl] Hb Ho. assert (Hm : forall x k f, B !! x = Some (k, f) -> mem a' x = mem a x).
  { intros x k f Hx. apply (on_mem _ _ _ Ho). intros y Hy (x' & k' & Hx' & Hy').
    destruct (p_shape _ _ HP _ _ _ Hx) as (Hk & _). pose proof (pow2_32 k ltac:(lia)).
    assert (x = x') as <- by (eapply (blocks_apart B (top a) x k f x' k' false y); eauto;
      unfold block_bytes, BLK in *; lia). lia. }
  split; [by rewrite (on_size _ _ _ Ho)|by rewrite (top_only _ _ _ Ho)| |].
  - intros x k f Hx. rewrite (Hm x k f Hx). by apply Hh.
  - intros o Ho'. destruct (Hl o Ho') as (st & xs & H1 & H2 & H3 & H4). exists st, xs. rewrite Hb.
    split_and!; [done| |done|done]. eapply dl_ext; [|exact H2]. intros x Hx%H4. by rewrite (Hm x o true Hx).
Qed.

Section arena.
Context (junk : arena -> Z -> arena_block).

(** What is promised of a request; of a block that is given back. *)
Definition allocates (a : arena) (B : bmap) (sz : Z) : Prop :=
  wp (arena_alloc junk sz) a (fun r a' =>
    match r with
    | None => a' = a /\ forall x k, B !! x = Some (k, true) -> 2 ^ k < sz + BLK
    | Some p => exists k B', arena_inv a' B' /\ used B' (p - BLK) k /\
        sz + BLK <= 2 ^ k /\ (forall j, 5 <= j < k -> 2 ^ j < sz + BLK) /\
        (forall x j, x <> p - BLK -> (used B' x j <-> used B x j)) /\
        (forall x j, used B x j -> x + 2 ^ j <= p - BLK \/ p - BLK + 2 ^ k <= x) /\
        same_data B None a a'
    end).
Definition frees (a : arena) (B : bmap) (b : Z) : Prop :=
  wp (arena_free junk (Some (b + BLK))) a (fun _ a' => exists B', arena_inv a' B' /\
    (forall x k, used B' x k <-> x <> b /\ used B x k) /\ same_data B (Some b) a a').

Lemma wp_alloc_free a B sz b o : arena_inv a B -> 0 <= sz < 2 ^ 64 -> allocates a B sz /\ (used B b o -> frees a B b) /\
  (forall a', blocks a' = blocks a -> only (payload B) a a' -> arena_inv a' B).
Proof.
  intros [Hok Hco] Hsz. pose proof (ao_parts _ _ Hok) as HP. split_and!.
  - eapply wp_mono; [by apply wp_arena_alloc|]. intros [p|] a'; [|done].
    intros (k & B' & Hfit & Hmin & Hal). exists k, B'. pose proof Hal as [H1 H2 H3 H4 H5 H6 H7].
    split_and!; try done.
    + intros x j Hx. destruct (p_shape _ _ HP _ _ _ Hx) as (Hj & Hx0 & _). pose proof (pow2_32 j ltac:(lia)).
      destruct (p_shape _ _ (ao_parts _ _ H1) _ _ _ H3) as (Hk & _). pose proof (pow2_32 k ltac:(lia)).
      destruct (Z.le_gt_cases (x + 2 ^ j) (p - BLK)); [by left|]. destruct (Z.le_gt_cases (p - BLK + 2 ^ k) x); [by right|].
      exfalso. eapply (used_not_free B (top a) x j (Z.max x (p - BLK))); [done|done|unfold block_bytes; lia|].
      apply H5. unfold block_bytes. lia.
    + intros x j y Hx _ Hy. apply (on_data _ _ _ H7). eapply used_not_free; [done|done|by apply payload_block].
  - intros Hb. eapply wp_mono; [by apply wp_arena_free|]. intros _ a' (B' & [H1 H2 H3 H4]). exists B'.
    split_and!; try done. intros x k y Hx Hne Hy. apply (on_data _ _ _ H4). intros [Hf|Hf].
    + eapply used_not_free; [done|exact Hx|by apply payload_block|done].
    + apply Hne. f_equal. eapply (blocks_apart B (top a) b o false x k false y); try done. by apply payload_block.
  - intros a' Hbl Hon. split; [|done]. by eapply user_write_ok.
Qed.

(** ** Reallocation *)
Lemma big_request sz : 0 <= sz -> truth (Z.shiftr sz (ARENA_ORDERS - 1)) = bool_decide (2 ^ 31 <= sz).
Proof. apply big_size. Qed.

Lemma copy_ok a B q k n src : arena_ok a B -> used B q k -> 0 <= n <= 2 ^ k - BLK ->
  wp (copy_data junk (q + BLK) src n) a (fun _ a' => arena_ok a' B /\
    (forall i, 0 <= i < n -> data a' (q + BLK + i) = data a (src + i)) /\
    (forall y, ~ (q + BLK <= y < q + BLK + n) -> data a' y = data a y)).
Proof.
  intros Hok Hq Hn. apply wp_modify. set (a' := mk_arena _ _ _ _).
  assert (Ho : only (payload B) a a').
  { assert (HR : forall y, q + BLK <= y < q + BLK + n -> payload B y) by (intros y Hy; exists q, k; split; [done|lia]).
    split; [done|..]; unfold a'; simpl.
    - intros x Hx. destruct (Z.ltb_spec 0 n), (Z.ltb_spec (q + BLK - BLK) x), (Z.ltb_spec x (q + BLK + n));
        simpl; try done.
      exfalso. apply (Hx (Z.max x (q + BLK))); [unfold BLK in *; lia|]. apply HR. lia.
    - intros y Hy. destruct (Z.leb_spec (q + BLK) y), (Z.ltb_spec y (q + BLK + n)); simpl; try done.
      exfalso. apply Hy, HR. lia. }
  split; [by eapply user_write_ok|]. unfold a'. simpl. split.
  - intros i Hi. rewrite (proj2 (Z.leb_le _ _)), (proj2 (Z.ltb_lt _ _)) by lia. simpl. f_equal. lia.
  - intros y Hy. destruct (Z.leb_spec (q + BLK) y), (Z.ltb_spec y (q + BLK + n)); simpl; try done. lia.
Qed.

Lemma wp_arena_realloc a B sz b o : arena_inv a B -> used B b o -> 0 <= sz < 2 ^ 64 ->
  wp (arena_realloc junk (Some (b + BLK)) sz) a (fun r a' =>
    match r with
    | None => a' = a /\ forall x k, B !! x = Some (k, true) -> 2 ^ k < sz + BLK
    | Some q => exists k B', arena_inv a' B' /\ used B' (q - BLK) k /\ sz + BLK <= 2 ^ k /\
        (forall x j, x <> q - BLK -> (used B' x j <-> x <> b /\ used B x j)) /\
        (forall i, 0 <= i < Z.min sz (2 ^ o - BLK) -> data a' (q + i) = data a (b + BLK + i)) /\
        same_data B (Some b) a a'
    end).
Proof.
  intros [Hok Hco] Hb Hsz. pose proof (ao_parts _ _ Hok) as HP. pose proof (ok_placed _ _ Hok) as Hpl.
  destruct (pl_in _ _ Hpl _ _ _ Hb) as (_ & Hb0 & Hbs). destruct (p_shape _ _ HP _ _ _ Hb) as (Ho & _).
  assert (Hmax : forall x k f, B !! x = Some (k, f) -> 2 ^ k <= 2 ^ 30).
  { intros x k f Hx. destruct (p_shape _ _ HP _ _ _ Hx) as (? & _). apply Z.pow_le_mono_r; lia. }
  unfold arena_realloc. replace (b + BLK - BLK) with b by lia. unfold ARENA_ORDERS. change (32 - 1) with 31.
  rewrite big_size by lia. destruct (decide (2 ^ 31 <= sz)) as [Hle|Hlt].
  { rewrite bool_decide_eq_true_2 by done. apply wp_ret. split; [done|]. intros x k Hx.
    specialize (Hmax _ _ _ Hx). unfold BLK. lia. }
  rewrite bool_decide_eq_false_2 by done. destruct (block_order_spec sz ltac:(lia)) as (Hr & Hlo & Hfit).
  set (r := block_order sz) in *. rewrite (proj2 (Z.leb_gt 32 r)) by lia.
  wp_bind. apply wp_ar_ld; [done..|]. destruct (ao_heads _ _ Hok b o false Hb) as [-> _].
  destruct ((o =? r) || (r + 1 =? o)) eqn:E.
  { apply wp_ret. exists o, B. replace (b + BLK - BLK) with b by lia. split_and!; try done.
    - assert (2 ^ r <= 2 ^ o) by (apply Z.pow_le_mono_r; lia). specialize (Hfit ltac:(lia)). lia.
    - intros x j Hx. tauto. }
  wp_bind. eapply wp_mono; [by apply wp_arena_alloc|]. intros [q|] a1; [|intros [-> Hn]; by apply wp_ret].
  intros (k & B1 & Hk1 & _ & [H1 H2 H3 H4 H5 H6 H7]). set (c := q - BLK) in *.
  replace q with (c + BLK) by lia. pose proof (pow2_32 o ltac:(lia)) as Hpo.
  assert (Hbc : b <> c).
  { intros E'. eapply (used_not_free B (top a) b o b); [done|done|unfold block_bytes; lia|]. apply H5. rewrite E'.
    destruct (p_shape _ _ (ao_parts _ _ H1) _ _ _ H3) as (Hk & _). pose proof (pow2_32 k ltac:(lia)).
    unfold block_bytes. lia. }
  assert (Hb1 : used B1 b o) by (by apply H4).
  destruct (pl_in _ _ (ok_placed _ _ H1) _ _ _ Hb1) as (_ & _ & Hbs1).
  wp_bind. apply wp_ar_ld; [done..|]. destruct (ao_heads _ _ H1 b o false Hb1) as [-> _].
  assert (Hn : (if sz <? u64 (shl1 o - BLK) then sz else u64 (shl1 o - BLK)) = Z.min sz (2 ^ o - BLK)).
  { specialize (Hmax _ _ _ Hb). rewrite shl1_small, u64_small by (unfold BLK; lia). destruct (Z.ltb_spec sz (2 ^ o - BLK)); lia. }
  rewrite Hn. set (n := Z.min sz (2 ^ o - BLK)) in *.
  wp_bind. eapply wp_mono; [apply (copy_ok a1 B1 c k n (b + BLK) H1 H3); unfold BLK in *; lia|].
  intros _ a2 (Hok2 & Hcp & Hrest). wp_bind. eapply wp_mono; [by apply (wp_arena_free junk a2 B1 b o)|].
  intros _ a3 (B3 & [F1 F2 F3 F4]). apply wp_ret. exists k, B3. replace (c + BLK - BLK) with c by lia.
  pose proof (ao_parts _ _ H1) as HP1.
  assert (Hkeep : forall x j y, used B1 x j -> x <> b -> x + BLK <= y < x + 2 ^ j -> data a3 y = data a2 y).
  { intros x j y Hx Hne Hy. apply (on_data _ _ _ F4). intros [Hf|Hf].
    - eapply used_not_free; [done|exact Hx|by apply payload_block|done].
    - apply Hne. symmetry. eapply (blocks_apart B1 _ b o false x j false y); try done. by apply payload_block. }
  split_and!.
  - done.
  - apply F3. by split; [apply not_eq_sym|].
  - done.
  - intros x j Hx. rewrite F3. by rewrite H4.
  - intros i Hi. rewrite (Hkeep c k) by (done || auto || (unfold BLK in *; lia)). rewrite Hcp by lia.
    apply (on_data _ _ _ H7). eapply used_not_free; [done|exact Hb|]. unfold block_bytes, BLK in *. lia.
  - intros x j y Hx Hne Hy. assert (Hxb : x <> b) by congruence.
    assert (Hxc : x <> c).
    { intros ->. eapply (used_not_free B (top a) c j c); [done|done|unfold block_bytes, BLK in *; lia|]. apply H5.
      destruct (p_shape _ _ HP1 _ _ _ H3) as (Hk & _). pose proof (pow2_32 k ltac:(lia)). unfold block_bytes. lia. }
    assert (Hx1 : used B1 x j) by (by apply H4). rewrite (Hkeep x j) by done. rewrite Hrest.
    + apply (on_data _ _ _ H7). eapply used_not_free; [done|exact Hx|by apply payload_block].
    + intros Hy'. apply Hxc. eapply (blocks_apart B1 _ x j false c k false y); try done; [by apply payload_block|].
      unfold block_bytes, BLK in *. lia.
Qed.
(** ** Creation *)
Lemma parts_append B base o f : parts B base -> 5 <= o <= 30 -> 0 <= base -> base mod 2 ^ o = 0 ->
  parts (<[base := (o, f)]> B) (base + 2 ^ o).
Proof.
  intros HP Ho Hb Hm. pose proof (pow2_32 o ltac:(lia)).
  assert (Hin : forall x k g, B !! x = Some (k, g) -> x < base /\ x + 2 ^ k <= base).
  { intros x k g Hx. destruct (p_shape _ _ HP _ _ _ Hx) as (Hk & _ & _ & ?). pose proof (pow2_32 k ltac:(lia)). lia. }
  split.
  - intros x k g. rewrite lookup_insert. case_decide; [intros [= <- <-]; subst; split_and!; (done || lia)|].
    intros Hx. destruct (p_shape _ _ HP _ _ _ Hx) as (? & ? & ? & ?). split_and!; (done || lia).
  - intros x k g x' k' g'. rewrite !lookup_insert. repeat case_decide; subst; intros Hx Hx' Hlt; simplify_eq; try lia.
    + destruct (Hin _ _ _ Hx'). lia.
    + by destruct (Hin _ _ _ Hx).
    + by eapply (p_disj _ _ HP x).
  - intros x Hx. destruct (Z.lt_ge_cases x base).
    + destruct (p_cover _ _ HP x ltac:(lia)) as (c & k & g & Hc & Hin'). exists c, k, g.
      destruct (Hin _ _ _ Hc). rewrite lookup_insert_ne by lia. done.
    + exists base, o, f. rewrite lookup_insert_eq. split; [done|lia].
Qed.

(** The blocks cut so far: all free, of different orders, none below [o]. *)
Record cutting (a : arena) (B : bmap) (o base rem : Z) : Prop := {
  cu_parts : parts B base;
  cu_heads : heads a B;
  cu_lists : lists a B;
  cu_sum : base + rem = size a /\ 0 <= base /\ 0 <= rem;
  cu_order : (rem < 2 ^ (o + 1) /\ base mod 2 ^ (o + 1) = 0) \/ (5 <= o /\ rem < 2 ^ o /\ base mod 2 ^ o = 0);
  cu_free x k f : B !! x = Some (k, f) -> f = true /\ o <= k /\ (k = o -> rem < 2 ^ o);
  cu_distinct x x' k f f' : B !! x = Some (k, f) -> B !! x' = Some (k, f') -> x = x';
}.

Lemma wp_cut a B o base rem Q : cutting a B o base rem -> 0 <= size a < 2 ^ 31 -> 5 <= o <= 30 -> 2 ^ o <= rem ->
  (forall a', cutting a' (<[base := (o, true)]> B) o (base + 2 ^ o) (rem - 2 ^ o) -> size a' = size a -> Q tt a') ->
  wp (set_is_free junk base 1) a (fun _ a1 => wp (set_order junk base o) a1 (fun _ a2 =>
    wp (block_link junk o base) a2 Q)).
Proof.
  intros [HP Hh Hl (Hs & Hb0 & Hr0) Hord Hfree Hdist] Hsz Ho Hrem HQ. pose proof (pow2_32 o ltac:(lia)) as Hp.
  assert (Hm : base mod 2 ^ (o + 1) = 0) by (destruct Hord as [[_ ?]|(_ & ? & _)]; [done|lia]).
  assert (Hm' : base mod 2 ^ o = 0) by (apply (mod_pow_le base o (o + 1)); [lia|done]).
  set (B1 := <[base := (o, false)]> B).
  assert (HP1 : parts B1 (base + 2 ^ o)) by (by apply parts_append).
  assert (Hb1 : B1 !! base = Some (o, false)) by (unfold B1; by rewrite lookup_insert_eq).
  assert (Hin : forall x k f, B !! x = Some (k, f) -> x <> base).
  { intros x k f Hx. destruct (p_shape _ _ HP _ _ _ Hx) as (Hk & _ & _ & ?). pose proof (pow2_32 k ltac:(lia)). lia. }
  assert (HB1 : forall x, x <> base -> B1 !! x = B !! x) by (intros x Hx; unfold B1; by rewrite lookup_insert_ne).
  pose proof (parts_placed a B1 _ HP1 ltac:(lia)) as Hpl.
  assert (Hl1 : lists a B1).
  { eapply lists_ext; [|exact Hl]. intros x k. unfold B1. rewrite lookup_insert. case_decide as Hd; [|done].
    split; [intros Hx; by apply Hin in Hx|done]. }
  destruct (pl_in _ _ Hpl _ _ _ Hb1) as (_ & _ & Hbs).
  apply wp_ar_upd; [done..|]. apply wp_ar_upd; [done..|]. set (a2 := write junk _ base _).
  assert (Hl2 : lists a2 B1) by (repeat (eapply lists_write; [by eapply (placed_size a)| |done]); done).
  assert (Hm2 : forall x k f, B1 !! x = Some (k, f) -> order (mem a2 x) = k /\ truth (is_free (mem a2 x)) = true).
  { intros x k f Hx. unfold a2. erewrite !write_links by (done || by eapply (placed_size a)).
    destruct (decide (x = base)) as [->|Hne].
    - rewrite Hb1 in Hx. injection Hx as <- <-. split; [by apply Z.mod_small; lia|done].
    - rewrite HB1 in Hx by done. destruct (Hh x k f Hx) as [-> ->]. by destruct (Hfree x k f Hx) as [-> _]. }
  assert (Hz2 : size a2 = size a) by done. clearbody a2.
  eapply (wp_link junk a2 B1); [by eapply (placed_size a)|exact Hl2|exact Hb1|].
  intros a3 Hl3 Hs3 Ho3 _ _. assert (Hz3 : size a3 = size a) by (by rewrite (on_size _ _ _ Ho3)).
  assert (E : <[base := (o, true)]> B1 = <[base := (o, true)]> B) by (unfold B1; by rewrite insert_insert_eq).
  rewrite E in Hl3. apply HQ; [|done]. pose proof (pow2_S o ltac:(lia)) as HS. split.
  - by apply parts_append.
  - intros x k f Hx. assert (Hx1 : exists f', B1 !! x = Some (k, f')).
    { rewrite lookup_insert in Hx. case_decide; [subst; exists false; congruence|]. rewrite HB1 by done. eauto. }
    destruct Hx1 as [f' Hx1]. destruct (Hs3 x k f' Hx1) as [-> ->]. destruct (Hm2 x k f' Hx1) as [-> ->].
    split; [done|]. rewrite lookup_insert in Hx. case_decide; [congruence|]. by destruct (Hfree x k f Hx) as [-> _].
  - done.
  - rewrite Hz3. lia.
  - right. split; [lia|]. split; [|by apply mod_add_pow; [lia|]]. destruct Hord as [[? _]|(_ & ? & _)]; lia.
  - intros x k f. rewrite lookup_insert. case_decide.
    + intros [= <- <-]. split_and!; [done|lia|]. intros _. destruct Hord as [[? _]|(_ & ? & _)]; lia.
    + intros Hx. destruct (Hfree x k f Hx) as (-> & ? & Hko). split_and!; [done..|]. intros ->.
      specialize (Hko eq_refl). lia.
  - intros x x' k f f'. rewrite !lookup_insert. repeat case_decide; subst; try done; intros Hx Hx'; simplify_eq.
    + destruct (Hfree _ _ _ Hx') as (_ & _ & Hko). specialize (Hko eq_refl). lia.
    + destruct (Hfree _ _ _ Hx) as (_ & _ & Hko). specialize (Hko eq_refl). lia.
    + by eapply Hdist.
Qed.
Lemma shl1_lt o : 0 <= o <= 31 -> shl1 o < BLK <-> o <= 4.
Proof.
  intros Ho. destruct (Z.eq_dec o 31) as [->|Hne]; [rewrite shl1_31; unfold BLK; lia|]. rewrite shl1_small by lia.
  unfold BLK. split; intros H.
  - destruct (Z.le_gt_cases o 4); [done|]. pose proof (pow2_32 o ltac:(lia)). lia.
  - assert (2 ^ o <= 2 ^ 4) by (apply Z.pow_le_mono_r; lia). lia.
Qed.

Lemma cutting_down a B o base rem : cutting a B o base rem -> 5 <= o -> rem < 2 ^ o -> cutting a B (o - 1) base rem.
Proof.
  intros [HP Hh Hl Hsum Hord Hfree Hdist] Ho Hr. split; try done.
  - left. replace (o - 1 + 1) with o by lia. split; [done|]. destruct Hord as [[_ Hm]|(_ & _ & Hm)]; [|done].
    apply (mod_pow_le base o (o + 1)); [lia|done].
  - intros x k f Hx. destruct (Hfree x k f Hx) as (-> & ? & _). split_and!; [done|lia|lia].
Qed.

Lemma wp_init_step a B o base rem Q : cutting a B o base rem -> 0 <= size a < 2 ^ 31 -> 4 <= o <= 31 ->
  (o = 4 -> Q (inr tt) a) ->
  (5 <= o -> rem < 2 ^ o -> Q (inl (o - 1, (base, rem))) a) ->
  (5 <= o -> 2 ^ o <= rem -> forall a', cutting a' (<[base := (o, true)]> B) o (base + 2 ^ o) (rem - 2 ^ o) ->
     size a' = size a -> Q (inl (o, (base + 2 ^ o, rem - 2 ^ o))) a') ->
  wp (init_step junk (o, (base, rem))) a Q.
Proof.
  intros Hc Hsz Ho HQ1 HQ2 HQ3. destruct (cu_sum _ _ _ _ _ Hc) as (Hs & Hb0 & Hr0). unfold init_step. cbv zeta.
  destruct (Z.ltb_spec (shl1 o) BLK) as [Hsm|Hsm]; [apply wp_ret, HQ1; apply shl1_lt in Hsm; lia|].
  assert (Ho5 : 5 <= o) by (destruct (Z.le_gt_cases o 4) as [H4|?]; [apply shl1_lt in H4|]; lia).
  assert (Hcmp : rem < shl1 o <-> rem < 2 ^ o).
  { destruct (Z.eq_dec o 31) as [->|]; [rewrite shl1_31; lia|]. by rewrite shl1_small by lia. }
  destruct (Z.ltb_spec rem (shl1 o)) as [Hlt|Hge]; [apply wp_ret, HQ2; [done|by apply Hcmp]|].
  assert (Hge' : 2 ^ o <= rem) by lia.
  assert (Ho30 : o <= 30) by (destruct (Z.eq_dec o 31) as [->|]; lia).
  wp_bind. eapply wp_mono; [apply (wp_cut a B o base rem (fun _ a' =>
    cutting a' (<[base := (o, true)]> B) o (base + 2 ^ o) (rem - 2 ^ o) /\ size a' = size a)); (done || auto || lia)|].
  intros [] a1 H1. wp_bind. eapply wp_mono; [exact H1|]. intros [] a2 H2. wp_bind. eapply wp_mono; [exact H2|].
  intros [] a3 [H3 H4]. apply wp_ret. rewrite shl1_small, u64_small by lia. by apply HQ3.
Qed.

Lemma cutting_coal a B o base rem : cutting a B o base rem -> coal None B.
Proof.
  intros Hc x k Hx Hy. exfalso. destruct (p_shape _ _ (cu_parts _ _ _ _ _ Hc) _ _ _ Hx) as (Hk & _).
  apply (buddy_ne x k); [lia|]. eapply (cu_distinct _ _ _ _ _ Hc); [exact Hy|exact Hx].
Qed.

Lemma arena_init_ok mem0 data0 sz : 0 <= sz < 2 ^ 31 -> sz mod 32 < BLK ->
  exists a B, arena_init junk mem0 data0 sz = Ok (a, tt) /\ arena_inv a B /\ size a = sz /\
    forall x k f, B !! x = Some (k, f) -> f = true.
Proof.
  intros Hsz Hm. set (a0 := mk_arena sz (replicate 32 None) mem0 data0).
  enough (Hwp : wp (loop (Z.to_nat (64 + sz / 2 ^ 30)) (init_step junk) (31, (0, sz))) a0 (fun _ a => exists B,
    arena_inv a B /\ size a = sz /\ forall x k f, B !! x = Some (k, f) -> f = true)).
  { apply wp_run in Hwp as (a & [] & E & B & H1 & H2 & H3). by exists a, B. }
  pose proof (Z.div_pos sz (2 ^ 30) ltac:(lia) ltac:(lia)) as Hd.
  apply (wp_loop (fun n '(o, (base, rem)) a => size a = sz /\ 4 <= o <= 31 /\
    n = Z.to_nat (2 * o + if rem <? 2 ^ o then 0 else 1) /\ exists B, cutting a B o base rem))
    with (k := 62%nat); [|lia|].
  - intros n (o & base & rem) a (Hs & Ho & -> & B & Hc). eapply wp_init_step; [exact Hc|by rewrite Hs|done|..].
    + intros ->. exists B. split; [|split; [done|by intros x k f Hx; destruct (cu_free _ _ _ _ _ Hc x k f Hx)]].
      split; [|by eapply cutting_coal]. destruct Hc as [HP Hh Hl (Hsum & Hb0 & Hr0) Hord _ _].
      destruct Hord as [[Hr Hbm]|(? & _)]; [|lia]. change (2 ^ (4 + 1)) with 32 in *.
      assert (Etop : top a = base).
      { unfold top. rewrite <- Hsum, <- (Zplus_mod_idemp_l base), Hbm. simpl. rewrite Z.mod_small by lia. lia. }
      split; [by rewrite Hs|by rewrite Etop|done|done].
    + intros H5 Hr. eexists. split; [|split; [done|split; [lia|split; [reflexivity|]]]].
      * rewrite (proj2 (Z.ltb_lt rem (2 ^ o))) by done. destruct (rem <? 2 ^ (o - 1)); lia.
      * exists B. by apply cutting_down.
    + intros H5 Hr a' Hc' Hs'. eexists. split; [|split; [by rewrite Hs'|split; [lia|split; [reflexivity|by eexists]]]].
      rewrite (proj2 (Z.ltb_ge rem (2 ^ o))) by done.
      assert (rem - 2 ^ o < 2 ^ o); [|by rewrite (proj2 (Z.ltb_lt _ _)) by done; lia].
      destruct (cu_order _ _ _ _ _ Hc) as [[Hr2 _]|(_ & ? & _)]; [rewrite pow2_S in Hr2|]; lia.
  - split_and!; [done|lia|lia| |].
    + rewrite (proj2 (Z.ltb_lt sz (2 ^ 31))) by lia. done.
    + exists ∅. split; try done.
      * split; [done|done|]. intros x Hx. lia.
      * intros o Ho. exists None, []. split_and!; [|done|by constructor|by intros x; split; [intros ?%elem_of_nil|]].
        apply lookup_replicate_2. lia.
      * simpl. lia.
      * left. change (31 + 1) with 32. split; [lia|by rewrite Z.mod_0_l].
Qed.
End arena.

(** ** Counting free space *)
Section count.
Context (a : arena) (B : bmap) (Hok : arena_ok a B).

Lemma few_blocks (xs : list Z) : NoDup xs -> (forall x, x ∈ xs -> is_Some (B !! x)) ->
  (length xs <= Z.to_nat (size a / 32 + 1))%nat.
Proof.
  intros Hnd Hin. destruct Hok as [Hsz HP _ _]. pose proof (top_le a ltac:(lia)) as (Ht & _).
  assert (Hx : forall x, x ∈ xs -> 0 <= x < size a /\ x = 32 * (x / 32)).
  { intros x Hx. destruct (Hin x Hx) as [[k f] Hk]. destruct (p_shape _ _ HP _ _ _ Hk) as (Ho & H0 & Hm & ?).
    pose proof (pow2_32 k ltac:(lia)). split; [lia|]. apply (mod_pow_le x 5 k) in Hm; [|lia]. change (2 ^ 5) with 32 in Hm.
    apply Z.div_exact; lia. }
  assert (Hsub : (fun x => Z.to_nat (x / 32)) <$> xs ⊆+ seq 0 (Z.to_nat (size a / 32 + 1))).
  { apply NoDup_submseteq.
    - clear Hin. induction Hnd as [|x l Hxl Hnd IH]; [constructor|]. rewrite fmap_cons. constructor.
      + rewrite list_elem_of_fmap. intros (y & Hxy & Hy). apply Hxl.
        destruct (Hx x ltac:(set_solver)) as [? Ex], (Hx y ltac:(set_solver)) as [? Ey].
        pose proof (Z.div_pos x 32 ltac:(lia) ltac:(lia)). pose proof (Z.div_pos y 32 ltac:(lia) ltac:(lia)).
        assert (x / 32 = y / 32) as E by lia. rewrite Ex, E, <- Ey. done.
      + apply IH. intros y Hy. apply Hx. set_solver.
    - intros n (x & -> & Hx')%list_elem_of_fmap. destruct (Hx x Hx') as [Hr _]. apply elem_of_seq.
      pose proof (Z.div_pos x 32 ltac:(lia) ltac:(lia)). pose proof (Z.div_le_mono x (size a) 32 ltac:(lia) ltac:(lia)). lia. }
  apply submseteq_length in Hsub. rewrite length_fmap, length_seq in Hsub. done.
Qed.

Lemma wp_count_list o st xs : dl (mem a) None st xs -> NoDup xs -> (forall x, x ∈ xs -> B !! x = Some (o, true)) ->
  wp (count_list st) a (fun c a' => a' = a /\ c = Z.of_nat (length xs)).
Proof.
  intros Hd Hnd Hin. pose proof (few_blocks xs Hnd ltac:(intros x Hx; rewrite Hin by done; eauto)) as Hlen.
  pose proof (ok_placed _ _ Hok) as Hpl. destruct (ao_size _ _ Hok) as [Hsz _].
  pose proof (Z.div_pos (size a) 32 ltac:(lia) ltac:(lia)). assert (size a / 32 <= 2 ^ 26) by (apply Z.div_le_upper_bound; lia).
  unfold count_list. wp_bind. apply wp_get. wp_bind.
  apply (wp_loop (fun k '(b, c) a' => a' = a /\ exists l1 l2 p, xs = l1 ++ l2 /\ dl (mem a) p b l2 /\
    c = Z.of_nat (length l1) /\ k = length l2)) with (k := length xs); [|lia|].
  - intros k [b c] a' (-> & l1 & l2 & p & E & Hl & -> & ->). destruct l2 as [|x l2]; simpl in Hl.
    + subst b. rewrite app_nil_r in E. subst. apply wp_ret, wp_ret. done.
    + destruct Hl as (-> & _ & Hl). destruct (pl_in _ _ Hpl x o true) as (_ & Hx0 & Hxs); [apply Hin; set_solver|].
      wp_bind. apply wp_ar_ld; [done..|]. apply wp_ret. exists (length l2). split; [simpl; lia|]. split; [done|].
      exists (l1 ++ [x]), l2, (Some x). rewrite <- app_assoc. split_and!; [done|done| |done].
      rewrite E in Hlen. rewrite !length_app in *. simpl in *. rewrite u64_small by lia. lia.
  - split; [done|]. by exists [], xs, None.
Qed.

(** The free space in blocks below order [n]. *)
Definition space_below (n : Z) (l : list (Z * (Z * bool))) : Z :=
  foldr (fun e s => (if e.2.2 && (e.2.1 <? n) then 2 ^ e.2.1 - BLK else 0) + s) 0 l.

Definition free_space : Z := space_below 32 (map_to_list B).

Lemma space_S n l : space_below (n + 1) l =
  space_below n l + Z.of_nat (length (filter (fun e => e.2 = (n, true)) l)) * (2 ^ n - BLK).
Proof.
  induction l as [|[x [o f]] l IH]; simpl; [done|]. rewrite IH, filter_cons. cbn [snd].
  case_decide as Hd; [injection Hd as -> ->; simpl|].
  - rewrite Z.ltb_irrefl, (proj2 (Z.ltb_lt n (n + 1))) by lia. lia.
  - destruct f; simpl; [|lia]. destruct (Z.ltb_spec o (n + 1)), (Z.ltb_spec o n); try lia.
    exfalso. apply Hd. f_equal. lia.
Qed.

Lemma count_filter n xs : NoDup xs -> (forall x, x ∈ xs <-> B !! x = Some (n, true)) ->
  length (filter (fun e : Z * (Z * bool) => e.2 = (n, true)) (map_to_list B)) = length xs.
Proof.
  intros Hnd Hin. rewrite <- (length_fmap fst). apply Permutation_length, NoDup_Permutation; [|done|].
  - apply NoDup_fmap_2_strong; [|apply NoDup_filter, NoDup_map_to_list].
    intros [x e] [y e'] [_ Hx]%list_elem_of_filter [_ Hy]%list_elem_of_filter Exy. simpl in Exy. subst.
    apply elem_of_map_to_list in Hx, Hy. congruence.
  - intros x. rewrite Hin, list_elem_of_fmap. split.
    + intros ([x' e] & -> & [E He]%list_elem_of_filter). simpl in *. subst. by apply elem_of_map_to_list.
    + intros Hx. exists (x, (n, true)). split; [done|]. apply list_elem_of_filter. split; [done|].
      by apply elem_of_map_to_list.
Qed.

Lemma space_bound n : 0 <= space_below n (map_to_list B) <= Z.of_nat (length (map_to_list B)) * 2 ^ 30.
Proof.
  assert (Hl : forall e, e ∈ map_to_list B -> 5 <= e.2.1 <= 30).
  { intros [x [o f]] He. apply elem_of_map_to_list in He. by destruct (p_shape _ _ (ao_parts _ _ Hok) _ _ _ He). }
  induction (map_to_list B) as [|e l IH]; simpl; [lia|]. specialize (IH ltac:(set_solver)).
  pose proof (Hl e ltac:(set_solver)). pose proof (pow2_32 e.2.1 ltac:(lia)).
  assert (2 ^ e.2.1 <= 2 ^ 30) by (apply Z.pow_le_mono_r; lia). unfold BLK in *. destruct (_ && _); lia.
Qed.

Lemma wp_count_free : wp arena_count_free a (fun r a' => a' = a /\ r = free_space).
Proof.
  pose proof (few_blocks (map_to_list B).*1 (NoDup_fst_map_to_list B)) as Hlen. rewrite length_fmap in Hlen.
  specialize (Hlen ltac:(intros x ([x' e] & -> & He)%list_elem_of_fmap; apply elem_of_map_to_list in He; eauto)).
  destruct (ao_size _ _ Hok) as [Hsz _]. pose proof (Z.div_pos (size a) 32 ltac:(lia) ltac:(lia)).
  assert (size a / 32 <= 2 ^ 26) by (apply Z.div_le_upper_bound; lia).
  unfold arena_count_free. wp_bind.
  apply (wp_loop (fun k '(i, c) a' => a' = a /\ 0 <= i <= 32 /\ k = Z.to_nat (32 - i) /\
    c = space_below i (map_to_list B))) with (k := 32%nat); [|lia|].
  - intros k [i c] a' (-> & Hi & -> & ->). unfold ARENA_ORDERS. destruct (Z.ltb_spec i 32) as [Hlt|Hge].
    + destruct (ao_lists _ _ Hok i ltac:(lia)) as (st & xs & Hst & Hd & Hnd & Hin).
      wp_bind. eapply wp_get_list; [lia|done|]. wp_bind. eapply wp_mono; [apply (wp_count_list i st xs Hd Hnd); by apply Hin|].
      intros c a' (-> & ->). apply wp_ret. exists (Z.to_nat (32 - (i + 1))). split; [lia|].
      split_and!; [done|lia|lia|done|]. pose proof (space_bound (i + 1)) as Hb. revert Hb.
      rewrite space_S, (count_filter i xs Hnd Hin). intros Hb.
      assert (Hmul : u64 (Z.of_nat (length xs) * u64 (shl1 i - BLK)) = Z.of_nat (length xs) * (2 ^ i - BLK)).
      { destruct xs as [|x xs]; [done|]. assert (Hx : B !! x = Some (i, true)) by (apply Hin; set_solver).
        destruct (p_shape _ _ (ao_parts _ _ Hok) _ _ _ Hx) as (Hk & _). pose proof (pow2_32 i ltac:(lia)).
        assert (2 ^ i <= 2 ^ 30) by (apply Z.pow_le_mono_r; lia). rewrite shl1_small by lia.
        rewrite (u64_small (2 ^ i - BLK)) by (unfold BLK; lia). apply u64_small.
        pose proof (space_bound i). unfold BLK in *. nia. }
      rewrite Hmul. apply u64_small. lia.
    + assert (i = 32) as -> by lia. apply wp_ret, wp_ret. done.
  - split_and!; [done|lia|lia|done|].
    assert (Hl : forall e, e ∈ map_to_list B -> 5 <= e.2.1).
    { intros [x [o f]] He. apply elem_of_map_to_list in He. apply (p_shape _ _ (ao_parts _ _ Hok) _ _ _ He). }
    clear Hlen. revert Hl. induction (map_to_list B) as [|e l IH]; intros Hl; simpl; [done|]. assert (IH' : 0 = space_below 0 l) by (apply IH; intros e' He'; apply Hl; by right).
    rewrite <- IH'. specialize (Hl e ltac:(by left)). rewrite (proj2 (Z.ltb_ge e.2.1 0)), andb_false_r by lia. done.
Qed.
End count.

(** * Properties *)
Section properties.
Context (junk : arena -> Z -> arena_block).

(** C38. The arena is a correct buddy allocator.  Creating one in any memory of less
    than 2 GB whose size does not end in 24 to 31 bytes beyond a multiple of 32 gives
    a well-formed one, with every block free.  A request is given a block that is its
    own, of the least order that fits, or NULL only if no free block is large enough;
    a block given back is free again, merged with its buddies as far as possible; the
    arena stays a partition into aligned blocks that headers and free lists describe,
    whatever the user writes in its blocks, and the contents of blocks in use never
    change.  Reallocation gives a block that fits, with the old contents up to the
    smaller size, and leaves the others alone, or fails without effect; the count of
    free space is the sum over the free blocks. *)
Theorem arena_allocator mem0 data0 size0 a B sz b o :
  (0 <= size0 < 2 ^ 31 -> size0 mod 32 < BLK ->
    exists a0 B0, arena_init junk mem0 data0 size0 = Ok (a0, tt) /\ arena_inv a0 B0 /\ size a0 = size0 /\
      forall x k f, B0 !! x = Some (k, f) -> f = true) /\
  (arena_inv a B -> 0 <= sz < 2 ^ 64 -> allocates junk a B sz /\ (used B b o -> frees junk a B b) /\
    (forall a', blocks a' = blocks a -> only (payload B) a a' -> arena_inv a' B)) /\
  (arena_inv a B -> used B b o -> 0 <= sz < 2 ^ 64 ->
    wp (arena_realloc junk (Some (b + BLK)) sz) a (fun r a' =>
      match r with
      | None => a' = a /\ forall x k, B !! x = Some (k, true) -> 2 ^ k < sz + BLK
      | Some q => exists k B', arena_inv a' B' /\ used B' (q - BLK) k /\ sz + BLK <= 2 ^ k /\
          (forall x j, x <> q - BLK -> (used B' x j <-> x <> b /\ used B x j)) /\
          (forall i, 0 <= i < Z.min sz (2 ^ o - BLK) -> data a' (q + i) = data a (b + BLK + i)) /\
          same_data B (Some b) a a'
      end)) /\
  (arena_inv a B -> wp arena_count_free a (fun r a' => a' = a /\ r = free_space B)).
Proof.
  split_and!.
  - apply arena_init_ok.
  - apply wp_alloc_free.
  - apply wp_arena_realloc.
  - intros [Hok _]. by apply wp_count_free.
Qed.
End properties.

(** * Witnesses: an arena of 100 bytes, 64 + 32 and 4 left over *)
Definition ex_junk (_ : arena) (_ : Z) : arena_block := mk_block None None 200 1.
Definition ex_mem (_ : Z) : arena_block := mk_block None None 7 1.

Lemma ex_arena : exists a B, arena_init ex_junk ex_mem (fun _ => None) 100 = Ok (a, tt) /\ arena_inv a B.
Proof. destruct (arena_init_ok ex_junk ex_mem (fun _ => None) 100) as (a & B & H1 & H2 & _); [lia|done|eauto]. Qed.

Lemma arena_allocator_witness : exists a B, arena_init ex_junk ex_mem (fun _ => None) 100 = Ok (a, tt) /\ arena_inv a B /\
  wp arena_count_free a (fun r a' => a' = a /\ r = free_space B) /\
  wp (arena_alloc ex_junk 30) a (fun r a' => match r with None => True | Some p =>
    exists k B', arena_inv a' B' /\ used B' (p - BLK) k /\ 54 <= 2 ^ k /\
      wp (arena_free ex_junk (Some (p - BLK + BLK))) a' (fun _ a2 => exists B2, arena_inv a2 B2) end).
Proof.
  destruct (arena_allocator ex_junk ex_mem (fun _ => None) 100 (mk_arena 0 [] ex_mem (fun _ => None)) ∅ 0 0 0) as (H0 & _).
  destruct (H0 ltac:(lia) ltac:(done)) as (a & B & Hi & Hinv & _). exists a, B. split; [exact Hi|]. split; [exact Hinv|].
  destruct (arena_allocator ex_junk ex_mem (fun _ => None) 100 a B 30 0 0) as (_ & Ha & _ & Hc). split; [exact (Hc Hinv)|].
  destruct (Ha Hinv ltac:(lia)) as (H1 & _). eapply wp_mono; [exact H1|]. intros [p|] a'; [|intros _; exact I].
  intros (k & B' & H2 & H3 & H4 & _). exists k, B'. split; [exact H2|]. split; [exact H3|]. split; [exact H4|].
  destruct (arena_allocator ex_junk ex_mem (fun _ => None) 100 a' B' 30 (p - BLK) k) as (_ & Ha' & _).
  destruct (Ha' H2 ltac:(lia)) as (_ & H5 & _). eapply wp_mono; [exact (H5 H3)|]. intros _ a2 (B2 & H6 & _). exists B2. exact H6.
Defined.

Example ex_run :
  match arena_init ex_junk ex_mem (fun _ => None) 100 with
  | Ok (a, _) => match (p ← arena_alloc ex_junk 30; q ← arena_alloc ex_junk 8; r ← arena_alloc ex_junk 1;
      n ← arena_count_free; arena_free ex_junk p;; arena_free ex_junk q;; m ← arena_count_free; ret (p, q, r, n, m)) a with
    | Ok (_, x) => x = (Some 24, Some 88, None, 0, 48) | _ => False end
  | _ => False
  end.
Proof. by vm_compute. Qed.

(** With 24 bytes left over, the bytes there are taken for a block when they look
    like one: here freeing the only block of a 56-byte arena joins it with 24
    bytes that are not a block, and a request for 40 bytes is then given a block that
    leaves the arena. *)
Example ex_tail :
  match arena_init ex_junk (fun _ => mk_block None None 5 1) (fun _ => None) 56 with
  | Ok (a, _) => match (p ← arena_alloc ex_junk 8; arena_free ex_junk p;; q ← arena_alloc ex_junk 40; ret (p, q)) a with
    | Ok (a', x) => x = (Some 24, Some 24) /\ 24 + 40 > size a' | _ => False end
  | _ => False
  end.
Proof. by vm_compute. Qed.
