(* ===== verification/Slab.v ===== *)
(** Model of src/slab.h and src/slab.c: allocation of objects of one size, many
    to a slab.

    Addresses are byte addresses.  The memory is a set of live regions with typed
    cells in them: list nodes (16 bytes), back pointers (8 bytes) and counters (4
    bytes).  Using memory of a live region as a cell of some type destroys every
    other cell that shares a byte with it, so a layout whose parts overlapped
    would lose them. *)
From S2P Require Import Prelude Lists.

Record slab := mk_slab {
  objsize : Z;
  slabsize : Z;
  count : Z;
  info_offset : Z;
}.

Record st := mk_st {
  fields : slab;
  nodes : DList.store;
  backs : gmap positive positive;
  counts : gmap positive Z;
  regions : gmap positive Z;   (** live regions and their sizes *)
  calls : nat;                 (** of [malloc] *)
}.

Definition MIN_OBJ : Z := 8.
Definition MIN_SLAB : Z := 32768.
Definition ALIGN : Z := 8.
Definition sizeof_slab : Z := 48.
Definition sizeof_slab_info : Z := 40.
Definition sizeof_slab_free : Z := 16.

(** [p + n], in bytes *)
Definition shift (p : positive) (n : Z) : positive := Z.to_pos (Z.pos p + n).

(** * Memory *)
Definition live (R : gmap positive Z) (p : positive) (n : Z) : Prop :=
  map_Exists (fun b sz => Z.pos b <= Z.pos p /\ Z.pos p + n <= Z.pos b + sz) R.

#[export] Instance live_dec R p n : Decision (live R p n).
Proof. unfold live. apply _. Defined.

(** The cells, each of [w] bytes, that have no byte in [lo .. hi). *)
Definition outside (lo hi w : Z) (a : positive) : Prop := Z.pos a + w <= lo \/ hi <= Z.pos a.
#[export] Instance outside_dec lo hi w a : Decision (outside lo hi w a).
Proof. unfold outside. apply _. Defined.

Definition erase (lo hi : Z) (s : st) : st :=
  mk_st (fields s) (filter (fun '(a, _) => outside lo hi 16 a) (nodes s))
    (filter (fun '(a, _) => outside lo hi 8 a) (backs s))
    (filter (fun '(a, _) => outside lo hi 4 a) (counts s)) (regions s) (calls s).

(** The [n] bytes at [p] are used afresh. *)
Definition claim (p : positive) (n : Z) : M st unit :=
  s ← get;
  if decide (live (regions s) p n) then put (erase (Z.pos p) (Z.pos p + n) s) else crash.

Definition with_nodes (h : DList.store) (s : st) : st :=
  mk_st (fields s) h (backs s) (counts s) (regions s) (calls s).
Definition with_backs b (s : st) : st :=
  mk_st (fields s) (nodes s) b (counts s) (regions s) (calls s).
Definition with_counts c (s : st) : st :=
  mk_st (fields s) (nodes s) (backs s) c (regions s) (calls s).
Definition with_fields f (s : st) : st :=
  mk_st f (nodes s) (backs s) (counts s) (regions s) (calls s).

(** The memory at [p] becomes a list node of indeterminate contents. *)
Definition cast_node (p : positive) : M st unit :=
  claim p 16;; modify (fun s => with_nodes (<[p := DList.mk_lnode None None]> (nodes s)) s).

(** [*(struct slab_info ** )p = v] *)
Definition set_back (p v : positive) : M st unit :=
  claim p 8;; modify (fun s => with_backs (<[p := v]> (backs s)) s).
Definition get_back (p : positive) : M st positive := s ← get; need (backs s !! p).

Definition set_count (p : positive) (v : Z) : M st unit :=
  claim p 4;; modify (fun s => with_counts (<[p := v]> (counts s)) s).
Definition get_count (p : positive) : M st Z := s ← get; need (counts s !! p).

(** An operation of list.c on the list nodes. *)
Definition on_list {A} (m : M DList.store A) : M st A :=
  fun s =>
    match m (nodes s) with
    | Ok (h, a) => Ok (with_nodes h s, a)
    | Crash => Crash
    | NoFuel => NoFuel
    end.

(** [free(p)] *)
Definition free (p : positive) : M st unit :=
  s ← get;
  n ← need (regions s !! p);
  let s := erase (Z.pos p) (Z.pos p + n) s in
  put (mk_st (fields s) (nodes s) (backs s) (counts s) (delete p (regions s)) (calls s)).

(** * Fields of the structures *)
Definition info_free_list (inf : positive) : positive := shift inf 16.
Definition info_free_count (inf : positive) : positive := shift inf 32.

(** [struct slab] is at [self]; its list heads follow four ints. *)
Definition full (self : positive) : positive := shift self 16.
Definition partial (self : positive) : positive := shift self 32.

Section slab.
Context (self : positive) (malloc_at : gmap positive Z -> nat -> Z -> option positive).

Definition malloc (n : Z) : M st (option positive) :=
  s ← get;
  match malloc_at (regions s) (calls s) n with
  | None => put (mk_st (fields s) (nodes s) (backs s) (counts s) (regions s) (Datatypes.S (calls s)));; ret None
  | Some b =>
      put (mk_st (fields s) (nodes s) (backs s) (counts s) (<[b := n]> (regions s)) (Datatypes.S (calls s)));;
      ret (Some b)
  end.

Definition list_init (p : positive) := on_list (DList.list_init (Some p)).
Definition list_insert (item after : positive) := on_list (DList.list_insert (Some item) (Some after)).
Definition list_remove (item : positive) := on_list (DList.list_remove (Some item)).
Definition list_is_empty (p : positive) := on_list (DList.list_is_empty (Some p)).
Definition list_first (p : positive) : M st (option positive) :=
  on_list (n ← DList.ld (Some p); ret (DList.next n)).

(** [objsize] as the code rounds it; the comparison and the sums are in
    [size_t], the result is an [int]. *)
Definition round_objsize (objsize : Z) : Z :=
  let objsize := if u64 objsize <? sizeof_slab_free then sizeof_slab_free else objsize in
  i32 (u64 (objsize + (ALIGN - u64 objsize mod ALIGN) mod ALIGN)).

(** Nothing for a division by zero. *)
Definition layout (objsize : Z) : option slab :=
  let stride := u64 (objsize + 8) in
  if stride =? 0 then None
  else
    let n := i32 ((MIN_SLAB - sizeof_slab_info) / stride) in
    let n := if n <? MIN_OBJ then MIN_OBJ else n in
    let info := i32 (u64 (stride * u64 n)) in
    Some (mk_slab objsize (i32 (u64 (info + sizeof_slab_info))) n info).

Definition slab_init (objsize : Z) : M st unit :=
  f ← need (layout (round_objsize objsize));
  modify (with_fields f);;
  cast_node (full self);;
  list_init (full self);;
  cast_node (partial self);;
  list_init (partial self).

Definition free_slab (inf : positive) : M st unit :=
  list_remove inf;;
  s ← get;
  free (shift inf (- info_offset (fields s))).

(** [while (!list_is_empty(list)) free_slab(s, list->next);] *)
Definition free_all_step (list : positive) (_ : unit) : M st (unit + unit) :=
  e ← list_is_empty list;
  if (e : bool) then ret (inr tt)
  else
    inf ← list_first list;
    inf ← need inf;
    free_slab inf;;
    ret (inl tt).

(** A list has no more nodes than the store. *)
Definition free_all_slabs (list : positive) : M st unit :=
  s ← get;
  loop (Datatypes.S (size (nodes s))) (free_all_step list) tt.

Definition slab_free_all : M st unit :=
  free_all_slabs (full self);; free_all_slabs (partial self).

(** One round of the loop of [alloc_new_slab]. *)
Definition new_slab_step (slab_ inf : positive) (i : Z) : M st (Z + unit) :=
  s ← get;
  if i <? count (fields s) then
    let slot := shift slab_ (u64 (u64 i * u64 (objsize (fields s) + 8))) in
    cast_node slot;;
    list_insert slot (info_free_list inf);;
    s ← get;
    set_back (shift slot (objsize (fields s))) inf;;
    ret (inl (i + 1))
  else ret (inr tt).

(** The loop makes [count] rounds. *)
Definition alloc_new_slab : M st Z :=
  s ← get;
  b ← malloc (u64 (slabsize (fields s)));
  match b with
  | None => ret (-1)
  | Some slab_ =>
      let inf := shift slab_ (info_offset (fields s)) in
      cast_node (info_free_list inf);;
      list_init (info_free_list inf);;
      set_count (info_free_count inf) (count (fields s));;
      loop (Datatypes.S (Z.to_nat (count (fields s)))) (new_slab_step slab_ inf) 0;;
      cast_node inf;;
      list_insert inf (partial self);;
      ret 0
  end.

Definition slab_alloc : M st (option positive) :=
  e ← list_is_empty (partial self);
  rc ← (if (e : bool) then alloc_new_slab else ret 0);
  if rc <? 0 then ret None
  else
    inf ← list_first (partial self);
    inf ← need inf;
    fr ← list_first (info_free_list inf);
    fr ← need fr;
    list_remove fr;;
    n ← get_count (info_free_count inf);
    set_count (info_free_count inf) (n - 1);;
    e ← list_is_empty (info_free_list inf);
    (if (e : bool) then list_remove inf;; list_insert inf (full self) else ret tt);;
    ret (Some fr).

Definition slab_free (obj : positive) : M st unit :=
  s ← get;
  inf ← get_back (shift obj (objsize (fields s)));
  e ← list_is_empty (info_free_list inf);
  (if (e : bool) then list_remove inf;; list_insert inf (partial self) else ret tt);;
  cast_node obj;;
  list_insert obj (info_free_list inf);;
  n ← get_count (info_free_count inf);
  set_count (info_free_count inf) (n + 1);;
  n ← get_count (info_free_count inf);
  if count (fields s) <=? n then free_slab inf else ret tt.
End slab.
