(* ===== verification/SlabMem.v ===== *)
(** The memory of the slab allocator: which bytes an operation touches, and what
    is left as it was.  Then the parts of a slab, and where they are. *)
From S2P Require Import Prelude Lists Slab.

(** * Frames *)

(** No byte of the cell of [w] bytes at [a] is in [B]. *)
Definition untouched (B : Z -> Prop) (a : positive) (w : Z) : Prop :=
  forall x, Z.pos a <= x < Z.pos a + w -> ~ B x.

(** Only cells with a byte in [B] may have changed. *)
Record keeps (B : Z -> Prop) (s s' : st) : Prop := {
  k_fields : fields s' = fields s;
  k_nodes a : untouched B a 16 -> nodes s' !! a = nodes s !! a;
  k_backs a : untouched B a 8 -> backs s' !! a = backs s !! a;
  k_counts a : untouched B a 4 -> counts s' !! a = counts s !! a;
}.

Definition bytes (p : positive) (n x : Z) : Prop := Z.pos p <= x < Z.pos p + n.
Definition node_bytes (l : list positive) (x : Z) : Prop := exists a, a ∈ l /\ bytes a 16 x.

Lemma keeps_mono (B B' : Z -> Prop) s s' : (forall x, B x -> B' x) -> keeps B s s' -> keeps B' s s'.
Proof.
  intros HB [H1 H2 H3 H4]. split; [done|..]; intros a Ha;
    [apply H2|apply H3|apply H4]; intros x Hx Hb; by apply (Ha x Hx), HB.
Qed.

Lemma keeps_refl B s : keeps B s s.
Proof. by split. Qed.

Lemma keeps_trans B s1 s2 s3 : keeps B s1 s2 -> keeps B s2 s3 -> keeps B s1 s3.
Proof.
  intros [H1 H2 H3 H4] [K1 K2 K3 K4].
  split; [by rewrite K1|..]; intros a Ha; rewrite ?K2, ?K3, ?K4 by done; auto.
Qed.

#[export] Instance keeps_preorder B : PreOrder (keeps B).
Proof. split; [intros s; apply keeps_refl|intros s1 s2 s3; apply keeps_trans]. Qed.

(** Cells, regions and fields are the same; the number of calls may not be. *)
Lemma keeps_same B s s' : fields s' = fields s -> nodes s' = nodes s -> backs s' = backs s ->
  counts s' = counts s -> keeps B s s'.
Proof. intros H1 H2 H3 H4. split; [done|..]; intros a _; congruence. Qed.

Lemma keeps_nodes l h s : (forall a, a ∉ l -> h !! a = nodes s !! a) ->
  keeps (node_bytes l) s (with_nodes h s).
Proof.
  intros Hh. split; [done| |done|done]. intros a Ha. apply Hh. intros Hl.
  apply (Ha (Z.pos a)); [lia|]. exists a. unfold bytes. split; [done|lia].
Qed.

Lemma outside_untouched p n w a : 0 < n -> 0 < w -> untouched (bytes p n) a w ->
  outside (Z.pos p) (Z.pos p + n) w a.
Proof.
  intros Hn Hw Hu. unfold outside, bytes, untouched in *.
  destruct (decide (Z.pos a + w <= Z.pos p)); [by left|].
  destruct (decide (Z.pos p + n <= Z.pos a)); [by right|].
  exfalso. apply (Hu (Z.max (Z.pos a) (Z.pos p))); lia.
Qed.

Lemma lookup_outside {A} lo hi w (m : gmap positive A) a : outside lo hi w a ->
  filter (fun '(b, _) => outside lo hi w b) m !! a = m !! a.
Proof.
  intros Ho. destruct (m !! a) as [v|] eqn:E.
  - by apply map_lookup_filter_Some.
  - apply map_lookup_filter_None. by left.
Qed.

Lemma keeps_erase p n s : 0 < n -> keeps (bytes p n) s (erase (Z.pos p) (Z.pos p + n) s).
Proof. intros Hn. split; [done|..]; intros a Ha; apply lookup_outside, outside_untouched; done || lia. Qed.

(** * Steps *)
Lemma wp_on_list {A} (m : M DList.store A) s Q :
  wp m (nodes s) (fun a h => Q a (with_nodes h s)) -> wp (on_list m) s Q.
Proof. unfold wp, on_list. destruct (m (nodes s)) as [[h a]| |]; done. Qed.

Lemma wp_claim p n s (Q : unit -> st -> Prop) : 0 < n -> live (regions s) p n ->
  (forall s', keeps (bytes p n) s s' -> regions s' = regions s -> Q tt s') ->
  wp (claim p n) s Q.
Proof.
  intros Hn Hl HQ. unfold claim. wp_bind. apply wp_get. rewrite decide_True by done.
  apply wp_put, HQ; [by apply keeps_erase|done].
Qed.

Lemma wp_cast_node p s Q : live (regions s) p 16 ->
  (forall s', keeps (bytes p 16) s s' -> regions s' = regions s -> is_Some (nodes s' !! p) -> Q tt s') ->
  wp (cast_node p) s Q.
Proof.
  intros Hl HQ. unfold cast_node. wp_bind. apply wp_claim; [done|done|]. intros s1 K1 R1.
  apply wp_modify, HQ; simpl; [|done|by rewrite lookup_insert_eq].
  etrans; [exact K1|]. split; [done| |done|done]. intros a Ha. simpl. apply lookup_insert_ne.
  intros ->. apply (Ha (Z.pos a)); unfold bytes; lia.
Qed.

Lemma wp_set_back p v s Q : live (regions s) p 8 ->
  (forall s', keeps (bytes p 8) s s' -> regions s' = regions s -> backs s' !! p = Some v -> Q tt s') ->
  wp (set_back p v) s Q.
Proof.
  intros Hl HQ. unfold set_back. wp_bind. apply wp_claim; [done|done|]. intros s1 K1 R1.
  apply wp_modify, HQ; simpl; [|done|by rewrite lookup_insert_eq].
  etrans; [exact K1|]. split; [done|done| |done]. intros a Ha. simpl. apply lookup_insert_ne.
  intros ->. apply (Ha (Z.pos a)); unfold bytes; lia.
Qed.

Lemma wp_set_count p v s Q : live (regions s) p 4 ->
  (forall s', keeps (bytes p 4) s s' -> regions s' = regions s -> counts s' !! p = Some v -> Q tt s') ->
  wp (set_count p v) s Q.
Proof.
  intros Hl HQ. unfold set_count. wp_bind. apply wp_claim; [done|done|]. intros s1 K1 R1.
  apply wp_modify, HQ; simpl; [|done|by rewrite lookup_insert_eq].
  etrans; [exact K1|]. split; [done|done|done|]. intros a Ha. simpl. apply lookup_insert_ne.
  intros ->. apply (Ha (Z.pos a)); unfold bytes; lia.
Qed.

Lemma wp_get_back p v s Q : backs s !! p = Some v -> Q v s -> wp (get_back p) s Q.
Proof. intros Hp HQ. unfold get_back. wp_bind. apply wp_get. by apply (wp_need _ v). Qed.

Lemma wp_get_count p v s Q : counts s !! p = Some v -> Q v s -> wp (get_count p) s Q.
Proof. intros Hp HQ. unfold get_count. wp_bind. apply wp_get. by apply (wp_need _ v). Qed.

Lemma live_in R b n p w : R !! b = Some n -> Z.pos b <= Z.pos p -> Z.pos p + w <= Z.pos b + n ->
  live R p w.
Proof. intros Hb H1 H2. exists b, n. by split. Qed.

(** * Lists in memory *)
Lemma is_list_ext h h' hd xs : (forall a, a ∈ hd :: xs -> h' !! a = h !! a) ->
  DList.is_list h hd xs -> DList.is_list h' hd xs.
Proof.
  intros Hh [Hnd Hl]. split; [done|]. eapply DList.linked_adj; [|exact Hl].
  intros a b [Ha Hb]%DList.adjacent_in. unfold DList.nx, DList.pv. rewrite !Hh by set_solver. done.
Qed.

Lemma is_list_keep B s s' hd xs : keeps B s s' ->
  (forall x, node_bytes (hd :: xs) x -> ~ B x) ->
  DList.is_list (nodes s) hd xs -> DList.is_list (nodes s') hd xs.
Proof.
  intros K HB. apply is_list_ext. intros a Ha. apply (k_nodes _ _ _ K). intros x Hx. apply HB.
  by exists a.
Qed.

Lemma wp_l_init hd s Q : is_Some (nodes s !! hd) ->
  (forall s', keeps (bytes hd 16) s s' -> regions s' = regions s -> DList.is_list (nodes s') hd [] -> Q tt s') ->
  wp (list_init hd) s Q.
Proof.
  intros Hs HQ. apply wp_on_list. eapply wp_mono; [by apply DList.wp_list_init|].
  intros [] h [Hl Hf]. apply HQ; [|done|done]. eapply keeps_mono; [|apply (keeps_nodes [hd])].
  - intros x (a & ->%list_elem_of_singleton & Hx). done.
  - intros a Ha. apply Hf. set_solver.
Qed.

Lemma wp_l_empty hd xs s Q : DList.is_list (nodes s) hd xs ->
  (forall b : bool, (b = true <-> xs = []) -> Q b s) -> wp (list_is_empty hd) s Q.
Proof.
  intros Hl HQ. apply wp_on_list. eapply wp_mono; [by apply DList.wp_list_is_empty|].
  intros b h [-> Hb]. destruct s. by apply HQ.
Qed.

Lemma wp_l_first hd x xs s Q : DList.is_list (nodes s) hd (x :: xs) -> Q (Some x) s ->
  wp (list_first hd) s Q.
Proof.
  intros Hl HQ. apply wp_on_list. wp_bind.
  apply DList.wp_dl_ld; [by eapply DList.is_list_dom; [|left]|]. intros n _ -> _. apply wp_ret.
  destruct Hl as [_ [-> _]]. by destruct s.
Qed.

Lemma wp_l_remove hd xs x s Q : DList.is_list (nodes s) hd xs -> x ∈ xs ->
  (forall s', keeps (node_bytes (hd :: xs)) s s' -> regions s' = regions s ->
     DList.is_list (nodes s') hd (filter (fun y => y <> x) xs) -> is_Some (nodes s' !! x) -> Q tt s') ->
  wp (list_remove x) s Q.
Proof.
  intros Hl Hx HQ. apply wp_on_list.
  eapply wp_mono; [apply DList.wp_same_dom; [apply DList.same_dom_remove|by apply (DList.wp_list_remove _ hd xs)]|].
  intros [] h [(Hl' & _ & _ & Hf) Hd]. apply HQ; [|done|done|].
  - by apply keeps_nodes.
  - apply Hd. eapply DList.is_list_dom; [exact Hl|]. by right.
Qed.

Lemma wp_l_append hd xs x s Q : DList.is_list (nodes s) hd xs -> x ∉ hd :: xs -> is_Some (nodes s !! x) ->
  (forall s', keeps (node_bytes (x :: hd :: xs)) s s' -> regions s' = regions s ->
     DList.is_list (nodes s') hd (xs ++ [x]) -> Q tt s') ->
  wp (list_insert x hd) s Q.
Proof.
  intros Hl Hx Hs HQ. apply wp_on_list.
  eapply wp_mono; [apply (DList.wp_list_insert _ hd xs); [done|by left|done|done]|].
  intros [] h [Hl' Hf]. apply HQ; [|done|].
  - by apply keeps_nodes.
  - rewrite DList.ins_before_end in Hl'; [done|]. by destruct Hl as [[? _]%NoDup_cons _].
Qed.
