(* ===== verification/SlabInv.v ===== *)
(** What the slab allocator keeps: the layout of its slabs, their free lists, and
    the two lists of slabs; and that its steps keep it.  The bytes of a slab are
    its link (the first node of its info block) and its body. *)
From stdpp Require Import functions.
From S2P Require Import Prelude Lists Slab SlabMem.

(** What [slab_init] computes, for sizes that do not overflow. *)
Record good_fields (f : slab) : Prop := {
  gf_size : 16 <= objsize f;
  gf_align : objsize f mod 8 = 0;
  gf_count : 8 <= count f;
  gf_info : info_offset f = (objsize f + 8) * count f;
  gf_slab : slabsize f = info_offset f + 40;
  gf_max : slabsize f < 2 ^ 31;
}.

(** The start of the slab whose info block is at [inf], and its objects. *)
Definition base (f : slab) (inf : positive) : positive := shift inf (- info_offset f).
Definition slot (f : slab) (inf y : positive) : Prop :=
  exists i, 0 <= i < count f /\ Z.pos y = Z.pos inf - info_offset f + i * (objsize f + 8).

Lemma pos_shift p n : 0 < Z.pos p + n -> Z.pos (shift p n) = Z.pos p + n.
Proof. unfold shift. lia. Qed.

Lemma shift_base f inf : info_offset f < Z.pos inf -> shift (base f inf) (info_offset f) = inf.
Proof. unfold base, shift. lia. Qed.

Lemma base_shift f b : good_fields f -> base f (shift b (info_offset f)) = b.
Proof. intros G. assert (0 <= info_offset f) by (rewrite (gf_info _ G); destruct G; nia). unfold base, shift. lia. Qed.

Lemma slot_range f inf y : good_fields f -> slot f inf y ->
  Z.pos inf - info_offset f <= Z.pos y /\ Z.pos y + objsize f + 8 <= Z.pos inf.
Proof. intros [] (i & Hi & ->). nia. Qed.

Lemma slot_apart f inf y1 y2 : good_fields f -> slot f inf y1 -> slot f inf y2 -> y1 <> y2 ->
  Z.pos y1 + objsize f + 8 <= Z.pos y2 \/ Z.pos y2 + objsize f + 8 <= Z.pos y1.
Proof.
  intros [] (i & Hi & E1) (j & Hj & E2) Hne. assert (i <> j) by (intros ->; apply Hne; lia).
  destruct (decide (i < j)); [left|right]; nia.
Qed.

(** A slab whose free objects are [l], in order. *)
Record slab_ok (f : slab) (s : st) (inf : positive) (l : list positive) : Prop := {
  so_list : DList.is_list (nodes s) (info_free_list inf) l;
  so_slots y : y ∈ l -> slot f inf y;
  so_count : counts s !! info_free_count inf = Some (Z.of_nat (length l));
  so_back y : slot f inf y -> backs s !! shift y (objsize f) = Some inf;
}.

(** The bytes the allocator uses in the body of a slab. *)
Definition body (f : slab) (inf : positive) (x : Z) : Prop :=
  Z.pos inf - info_offset f <= x < Z.pos inf \/ Z.pos inf + 16 <= x < Z.pos inf + 40.
Definition core (f : slab) (inf : positive) (l : list positive) (x : Z) : Prop :=
  bytes (info_free_list inf) 20 x \/ (exists y, slot f inf y /\ bytes (shift y (objsize f)) 8 x) \/ node_bytes l x.
Definition links (infs : list positive) (x : Z) : Prop := node_bytes infs x.

Lemma core_body f inf l x : good_fields f -> (forall y, y ∈ l -> slot f inf y) -> core f inf l x -> body f inf x.
Proof.
  intros G Hl [Hx|[(y & Hy & Hx)|(y & Hy & Hx)]]; unfold body, bytes in *.
  - unfold info_free_list in Hx. rewrite pos_shift in Hx by lia. lia.
  - pose proof (slot_range _ _ _ G Hy). destruct G. rewrite pos_shift in Hx by lia. lia.
  - pose proof (slot_range _ _ _ G (Hl _ Hy)). destruct G. lia.
Qed.

Lemma slab_ok_keep B f s s' inf l : good_fields f -> keeps B s s' -> (forall x, core f inf l x -> ~ B x) ->
  slab_ok f s inf l -> slab_ok f s' inf l.
Proof.
  intros G K HB [H1 H2 H3 H4]. split.
  - eapply is_list_keep; [exact K| |done]. intros x (a & [->|Ha]%elem_of_cons & Hx); apply HB.
    + left. unfold bytes in *. lia.
    + right. right. by exists a.
  - done.
  - rewrite (k_counts _ _ _ K); [done|]. intros x Hx. apply HB. left. unfold bytes, info_free_list, info_free_count in *.
    rewrite pos_shift in * by lia. lia.
  - intros y Hy. rewrite (k_backs _ _ _ K); [by apply H4|]. intros x Hx. apply HB. right. left. by exists y.
Qed.

Section inv.
Context (self : positive) (R0 : gmap positive Z).

(** The live regions are those of [R0] and one for each slab of [infs]. *)
Record has_regions (f : slab) (R : gmap positive Z) (infs : list positive) : Prop := {
  hr_disj b1 n1 b2 n2 : R !! b1 = Some n1 -> R !! b2 = Some n2 -> b1 <> b2 ->
    Z.pos b1 + n1 <= Z.pos b2 \/ Z.pos b2 + n2 <= Z.pos b1;
  hr_self : R0 !! self = Some sizeof_slab;
  hr_iff b n : R !! b = Some n <-> R0 !! b = Some n \/ n = slabsize f /\ shift b (info_offset f) ∈ infs;
  hr_infs inf : inf ∈ infs -> info_offset f < Z.pos inf /\ R0 !! base f inf = None;
}.

Definition heads (x : Z) : Prop := bytes self sizeof_slab x.
(** Memory that is not the allocator's. *)
Definition other (x : Z) : Prop := exists b n, b <> self /\ R0 !! b = Some n /\ bytes b n x.

Section regions.
Context {f : slab} {R : gmap positive Z} {infs : list positive} (G : good_fields f) (H : has_regions f R infs).

Lemma hr_slab inf : inf ∈ infs -> R !! base f inf = Some (slabsize f).
Proof. intros Hi. apply (hr_iff _ _ _ H). right. split; [done|]. rewrite shift_base; [done|]. by apply (hr_infs _ _ _ H). Qed.

Lemma hr_base inf : inf ∈ infs -> Z.pos (base f inf) = Z.pos inf - info_offset f.
Proof. intros Hi. destruct (hr_infs _ _ _ H inf Hi). unfold base. rewrite pos_shift; lia. Qed.

Lemma slabs_apart inf1 inf2 : inf1 ∈ infs -> inf2 ∈ infs -> inf1 <> inf2 ->
  Z.pos inf1 + 40 <= Z.pos inf2 - info_offset f \/ Z.pos inf2 + 40 <= Z.pos inf1 - info_offset f.
Proof.
  intros H1 H2 Hne. pose proof (hr_base _ H1). pose proof (hr_base _ H2).
  assert (base f inf1 <> base f inf2) as Hb by (intros E; apply Hne; rewrite E in *; lia).
  pose proof (hr_disj _ _ _ H _ _ _ _ (hr_slab _ H1) (hr_slab _ H2) Hb). rewrite (gf_slab _ G) in *. lia.
Qed.

Lemma region_apart inf b n : inf ∈ infs -> R0 !! b = Some n ->
  Z.pos b + n <= Z.pos inf - info_offset f \/ Z.pos inf + 40 <= Z.pos b.
Proof.
  intros Hi Hb. pose proof (hr_base _ Hi). destruct (hr_infs _ _ _ H _ Hi) as [_ Hn].
  assert (base f inf <> b) as Hne by congruence.
  assert (R !! b = Some n) as Hb' by (apply (hr_iff _ _ _ H); by left).
  pose proof (hr_disj _ _ _ H _ _ _ _ (hr_slab _ Hi) Hb' Hne). rewrite (gf_slab _ G) in *. lia.
Qed.

Lemma info_pos : 0 <= info_offset f.
Proof. rewrite (gf_info _ G). destruct G. nia. Qed.

(** The head, the links and the bodies have no byte in common, and none with
    the rest of the memory. *)
Lemma body_heads inf x : inf ∈ infs -> body f inf x -> ~ heads x.
Proof.
  intros Hi Hb Hh. pose proof (region_apart _ _ _ Hi (hr_self _ _ _ H)). pose proof info_pos.
  unfold body, heads, bytes in *. lia.
Qed.

Lemma links_heads x : links infs x -> ~ heads x.
Proof.
  intros (inf & Hi & Hx) Hh. pose proof (region_apart _ _ _ Hi (hr_self _ _ _ H)). pose proof info_pos.
  unfold heads, bytes in *. lia.
Qed.

Lemma body_links inf x : inf ∈ infs -> body f inf x -> ~ links infs x.
Proof.
  intros Hi Hb (inf' & Hi' & Hx). pose proof info_pos. unfold body, bytes in *.
  destruct (decide (inf' = inf)) as [->|Hne]; [lia|]. pose proof (slabs_apart _ _ Hi Hi' ltac:(done)). lia.
Qed.

Lemma body_body inf inf' x : inf ∈ infs -> inf' ∈ infs -> inf <> inf' -> body f inf x -> ~ body f inf' x.
Proof.
  intros Hi Hi' Hne Hb Hb'. pose proof info_pos. unfold body in *.
  pose proof (slabs_apart _ _ Hi Hi' Hne). lia.
Qed.

Lemma body_other inf x : inf ∈ infs -> body f inf x \/ bytes inf 16 x -> ~ other x.
Proof.
  intros Hi Hb (b & n & _ & Hn & Hx). pose proof (region_apart _ _ _ Hi Hn). pose proof info_pos.
  unfold body, bytes in *. lia.
Qed.

Lemma heads_other x : heads x -> ~ other x.
Proof.
  intros Hh (b & n & Hne & Hn & Hx).
  assert (R !! b = Some n) as Hb by (apply (hr_iff _ _ _ H); by left).
  assert (R !! self = Some sizeof_slab) as Hs by (apply (hr_iff _ _ _ H); left; apply (hr_self _ _ _ H)).
  pose proof (hr_disj _ _ _ H _ _ _ _ Hb Hs Hne). unfold heads, bytes in *. lia.
Qed.

Lemma slab_live inf p n : inf ∈ infs -> Z.pos inf - info_offset f <= Z.pos p -> Z.pos p + n <= Z.pos inf + 40 ->
  live R p n.
Proof.
  intros Hi H1 H2. apply (live_in _ _ _ _ _ (hr_slab _ Hi)); rewrite (hr_base _ Hi), ?(gf_slab _ G); lia.
Qed.
End regions.
End inv.

Section ops.
Context (self : positive) (R0 : gmap positive Z).

(** The heads of the two lists of slabs, either way round. *)
Definition two_heads (a b : positive) : Prop :=
  a = full self /\ b = partial self \/ a = partial self /\ b = full self.

Lemma two_heads_pos a b : two_heads a b ->
  Z.pos self + 16 <= Z.pos a /\ Z.pos a + 16 <= Z.pos self + 48 /\
  Z.pos self + 16 <= Z.pos b /\ Z.pos b + 16 <= Z.pos self + 48 /\
  (Z.pos a + 16 <= Z.pos b \/ Z.pos b + 16 <= Z.pos a).
Proof. unfold two_heads, full, partial, shift. intros [[-> ->]|[-> ->]]; lia. Qed.

(** The slabs [F] in the list of [a] and [P] in that of [b], with their free
    objects. *)
Record slabs (a b : positive) (s : st) (F P : list positive) (fl : positive -> list positive) : Prop := {
  sl_fields : good_fields (fields s);
  sl_F : DList.is_list (nodes s) a F;
  sl_P : DList.is_list (nodes s) b P;
  sl_nodup : NoDup (F ++ P);
  sl_ok inf : inf ∈ F ++ P -> slab_ok (fields s) s inf (fl inf);
  sl_reg : has_regions self R0 (fields s) (regions s) (F ++ P);
}.

(** The objects the user has. *)
Definition used (f : slab) (infs : list positive) (fl : positive -> list positive) (q : positive) : Prop :=
  exists inf, inf ∈ infs /\ slot f inf q /\ q ∉ fl inf.

(** The bytes of the objects of [U], and memory that is not the allocator's. *)
Definition guarded (f : slab) (U : positive -> Prop) (x : Z) : Prop :=
  (exists q, U q /\ bytes q (objsize f) x) \/ other self R0 x.

Lemma has_regions_perm f R l l' : (forall x, x ∈ l <-> x ∈ l') ->
  has_regions self R0 f R l -> has_regions self R0 f R l'.
Proof.
  intros E [D1 D2 D3 D4]. split; [done|done| |].
  - intros b n. rewrite <- E. done.
  - intros inf Hi. apply D4. by apply E.
Qed.

Lemma slabs_sym a b s F P fl : slabs a b s F P fl -> slabs b a s P F fl.
Proof.
  intros []. assert (forall x, x ∈ F ++ P <-> x ∈ P ++ F) as E by set_solver. split; [done..| | |].
  - by rewrite Permutation_app_comm.
  - intros inf Hi. apply sl_ok0. by apply E.
  - by eapply has_regions_perm.
Qed.

Lemma two_heads_sym a b : two_heads a b -> two_heads b a.
Proof. unfold two_heads. tauto. Qed.

Lemma used_sym f F P fl q : used f (F ++ P) fl q <-> used f (P ++ F) fl q.
Proof. unfold used. split; intros (inf & Hi & ?); exists inf; (split; [set_solver|done]). Qed.

(** * Which bytes are whose *)
Section bytes.
Context {f : slab} {R : gmap positive Z} {infs : list positive} {fl : positive -> list positive}.
Context (G : good_fields f) (H : has_regions self R0 f R infs).
Context (Hfl : forall inf y, inf ∈ infs -> y ∈ fl inf -> slot f inf y).

Lemma object_body inf q x : slot f inf q -> bytes q (objsize f) x -> body f inf x.
Proof. intros Hq Hx. pose proof (slot_range _ _ _ G Hq). unfold bytes, body in *. lia. Qed.

Lemma core_unguarded inf x : inf ∈ infs -> core f inf (fl inf) x -> ~ guarded f (used f infs fl) x.
Proof.
  intros Hi Hc. assert (forall y, y ∈ fl inf -> slot f inf y) as Hs by eauto.
  pose proof (core_body _ _ _ _ G Hs Hc) as Hb. intros [(q & (inf' & Hi' & Hq & Hn) & Hx)|Ho].
  - pose proof (object_body _ _ _ Hq Hx) as Hb'. destruct (decide (inf' = inf)) as [->|Hne].
    + pose proof (slot_range _ _ _ G Hq) as Hr. destruct Hc as [Hc|[(y & Hy & Hc)|(y & Hy & Hc)]]; unfold bytes in *.
      * unfold info_free_list in Hc. rewrite pos_shift in Hc by lia. lia.
      * destruct G. rewrite pos_shift in Hc by lia. destruct (decide (q = y)) as [->|Hqy]; [lia|].
        pose proof (slot_apart _ _ _ _ G Hq Hy Hqy). lia.
      * destruct G. assert (q <> y) as Hqy by (intros ->; done).
        pose proof (slot_apart _ _ _ _ G Hq (Hs _ Hy) Hqy). lia.
    + by apply (body_body self R0 G H _ _ _ Hi Hi' ltac:(done) Hb).
  - by apply (body_other self R0 G H _ _ Hi (or_introl Hb)).
Qed.

Lemma links_unguarded x : links infs x -> ~ guarded f (used f infs fl) x.
Proof.
  intros Hl [(q & (inf & Hi & Hq & _) & Hx)|Ho].
  - by apply (body_links self R0 G H _ _ Hi (object_body _ _ _ Hq Hx)).
  - destruct Hl as (inf & Hi & Hx). by apply (body_other self R0 G H _ _ Hi (or_intror Hx)).
Qed.

Lemma heads_unguarded x : heads self x -> ~ guarded f (used f infs fl) x.
Proof.
  intros Hh [(q & (inf & Hi & Hq & _) & Hx)|Ho].
  - by apply (body_heads self R0 G H _ _ Hi (object_body _ _ _ Hq Hx)).
  - by apply (heads_other self R0 H _ Hh).
Qed.
End bytes.

Lemma sl_slot a b s F P fl inf y : slabs a b s F P fl -> inf ∈ F ++ P -> y ∈ fl inf -> slot (fields s) inf y.
Proof. intros H Hi. apply (so_slots _ _ _ _ (sl_ok _ _ _ _ _ _ H _ Hi)). Qed.

(** A list of slabs touches the heads and the links. *)
Lemma list_bytes a b infs l x : two_heads a b -> (forall y, y ∈ l -> y = a \/ y = b \/ y ∈ infs) ->
  node_bytes l x -> heads self x \/ links infs x.
Proof.
  intros Hh Hl (y & Hy & Hx). pose proof (two_heads_pos _ _ Hh). destruct (Hl y Hy) as [->|[->|Hi]].
  - left. unfold heads, bytes, sizeof_slab in *. lia.
  - left. unfold heads, bytes, sizeof_slab in *. lia.
  - right. by exists y.
Qed.

(** * Frames *)

(** A change of heads and links spares the slabs themselves. *)
Lemma ok_links f B s s' infs inf l : good_fields f -> has_regions self R0 f (regions s) infs -> keeps B s s' ->
  (forall x, B x -> heads self x \/ links infs x) -> inf ∈ infs -> slab_ok f s inf l -> slab_ok f s' inf l.
Proof.
  intros G H K HB Hi Ho. eapply slab_ok_keep; [done|exact K| |done]. intros x Hc Hx.
  pose proof (core_body _ _ _ _ G (so_slots _ _ _ _ Ho) Hc) as Hb.
  destruct (HB x Hx); [by apply (body_heads self R0 G H _ _ Hi Hb)|by apply (body_links self R0 G H _ _ Hi Hb)].
Qed.

(** A change of the body of a slab spares the other slabs. *)
Lemma ok_body f B s s' infs inf inf' l : good_fields f -> has_regions self R0 f (regions s) infs -> keeps B s s' ->
  (forall x, B x -> body f inf x) -> inf ∈ infs -> inf' ∈ infs -> inf' <> inf ->
  slab_ok f s inf' l -> slab_ok f s' inf' l.
Proof.
  intros G H K HB Hi Hi' Hne Ho. eapply slab_ok_keep; [done|exact K| |done]. intros x Hc Hx.
  pose proof (core_body _ _ _ _ G (so_slots _ _ _ _ Ho) Hc) as Hb.
  by apply (body_body self R0 G H _ _ _ Hi' Hi Hne Hb), HB.
Qed.

(** ... and the lists. *)
Lemma list_body f B s s' infs inf a b xs : good_fields f -> has_regions self R0 f (regions s) infs ->
  keeps B s s' -> (forall x, B x -> body f inf x) -> inf ∈ infs -> two_heads a b ->
  (forall y, y ∈ xs -> y ∈ infs) -> DList.is_list (nodes s) a xs -> DList.is_list (nodes s') a xs.
Proof.
  intros G H K HB Hi Hh Hx. apply (is_list_keep _ _ _ _ _ K). intros x Hn Hb%HB.
  destruct (list_bytes a b infs (a :: xs) x Hh) as [?|?]; [set_solver|done|..].
  - by apply (body_heads self R0 G H _ _ Hi Hb).
  - by apply (body_links self R0 G H _ _ Hi Hb).
Qed.

(** A change within the body of one slab that leaves this slab in order. *)
Lemma slabs_body a b s s' F P fl inf l B : two_heads a b -> slabs a b s F P fl -> inf ∈ F ++ P ->
  keeps B s s' -> regions s' = regions s -> (forall x, B x -> body (fields s) inf x) ->
  slab_ok (fields s) s' inf l -> slabs a b s' F P (<[inf := l]> fl).
Proof.
  intros Hh [G HF HP Hnd Ho Hr] Hi K HR HB Hl. pose proof (k_fields _ _ _ K) as Ef.
  split; rewrite ?Ef, ?HR; [done| | |done| |done].
  - eapply (list_body _ _ _ _ (F ++ P) inf a b); [done|exact Hr|exact K|done|done|done|set_solver|done].
  - eapply (list_body _ _ _ _ (F ++ P) inf b a); [done|exact Hr|exact K|done|done|by apply two_heads_sym|set_solver|done].
  - intros inf' Hi'. destruct (decide (inf' = inf)) as [->|Hne].
    + by rewrite fn_lookup_insert.
    + rewrite fn_lookup_insert_ne by done.
      eapply (ok_body _ _ _ _ (F ++ P) inf); [done|exact Hr|exact K|done|done|done|done|by apply Ho].
Qed.
End ops.
