(* ===== verification/SlabStep.v ===== *)
(** The steps of [slab_alloc] and [slab_free] on slabs that satisfy the
    invariant: taking an object from a slab, putting one back, moving a slab to
    the other list, releasing one. *)
From stdpp Require Import functions.
From S2P Require Import Prelude Lists Slab SlabMem SlabInv.

Lemma wp_assoc {S A B C} (m : M S A) (f : A -> M S B) (k : B -> M S C) s Q :
  wp (bind (bind m f) k) s Q -> wp (bind m (fun x => bind (f x) k)) s Q.
Proof. unfold wp, bind. destruct (m s) as [[s' a]| |]; done. Qed.

(** * Parts of a slab *)
Section parts.
Context {f : slab} {inf : positive} (G : good_fields f).

Lemma back_not_nodes l y x : (forall y, y ∈ l -> slot f inf y) -> slot f inf y ->
  bytes (shift y (objsize f)) 8 x -> ~ node_bytes (info_free_list inf :: l) x.
Proof.
  intros Hl Hy Hx (a & Ha & Hx'). pose proof (slot_range _ _ _ G Hy). pose proof (gf_size _ G).
  unfold bytes in *. rewrite pos_shift in Hx by lia. apply elem_of_cons in Ha as [->|Ha].
  - unfold info_free_list in Hx'. rewrite pos_shift in Hx' by lia. lia.
  - destruct (decide (a = y)) as [->|Hne]; [lia|].
    pose proof (slot_apart _ _ _ _ G (Hl _ Ha) Hy Hne). lia.
Qed.

Lemma back_not_count y x : slot f inf y -> bytes (shift y (objsize f)) 8 x -> ~ bytes (info_free_count inf) 4 x.
Proof.
  intros Hy Hx Hx'. pose proof (slot_range _ _ _ G Hy). pose proof (gf_size _ G). unfold bytes, info_free_count in *.
  rewrite pos_shift in Hx by lia. rewrite pos_shift in Hx' by lia. lia.
Qed.

Lemma count_not_nodes l x : (forall y, y ∈ l -> slot f inf y) ->
  bytes (info_free_count inf) 4 x -> ~ node_bytes (info_free_list inf :: l) x.
Proof.
  intros Hl Hx (a & Ha & Hx'). pose proof (gf_size _ G). unfold bytes, info_free_count in *.
  rewrite pos_shift in Hx by lia. apply elem_of_cons in Ha as [->|Ha].
  - unfold info_free_list in Hx'. rewrite pos_shift in Hx' by lia. lia.
  - pose proof (slot_range _ _ _ G (Hl _ Ha)). lia.
Qed.

Lemma nodes_core l x : node_bytes (info_free_list inf :: l) x -> core f inf l x.
Proof.
  intros (a & [->|Ha]%elem_of_cons & Hx); [left; unfold bytes in *; lia|]. right; right. by exists a.
Qed.

Lemma count_core l x : bytes (info_free_count inf) 4 x -> core f inf l x.
Proof. intros Hx. left. unfold bytes, info_free_list, info_free_count in *. rewrite pos_shift in Hx by lia. rewrite pos_shift by lia. lia. Qed.

(** A slab whose free list and count were changed, its back pointers not. *)
Lemma slab_ok_change s s' l l' L : slab_ok f s inf l -> (forall y, y ∈ L -> slot f inf y) ->
  keeps (fun x => node_bytes (info_free_list inf :: L) x \/ bytes (info_free_count inf) 4 x) s s' ->
  DList.is_list (nodes s') (info_free_list inf) l' -> (forall y, y ∈ l' -> slot f inf y) ->
  counts s' !! info_free_count inf = Some (Z.of_nat (length l')) -> slab_ok f s' inf l'.
Proof.
  intros H HL K Hl Hs Hc. split; [done|done|done|]. intros y Hy.
  rewrite (k_backs _ _ _ K); [by apply (so_back _ _ _ _ H)|]. intros x Hx [Hn|Hn].
  - by apply (back_not_nodes L y x).
  - by apply (back_not_count y x).
Qed.
End parts.

Section steps.
Context (self : positive) (R0 : gmap positive Z).
Abbreviation slabs := (slabs self R0).
Abbreviation guarded := (guarded self R0).
Abbreviation two_heads := (two_heads self).

(** Taking the first free object [x] of a slab. *)
Lemma wp_slab_pop {A} (k : M st A) a b s F P fl inf x l Q : two_heads a b -> slabs a b s F P fl ->
  inf ∈ F ++ P -> fl inf = x :: l ->
  (forall s', slabs a b s' F P (<[inf := l]> fl) ->
     keeps (fun z => ~ guarded (fields s) (used (fields s) (F ++ P) fl) z) s s' ->
     regions s' = regions s -> wp k s' Q) ->
  wp (list_remove x;; n ← get_count (info_free_count inf); set_count (info_free_count inf) (n - 1);; k) s Q.
Proof.
  intros Hh H Hi Ef HQ. pose proof (sl_fields _ _ _ _ _ _ _ _ H) as G. pose proof (sl_reg _ _ _ _ _ _ _ _ H) as Hr.
  pose proof (sl_ok _ _ _ _ _ _ _ _ H _ Hi) as Ho. rewrite Ef in Ho.
  pose proof (so_slots _ _ _ _ Ho) as Hs. pose proof (so_list _ _ _ _ Ho) as Hl.
  wp_bind. apply (wp_l_remove (info_free_list inf) (x :: l)); [done|by left|]. intros s1 K1 R1 L1 _.
  assert (filter (fun y => y <> x) (x :: l) = l) as E.
  { rewrite filter_cons_False by naive_solver. apply DList.filter_ne. destruct Hl as [Hnd _].
    by apply NoDup_cons in Hnd as [_ [? _]%NoDup_cons]. }
  rewrite E in L1. wp_bind. apply (wp_get_count _ (Z.of_nat (length (x :: l)))).
  { rewrite (k_counts _ _ _ K1); [apply (so_count _ _ _ _ Ho)|]. intros z Hz. by eapply count_not_nodes. }
  assert (forall y, y ∈ l -> slot (fields s) inf y) as Hs' by (intros; apply Hs; by right).
  wp_bind. apply wp_set_count.
  { rewrite R1. pose proof (info_pos G). unfold info_free_count. eapply slab_live; [done|exact Hr|exact Hi|..]; rewrite pos_shift; lia. }
  intros s2 K2 R2 C2.
  assert (keeps (fun z => node_bytes (info_free_list inf :: x :: l) z \/ bytes (info_free_count inf) 4 z) s s2) as K.
  { etrans; eapply keeps_mono; [|exact K1| |exact K2]; simpl; tauto. }
  assert (slab_ok (fields s) s2 inf l) as Ho2.
  { eapply (slab_ok_change G s s2); [exact Ho|exact Hs|exact K| |exact Hs'|].
    - eapply is_list_keep; [exact K2| |exact L1]. intros z Hz Hz'. by apply (count_not_nodes (inf := inf) G l z).
    - rewrite C2. f_equal. simpl. lia. }
  assert (forall z, node_bytes (info_free_list inf :: x :: l) z \/ bytes (info_free_count inf) 4 z ->
    core (fields s) inf (x :: l) z) as Hc by (intros z [?|?]; [by apply nodes_core|by apply count_core]).
  apply HQ; [|eapply keeps_mono; [|exact K]; intros z Hz%Hc|congruence].
  - eapply slabs_body; [done|exact H|done|exact K|congruence| |done].
    intros z Hz%Hc. by apply (core_body _ _ _ _ G Hs).
  - eapply core_unguarded; [done|exact Hr| |exact Hi|by rewrite Ef]. intros inf' y. by eapply sl_slot.
Qed.

(** Putting back [obj], which is not free. *)
Lemma wp_slab_push {A} (k : M st A) a b s F P fl inf obj Q : two_heads a b -> slabs a b s F P fl ->
  inf ∈ F ++ P -> slot (fields s) inf obj -> obj ∉ fl inf ->
  (forall s', slabs a b s' F P (<[inf := fl inf ++ [obj]]> fl) ->
     keeps (fun z => ~ guarded (fields s) (used (fields s) (F ++ P) (<[inf := fl inf ++ [obj]]> fl)) z) s s' ->
     regions s' = regions s -> wp k s' Q) ->
  wp (cast_node obj;; list_insert obj (info_free_list inf);;
      n ← get_count (info_free_count inf); set_count (info_free_count inf) (n + 1);; k) s Q.
Proof.
  intros Hh H Hi Hobj Hn HQ. pose proof (sl_fields _ _ _ _ _ _ _ _ H) as G. pose proof (sl_reg _ _ _ _ _ _ _ _ H) as Hr.
  pose proof (sl_ok _ _ _ _ _ _ _ _ H _ Hi) as Ho. set (l := fl inf) in *.
  pose proof (so_slots _ _ _ _ Ho) as Hs. pose proof (so_list _ _ _ _ Ho) as Hl.
  pose proof (info_pos G) as Hip. pose proof (slot_range _ _ _ G Hobj) as Hor. pose proof (gf_size _ G).
  assert (forall y, y ∈ obj :: l -> slot (fields s) inf y) as Hs1 by (intros y [->|?]%elem_of_cons; auto).
  assert (forall y, y ∈ l ++ [obj] -> slot (fields s) inf y) as Hs2 by set_solver.
  wp_bind. apply wp_cast_node; [eapply slab_live; [done|exact Hr|exact Hi|lia..]|]. intros s1 K1 R1 S1.
  assert (DList.is_list (nodes s1) (info_free_list inf) l) as L1.
  { eapply is_list_keep; [exact K1| |exact Hl]. intros z (y & Hy & Hz) Hz'.
    unfold bytes, info_free_list in *. apply elem_of_cons in Hy as [->|Hy].
    - rewrite pos_shift in Hz by lia. lia.
    - assert (y <> obj) as Hne by (intros ->; done). pose proof (slot_apart _ _ _ _ G (Hs _ Hy) Hobj Hne). lia. }
  wp_bind. apply (wp_l_append (info_free_list inf) l); [done| |done|].
  { intros [E|?]%elem_of_cons; [|done]. unfold info_free_list, shift in E. lia. }
  intros s2 K2 R2 L2. wp_bind. apply (wp_get_count _ (Z.of_nat (length l))).
  { rewrite (k_counts _ _ _ K2), (k_counts _ _ _ K1); [apply (so_count _ _ _ _ Ho)|..]; intros z Hz Hz'.
    - eapply (count_not_nodes G (obj :: l)); [exact Hs1|exact Hz|]. exists obj. split; [set_solver|done].
    - eapply (count_not_nodes G (obj :: l)); [exact Hs1|exact Hz|]. destruct Hz' as (y & Hy & ?). exists y.
      split; [set_solver|done]. }
  wp_bind. apply wp_set_count.
  { rewrite R2, R1. unfold info_free_count. eapply slab_live; [done|exact Hr|exact Hi|..]; rewrite pos_shift; lia. }
  intros s3 K3 R3 C3.
  assert (keeps (fun z => node_bytes (info_free_list inf :: obj :: l) z \/ bytes (info_free_count inf) 4 z) s s3) as K.
  { etrans; [|etrans]; eapply keeps_mono; [|exact K1| |exact K2| |exact K3]; simpl; intros z Hz.
    - left. exists obj. split; [set_solver|done].
    - left. destruct Hz as (y & Hy & ?). exists y. split; [set_solver|done].
    - by right. }
  assert (slab_ok (fields s) s3 inf (l ++ [obj])) as Ho3.
  { eapply (slab_ok_change G s s3); [exact Ho|exact Hs1|exact K| |exact Hs2|].
    - eapply is_list_keep; [exact K3| |exact L2]. intros z Hz Hz'. by apply (count_not_nodes (inf := inf) G (l ++ [obj]) z).
    - rewrite C3, length_app. f_equal. simpl. lia. }
  assert (forall z, node_bytes (info_free_list inf :: obj :: l) z \/ bytes (info_free_count inf) 4 z ->
    core (fields s) inf (l ++ [obj]) z) as Hc.
  { intros z [(y & Hy & Hz)|?]; [|by apply count_core]. apply nodes_core. exists y. split; [set_solver|done]. }
  apply HQ; [|eapply keeps_mono; [|exact K]; intros z Hz%Hc|congruence].
  - eapply slabs_body; [done|exact H|done|exact K|congruence| |done].
    intros z Hz%Hc. by apply (core_body _ _ _ _ G Hs2).
  - eapply core_unguarded; [done|exact Hr| |exact Hi|by rewrite fn_lookup_insert]. intros inf' y Hi'.
    destruct (decide (inf' = inf)) as [->|Hne].
    + rewrite fn_lookup_insert. apply Hs2.
    + rewrite fn_lookup_insert_ne by done. by eapply sl_slot.
Qed.

Lemma NoDup_move (F P : list positive) inf : NoDup (F ++ P) -> inf ∈ F ->
  NoDup (filter (fun y => y <> inf) F ++ P ++ [inf]) /\
  forall x, x ∈ filter (fun y => y <> inf) F ++ P ++ [inf] <-> x ∈ F ++ P.
Proof.
  intros (H1 & H2 & H3)%NoDup_app Hi. split.
  - apply NoDup_app. split; [by apply NoDup_filter|]. split.
    + intros x [? ?]%list_elem_of_filter. rewrite elem_of_app, list_elem_of_singleton. naive_solver.
    + apply NoDup_app. split; [done|]. split; [|apply NoDup_singleton].
      intros x Hx ->%list_elem_of_singleton. by apply (H2 inf).
  - intros x. rewrite !elem_of_app, list_elem_of_filter, list_elem_of_singleton. split; [naive_solver|].
    destruct (decide (x = inf)); naive_solver.
Qed.

(** The links of slabs do not overlap each other, nor the heads. *)
Lemma links_apart a b s F P fl : two_heads a b -> slabs a b s F P fl ->
  (forall x, x ∈ P -> x ∉ F) /\
  (forall x, x ∈ F ++ P -> Z.pos x + 16 <= Z.pos self \/ Z.pos self + 48 <= Z.pos x) /\
  (forall x y, x ∈ F ++ P -> y ∈ F ++ P -> x <> y -> Z.pos x + 16 <= Z.pos y \/ Z.pos y + 16 <= Z.pos x).
Proof.
  intros Hh H. pose proof (sl_fields _ _ _ _ _ _ _ _ H) as G. pose proof (sl_reg _ _ _ _ _ _ _ _ H) as Hr.
  pose proof (sl_nodup _ _ _ _ _ _ _ _ H) as Hnd. pose proof (info_pos G). split_and!.
  - intros x Hx Hx'. apply NoDup_app in Hnd as (_ & Hd & _). by apply (Hd x).
  - intros x Hx. pose proof (region_apart _ _ G Hr _ _ _ Hx (hr_self _ _ _ _ _ Hr)) as Hx'. unfold sizeof_slab in Hx'. lia.
  - intros x y Hx Hy Hne. pose proof (slabs_apart _ _ G Hr _ _ Hx Hy Hne). lia.
Qed.

(** Taking a slab out of its list. *)
Lemma wp_slab_unlink a b s F P fl inf Q : two_heads a b -> slabs a b s F P fl -> inf ∈ F ->
  (forall s', keeps (fun z => heads self z \/ links (F ++ P) z) s s' -> regions s' = regions s ->
     DList.is_list (nodes s') a (filter (fun y => y <> inf) F) -> DList.is_list (nodes s') b P ->
     is_Some (nodes s' !! inf) -> Q tt s') ->
  wp (list_remove inf) s Q.
Proof.
  intros Hh H Hi HQ. destruct (links_apart _ _ _ _ _ _ Hh H) as (HPF & Hxs & Hxy).
  pose proof (two_heads_pos _ _ _ Hh) as Hpos.
  apply (wp_l_remove a F); [apply (sl_F _ _ _ _ _ _ _ _ H)|done|]. intros s1 K1 R1 L1 S1.
  apply HQ; [|done|done| |done].
  - eapply keeps_mono; [|exact K1]. intros z Hz. eapply list_bytes; [done| |exact Hz]. set_solver.
  - eapply is_list_keep; [exact K1| |apply (sl_P _ _ _ _ _ _ _ _ H)].
    intros z (x & Hx & Hz) (y & Hy & Hz'). unfold bytes in *.
    apply elem_of_cons in Hx as [->|Hx]; apply elem_of_cons in Hy as [->|Hy]; [lia| | |].
    + pose proof (Hxs y ltac:(set_solver)). lia.
    + pose proof (Hxs x ltac:(set_solver)). lia.
    + pose proof (Hxy x y ltac:(set_solver) ltac:(set_solver) ltac:(intros ->; by eapply HPF)). lia.
Qed.

(** Moving a slab to the end of the other list. *)
Lemma wp_slab_move a b s F P fl inf Q : two_heads a b -> slabs a b s F P fl -> inf ∈ F ->
  (forall s', slabs a b s' (filter (fun y => y <> inf) F) (P ++ [inf]) fl ->
     keeps (fun z => ~ guarded (fields s) (used (fields s) (F ++ P) fl) z) s s' ->
     regions s' = regions s -> Q tt s') ->
  wp (list_remove inf;; list_insert inf b) s Q.
Proof.
  intros Hh H Hi HQ. pose proof (sl_fields _ _ _ _ _ _ _ _ H) as G. pose proof (sl_reg _ _ _ _ _ _ _ _ H) as Hr.
  pose proof (sl_nodup _ _ _ _ _ _ _ _ H) as Hnd. pose proof (two_heads_pos _ _ _ Hh) as Hpos.
  destruct (links_apart _ _ _ _ _ _ Hh H) as (HPF & Hxs & Hxy).
  wp_bind. apply (wp_slab_unlink a b s F P fl); [done..|]. intros s1 K1 R1 L1 LP S1.
  apply (wp_l_append b P); [done| |done|].
  { intros [->|Hx]%elem_of_cons; [pose proof (Hxs b ltac:(set_solver)); lia|by eapply HPF]. }
  intros s2 K2 R2 L2. destruct (NoDup_move F P inf Hnd Hi) as [Hnd' Hin].
  assert (keeps (fun z => heads self z \/ links (F ++ P) z) s s2) as K.
  { etrans; [exact K1|]. eapply keeps_mono; [|exact K2]. intros z Hz. eapply list_bytes; [done| |exact Hz]. set_solver. }
  pose proof (k_fields _ _ _ K) as Ef.
  apply HQ; [|eapply keeps_mono; [|exact K]; intros z [Hz|Hz]|congruence].
  - split; rewrite ?Ef; [done| |done|done| |].
    + eapply is_list_keep; [exact K2| |exact L1]. intros z (x & Hx & Hz) (y & Hy & Hz'). unfold bytes in *.
      assert (x = a \/ x ∈ F /\ x <> inf) as Hx' by (rewrite elem_of_cons, list_elem_of_filter in Hx; tauto).
      assert (y = inf \/ y = b \/ y ∈ P) as Hy' by set_solver.
      pose proof (Hxs inf ltac:(set_solver)).
      destruct Hx' as [->|[HxF Hne]]; destruct Hy' as [->|[->|HyP]]; [lia|lia| | | |].
      * pose proof (Hxs y ltac:(set_solver)). lia.
      * pose proof (Hxy x inf ltac:(set_solver) ltac:(set_solver) Hne). lia.
      * pose proof (Hxs x ltac:(set_solver)). lia.
      * pose proof (Hxy x y ltac:(set_solver) ltac:(set_solver) ltac:(intros ->; by eapply HPF)). lia.
    + intros inf' Hin'%Hin. eapply (ok_links self R0); [done|exact Hr|exact K|done|done|]. by apply (sl_ok _ _ _ _ _ _ _ _ H).
    + rewrite R2, R1. eapply has_regions_perm; [|exact Hr]. intros x. by rewrite Hin.
  - by eapply heads_unguarded.
  - by eapply links_unguarded.
Qed.

(** ** Releasing a slab *)
Lemma wp_free_region p n s Q : regions s !! p = Some n -> 0 < n ->
  (forall s', keeps (bytes p n) s s' -> regions s' = delete p (regions s) -> Q tt s') -> wp (free p) s Q.
Proof.
  intros Hp Hn HQ. unfold free. wp_bind. apply wp_get. wp_bind. apply (wp_need _ n); [done|]. apply wp_put, HQ; [|done].
  etrans; [by apply (keeps_erase p n)|]. by apply keeps_same.
Qed.

Lemma has_regions_delete f R l inf : good_fields f -> has_regions self R0 f R l -> inf ∈ l ->
  has_regions self R0 f (delete (base f inf) R) (filter (fun y => y <> inf) l).
Proof.
  intros G H Hi. destruct (hr_infs _ _ _ _ _ H _ Hi) as [Hb Hn]. split.
  - intros b1 n1 b2 n2 [_ H1]%lookup_delete_Some [_ H2]%lookup_delete_Some. by apply (hr_disj _ _ _ _ _ H).
  - apply (hr_self _ _ _ _ _ H).
  - intros b n. rewrite lookup_delete_Some, (hr_iff _ _ _ _ _ H), list_elem_of_filter.
    assert (shift b (info_offset f) = inf <-> b = base f inf) as E.
    { split; [intros <-; by rewrite base_shift|intros ->; by apply shift_base]. }
    split; [naive_solver|]. intros [Hb'|(-> & Hne & Hl)]; [|naive_solver]. split; [|by left].
    intros <-. congruence.
  - intros inf' [_ Hi']%list_elem_of_filter. by apply (hr_infs _ _ _ _ _ H).
Qed.

Lemma wp_free_slab a b s F P fl inf Q : two_heads a b -> slabs a b s F P fl -> inf ∈ F ->
  (forall s', slabs a b s' (filter (fun y => y <> inf) F) P fl ->
     keeps (fun z => ~ guarded (fields s) (used (fields s) (filter (fun y => y <> inf) F ++ P) fl) z) s s' ->
     regions s' = delete (base (fields s) inf) (regions s) -> Q tt s') ->
  wp (free_slab inf) s Q.
Proof.
  intros Hh H Hi HQ. pose proof (sl_fields _ _ _ _ _ _ _ _ H) as G. pose proof (sl_reg _ _ _ _ _ _ _ _ H) as Hr.
  pose proof (sl_nodup _ _ _ _ _ _ _ _ H) as Hnd. pose proof (info_pos G) as Hip.
  assert (inf ∈ F ++ P) as Hi' by set_solver.
  pose proof (hr_slab _ _ Hr _ Hi') as Hb. pose proof (hr_base _ _ Hr _ Hi') as Eb.
  unfold free_slab. wp_bind. apply (wp_slab_unlink a b s F P fl); [done..|]. intros s1 K1 R1 L1 LP _.
  pose proof (k_fields _ _ _ K1) as Ef1. wp_bind. apply wp_get. rewrite Ef1. change (shift inf _) with (base (fields s) inf).
  apply (wp_free_region _ (slabsize (fields s))); [by rewrite R1|rewrite (gf_slab _ G); lia|]. intros s2 K2 R2.
  set (F' := filter (fun y => y <> inf) F) in *.
  assert (inf ∉ P) as HiP by (apply NoDup_app in Hnd as (_ & Hd & _); by apply Hd).
  assert (F' ++ P = filter (fun y => y <> inf) (F ++ P)) as EF by (rewrite filter_app, (DList.filter_ne inf P) by done; done).
  assert (forall x, x ∈ F' ++ P -> x ∈ F ++ P /\ x <> inf) as HF'.
  { intros x. rewrite EF, list_elem_of_filter. tauto. }
  assert (forall z, bytes (base (fields s) inf) (slabsize (fields s)) z -> body (fields s) inf z \/ bytes inf 16 z) as Hby.
  { intros z. unfold bytes, body. rewrite Eb, (gf_slab _ G). lia. }
  pose proof (k_fields _ _ _ K2) as Ef2. rewrite Ef1 in Ef2.
  pose proof (has_regions_delete _ _ _ _ G Hr Hi') as Hr'. rewrite <- EF in Hr'.
  assert (forall h xs, DList.is_list (nodes s1) h xs -> h = a \/ h = b -> (forall x, x ∈ xs -> x ∈ F' ++ P) ->
    DList.is_list (nodes s2) h xs) as Hls.
  { intros h xs Hl Eh Hx. eapply is_list_keep; [exact K2| |exact Hl]. intros z Hz Hz'%Hby.
    destruct (list_bytes self a b (F' ++ P) (h :: xs) z Hh) as [Hz2|Hz2]; [set_solver|exact Hz|..].
    - destruct Hz' as [Hz'|Hz']; [by apply (body_heads _ _ G Hr _ _ Hi' Hz')|].
      apply (links_heads _ _ G Hr z); [by exists inf|done].
    - destruct Hz2 as (inf' & [Hf Hne]%HF' & Hz2). destruct Hz' as [Hz'|Hz'].
      + apply (body_links _ _ G Hr _ _ Hi' Hz'). by exists inf'.
      + pose proof (slabs_apart _ _ G Hr _ _ Hf Hi' Hne). unfold bytes in *. lia. }
  apply HQ; [| |congruence].
  - split; rewrite ?Ef2; [done| | | | |].
    + apply Hls; [done|by left|set_solver].
    + apply Hls; [done|by right|set_solver].
    + rewrite EF. by apply NoDup_filter.
    + intros inf' [Hf Hne]%HF'. assert (slab_ok (fields s) s1 inf' (fl inf')) as Ho1.
      { eapply (ok_links self R0); [done|exact Hr|exact K1|done|done|]. by apply (sl_ok _ _ _ _ _ _ _ _ H). }
      eapply slab_ok_keep; [done|exact K2| |exact Ho1]. intros z Hc Hz%Hby.
      pose proof (core_body _ _ _ _ G (so_slots _ _ _ _ Ho1) Hc) as Hb'. destruct Hz as [Hz|Hz].
      * by apply (body_body _ _ G Hr _ _ _ Hf Hi' Hne Hb').
      * apply (body_links _ _ G Hr _ _ Hf Hb'). by exists inf.
    + rewrite R2, R1. done.
  - assert (forall z, guarded (fields s) (used (fields s) (F' ++ P) fl) z -> guarded (fields s) (used (fields s) (F ++ P) fl) z) as Hg.
    { intros z [(q & (inf' & [Hf _]%HF' & Hq) & Hz)|Ho]; [left; exists q; split; [by exists inf'|done]|by right]. }
    etrans; (eapply keeps_mono; [|done]).
    + intros z Hz Hz'%Hg. destruct Hz as [Hz|Hz]; [by apply (heads_unguarded self R0 (fl := fl) G Hr z)|by apply (links_unguarded self R0 (fl := fl) G Hr z)].
    + intros z Hz%Hby Hz'. destruct Hz as [Hz|Hz].
      * destruct Hz' as [(q & (inf' & [Hf Hne]%HF' & Hq & _) & Hz')|Ho].
        -- apply (body_body _ _ G Hr _ _ z Hf Hi' Hne); [|done]. by eapply object_body.
        -- by apply (body_other _ _ G Hr _ _ Hi' (or_introl Hz)).
      * apply Hg in Hz'. apply (links_unguarded self R0 (fl := fl) G Hr z); [by exists inf|done].
Qed.
End steps.
