(* ===== verification/SlabNew.v ===== *)
(** Making a slab, and setting up an allocator. *)
From stdpp Require Import functions.
From S2P Require Import Prelude Lists Slab SlabMem SlabInv SlabStep.

(** What the allocator relies on: [malloc] returns nothing, or an aligned area
    that overlaps no live one. *)
Definition malloc_spec (malloc_at : gmap positive Z -> nat -> Z -> option positive) : Prop :=
  forall R k n p, malloc_at R k n = Some p ->
    R !! p = None /\ Z.pos p mod 16 = 0 /\
    forall b sz, R !! b = Some sz -> Z.pos b + sz <= Z.pos p \/ Z.pos p + n <= Z.pos b.

(** Objects are multiples of 8 bytes into a slab. *)
Definition aligned (f : slab) (infs : list positive) : Prop :=
  forall inf, inf ∈ infs -> Z.pos (base f inf) mod 16 = 0.

Section new.
Context (self : positive) (R0 : gmap positive Z).
Abbreviation slabs := (slabs self R0).
Abbreviation guarded := (guarded self R0).
Abbreviation two_heads := (two_heads self).

(** ** The loop that makes the objects *)
Section loop.
Context {f : slab} (G : good_fields f) (slab_ : positive).
Let inf := shift slab_ (info_offset f).

Definition slots (n : Z) : list positive := (fun j => shift slab_ (j * (objsize f + 8))) <$> seqZ 0 n.

Lemma slot_at i : 0 <= i < count f -> shift slab_ (u64 (u64 i * u64 (objsize f + 8))) = shift slab_ (i * (objsize f + 8)).
Proof.
  intros Hi. destruct G. rewrite (u64_small i), (u64_small (objsize f + 8)), u64_small; [done|nia..].
Qed.

Lemma slot_shift i : 0 <= i < count f -> slot f inf (shift slab_ (i * (objsize f + 8))).
Proof.
  intros Hi. exists i. split; [done|]. pose proof (info_pos G). unfold inf. destruct G.
  rewrite !pos_shift by nia. lia.
Qed.

Lemma slots_slot n y : n <= count f -> y ∈ slots n -> slot f inf y.
Proof. intros Hn (j & -> & Hj%elem_of_seqZ)%list_elem_of_fmap. apply slot_shift. lia. Qed.

Lemma slots_all y : slot f inf y -> y ∈ slots (count f).
Proof.
  intros (i & Hi & Ey). apply list_elem_of_fmap. exists i. split; [|apply elem_of_seqZ; lia].
  pose proof (info_pos G). unfold inf in Ey. destruct G. rewrite pos_shift in Ey by lia. unfold shift. lia.
Qed.

Lemma slots_snoc i : 0 <= i -> slots (i + 1) = slots i ++ [shift slab_ (i * (objsize f + 8))].
Proof.
  intros Hi. unfold slots. rewrite seqZ_app by lia. by rewrite fmap_app.
Qed.

Lemma length_slots n : 0 <= n -> Z.of_nat (length (slots n)) = n.
Proof. intros Hn. unfold slots. rewrite length_fmap, length_seqZ. lia. Qed.

Lemma slots_new i : 0 <= i < count f -> shift slab_ (i * (objsize f + 8)) ∉ slots i.
Proof.
  intros Hi (j & E & Hj%elem_of_seqZ)%list_elem_of_fmap. destruct G. unfold shift in E. nia.
Qed.

(** After [i] rounds. *)
Record made (s s' : st) (i : Z) : Prop := {
  md_keeps : keeps (body f inf) s s';
  md_regions : regions s' = regions s;
  md_list : DList.is_list (nodes s') (info_free_list inf) (slots i);
  md_back y : y ∈ slots i -> backs s' !! shift y (objsize f) = Some inf;
  md_count : counts s' !! info_free_count inf = Some (count f);
}.

Lemma wp_new_slab_step infs s s' i Q : fields s = f -> has_regions self R0 f (regions s) infs -> inf ∈ infs ->
  0 <= i < count f -> made s s' i ->
  (forall s'', made s s'' (i + 1) -> Q (inl (i + 1)) s'') ->
  wp (new_slab_step slab_ inf i) s' Q.
Proof.
  intros Ef Hr Hi Hib [K R L B C] HQ. pose proof (k_fields _ _ _ K) as Ef'. rewrite Ef in Ef'.
  pose proof (info_pos G) as Hip. pose proof (gf_size _ G).
  set (y := shift slab_ (i * (objsize f + 8))). pose proof (slot_shift i Hib) as Hy. change (slot f inf y) in Hy.
  pose proof (slot_range _ _ _ G Hy) as Hyr.
  assert (forall x, x ∈ slots i -> slot f inf x) as Hs by (intros x; apply slots_slot; lia).
  assert (forall x, x ∈ y :: slots i -> slot f inf x) as Hs1 by (intros x [->|?]%elem_of_cons; auto).
  assert (forall x, x ∈ slots i ++ [y] -> slot f inf x) as Hs2 by set_solver.
  assert (forall x l, (forall z, z ∈ l -> slot f inf z) -> node_bytes (info_free_list inf :: l) x -> body f inf x) as Hnb.
  { intros x l Hl Hx. apply (core_body f inf l); [done|done|by apply nodes_core]. }
  unfold new_slab_step. wp_bind. apply wp_get. rewrite Ef'.
  destruct (Z.ltb_spec i (count f)) as [_|]; [|lia]. cbv zeta. rewrite (slot_at i) by done. fold y.
  wp_bind. apply wp_cast_node; [rewrite R; eapply slab_live; [done|exact Hr|exact Hi|lia..]|]. intros s1 K1 R1 S1.
  assert (DList.is_list (nodes s1) (info_free_list inf) (slots i)) as L1.
  { eapply is_list_keep; [exact K1| |exact L]. intros z (x & Hx & Hz) Hz'.
    unfold bytes, info_free_list in *. apply elem_of_cons in Hx as [->|Hx].
    - rewrite pos_shift in Hz by lia. lia.
    - assert (x <> y) as Hne by (intros ->; by apply (slots_new i)).
      pose proof (slot_apart _ _ _ _ G (Hs _ Hx) Hy Hne). lia. }
  wp_bind. apply (wp_l_append (info_free_list inf) (slots i)); [done| |done|].
  { intros [E|?]%elem_of_cons; [|by apply (slots_new i)]. unfold info_free_list, shift in E. lia. }
  intros s2 K2 R2 L2. wp_bind. apply wp_get. rewrite (k_fields _ _ _ K2), (k_fields _ _ _ K1), Ef'.
  wp_bind. apply wp_set_back.
  { rewrite R2, R1, R. eapply slab_live; [done|exact Hr|exact Hi|..]; rewrite pos_shift; lia. }
  intros s3 K3 R3 B3. apply wp_ret, HQ.
  assert (keeps (fun z => node_bytes (info_free_list inf :: y :: slots i) z \/ bytes (shift y (objsize f)) 8 z) s' s3) as K'.
  { etrans; [|etrans]; eapply keeps_mono; [|exact K1| |exact K2| |exact K3]; simpl; intros z Hz.
    - left. exists y. split; [set_solver|done].
    - left. destruct Hz as (x & Hx & ?). exists x. split; [set_solver|done].
    - by right. }
  split.
  - etrans; [exact K|]. eapply keeps_mono; [|exact K']. intros z [Hz|Hz]; [by apply (Hnb z (y :: slots i))|].
    eapply (core_body f inf []); [done|set_solver|]. right. left. by exists y.
  - congruence.
  - rewrite slots_snoc by lia. eapply is_list_keep; [exact K3| |exact L2]. intros z Hz Hz'.
    by eapply (back_not_nodes (inf := inf) G (slots i ++ [y])).
  - intros x. rewrite slots_snoc by lia. fold y. intros [Hx|Hx]%elem_of_app.
    + rewrite (k_backs _ _ _ K'); [by apply B|]. intros z Hz [Hz'|Hz'].
      * eapply (back_not_nodes (inf := inf) G (y :: slots i)); [exact Hs1|apply Hs, Hx|exact Hz|exact Hz'].
      * assert (x <> y) as Hne by (intros ->; by apply (slots_new i)).
        pose proof (slot_apart _ _ _ _ G (Hs _ Hx) Hy Hne). pose proof (slot_range _ _ _ G (Hs _ Hx)).
        unfold bytes in *. rewrite pos_shift in Hz, Hz' by lia. lia.
    + apply list_elem_of_singleton in Hx as ->. done.
  - rewrite (k_counts _ _ _ K'); [done|]. intros z Hz [Hz'|Hz'].
    + by eapply (count_not_nodes (inf := inf) G (y :: slots i)).
    + by eapply (back_not_count (inf := inf) G y z).
Qed.

Lemma wp_new_slab_loop infs s s' Q : fields s = f -> has_regions self R0 f (regions s) infs -> inf ∈ infs ->
  made s s' 0 -> (forall s'', made s s'' (count f) -> Q tt s'') ->
  wp (loop (Datatypes.S (Z.to_nat (count f))) (new_slab_step slab_ inf) 0) s' Q.
Proof.
  intros Ef Hr Hi H0 HQ.
  apply (wp_loop (fun k i s'' => 0 <= i <= count f /\ k = Z.to_nat (count f - i) /\ made s s'' i)) with (k := Z.to_nat (count f)).
  - intros k i s1 (Hib & -> & H1). destruct (decide (i < count f)) as [Hlt|Hge].
    + eapply wp_new_slab_step; [done|exact Hr|done|lia|done|]. intros s2 H2. exists (Z.to_nat (count f - (i + 1))).
      split; [lia|]. split; [lia|done].
    + assert (i = count f) as -> by lia. unfold new_slab_step. wp_bind. apply wp_get.
      rewrite (k_fields _ _ _ (md_keeps _ _ _ H1)), Ef. rewrite Z.ltb_irrefl. by apply wp_ret, HQ.
  - lia.
  - pose proof (gf_count _ G). split; [lia|]. split; [f_equal; lia|done].
Qed.
End loop.
(** Different list nodes do not overlap. *)
Lemma list_disjoint a b f R infs L h xs s s' : two_heads a b -> good_fields f -> has_regions self R0 f R infs ->
  keeps (node_bytes L) s s' -> (forall x, x ∈ L -> x = a \/ x = b \/ x ∈ infs) ->
  (forall x, x ∈ h :: xs -> (x = a \/ x = b \/ x ∈ infs) /\ x ∉ L) ->
  DList.is_list (nodes s) h xs -> DList.is_list (nodes s') h xs.
Proof.
  intros Hh G Hr K HL Hx. apply (is_list_keep _ _ _ _ _ K). intros z (x & Hx' & Hz) (y & Hy & Hz').
  destruct (Hx x Hx') as [Hxi Hxn]. assert (x <> y) as Hne by (intros ->; done). apply HL in Hy.
  pose proof (two_heads_pos _ _ _ Hh) as Hpos. pose proof (info_pos G).
  assert (forall u, u ∈ infs -> Z.pos u + 16 <= Z.pos self \/ Z.pos self + 48 <= Z.pos u) as Hs.
  { intros u Hu. pose proof (region_apart _ _ G Hr _ _ _ Hu (hr_self _ _ _ _ _ Hr)) as Hu'. unfold sizeof_slab in Hu'. lia. }
  unfold bytes in *. destruct Hxi as [->|[->|Hxi]]; destruct Hy as [->|[->|Hy]]; try done; try lia.
  - pose proof (Hs y Hy). lia.
  - pose proof (Hs y Hy). lia.
  - pose proof (Hs x Hxi). lia.
  - pose proof (Hs x Hxi). lia.
  - pose proof (slabs_apart _ _ G Hr _ _ Hxi Hy Hne). lia.
Qed.

Lemma used_new f infs fl slab_ q : good_fields f -> let inf := shift slab_ (info_offset f) in inf ∉ infs ->
  used f (infs ++ [inf]) (<[inf := slots (f := f) slab_ (count f)]> fl) q <-> used f infs fl q.
Proof.
  intros G inf Hn. unfold used. split.
  - intros (i & [Hi| ->%list_elem_of_singleton]%elem_of_app & Hs & Hq).
    + rewrite fn_lookup_insert_ne in Hq by (intros ->; done). by exists i.
    + rewrite fn_lookup_insert in Hq. destruct Hq. by apply (slots_all G).
  - intros (i & Hi & Hs & Hq). exists i. split; [set_solver|]. split; [done|].
    rewrite fn_lookup_insert_ne; [done|]. intros ->. done.
Qed.

Lemma guarded_ext f (U U' : positive -> Prop) x : (forall q, U' q -> U q) -> guarded f U' x -> guarded f U x.
Proof. intros HU [(q & Hq & Hx)|Ho]; [left; exists q; auto|by right]. Qed.

Lemma slabs_same a b s s' F P fl : fields s' = fields s -> nodes s' = nodes s -> backs s' = backs s ->
  counts s' = counts s -> regions s' = regions s -> slabs a b s F P fl -> slabs a b s' F P fl.
Proof.
  intros E1 E2 E3 E4 E5 []. split; rewrite ?E1, ?E2, ?E5; try done. intros inf Hi. destruct (sl_ok inf Hi).
  split; rewrite ?E2, ?E3, ?E4; done.
Qed.

Context (malloc_at : gmap positive Z -> nat -> Z -> option positive).
Context (Hm : malloc_spec malloc_at).

Lemma has_regions_insert f R l p k : good_fields f -> has_regions self R0 f R l ->
  malloc_at R k (slabsize f) = Some p ->
  has_regions self R0 f (<[p := slabsize f]> R) (l ++ [shift p (info_offset f)]).
Proof.
  intros G H (Hp & _ & Hd)%Hm. pose proof (info_pos G).
  assert (R0 !! p = None) as Hp0.
  { destruct (R0 !! p) eqn:E; [|done]. assert (R !! p = Some z) by (apply (hr_iff _ _ _ _ _ H); by left). congruence. }
  split.
  - intros b1 n1 b2 n2. rewrite !lookup_insert_Some. intros [[<- <-]|[? Hb1]] [[<- <-]|[? Hb2]] Hne; [done| | |].
    + apply Hd in Hb2. lia.
    + apply Hd in Hb1. lia.
    + by apply (hr_disj _ _ _ _ _ H).
  - apply (hr_self _ _ _ _ _ H).
  - intros b n. rewrite lookup_insert_Some, (hr_iff _ _ _ _ _ H), elem_of_app, list_elem_of_singleton.
    assert (shift b (info_offset f) = shift p (info_offset f) -> b = p) as E.
    { intros Es. rewrite <- (base_shift f b G), <- (base_shift f p G). by rewrite Es. }
    split; [naive_solver|]. intros [Hb|(-> & [Hl|Es%E])].
    + right. split; [congruence|by left].
    + destruct (decide (p = b)) as [->|]; [by left|]. right. split; [done|by right].
    + left. done.
  - intros inf. rewrite elem_of_app, list_elem_of_singleton. intros [Hi| ->]; [by apply (hr_infs _ _ _ _ _ H)|].
    rewrite base_shift by done. split; [|done]. rewrite pos_shift; lia.
Qed.

(** [alloc_new_slab] adds a slab whose objects are all free. *)
Lemma wp_alloc_new_slab s F P fl Q : slabs (full self) (partial self) s F P fl ->
  (forall s', slabs (full self) (partial self) s' F P fl -> keeps (fun _ => False) s s' -> regions s' = regions s ->
     malloc_at (regions s) (calls s) (slabsize (fields s)) = None -> Q (-1) s') ->
  (forall s' slab_, let inf := shift slab_ (info_offset (fields s)) in
     let l := slots (f := fields s) slab_ (count (fields s)) in
     slabs (full self) (partial self) s' F (P ++ [inf]) (<[inf := l]> fl) -> inf ∉ F ++ P ->
     keeps (fun z => ~ guarded (fields s) (used (fields s) (F ++ P) fl) z) s s' ->
     Z.pos slab_ mod 16 = 0 -> Q 0 s') ->
  wp (alloc_new_slab self malloc_at) s Q.
Proof.
  intros H HQ1 HQ2. set (a := full self) in *. set (b := partial self) in *.
  assert (two_heads a b) as Hh by by left.
  pose proof (sl_fields _ _ _ _ _ _ _ _ H) as G. pose proof (sl_reg _ _ _ _ _ _ _ _ H) as Hr.
  pose proof (info_pos G) as Hip. pose proof (two_heads_pos _ _ _ Hh) as Hpos.
  unfold alloc_new_slab. wp_bind. apply wp_get. wp_bind. unfold malloc. wp_bind. apply wp_get.
  rewrite u64_small by (rewrite (gf_slab _ G); pose proof (gf_max _ G) as Hmx; rewrite (gf_slab _ G) in Hmx; lia).
  destruct (malloc_at (regions s) (calls s) (slabsize (fields s))) as [slab_|] eqn:Em.
  2: { wp_bind. apply wp_put. apply wp_ret, wp_ret, HQ1; [|by apply keeps_same|done|done]. by apply (slabs_same a b s). }
  wp_bind. apply wp_put. apply wp_ret.
  set (s0 := mk_st _ _ _ _ _ _). set (inf := shift slab_ (info_offset (fields s))).
  assert (keeps (fun _ => False) s s0) as K0 by by apply keeps_same.
  pose proof (has_regions_insert _ _ _ _ _ G Hr Em) as Hr0. fold inf in Hr0. set (infs := (F ++ P) ++ [inf]) in *.
  assert (inf ∈ infs) as Hi by set_solver.
  assert (inf ∉ F ++ P) as Hn.
  { intros Hi'. pose proof (hr_slab _ _ Hr _ Hi') as Hb. unfold inf in Hb. rewrite base_shift in Hb by done.
    apply Hm in Em as [Em _]. congruence. }
  pose proof (gf_count _ G).
  wp_bind. apply wp_cast_node.
  { unfold info_free_list. eapply slab_live; [done|exact Hr0|exact Hi|..]; rewrite pos_shift; lia. }
  intros s1 K1 R1 S1. wp_bind. apply wp_l_init; [done|]. intros s2 K2 R2 L2.
  wp_bind. apply wp_set_count.
  { rewrite R2, R1. unfold info_free_count. eapply slab_live; [done|exact Hr0|exact Hi|..]; rewrite pos_shift; lia. }
  intros s3 K3 R3 C3.
  assert (forall z, bytes (info_free_list inf) 16 z \/ bytes (info_free_count inf) 4 z -> body (fields s) inf z) as Hb.
  { intros z Hz. unfold bytes, body, info_free_list, info_free_count in *. rewrite !pos_shift in Hz by lia. lia. }
  assert (made (f := fields s) slab_ s0 s3 0) as M3.
  { split; [|by rewrite R3, R2| |set_solver|done].
    - etrans; [|etrans]; eapply keeps_mono; [|exact K1| |exact K2| |exact K3]; simpl; intros z Hz; apply Hb; tauto.
    - eapply is_list_keep; [exact K3| |exact L2]. intros z Hz Hz'.
      eapply (count_not_nodes (inf := inf) G []); [set_solver|exact Hz'|exact Hz]. }
  wp_bind. eapply (wp_new_slab_loop G slab_ infs s0); [done|exact Hr0|done|exact M3|]. intros s4 [K4 R4 L4 B4 C4].
  fold inf in K4, L4, B4, C4. set (l := slots slab_ (count (fields s))) in *.
  assert (forall h, h = a \/ h = b -> forall xs, (forall y, y ∈ xs -> y ∈ F ++ P) -> DList.is_list (nodes s0) h xs ->
    DList.is_list (nodes s4) h xs) as Hl4.
  { intros h Eh xs Hxs. assert (exists h', two_heads h h') as [h' Hh'] by (destruct Eh as [->| ->]; [exists b|exists a]; [done|by apply two_heads_sym]).
    eapply (list_body self R0); [done|exact Hr0|exact K4|done|exact Hi|exact Hh'|set_solver]. }
  pose proof (k_fields _ _ _ K4) as Ef4. change (fields s0) with (fields s) in Ef4.
  wp_bind. apply wp_cast_node; [rewrite R4; eapply slab_live; [done|exact Hr0|exact Hi|lia..]|]. intros s5 K5 R5 S5.
  assert (keeps (node_bytes [inf]) s4 s5) as K5'.
  { eapply keeps_mono; [|exact K5]. intros z Hz. exists inf. split; [set_solver|done]. }
  assert (forall x, x ∈ a :: F \/ x ∈ b :: P -> (x = a \/ x = b \/ x ∈ infs) /\ x <> inf) as Hx.
  { intros x Hx. split; [set_solver|]. intros ->.
    pose proof (region_apart _ _ G Hr0 _ _ _ Hi (hr_self _ _ _ _ _ Hr0)) as Hu. unfold sizeof_slab in Hu.
    destruct Hx as [Hx|Hx]; apply elem_of_cons in Hx as [E|Hx]; try (rewrite E in Hu; lia); apply Hn; set_solver. }
  assert (DList.is_list (nodes s5) a F /\ DList.is_list (nodes s5) b P) as [LF LP].
  { split; (eapply (list_disjoint a b); [done|exact G|exact Hr0|exact K5'|set_solver| |apply Hl4; [auto|set_solver|]]).
    - intros x ?. destruct (Hx x); [by left|]. split; [done|set_solver].
    - apply (sl_F _ _ _ _ _ _ _ _ H).
    - intros x ?. destruct (Hx x); [by right|]. split; [done|set_solver].
    - apply (sl_P _ _ _ _ _ _ _ _ H). }
  pose proof (sl_nodup _ _ _ _ _ _ _ _ H) as Hnd.
  wp_bind. apply (wp_l_append b P); [done| |done|].
  { intros Hb'. by destruct (Hx inf (or_intror Hb')). }
  intros s6 K6 R6 L6. apply wp_ret.
  assert (keeps (fun z => heads self z \/ links infs z) s4 s6) as K46.
  { etrans; (eapply keeps_mono; [|done]); intros z Hz; (eapply list_bytes; [exact Hh| |exact Hz]); set_solver. }
  pose proof (k_fields _ _ _ K46) as Ef6. rewrite Ef4 in Ef6.
  assert (regions s6 = regions s0) as R60 by congruence.
  assert (slab_ok (fields s) s4 inf l) as Ho4.
  { split; [exact L4| | |].
    - intros y. by apply (slots_slot G).
    - rewrite C4. f_equal. symmetry. apply length_slots. lia.
    - intros y Hy. apply B4. by apply (slots_all G). }
  apply (HQ2 s6 slab_); [|done| |by apply Hm in Em as (_ & ? & _)]; fold inf l.
  - split; rewrite ?Ef6, ?R60, ?(assoc_L (++) F P [inf]); fold infs; [done| |done| | |exact Hr0].
    + eapply (list_disjoint a b); [done|exact G|exact Hr0|exact K6|set_solver| |exact LF].
      intros x Hx'. destruct (Hx x) as [Hx1 Hx2]; [by left|]. split; [done|].
      rewrite !not_elem_of_cons. split; [done|]. apply elem_of_cons in Hx' as [->|HxF].
      * split; [intros Eab; rewrite Eab in Hpos; lia|]. intros HaP.
        pose proof (region_apart _ _ G Hr _ _ _ ltac:(apply elem_of_app; right; exact HaP) (hr_self _ _ _ _ _ Hr)) as Hu.
        unfold sizeof_slab in Hu. lia.
      * split.
        -- intros ->. pose proof (region_apart _ _ G Hr _ _ _ ltac:(apply elem_of_app; left; exact HxF) (hr_self _ _ _ _ _ Hr)) as Hu.
           unfold sizeof_slab in Hu. lia.
        -- apply NoDup_app in Hnd as (_ & Hd & _). by apply Hd.
    + unfold infs. apply NoDup_app. split; [done|]. split; [|apply NoDup_singleton].
      intros x Hx' ->%list_elem_of_singleton. done.
    + intros i Hi'. eapply (ok_links self R0); [done|rewrite R4; exact Hr0|exact K46|done|exact Hi'|].
      apply elem_of_app in Hi' as [Hi'| ->%list_elem_of_singleton]; [|by rewrite fn_lookup_insert].
      rewrite fn_lookup_insert_ne by (intros ->; done).
      eapply (ok_body self R0 _ _ s0 s4); [done|exact Hr0|exact K4|done|exact Hi|unfold infs; set_solver|intros ->; done|].
      pose proof (sl_ok _ _ _ _ _ _ _ _ H i Hi') as Ho. eapply slab_ok_keep; [done|exact K0| |exact Ho]. naive_solver.
  - assert (forall z, guarded (fields s) (used (fields s) (F ++ P) fl) z ->
      guarded (fields s) (used (fields s) infs (<[inf := l]> fl)) z) as Hg.
    { intros z. apply guarded_ext. intros q Hq. by apply used_new. }
    etrans; [eapply keeps_mono; [|exact K0]; done|]. etrans; (eapply keeps_mono; [|done]).
    + intros z Hz [(q & (i & Hi' & Hq & _) & Hz')|Ho].
      * apply (body_body _ _ G Hr0 inf i z Hi); [unfold infs; set_solver|intros ->; done|done|]. by eapply object_body.
      * by apply (body_other _ _ G Hr0 _ _ Hi (or_introl Hz)).
    + intros z Hz Hz'%Hg. destruct Hz as [Hz|Hz].
      * by apply (heads_unguarded self R0 (fl := <[inf := l]> fl) G Hr0 z).
      * by apply (links_unguarded self R0 (fl := <[inf := l]> fl) G Hr0 z).
Qed.
End new.
