(* ===== verification/SlabMain.v ===== *)
(** Correctness of src/slab.c: the allocator refines a set of objects in use. *)
From stdpp Require Import functions.
From S2P Require Import Prelude Lists Slab SlabMem SlabInv SlabStep SlabNew.

(** Slabs in the list [full] have no free object; those in [partial] have one,
    and one in use. *)
Definition partly_free (f : slab) (fl : positive -> list positive) (inf : positive) : Prop :=
  fl inf <> [] /\ exists y, slot f inf y /\ y ∉ fl inf.
Definition tidy (f : slab) (F P : list positive) (fl : positive -> list positive) : Prop :=
  (forall inf, inf ∈ F -> fl inf = []) /\ (forall inf, inf ∈ P -> partly_free f fl inf).

(** The objects of [U] are in use; the other live regions are those of [R0]. *)
Definition slab_inv (self : positive) (R0 : gmap positive Z) (U : gset positive) (s : st) : Prop :=
  exists F P fl, slabs self R0 (full self) (partial self) s F P fl /\ tidy (fields s) F P fl /\
    aligned (fields s) (F ++ P) /\ forall q, q ∈ U <-> used (fields s) (F ++ P) fl q.

(** What an operation leaves alone: the objects of [U] and memory of others. *)
Definition theirs (self : positive) (R0 : gmap positive Z) (f : slab) (U : gset positive) : Z -> Prop :=
  guarded self R0 f (fun q => q ∈ U).

Section main.
Context (self : positive) (R0 : gmap positive Z).
Abbreviation slabs := (slabs self R0 (full self) (partial self)).
Abbreviation guarded := (guarded self R0).

Lemma fp : two_heads self (full self) (partial self).
Proof. by left. Qed.

(** ** Counting *)
Lemma slots_nodup f slab_ n : good_fields f -> n <= count f -> NoDup (slots (f := f) slab_ n).
Proof.
  intros G Hn. unfold slots. apply (NoDup_fmap_2_strong _); [|apply NoDup_seqZ].
  intros i j Hi%elem_of_seqZ Hj%elem_of_seqZ E. destruct G. unfold shift in E. nia.
Qed.

Lemma free_list_full f inf l : good_fields f -> info_offset f < Z.pos inf -> NoDup l ->
  (forall y, y ∈ l -> slot f inf y) ->
  (count f <= Z.of_nat (length l) -> forall y, slot f inf y -> y ∈ l) /\
  (Z.of_nat (length l) < count f -> exists y, slot f inf y /\ y ∉ l).
Proof.
  intros G Hi Hnd Hl. pose proof (gf_count _ G).
  set (L := slots (f := f) (base f inf) (count f)).
  assert (forall y, slot f inf y -> y ∈ L) as HL.
  { intros y Hy. apply slots_all; [done|]. by rewrite shift_base. }
  assert (NoDup L) as HnL by by apply slots_nodup.
  assert (Z.of_nat (length L) = count f) as HcL by (apply length_slots; lia).
  assert (l ⊆+ L) as Hs by (apply NoDup_submseteq; auto).
  split.
  - intros Hc y Hy. assert (l ≡ₚ L) as -> by (apply submseteq_length_Permutation; [done|lia]). auto.
  - intros Hc. destruct (decide (Forall (fun y => y ∈ l) L)) as [Ha|Hn].
    + assert (L ⊆+ l) as Hs' by (apply NoDup_submseteq; [done|by apply Forall_forall]).
      apply submseteq_length in Hs'. lia.
    + apply not_Forall_Exists in Hn; [|apply _]. apply Exists_exists in Hn as (y & Hy & Hny).
      exists y. split; [|done]. rewrite <- (shift_base f inf) by done.
      apply (slots_slot G _ (count f)); [lia|exact Hy].
Qed.

Lemma fl_nodup f s inf l : slab_ok f s inf l -> NoDup l.
Proof. intros [[[_ ?]%NoDup_cons _] _ _ _]. done. Qed.

(** ** Allocation *)

(** From the first slab with a free object. *)
Lemma wp_alloc_from s F P fl inf x l Q : slabs s F (inf :: P) fl -> tidy (fields s) F P fl ->
  fl inf = x :: l ->
  (forall s' F' P', slabs s' F' P' (<[inf := l]> fl) -> tidy (fields s) F' P' (<[inf := l]> fl) ->
     (forall y, y ∈ F' ++ P' <-> y ∈ F ++ inf :: P) ->
     keeps (fun z => ~ guarded (fields s) (used (fields s) (F ++ inf :: P) fl) z) s s' ->
     Q (Some x) s') ->
  wp (inf ← list_first (partial self);
      inf ← need inf;
      fr ← list_first (info_free_list inf);
      fr ← need fr;
      list_remove fr;;
      n ← get_count (info_free_count inf);
      set_count (info_free_count inf) (n - 1);;
      e ← list_is_empty (info_free_list inf);
      (if (e : bool) then list_remove inf;; list_insert inf (full self) else ret tt);;
      ret (Some fr)) s Q.
Proof.
  intros H [HtF HtP] Ef HQ. assert (inf ∈ F ++ inf :: P) as Hi by set_solver.
  pose proof (sl_ok _ _ _ _ _ _ _ _ H _ Hi) as Ho. rewrite Ef in Ho.
  pose proof (sl_nodup _ _ _ _ _ _ _ _ H) as Hnd.
  apply NoDup_app in Hnd as (HnF & Hd & HnP). apply NoDup_cons in HnP as [HiP HnP].
  assert (inf ∉ F) as HiF by (intros ?; by apply (Hd inf); [|left]).
  wp_bind. eapply wp_l_first; [apply (sl_P _ _ _ _ _ _ _ _ H)|]. wp_bind. apply (wp_need _ inf); [done|].
  wp_bind. eapply wp_l_first; [apply (so_list _ _ _ _ Ho)|]. wp_bind. apply (wp_need _ x); [done|].
  apply (wp_slab_pop self R0 _ _ _ _ _ _ _ _ _ _ _ fp H Hi Ef). intros s1 H1 K1 R1.
  pose proof (k_fields _ _ _ K1) as Ef1. pose proof (sl_ok _ _ _ _ _ _ _ _ H1 _ Hi) as Ho1. rewrite Ef1 in Ho1.
  rewrite fn_lookup_insert in Ho1. wp_bind. eapply wp_l_empty; [apply (so_list _ _ _ _ Ho1)|].
  assert (forall y, y ∈ F ++ P -> <[inf := l]> fl y = fl y) as Hfl.
  { intros y Hy. rewrite fn_lookup_insert_ne; [done|]. intros ->. set_solver. }
  intros e He. destruct e.
  - assert (l = []) as -> by by apply He. wp_bind.
    apply (wp_slab_move self R0 (partial self) (full self) s1 (inf :: P) F (<[inf := []]> fl) inf).
    { apply two_heads_sym, fp. }
    { by apply slabs_sym. }
    { by left. }
    intros s2 H2 K2 R2. rewrite filter_cons_False in H2 by naive_solver. rewrite DList.filter_ne in H2 by done.
    rewrite Ef1 in K2. apply wp_ret. apply (HQ s2 (F ++ [inf]) P); [by apply slabs_sym| |set_solver|].
    + split.
      * intros i [Hi'| ->%list_elem_of_singleton]%elem_of_app; [|by rewrite fn_lookup_insert].
        rewrite Hfl by set_solver. auto.
      * intros i Hi'. unfold partly_free. rewrite Hfl by set_solver. by apply HtP.
    + etrans; [exact K1|]. eapply keeps_mono; [|exact K2]. intros z Hz Hg. apply Hz. revert Hg.
      apply guarded_ext. intros q (i & Hi' & Hq & Hn). exists i. split; [set_solver|]. split; [done|].
      destruct (decide (i = inf)) as [->|]; [rewrite fn_lookup_insert; set_solver|by rewrite fn_lookup_insert_ne].
  - wp_bind. apply wp_ret, wp_ret. apply (HQ s1 F (inf :: P)); [done| |done|done]. split.
    + intros i Hi'. rewrite Hfl by set_solver. auto.
    + intros i [->|Hi']%elem_of_cons; unfold partly_free; [|rewrite Hfl by set_solver; by apply HtP].
      rewrite fn_lookup_insert. split; [intros El; by apply He in El|]. exists x.
      split; [apply (so_slots _ _ _ _ Ho); by left|]. pose proof (fl_nodup _ _ _ _ Ho) as [? _]%NoDup_cons. done.
Qed.

Lemma used_pop f infs fl inf x l q : inf ∈ infs -> fl inf = x :: l -> slot f inf x -> x ∉ l ->
  used f infs (<[inf := l]> fl) q <-> q = x \/ used f infs fl q.
Proof.
  intros Hi Ef Hx Hn. unfold used. split.
  - intros (i & Hi' & Hq & Hnq). destruct (decide (i = inf)) as [->|Hne].
    + rewrite fn_lookup_insert in Hnq. destruct (decide (q = x)) as [->|Hqx]; [by left|]. right.
      exists inf. rewrite Ef. split; [done|]. split; [done|]. set_solver.
    + rewrite fn_lookup_insert_ne in Hnq by done. right. by exists i.
  - intros [->|(i & Hi' & Hq & Hnq)].
    + exists inf. rewrite fn_lookup_insert. done.
    + exists i. split; [done|]. split; [done|]. destruct (decide (i = inf)) as [->|Hne].
      * rewrite fn_lookup_insert. rewrite Ef in Hnq. set_solver.
      * by rewrite fn_lookup_insert_ne.
Qed.

Lemma wp_slab_alloc malloc_at U s : malloc_spec malloc_at -> slab_inv self R0 U s ->
  wp (slab_alloc self malloc_at) s (fun r s' =>
    match r with
    | None => slab_inv self R0 U s' /\ keeps (fun _ => False) s s' /\ regions s' = regions s /\
        malloc_at (regions s) (calls s) (slabsize (fields s)) = None
    | Some p => p ∉ U /\ slab_inv self R0 ({[p]} ∪ U) s' /\ keeps (fun z => ~ theirs self R0 (fields s) U z) s s'
    end).
Proof.
  intros Hm (F & P & fl & H & Ht & Ha & HU). unfold slab_alloc. wp_bind.
  eapply wp_l_empty; [apply (sl_P _ _ _ _ _ _ _ _ H)|]. intros e He.
  assert (forall s1 (inf : positive) P1 fl1, slabs s1 F (inf :: P1) fl1 -> tidy (fields s1) F P1 fl1 ->
    fl1 inf <> [] -> fields s1 = fields s -> keeps (fun z => ~ theirs self R0 (fields s) U z) s s1 ->
    aligned (fields s) (F ++ inf :: P1) -> (forall q, q ∈ U <-> used (fields s) (F ++ inf :: P1) fl1 q) ->
    forall Q : option positive -> st -> Prop,
    (forall p s', p ∉ U -> slab_inv self R0 ({[p]} ∪ U) s' -> keeps (fun z => ~ theirs self R0 (fields s) U z) s s' -> Q (Some p) s') ->
    wp (inf ← list_first (partial self);
      inf ← need inf;
      fr ← list_first (info_free_list inf);
      fr ← need fr;
      list_remove fr;;
      n ← get_count (info_free_count inf);
      set_count (info_free_count inf) (n - 1);;
      e ← list_is_empty (info_free_list inf);
      (if (e : bool) then list_remove inf;; list_insert inf (full self) else ret tt);;
      ret (Some fr)) s1 Q) as Hgo.
  { intros s1 inf P1 fl1 H1 Ht1 Hne Ef1 K1 Ha1 HU1 Q HQ. destruct (fl1 inf) as [|x l] eqn:Efl; [done|].
    assert (inf ∈ F ++ inf :: P1) as Hi by set_solver.
    pose proof (sl_ok _ _ _ _ _ _ _ _ H1 _ Hi) as Ho. rewrite Efl in Ho.
    pose proof (so_slots _ _ _ _ Ho x (list_elem_of_here _ _)) as Hx. rewrite Ef1 in Hx.
    pose proof (fl_nodup _ _ _ _ Ho) as [Hxl _]%NoDup_cons.
    eapply wp_alloc_from; [exact H1|exact Ht1|exact Efl|]. intros s2 F2 P2 H2 Ht2 Hin K2. rewrite Ef1 in *.
    pose proof (k_fields _ _ _ K2) as Ef2. rewrite Ef1 in Ef2. apply HQ.
    - rewrite HU1. intros (i & Hi' & Hq & Hnq). destruct (decide (i = inf)) as [->|Hne'].
      + rewrite Efl in Hnq. set_solver.
      + pose proof (sl_fields _ _ _ _ _ _ _ _ H1) as G1. pose proof (sl_reg _ _ _ _ _ _ _ _ H1) as Hr1. rewrite Ef1 in *.
        pose proof (slot_range _ _ _ G1 Hx). pose proof (slot_range _ _ _ G1 Hq). pose proof (gf_size _ G1).
        pose proof (slabs_apart _ _ G1 Hr1 _ _ Hi Hi' ltac:(done)). lia.
    - exists F2, P2, (<[inf := l]> fl1). rewrite Ef2. split; [done|]. split; [done|]. split.
      + intros i Hi'%Hin. by apply Ha1.
      + intros q. rewrite elem_of_union, elem_of_singleton, HU1.
        rewrite <- (used_pop _ _ _ _ _ _ q Hi Efl Hx Hxl). unfold used. by setoid_rewrite Hin.
    - etrans; [exact K1|]. eapply keeps_mono; [|exact K2]. intros z Hz Hg. apply Hz. revert Hg.
      apply guarded_ext. intros q Hq. by apply HU1. }
  destruct Ht as [HtF HtP]. destruct e.
  - assert (P = []) as -> by by apply He. wp_bind. eapply (wp_alloc_new_slab self R0 malloc_at Hm); [exact H|..].
    + intros s1 H1 K1 R1 Hn. apply wp_ret. pose proof (k_fields _ _ _ K1) as Ef1. split_and!; [|done|done|done].
      exists F, [], fl. by rewrite Ef1.
    + intros s1 slab_ inf l H1 Hni K1 Hal. cbn [app] in H1. change (0 <? 0) with false. cbv iota.
      pose proof (k_fields _ _ _ K1) as Ef1. pose proof (sl_fields _ _ _ _ _ _ _ _ H) as G.
      apply (Hgo s1 inf [] (<[inf := l]> fl)); [done| | |done| | | |done].
      * split; [|set_solver]. intros i Hi. rewrite fn_lookup_insert_ne; [by apply HtF|]. intros ->. set_solver.
      * rewrite fn_lookup_insert. intros El. apply (f_equal length) in El. pose proof (gf_count _ G).
        pose proof (length_slots (f := fields s) slab_ (count (fields s)) ltac:(lia)) as Hl. fold l in Hl.
        rewrite El in Hl. simpl in Hl. lia.
      * eapply keeps_mono; [|exact K1]. intros z Hz Hg. apply Hz. revert Hg. apply guarded_ext. intros q. apply HU.
      * intros i. rewrite elem_of_app, list_elem_of_singleton. intros [Hi| ->]; [apply Ha; set_solver|].
        unfold inf. by rewrite base_shift.
      * intros q. rewrite HU. symmetry. rewrite app_nil_r in Hni |- *. by apply used_new.
  - destruct P as [|inf P]; [by discriminate (proj2 He eq_refl)|]. wp_bind. apply wp_ret. change (0 <? 0) with false. cbv iota.
    apply (Hgo s inf P fl); [done| |apply HtP; by left|done|done|done|done|done].
    split; [done|]. intros i Hi. apply HtP. by right.
Qed.
(** ** Release of an object *)
Lemma wp_slab_free U s q : slab_inv self R0 U s -> q ∈ U ->
  wp (slab_free self q) s (fun _ s' =>
    slab_inv self R0 (U ∖ {[q]}) s' /\ keeps (fun z => ~ theirs self R0 (fields s) (U ∖ {[q]}) z) s s').
Proof.
  intros (F & P & fl & H & [HtF HtP] & Ha & HU) Hq. pose proof (proj1 (HU q) Hq) as (inf & Hi & Hs & Hn).
  pose proof (sl_fields _ _ _ _ _ _ _ _ H) as G. pose proof (sl_ok _ _ _ _ _ _ _ _ H _ Hi) as Ho.
  unfold slab_free. wp_bind. apply wp_get. wp_bind. eapply wp_get_back; [by apply (so_back _ _ _ _ Ho)|].
  wp_bind. eapply wp_l_empty; [apply (so_list _ _ _ _ Ho)|]. intros e He. wp_bind.
  apply wp_mono with (P := fun _ s1 => exists F1 P1, slabs s1 F1 P1 fl /\ inf ∈ P1 /\
    (forall i, i ∈ F1 -> fl i = []) /\ (forall i, i ∈ P1 -> i <> inf -> partly_free (fields s) fl i) /\
    (forall i, i ∈ F1 ++ P1 <-> i ∈ F ++ P) /\
    keeps (fun z => ~ guarded (fields s) (used (fields s) (F ++ P) fl) z) s s1).
  { destruct e.
    - assert (fl inf = []) as E by by apply He. assert (inf ∈ F) as HiF.
      { apply elem_of_app in Hi as [?|Hi]; [done|]. by destruct (HtP _ Hi). }
      apply (wp_slab_move self R0 (full self) (partial self) s F P fl inf _ fp H HiF). intros s1 H1 K1 R1.
      destruct (NoDup_move F P inf (sl_nodup _ _ _ _ _ _ _ _ H) HiF) as [_ Hin].
      exists (filter (fun y => y <> inf) F), (P ++ [inf]). split_and!; [done|set_solver| | |done|done].
      + intros i [_ Hi']%list_elem_of_filter. auto.
      + intros i [Hi'| ->%list_elem_of_singleton]%elem_of_app Hne; [by apply HtP|done].
    - apply wp_ret. exists F, P. assert (inf ∈ P) as HiP.
      { apply elem_of_app in Hi as [Hi|?]; [|done]. apply HtF in Hi. by apply He in Hi. }
      split_and!; [done|done|done| |done|reflexivity]. intros i Hi' _. by apply HtP. }
  intros [] s1 (F1 & P1 & H1 & HiP & HtF1 & HtP1 & Hin & K1).
  pose proof (k_fields _ _ _ K1) as Ef1. assert (inf ∈ F1 ++ P1) as Hi1 by by apply Hin.
  apply (wp_slab_push self R0 _ _ _ _ _ _ _ _ _ _ fp H1 Hi1); [by rewrite Ef1|done|]. set (l := fl inf ++ [q]).
  intros s2 H2 K2 R2. rewrite Ef1 in K2. pose proof (k_fields _ _ _ K2) as Ef2. rewrite Ef1 in Ef2.
  assert (forall y, used (fields s) (F1 ++ P1) (<[inf := l]> fl) y <-> y ∈ U ∖ {[q]}) as HU2.
  { intros y. rewrite elem_of_difference, not_elem_of_singleton, HU. unfold used. setoid_rewrite Hin. split.
    - intros (i & Hi' & Hy & Hny). destruct (decide (i = inf)) as [->|Hne].
      + rewrite fn_lookup_insert in Hny. unfold l in Hny. split; [exists inf|]; set_solver.
      + rewrite fn_lookup_insert_ne in Hny by done. split; [by exists i|]. intros ->.
        pose proof (sl_reg _ _ _ _ _ _ _ _ H) as Hr. pose proof (slabs_apart _ _ G Hr _ _ Hi Hi' ltac:(done)).
        pose proof (slot_range _ _ _ G Hs). pose proof (slot_range _ _ _ G Hy). pose proof (gf_size _ G). lia.
    - intros [(i & Hi' & Hy & Hny) Hne]. exists i. split; [done|]. split; [done|].
      destruct (decide (i = inf)) as [->|]; [rewrite fn_lookup_insert; unfold l; set_solver|by rewrite fn_lookup_insert_ne]. }
  assert (keeps (fun z => ~ theirs self R0 (fields s) (U ∖ {[q]}) z) s s2) as K.
  { etrans; (eapply keeps_mono; [|done]); intros z Hz Hg; apply Hz; revert Hg; apply guarded_ext; intros y Hy.
    - apply HU. set_solver.
    - by apply HU2. }
  assert (forall i, i <> inf -> <[inf := l]> fl i = fl i) as Hfl by (intros; by rewrite fn_lookup_insert_ne).
  pose proof (sl_ok _ _ _ _ _ _ _ _ H2 _ Hi1) as Ho2. rewrite Ef2, fn_lookup_insert in Ho2.
  pose proof (sl_reg _ _ _ _ _ _ _ _ H) as Hr. destruct (hr_infs _ _ _ _ _ Hr _ Hi) as [Hpos _].
  destruct (free_list_full (fields s) inf l G Hpos (fl_nodup _ _ _ _ Ho2) (so_slots _ _ _ _ Ho2)) as [Hfull Hsome].
  wp_bind. eapply wp_get_count; [apply (so_count _ _ _ _ Ho2)|].
  destruct (Z.leb_spec (count (fields s)) (Z.of_nat (length l))) as [Hc|Hc].
  - apply (wp_free_slab self R0 _ _ _ _ _ _ _ _ (two_heads_sym _ _ _ fp) (slabs_sym _ _ _ _ _ _ _ _ H2) HiP).
    intros s3 H3 K3 R3. apply slabs_sym in H3. rewrite Ef2 in K3. pose proof (k_fields _ _ _ K3) as Ef3. rewrite Ef2 in Ef3.
    set (P3 := filter (fun y => y <> inf) P1) in *.
    assert (forall y, used (fields s) (F1 ++ P3) (<[inf := l]> fl) y <-> y ∈ U ∖ {[q]}) as HU3.
    { intros y. rewrite <- HU2. unfold used. split.
      - intros (i & Hi' & Hy). exists i. split; [|done]. unfold P3 in Hi'. rewrite elem_of_app, list_elem_of_filter in Hi'. set_solver.
      - intros (i & Hi' & Hy & Hny). destruct (decide (i = inf)) as [->|Hne].
        + rewrite fn_lookup_insert in Hny. destruct Hny. by apply Hfull.
        + exists i. split; [|done]. unfold P3. rewrite elem_of_app, list_elem_of_filter. set_solver. }
    split.
    + exists F1, P3, (<[inf := l]> fl). rewrite Ef3. split; [done|]. split; [|split; [|intros y; by rewrite HU3]].
      * split.
        -- intros i Hi'. assert (i <> inf) as Hne.
           { intros ->. pose proof (sl_nodup _ _ _ _ _ _ _ _ H1) as (_ & Hd & _)%NoDup_app. by apply (Hd inf). }
           rewrite Hfl by done. auto.
        -- intros i [Hne Hi']%list_elem_of_filter. unfold partly_free. rewrite Hfl by done. by apply HtP1.
      * intros i Hi'. apply Ha, Hin. unfold P3 in Hi'. rewrite elem_of_app, list_elem_of_filter in Hi'. set_solver.
    + etrans; [exact K|]. eapply keeps_mono; [|exact K3]. intros z Hz Hg. apply Hz. revert Hg. apply guarded_ext.
      intros y Hy. by apply used_sym, HU3.
  - apply wp_ret. split; [|done]. exists F1, P1, (<[inf := l]> fl). rewrite Ef2. split; [done|]. split.
    + split.
      * intros i Hi'. assert (i <> inf) as Hne.
        { intros ->. pose proof (sl_nodup _ _ _ _ _ _ _ _ H1) as (_ & Hd & _)%NoDup_app. by apply (Hd inf). }
        rewrite Hfl by done. auto.
      * intros i Hi'. destruct (decide (i = inf)) as [->|Hne].
        -- unfold partly_free. rewrite fn_lookup_insert. split; [unfold l; by destruct (fl inf)|by apply Hsome].
        -- unfold partly_free. rewrite Hfl by done. by apply HtP1.
    + split; [intros i Hi'; by apply Ha, Hin|]. intros y. by rewrite HU2.
Qed.

(** ** Release of everything *)
Lemma wp_free_all_slabs a b F P fl s Q : two_heads self a b -> SlabInv.slabs self R0 a b s F P fl ->
  (forall s', SlabInv.slabs self R0 a b s' [] P fl ->
     keeps (fun z => ~ guarded (fields s) (used (fields s) P fl) z) s s' -> Q tt s') ->
  wp (free_all_slabs a) s Q.
Proof.
  intros Hh H HQ. unfold free_all_slabs. wp_bind. apply wp_get.
  apply (wp_loop (fun k (_ : unit) s' => exists F', k = length F' /\ SlabInv.slabs self R0 a b s' F' P fl /\
    keeps (fun z => ~ guarded (fields s) (used (fields s) P fl) z) s s')) with (k := length F).
  - intros k [] s1 (F' & -> & H1 & K1). unfold free_all_step. wp_bind.
    eapply wp_l_empty; [apply (sl_F _ _ _ _ _ _ _ _ H1)|]. intros e He. pose proof (k_fields _ _ _ K1) as Ef1.
    destruct e; [rewrite (proj1 He) in * by done; by apply wp_ret, HQ|].
    destruct F' as [|inf F']; [by discriminate (proj2 He eq_refl)|]. wp_bind.
    eapply wp_l_first; [apply (sl_F _ _ _ _ _ _ _ _ H1)|]. wp_bind. apply (wp_need _ inf); [done|]. wp_bind.
    apply (wp_free_slab self R0 a b s1 (inf :: F') P fl inf _ Hh H1); [by left|]. intros s2 H2 K2 R2.
    rewrite Ef1 in K2. pose proof (sl_nodup _ _ _ _ _ _ _ _ H1) as Hnd. cbn [app] in Hnd. apply NoDup_cons in Hnd as [Hni _].
    rewrite filter_cons_False in H2 by naive_solver. rewrite DList.filter_ne in H2 by set_solver.
    apply wp_ret. exists (length F'). split; [simpl; lia|]. exists F'. split; [done|]. split; [done|].
    etrans; [exact K1|]. eapply keeps_mono; [|exact K2]. intros z Hz Hg. apply Hz. revert Hg. apply guarded_ext.
    intros y (i & Hi & Hy). exists i. split; [set_solver|done].
  - apply Nat.lt_succ_r. transitivity (size (list_to_set F : gset positive)).
    + rewrite size_list_to_set; [done|]. pose proof (sl_nodup _ _ _ _ _ _ _ _ H) as Hnd. by apply NoDup_app in Hnd as [? _].
    + rewrite <- size_dom. apply subseteq_size. intros x Hx%elem_of_list_to_set. apply elem_of_dom.
      eapply DList.is_list_dom; [apply (sl_F _ _ _ _ _ _ _ _ H)|by right].
  - exists F. split; [done|]. split; [done|reflexivity].
Qed.

Lemma no_used f fl q : ~ used f [] fl q.
Proof. intros (i & Hi & _). set_solver. Qed.

Lemma slab_inv_empty s fl : slabs s [] [] fl -> slab_inv self R0 ∅ s.
Proof.
  intros H. exists [], [], fl. split; [done|]. split; [by split; set_solver|]. split; [by intros ?; set_solver|].
  intros q. split; [set_solver|]. intros Hq. by apply no_used in Hq.
Qed.

Lemma wp_slab_free_all U s : slab_inv self R0 U s ->
  wp (slab_free_all self) s (fun _ s' =>
    slab_inv self R0 ∅ s' /\ keeps (fun z => ~ theirs self R0 (fields s) ∅ z) s s').
Proof.
  intros (F & P & fl & H & _). unfold slab_free_all. wp_bind.
  apply (wp_free_all_slabs _ _ _ _ _ _ _ fp H). intros s1 H1 K1. pose proof (k_fields _ _ _ K1) as Ef1.
  apply (wp_free_all_slabs _ _ _ _ _ _ _ (two_heads_sym _ _ _ fp) (slabs_sym _ _ _ _ _ _ _ _ H1)).
  intros s2 H2 K2. rewrite Ef1 in K2. split; [by apply (slab_inv_empty _ fl), slabs_sym|].
  etrans; (eapply keeps_mono; [|done]); intros z Hz Hg; apply Hz; revert Hg; apply guarded_ext; set_solver.
Qed.

(** ** Creation *)
Lemma round_objsize_spec n : 0 <= n <= 2 ^ 28 - 64 -> round_objsize n = 8 * ((Z.max 16 n + 7) / 8).
Proof.
  intros Hn. unfold round_objsize. change sizeof_slab_free with 16. change ALIGN with 8. cbv zeta.
  rewrite (u64_small n) by lia. set (m := if n <? 16 then 16 else n).
  assert (m = Z.max 16 n) as Em by (unfold m; destruct (Z.ltb_spec n 16); lia).
  assert ((8 - u64 m mod 8) mod 8 = - m mod 8) as E.
  { rewrite u64_small by lia. rewrite Zminus_mod_idemp_r. rewrite <- (Z_mod_plus_full (- m) 1 8). f_equal. lia. }
  rewrite E. assert (m + - m mod 8 = 8 * ((m + 7) / 8)) as E2 by (Z.to_euclidean_division_equations; lia).
  rewrite E2. rewrite u64_small, i32_small, Em; [done|Z.to_euclidean_division_equations; lia..].
Qed.

Lemma layout_spec n : 0 <= n <= 2 ^ 28 - 64 -> exists f, layout (round_objsize n) = Some f /\ good_fields f /\
  objsize f = 8 * ((Z.max 16 n + 7) / 8).
Proof.
  intros Hn. rewrite round_objsize_spec by done. set (sz := 8 * _).
  assert (16 <= sz <= 2 ^ 28 - 56) as Hsz by (unfold sz; Z.to_euclidean_division_equations; lia).
  unfold layout. rewrite (u64_small (sz + 8)) by lia. destruct (Z.eqb_spec (sz + 8) 0); [lia|].
  change (MIN_SLAB - sizeof_slab_info) with 32728. change MIN_OBJ with 8. change sizeof_slab_info with 40. cbv zeta.
  set (q := 32728 / (sz + 8)).
  assert (0 <= q /\ (sz + 8) * q <= 32728) as [Hq Hq2].
  { unfold q. split; [apply Z.div_pos; lia|apply Z.mul_div_le; lia]. }
  assert (q <= 32728) by nia. rewrite (i32_small q) by lia. set (c := if q <? 8 then 8 else q).
  assert (8 <= c) as Hc by (unfold c; destruct (Z.ltb_spec q 8); lia).
  assert ((sz + 8) * c + 40 < 2 ^ 31) as Hb by (unfold c; destruct (Z.ltb_spec q 8); lia).
  assert (0 <= (sz + 8) * c /\ c <= (sz + 8) * c) as [Hi0 Hi1] by (split; [apply Z.mul_nonneg_nonneg|]; nia).
  rewrite (u64_small c) by lia. remember ((sz + 8) * c) as info eqn:Einfo.
  rewrite (u64_small info) by lia. rewrite (i32_small info) by lia.
  rewrite (u64_small (info + 40)), (i32_small (info + 40)) by lia.
  eexists. split; [done|]. split; [|done]. split; simpl; try lia.
  unfold sz. rewrite Z.mul_comm. apply Z.mod_mul. lia.
Qed.

Lemma wp_slab_init s n : 0 <= n <= 2 ^ 28 - 64 -> regions s = R0 -> R0 !! self = Some sizeof_slab ->
  (forall b1 n1 b2 n2, R0 !! b1 = Some n1 -> R0 !! b2 = Some n2 -> b1 <> b2 ->
     Z.pos b1 + n1 <= Z.pos b2 \/ Z.pos b2 + n2 <= Z.pos b1) ->
  wp (slab_init self n) s (fun _ s' => slab_inv self R0 ∅ s' /\ objsize (fields s') = 8 * ((Z.max 16 n + 7) / 8) /\
    forall f, keeps (fun z => ~ theirs self R0 f ∅ z) (with_fields f s) (with_fields f s')).
Proof.
  intros Hn HR Hself Hd. destruct (layout_spec n Hn) as (f & Ef & G & Eo). unfold slab_init.
  pose proof (two_heads_pos _ _ _ fp) as Hpos.
  wp_bind. apply (wp_need _ f); [done|]. wp_bind. apply wp_modify. set (s0 := with_fields f s).
  assert (forall p, Z.pos self <= Z.pos p -> Z.pos p + 16 <= Z.pos self + 48 -> live R0 p 16) as Hl.
  { intros p H1 H2. eapply live_in; [exact Hself|done|done]. }
  wp_bind. apply wp_cast_node; [change (regions s0) with (regions s); rewrite HR; apply Hl; lia|]. intros s1 K1 R1 S1.
  wp_bind. apply wp_l_init; [done|]. intros s2 K2 R2 L2.
  wp_bind. apply wp_cast_node; [rewrite R2, R1; change (regions s0) with (regions s); rewrite HR; apply Hl; lia|]. intros s3 K3 R3 S3.
  apply wp_l_init; [done|]. intros s4 K4 R4 L4.
  assert (keeps (heads self) s0 s4) as K.
  { etrans; [|etrans; [|etrans]]; (eapply keeps_mono; [|done]); unfold heads, bytes, sizeof_slab; intros z Hz; lia. }
  pose proof (k_fields _ _ _ K) as E4. change (fields s0) with f in E4.
  assert (regions s4 = R0) as R40 by (rewrite R4, R3, R2, R1; done).
  assert (has_regions self R0 f R0 []) as Hr.
  { split; [exact Hd|done| |set_solver]. intros b m. split; [auto|]. intros [?|[_ ?]]; [done|set_solver]. }
  split_and!.
  - apply (slab_inv_empty s4 (fun _ => [])). split; rewrite ?E4, ?R40; [done| |done|apply NoDup_nil_2|set_solver|done].
    eapply is_list_keep; [exact K4| |]; [|eapply is_list_keep; [exact K3| |exact L2]];
      intros z (x & ->%list_elem_of_singleton & Hz) Hz'; unfold bytes in *; lia.
  - by rewrite E4.
  - intros f'. destruct K as [_ Kn Kb Kc]. eapply keeps_mono with (B := heads self).
    + intros z Hz [(q & Hq & _)|Ho]; [set_solver|]. by apply (heads_other _ _ Hr z).
    + split; [done|exact Kn|exact Kb|exact Kc].
Qed.

(** ** What holds of the objects in use *)
Lemma slab_inv_objects U s : slab_inv self R0 U s ->
  (forall p, p ∈ U -> Z.pos p mod 8 = 0 /\ live (regions s) p (objsize (fields s)) /\
     (forall q, q ∈ U -> q <> p -> Z.pos p + objsize (fields s) <= Z.pos q \/ Z.pos q + objsize (fields s) <= Z.pos p) /\
     (forall b n, R0 !! b = Some n -> Z.pos p + objsize (fields s) <= Z.pos b \/ Z.pos b + n <= Z.pos p)) /\
  (U = ∅ -> regions s = R0).
Proof.
  intros (F & P & fl & H & [HtF HtP] & Ha & HU). pose proof (sl_fields _ _ _ _ _ _ _ _ H) as G.
  pose proof (sl_reg _ _ _ _ _ _ _ _ H) as Hr. split.
  - intros p (inf & Hi & Hs & Hn)%HU. pose proof (slot_range _ _ _ G Hs) as Hsr. split_and!.
    + specialize (Ha inf Hi). rewrite (hr_base _ _ Hr _ Hi) in Ha. destruct Hs as (i & _ & ->).
      pose proof (gf_align _ G). Z.to_euclidean_division_equations. nia.
    + eapply slab_live; [done|exact Hr|exact Hi|lia..].
    + intros q (inf' & Hi' & Hs' & Hn')%HU Hne. destruct (decide (inf' = inf)) as [->|Hne'].
      * pose proof (slot_apart _ _ _ _ G Hs' Hs Hne). lia.
      * pose proof (slabs_apart _ _ G Hr _ _ Hi Hi' ltac:(done)). pose proof (slot_range _ _ _ G Hs'). lia.
    + intros b n Hb. pose proof (region_apart _ _ G Hr _ _ _ Hi Hb). lia.
  - intros ->. assert (forall inf, inf ∉ F ++ P) as Hnone.
    { intros inf Hi. assert (exists y, slot (fields s) inf y /\ y ∉ fl inf) as (y & Hy & Hny).
      { apply elem_of_app in Hi as [Hi|Hi]; [|by apply HtP]. rewrite HtF by done. destruct (hr_infs _ _ _ _ _ Hr inf) as [Hp _]; [set_solver|].
        apply (free_list_full _ inf [] G Hp (NoDup_nil_2)); [set_solver|]. pose proof (gf_count _ G). simpl. lia. }
      assert (y ∈ (∅ : gset positive)) by (apply HU; by exists inf). set_solver. }
    apply map_eq. intros b. apply option_eq. intros n. rewrite (hr_iff _ _ _ _ _ Hr). split; [|by left].
    intros [?|[_ Hb]]; [done|]. by apply Hnone in Hb.
Qed.

(** The user may write to its objects. *)
Lemma slab_inv_write U s s' : slab_inv self R0 U s ->
  keeps (fun z => exists q, q ∈ U /\ bytes q (objsize (fields s)) z) s s' -> regions s' = regions s ->
  slab_inv self R0 U s'.
Proof.
  intros (F & P & fl & H & Ht & Ha & HU) K R. pose proof (sl_fields _ _ _ _ _ _ _ _ H) as G.
  pose proof (sl_reg _ _ _ _ _ _ _ _ H) as Hr. pose proof (k_fields _ _ _ K) as Ef.
  assert (forall z, (exists q, q ∈ U /\ bytes q (objsize (fields s)) z) -> guarded (fields s) (used (fields s) (F ++ P) fl) z) as Hg.
  { intros z (q & Hq%HU & Hz). left. by exists q. }
  exists F, P, fl. rewrite Ef. split; [|done].
  split; rewrite ?Ef, ?R; [done| | |apply (sl_nodup _ _ _ _ _ _ _ _ H)| |done].
  - eapply is_list_keep; [exact K| |apply (sl_F _ _ _ _ _ _ _ _ H)]. intros z Hz Hw%Hg.
    destruct (list_bytes self _ _ (F ++ P) (full self :: F) z fp) as [Hz'|Hz']; [set_solver|done|..].
    + by apply (heads_unguarded self R0 (fl := fl) G Hr z).
    + by apply (links_unguarded self R0 (fl := fl) G Hr z).
  - eapply is_list_keep; [exact K| |apply (sl_P _ _ _ _ _ _ _ _ H)]. intros z Hz Hw%Hg.
    destruct (list_bytes self _ _ (F ++ P) (partial self :: P) z fp) as [Hz'|Hz']; [set_solver|done|..].
    + by apply (heads_unguarded self R0 (fl := fl) G Hr z).
    + by apply (links_unguarded self R0 (fl := fl) G Hr z).
  - intros inf Hi. eapply slab_ok_keep; [done|exact K| |by apply (sl_ok _ _ _ _ _ _ _ _ H)]. intros z Hc Hw%Hg.
    eapply core_unguarded; [exact G|exact Hr| |exact Hi|exact Hc|exact Hw]. intros i y. by eapply sl_slot.
Qed.
End main.

(** * Properties *)

(** C18. A slab allocator refines the set [U] of the objects in use.  Setting it
    up for objects of [n] bytes gives an allocator with no object, whose objects
    are rounded up to a multiple of 8 of at least 16.  Objects in use are aligned,
    lie in live memory, overlap neither each other nor any memory that is not the
    allocator's, and when there are none all memory has been given back.
    [slab_alloc] returns a new object, or NULL when [malloc] does and then nothing
    has changed; [slab_free] takes one back; [slab_free_all] takes all; none
    touches the objects in use or others' memory, and whatever the user writes into
    its objects, the allocator stays in order. *)
Theorem slab_refines self R0 malloc_at : malloc_spec malloc_at ->
  (forall s n, 0 <= n <= 2 ^ 28 - 64 -> regions s = R0 -> R0 !! self = Some sizeof_slab ->
    (forall b1 n1 b2 n2, R0 !! b1 = Some n1 -> R0 !! b2 = Some n2 -> b1 <> b2 ->
       Z.pos b1 + n1 <= Z.pos b2 \/ Z.pos b2 + n2 <= Z.pos b1) ->
    wp (slab_init self n) s (fun _ s' => slab_inv self R0 ∅ s' /\ objsize (fields s') = 8 * ((Z.max 16 n + 7) / 8) /\
      forall f, keeps (fun z => ~ theirs self R0 f ∅ z) (with_fields f s) (with_fields f s'))) /\
  (forall U s, slab_inv self R0 U s ->
    (forall p, p ∈ U -> Z.pos p mod 8 = 0 /\ live (regions s) p (objsize (fields s)) /\
       (forall q, q ∈ U -> q <> p -> Z.pos p + objsize (fields s) <= Z.pos q \/ Z.pos q + objsize (fields s) <= Z.pos p) /\
       (forall b n, R0 !! b = Some n -> Z.pos p + objsize (fields s) <= Z.pos b \/ Z.pos b + n <= Z.pos p)) /\
    (U = ∅ -> regions s = R0) /\
    wp (slab_alloc self malloc_at) s (fun r s' =>
      match r with
      | None => slab_inv self R0 U s' /\ keeps (fun _ => False) s s' /\ regions s' = regions s /\
          malloc_at (regions s) (calls s) (slabsize (fields s)) = None
      | Some p => p ∉ U /\ slab_inv self R0 ({[p]} ∪ U) s' /\ keeps (fun z => ~ theirs self R0 (fields s) U z) s s'
      end) /\
    (forall q, q ∈ U -> wp (slab_free self q) s (fun _ s' =>
      slab_inv self R0 (U ∖ {[q]}) s' /\ keeps (fun z => ~ theirs self R0 (fields s) (U ∖ {[q]}) z) s s')) /\
    wp (slab_free_all self) s (fun _ s' =>
      slab_inv self R0 ∅ s' /\ keeps (fun z => ~ theirs self R0 (fields s) ∅ z) s s') /\
    (forall s', keeps (fun z => exists q, q ∈ U /\ bytes q (objsize (fields s)) z) s s' -> regions s' = regions s ->
      slab_inv self R0 U s')).
Proof.
  intros Hm. split; [intros; by apply wp_slab_init|]. intros U s H.
  destruct (slab_inv_objects self R0 U s H) as [H1 H2]. split_and!; [done|done|by apply wp_slab_alloc| | |].
  - intros q Hq. by apply wp_slab_free.
  - by apply (wp_slab_free_all self R0 U).
  - intros s'. by apply slab_inv_write.
Qed.

(** * Witnesses *)

(** A [malloc] that never reuses memory below the highest live byte. *)
Definition top (R : gmap positive Z) : Z := map_fold (fun b sz m => Z.max m (Z.pos b + Z.max sz 1)) 16 R.
Definition bump (R : gmap positive Z) (_ : nat) (n : Z) : option positive :=
  if 2 ^ 40 <? n then None else Some (Z.to_pos (16 * ((top R + 15) / 16))).

Lemma top_spec R : 16 <= top R /\ forall b sz, R !! b = Some sz -> Z.pos b + Z.max sz 1 <= top R.
Proof.
  apply (map_fold_weak_ind (fun m R => 16 <= m /\ forall b sz, R !! b = Some sz -> Z.pos b + Z.max sz 1 <= m)).
  - split; [lia|]. intros b sz. by rewrite lookup_empty.
  - intros i x m r Hi [H1 H2]. split; [lia|]. intros b sz [[<- <-]|[Hne Hb]]%lookup_insert_Some; [lia|].
    apply H2 in Hb. lia.
Qed.

Lemma bump_spec : malloc_spec bump.
Proof.
  intros R k n p. unfold bump. destruct (2 ^ 40 <? n); [done|]. intros [= <-].
  destruct (top_spec R) as [H1 H2]. set (q := 16 * ((top R + 15) / 16)).
  assert (top R <= q) by (unfold q; Z.to_euclidean_division_equations; lia).
  assert (Z.pos (Z.to_pos q) = q) as E by lia. rewrite E. split_and!.
  - destruct (R !! Z.to_pos q) as [sz|] eqn:Eq; [|done]. apply H2 in Eq. lia.
  - unfold q. rewrite Z.mul_comm. by apply Z.mod_mul.
  - intros b sz Hb%H2. lia.
Qed.

Definition ex_slab : st := mk_st (mk_slab 0 0 0 0) ∅ ∅ ∅ {[ 64%positive := 48 ]} 0.

(** Two objects of a slab of eight; freeing both gives the slab back. *)
Definition ex_two : M st (option positive * option positive) :=
  slab_init 64 4090;; p ← slab_alloc 64 bump; q ← slab_alloc 64 bump; ret (p, q).
Definition ex_back : M st unit :=
  ' (p, q) ← ex_two; p ← need p; q ← need q; slab_free 64 p;; slab_free 64 q.

Definition ran {A} (r : res (st * A)) : option (A * list (positive * Z)) :=
  match r with Ok (s, a) => Some (a, map_to_list (regions s)) | _ => None end.

Example ex_two_run : ran (ex_two ex_slab) =
  Some ((Some 112%positive, Some 4216%positive), [(112%positive, 32872); (64%positive, 48)]).
Proof. vm_compute. reflexivity. Qed.

Example ex_back_run : ran (ex_back ex_slab) = Some (tt, [(64%positive, 48)]).
Proof. vm_compute. reflexivity. Qed.

(** For objects of 2^29 bytes the size of a slab overflows, to 104 bytes, and
    making one writes far beyond it. *)
Example layout_overflow : slabsize <$> layout (round_objsize (2 ^ 29)) = Some 104.
Proof. vm_compute. reflexivity. Qed.
Example alloc_overflow : (slab_init 64 (2 ^ 29);; slab_alloc 64 bump) ex_slab = Crash.
Proof. vm_compute. reflexivity. Qed.

Lemma slab_refines_witness :
  malloc_spec bump /\
  wp (slab_init 64 4090;; slab_alloc 64 bump) ex_slab (fun r s' =>
    r = Some 112%positive /\ slab_inv 64 {[ 64%positive := 48 ]} {[112%positive]} s').
Proof.
  split; [exact bump_spec|].
  pose proof (slab_refines 64 {[ 64%positive := 48 ]} bump bump_spec) as [Hinit Hops].
  assert (wp (slab_init 64 4090;; slab_alloc 64 bump) ex_slab (fun r s' =>
    match r with None => True | Some p => slab_inv 64 {[ 64%positive := 48 ]} ({[p]} ∪ ∅) s' end)) as Hw.
  { apply wp_bind. eapply wp_mono; [apply Hinit; [lia|done|done|]|].
    - intros b1 n1 b2 n2 [<- <-]%lookup_singleton_Some [<- <-]%lookup_singleton_Some. done.
    - intros [] s1 (H1 & _). destruct (Hops ∅ s1 H1) as (_ & _ & Ha & _). eapply wp_mono; [exact Ha|].
      intros [p|] s2; [|done]. by intros (_ & ? & _). }
  assert (match (slab_init 64 4090;; slab_alloc 64 bump) ex_slab with
    | Ok (_, r) => r = Some 112%positive | _ => False end) as Hr by (vm_compute; reflexivity).
  unfold wp in *. destruct ((slab_init 64 4090;; slab_alloc 64 bump) ex_slab) as [[s' r]| |]; [|done|done].
  subst r. split; [done|]. by rewrite (right_id_L ∅ (∪)) in Hw.
Defined.
