(* ===== verification/Ioq.v ===== *)
(** Model of src/io/ioq.h, src/io/ioq_linux.h and src/io/ioq_linux.c: waiting for
    file descriptors with epoll, tasks and timers with one loop.

    An [ioq_fd] is one object: the same address stands for it, its task and its
    node in the list of modifications.  epoll belongs to the operating system: it
    is a class, whose laws say what its manual page does.  Each function that
    holds the lock once is one operation here; what follows the critical section
    is returned.  [ioq_step] interleaves the dispatch loop with the threads that
    wait, change their waits, notify, and run tasks. *)
From S2P Require Import Prelude Lists Rbt Runq Waitq.

Definition IOQ_EVENT_IN : Z := 1.
Definition IOQ_EVENT_OUT : Z := 4.
Definition IOQ_EVENT_ERR : Z := 8.
Definition IOQ_EVENT_HUP : Z := 16.

Definition IOQ_FLAG_MOD_LIST : Z := 1.
Definition IOQ_FLAG_EPOLL : Z := 2.
Definition IOQ_FLAG_WAITING : Z := 4.

Record ioq_fd := mk_fd {
  task_func : Z;
  fd : Z;
  ready : Z;      (** ioq_fd_mask_t *)
  err : Z;        (** syserr_t *)
  flags : Z;
  requested : Z;  (** ioq_fd_mask_t *)
}.

(** * epoll *)
Inductive ctl_op := EPOLL_CTL_ADD | EPOLL_CTL_MOD | EPOLL_CTL_DEL.

(** The interest list holds, by descriptor, the events asked for and the user's
    pointer.  [epoll_ctl] returns 0 or an error number, [epoll_wait] an error
    number or at most 32 events. *)
Class Epoll (K : Type) := {
  interest : K -> gmap Z (Z * option positive);
  epoll_ctl : ctl_op -> Z -> Z -> option positive -> K -> K * Z;
  epoll_wait : Z -> K -> K * (Z + list (Z * option positive));
}.

(** epoll_ctl(2), epoll_wait(2). *)
Class EpollLaws (K : Type) `{Epoll K} := {
  ctl_fails op d ev p k k' e : epoll_ctl op d ev p k = (k', e) -> op <> EPOLL_CTL_DEL -> e <> 0 ->
    interest k' = interest k;
  ctl_add d ev p k k' : epoll_ctl EPOLL_CTL_ADD d ev p k = (k', 0) -> interest k' = <[d := (ev, p)]> (interest k);
  ctl_mod d ev p k k' : epoll_ctl EPOLL_CTL_MOD d ev p k = (k', 0) -> interest k' = <[d := (ev, p)]> (interest k);
  ctl_del d ev p k k' e : epoll_ctl EPOLL_CTL_DEL d ev p k = (k', e) -> interest k' = delete d (interest k);
  wait_interest t k k' r : epoll_wait t k = (k', r) -> interest k' = interest k;
  wait_events t k k' es : epoll_wait t k = (k', inr es) ->
    exists ds, NoDup ds /\
      Forall2 (fun d e => exists m, interest k !! d = Some (m, e.2) /\ e.1 <> 0 /\
        Z.land e.1 (Z.lnot (Z.lor m (Z.lor IOQ_EVENT_ERR IOQ_EVENT_HUP))) = 0) ds es;
}.

Section ioq.
Context {K : Type} `{!Epoll K}.

Record ioq := mk_ioq {
  wait : waitq;            (** and the run queue *)
  mod_list : SList.slist;
  intr_state : bool;
  pipe : nat;              (** bytes in the pipe *)
  fds : gmap positive ioq_fd;
  kern : K;
}.

Definition run (q : ioq) : runq := Waitq.run (wait q).

Definition set_wait w (q : ioq) := mk_ioq w (mod_list q) (intr_state q) (pipe q) (fds q) (kern q).
Definition set_run r (q : ioq) := set_wait (with_run r (wait q)) q.
Definition set_mods l (q : ioq) := mk_ioq (wait q) l (intr_state q) (pipe q) (fds q) (kern q).
Definition set_intr b (q : ioq) := mk_ioq (wait q) (mod_list q) b (pipe q) (fds q) (kern q).
Definition set_pipe n (q : ioq) := mk_ioq (wait q) (mod_list q) (intr_state q) n (fds q) (kern q).
Definition set_fds m (q : ioq) := mk_ioq (wait q) (mod_list q) (intr_state q) (pipe q) m (kern q).
Definition set_kern k (q : ioq) := mk_ioq (wait q) (mod_list q) (intr_state q) (pipe q) (fds q) k.

(** Operations of the parts. *)
Definition on_mods {A} (m : M SList.slist A) : M ioq A := fun q =>
  match m (mod_list q) with
  | Ok (l, a) => Ok (set_mods l q, a)
  | Crash => Crash
  | NoFuel => NoFuel
  end.
Definition on_runq {A} (m : M runq A) : M ioq A := fun q =>
  match m (run q) with
  | Ok (r, a) => Ok (set_run r q, a)
  | Crash => Crash
  | NoFuel => NoFuel
  end.
Definition on_wait {A} (m : M waitq A) : M ioq A := fun q =>
  match m (wait q) with
  | Ok (w, a) => Ok (set_wait w q, a)
  | Crash => Crash
  | NoFuel => NoFuel
  end.
Definition ctl (op : ctl_op) (d ev : Z) (p : option positive) : M ioq Z :=
  q ← get;
  let '(k, e) := epoll_ctl op d ev p (kern q) in
  put (set_kern k q);; ret e.

Definition get_fd (f : positive) : M ioq ioq_fd := q ← get; need (fds q !! f).
Definition upd_fd (f : positive) (u : ioq_fd -> ioq_fd) : M ioq unit :=
  x ← get_fd f; modify (fun q => set_fds (<[f := u x]> (fds q)) q).

Definition set_flags (v : Z) (x : ioq_fd) := mk_fd (task_func x) (fd x) (ready x) (err x) v (requested x).
Definition set_ready (v : Z) (x : ioq_fd) := mk_fd (task_func x) (fd x) v (err x) (flags x) (requested x).
Definition set_err (v : Z) (x : ioq_fd) := mk_fd (task_func x) (fd x) (ready x) v (flags x) (requested x).
Definition set_requested (v : Z) (x : ioq_fd) := mk_fd (task_func x) (fd x) (ready x) (err x) (flags x) v.

Definition set_fd (d : Z) (x : ioq_fd) := mk_fd (task_func x) d (ready x) (err x) (flags x) (requested x).

(** [f->flags |= b], [f->flags &= ~b] *)
Definition flags_or (b : Z) (x : ioq_fd) := set_flags (Z.lor (flags x) b) x.
Definition flags_clear (b : Z) (x : ioq_fd) := set_flags (Z.land (flags x) (Z.lnot b)) x.

(** * Notification *)

(** The critical section: whether to write to the pipe. *)
Definition notify_lock : M ioq bool :=
  q ← get; put (set_intr true q);; ret (negb (intr_state q)).
Definition notify_write : M ioq unit := modify (fun q => set_pipe (Datatypes.S (pipe q)) q).

Definition ioq_notify : M ioq unit := w ← notify_lock; when w notify_write.

(** [while (read(q->intr[0], discard, sizeof(discard)) >= 0);] *)
Definition intr_drain : M ioq unit := modify (set_pipe 0).
Definition intr_reset : M ioq unit := modify (set_intr false).
Definition intr_ack : M ioq unit := intr_drain;; intr_reset.

(** * Modifications *)
Definition mod_enqueue_nolock (f : positive) : M ioq bool :=
  x ← get_fd f;
  if truth (Z.land (flags x) IOQ_FLAG_MOD_LIST) then ret false
  else
    need_wakeup ← on_mods SList.slist_is_empty;
    upd_fd f (flags_or IOQ_FLAG_MOD_LIST);;
    on_mods (SList.slist_append (Some f));;
    ret need_wakeup.

(** The [ioq_fd], its flags and its requested events. *)
Definition mod_dequeue : M ioq (option (positive * Z * Z)) :=
  n ← on_mods SList.slist_pop;
  match n with
  | None => ret None
  | Some f =>
      upd_fd f (flags_clear IOQ_FLAG_MOD_LIST);;
      x ← get_fd f;
      ret (Some (f, flags x, requested x))
  end.

Definition exec_task (f : positive) : M ioq unit :=
  x ← get_fd f;
  on_runq (task_exec_lock f (task_func x));;
  ret tt.

(** One round of the loop of [do_wait]. *)
Definition do_event (e : Z * option positive) : M ioq unit :=
  match e.2 with
  | None => ret tt
  | Some f =>
      x ← get_fd f;
      ctl EPOLL_CTL_DEL (fd x) 0 None;;
      upd_fd f (set_ready e.1);;
      upd_fd f (flags_clear (Z.lor IOQ_FLAG_EPOLL IOQ_FLAG_WAITING));;
      mod_enqueue_nolock f;;
      ret tt
  end.

(** One round of the loop of [dispatch_mods], after [mod_dequeue]. *)
Definition dispatch_mod (f : positive) (fl rq : Z) : M ioq unit :=
  if negb (truth (Z.land fl IOQ_FLAG_WAITING)) then exec_task f
  else if rq =? 0 then
    x ← get_fd f;
    (if truth (Z.land fl IOQ_FLAG_EPOLL) then ctl EPOLL_CTL_DEL (fd x) 0 None;; ret tt else ret tt);;
    upd_fd f (set_ready 0);;
    upd_fd f (flags_clear (Z.lor IOQ_FLAG_EPOLL IOQ_FLAG_WAITING));;
    mod_enqueue_nolock f;;
    ret tt
  else
    x ← get_fd f;
    e ← ctl (if truth (Z.land fl IOQ_FLAG_EPOLL) then EPOLL_CTL_MOD else EPOLL_CTL_ADD) (fd x) rq (Some f);
    if negb (e =? 0) then
      upd_fd f (set_err e);;
      upd_fd f (set_requested 0);;
      mod_enqueue_nolock f;;
      ret tt
    else upd_fd f (flags_or IOQ_FLAG_EPOLL).

Definition dispatch_mods_step (_ : unit) : M ioq (unit + unit) :=
  r ← mod_dequeue;
  match r with
  | None => ret (inr tt)
  | Some (f, fl, rq) => dispatch_mod f fl rq;; ret (inl tt)
  end.

(** Each [ioq_fd] comes up at most three times: to be registered in vain, to be
    cancelled, to be run. *)
Definition dispatch_mods : M ioq unit :=
  q ← get;
  loop (Datatypes.S (3 * size (fds q))) dispatch_mods_step tt.

(** * The client's side *)
Definition ioq_fd_init (f : positive) (d : Z) : M ioq unit :=
  modify (fun q => set_fds (<[f := mk_fd 0 d 0 0 0 0]> (fds q)) q).

(** Whether to call [ioq_notify]. *)
Definition ioq_fd_wait (f : positive) (set func : Z) : M ioq bool :=
  upd_fd f (fun x => mk_fd func (fd x) 0 0 IOQ_FLAG_WAITING set);;
  if set =? 0 then exec_task f;; ret false
  else mod_enqueue_nolock f.

Definition ioq_fd_rewait (f : positive) (set : Z) : M ioq bool :=
  x ← get_fd f;
  if truth (Z.land (flags x) IOQ_FLAG_WAITING)
  then upd_fd f (set_requested set);; mod_enqueue_nolock f
  else ret false.

Definition ioq_fd_cancel (f : positive) : M ioq bool := ioq_fd_rewait f 0.

Definition ioq_fd_get_fd (x : ioq_fd) : Z := fd x.
Definition ioq_fd_ready (x : ioq_fd) : Z := ready x.
Definition ioq_fd_error (x : ioq_fd) : Z := err x.
Definition ioq_fd_set_fd (f : positive) (d : Z) : M ioq unit := upd_fd f (set_fd d).

(** * An iteration, when no other thread takes part *)
Section iterate.
(** A task's function. *)
Context (call : positive -> Z -> M ioq unit).

Definition EINTR : Z := 4.

Definition do_events (es : list (Z * option positive)) : M ioq unit :=
  foldr (fun e m => do_event e;; m) (ret tt) es.

Definition do_wait (now : Z) : M ioq Z :=
  timeout ← on_wait (waitq_next_deadline now);
  q ← get;
  let '(k, r) := epoll_wait timeout (kern q) in
  put (set_kern k q);;
  match r with
  | inl e => ret (if e =? EINTR then 0 else -1)
  | inr es => intr_ack;; do_events es;; ret 0
  end.

(** The queue as the run queue and the rest, for [runq_dispatch]. *)
Definition on_split {A} (m : M (runq * ioq) A) : M ioq A := fun q =>
  match m (run q, q) with
  | Ok ((r, q'), a) => Ok (set_run r q', a)
  | Crash => Crash
  | NoFuel => NoFuel
  end.
Definition split_call (t : positive) (f : Z) : M (runq * ioq) unit := fun s =>
  match call t f (set_run s.1 s.2) with
  | Ok (q, a) => Ok ((run q, q), a)
  | Crash => Crash
  | NoFuel => NoFuel
  end.

(** [now] is the clock when the deadline is looked up, [now'] when timers
    expire; [fuel] bounds the timers and the tasks. *)
Definition ioq_iterate (fuel : nat) (now now' : Z) : M ioq Z :=
  rc ← do_wait now;
  if rc <? 0 then ret (-1)
  else
    dispatch_mods;;
    on_wait (waitq_dispatch fuel now' 0);;
    on_split (runq_dispatch split_call fuel 0);;
    ret 0.
End iterate.
End ioq.
Arguments ioq K : clear implicits.

(** * Creation *)

(** What [ioq_init] acquires; each call gives 0 or an error number. *)
Inductive resource := RUNQ | WAITQ | LOCK | PIPE | EPOLL_FD.
#[export] Instance resource_eq_dec : EqDecision resource.
Proof. solve_decision. Defined.

(** The result and [syserr_last()]. *)
Definition ioq_init (runq_err pipe_err epoll_err ctl_err : Z) : M (list resource) (Z * Z) :=
  if negb (runq_err =? 0) then ret (-1, runq_err)
  else
    acquire RUNQ;; acquire WAITQ;; acquire LOCK;;
    if negb (pipe_err =? 0) then
      release LOCK;; release WAITQ;; release RUNQ;; ret (-1, pipe_err)
    else
      acquire PIPE;;
      if negb (epoll_err =? 0) then
        release PIPE;; release LOCK;; release WAITQ;; release RUNQ;; ret (-1, epoll_err)
      else
        acquire EPOLL_FD;;
        if negb (ctl_err =? 0) then
          release EPOLL_FD;; release PIPE;; release LOCK;; release WAITQ;; release RUNQ;; ret (-1, ctl_err)
        else ret (0, 0).

Definition ioq_destroy : M (list resource) unit :=
  release RUNQ;; release WAITQ;; release LOCK;; release PIPE;; release EPOLL_FD.
