(* ===== verification/IoqInv.v ===== *)
(** The I/O queue among its threads: the steps of the dispatch loop and of the
    clients, and the invariant they keep. *)
From S2P Require Import Prelude Lists Runq RunqMain Waitq Ioq.

(** * The threads *)

(** The dispatch loop: waiting for epoll; emptying the pipe, resetting the state,
    recording events; taking a modification, performing it; timers and tasks. *)
Inductive loop_pc :=
  | LWait
  | LDrain (es : list (Z * option positive))
  | LReset (es : list (Z * option positive))
  | LEvents (es : list (Z * option positive))
  | LMods
  | LMod (f : positive) (fl rq : Z)
  | LRest.

Record sys (K : Type) := mk_sys {
  ioq_ : ioq K;
  lpc : loop_pc;
  notifying : nat;          (** threads about to enter [ioq_notify] *)
  writing : nat;            (** threads about to write to the pipe *)
  busy : gset positive;     (** waits begun whose callback has not begun *)
  waits : list positive;    (** waits begun *)
  called : list positive;   (** callbacks begun *)
}.
Arguments mk_sys {K}.
Arguments ioq_ {K}. Arguments lpc {K}. Arguments notifying {K}. Arguments writing {K}.
Arguments busy {K}. Arguments waits {K}. Arguments called {K}.

(** No other wait in progress uses the descriptor of [f]. *)
Definition alone (F : gmap positive ioq_fd) (B : gset positive) (f : positive) (x : ioq_fd) : Prop :=
  forall g y, g <> f -> g ∈ B -> F !! g = Some y -> fd y <> fd x.


Section system.
Context {K : Type} `{!Epoll K}.

Definition loop_to (q : ioq K) (pc : loop_pc) (s : sys K) : sys K :=
  mk_sys q pc (notifying s) (writing s) (busy s) (waits s) (called s).

(** The thread in [ioq_iterate]. *)
Inductive loop_step : sys K -> sys K -> Prop :=
  | loop_wait s t k es : lpc s = LWait -> epoll_wait t (kern (ioq_ s)) = (k, inr es) ->
      loop_step s (loop_to (set_kern k (ioq_ s)) (LDrain es) s)
  | loop_intr s t k : lpc s = LWait -> epoll_wait t (kern (ioq_ s)) = (k, inl EINTR) ->
      loop_step s (loop_to (set_kern k (ioq_ s)) LMods s)
  | loop_fail s t k e : lpc s = LWait -> epoll_wait t (kern (ioq_ s)) = (k, inl e) -> e <> EINTR ->
      loop_step s (loop_to (set_kern k (ioq_ s)) LWait s)
  | loop_drain s q es : lpc s = LDrain es -> intr_drain (ioq_ s) = Ok (q, tt) ->
      loop_step s (loop_to q (LReset es) s)
  | loop_reset s q es : lpc s = LReset es -> intr_reset (ioq_ s) = Ok (q, tt) ->
      loop_step s (loop_to q (LEvents es) s)
  | loop_event s q e es : lpc s = LEvents (e :: es) -> do_event e (ioq_ s) = Ok (q, tt) ->
      loop_step s (loop_to q (LEvents es) s)
  | loop_events_done s : lpc s = LEvents [] -> loop_step s (loop_to (ioq_ s) LMods s)
  | loop_dequeue s q f fl rq : lpc s = LMods -> mod_dequeue (ioq_ s) = Ok (q, Some (f, fl, rq)) ->
      loop_step s (loop_to q (LMod f fl rq) s)
  | loop_mods_done s q : lpc s = LMods -> mod_dequeue (ioq_ s) = Ok (q, None) ->
      loop_step s (loop_to q LRest s)
  | loop_mod s q f fl rq : lpc s = LMod f fl rq -> dispatch_mod f fl rq (ioq_ s) = Ok (q, tt) ->
      loop_step s (loop_to q LMods s)
  | loop_rest s : lpc s = LRest -> loop_step s (loop_to (ioq_ s) LWait s).

(** Clients begin a wait on an [ioq_fd] that has none, with a descriptor that no
    other wait uses, initialise it again or give it another descriptor; change or
    cancel a wait; threads notify; someone, the loop or a worker, takes a task off the run
    queue.  The rest of the program submits other tasks, sets timers and calls
    [ioq_notify]; the kernel changes, but for its interest list. *)
Inductive client_step : sys K -> sys K -> Prop :=
  | client_wait s f x set func q w : fds (ioq_ s) !! f = Some x -> f ∉ busy s -> alone (fds (ioq_ s)) (busy s) f x ->
      set <> 0 ->
      ioq_fd_wait f set func (ioq_ s) = Ok (q, w) ->
      client_step s (mk_sys q (lpc s) (notifying s + b2n w) (writing s) ({[f]} ∪ busy s) (waits s ++ [f]) (called s))
  | client_rewait s f set q w : is_Some (fds (ioq_ s) !! f) -> ioq_fd_rewait f set (ioq_ s) = Ok (q, w) ->
      client_step s (mk_sys q (lpc s) (notifying s + b2n w) (writing s) (busy s) (waits s) (called s))
  | client_init s f d q : is_Some (fds (ioq_ s) !! f) -> f ∉ busy s -> ioq_fd_init f d (ioq_ s) = Ok (q, tt) ->
      client_step s (mk_sys q (lpc s) (notifying s) (writing s) (busy s) (waits s) (called s))
  | client_set_fd s f d q : is_Some (fds (ioq_ s) !! f) -> f ∉ busy s -> ioq_fd_set_fd f d (ioq_ s) = Ok (q, tt) ->
      client_step s (mk_sys q (lpc s) (notifying s) (writing s) (busy s) (waits s) (called s))
  | client_notify s : client_step s (mk_sys (ioq_ s) (lpc s) (Datatypes.S (notifying s)) (writing s) (busy s) (waits s) (called s))
  | client_lock s n q w : notifying s = Datatypes.S n -> notify_lock (ioq_ s) = Ok (q, w) ->
      client_step s (mk_sys q (lpc s) n (writing s + b2n w) (busy s) (waits s) (called s))
  | client_write s n q : writing s = Datatypes.S n -> notify_write (ioq_ s) = Ok (q, tt) ->
      client_step s (mk_sys q (lpc s) (notifying s) n (busy s) (waits s) (called s))
  | client_call s r f : run_one (run (ioq_ s)) = Ok (r, (1, Some f)) ->
      client_step s (mk_sys (set_run r (ioq_ s)) (lpc s) (notifying s) (writing s) (busy s ∖ {[f]}) (waits s) (called s ++ [f]))
  | client_submit s t f r b : fds (ioq_ s) !! t = None -> is_Some (SList.snodes (job_list (run (ioq_ s))) !! t) ->
      (forall xs, SList.is_slist (job_list (run (ioq_ s))) xs -> t ∉ xs) ->
      task_exec_lock t f (run (ioq_ s)) = Ok (r, b) ->
      client_step s (mk_sys (set_run r (ioq_ s)) (lpc s) (notifying s) (writing s) (busy s) (waits s) (called s))
  | client_timers s w : Waitq.run w = run (ioq_ s) ->
      client_step s (mk_sys (set_wait w (ioq_ s)) (lpc s) (notifying s) (writing s) (busy s) (waits s) (called s))
  | client_kernel s k : interest k = interest (kern (ioq_ s)) ->
      client_step s (mk_sys (set_kern k (ioq_ s)) (lpc s) (notifying s) (writing s) (busy s) (waits s) (called s)).

Definition io_step (s s' : sys K) : Prop := loop_step s s' \/ client_step s s'.

(** A queue just made, with [ioq_fd]s just initialised. *)
Record ioq_fresh (q : ioq K) : Prop := {
  fr_mods : SList.is_slist (mod_list q) [];
  fr_jobs : SList.is_slist (job_list (run q)) [];
  fr_nodes f : is_Some (fds q !! f) ->
    is_Some (SList.snodes (mod_list q) !! f) /\ is_Some (SList.snodes (job_list (run q)) !! f);
  fr_fds f x : fds q !! f = Some x -> x = mk_fd 0 (fd x) 0 0 0 0;
  fr_interest d m f : interest (kern q) !! d <> Some (m, Some f);
  fr_intr : intr_state q = false;
}.

Inductive io_reach : sys K -> Prop :=
  | io_start q : ioq_fresh q -> io_reach (mk_sys q LRest 0 0 ∅ [] [])
  | io_next s s' : io_reach s -> io_step s s' -> io_reach s'.

(** * The invariant *)
Definition md (x : ioq_fd) : bool := Z.testbit (flags x) 0.
Definition ep (x : ioq_fd) : bool := Z.testbit (flags x) 1.
Definition wt (x : ioq_fd) : bool := Z.testbit (flags x) 2.

Definition hand (pc : loop_pc) : option positive := match pc with LMod f _ _ => Some f | _ => None end.
Definition events (pc : loop_pc) : list (Z * option positive) :=
  match pc with LDrain es | LReset es | LEvents es => es | _ => [] end.

(** One [ioq_fd], given the interest list, the list of modifications, the run
    queue, what the loop has in hand and the waits in progress.  While it is
    [WAITING], and no modification is due, the kernel has just the events asked
    for.  After that, it is on its way to the run queue, or there, once. *)
Record fd_ok (I : gmap Z (Z * option positive)) (L J : list positive) (h : option positive) (B : gset positive)
    (f : positive) (x : ioq_fd) : Prop := {
  fo_md : md x = true <-> f ∈ L;
  fo_ep : ep x = true -> wt x = true /\ exists m, I !! fd x = Some (m, Some f);
  fo_wait : wt x = true -> f ∈ B /\ f ∉ J;
  fo_reg : wt x = true -> f ∉ L -> h <> Some f ->
    ep x = true /\ requested x <> 0 /\ I !! fd x = Some (requested x, Some f);
  fo_done : wt x = false -> (f ∈ B <-> f ∈ L \/ h = Some f \/ f ∈ J);
  fo_once : wt x = false -> ~ (f ∈ L /\ f ∈ J) /\ ~ (f ∈ L /\ h = Some f) /\ ~ (h = Some f /\ f ∈ J);
}.

Record fds_ok (F : gmap positive ioq_fd) (I : gmap Z (Z * option positive)) (L J : list positive)
    (h : option positive) (B : gset positive) : Prop := {
  fs_ok f x : F !! f = Some x -> fd_ok I L J h B f x;
  fs_inj f x : f ∈ B -> F !! f = Some x -> alone F B f x;
  fs_int d m f : I !! d = Some (m, Some f) -> exists x, F !! f = Some x /\ fd x = d /\ ep x = true;
  fs_mods f : f ∈ L -> is_Some (F !! f);
  fs_busy f : f ∈ B -> is_Some (F !! f);
}.

Record io_inv (s : sys K) (L J : list positive) : Prop := {
  io_mods : SList.is_slist (mod_list (ioq_ s)) L;
  io_jobs : SList.is_slist (job_list (run (ioq_ s))) J;
  io_nodes f : is_Some (fds (ioq_ s) !! f) ->
    is_Some (SList.snodes (mod_list (ioq_ s)) !! f) /\ is_Some (SList.snodes (job_list (run (ioq_ s))) !! f);
  io_fds : fds_ok (fds (ioq_ s)) (interest (kern (ioq_ s))) L J (hand (lpc s)) (busy s);
  io_hand f fl rq : lpc s = LMod f fl rq -> exists x, fds (ioq_ s) !! f = Some x /\
    Z.testbit fl 1 = ep x /\ Z.testbit fl 2 = wt x /\ (f ∉ L -> rq = requested x);
  io_events : NoDup (omap snd (events (lpc s))) /\ forall e f, e ∈ events (lpc s) -> e.2 = Some f ->
    exists x, fds (ioq_ s) !! f = Some x /\ ep x = true;
  io_wake : lpc s = LRest \/ lpc s = LWait -> L <> [] ->
    (0 < notifying s)%nat \/ intr_state (ioq_ s) = true;
  io_intr : intr_state (ioq_ s) = true ->
    (0 < pipe (ioq_ s))%nat \/ (0 < writing s)%nat \/ exists es, lpc s = LReset es;
  io_count f : is_Some (fds (ioq_ s) !! f) ->
    count_occ Pos.eq_dec (waits s) f =
      (count_occ Pos.eq_dec (called s) f + if decide (f ∈ busy s) then 1 else 0)%nat;
}.

(** ** Flags *)
Lemma flags_lor b x : md (flags_or b x) = (md x || Z.testbit b 0) /\ ep (flags_or b x) = (ep x || Z.testbit b 1) /\
  wt (flags_or b x) = (wt x || Z.testbit b 2).
Proof. unfold md, ep, wt, flags_or, set_flags. cbn [flags]. by rewrite !Z.lor_spec. Qed.

Lemma flags_ldiff b x : md (flags_clear b x) = (md x && negb (Z.testbit b 0)) /\
  ep (flags_clear b x) = (ep x && negb (Z.testbit b 1)) /\ wt (flags_clear b x) = (wt x && negb (Z.testbit b 2)).
Proof. unfold md, ep, wt, flags_clear, set_flags. cbn [flags]. by rewrite !Z.land_spec, !Z.lnot_spec by done. Qed.

Lemma flags_or_same x : md x = true -> flags_or IOQ_FLAG_MOD_LIST x = x.
Proof.
  intros Hm. unfold flags_or, set_flags. destruct x as [a b c d fl e]. simpl. f_equal.
  apply Z.bits_inj'. intros n Hn. rewrite Z.lor_spec. change IOQ_FLAG_MOD_LIST with (2 ^ 0).
  destruct (decide (n = 0)) as [->|]; [unfold md in Hm; cbn [flags] in Hm; by rewrite Hm|].
  rewrite Z.pow2_bits_false by lia. apply orb_false_r.
Qed.

Lemma truth_mod x : truth (Z.land (flags x) IOQ_FLAG_MOD_LIST) = md x.
Proof. by apply (truth_land_bit _ 0). Qed.
Lemma truth_waiting fl : truth (Z.land fl IOQ_FLAG_WAITING) = Z.testbit fl 2.
Proof. by apply (truth_land_bit _ 2). Qed.
Lemma truth_epoll fl : truth (Z.land fl IOQ_FLAG_EPOLL) = Z.testbit fl 1.
Proof. by apply (truth_land_bit _ 1). Qed.

(** ** Frames *)

(** An [ioq_fd] that a step does not concern. *)
Lemma fd_ok_frame I I' L L' J J' h h' B B' f x :
  (f ∈ L <-> f ∈ L') -> (f ∈ J <-> f ∈ J') -> (f ∈ B -> I' !! fd x = I !! fd x) -> (h = Some f <-> h' = Some f) ->
  (f ∈ B <-> f ∈ B') -> fd_ok I L J h B f x -> fd_ok I' L' J' h' B' f x.
Proof.
  intros EL EJ EI Eh EB []. split.
  - by rewrite <- EL.
  - intros He. destruct (fo_ep0 He) as [Hw ?]. rewrite EI by by apply fo_wait0. done.
  - by rewrite <- EB, <- EJ.
  - intros Hw Hl Hh. rewrite EI by by apply fo_wait0. apply fo_reg0; [done|by rewrite EL|by rewrite Eh].
  - rewrite <- EB, <- EL, <- EJ, <- Eh. done.
  - rewrite <- EL, <- EJ, <- Eh. done.
Qed.

(** A step that concerns [f] alone. *)
Lemma fds_ok_update F I I' L L' J J' h h' B B' f x x' :
  fds_ok F I L J h B -> F !! f = Some x -> fd x' = fd x -> alone F B f x ->
  (forall g, g <> f -> (g ∈ L <-> g ∈ L') /\ (g ∈ J <-> g ∈ J') /\ (h = Some g <-> h' = Some g) /\ (g ∈ B <-> g ∈ B')) ->
  (forall d, d <> fd x -> I' !! d = I !! d) ->
  (forall m g, I' !! fd x = Some (m, Some g) -> g = f /\ ep x' = true) ->
  fd_ok I' L' J' h' B' f x' ->
  fds_ok (<[f := x']> F) I' L' J' h' B'.
Proof.
  intros [] Hf Ed Ha Ho HI HI' Hok. split.
  - intros g y [[<- <-]|[Hne Hg]]%lookup_insert_Some; [done|].
    destruct (Ho g ltac:(done)) as (H1 & H2 & H3 & H4). eapply fd_ok_frame; [exact H1|exact H2| |exact H3|exact H4|by apply fs_ok0].
    intros HB. apply HI. by apply (Ha g y).
  - intros g1 y1 HB1 H1 g2 y2 Hne HB2 H2. apply lookup_insert_Some in H1 as [[<- <-]|[Hn1 H1]];
      apply lookup_insert_Some in H2 as [[<- <-]|[Hn2 H2]]; rewrite ?Ed; [done| | |].
    + apply (Ha g2); [done|by apply Ho|done].
    + apply not_eq_sym. apply (Ha g1); [done|by apply Ho|done].
    + apply (fs_inj0 g1 y1) with g2; [by apply Ho|done|done|by apply Ho|done].
  - intros d m g Hd. destruct (decide (d = fd x)) as [->|Hne].
    + destruct (HI' m g Hd) as [-> He]. exists x'. by rewrite lookup_insert_eq.
    + rewrite HI in Hd by done. destruct (fs_int0 d m g Hd) as (y & Hg & <- & He).
      exists y. rewrite lookup_insert_ne; [done|]. intros <-. congruence.
  - intros g Hg. destruct (decide (g = f)) as [->|Hne]; [rewrite lookup_insert_eq; eauto|].
    rewrite lookup_insert_ne by done. apply fs_mods0. by apply Ho.
  - intros g Hg. destruct (decide (g = f)) as [->|Hne]; [rewrite lookup_insert_eq; eauto|].
    rewrite lookup_insert_ne by done. apply fs_busy0. by apply Ho.
Qed.
End system.
