(* ===== verification/IoqStep.v ===== *)
(** What the operations of the I/O queue do, and that every step of the dispatch
    loop and of the clients keeps the invariant. *)
From S2P Require Import Prelude Lists Runq RunqMain Waitq Ioq IoqInv.

Definition enq (f : positive) (L : list positive) : list positive := if decide (f ∈ L) then L else L ++ [f].

Lemma elem_of_enq f L g : g ∈ enq f L <-> g = f \/ g ∈ L.
Proof. unfold enq. destruct (decide (f ∈ L)); set_solver. Qed.

Lemma enq_nonempty f L : enq f L <> [].
Proof. unfold enq. destruct (decide (f ∈ L)); destruct L; try done; set_solver. Qed.

Section step.
Context {K : Type} `{!Epoll K, !EpollLaws K}.

(** [q'] is [q] with the [ioq_fd] at [f], the interest list and the list of
    modifications changed. *)
Record changed (q q' : ioq K) (f : positive) (x' : ioq_fd) (I' : gmap Z (Z * option positive)) (L' : list positive) : Prop := {
  ch_fds : fds q' = <[f := x']> (fds q);
  ch_int : interest (kern q') = I';
  ch_mods : SList.is_slist (mod_list q') L';
  ch_nodes g : is_Some (SList.snodes (mod_list q) !! g) -> is_Some (SList.snodes (mod_list q') !! g);
  ch_wait : Ioq.wait q' = Ioq.wait q;
  ch_intr : intr_state q' = intr_state q;
  ch_pipe : pipe q' = pipe q;
}.

Lemma wp_get_fd f x (q : ioq K) Q : fds q !! f = Some x -> Q x q -> wp (get_fd f) q Q.
Proof. intros Hf HQ. unfold get_fd. wp_bind. apply wp_get. by apply (wp_need _ x). Qed.

Lemma wp_upd_fd f u x (q : ioq K) Q : fds q !! f = Some x -> Q tt (set_fds (<[f := u x]> (fds q)) q) ->
  wp (upd_fd f u) q Q.
Proof. intros Hf HQ. unfold upd_fd. wp_bind. apply (wp_get_fd _ x); [done|]. by apply wp_modify. Qed.

Lemma wp_on_mods {A} (m : M SList.slist A) (q : ioq K) Q :
  wp m (mod_list q) (fun a l => Q a (set_mods l q)) -> wp (on_mods m) q Q.
Proof. unfold wp, on_mods. destruct (m (mod_list q)) as [[l a]| |]; done. Qed.

(** Entering [f] in the list; the rest of the state may have changed already. *)
Lemma wp_enqueue q0 (q : ioq K) f x0 x L I Q :
  changed q0 q f x I L -> fds q0 !! f = Some x0 -> is_Some (SList.snodes (mod_list q0) !! f) ->
  (md x = true <-> f ∈ L) ->
  (forall q', changed q0 q' f (flags_or IOQ_FLAG_MOD_LIST x) I (enq f L) -> Q (bool_decide (L = [])) q') ->
  wp (mod_enqueue_nolock f) q Q.
Proof.
  intros [C1 C2 C3 C4 C5 C6 C7] Hf0 Hn Hmd HQ. unfold mod_enqueue_nolock.
  assert (fds q !! f = Some x) as Hf by by rewrite C1, lookup_insert_eq.
  wp_bind. apply (wp_get_fd _ x); [done|]. rewrite truth_mod. unfold enq in HQ. destruct (md x) eqn:Em.
  - assert (f ∈ L) as Hl by by apply Hmd. apply wp_ret. rewrite bool_decide_eq_false_2 in HQ by (intros ->; set_solver).
    rewrite decide_True in HQ by done. apply HQ. rewrite (flags_or_same x Em). by split.
  - assert (f ∉ L) as Hl by (intros Hx%Hmd; congruence). rewrite decide_False in HQ by done.
    wp_bind. apply wp_on_mods. eapply wp_mono; [by apply SList.wp_slist_is_empty|]. intros b l [-> ->].
    wp_bind. apply (wp_upd_fd _ _ x); [done|]. wp_bind. apply wp_on_mods.
    eapply wp_mono; [apply (SList.wp_slist_append _ L f); [done|done|by apply C4]|].
    intros [] l [Hl' Hx]. apply wp_ret, HQ. split; try done.
    + simpl. by rewrite C1, insert_insert_eq.
    + intros g Hg. simpl in *. destruct (decide (g ∈ f :: L)) as [Hin|Hni].
      * destruct Hl' as (_ & Hc & _). eapply SList.chain_dom; [exact Hc|]. set_solver.
      * rewrite Hx by done. by apply C4.
Qed.

Lemma changed_refl (q : ioq K) f x L : SList.is_slist (mod_list q) L -> fds q !! f = Some x ->
  changed q q f x (interest (kern q)) L.
Proof. intros Hl Hf. split; try done. by rewrite insert_id. Qed.

Lemma wp_change q0 (q : ioq K) f x u L I Q : changed q0 q f x I L ->
  (forall q', changed q0 q' f (u x) I L -> Q tt q') -> wp (upd_fd f u) q Q.
Proof.
  intros [C1 C2 C3 C4 C5 C6 C7] HQ. apply (wp_upd_fd _ _ x); [by rewrite C1, lookup_insert_eq|].
  apply HQ. split; try done. simpl. by rewrite C1, insert_insert_eq.
Qed.

Lemma wp_change_get q0 (q : ioq K) f x L I Q : changed q0 q f x I L -> Q x q -> wp (get_fd f) q Q.
Proof. intros C HQ. apply (wp_get_fd _ x); [by rewrite (ch_fds _ _ _ _ _ _ C), lookup_insert_eq|done]. Qed.

Lemma wp_ctl q0 (q : ioq K) op d ev p f x L I Q : changed q0 q f x I L ->
  (forall q' e I', changed q0 q' f x I' L ->
     match op with
     | EPOLL_CTL_DEL => I' = delete d I
     | _ => if decide (e = 0) then I' = <[d := (ev, p)]> I else I' = I
     end -> Q e q') ->
  wp (ctl op d ev p) q Q.
Proof.
  intros [C1 C2 C3 C4 C5 C6 C7] HQ. unfold ctl. wp_bind. apply wp_get.
  destruct (epoll_ctl op d ev p (kern q)) as [k e] eqn:E. wp_bind. apply wp_put, wp_ret.
  apply (HQ _ _ (interest k)); [by split|]. destruct op; [destruct (decide (e = 0)) as [->|Hne]..|].
  - rewrite (ctl_add _ _ _ _ _ E). by rewrite C2.
  - rewrite (ctl_fails _ _ _ _ _ _ _ E); done.
  - rewrite (ctl_mod _ _ _ _ _ E). by rewrite C2.
  - rewrite (ctl_fails _ _ _ _ _ _ _ E); done.
  - rewrite (ctl_del _ _ _ _ _ _ E). by rewrite C2.
Qed.

(** ** The operations *)
Lemma md_or x : md (flags_or IOQ_FLAG_MOD_LIST x) = true /\ ep (flags_or IOQ_FLAG_MOD_LIST x) = ep x /\
  wt (flags_or IOQ_FLAG_MOD_LIST x) = wt x.
Proof.
  destruct (flags_lor IOQ_FLAG_MOD_LIST x) as (-> & -> & ->).
  change (Z.testbit IOQ_FLAG_MOD_LIST 0) with true. change (Z.testbit IOQ_FLAG_MOD_LIST 1) with false.
  change (Z.testbit IOQ_FLAG_MOD_LIST 2) with false. by rewrite !orb_false_r, orb_true_r.
Qed.

Lemma clear_end x : let y := flags_clear (Z.lor IOQ_FLAG_EPOLL IOQ_FLAG_WAITING) x in
  md y = md x /\ ep y = false /\ wt y = false.
Proof.
  simpl. destruct (flags_ldiff (Z.lor IOQ_FLAG_EPOLL IOQ_FLAG_WAITING) x) as (-> & -> & ->).
  change (Z.testbit _ 0) with false. change (Z.testbit _ 1) with true. change (Z.testbit _ 2) with true.
  by rewrite !andb_false_r, andb_true_r.
Qed.

Lemma clear_mod x : let y := flags_clear IOQ_FLAG_MOD_LIST x in md y = false /\ ep y = ep x /\ wt y = wt x.
Proof.
  simpl. destruct (flags_ldiff IOQ_FLAG_MOD_LIST x) as (-> & -> & ->).
  change (Z.testbit _ 0) with true. change (Z.testbit _ 1) with false. change (Z.testbit _ 2) with false.
  by rewrite andb_false_r, !andb_true_r.
Qed.

Lemma or_epoll x : let y := flags_or IOQ_FLAG_EPOLL x in md y = md x /\ ep y = true /\ wt y = wt x.
Proof.
  simpl. destruct (flags_lor IOQ_FLAG_EPOLL x) as (-> & -> & ->).
  change (Z.testbit _ 0) with false. change (Z.testbit _ 1) with true. change (Z.testbit _ 2) with false.
  by rewrite !orb_false_r, orb_true_r.
Qed.

(** The wait of [f] is over, [f] is on its way to the run queue. *)
Definition ended (r : Z) (x : ioq_fd) : ioq_fd :=
  flags_or IOQ_FLAG_MOD_LIST (flags_clear (Z.lor IOQ_FLAG_EPOLL IOQ_FLAG_WAITING) (set_ready r x)).

Lemma ended_bits r x : md (ended r x) = true /\ ep (ended r x) = false /\ wt (ended r x) = false /\
  fd (ended r x) = fd x /\ requested (ended r x) = requested x.
Proof.
  unfold ended. destruct (md_or (flags_clear (Z.lor IOQ_FLAG_EPOLL IOQ_FLAG_WAITING) (set_ready r x))) as (-> & -> & ->).
  destruct (clear_end (set_ready r x)) as (_ & -> & ->). done.
Qed.

Lemma wp_do_event q f x L ev Q : SList.is_slist (mod_list q) L -> fds q !! f = Some x ->
  is_Some (SList.snodes (mod_list q) !! f) -> (md x = true <-> f ∈ L) ->
  (forall q', changed q q' f (ended ev x) (delete (fd x) (interest (kern q))) (enq f L) -> Q tt q') ->
  wp (do_event (ev, Some f)) q Q.
Proof.
  intros Hl Hf Hn Hmd HQ. unfold do_event. simpl.
  pose proof (changed_refl q f x L Hl Hf) as C0.
  wp_bind. apply (wp_change_get _ _ _ _ _ _ _ C0). wp_bind. apply (wp_ctl _ _ _ _ _ _ _ _ _ _ _ C0).
  intros q1 e I' C1 ->. wp_bind. apply (wp_change _ _ _ _ _ _ _ _ C1). intros q2 C2.
  wp_bind. apply (wp_change _ _ _ _ _ _ _ _ C2). intros q3 C3.
  wp_bind. eapply (wp_enqueue _ _ _ _ _ _ _ _ C3 Hf Hn); [by rewrite (proj1 (clear_end _))|].
  intros q4 C4. by apply wp_ret, HQ.
Qed.

Lemma wp_cancel_mod q f x L fl Q : SList.is_slist (mod_list q) L -> fds q !! f = Some x ->
  is_Some (SList.snodes (mod_list q) !! f) -> (md x = true <-> f ∈ L) -> Z.testbit fl 2 = true ->
  (forall q' I', changed q q' f (ended 0 x) I' (enq f L) ->
     I' = (if Z.testbit fl 1 then delete (fd x) (interest (kern q)) else interest (kern q)) -> Q tt q') ->
  wp (dispatch_mod f fl 0) q Q.
Proof.
  intros Hl Hf Hn Hmd Hw HQ. unfold dispatch_mod. rewrite truth_waiting, Hw. simpl. rewrite truth_epoll.
  pose proof (changed_refl q f x L Hl Hf) as C0.
  wp_bind. apply (wp_change_get _ _ _ _ _ _ _ C0). wp_bind.
  eapply wp_mono with (P := fun _ q1 => exists I', changed q q1 f x I' L /\
    I' = if Z.testbit fl 1 then delete (fd x) (interest (kern q)) else interest (kern q)).
  { destruct (Z.testbit fl 1).
    - wp_bind. apply (wp_ctl _ _ _ _ _ _ _ _ _ _ _ C0). intros q1 e I' C1 ->. apply wp_ret. eauto.
    - apply wp_ret. eauto. }
  intros [] q1 (I' & C1 & EI). wp_bind. apply (wp_change _ _ _ _ _ _ _ _ C1). intros q2 C2.
  wp_bind. apply (wp_change _ _ _ _ _ _ _ _ C2). intros q3 C3.
  wp_bind. eapply (wp_enqueue _ _ _ _ _ _ _ _ C3 Hf Hn); [by rewrite (proj1 (clear_end _))|].
  intros q4 C4. apply wp_ret. by eapply HQ.
Qed.

Lemma wp_register q f x L fl rq Q : SList.is_slist (mod_list q) L -> fds q !! f = Some x ->
  is_Some (SList.snodes (mod_list q) !! f) -> (md x = true <-> f ∈ L) -> Z.testbit fl 2 = true -> rq <> 0 ->
  (forall q', changed q q' f (flags_or IOQ_FLAG_EPOLL x) (<[fd x := (rq, Some f)]> (interest (kern q))) L -> Q tt q') ->
  (forall q' e, changed q q' f (flags_or IOQ_FLAG_MOD_LIST (set_requested 0 (set_err e x))) (interest (kern q)) (enq f L) ->
     e <> 0 -> Q tt q') ->
  wp (dispatch_mod f fl rq) q Q.
Proof.
  intros Hl Hf Hn Hmd Hw Hrq HQ1 HQ2. unfold dispatch_mod. rewrite truth_waiting, Hw.
  destruct (Z.eqb_spec rq 0); [done|]. cbn [negb]. pose proof (changed_refl q f x L Hl Hf) as C0.
  wp_bind. apply (wp_change_get _ _ _ _ _ _ _ C0). wp_bind. apply (wp_ctl _ _ _ _ _ _ _ _ _ _ _ C0).
  intros q1 e I' C1 HI. assert (if decide (e = 0) then I' = <[fd x := (rq, Some f)]> (interest (kern q)) else I' = interest (kern q)) as HI'
    by by destruct (truth _). clear HI. destruct (Z.eqb_spec e 0) as [->|He]; cbn [negb].
  - rewrite decide_True in HI' by done. subst I'. by apply (wp_change _ _ _ _ _ _ _ _ C1).
  - rewrite decide_False in HI' by done. subst I'. wp_bind. apply (wp_change _ _ _ _ _ _ _ _ C1). intros q2 C2.
    wp_bind. apply (wp_change _ _ _ _ _ _ _ _ C2). intros q3 C3.
    wp_bind. eapply (wp_enqueue _ _ _ _ _ _ _ _ C3 Hf Hn); [done|]. intros q4 C4. apply wp_ret. by eapply HQ2.
Qed.

(** Handing a task to the run queue. *)
Lemma wp_exec_task (q : ioq K) f x J Q : fds q !! f = Some x -> SList.is_slist (job_list (run q)) J -> f ∉ J ->
  is_Some (SList.snodes (job_list (run q)) !! f) ->
  (forall r, SList.is_slist (job_list r) (J ++ [f]) ->
     (forall g, is_Some (SList.snodes (job_list (run q)) !! g) -> is_Some (SList.snodes (job_list r) !! g)) ->
     func r !! f = Some (task_func x) -> Q tt (set_run r q)) ->
  wp (exec_task f) q Q.
Proof.
  intros Hf Hj Hn Hs HQ. unfold exec_task. wp_bind. apply (wp_get_fd _ x); [done|]. wp_bind.
  destruct (task_exec_spec _ _ f (task_func x) Hj Hn Hs) as (l & Hl & Hx & E).
  unfold wp, on_runq. rewrite E. apply (HQ (mk_runq l _ _ _ _)); simpl; [done| |by rewrite lookup_insert_eq].
  intros g Hg. destruct (decide (g ∈ f :: J)) as [Hin|Hni]; [|by rewrite Hx].
  destruct Hl as (_ & Hc & _). eapply SList.chain_dom; [exact Hc|]. set_solver.
Qed.

Lemma wp_mod_dequeue (q : ioq K) L Q : SList.is_slist (mod_list q) L ->
  (forall f, f ∈ L -> is_Some (fds q !! f)) ->
  (L = [] -> Q None q) ->
  (forall f L' x q', L = f :: L' -> fds q !! f = Some x ->
     changed q q' f (flags_clear IOQ_FLAG_MOD_LIST x) (interest (kern q)) L' ->
     Q (Some (f, flags (flags_clear IOQ_FLAG_MOD_LIST x), requested x)) q') ->
  wp mod_dequeue q Q.
Proof.
  intros Hl Hd HQ1 HQ2. unfold mod_dequeue. wp_bind. apply wp_on_mods.
  eapply wp_mono; [by apply SList.wp_slist_pop|]. intros n l (-> & Hl' & Hn). destruct L as [|f L']; simpl.
  - apply wp_ret. unfold set_mods. destruct q as [w ml i p F k]. simpl in *.
    assert (l = ml) as ->; [|by apply HQ1].
    destruct Hl as (_ & H1 & H2), Hl' as (_ & H3 & H4). destruct l, ml. simpl in *. congruence.
  - destruct (Hd f) as [x Hx]; [by left|]. wp_bind. apply (wp_upd_fd _ _ x); [done|].
    wp_bind. apply (wp_get_fd _ (flags_clear IOQ_FLAG_MOD_LIST x)); [simpl; by rewrite lookup_insert_eq|].
    apply wp_ret. apply (HQ2 f L' x); [done|done|]. split; try done. simpl. intros g. by rewrite Hn.
Qed.

Lemma wp_ioq_fd_wait (q : ioq K) f x L set fn Q : SList.is_slist (mod_list q) L -> fds q !! f = Some x ->
  is_Some (SList.snodes (mod_list q) !! f) -> f ∉ L -> set <> 0 ->
  (forall q', changed q q' f (flags_or IOQ_FLAG_MOD_LIST (mk_fd fn (fd x) 0 0 IOQ_FLAG_WAITING set)) (interest (kern q)) (L ++ [f]) ->
     Q (bool_decide (L = [])) q') ->
  wp (ioq_fd_wait f set fn) q Q.
Proof.
  intros Hl Hf Hn Hni Hs HQ. unfold ioq_fd_wait. pose proof (changed_refl q f x L Hl Hf) as C0.
  wp_bind. apply (wp_change _ _ _ _ _ _ _ _ C0). intros q1 C1. destruct (Z.eqb_spec set 0); [done|].
  eapply (wp_enqueue _ _ _ _ _ _ _ _ C1 Hf Hn).
  - unfold md. simpl. split; [done|]. intros ?. done.
  - unfold enq. rewrite decide_False by done. done.
Qed.

Lemma wp_ioq_fd_rewait (q : ioq K) f x L set Q : SList.is_slist (mod_list q) L -> fds q !! f = Some x ->
  is_Some (SList.snodes (mod_list q) !! f) -> (md x = true <-> f ∈ L) ->
  (wt x = false -> Q false q) ->
  (wt x = true -> forall q', changed q q' f (flags_or IOQ_FLAG_MOD_LIST (set_requested set x)) (interest (kern q)) (enq f L) ->
     Q (bool_decide (L = [])) q') ->
  wp (ioq_fd_rewait f set) q Q.
Proof.
  intros Hl Hf Hn Hmd HQ1 HQ2. unfold ioq_fd_rewait. pose proof (changed_refl q f x L Hl Hf) as C0.
  wp_bind. apply (wp_change_get _ _ _ _ _ _ _ C0). rewrite truth_waiting. change (Z.testbit (flags x) 2) with (wt x).
  destruct (wt x); [|by apply wp_ret, HQ1]. wp_bind. apply (wp_change _ _ _ _ _ _ _ _ C0). intros q1 C1.
  eapply (wp_enqueue _ _ _ _ _ _ _ _ C1 Hf Hn); [done|]. by apply HQ2.
Qed.
End step.
