(* ===== verification/IoqReach.v ===== *)
(** The invariant of the I/O queue holds in every state that its threads can
    reach; the dispatch loop can always go on; [dispatch_mods] ends. *)
From S2P Require Import Prelude Lists Runq RunqMain Waitq Ioq IoqInv IoqStep.

Section inv.
Context {K : Type} `{!Epoll K, !EpollLaws K}.

(** ** Building the invariant of the next state *)
Lemma io_inv_change (s : sys K) q' pc' n' w' B' ws' cs' L L' J f x x' I' :
  io_inv s L J -> fds (ioq_ s) !! f = Some x -> changed (ioq_ s) q' f x' I' L' -> fd x' = fd x ->
  alone (fds (ioq_ s)) (busy s) f x ->
  (forall g, g <> f -> (g ∈ L <-> g ∈ L') /\ (hand (lpc s) = Some g <-> hand pc' = Some g) /\ (g ∈ busy s <-> g ∈ B')) ->
  (forall d, d <> fd x -> I' !! d = interest (kern (ioq_ s)) !! d) ->
  (forall m g, I' !! fd x = Some (m, Some g) -> g = f /\ ep x' = true) ->
  fd_ok I' L' J (hand pc') B' f x' ->
  (forall g fl rq, pc' = LMod g fl rq -> exists y, <[f := x']> (fds (ioq_ s)) !! g = Some y /\
    Z.testbit fl 1 = ep y /\ Z.testbit fl 2 = wt y /\ (g ∉ L' -> rq = requested y)) ->
  (NoDup (omap snd (events pc')) /\ forall e g, e ∈ events pc' -> e.2 = Some g ->
    exists y, <[f := x']> (fds (ioq_ s)) !! g = Some y /\ ep y = true) ->
  (pc' = LRest \/ pc' = LWait -> L' <> [] -> (0 < n')%nat \/ intr_state (ioq_ s) = true) ->
  (intr_state (ioq_ s) = true -> (0 < pipe (ioq_ s))%nat \/ (0 < w')%nat \/ exists es, pc' = LReset es) ->
  (forall g, is_Some (fds (ioq_ s) !! g) -> count_occ Pos.eq_dec ws' g =
    (count_occ Pos.eq_dec cs' g + if decide (g ∈ B') then 1 else 0)%nat) ->
  io_inv (mk_sys q' pc' n' w' B' ws' cs') L' J.
Proof.
  intros [H1 H2 H3 H4 H5 H6 H7 H8 H9] Hf [C1 C2 C3 C4 C5 C6 C7] Ed Ha Ho HI HI' Hok Hh He Hw Hi Hc.
  assert (run q' = run (ioq_ s)) as ER by (unfold run; by rewrite C5).
  assert (forall g, is_Some (<[f := x']> (fds (ioq_ s)) !! g) <-> is_Some (fds (ioq_ s) !! g)) as HS.
  { intros g. destruct (decide (g = f)) as [->|]; [rewrite lookup_insert_eq, Hf; naive_solver|by rewrite lookup_insert_ne]. }
  split; simpl; rewrite ?ER, ?C1, ?C2, ?C6, ?C7; try done.
  - intros g [Hg1 Hg2]%HS%H3. split; [by apply C4|done].
  - eapply fds_ok_update; [exact H4|done|done|exact Ha| |done|done|done].
    intros g Hg. destruct (Ho g Hg) as (? & ? & ?). split_and!; done.
  - intros g Hg%HS. by apply Hc.
Qed.

(** No [ioq_fd] changes. *)
Lemma io_inv_same (s : sys K) q' pc' n' w' B' ws' cs' L J J' :
  io_inv s L J -> fds q' = fds (ioq_ s) -> mod_list q' = mod_list (ioq_ s) ->
  interest (kern q') = interest (kern (ioq_ s)) ->
  SList.is_slist (job_list (run q')) J' ->
  (forall g, is_Some (SList.snodes (job_list (run (ioq_ s))) !! g) -> is_Some (SList.snodes (job_list (run q')) !! g)) ->
  (forall g x, fds (ioq_ s) !! g = Some x -> fd_ok (interest (kern (ioq_ s))) L J (hand (lpc s)) (busy s) g x ->
     fd_ok (interest (kern (ioq_ s))) L J' (hand pc') B' g x) ->
  (forall g, g ∈ B' -> g ∈ busy s) ->
  (forall g fl rq, pc' = LMod g fl rq -> lpc s = LMod g fl rq) ->
  (NoDup (omap snd (events pc')) /\ forall e g, e ∈ events pc' -> e.2 = Some g ->
    exists y, fds (ioq_ s) !! g = Some y /\ ep y = true) ->
  (pc' = LRest \/ pc' = LWait -> L <> [] -> (0 < n')%nat \/ intr_state q' = true) ->
  (intr_state q' = true -> (0 < pipe q')%nat \/ (0 < w')%nat \/ exists es, pc' = LReset es) ->
  (forall g, is_Some (fds (ioq_ s) !! g) -> count_occ Pos.eq_dec ws' g =
    (count_occ Pos.eq_dec cs' g + if decide (g ∈ B') then 1 else 0)%nat) ->
  io_inv (mk_sys q' pc' n' w' B' ws' cs') L J'.
Proof.
  intros [H1 H2 H3 H4 H5 H6 H7 H8 H9] EF EM EI HJ HN Hok HB Hh He Hw Hi Hc. destruct H4.
  split; simpl; rewrite ?EF, ?EM, ?EI; try done.
  - intros g [Hg1 Hg2]%H3. split; [done|by apply HN].
  - split; try done; eauto. intros g x HBg Hg g2 y Hne HBg2. by apply (fs_inj g x); [apply HB|..|apply HB].
  - intros g fl rq Hp%Hh. by apply H5.
Qed.

Lemma same_ok h h' B' (s : sys K) L J : h' = h -> B' = busy s -> forall g x, fds (ioq_ s) !! g = Some x ->
  fd_ok (interest (kern (ioq_ s))) L J h (busy s) g x -> fd_ok (interest (kern (ioq_ s))) L J h' B' g x.
Proof. by intros -> ->. Qed.

(** What epoll reports is registered, each descriptor once. *)
Lemma reported_ok F I L J h B t (k k' : K) es : fds_ok F I L J h B -> interest k = I ->
  epoll_wait t k = (k', inr es) ->
  NoDup (omap snd es) /\ forall e g, e ∈ es -> e.2 = Some g -> exists x, F !! g = Some x /\ ep x = true.
Proof.
  intros [] <- E. destruct (wait_events _ _ _ _ E) as (ds & Hnd & Hf).
  assert (forall e g, e ∈ es -> e.2 = Some g -> exists d m, d ∈ ds /\ interest k !! d = Some (m, Some g)) as Hin.
  { intros e g He Hg. apply list_elem_of_lookup in He as [i Hi].
    destruct (Forall2_lookup_r _ _ _ _ _ Hf Hi) as (d & Hd & m & Hm & _). rewrite Hg in Hm.
    exists d, m. split; [by eapply list_elem_of_lookup_2|done]. }
  split.
  - clear E. induction Hf as [|d e ds es (m & Hm & _) Hf IH]; [constructor|].
    apply NoDup_cons in Hnd as [Hd Hnd]. assert (NoDup (omap snd es)) as IH'.
    { apply IH; [done|]. intros e' g He' Hg. apply list_elem_of_lookup in He' as [i Hi].
      destruct (Forall2_lookup_r _ _ _ _ _ Hf Hi) as (d' & Hd' & m' & Hm' & _). rewrite Hg in Hm'.
      exists d', m'. split; [by eapply list_elem_of_lookup_2|done]. }
    simpl. destruct (snd e) as [g|] eqn:Eg; [|done]. constructor; [|done].
    intros (e' & He' & Hg')%list_elem_of_omap. apply list_elem_of_lookup in He' as [i Hi].
    destruct (Forall2_lookup_r _ _ _ _ _ Hf Hi) as (d' & Hd' & m' & Hm' & _). rewrite Hg' in Hm'.
    destruct (fs_int _ _ _ Hm) as (x & Hx & <- & _). destruct (fs_int _ _ _ Hm') as (y & Hy & <- & _).
    apply Hd. assert (x = y) as -> by congruence. by eapply list_elem_of_lookup_2.
  - intros e g He Hg. destruct (Hin e g He Hg) as (d & m & _ & Hd). destruct (fs_int _ _ _ Hd) as (x & ? & _ & ?). eauto.
Qed.

Lemma not_registered F I L J h B f x m g : fds_ok F I L J h B -> F !! f = Some x -> alone F B f x ->
  I !! fd x = Some (m, Some g) -> g = f /\ ep x = true.
Proof.
  intros [] Hf Ha Hd. destruct (fs_int _ _ _ Hd) as (y & Hy & Ed & He).
  assert (g ∈ B) as HB. { destruct (fs_ok g y Hy) as [_ Fep Fwt _ _ _]. by apply Fwt, Fep. }
  destruct (decide (g = f)) as [->|Hne]; [|by destruct (Ha g y)]. split; [done|]. congruence.
Qed.

(** ** The loop *)
Lemma inv_event (s : sys K) q L J e es : io_inv s L J -> lpc s = LEvents (e :: es) -> do_event e (ioq_ s) = Ok (q, tt) ->
  exists L', io_inv (loop_to q (LEvents es) s) L' J.
Proof.
  intros H Hpc E. pose proof H as [H1 H2 H3 H4 H5 [Hnd Hev] H7 H8 H9]. rewrite Hpc in *. simpl in Hnd, Hev.
  destruct e as [ev [f|]]; simpl in Hnd.
  - apply NoDup_cons in Hnd as [Hf Hnd]. destruct (Hev (ev, Some f) f) as (x & Hx & Hep); [by left|done|].
    pose proof (fs_ok _ _ _ _ _ _ H4 f x Hx) as [Fmd Fep Fwt Freg Fdone Fonce].
    destruct (Fep Hep) as [Hwt _]. destruct (Fwt Hwt) as [HB HJ]. destruct (H3 f) as [Hn _]; [eauto|].
    pose proof (fs_inj _ _ _ _ _ _ H4 f x HB Hx) as Ha.
    pose proof (wp_do_event (ioq_ s) f x L ev (fun _ q' => changed (ioq_ s) q' f (ended ev x)
      (delete (fd x) (interest (kern (ioq_ s)))) (enq f L)) H1 Hx Hn Fmd (fun q' C => C)) as Hw.
    unfold wp in Hw. rewrite E in Hw. exists (enq f L). destruct (ended_bits ev x) as (B1 & B2 & B3 & B4 & B5).
    eapply io_inv_change; [exact H|exact Hx|exact Hw|done|exact Ha|..].
    + intros g Hg. rewrite Hpc, elem_of_enq. simpl. split_and!; naive_solver.
    + intros d Hd. by rewrite lookup_delete_ne.
    + intros m g. by rewrite lookup_delete_eq.
    + split; rewrite ?B1, ?B2, ?B3, ?elem_of_enq; simpl; try done; naive_solver.
    + done.
    + split; [done|]. intros e' g He' Hg. destruct (Hev e' g) as (y & Hy & Hey); [by right|done|].
      exists y. split; [|done]. rewrite lookup_insert_ne; [done|]. intros <-. apply Hf.
      apply list_elem_of_omap. eauto.
    + by intros [?|?].
    + intros Hi. destruct (H8 Hi) as [?|[?|[? ?]]]; [auto|auto|done].
    + done.
  - unfold do_event in E. simpl in E. injection E as <-. exists L.
    eapply io_inv_same; [exact H|done..| | | | | | |done]; simpl.
    + eapply same_ok; [by rewrite Hpc|done].
    + done.
    + done.
    + split; [done|]. intros e' g He' Hg. apply (Hev e' g); [by right|done].
    + by intros [?|?].
    + intros Hi. destruct (H8 Hi) as [?|[?|[? ?]]]; [auto|auto|done].
Qed.

Lemma inv_dequeue (s : sys K) q L J r : io_inv s L J -> lpc s = LMods -> mod_dequeue (ioq_ s) = Ok (q, r) ->
  exists L', io_inv (loop_to q (match r with Some (f, fl, rq) => LMod f fl rq | None => LRest end) s) L' J.
Proof.
  intros H Hpc E. pose proof H as [H1 H2 H3 H4 H5 H6 H7 H8 H9]. rewrite Hpc in *.
  assert (intr_state (ioq_ s) = true -> (0 < pipe (ioq_ s))%nat \/ (0 < writing s)%nat) as Hi.
  { intros Hi. destruct (H8 Hi) as [?|[?|[? ?]]]; [auto|auto|done]. }
  pose proof (wp_mod_dequeue (ioq_ s) L (fun r q => exists L', io_inv (loop_to q
    (match r with Some (f, fl, rq) => LMod f fl rq | None => LRest end) s) L' J) H1) as Hw.
  unfold wp in Hw. rewrite E in Hw. apply Hw; clear Hw.
  - intros f. apply (fs_mods _ _ _ _ _ _ H4).
  - intros ->. exists []. eapply io_inv_same; [exact H|done..| | | | | | |done]; simpl; [eapply same_ok; [by rewrite Hpc|done]|done|done| |done|intros Hi'; destruct (Hi Hi'); auto].
    split; [constructor|]. intros e g He. set_solver.
  - intros f L' x q' -> Hx C. exists L'.
    pose proof (fs_ok _ _ _ _ _ _ H4 f x Hx) as [Fmd Fep Fwt Freg Fdone Fonce].
    assert (f ∈ busy s) as HB by (destruct (wt x); [by apply Fwt|apply Fdone; [done|by left; left]]).
    pose proof (fs_inj _ _ _ _ _ _ H4 f x HB Hx) as Ha.
    destruct (clear_mod x) as (B1 & B2 & B3). destruct H1 as [Hnd _]. apply NoDup_cons in Hnd as [Hnf Hnd].
    eapply io_inv_change; [exact H|exact Hx|exact C|done|exact Ha|..]; simpl.
    + intros g Hg. rewrite Hpc. simpl. split_and!; set_solver.
    + done.
    + intros m g Hd. destruct (not_registered _ _ _ _ _ _ _ _ _ _ H4 Hx Ha Hd) as [-> He]. by rewrite B2.
    + split; rewrite ?B1, ?B2, ?B3; simpl; [naive_solver|done|done| | |].
      * intros _ _ Hne. done.
      * intros Hw. specialize (Fdone Hw). set_solver.
      * intros Hw. specialize (Fonce Hw). set_solver.
    + intros g fl rq [= <- <- <-]. exists (flags_clear IOQ_FLAG_MOD_LIST x). by rewrite lookup_insert_eq.
    + split; [constructor|]. intros e g He. set_solver.
    + by intros [?|?].
    + intros Hi'. destruct (Hi Hi'); auto.
    + done.
Qed.

Lemma inv_mod (s : sys K) q L J f fl rq : io_inv s L J -> lpc s = LMod f fl rq ->
  dispatch_mod f fl rq (ioq_ s) = Ok (q, tt) -> exists L' J', io_inv (loop_to q LMods s) L' J'.
Proof.
  intros H Hpc E. pose proof H as [H1 H2 H3 H4 H5 H6 H7 H8 H9]. rewrite Hpc in *.
  destruct (H5 f fl rq eq_refl) as (x & Hx & E1 & E2 & Erq). simpl in H4.
  pose proof (fs_ok _ _ _ _ _ _ H4 f x Hx) as [Fmd Fep Fwt Freg Fdone Fonce].
  destruct (H3 f) as [Hn Hnj]; [eauto|].
  assert (forall g, g <> f -> (hand (lpc s) = Some g <-> hand LMods = Some g)) as Hhand.
  { intros g Hg. rewrite Hpc. simpl. naive_solver. }
  assert (NoDup (omap snd (events LMods)) /\ forall (F : gmap positive ioq_fd) e (g : positive), e ∈ events LMods -> e.2 = Some g ->
    exists y : ioq_fd, F !! g = Some y /\ ep y = true) as [Hev1 Hev2].
  { split; [constructor|]. intros F e g He. simpl in He. set_solver. }
  assert (intr_state (ioq_ s) = true -> (0 < pipe (ioq_ s))%nat \/ (0 < writing s)%nat \/ exists es, LMods = LReset es) as Hi.
  { intros Hi. destruct (H8 Hi) as [?|[?|[? ?]]]; [auto|auto|done]. }
  set (Post q' := exists L' J', io_inv (loop_to q' LMods s) L' J').
  assert (wp (dispatch_mod f fl rq) (ioq_ s) (fun _ q' => Post q')) as Hw; [|unfold wp in Hw; by rewrite E in Hw].
  destruct (wt x) eqn:Hwt.
  - destruct (Fwt eq_refl) as [HB HJ]. pose proof (fs_inj _ _ _ _ _ _ H4 f x HB Hx) as Ha. destruct (decide (rq = 0)) as [->|Hrq].
    + eapply wp_cancel_mod; [exact H1|exact Hx|exact Hn|exact Fmd|done|]. intros q' I' C EI. exists (enq f L), J.
      destruct (ended_bits 0 x) as (B1 & B2 & B3 & B4 & B5). rewrite E1 in EI.
      eapply io_inv_change; [exact H|exact Hx|exact C|done|exact Ha|..|exact Hi|done]; try done.
      * intros g Hg. rewrite elem_of_enq. split; [naive_solver|]. split; [by apply Hhand|done].
      * intros d Hd. rewrite EI. destruct (ep x); [by rewrite lookup_delete_ne|done].
      * intros m g. rewrite EI. destruct (ep x) eqn:Hep; [by rewrite lookup_delete_eq|].
        intros Hd. destruct (not_registered _ _ _ _ _ _ _ _ _ _ H4 Hx Ha Hd) as [_ He]. congruence.
      * split; rewrite ?B1, ?B2, ?B3, ?elem_of_enq; simpl; try done; naive_solver.
      * split; [done|]. intros e g. by apply Hev2.
      * by intros [?|?].
    + eapply wp_register; [exact H1|exact Hx|exact Hn|exact Fmd|done|done|..].
      * intros q' C. exists L, J. destruct (or_epoll x) as (B1 & B2 & B3).
        eapply io_inv_change; [exact H|exact Hx|exact C|done|exact Ha|..|exact Hi|done]; try done.
        -- intros g Hg. split; [done|]. split; [by apply Hhand|done].
        -- intros d Hd. by rewrite lookup_insert_ne.
        -- intros m g. rewrite lookup_insert_eq. intros [= <- <-]. done.
        -- split; rewrite ?B1, ?B2, ?B3, ?Hwt; try done.
           ++ intros _. split; [done|]. exists rq. by rewrite lookup_insert_eq.
           ++ intros _ Hl _. rewrite (Erq Hl) in *. split_and!; [done|done|]. by rewrite lookup_insert_eq.
        -- split; [done|]. intros e g. by apply Hev2.
        -- by intros [?|?].
      * intros q' e C He. exists (enq f L), J. set (x' := set_requested 0 (set_err e x)) in *.
        destruct (md_or x') as (B1 & B2 & B3). change (ep x') with (ep x) in B2. change (wt x') with (wt x) in B3.
        eapply io_inv_change; [exact H|exact Hx|exact C|done|exact Ha|..|exact Hi|done]; try done.
        -- intros g Hg. rewrite elem_of_enq. split; [naive_solver|]. split; [by apply Hhand|done].
        -- intros m g Hd. destruct (not_registered _ _ _ _ _ _ _ _ _ _ H4 Hx Ha Hd) as [-> Hep]. by rewrite B2.
        -- split; rewrite ?B1, ?B2, ?B3, ?Hwt, ?elem_of_enq; try done; naive_solver.
        -- split; [done|]. intros e' g. by apply Hev2.
        -- by intros [?|?].
  - destruct (Fonce eq_refl) as (N1 & N2 & N3). specialize (Fdone eq_refl).
    unfold dispatch_mod. rewrite truth_waiting, E2. cbn [negb].
    assert (f ∉ J) as HJ by tauto. eapply wp_exec_task; [exact Hx|exact H2|exact HJ|exact Hnj|].
    intros r Hr Hns _. exists L, (J ++ [f]). eapply io_inv_same; [exact H|done..|exact Hr|exact Hns| |done|done| | |done|done].
    + intros g y Hg Hok. simpl. destruct (decide (g = f)) as [->|Hne].
      * assert (y = x) as -> by congruence. destruct Hok. split; try done; rewrite ?Hwt; try done; set_solver.
      * eapply fd_ok_frame; [..|exact Hok]; try done; [set_solver|by apply Hhand].
    + split; [done|]. intros e g. by apply Hev2.
    + by intros [?|?].
Qed.

Lemma inv_loop (s s' : sys K) L J : io_inv s L J -> loop_step s s' -> exists L' J', io_inv s' L' J'.
Proof.
  intros H Hs. pose proof H as [H1 H2 H3 H4 H5 H6 H7 H8 H9].
  destruct Hs as [s t k es Hpc E|s t k Hpc E|s t k e Hpc E He|s q es Hpc E|s q es Hpc E|s q e es Hpc E|s Hpc
    |s q f fl rq Hpc E|s q Hpc E|s q f fl rq Hpc E|s Hpc]; rewrite Hpc in *.
  - exists L, J. pose proof (wait_interest _ _ _ _ E) as EI.
    eapply io_inv_same; [exact H|done|done|exact EI|exact H2|done| | | | | | |done]; simpl.
    + eapply same_ok; [by rewrite Hpc|done].
    + done.
    + done.
    + exact (reported_ok _ _ _ _ _ _ _ _ _ _ H4 eq_refl E).
    + by intros [?|?].
    + intros Hi. destruct (H8 Hi) as [?|[?|[? ?]]]; [auto|auto|done].
  - exists L, J. pose proof (wait_interest _ _ _ _ E) as EI.
    eapply io_inv_same; [exact H|done|done|exact EI|exact H2|done| | | | | | |done]; simpl.
    + eapply same_ok; [by rewrite Hpc|done].
    + done.
    + done.
    + done.
    + by intros [?|?].
    + intros Hi. destruct (H8 Hi) as [?|[?|[? ?]]]; [auto|auto|done].
  - exists L, J. pose proof (wait_interest _ _ _ _ E) as EI.
    eapply io_inv_same; [exact H|done|done|exact EI|exact H2|done| | | | | | |done]; simpl.
    + eapply same_ok; [by rewrite Hpc|done].
    + done.
    + done.
    + done.
    + auto.
    + intros Hi. destruct (H8 Hi) as [?|[?|[? ?]]]; [auto|auto|done].
  - exists L, J. injection E as <-. eapply io_inv_same; [exact H|done..| | | | | | |done]; simpl.
    + eapply same_ok; [by rewrite Hpc|done].
    + done.
    + done.
    + done.
    + by intros [?|?].
    + eauto.
  - exists L, J. injection E as <-. eapply io_inv_same; [exact H|done..| | | | | | |done]; simpl.
    + eapply same_ok; [by rewrite Hpc|done].
    + done.
    + done.
    + done.
    + by intros [?|?].
    + done.
  - destruct (inv_event s q L J e es H Hpc E) as [L' ?]. eauto.
  - exists L, J. eapply io_inv_same; [exact H|done..| | | | | | |done]; simpl.
    + eapply same_ok; [by rewrite Hpc|done].
    + done.
    + done.
    + done.
    + by intros [?|?].
    + intros Hi. destruct (H8 Hi) as [?|[?|[? ?]]]; [auto|auto|done].
  - destruct (inv_dequeue s q L J _ H Hpc E) as [L' ?]. eauto.
  - destruct (inv_dequeue s q L J _ H Hpc E) as [L' ?]. eauto.
  - by eapply inv_mod.
  - exists L, J. eapply io_inv_same; [exact H|done..| | | | | | |done]; simpl.
    + eapply same_ok; [by rewrite Hpc|done].
    + done.
    + done.
    + done.
    + auto.
    + intros Hi. destruct (H8 Hi) as [?|[?|[? ?]]]; [auto|auto|done].
Qed.
(** ** The clients *)

(** What does not move the loop keeps what is said of its events and hand. *)
Lemma keep_events (s : sys K) L J f x x' : io_inv s L J -> fds (ioq_ s) !! f = Some x -> ep x' = ep x ->
  NoDup (omap snd (events (lpc s))) /\ forall e g, e ∈ events (lpc s) -> e.2 = Some g ->
    exists y, <[f := x']> (fds (ioq_ s)) !! g = Some y /\ ep y = true.
Proof.
  intros [H1 H2 H3 H4 H5 [H6 H7] _ _ _] Hf He. split; [done|]. intros e g Hin Hg.
  destruct (H7 e g Hin Hg) as (y & Hy & Hey). destruct (decide (g = f)) as [->|Hne].
  - exists x'. rewrite lookup_insert_eq. split; [done|]. congruence.
  - exists y. by rewrite lookup_insert_ne.
Qed.

Lemma b2n_pos n b : b = true -> (0 < n + b2n b)%nat.
Proof. intros ->. simpl. lia. Qed.

Lemma inv_wait_begin (s : sys K) L J f x set fn q w : io_inv s L J -> fds (ioq_ s) !! f = Some x -> f ∉ busy s ->
  alone (fds (ioq_ s)) (busy s) f x -> set <> 0 -> ioq_fd_wait f set fn (ioq_ s) = Ok (q, w) ->
  exists L', io_inv (mk_sys q (lpc s) (notifying s + b2n w) (writing s) ({[f]} ∪ busy s) (waits s ++ [f]) (called s)) L' J.
Proof.
  intros H Hx Hb Ha Hset E. pose proof H as [H1 H2 H3 H4 H5 H6 H7 H8 H9].
  pose proof (fs_ok _ _ _ _ _ _ H4 f x Hx) as [Fmd Fep Fwt Freg Fdone Fonce].
  destruct (H3 f) as [Hn _]; [eauto|].
  assert (wt x = false) as Hwt by (destruct (wt x); [by destruct (Fwt eq_refl)|done]).
  assert (ep x = false) as Hep by (destruct (ep x); [destruct (Fep eq_refl); congruence|done]).
  specialize (Fdone Hwt). assert (f ∉ L /\ hand (lpc s) <> Some f /\ f ∉ J) as (HL & Hh & HJ) by tauto.
  set (x' := flags_or IOQ_FLAG_MOD_LIST (mk_fd fn (fd x) 0 0 IOQ_FLAG_WAITING set)).
  assert (md x' = true /\ ep x' = false /\ wt x' = true) as (B1 & B2 & B3) by done.
  exists (L ++ [f]).
  pose proof (wp_ioq_fd_wait (ioq_ s) f x L set fn (fun w q => io_inv (mk_sys q (lpc s) (notifying s + b2n w) (writing s)
    ({[f]} ∪ busy s) (waits s ++ [f]) (called s)) (L ++ [f]) J) H1 Hx Hn HL Hset) as Hw.
  unfold wp in Hw. rewrite E in Hw. apply Hw; clear Hw q w E. intros q C. fold x' in C.
  eapply io_inv_change; [exact H|exact Hx|exact C|done|exact Ha|..].
  - intros g Hg. split; [set_solver|]. split; [done|set_solver].
  - done.
  - intros m g Hd. destruct (not_registered _ _ _ _ _ _ _ _ _ _ H4 Hx Ha Hd). congruence.
  - split; rewrite ?B1, ?B2, ?B3; try done; set_solver.
  - intros g fl rq Hp. rewrite Hp in Hh. simpl in Hh. destruct (H5 g fl rq Hp) as (y & Hy & Hy1 & Hy2 & Hy3).
    exists y. rewrite lookup_insert_ne by congruence. split_and!; [done..|]. intros Hg. apply Hy3. set_solver.
  - split; [apply H6|]. intros e g He Hg. destruct (proj2 H6 e g He Hg) as (y & Hy & Hey). exists y. split; [|done].
    rewrite lookup_insert_ne; [done|]. intros <-. congruence.
  - intros Hp _. destruct (decide (L = [])) as [->|HL'].
    + left. by apply b2n_pos.
    + destruct (H7 Hp HL'); [left; lia|by right].
  - done.
  - intros g Hg. specialize (H9 g Hg). rewrite count_occ_app, H9. simpl. destruct (Pos.eq_dec f g) as [<-|Hne].
    + rewrite (decide_False (P := f ∈ busy s)) by done. rewrite decide_True by set_solver. lia.
    + destruct (decide (g ∈ busy s)); [rewrite decide_True by set_solver|rewrite decide_False by set_solver]; lia.
Qed.

Lemma inv_rewait (s : sys K) L J f set q w : io_inv s L J -> is_Some (fds (ioq_ s) !! f) ->
  ioq_fd_rewait f set (ioq_ s) = Ok (q, w) ->
  exists L', io_inv (mk_sys q (lpc s) (notifying s + b2n w) (writing s) (busy s) (waits s) (called s)) L' J.
Proof.
  intros H [x Hx] E. pose proof H as [H1 H2 H3 H4 H5 H6 H7 H8 H9].
  pose proof (fs_ok _ _ _ _ _ _ H4 f x Hx) as [Fmd Fep Fwt Freg Fdone Fonce].
  destruct (H3 f) as [Hn _]; [eauto|].
  pose proof (wp_ioq_fd_rewait (ioq_ s) f x L set (fun w q => exists L', io_inv (mk_sys q (lpc s) (notifying s + b2n w)
    (writing s) (busy s) (waits s) (called s)) L' J) H1 Hx Hn Fmd) as Hw.
  unfold wp in Hw. rewrite E in Hw. apply Hw; clear Hw q w E.
  - intros _. exists L. simpl. rewrite Nat.add_0_r. by destruct s.
  - intros Hwt q C. exists (enq f L). set (x0 := set_requested set x) in *.
    destruct (md_or x0) as (B1 & B2 & B3). change (ep x0) with (ep x) in B2. change (wt x0) with (wt x) in B3.
    destruct (Fwt Hwt) as [HB HJ]. pose proof (fs_inj _ _ _ _ _ _ H4 f x HB Hx) as Ha.
    eapply io_inv_change; [exact H|exact Hx|exact C|done|exact Ha|..].
    + intros g Hg. rewrite elem_of_enq. split; [naive_solver|done].
    + done.
    + intros m g Hd. destruct (not_registered _ _ _ _ _ _ _ _ _ _ H4 Hx Ha Hd). by rewrite B2.
    + split; rewrite ?B1, ?B2, ?B3, ?Hwt, ?elem_of_enq; try done; naive_solver.
    + intros g fl rq Hp. destruct (H5 g fl rq Hp) as (y & Hy & Hy1 & Hy2 & Hy3).
      destruct (decide (g = f)) as [->|Hne].
      * exists (flags_or IOQ_FLAG_MOD_LIST x0). rewrite lookup_insert_eq, B2, B3. assert (y = x) as -> by congruence.
        split_and!; [done..|]. rewrite elem_of_enq. naive_solver.
      * exists y. rewrite lookup_insert_ne by done. split_and!; [done..|]. rewrite elem_of_enq. naive_solver.
    + eapply keep_events; [exact H|exact Hx|done].
    + intros Hp _. destruct (decide (L = [])) as [->|HL'].
      * left. by apply b2n_pos.
      * destruct (H7 Hp HL'); [left; lia|by right].
    + done.
    + done.
Qed.

Lemma inv_call (s : sys K) L J r f : io_inv s L J -> run_one (run (ioq_ s)) = Ok (r, (1, Some f)) ->
  exists J', J = f :: J' /\ (is_Some (fds (ioq_ s) !! f) -> f ∈ busy s) /\
    io_inv (mk_sys (set_run r (ioq_ s)) (lpc s) (notifying s) (writing s) (busy s ∖ {[f]}) (waits s) (called s ++ [f])) L J'.
Proof.
  intros H E. pose proof H as [H1 H2 H3 H4 H5 H6 H7 H8 H9].
  destruct (run_one_spec _ _ H2) as (l & Hl & Hns & E'). rewrite E in E'.
  destruct (quit_request (run (ioq_ s))); [done|]. destruct J as [|g J']; [done|]. injection E' as -> <-.
  exists J'. split; [done|]. destruct H2 as [Hnd _]. apply NoDup_cons in Hnd as [Hnf Hnd].
  assert (is_Some (fds (ioq_ s) !! f) -> f ∈ busy s) as Hbusy.
  { intros [x Hx]. pose proof (fs_ok _ _ _ _ _ _ H4 f x Hx) as [_ _ Fwt _ Fdone _].
    destruct (wt x); [apply Fwt; done|]. apply Fdone; [done|]. right. right. by left. }
  split; [done|]. eapply io_inv_same; [exact H|done..|exact Hl| | | | |done|done|done|]; simpl.
  - intros g Hg. by rewrite Hns.
  - intros g x Hx Hok. destruct (decide (g = f)) as [->|Hne].
    + destruct Hok as [Fmd Fep Fwt Freg Fdone Fonce]. assert (wt x = false) as Hwt.
      { destruct (wt x); [|done]. destruct (Fwt eq_refl) as [_ Hn]. destruct Hn. by left. }
      specialize (Fonce Hwt). split; rewrite ?Hwt; try done; set_solver.
    + eapply fd_ok_frame; [..|exact Hok]; try done; set_solver.
  - set_solver.
  - done.
  - intros g Hg. specialize (H9 g Hg). rewrite H9, count_occ_app. simpl. destruct (Pos.eq_dec f g) as [<-|Hne].
    + rewrite (decide_True (P := f ∈ busy s)) by auto. rewrite decide_False by set_solver. lia.
    + destruct (decide (g ∈ busy s)); [rewrite decide_True by set_solver|rewrite decide_False by set_solver]; lia.
Qed.

(** An [ioq_fd] without a wait is changed, and stays without. *)
Lemma inv_idle (s : sys K) L J f x x' : io_inv s L J -> fds (ioq_ s) !! f = Some x -> f ∉ busy s ->
  flags x' = flags x \/ flags x' = 0 ->
  io_inv (mk_sys (set_fds (<[f := x']> (fds (ioq_ s))) (ioq_ s)) (lpc s) (notifying s) (writing s) (busy s) (waits s) (called s)) L J.
Proof.
  intros [H1 H2 H3 [] H5 [H6 H6'] H7 H8 H9] Hx Hb Hfl.
  destruct (fs_ok f x Hx) as [Fmd Fep Fwt Freg Fdone Fonce].
  assert (wt x = false) as Ew by (destruct (wt x); [by destruct (Fwt eq_refl)|done]).
  assert (ep x = false) as Ee by (destruct (ep x); [destruct (Fep eq_refl); congruence|done]).
  specialize (Fdone Ew).
  assert (f ∉ L /\ hand (lpc s) <> Some f /\ f ∉ J) as (HL & Hh & HJ) by tauto.
  assert (md x = false) as Em by (destruct (md x); [by destruct HL; apply Fmd|done]).
  assert (md x' = false /\ ep x' = false /\ wt x' = false) as (E1 & E2 & E3).
  { unfold md, ep, wt in *. destruct Hfl as [->| ->]; [done|]. by rewrite !Z.bits_0. }
  assert (forall g y, <[f := x']> (fds (ioq_ s)) !! g = Some y -> is_Some (fds (ioq_ s) !! g)) as Hback.
  { intros g y [[<- <-]|[_ ?]]%lookup_insert_Some; eauto. }
  assert (forall g, g ∈ busy s -> <[f := x']> (fds (ioq_ s)) !! g = fds (ioq_ s) !! g) as Hne.
  { intros g Hg. apply lookup_insert_ne. by intros <-. }
  split; simpl; try done.
  - intros g [y Hy%Hback]. by apply H3.
  - split.
    + intros g y [[<- <-]|[_ ?]]%lookup_insert_Some; [|by apply fs_ok].
      split; rewrite ?E1, ?E2, ?E3; try done; tauto.
    + intros g y HB. rewrite Hne by done. intros Hg g2 y2 Hn HB2. rewrite Hne by done. by apply (fs_inj g y HB Hg).
    + intros d' m g Hg. destruct (fs_int d' m g Hg) as (y & Hy & Ey & Ep). exists y. rewrite lookup_insert_ne; [done|].
      intros <-. congruence.
    + intros g Hg. destruct (decide (g = f)) as [->|]; [done|]. rewrite lookup_insert_ne by done. by apply fs_mods.
    + intros g Hg. rewrite Hne by done. by apply fs_busy.
  - intros g fl rq Hg. rewrite lookup_insert_ne by (intros <-; by rewrite Hg in Hh). by apply H5.
  - split; [done|]. intros e g He Hg. destruct (H6' e g He Hg) as (y & Hy & Ey). exists y.
    rewrite lookup_insert_ne; [done|]. intros <-. congruence.
  - intros g [y Hy%Hback]. by apply H9.
Qed.

Lemma inv_client (s s' : sys K) L J : io_inv s L J -> client_step s s' -> exists L' J', io_inv s' L' J'.
Proof.
  intros H Hs. pose proof H as [H1 H2 H3 H4 H5 H6 H7 H8 H9].
  destruct Hs as [s f x set fn q w Hx Hb Ha Hset E|s f set q w Hf E|s f d q [x Hx] Hb E|s f d q [x Hx] Hb E|s|s n q w En E|s n q En E|s r f E|s t f r b Ht Hns Hni E
    |s w Hw|s k Hk].
  - destruct (inv_wait_begin s L J f x set fn q w H Hx Hb Ha Hset E) as [L' ?]. eauto.
  - destruct (inv_rewait s L J f set q w H Hf E) as [L' ?]. eauto.
  - exists L, J. injection E as <-. eapply inv_idle; [done|exact Hx|done|by right].
  - exists L, J. unfold ioq_fd_set_fd, upd_fd, get_fd, bind, get, need in E. rewrite Hx in E. injection E as <-.
    eapply inv_idle; [done|exact Hx|done|by left].
  - exists L, J. eapply io_inv_same; [exact H|done..|by apply same_ok|done|done|done| |done|done]. left. lia.
  - exists L, J. injection E as <- <-. eapply io_inv_same; [exact H|done..|by apply same_ok|done|done|done| | |done]; simpl; [by right|].
    intros _. destruct (intr_state (ioq_ s)) eqn:Ei; simpl; [|right; left; lia].
    destruct (H8 eq_refl) as [?|[?|?]]; [auto|right; left; lia|auto].
  - exists L, J. injection E as <-. eapply io_inv_same; [exact H|done..|by apply same_ok|done|done|done|done| |done]; simpl.
    intros _. left. lia.
  - destruct (inv_call s L J r f H E) as (J' & _ & _ & ?). eauto.
  - exists L, (J ++ [t]). destruct (task_exec_spec _ _ t f H2 (Hni _ H2) Hns) as (l & Hl & Hx & E').
    rewrite E in E'. injection E' as -> ->. eapply io_inv_same; [exact H|done..|exact Hl| | |done|done|done|done|done|done]; simpl.
    + intros g Hg. destruct (decide (g ∈ t :: J)) as [Hin|Hn]; [|by rewrite Hx].
      destruct Hl as (_ & Hc & _). eapply SList.chain_dom; [exact Hc|]. set_solver.
    + intros g x Hg Hok. eapply fd_ok_frame; [..|exact Hok]; try done. rewrite elem_of_app, list_elem_of_singleton.
      split; [auto|]. intros [?| ->]; [done|congruence].
  - exists L, J. assert (run (set_wait w (ioq_ s)) = run (ioq_ s)) as ER by done.
    eapply io_inv_same; [exact H|done|done|done|by rewrite ER|by rewrite ER|by apply same_ok|done..].
  - exists L, J. eapply io_inv_same; [exact H|done|done|exact Hk|done|done|by apply same_ok|done..].
Qed.

Lemma inv_reach_io (s : sys K) : io_reach s -> exists L J, io_inv s L J.
Proof.
  induction 1 as [q Hq|s s' _ (L & J & H) [Hs|Hs]]; [|by eapply inv_loop|by eapply inv_client].
  exists [], []. destruct Hq as [F1 F2 F3 F4 F5 F6].
  split; simpl; [done|done|done| |done| |by auto|by rewrite F6| ].
  - split; [|set_solver| |set_solver|set_solver].
    + intros f x Hx. pose proof (F4 f x Hx) as E. assert (md x = false /\ ep x = false /\ wt x = false) as (B1 & B2 & B3).
      { rewrite E. done. }
      split; rewrite ?B1, ?B2, ?B3; try done; set_solver.
    + intros d m f Hd. by apply F5 in Hd.
  - split; [constructor|]. set_solver.
  - intros f _. by rewrite decide_False by set_solver.
Qed.
(** ** Progress *)
Lemma wp_ok {S A} (m : M S A) s Q : wp m s Q -> exists s' a, m s = Ok (s', a).
Proof. intros (s' & a & E & _)%wp_run. eauto. Qed.

Lemma dispatch_mod_ok (s : sys K) L J f fl rq : io_inv s L J -> lpc s = LMod f fl rq ->
  exists q, dispatch_mod f fl rq (ioq_ s) = Ok (q, tt).
Proof.
  intros [H1 H2 H3 H4 H5 H6 H7 H8 H9] Hpc. rewrite Hpc in *. destruct (H5 f fl rq eq_refl) as (x & Hx & E1 & E2 & Erq).
  pose proof (fs_ok _ _ _ _ _ _ H4 f x Hx) as [Fmd Fep Fwt Freg Fdone Fonce]. destruct (H3 f) as [Hn Hnj]; [eauto|].
  assert (wp (dispatch_mod f fl rq) (ioq_ s) (fun _ _ => True)) as Hw.
  { destruct (wt x) eqn:Hwt.
    - destruct (decide (rq = 0)) as [->|Hrq].
      + by eapply wp_cancel_mod; [exact H1|exact Hx|exact Hn|exact Fmd|exact E2|].
      + by eapply wp_register; [exact H1|exact Hx|exact Hn|exact Fmd|exact E2|exact Hrq|..].
    - unfold dispatch_mod. rewrite truth_waiting, E2. cbn [negb].
      by eapply wp_exec_task; [exact Hx|exact H2|destruct (Fonce eq_refl); simpl in *; tauto|exact Hnj|]. }
  destruct (wp_ok _ _ _ Hw) as (q & [] & E). eauto.
Qed.

Lemma dequeue_ok (s : sys K) L J : io_inv s L J -> exists q r, mod_dequeue (ioq_ s) = Ok (q, r).
Proof.
  intros [H1 H2 H3 H4 H5 H6 H7 H8 H9].
  destruct (wp_ok mod_dequeue (ioq_ s) (fun _ _ => True)) as (q & r & E); [|eauto].
  apply (wp_mod_dequeue (ioq_ s) L); [done|apply (fs_mods _ _ _ _ _ _ H4)|done|done].
Qed.

Lemma loop_progress (s : sys K) L J : io_inv s L J -> exists s', loop_step s s'.
Proof.
  intros H. pose proof H as [H1 H2 H3 H4 H5 [_ H6] H7 H8 H9]. destruct (lpc s) as [|es|es|es| |f fl rq|] eqn:Hpc.
  - destruct (epoll_wait 0 (kern (ioq_ s))) as [k [e|es]] eqn:E.
    + destruct (decide (e = EINTR)) as [->|He]; eexists; [by eapply loop_intr|by eapply loop_fail].
    + eexists. by eapply loop_wait.
  - eexists. by eapply loop_drain.
  - eexists. by eapply loop_reset.
  - destruct es as [|[ev [f|]] es].
    + eexists. by apply loop_events_done.
    + destruct (H6 (ev, Some f) f) as (x & Hx & _); [by left|done|]. destruct (H3 f) as [Hn _]; [eauto|].
      destruct (wp_ok (do_event (ev, Some f)) (ioq_ s) (fun _ _ => True)) as (q & [] & E).
      { eapply wp_do_event; [exact H1|exact Hx|exact Hn|apply (fs_ok _ _ _ _ _ _ H4 f x Hx)|done]. }
      eexists. by eapply loop_event.
    + eexists. by eapply loop_event.
  - destruct (dequeue_ok s L J H) as (q & [[[f fl] rq]|] & E); eexists; [by eapply loop_dequeue|by eapply loop_mods_done].
  - destruct (dispatch_mod_ok s L J f fl rq H Hpc) as [q E]. eexists. by eapply loop_mod.
  - eexists. by apply loop_rest.
Qed.

(** ** [dispatch_mods] on its own *)
Definition mod_weight (F : gmap positive ioq_fd) (f : positive) : nat :=
  match F !! f with Some x => if wt x then if requested x =? 0 then 2 else 3 else 1 | None => 0 end.
Definition mods_weight (F : gmap positive ioq_fd) (L : list positive) : nat := sum_list_with (mod_weight F) L.

Lemma slist_unique s xs ys : SList.is_slist s xs -> SList.is_slist s ys -> xs = ys.
Proof.
  intros (_ & H1 & _) (_ & H2 & _). revert ys H2. generalize (SList.start s) as p, H1. clear H1.
  induction xs as [|x xs IH]; intros p H1 [|y ys] H2; simpl in *; [done| | |].
  - destruct H2 as [-> _]. done.
  - destruct H1 as [-> _]. done.
  - destruct H1 as (-> & q1 & E1 & H1), H2 as ([= ->] & q2 & E2 & H2). rewrite E1 in E2. injection E2 as ->.
    f_equal. by eapply IH.
Qed.

Lemma weight_ext F F' L : (forall g, g ∈ L -> mod_weight F' g = mod_weight F g) -> mods_weight F' L = mods_weight F L.
Proof.
  unfold mods_weight. induction L as [|g L IH]; intros Hg; simpl; [done|].
  rewrite Hg by (by left). rewrite IH; [done|]. intros h Hh. apply Hg. by right.
Qed.

Lemma weight_enq F f x L : f ∉ L -> mods_weight (<[f := x]> F) (enq f L) =
  (mods_weight F L + mod_weight (<[f := x]> F) f)%nat.
Proof.
  intros Hn. unfold enq. rewrite decide_False by done. unfold mods_weight. rewrite sum_list_with_app. simpl.
  rewrite Nat.add_0_r. f_equal. apply weight_ext. intros g Hg. unfold mod_weight. rewrite lookup_insert_ne; [done|].
  intros <-. done.
Qed.

(** A modification performed weighs less than before. *)
Lemma dispatch_mod_weight (s : sys K) L J f fl rq : io_inv s L J -> lpc s = LMod f fl rq -> f ∉ L ->
  wp (dispatch_mod f fl rq) (ioq_ s) (fun _ q' => exists L' J', io_inv (loop_to q' LMods s) L' J' /\
    (mods_weight (fds q') L' < mods_weight (fds (ioq_ s)) L + mod_weight (fds (ioq_ s)) f)%nat /\
    dom (fds q') = dom (fds (ioq_ s))).
Proof.
  intros H Hpc HfL. pose proof H as [H1 H2 H3 H4 H5 H6 H7 H8 H9]. rewrite Hpc in *.
  destruct (H5 f fl rq eq_refl) as (x & Hx & E1 & E2 & Erq). specialize (Erq HfL).
  pose proof (fs_ok _ _ _ _ _ _ H4 f x Hx) as [Fmd Fep Fwt Freg Fdone Fonce]. destruct (H3 f) as [Hn Hnj]; [eauto|].
  set (W := fun q' : ioq K => exists L', SList.is_slist (mod_list q') L' /\
    (mods_weight (fds q') L' < mods_weight (fds (ioq_ s)) L + mod_weight (fds (ioq_ s)) f)%nat /\
    dom (fds q') = dom (fds (ioq_ s))).
  assert (f ∈ dom (fds (ioq_ s))) as Hfd by (apply elem_of_dom; eauto).
  assert (wp (dispatch_mod f fl rq) (ioq_ s) (fun _ q' => W q')) as Hw.
  { destruct (wt x) eqn:Hwt.
    - destruct (decide (rq = 0)) as [->|Hrq].
      + eapply wp_cancel_mod; [exact H1|exact Hx|exact Hn|exact Fmd|exact E2|]. intros q' I' C _.
        destruct (ended_bits 0 x) as (_ & _ & B3 & _). exists (enq f L). split; [apply (ch_mods _ _ _ _ _ _ C)|].
        rewrite (ch_fds _ _ _ _ _ _ C). split; [|rewrite dom_insert_L; set_solver].
        rewrite weight_enq by done. unfold mod_weight. rewrite lookup_insert_eq, Hx, B3, Hwt, <- Erq. simpl. lia.
      + eapply wp_register; [exact H1|exact Hx|exact Hn|exact Fmd|exact E2|exact Hrq|..].
        * intros q' C. exists L. split; [apply (ch_mods _ _ _ _ _ _ C)|]. rewrite (ch_fds _ _ _ _ _ _ C).
          split; [|rewrite dom_insert_L; set_solver].
          rewrite (weight_ext (fds (ioq_ s))). { unfold mod_weight. rewrite Hx, Hwt. destruct (_ =? 0); lia. }
          intros g Hg. unfold mod_weight. rewrite lookup_insert_ne; [done|]. intros <-. done.
        * intros q' e C _. set (x' := set_requested 0 (set_err e x)) in *. destruct (md_or x') as (_ & _ & B3).
          exists (enq f L). split; [apply (ch_mods _ _ _ _ _ _ C)|].
          rewrite (ch_fds _ _ _ _ _ _ C). split; [|rewrite dom_insert_L; set_solver].
          rewrite weight_enq by done. unfold mod_weight. rewrite lookup_insert_eq, Hx, B3, Hwt.
          change (wt x') with (wt x). rewrite Hwt. simpl. destruct (Z.eqb_spec (requested x) 0); [congruence|lia].
    - unfold dispatch_mod. rewrite truth_waiting, E2. cbn [negb].
      eapply wp_exec_task; [exact Hx|exact H2|destruct (Fonce eq_refl); simpl in *; tauto|exact Hnj|].
      intros r _ _ _. exists L. split; [done|]. split; [|done]. simpl. unfold mod_weight. rewrite Hx, Hwt. lia. }
  unfold wp in *. destruct (dispatch_mod f fl rq (ioq_ s)) as [[q' []]| |] eqn:E; [|done|done].
  destruct (inv_mod s q' L J f fl rq H Hpc E) as (L' & J' & H'). destruct Hw as (L2 & HL2 & Hw & Hd).
  assert (L2 = L') as -> by (eapply slist_unique; [exact HL2|exact (io_mods _ _ _ H')]). eauto 10.
Qed.

Lemma weight_bound F L : NoDup L -> (forall f, f ∈ L -> is_Some (F !! f)) -> (mods_weight F L <= 3 * size F)%nat.
Proof.
  intros Hnd Hd. assert (length L <= size F)%nat as Hl.
  { rewrite <- size_dom, <- (size_list_to_set (C := gset positive) L) by done. apply subseteq_size.
    intros f Hf%elem_of_list_to_set. by apply elem_of_dom, Hd. }
  assert (mods_weight F L <= 3 * length L)%nat; [|lia]. clear. unfold mods_weight.
  induction L as [|f L IH]; simpl; [lia|]. assert (mod_weight F f <= 3)%nat; [|lia].
  unfold mod_weight. destruct (F !! f) as [x|]; [|lia]. destruct (wt x); [destruct (_ =? 0)|]; lia.
Qed.

Lemma wp_dispatch_mods (s : sys K) L J : io_inv s L J -> lpc s = LMods ->
  wp dispatch_mods (ioq_ s) (fun _ q' => exists J', io_inv (loop_to q' LMods s) [] J').
Proof.
  intros H Hpc. unfold dispatch_mods. wp_bind. apply wp_get.
  apply (wp_loop (fun k (_ : unit) q' => exists L' J', io_inv (loop_to q' LMods s) L' J' /\ k = mods_weight (fds q') L'))
    with (k := mods_weight (fds (ioq_ s)) L).
  - intros k [] q (L' & J' & H' & ->). pose proof H' as [H1 H2 H3 H4 H5 H6 H7 H8 H9]. simpl in H1, H4.
    unfold dispatch_mods_step. wp_bind.
    destruct (mod_dequeue q) as [[q1 r]| |] eqn:E.
    2-3: destruct (dequeue_ok _ _ _ H') as (? & ? & E'); simpl in E'; congruence.
    destruct (inv_dequeue _ q1 _ _ r H' eq_refl E) as [L1 Hi1].
    pose proof (wp_mod_dequeue q L' (fun r q1 => match r with
      | None => L' = []
      | Some (f, _, _) => exists L1, SList.is_slist (mod_list q1) L1 /\ f ∉ L1 /\
          (mods_weight (fds q1) L1 + mod_weight (fds q1) f = mods_weight (fds q) L')%nat end) H1) as Hd.
    unfold wp in Hd. rewrite E in Hd.
    assert (match r with
      | None => L' = []
      | Some (f, _, _) => exists L1, SList.is_slist (mod_list q1) L1 /\ f ∉ L1 /\
          (mods_weight (fds q1) L1 + mod_weight (fds q1) f = mods_weight (fds q) L')%nat end) as Hr.
    { apply Hd; [apply (fs_mods _ _ _ _ _ _ H4)|done|]. intros f L2 x q2 -> Hx C. exists L2.
      destruct H1 as [[Hf _]%NoDup_cons _]. split; [apply (ch_mods _ _ _ _ _ _ C)|]. split; [done|].
      rewrite (ch_fds _ _ _ _ _ _ C). unfold mods_weight. simpl. rewrite Nat.add_comm. f_equal.
      - unfold mod_weight. rewrite lookup_insert_eq, Hx. destruct (clear_mod x) as (_ & _ & ->). done.
      - apply weight_ext. intros g Hg. unfold mod_weight. rewrite lookup_insert_ne; [done|]. intros <-. done. }
    unfold wp at 1. rewrite E. destruct r as [[[f fl] rq]|].
    + destruct Hr as (L2 & HL2 & Hf & HW). assert (L2 = L1) as -> by (eapply slist_unique; [exact HL2|exact (io_mods _ _ _ Hi1)]).
      wp_bind. eapply wp_mono; [exact (dispatch_mod_weight _ _ _ f fl rq Hi1 eq_refl Hf)|].
      intros [] q2 (L3 & J3 & H3' & HW' & _). apply wp_ret. exists (mods_weight (fds q2) L3).
      split; [simpl in HW'; lia|]. eauto.
    + subst L'. apply wp_ret. exists J'.
      assert (q1 = q) as ->; [|done]. unfold mod_dequeue, bind, on_mods in E.
      pose proof (SList.wp_slist_pop _ _ H1) as Hp. unfold wp in Hp. destruct (SList.slist_pop (mod_list q)) as [[l n]| |]; [|done|done].
      destruct Hp as (-> & Hl & Hns). simpl in E. injection E as <-. unfold set_mods. destruct q as [w ml i p F k]. simpl in *. f_equal.
      destruct H1 as (_ & U1 & U2), Hl as (_ & U3 & U4). destruct l, ml. simpl in *. congruence.
  - apply Nat.lt_succ_r, weight_bound; [apply (io_mods _ _ _ H)|apply (fs_mods _ _ _ _ _ _ (io_fds _ _ _ H))].
  - exists L, J. split; [|done]. destruct s as [q0 pc n w b ws cs]. simpl in Hpc |- *. subst pc. exact H.
Qed.
End inv.
