(* ===== verification/IoqMain.v ===== *)
(** Correctness of src/io/ioq_linux.c: each wait is completed once, none is
    forgotten while the loop sleeps, and the dispatch loop never goes wrong. *)
From S2P Require Import Prelude Lists Rbt Runq RunqMain Waitq Ioq IoqInv IoqStep IoqReach.

(** * Properties *)
Section properties.
Context {K : Type} `{!Epoll K, !EpollLaws K}.

(** The kernel watches the descriptor of [f] for just the events [f] waits for. *)
Definition registered (q : ioq K) (f : positive) : Prop :=
  exists x, fds q !! f = Some x /\ requested x <> 0 /\
    interest (kern q) !! fd x = Some (requested x, Some f).
Definition in_run_queue (q : ioq K) (f : positive) : Prop :=
  exists J, SList.is_slist (job_list (run q)) J /\ f ∈ J.
(** A thread will write to the pipe, or there is something in it. *)
Definition wakeup_coming (s : sys K) : Prop :=
  (0 < notifying s)%nat \/ intr_state (ioq_ s) = true /\ ((0 < pipe (ioq_ s))%nat \/ (0 < writing s)%nat).

Lemma busy_settled (s : sys K) J f : io_inv s [] J -> hand (lpc s) = None -> f ∈ busy s ->
  registered (ioq_ s) f \/ in_run_queue (ioq_ s) f.
Proof.
  intros H Hh Hf. destruct (fs_busy _ _ _ _ _ _ (io_fds _ _ _ H) f Hf) as [x Hx].
  destruct (fs_ok _ _ _ _ _ _ (io_fds _ _ _ H) f x Hx) as [Fmd Fep Fwt Freg Fdone Fonce]. rewrite Hh in *.
  destruct (wt x) eqn:Hwt.
  - left. destruct (Freg eq_refl) as (_ & ? & ?); [set_solver|done|]. by exists x.
  - right. exists J. split; [apply (io_jobs _ _ _ H)|]. destruct (proj1 (Fdone eq_refl) Hf) as [?|[?|?]]; [set_solver|done|done].
Qed.

(** C6. Whatever the order in which clients wait, change their waits, cancel
    them and change descriptors between waits, each wait being for some events and no
    two for one descriptor, threads notify, workers take tasks and the dispatch loop
    runs: the loop
    can always go on; each wait gets one callback, and a callback is only ever
    run for a wait in progress; and while the loop sleeps in epoll, each wait in
    progress is registered for just the events asked for, or its task is in the
    run queue, or something will wake the loop.  A wait for the empty set of events is
    not among the steps: it completes at once, but a cancel of it completes it again
    ([empty_wait_twice]). *)
Theorem ioq_wait_completes (s : sys K) : io_reach s ->
  (exists s', loop_step s s') /\
  (forall f, is_Some (fds (ioq_ s) !! f) -> count_occ Pos.eq_dec (waits s) f =
     (count_occ Pos.eq_dec (called s) f + if decide (f ∈ busy s) then 1 else 0)%nat) /\
  (forall r f, run_one (run (ioq_ s)) = Ok (r, (1, Some f)) -> is_Some (fds (ioq_ s) !! f) -> f ∈ busy s) /\
  (lpc s = LWait -> forall f, f ∈ busy s -> registered (ioq_ s) f \/ in_run_queue (ioq_ s) f \/ wakeup_coming s).
Proof.
  intros (L & J & H)%inv_reach_io. split_and!.
  - by eapply loop_progress.
  - apply (io_count _ _ _ H).
  - intros r f E. by destruct (inv_call s L J r f H E) as (J' & _ & ? & _).
  - intros Hpc f Hf. destruct (decide (L = [])) as [->|HL].
    + destruct (busy_settled s J f H) as [?|?]; [by rewrite Hpc|done|auto|auto].
    + right. right. destruct (io_wake _ _ _ H (or_intror Hpc) HL) as [?|Hi]; [by left|]. right. split; [done|].
      destruct (io_intr _ _ _ H Hi) as [?|[?|[es He]]]; [auto|auto|congruence].
Qed.

(** C16. When no other thread takes part, [dispatch_mods] comes to an end, with
    no modification left and every wait in progress registered for just the
    events asked for, or its task in the run queue.  [ioq_init] either acquires
    everything, and [ioq_destroy] then releases it, or reports the error of the
    call that failed and keeps nothing. *)
Theorem ioq_dispatch_init :
  (forall s : sys K, io_reach s -> lpc s = LMods ->
     wp dispatch_mods (ioq_ s) (fun _ q' => SList.is_slist (mod_list q') [] /\
       forall f, f ∈ busy s -> registered q' f \/ in_run_queue q' f)) /\
  (forall e1 e2 e3 e4, wp (ioq_init e1 e2 e3 e4) [] (fun '(rc, e) l =>
     rc = 0 /\ e1 = 0 /\ e2 = 0 /\ e3 = 0 /\ e4 = 0 /\ wp ioq_destroy l (fun _ l' => l' = []) \/
     rc = -1 /\ l = [] /\ e <> 0 /\ (e = e1 \/ e1 = 0 /\ e = e2 \/ e1 = 0 /\ e2 = 0 /\ e = e3 \/
       e1 = 0 /\ e2 = 0 /\ e3 = 0 /\ e = e4))).
Proof.
  split.
  - intros s (L & J & H)%inv_reach_io Hpc. eapply wp_mono; [by eapply wp_dispatch_mods|].
    intros [] q' (J' & H'). split; [apply (io_mods _ _ _ H')|]. intros f Hf. by apply (busy_settled (loop_to q' LMods s) J').
  - intros e1 e2 e3 e4. unfold ioq_init.
    destruct (Z.eqb_spec e1 0) as [->|H1]; [|by right; split_and!; [..|by left]]. cbn [negb].
    destruct (Z.eqb_spec e2 0) as [->|H2]; [|vm_compute; right; split_and!; [done|done|done|auto]]. cbn [negb].
    destruct (Z.eqb_spec e3 0) as [->|H3]; [|vm_compute; right; split_and!; [done|done|done|tauto]]. cbn [negb].
    destruct (Z.eqb_spec e4 0) as [->|H4]; [|vm_compute; right; split_and!; [done|done|done|auto 10]]. cbn [negb].
    vm_compute. left. done.
Qed.
End properties.

(** * An epoll, for examples *)
Record ekern := mk_ekern {
  table : gmap Z (Z * option positive);
  readiness : gmap Z Z;
}.

Definition report (k : ekern) (x : Z * (Z * option positive)) : option (Z * option positive) :=
  let e := Z.land (default 0 (readiness k !! x.1)) (Z.lor x.2.1 (Z.lor IOQ_EVENT_ERR IOQ_EVENT_HUP)) in
  if e =? 0 then None else Some (e, x.2.2).

#[export] Instance ekern_epoll : Epoll ekern := {
  interest := table;
  epoll_ctl op d ev p k :=
    match op, table k !! d with
    | EPOLL_CTL_ADD, None | EPOLL_CTL_MOD, Some _ => (mk_ekern (<[d := (ev, p)]> (table k)) (readiness k), 0)
    | EPOLL_CTL_ADD, Some _ => (k, 17)
    | EPOLL_CTL_MOD, None => (k, 2)
    | EPOLL_CTL_DEL, Some _ => (mk_ekern (delete d (table k)) (readiness k), 0)
    | EPOLL_CTL_DEL, None => (k, 2)
    end;
  epoll_wait _ k := (k, inr (omap (report k) (map_to_list (table k))));
}.

Lemma report_events k l : NoDup l.*1 -> (forall x, x ∈ l -> table k !! x.1 = Some x.2) ->
  exists ds, NoDup ds /\ (forall d, d ∈ ds -> d ∈ l.*1) /\
    Forall2 (fun d e => exists m, table k !! d = Some (m, e.2) /\ e.1 <> 0 /\
      Z.land e.1 (Z.lnot (Z.lor m (Z.lor IOQ_EVENT_ERR IOQ_EVENT_HUP))) = 0) ds (omap (report k) l).
Proof.
  induction l as [|[d [m p]] l IH]; intros Hnd Hl.
  - exists []. split_and!; [constructor|set_solver|constructor].
  - apply NoDup_cons in Hnd as [Hd Hnd]. destruct IH as (ds & H1 & H2 & H3); [done|intros x Hx; apply Hl; by right|].
    simpl. unfold report at 1. simpl. destruct (Z.eqb_spec (Z.land (default 0 (readiness k !! d)) (Z.lor m (Z.lor IOQ_EVENT_ERR IOQ_EVENT_HUP))) 0) as [E|E].
    + exists ds. split_and!; [done|set_solver|done].
    + exists (d :: ds). split_and!; [constructor; [|done]; intros ?%H2; done|set_solver|].
      constructor; [|done]. exists m. split; [apply (Hl (d, (m, p))); by left|]. split; [done|].
      cbn [fst]. apply Z.bits_inj'. intros n Hn. rewrite !Z.land_spec, Z.lnot_spec, Z.bits_0 by done.
      destruct (Z.testbit (Z.lor m (Z.lor IOQ_EVENT_ERR IOQ_EVENT_HUP)) n); simpl; by rewrite ?andb_false_r.
Qed.

#[export] Instance ekern_laws : EpollLaws ekern.
Proof.
  split; simpl.
  - intros op d ev p k k' e. destruct op, (table k !! d); naive_solver.
  - intros d ev p k k'. destruct (table k !! d); naive_solver.
  - intros d ev p k k'. destruct (table k !! d); naive_solver.
  - intros d ev p k k' e. destruct (table k !! d) eqn:E; [naive_solver|]. intros [= <- <-]. by rewrite delete_id.
  - intros t k k' r [= <- _]. done.
  - intros t k k' es [= <- <-]. destruct (report_events k (map_to_list (table k))) as (ds & H1 & _ & H3).
    + apply NoDup_fst_map_to_list.
    + intros [d x] Hx. by apply elem_of_map_to_list.
    + by exists ds.
Qed.

(** * Witnesses: one descriptor, 7, ready for input *)
Definition ex_nodes : gmap positive (option positive) := {[ 1%positive := None ]}.
Definition ex_ioq : ioq ekern := mk_ioq
  (waitq_init ∅ true (mk_runq (SList.mk_slist None None ex_nodes) ∅ false true 0))
  (SList.mk_slist None None ex_nodes) false 0 {[ 1%positive := mk_fd 0 7 0 0 0 0 ]}
  (mk_ekern {[ 5 := (IOQ_EVENT_IN, None) ]} {[ 7 := IOQ_EVENT_IN ]}).

Lemma ex_fresh : ioq_fresh ex_ioq.
Proof.
  split; simpl.
  - split; [constructor|]. by vm_compute.
  - split; [constructor|]. by vm_compute.
  - intros f [x Hx]. apply lookup_singleton_Some in Hx as [<- _]. by vm_compute; eauto.
  - intros f x [<- <-]%lookup_singleton_Some. done.
  - intros d m f. by intros [_ [=]]%lookup_singleton_Some.
  - done.
Qed.

Definition ex_sys : sys ekern := mk_sys ex_ioq LRest 0 0 ∅ [] [].
Definition after_wait : ioq ekern :=
  match ioq_fd_wait 1 IOQ_EVENT_IN 9 ex_ioq with Ok (q, _) => q | _ => ex_ioq end.
Definition ex_waiting : sys ekern := mk_sys after_wait LWait 1 0 {[1%positive]} [1%positive] [].

Lemma ex_waiting_reach : io_reach ex_waiting.
Proof.
  apply (io_next (mk_sys after_wait LRest 1 0 {[1%positive]} [1%positive] [])).
  - apply (io_next ex_sys); [apply io_start, ex_fresh|]. right.
    assert (({[1%positive]} : gset positive) = {[1%positive]} ∪ busy ex_sys) as -> by (simpl; set_solver).
    apply (client_wait ex_sys 1 (mk_fd 0 7 0 0 0 0) IOQ_EVENT_IN 9 after_wait true); [done|set_solver|by intros g y _ []%not_elem_of_empty|done|by vm_compute].
  - left. exact (loop_rest (mk_sys after_wait LRest 1 0 {[1%positive]} [1%positive] []) eq_refl).
Qed.

Lemma ioq_wait_completes_witness :
  io_reach ex_waiting /\ (exists s', loop_step ex_waiting s') /\
  (registered (ioq_ ex_waiting) 1 \/ in_run_queue (ioq_ ex_waiting) 1 \/ wakeup_coming ex_waiting).
Proof.
  destruct (ioq_wait_completes ex_waiting ex_waiting_reach) as (H1 & _ & _ & H2).
  split; [exact ex_waiting_reach|]. split; [exact H1|]. apply (H2 eq_refl). set_solver.
Defined.

Lemma ex_mods_reach : io_reach (mk_sys after_wait LMods 1 0 {[1%positive]} [1%positive] []).
Proof.
  set (st pc := mk_sys after_wait pc 1 0 {[1%positive]} [1%positive] []).
  assert (epoll_wait 0 (kern after_wait) = (kern after_wait, inr [])) as Ew by by vm_compute.
  apply (io_next (st (LEvents []))); [|left; by apply (loop_events_done (st (LEvents [])))].
  apply (io_next (st (LReset []))); [|left; by apply (loop_reset (st (LReset [])))].
  apply (io_next (st (LDrain []))); [|left; by apply (loop_drain (st (LDrain [])))].
  apply (io_next ex_waiting); [apply ex_waiting_reach|left]. by apply (loop_wait ex_waiting 0 _ []).
Qed.

Lemma ioq_dispatch_init_witness :
  wp dispatch_mods after_wait (fun _ q' => SList.is_slist (mod_list q') [] /\
    (registered q' 1 \/ in_run_queue q' 1)).
Proof.
  destruct (@ioq_dispatch_init ekern ekern_epoll ekern_laws) as [H _].
  eapply wp_mono; [exact (H _ ex_mods_reach eq_refl)|]. intros [] q' [H1 H2]. split; [exact H1|]. apply H2. set_solver.
Defined.

(** ** Runs *)

(** Two iterations: the wait is registered; the event is reported, and the task
    run. *)
Definition ex_run : M (ioq ekern) (Z * Z) :=
  w ← ioq_fd_wait 1 IOQ_EVENT_IN 9;
  when w ioq_notify;;
  a ← ioq_iterate (fun _ _ => ret tt) 5 0 0;
  b ← ioq_iterate (fun _ _ => ret tt) 5 0 0;
  ret (a, b).
Definition shown (r : res (ioq ekern * (Z * Z))) : option (Z * Z * option ioq_fd * list Z * option positive) :=
  match r with
  | Ok (q, rc) => Some (rc, fds q !! 1%positive, (map_to_list (table (kern q))).*1, SList.start (job_list (run q)))
  | _ => None
  end.
Example ex_run_ok : shown (ex_run ex_ioq) = Some (0, 0, Some (mk_fd 9 7 IOQ_EVENT_IN 0 0 IOQ_EVENT_IN), [5], None).
Proof. vm_compute. reflexivity. Qed.

(** A wait for no event hands the task to the run queue at once, but leaves the
    [ioq_fd] marked as waiting: when it is then cancelled, as a wait in progress
    may be, the task is queued again, and the run queue's list becomes a
    cycle. *)
Definition ex_empty_wait : M (ioq ekern) unit :=
  _ ← ioq_fd_wait 1 0 9; _ ← ioq_fd_cancel 1; dispatch_mods.
Example empty_wait_twice :
  match ex_empty_wait ex_ioq with
  | Ok (q, _) => SList.snodes (job_list (run q)) !! 1%positive = Some (Some 1%positive)
  | _ => False
  end.
Proof. vm_compute. reflexivity. Qed.

(** A queue for the examples of its users, with the [ioq_fd] 2 and the task 3. *)
Definition ex_links : gmap positive (option positive) := {[ 2%positive := None; 3%positive := None ]}.
Definition ex_queue : ioq ekern := mk_ioq
  (waitq_init ∅ true (mk_runq (SList.mk_slist None None ex_links) ∅ false true 0))
  (SList.mk_slist None None ex_links) false 0 {[ 2%positive := mk_fd 0 0 0 0 0 0 ]} (mk_ekern ∅ ∅).
Definition ex_qsys : sys ekern := mk_sys ex_queue LRest 0 0 ∅ [] [].

Lemma ex_queue_fresh : ioq_fresh ex_queue.
Proof.
  split; simpl.
  - split; [constructor|]. by vm_compute.
  - split; [constructor|]. by vm_compute.
  - intros f [x Hx]. apply lookup_singleton_Some in Hx as [<- _]. by vm_compute; eauto.
  - intros f x [<- <-]%lookup_singleton_Some. done.
  - intros d m f. by rewrite lookup_empty.
  - done.
Qed.
