(* ===== verification/Wait.v ===== *)
(** What an I/O queue promises to those that use it (src/io/ioq.h,
    src/io/ioq_linux.h): the interface that the files and the sockets are verified
    against.

    A queue is a state [Q].  An [ioq_fd] is seen as a descriptor, the progress of
    its wait and the outcome; another task of the run queue as queued or not.
    [q_own] is a step of the queue itself, of the kernel or of a timer; [q_call f]
    takes [f] off the run queue to run its function. *)
From S2P Require Import Prelude.

(** A wait in progress is [Waiting] for some events, or [Ending] once its outcome
    is known, until its callback begins. *)
Inductive fd_status := Idle | Waiting (set : Z) | Ending.

#[export] Instance fd_status_eq_dec : EqDecision fd_status.
Proof. solve_decision. Defined.

Record fd_view := mk_view {
  v_fd : Z;
  v_status : fd_status;
  v_ready : Z;
  v_err : Z;
}.

Class WaitQueue (Q : Type) := {
  view : Q -> positive -> option fd_view;
  is_task : Q -> positive -> Prop;
  queued : Q -> positive -> Prop;
  q_init : positive -> Z -> M Q unit;           (** ioq_fd_init *)
  q_set_fd : positive -> Z -> M Q unit;         (** ioq_fd_set_fd *)
  q_wait : positive -> Z -> Z -> M Q unit;      (** ioq_fd_wait *)
  q_rewait : positive -> Z -> M Q unit;         (** ioq_fd_rewait *)
  q_exec : positive -> Z -> M Q unit;           (** runq_task_exec *)
  q_own : Q -> Q -> Prop;
  q_call : positive -> Q -> Q -> Prop;
}.

Section contract.
Context {Q : Type} `{!WaitQueue Q}.

(** No other wait in progress uses the descriptor [d]. *)
Definition sole (q : Q) (f : positive) (d : Z) : Prop :=
  forall g v, g <> f -> view q g = Some v -> v_status v <> Idle -> v_fd v <> d.

Record same_tasks (q q' : Q) : Prop := {
  st_task t : is_task q' t <-> is_task q t;
  st_queued t : queued q' t <-> queued q t;
}.
(** Only the [ioq_fd] at [f] changes. *)
Record only (f : positive) (q q' : Q) : Prop := {
  on_view g : g <> f -> view q' g = view q g;
  on_tasks : same_tasks q q';
}.
Definition same_views (q q' : Q) : Prop := forall g, view q' g = view q g.

(** [ioq_fd_cancel]. *)
Definition q_cancel (f : positive) : M Q unit := q_rewait f 0.

(** What the queue may do to an [ioq_fd]: a wait may end; or, when the kernel
    refuses it, have an error and wait for nothing more. *)
Definition moved (v v' : fd_view) : Prop :=
  v_fd v' = v_fd v /\
  (v' = v \/ exists m, v_status v = Waiting m /\
     (v_status v' = Ending \/ v_status v' = Waiting 0 /\ v_ready v' = v_ready v /\ v_err v' <> 0)).
End contract.

(** The contract, in the states [wq_ok] that the queue can be in. *)
Class WaitQueueLaws (Q : Type) `{WaitQueue Q} := {
  wq_ok : Q -> Prop;
  wq_init f d q v : wq_ok q -> view q f = Some v -> v_status v = Idle ->
    wp (q_init f d) q (fun _ q' => wq_ok q' /\ only f q q' /\ view q' f = Some (mk_view d Idle 0 0));
  wq_set_fd f d q v : wq_ok q -> view q f = Some v -> v_status v = Idle ->
    wp (q_set_fd f d) q (fun _ q' => wq_ok q' /\ only f q q' /\ view q' f = Some (mk_view d Idle (v_ready v) (v_err v)));
  wq_wait f set fn q v : wq_ok q -> view q f = Some v -> v_status v = Idle -> sole q f (v_fd v) -> set <> 0 ->
    wp (q_wait f set fn) q (fun _ q' => wq_ok q' /\ only f q q' /\ view q' f = Some (mk_view (v_fd v) (Waiting set) 0 0));
  wq_rewait f set q v : wq_ok q -> view q f = Some v ->
    wp (q_rewait f set) q (fun _ q' => wq_ok q' /\ only f q q' /\
      view q' f = Some (match v_status v with Waiting _ => mk_view (v_fd v) (Waiting set) (v_ready v) (v_err v) | _ => v end));
  wq_exec t fn q : wq_ok q -> is_task q t -> ~ queued q t ->
    wp (q_exec t fn) q (fun _ q' => wq_ok q' /\ same_views q q' /\
      forall u, (is_task q' u <-> is_task q u) /\ (queued q' u <-> u = t \/ queued q u));
  wq_own q q' : wq_ok q -> q_own q q' -> wq_ok q' /\ same_tasks q q' /\
    forall f, match view q f, view q' f with Some v, Some v' => moved v v' | None, None => True | _, _ => False end;
  wq_call f q q' : wq_ok q -> q_call f q q' -> wq_ok q' /\
    (forall u, is_task q' u <-> is_task q u) /\
    match view q f with
    | Some v => v_status v = Ending /\ only f q q' /\ view q' f = Some (mk_view (v_fd v) Idle (v_ready v) (v_err v))
    | None => queued q f /\ same_views q q' /\ forall u, queued q' u <-> u <> f /\ queued q u
    end;
  wq_task q f : is_task q f -> view q f = None;
  wq_queued q f : wq_ok q -> queued q f -> view q f = None;
}.

Section views.
Context {Q : Type} `{!WaitQueue Q}.

Lemma only_same f (q : Q) : only f q q.
Proof. by repeat split. Qed.

Lemma moved_good v v' : moved v v' -> v_fd v' = v_fd v /\ (v_status v' = Idle <-> v_status v = Idle).
Proof.
  intros [E1 [->|(m & E2 & [E3|(E3 & _)])]]; (split; [done|]); [done|by rewrite E2, E3..].
Qed.

Lemma sole_only f (q q' : Q) d : only f q q' -> sole q f d -> sole q' f d.
Proof. intros [Hv _] Hs g v Hg. rewrite Hv by done. by apply Hs. Qed.

(** The waits in progress stay so, for the same descriptors. *)
Lemma sole_moved f (q q' : Q) d : sole q f d ->
  (forall g, match view q g, view q' g with Some v, Some v' => moved v v' | None, None => True | _, _ => False end) ->
  sole q' f d.
Proof.
  intros Hs Hm g v' Hg Hv' Hst. specialize (Hm g). rewrite Hv' in Hm. destruct (view q g) as [v|] eqn:E; [|done].
  destruct (moved_good v v' Hm) as [-> Hi]. apply (Hs g); [done|done|]. by rewrite <- Hi.
Qed.
End views.
