(* ===== verification/IoqWait.v ===== *)
(** The I/O queue keeps the contract of [Wait]. *)
From S2P Require Import Prelude Lists Runq RunqMain Waitq Ioq IoqInv IoqStep IoqReach Wait.

Section discharge.
Context {K : Type} `{!Epoll K, !EpollLaws K}.

Definition fd_progress (B : gset positive) (f : positive) (x : ioq_fd) : fd_status :=
  if decide (f ∈ B) then if wt x then Waiting (requested x) else Ending else Idle.

Definition io_view (s : sys K) (f : positive) : option fd_view :=
  (fun x => mk_view (fd x) (fd_progress (busy s) f x) (ready x) (err x)) <$> fds (ioq_ s) !! f.

Definition io_task (s : sys K) (t : positive) : Prop :=
  fds (ioq_ s) !! t = None /\ is_Some (SList.snodes (job_list (run (ioq_ s))) !! t).
Definition io_queued (s : sys K) (t : positive) : Prop :=
  fds (ioq_ s) !! t = None /\ exists J, SList.is_slist (job_list (run (ioq_ s))) J /\ t ∈ J.

(** A client's operation up to the end of its critical section; it may leave a
    notification to be made. *)
Definition client (m : M (ioq K) bool) (B : sys K -> gset positive) (ws : sys K -> list positive) : M (sys K) unit :=
  fun s => match m (ioq_ s) with
  | Ok (q, w) => Ok (mk_sys q (lpc s) (notifying s + b2n w) (writing s) (B s) (ws s) (called s), tt)
  | Crash => Crash
  | NoFuel => NoFuel
  end.

Inductive io_own : sys K -> sys K -> Prop :=
  | own_loop s s' : loop_step s s' -> io_own s s'
  | own_notify s : io_own s (mk_sys (ioq_ s) (lpc s) (Datatypes.S (notifying s)) (writing s) (busy s) (waits s) (called s))
  | own_lock s n q w : notifying s = Datatypes.S n -> notify_lock (ioq_ s) = Ok (q, w) ->
      io_own s (mk_sys q (lpc s) n (writing s + b2n w) (busy s) (waits s) (called s))
  | own_write s n q : writing s = Datatypes.S n -> notify_write (ioq_ s) = Ok (q, tt) ->
      io_own s (mk_sys q (lpc s) (notifying s) n (busy s) (waits s) (called s))
  | own_timers s w : Waitq.run w = run (ioq_ s) ->
      io_own s (mk_sys (set_wait w (ioq_ s)) (lpc s) (notifying s) (writing s) (busy s) (waits s) (called s))
  | own_kernel s k : interest k = interest (kern (ioq_ s)) ->
      io_own s (mk_sys (set_kern k (ioq_ s)) (lpc s) (notifying s) (writing s) (busy s) (waits s) (called s)).

Inductive io_call : positive -> sys K -> sys K -> Prop :=
  | call_task s r f : run_one (run (ioq_ s)) = Ok (r, (1, Some f)) ->
      io_call f s (mk_sys (set_run r (ioq_ s)) (lpc s) (notifying s) (writing s) (busy s ∖ {[f]}) (waits s) (called s ++ [f])).

#[export] Instance io_wait_queue : WaitQueue (sys K) := {
  view := io_view;
  is_task := io_task;
  queued := io_queued;
  q_init f d := client (ioq_fd_init f d;; ret false) busy waits;
  q_set_fd f d := client (ioq_fd_set_fd f d;; ret false) busy waits;
  q_wait f set fn := client (ioq_fd_wait f set fn) (fun s => {[f]} ∪ busy s) (fun s => waits s ++ [f]);
  q_rewait f set := client (ioq_fd_rewait f set) busy waits;
  q_exec t fn := client (on_runq (task_exec_lock t fn);; ret false) busy waits;
  q_own := io_own;
  q_call := io_call;
}.

(** ** What the loop does to an [ioq_fd] *)
Record own_fd (x x' : ioq_fd) : Prop := {
  of_fd : fd x' = fd x;
  of_done : wt x = false -> wt x' = false /\ ready x' = ready x /\ err x' = err x;
  of_wait : wt x' = true -> requested x' = requested x /\ err x' = err x /\ ready x' = ready x \/
    requested x' = 0 /\ err x' <> 0 /\ ready x' = ready x;
}.

Lemma own_fd_refl x : own_fd x x.
Proof. split; auto. Qed.

(** The parts of the queue that clients see. *)
Record own_ioq (q q' : ioq K) : Prop := {
  oi_fds f : match fds q !! f, fds q' !! f with Some x, Some x' => own_fd x x' | None, None => True | _, _ => False end;
  oi_jobs J J' : SList.is_slist (job_list (run q)) J -> SList.is_slist (job_list (run q')) J' ->
    forall t, fds q !! t = None -> (t ∈ J' <-> t ∈ J);
  oi_nodes t : fds q !! t = None ->
    (is_Some (SList.snodes (job_list (run q')) !! t) <-> is_Some (SList.snodes (job_list (run q)) !! t));
}.

Lemma own_ioq_same q q' : fds q' = fds q -> run q' = run q -> own_ioq q q'.
Proof.
  intros EF ER. split; rewrite ?EF, ?ER; try done.
  - intros f. destruct (fds q !! f); [apply own_fd_refl|done].
  - intros J J' H1 H2 t _. by rewrite (SList.slist_det _ _ _ H1 H2).
Qed.

Lemma own_ioq_changed q q' f x x' I' L' : changed q q' f x' I' L' -> fds q !! f = Some x -> own_fd x x' -> own_ioq q q'.
Proof.
  intros [C1 C2 C3 C4 C5 C6 C7] Hf Ho. assert (run q' = run q) as ER by (unfold run; by rewrite C5).
  split; rewrite ?ER; try done.
  - intros g. rewrite C1. destruct (decide (g = f)) as [->|]; [by rewrite Hf, lookup_insert_eq|].
    rewrite lookup_insert_ne by done. destruct (fds q !! g); [apply own_fd_refl|done].
  - intros J J' H1 H2 t _. by rewrite (SList.slist_det _ _ _ H1 H2).
Qed.

Lemma exec_nodes l l' xs t : SList.is_slist l xs -> SList.is_slist l' (xs ++ [t]) ->
  (forall x, x ∉ t :: xs -> SList.snodes l' !! x = SList.snodes l !! x) -> is_Some (SList.snodes l !! t) ->
  forall g, is_Some (SList.snodes l' !! g) <-> is_Some (SList.snodes l !! g).
Proof.
  intros (_ & Hc & _) (_ & Hc' & _) Hx Ht g. destruct (decide (g ∈ t :: xs)) as [Hg|Hg]; [|by rewrite Hx].
  split; intros _.
  - apply elem_of_cons in Hg as [->|Hg]; [done|]. by eapply SList.chain_dom.
  - eapply SList.chain_dom; [exact Hc'|]. set_solver.
Qed.

Lemma own_end r x : wt x = true -> own_fd x (ended r x).
Proof. intros Hw. destruct (ended_bits r x) as (_ & _ & E3 & E4 & _). split; [done|congruence|congruence]. Qed.

Lemma loop_mod_own (s : sys K) L J f fl rq q : io_inv s L J -> lpc s = LMod f fl rq ->
  dispatch_mod f fl rq (ioq_ s) = Ok (q, tt) -> own_ioq (ioq_ s) q.
Proof.
  intros [H1 H2 H3 H4 H5 H6 H7 H8 H9] Hpc E. destruct (H5 f fl rq Hpc) as (x & Hx & E1 & E2 & Erq).
  pose proof (fs_ok _ _ _ _ _ _ H4 f x Hx) as [Fmd Fep Fwt Freg Fdone Fonce]. destruct (H3 f) as [Hn Hnj]; [eauto|].
  assert (wp (dispatch_mod f fl rq) (ioq_ s) (fun _ q' => own_ioq (ioq_ s) q')) as Hw; [|unfold wp in Hw; by rewrite E in Hw].
  destruct (wt x) eqn:Hwt.
  - destruct (decide (rq = 0)) as [->|Hrq].
    + eapply wp_cancel_mod; [exact H1|exact Hx|exact Hn|exact Fmd|exact E2|]. intros q' I' C _.
      eapply own_ioq_changed; [exact C|exact Hx|by apply own_end].
    + eapply wp_register; [exact H1|exact Hx|exact Hn|exact Fmd|exact E2|exact Hrq|..].
      * intros q' C. eapply own_ioq_changed; [exact C|exact Hx|]. split; [done|congruence|by left].
      * intros q' e C He. eapply own_ioq_changed; [exact C|exact Hx|]. split; [done|congruence|by right].
  - unfold dispatch_mod. rewrite truth_waiting, E2. cbn [negb]. rewrite Hpc in *.
    assert (f ∉ J) as HJ by (destruct (Fonce eq_refl) as (_ & _ & N); simpl in N; tauto).
    unfold exec_task. wp_bind. apply (wp_get_fd _ x); [done|]. wp_bind.
    destruct (task_exec_spec _ _ f (task_func x) H2 HJ Hnj) as (l & Hl & Hns & E'). unfold wp, on_runq. rewrite E'.
    split; simpl.
    + intros g. destruct (fds (ioq_ s) !! g); [apply own_fd_refl|done].
    + intros J0 J' HJ0 HJ' t Ht. rewrite (SList.slist_det _ _ _ HJ0 H2), (SList.slist_det _ _ _ HJ' Hl).
      assert (t <> f) by congruence. set_solver.
    + intros t _. by eapply exec_nodes.
Qed.

Lemma loop_own (s s' : sys K) L J : io_inv s L J -> loop_step s s' ->
  own_ioq (ioq_ s) (ioq_ s') /\ busy s' = busy s.
Proof.
  intros H Hs. pose proof H as [H1 H2 H3 H4 H5 [H6 H6'] H7 H8 H9].
  destruct Hs as [s t k es Hpc E|s t k Hpc E|s t k e Hpc E He|s q es Hpc E|s q es Hpc E|s q [ev [f|]] es Hpc E|s Hpc
    |s q f fl rq Hpc E|s q Hpc E|s q f fl rq Hpc E|s Hpc]; (split; [|done]); cbn [ioq_ loop_to];
    try by apply own_ioq_same.
  - by injection E as <-; apply own_ioq_same.
  - by injection E as <-; apply own_ioq_same.
  - rewrite Hpc in *. destruct (H6' (ev, Some f) f) as (x & Hx & Hep); [by left|done|].
    pose proof (fs_ok _ _ _ _ _ _ H4 f x Hx) as [Fmd Fep Fwt _ _ _]. destruct (H3 f) as [Hn _]; [eauto|].
    assert (wp (do_event (ev, Some f)) (ioq_ s) (fun _ q' => own_ioq (ioq_ s) q')) as Hw; [|unfold wp in Hw; by rewrite E in Hw].
    eapply wp_do_event; [exact H1|exact Hx|exact Hn|exact Fmd|]. intros q' C.
    eapply own_ioq_changed; [exact C|exact Hx|]. apply own_end, Fep, Hep.
  - by injection E as <-; apply own_ioq_same.
  - assert (wp mod_dequeue (ioq_ s) (fun _ q' => own_ioq (ioq_ s) q')) as Hw; [|unfold wp in Hw; by rewrite E in Hw].
    apply (wp_mod_dequeue _ L); [done|apply (fs_mods _ _ _ _ _ _ H4)|intros _; by apply own_ioq_same|].
    intros g L' x q' _ Hx C. eapply own_ioq_changed; [exact C|exact Hx|].
    destruct (clear_mod x) as (_ & _ & B3). split; [done|by rewrite B3|by left].
  - assert (wp mod_dequeue (ioq_ s) (fun _ q' => own_ioq (ioq_ s) q')) as Hw; [|unfold wp in Hw; by rewrite E in Hw].
    apply (wp_mod_dequeue _ L); [done|apply (fs_mods _ _ _ _ _ _ H4)|intros _; by apply own_ioq_same|].
    intros g L' x q' _ Hx C. eapply own_ioq_changed; [exact C|exact Hx|].
    destruct (clear_mod x) as (_ & _ & B3). split; [done|by rewrite B3|by left].
  - by eapply loop_mod_own.
Qed.

(** ** The contract *)
Definition io_ok (s : sys K) : Prop := exists L J, io_inv s L J.

Lemma view_inv (s : sys K) f v : io_view s f = Some v ->
  exists x, fds (ioq_ s) !! f = Some x /\ v = mk_view (fd x) (fd_progress (busy s) f x) (ready x) (err x).
Proof. intros (x & -> & Hx)%fmap_Some. by exists x. Qed.

Lemma progress_idle B f x : fd_progress B f x = Idle <-> f ∉ B.
Proof. unfold fd_progress. destruct (decide (f ∈ B)), (wt x); done. Qed.

Lemma view_other q n w B ws cs (s : sys K) pc f x' g : fds q = <[f := x']> (fds (ioq_ s)) -> g <> f ->
  (g ∈ B <-> g ∈ busy s) -> io_view (mk_sys q pc n w B ws cs) g = io_view s g.
Proof.
  intros EF Hg EB. unfold io_view. cbn [ioq_ busy]. rewrite EF, lookup_insert_ne by done.
  destruct (fds (ioq_ s) !! g) as [x|]; simpl; [|done]. do 2 f_equal. unfold fd_progress.
  by rewrite (decide_ext (g ∈ B) (g ∈ busy s)).
Qed.

(** A client's change of one [ioq_fd] leaves the other tasks as they are. *)
Lemma only_change q n w B ws cs (s : sys K) pc f x x' : fds q = <[f := x']> (fds (ioq_ s)) ->
  fds (ioq_ s) !! f = Some x -> run q = run (ioq_ s) -> (forall g, g <> f -> (g ∈ B <-> g ∈ busy s)) ->
  only f s (mk_sys q pc n w B ws cs).
Proof.
  intros EF Hx ER EB. assert (forall t, fds q !! t = None <-> fds (ioq_ s) !! t = None) as Ht.
  { intros t. rewrite EF. destruct (decide (t = f)) as [->|]; [rewrite lookup_insert_eq, Hx; naive_solver|by rewrite lookup_insert_ne]. }
  split.
  - intros g Hg. apply (view_other _ _ _ _ _ _ _ _ f x'); auto.
  - split; intros t; simpl; unfold io_task, io_queued; cbn [ioq_]; by rewrite ER, Ht.
Qed.

(** An [ioq_fd] without a wait is initialised again, or given another descriptor. *)
Lemma idle_law f (m : M (ioq K) unit) u (s : sys K) v : io_ok s -> io_view s f = Some v -> v_status v = Idle ->
  (forall x, fds (ioq_ s) !! f = Some x -> m (ioq_ s) = Ok (set_fds (<[f := u x]> (fds (ioq_ s))) (ioq_ s), tt) /\
     (flags (u x) = flags x \/ flags (u x) = 0)) ->
  wp (client (m;; ret false) busy waits) s (fun _ s' => io_ok s' /\ only f s s' /\
    exists x, fds (ioq_ s) !! f = Some x /\ v = mk_view (fd x) Idle (ready x) (err x) /\
      io_view s' f = Some (mk_view (fd (u x)) Idle (ready (u x)) (err (u x)))).
Proof.
  intros (L & J & H) Hv Hi Hm. destruct (view_inv s f v Hv) as (x & Hx & ->). pose proof Hi as Hb. apply progress_idle in Hb.
  destruct (Hm x Hx) as [E Hfl]. pose proof (inv_idle s L J f x (u x) H Hx Hb Hfl) as H'.
  unfold wp, client, bind, ret. rewrite E. simpl. rewrite Nat.add_0_r.
  split; [by exists L, J|]. split; [by eapply only_change|]. exists x. split; [done|]. split; [by rewrite <- Hi|].
  unfold io_view, fd_progress. simpl. rewrite lookup_insert_eq. simpl. by rewrite decide_False.
Qed.

Lemma init_law f d (s : sys K) v : io_ok s -> io_view s f = Some v -> v_status v = Idle ->
  wp (q_init f d) s (fun _ s' => io_ok s' /\ only f s s' /\ io_view s' f = Some (mk_view d Idle 0 0)).
Proof.
  intros Hok Hv Hi. eapply wp_mono; [apply (idle_law f (ioq_fd_init f d) (fun _ => mk_fd 0 d 0 0 0 0) s v); [done..|]|].
  - intros x Hx. split; [done|by right].
  - intros _ s' (? & ? & x & _ & _ & ?). done.
Qed.

Lemma set_fd_law f d (s : sys K) v : io_ok s -> io_view s f = Some v -> v_status v = Idle ->
  wp (q_set_fd f d) s (fun _ s' => io_ok s' /\ only f s s' /\ io_view s' f = Some (mk_view d Idle (v_ready v) (v_err v))).
Proof.
  intros Hok Hv Hi. eapply wp_mono; [apply (idle_law f (ioq_fd_set_fd f d) (set_fd d) s v); [done..|]|].
  - intros x Hx. split; [|by left]. unfold ioq_fd_set_fd, upd_fd, get_fd, bind, get, need. by rewrite Hx.
  - intros _ s' (? & ? & x & _ & -> & ?). done.
Qed.

Lemma wait_law f set fn (s : sys K) v : io_ok s -> io_view s f = Some v -> v_status v = Idle ->
  sole s f (v_fd v) -> set <> 0 ->
  wp (q_wait f set fn) s (fun _ s' => io_ok s' /\ only f s s' /\
    io_view s' f = Some (mk_view (v_fd v) (Waiting set) 0 0)).
Proof.
  intros (L & J & H) Hv Hb Ha Hset. destruct (view_inv s f v Hv) as (x & Hx & ->). apply progress_idle in Hb. cbn [v_fd] in *.
  destruct (fs_ok _ _ _ _ _ _ (io_fds _ _ _ H) f x Hx) as [Fmd _ Fwt _ Fdone _].
  assert (wt x = false) as Ew by (destruct (wt x); [by destruct (Fwt eq_refl)|done]).
  assert (f ∉ L) as HL by (specialize (Fdone Ew); tauto).
  assert (alone (fds (ioq_ s)) (busy s) f x) as Hal.
  { intros g y Hg HB Hy. apply (Ha g (mk_view (fd y) (fd_progress (busy s) g y) (ready y) (err y))); [done| |].
    - simpl. unfold io_view. by rewrite Hy.
    - simpl. by intros ?%progress_idle. }
  destruct (io_nodes _ _ _ H f) as [Hn _]; [eauto|].
  assert (wp (ioq_fd_wait f set fn) (ioq_ s) (fun _ q => fds q = <[f := flags_or IOQ_FLAG_MOD_LIST
    (mk_fd fn (fd x) 0 0 IOQ_FLAG_WAITING set)]> (fds (ioq_ s)) /\ run q = run (ioq_ s))) as Hw.
  { eapply wp_ioq_fd_wait; [apply (io_mods _ _ _ H)|exact Hx|exact Hn|exact HL|exact Hset|].
    intros q [C1 C2 C3 C4 C5 C6 C7]. split; [exact C1|]. unfold run. by rewrite C5. }
  apply wp_run in Hw as (q & w & E & EF & ER).
  destruct (inv_wait_begin s L J f x set fn q w H Hx Hb Hal Hset E) as [L' H'].
  unfold wp, q_wait, io_wait_queue, client. rewrite E. split; [by exists L', J|]. split.
  - eapply only_change; [exact EF|exact Hx|exact ER|set_solver].
  - unfold io_view. cbn [ioq_ busy]. rewrite EF, lookup_insert_eq. simpl. unfold fd_progress.
    by rewrite decide_True by set_solver.
Qed.

Lemma rewait_law f set (s : sys K) v : io_ok s -> io_view s f = Some v ->
  wp (q_rewait f set) s (fun _ s' => io_ok s' /\ only f s s' /\
    io_view s' f = Some (match v_status v with
      | Waiting _ => mk_view (v_fd v) (Waiting set) (v_ready v) (v_err v) | _ => v end)).
Proof.
  intros (L & J & H) Hv. destruct (view_inv s f v Hv) as (x & Hx & ->). cbn [v_fd v_status v_ready v_err].
  destruct (fs_ok _ _ _ _ _ _ (io_fds _ _ _ H) f x Hx) as [Fmd _ Fwt _ Fdone _].
  destruct (io_nodes _ _ _ H f) as [Hn _]; [eauto|].
  set (x' := if wt x then flags_or IOQ_FLAG_MOD_LIST (set_requested set x) else x).
  assert (wp (ioq_fd_rewait f set) (ioq_ s) (fun _ q => fds q = <[f := x']> (fds (ioq_ s)) /\ run q = run (ioq_ s))) as Hw.
  { eapply wp_ioq_fd_rewait; [apply (io_mods _ _ _ H)|exact Hx|exact Hn|exact Fmd|..]; unfold x'; intros ->.
    - by rewrite insert_id.
    - intros q [C1 C2 C3 C4 C5 C6 C7]. split; [exact C1|]. unfold run. by rewrite C5. }
  apply wp_run in Hw as (q & w & E & EF & ER).
  destruct (inv_rewait s L J f set q w H (mk_is_Some _ _ Hx) E) as [L' H'].
  unfold wp, q_rewait, io_wait_queue, client. rewrite E. split; [by exists L', J|]. split.
  - by eapply only_change; [exact EF|exact Hx|exact ER|].
  - unfold io_view. cbn [ioq_ busy]. rewrite EF, lookup_insert_eq. simpl. unfold fd_progress, x'.
    destruct (decide (f ∈ busy s)) as [Hb|Hb], (wt x) eqn:Ew; rewrite ?Ew; try done.
    pose proof (md_or (set_requested set x)) as (_ & _ & B3). change (wt (set_requested set x)) with (wt x) in B3.
    by rewrite B3, Ew.
Qed.

Lemma exec_law t fn (s : sys K) : io_ok s -> io_task s t -> ~ io_queued s t ->
  wp (q_exec t fn) s (fun _ s' => io_ok s' /\ same_views s s' /\
    forall u, (io_task s' u <-> io_task s u) /\ (io_queued s' u <-> u = t \/ io_queued s u)).
Proof.
  intros (L & J & H) [Ht Hn] Hq. pose proof (io_jobs _ _ _ H) as HJ.
  assert (t ∉ J) as HtJ by (intros ?; apply Hq; split; eauto).
  destruct (task_exec_spec _ _ t fn HJ HtJ Hn) as (l & Hl & Hx & E).
  destruct (inv_client s _ L J H (client_submit s t fn _ _ Ht Hn (fun xs Hxs => ltac:(by rewrite (SList.slist_det _ _ _ Hxs HJ))) E))
    as (L' & J' & H').
  unfold wp, q_exec, io_wait_queue, client, on_runq, bind, ret. simpl. rewrite E. simpl. rewrite Nat.add_0_r.
  split; [by exists L', J'|]. split; [done|].
  intros u. unfold io_task, io_queued. cbn [ioq_]. change (fds (set_run _ _)) with (fds (ioq_ s)). split.
  - change (run (set_run ?r _)) with r. cbn [job_list]. by rewrite (exec_nodes _ _ _ _ HJ Hl Hx Hn u).
  - change (run (set_run ?r _)) with r. cbn [job_list]. split.
    + intros (Hu & J1 & HJ1 & Hin). rewrite (SList.slist_det _ _ _ HJ1 Hl) in Hin.
      apply elem_of_app in Hin as [Hin|Hin]; [right; eauto|left; set_solver].
    + intros [->|(Hu & J1 & HJ1 & Hin)]; [split; [done|]; exists (J ++ [t]); set_solver|].
      split; [done|]. exists (J ++ [t]). split; [done|]. rewrite <- (SList.slist_det _ _ _ HJ1 HJ). set_solver.
Qed.

Lemma own_step (s s' : sys K) L J : io_inv s L J -> io_own s s' ->
  io_step s s' /\ own_ioq (ioq_ s) (ioq_ s') /\ busy s' = busy s.
Proof.
  intros H Hs. destruct Hs as [s s' Hl|s|s n q w Hn E|s n q Hn E|s w Hw|s k Hk].
  - split; [by left|]. by eapply loop_own.
  - split; [right; constructor|]. split; [by apply own_ioq_same|done].
  - split; [right; by econstructor|]. injection E as <- <-. split; [by apply own_ioq_same|done].
  - split; [right; by econstructor|]. injection E as <-. split; [by apply own_ioq_same|done].
  - split; [right; by econstructor|]. split; [by apply own_ioq_same|done].
  - split; [right; by econstructor|]. split; [by apply own_ioq_same|done].
Qed.

Lemma step_ok (s s' : sys K) : io_ok s -> io_step s s' -> io_ok s'.
Proof. intros (L & J & H) [Hs|Hs]; [by eapply inv_loop|by eapply inv_client]. Qed.

Lemma moved_view (s : sys K) L J f x x' : io_inv s L J -> fds (ioq_ s) !! f = Some x -> own_fd x x' ->
  moved (mk_view (fd x) (fd_progress (busy s) f x) (ready x) (err x))
    (mk_view (fd x') (fd_progress (busy s) f x') (ready x') (err x')).
Proof.
  intros H Hx [Ef Ed Ew]. split; [done|]. cbn [v_status v_ready v_err].
  pose proof (fo_wait _ _ _ _ _ _ _ (fs_ok _ _ _ _ _ _ (io_fds _ _ _ H) f x Hx)) as Fwt.
  unfold fd_progress. destruct (wt x) eqn:Hw.
  - destruct (Fwt eq_refl) as [Hb _]. rewrite !decide_True by done. rewrite Ef. destruct (wt x') eqn:Hw'; [|by eauto].
    destruct (Ew eq_refl) as [(-> & -> & ->)|(-> & He & ->)]; [by left|right]. eauto 10.
  - left. destruct (Ed eq_refl) as (-> & -> & ->). by rewrite Ef.
Qed.

Lemma own_law (s s' : sys K) : io_ok s -> io_own s s' -> io_ok s' /\ same_tasks s s' /\
  forall f, match io_view s f, io_view s' f with Some v, Some v' => moved v v' | None, None => True | _, _ => False end.
Proof.
  intros Hok Ho. pose proof Hok as (L & J & H). destruct (own_step s s' L J H Ho) as (Hs & [O1 O2 O3] & EB).
  pose proof (step_ok s s' Hok Hs) as Hok'. pose proof Hok' as (L' & J' & H').
  assert (forall t, fds (ioq_ s') !! t = None <-> fds (ioq_ s) !! t = None) as HN.
  { intros t. specialize (O1 t). destruct (fds (ioq_ s) !! t), (fds (ioq_ s') !! t); naive_solver. }
  split; [done|]. split; [split; intros t; simpl; unfold io_task, io_queued; rewrite HN|].
  - split; intros [Ht ?]; (split; [done|]); by apply (O3 t Ht).
  - pose proof (io_jobs _ _ _ H) as HJ. pose proof (io_jobs _ _ _ H') as HJ'.
    split; intros (Ht & J1 & HJ1 & Hin); (split; [done|]).
    + exists J. split; [done|]. rewrite (SList.slist_det _ _ _ HJ1 HJ') in Hin. by apply (O2 _ _ HJ HJ' t Ht).
    + exists J'. split; [done|]. rewrite (SList.slist_det _ _ _ HJ1 HJ) in Hin. by apply (O2 _ _ HJ HJ' t Ht).
  - intros f. unfold io_view. specialize (O1 f).
    destruct (fds (ioq_ s) !! f) as [x|] eqn:Hx, (fds (ioq_ s') !! f) as [x'|]; simpl; try done.
    rewrite EB. by eapply moved_view.
Qed.

Lemma call_law f (s s' : sys K) : io_ok s -> io_call f s s' -> io_ok s' /\
  (forall u, io_task s' u <-> io_task s u) /\
  match io_view s f with
  | Some v => v_status v = Ending /\ only f s s' /\ io_view s' f = Some (mk_view (v_fd v) Idle (v_ready v) (v_err v))
  | None => io_queued s f /\ same_views s s' /\ forall u, io_queued s' u <-> u <> f /\ io_queued s u
  end.
Proof.
  intros (L & J & H) Hc. destruct Hc as [s r f E]. destruct (inv_call s L J r f H E) as (J' & -> & Hbusy & H').
  pose proof (io_jobs _ _ _ H) as HJ. pose proof (io_jobs _ _ _ H') as HJ'. simpl in HJ'.
  destruct (run_one_spec _ _ HJ) as (l & Hl & Hns & E'). rewrite E in E'.
  destruct (quit_request (run (ioq_ s))); [done|]. injection E' as ->.
  assert (f ∉ J') as Hf by (destruct HJ as [Hnd _]; by apply NoDup_cons in Hnd as [? _]).
  set (s' := mk_sys _ _ _ _ _ _ _).
  assert (forall u, io_task s' u <-> io_task s u) as HT.
  { intros u. unfold io_task, s'. cbn [ioq_]. change (run (set_run ?r _)) with r. cbn [job_list set_jobs]. by rewrite Hns. }
  assert (forall u, io_queued s' u <-> u <> f /\ io_queued s u) as HQ.
  { intros u. unfold io_queued, s'. cbn [ioq_]. change (run (set_run ?r _)) with r. cbn [job_list set_jobs].
    change (fds (set_run _ _)) with (fds (ioq_ s)). split.
    - intros (Hu & J1 & HJ1 & Hin). rewrite (SList.slist_det _ _ _ HJ1 HJ') in Hin.
      split; [by intros ->|]. split; [done|]. exists (f :: J'). split; [done|by right].
    - intros (Hne & Hu & J1 & HJ1 & Hin). rewrite (SList.slist_det _ _ _ HJ1 HJ) in Hin.
      split; [done|]. exists J'. split; [done|]. set_solver. }
  assert (forall g, g <> f -> io_view s' g = io_view s g) as HV.
  { intros g Hg. unfold io_view, s'. cbn [ioq_ busy]. change (fds (set_run _ _)) with (fds (ioq_ s)).
    destruct (fds (ioq_ s) !! g) as [x|]; simpl; [|done]. do 2 f_equal. unfold fd_progress.
    by rewrite (decide_ext (g ∈ busy s ∖ {[f]}) (g ∈ busy s)) by set_solver. }
  split; [by exists L, J'|]. split; [done|].
  unfold io_view at 1. destruct (fds (ioq_ s) !! f) as [x|] eqn:Hx; simpl.
  - destruct (fs_ok _ _ _ _ _ _ (io_fds _ _ _ H) f x Hx) as [_ _ Fwt _ _ _].
    assert (wt x = false) as Ew. { destruct (wt x); [|done]. destruct (Fwt eq_refl) as [_ []]. by left. }
    split; [unfold fd_progress; by rewrite decide_True, Ew by eauto|]. split.
    + split; [done|]. split; [done|]. intros t. simpl. rewrite HQ. split; [tauto|]. intros Ht. split; [|done].
      intros ->. destruct Ht as [Ht _]. congruence.
    + unfold io_view, s'. cbn [ioq_ busy]. change (fds (set_run _ _)) with (fds (ioq_ s)). rewrite Hx. simpl.
      unfold fd_progress at 1. by rewrite decide_False by set_solver.
  - split; [split; [done|]; exists (f :: J'); split; [done|by left]|]. split; [|done].
    intros g. destruct (decide (g = f)) as [->|]; [|by apply HV]. unfold view, io_wait_queue, io_view, s'.
    cbn [ioq_]. change (fds (set_run _ _)) with (fds (ioq_ s)). by rewrite Hx.
Qed.

Lemma task_law (s : sys K) f : io_task s f -> io_view s f = None.
Proof. intros [Hf _]. unfold io_view. by rewrite Hf. Qed.

Lemma queued_law (s : sys K) f : io_ok s -> io_queued s f -> io_view s f = None.
Proof. intros _ [Hf _]. unfold io_view. by rewrite Hf. Qed.

#[export] Instance io_wait_queue_laws : WaitQueueLaws (sys K) := {
  wq_ok := io_ok;
  wq_init := init_law;
  wq_set_fd := set_fd_law;
  wq_wait := wait_law;
  wq_rewait := rewait_law;
  wq_exec := exec_law;
  wq_own := own_law;
  wq_call := call_law;
  wq_task := task_law;
  wq_queued := queued_law;
}.
End discharge.
