(* ===== verification/Asock.v ===== *)
(** Model of src/io/asock.h and src/io/asock_posix.c: sockets whose connects,
    accepts, sends and receives complete by callback.

    The socket object at [t] embeds an [ioq_fd], at [t~0], and a task, at [t~1], of
    a queue that keeps the contract of [Wait].  The system calls belong to the
    operating system: they are a class.  Closing a descriptor that is not open is an
    error here, as it would close another's.  A function that ends in
    [dispatch_push] returns the operations to push, 0 for none; what it does before
    that is one critical section, and the fields of a request belong to the client
    until then. *)
From S2P Require Import Prelude Ioq Wait.

Definition OP_CONNECT : Z := 1.
Definition OP_ACCEPT : Z := 2.
Definition OP_SEND : Z := 4.
Definition OP_RECV : Z := 8.
Definition OP_CANCEL : Z := 16.

Definition EBADF : Z := 9.
Definition EAGAIN : Z := 11.
Definition EINPROGRESS : Z := 115.

(** The system calls: a result, and the error number if it is negative. *)
Class Sockets (O : Type) := {
  opened : O -> gset Z;
  sys_socket : O -> O * (Z * Z);
  sys_setsockopt : Z -> O -> O * (Z * Z);
  sys_bind : Z -> Z -> Z -> O -> O * (Z * Z);
  sys_listen : Z -> O -> O * (Z * Z);
  sys_connect : Z -> Z -> Z -> O -> O * (Z * Z);
  sys_accept : Z -> O -> O * (Z * Z);
  sys_send : Z -> Z -> Z -> O -> O * (Z * Z);
  sys_recv : Z -> Z -> Z -> O -> O * (Z * Z);
  sys_close : Z -> O -> O;
}.

(** [r] is a new descriptor, or negative. *)
Definition opens {O} `{Sockets O} (o o' : O) (r : Z) : Prop :=
  if r <? 0 then opened o' = opened o else r ∉ opened o /\ opened o' = {[r]} ∪ opened o.

(** socket(2), accept(2), close(2), send(2), recv(2); the others neither open nor
    close a descriptor. *)
Class SocketsLaws (O : Type) `{Sockets O} := {
  socket_opens o o' r e : sys_socket o = (o', (r, e)) -> opens o o' r;
  accept_opens d o o' r e : sys_accept d o = (o', (r, e)) -> opens o o' r;
  close_closes d o : opened (sys_close d o) = opened o ∖ {[d]};
  setsockopt_keeps d o : opened (sys_setsockopt d o).1 = opened o;
  bind_keeps d a l o : opened (sys_bind d a l o).1 = opened o;
  listen_keeps d o : opened (sys_listen d o).1 = opened o;
  connect_keeps d a l o : opened (sys_connect d a l o).1 = opened o;
  send_keeps d p n o : opened (sys_send d p n o).1 = opened o;
  recv_keeps d p n o : opened (sys_recv d p n o).1 = opened o;
  send_size_le d p n o : 0 <= n -> (sys_send d p n o).2.1 <= n;
  recv_size_le d p n o : 0 <= n -> (sys_recv d p n o).2.1 <= n;
}.

(** The request to connect or accept; to send or receive. *)
Record ca_req := mk_ca {
  ca_func : Z;
  ca_error : Z;
  ca_addr : Z;
  ca_size : Z;
  ca_client : positive;
}.
Record io_req := mk_req {
  r_func : Z;
  r_data : Z;
  r_size : Z;
  r_error : Z;
}.
Record asock := mk_asock {
  sock : Z;
  ca : ca_req;
  snd_req : io_req;
  rcv_req : io_req;
  wait_ops : Z;
  dispatch_queue : Z;
}.

Definition set_sock v x := mk_asock v (ca x) (snd_req x) (rcv_req x) (wait_ops x) (dispatch_queue x).
Definition set_ca v x := mk_asock (sock x) v (snd_req x) (rcv_req x) (wait_ops x) (dispatch_queue x).
Definition set_snd v x := mk_asock (sock x) (ca x) v (rcv_req x) (wait_ops x) (dispatch_queue x).
Definition set_rcv v x := mk_asock (sock x) (ca x) (snd_req x) v (wait_ops x) (dispatch_queue x).
Definition set_wait_ops v x := mk_asock (sock x) (ca x) (snd_req x) (rcv_req x) v (dispatch_queue x).
Definition set_dispatch v x := mk_asock (sock x) (ca x) (snd_req x) (rcv_req x) (wait_ops x) v.

Definition set_ca_error e x := set_ca (mk_ca (ca_func (ca x)) e (ca_addr (ca x)) (ca_size (ca x)) (ca_client (ca x))) x.
(** The outcome of a request to send or receive. *)
Definition result (size e : Z) (r : io_req) : io_req := mk_req (r_func r) (r_data r) size e.
Definition with_error (e : Z) (r : io_req) : io_req := mk_req (r_func r) (r_data r) (r_size r) e.

Definition wait_fd (t : positive) : positive := t~0.
Definition dispatch_task (t : positive) : positive := t~1.

(** The functions given to the queue. *)
Definition WAIT_END : Z := 1.
Definition DISPATCH_FUNC : Z := 2.

(** What a callback is for: [ca_func], [send_func], [recv_func]. *)
Inductive kind := CA | SEND | RECV.
#[export] Instance kind_eq_dec : EqDecision kind.
Proof. solve_decision. Defined.

Definition kind_ops (k : kind) : Z :=
  match k with CA => Z.lor OP_CONNECT OP_ACCEPT | SEND => OP_SEND | RECV => OP_RECV end.
Definition has (k : kind) (ops : Z) : bool := truth (Z.land ops (kind_ops k)).

(** The calls of [dispatch_func]. *)
Definition dispatch_calls (ops : Z) : list kind :=
  (if has CA ops then [CA] else []) ++ (if has SEND ops then [SEND] else []) ++ (if has RECV ops then [RECV] else []).

Definition wait_mask (ops : Z) : Z :=
  Z.lor (if truth (Z.land ops (Z.lor OP_CONNECT OP_SEND)) then IOQ_EVENT_OUT else 0)
    (if truth (Z.land ops (Z.lor OP_CONNECT (Z.lor OP_ACCEPT OP_RECV)))
     then Z.lor IOQ_EVENT_IN (Z.lor IOQ_EVENT_ERR IOQ_EVENT_HUP) else 0).

Section asock.
Context {Q O : Type} `{!WaitQueue Q} `{!Sockets O}.

Record net := mk_net {
  socks : gmap positive asock;
  ioq : Q;
  os : O;
}.

Definition get_sock (t : positive) : M net asock := s ← get; need (socks s !! t).
Definition upd (t : positive) (u : asock -> asock) : M net unit :=
  x ← get_sock t; modify (fun s => mk_net (<[t := u x]> (socks s)) (ioq s) (os s)).

Definition on_queue (m : M Q unit) : M net unit := fun s =>
  match m (ioq s) with
  | Ok (q, tt) => Ok (mk_net (socks s) q (os s), tt)
  | Crash => Crash
  | NoFuel => NoFuel
  end.
Definition syscall (c : O -> O * (Z * Z)) : M net (Z * Z) :=
  s ← get; let '(o, r) := c (os s) in put (mk_net (socks s) (ioq s) o);; ret r.
Definition close (d : Z) : M net unit :=
  s ← get;
  if decide (d ∈ opened (os s)) then put (mk_net (socks s) (ioq s) (sys_close d (os s))) else crash.
Definition get_fd (t : positive) : M net fd_view := s ← get; need (view (ioq s) (wait_fd t)).

(** * Dispatcher *)

(** [dispatch_func], up to the end of its critical section. *)
Definition dispatch_take (t : positive) : M net (list kind) :=
  x ← get_sock t;
  upd t (set_dispatch 0);;
  ret (dispatch_calls (dispatch_queue x)).

(** The critical section of [dispatch_push]: whether to submit the task. *)
Definition dispatch_push_lock (t : positive) (ops : Z) : M net bool :=
  x ← get_sock t;
  upd t (set_dispatch (Z.lor (dispatch_queue x) ops));;
  ret ((dispatch_queue x =? 0) && negb (ops =? 0)).
Definition dispatch_exec (t : positive) : M net unit := on_queue (q_exec (dispatch_task t) DISPATCH_FUNC).
Definition dispatch_push (t : positive) (ops : Z) : M net unit :=
  b ← dispatch_push_lock t ops; when b (dispatch_exec t).

(** * Wait process *)
Definition wait_init (t : positive) : M net unit :=
  x ← get_sock t;
  on_queue (q_init (wait_fd t) (sock x));;
  upd t (set_wait_ops 0).

Definition wait_connect (t : positive) : M net Z :=
  x ← get_sock t;
  v ← get_fd t;
  '(r, errno) ← syscall (sys_connect (v_fd v) (ca_addr (ca x)) (ca_size (ca x)));
  if r <? 0 then
    if errno =? EAGAIN then ret 0
    else upd t (set_ca_error errno);; ret OP_CONNECT
  else upd t (set_ca_error 0);; ret OP_CONNECT.

Definition wait_accept (t : positive) : M net Z :=
  x ← get_sock t;
  v ← get_fd t;
  if negb (truth (Z.land (v_ready v) (Z.lor IOQ_EVENT_IN (Z.lor IOQ_EVENT_OUT IOQ_EVENT_ERR)))) then ret 0
  else
    '(r, errno) ← syscall (sys_accept (v_fd v));
    if r <? 0 then
      if errno =? EAGAIN then ret 0
      else upd t (set_ca_error errno);; ret OP_ACCEPT
    else
      let c := ca_client (ca x) in
      y ← get_sock c;
      when (0 <=? sock y) (close (sock y));;
      upd c (set_sock r);;
      upd t (set_ca_error 0);;
      wait_init c;;
      ret OP_ACCEPT.

Definition wait_send (t : positive) : M net Z :=
  x ← get_sock t;
  v ← get_fd t;
  if negb (truth (Z.land (v_ready v) (Z.lor IOQ_EVENT_OUT IOQ_EVENT_ERR))) then ret 0
  else
    '(r, errno) ← syscall (sys_send (v_fd v) (r_data (snd_req x)) (r_size (snd_req x)));
    if r <? 0 then
      if errno =? EAGAIN then ret 0
      else upd t (set_snd (result 0 errno (snd_req x)));; ret OP_SEND
    else upd t (set_snd (result r 0 (snd_req x)));; ret OP_SEND.

Definition wait_recv (t : positive) : M net Z :=
  x ← get_sock t;
  v ← get_fd t;
  if truth (Z.land (v_ready v) IOQ_EVENT_HUP) then upd t (set_rcv (result 0 0 (rcv_req x)));; ret OP_RECV
  else if negb (truth (Z.land (v_ready v) (Z.lor IOQ_EVENT_IN IOQ_EVENT_HUP))) then ret 0
  else
    '(r, errno) ← syscall (sys_recv (v_fd v) (r_data (rcv_req x)) (r_size (rcv_req x)));
    if r <? 0 then
      if errno =? EAGAIN then ret 0
      else upd t (set_rcv (result 0 errno (rcv_req x)));; ret OP_RECV
    else upd t (set_rcv (result r 0 (rcv_req x)));; ret OP_RECV.

(** [if (t->wait_ops & op) dispatch_mask |= m;] *)
Definition attempt (t : positive) (op : Z) (m : M net Z) (mask : Z) : M net Z :=
  x ← get_sock t;
  if truth (Z.land (wait_ops x) op) then r ← m; ret (Z.lor mask r) else ret mask.

(** The critical section of [wait_end]: [dispatch_mask]. *)
Definition wait_end (t : positive) : M net Z :=
  x ← get_sock t;
  v ← get_fd t;
  let ops := wait_ops x in
  let e := v_err v in
  if truth (Z.land ops OP_CANCEL) || truth e then
    when (truth (Z.land ops (Z.lor OP_CONNECT OP_ACCEPT))) (upd t (set_ca_error e));;
    when (truth (Z.land ops OP_SEND)) (upd t (fun x => set_snd (result 0 e (snd_req x)) x));;
    when (truth (Z.land ops OP_RECV)) (upd t (fun x => set_rcv (result 0 e (rcv_req x)) x));;
    when (truth (Z.land ops OP_CANCEL)) (close (v_fd v));;
    upd t (set_wait_ops 0);;
    ret ops
  else
    m1 ← attempt t OP_CONNECT (wait_connect t) 0;
    m2 ← attempt t OP_ACCEPT (wait_accept t) m1;
    m3 ← attempt t OP_SEND (wait_send t) m2;
    mask ← attempt t OP_RECV (wait_recv t) m3;
    upd t (fun x => set_wait_ops (Z.land (wait_ops x) (Z.lnot mask)) x);;
    x ← get_sock t;
    when (truth (wait_ops x)) (on_queue (q_wait (wait_fd t) (wait_mask (wait_ops x)) WAIT_END));;
    ret mask.

Definition wait_begin (t : positive) (mask : Z) : M net Z :=
  x ← get_sock t;
  let r := wait_ops x in
  (if truth (Z.land mask OP_CANCEL) then
     when (truth r) (upd t (set_wait_ops (Z.lor r OP_CANCEL));; on_queue (q_cancel (wait_fd t)))
   else
     upd t (set_wait_ops (Z.lor r mask));;
     let m := wait_mask (Z.lor r mask) in
     if truth r then on_queue (q_rewait (wait_fd t) m)
     else on_queue (q_wait (wait_fd t) m WAIT_END));;
  ret r.

(** * Public interface *)
Definition new_sock : asock := mk_asock (-1) (mk_ca 0 0 0 0 1) (mk_req 0 0 0 0) (mk_req 0 0 0 0) 0 0.
Definition asock_init (t : positive) : M net unit :=
  modify (fun s => mk_net (<[t := new_sock]> (socks s)) (ioq s) (os s)).

Definition asock_destroy (t : positive) : M net unit :=
  x ← get_sock t; when (0 <=? sock x) (close (sock x)).

Definition asock_get_error (x : asock) : Z := ca_error (ca x).
Definition asock_get_handle (x : asock) : Z := sock x.
Definition asock_get_send_error (x : asock) : Z := r_error (snd_req x).
Definition asock_get_send_size (x : asock) : Z := r_size (snd_req x).
Definition asock_get_recv_error (x : asock) : Z := r_error (rcv_req x).
Definition asock_get_recv_size (x : asock) : Z := r_size (rcv_req x).

Definition asock_close (t : positive) : M net unit :=
  x ← get_sock t;
  if sock x <? 0 then ret tt
  else
    r ← wait_begin t OP_CANCEL;
    when (negb (truth r)) (close (sock x));;
    upd t (set_sock (-1)).

(** A system call of [asock_listen] on the new socket; its failure is returned. *)
Definition listen_call (t : positive) (c : Z -> O -> O * (Z * Z)) (next : M net Z) : M net Z :=
  x ← get_sock t;
  '(r, errno) ← syscall (c (sock x));
  if r <? 0 then upd t (set_ca_error errno);; ret (-1) else next.

Definition asock_listen (t : positive) (sa sa_len : Z) : M net Z :=
  x ← get_sock t;
  when (0 <=? sock x) (close (sock x));;
  '(r, errno) ← syscall sys_socket;
  upd t (set_sock r);;
  if r <? 0 then upd t (set_ca_error errno);; ret (-1)
  else
    wait_init t;;
    listen_call t sys_setsockopt (
    listen_call t (fun d => sys_bind d sa sa_len) (
    listen_call t sys_listen (
    ret 0))).

Definition asock_accept (t client : positive) (func : Z) : M net Z :=
  x ← get_sock t;
  upd t (set_ca (mk_ca func (ca_error (ca x)) (ca_addr (ca x)) (ca_size (ca x)) client));;
  if sock x <? 0 then upd t (set_ca_error EBADF);; ret OP_ACCEPT
  else wait_begin t OP_ACCEPT;; ret 0.

(** [errno0] is the [errno] of the thread when [connect] is called, which does not
    change it when it succeeds. *)
Definition asock_connect (t : positive) (sa sa_len func errno0 : Z) : M net Z :=
  x ← get_sock t;
  when (0 <=? sock x) (close (sock x));;
  upd t (set_ca (mk_ca func (ca_error (ca x)) sa sa_len (ca_client (ca x))));;
  '(r, errno) ← syscall sys_socket;
  upd t (set_sock r);;
  if r <? 0 then upd t (set_ca_error errno);; ret OP_CONNECT
  else
    wait_init t;;
    '(r', e') ← syscall (sys_connect r sa sa_len);
    let errno := if r' <? 0 then e' else errno0 in
    if negb (errno =? EINPROGRESS) then upd t (set_ca_error errno);; ret OP_CONNECT
    else wait_begin t OP_CONNECT;; ret 0.

Definition asock_send (t : positive) (data len func : Z) : M net Z :=
  x ← get_sock t;
  upd t (set_snd (mk_req func data len (r_error (snd_req x))));;
  if sock x <? 0 then upd t (fun x => set_snd (with_error EBADF (snd_req x)) x);; ret OP_SEND
  else wait_begin t OP_SEND;; ret 0.

Definition asock_recv (t : positive) (data max_len func : Z) : M net Z :=
  x ← get_sock t;
  upd t (set_rcv (mk_req func data max_len (r_error (rcv_req x))));;
  if sock x <? 0 then upd t (fun x => set_rcv (with_error EBADF (rcv_req x)) x);; ret OP_RECV
  else wait_begin t OP_RECV;; ret 0.
End asock.
Arguments net Q O : clear implicits.
