(* ===== verification/AsockSys.v ===== *)
(** Sockets among their threads: clients, callbacks of the queue, and the
    dispatcher, as steps; the invariant they keep. *)
From S2P Require Import Prelude Ioq Wait Asock.

(** * The threads

    The calls of [wait_end] that have not entered their critical section; what is
    to be pushed; the sockets whose task is to be submitted; the calls of
    [dispatch_func] that have not taken their operations; the callbacks that remain
    to be called.  [begun] and [called] are the history. *)
Record threads := mk_threads {
  ending : list positive;
  pushing : list (positive * Z);
  execing : list positive;
  taking : list positive;
  calling : list (positive * list kind);
  begun : list (positive * kind);
  called : list (positive * kind);
}.

Definition req_dec (a b : positive * kind) : {a = b} + {a <> b} := decide (a = b).
Definition at_ (t : positive) (n : nat) (u : positive) : nat := if decide (u = t) then n else 0%nat.

(** How often [t] occurs in each; how often with a callback of kind [k] owed. *)
Definition ending_n (h : threads) (t : positive) : nat := count_occ Pos.eq_dec (ending h) t.
Definition execing_n (h : threads) (t : positive) : nat := count_occ Pos.eq_dec (execing h) t.
Definition taking_n (h : threads) (t : positive) : nat := count_occ Pos.eq_dec (taking h) t.
Definition pushing_n (h : threads) (t : positive) (k : kind) : nat :=
  sum_list_with (fun p => at_ t (b2n (has k p.2)) p.1) (pushing h).
Definition calling_n (h : threads) (t : positive) (k : kind) : nat :=
  sum_list_with (fun p => at_ t (count_occ kind_eq_dec p.2 k) p.1) (calling h).
Definition begun_n (h : threads) (t : positive) (k : kind) : nat := count_occ req_dec (begun h) (t, k).
Definition called_n (h : threads) (t : positive) (k : kind) : nat := count_occ req_dec (called h) (t, k).

(** No request of kind [k] is outstanding. *)
Definition free (h : threads) (t : positive) (k : kind) : Prop := begun_n h t k = called_n h t k.

Definition push (t : positive) (ops : Z) : list (positive * Z) := if truth ops then [(t, ops)] else [].

Section system.
Context {Q O : Type} `{!WaitQueue Q} `{!Sockets O}.

Record asys := mk_asys {
  net_ : net Q O;
  th : threads;
}.

Definition accepts (x : asock) : bool := truth (Z.land (wait_ops x) OP_ACCEPT).
Definition cancelled (x : asock) : bool := truth (Z.land (wait_ops x) OP_CANCEL).

(** Some accept is to hand its connection to [c]. *)
Definition reserved (n : net Q O) (c : positive) : Prop :=
  exists t x, socks n !! t = Some x /\ accepts x = true /\ ca_client (ca x) = c.

(** The descriptor that [t] has open: that of the socket, or, once it is closed
    while a wait is in progress, that of the wait. *)
Definition held (q : Q) (t : positive) (x : asock) : option Z :=
  if 0 <=? sock x then Some (sock x)
  else if cancelled x then v_fd <$> view q (wait_fd t)
  else None.

(** The requests that clients may make, one of each kind at a time.  The socket
    given to an accept has none outstanding, and is left alone until the accept
    completes; a socket that is connected has none outstanding. *)
Inductive request (s : asys) (t : positive) : kind -> M (net Q O) Z -> Prop :=
  | req_send data len func : request s t SEND (asock_send t data len func)
  | req_recv data len func : request s t RECV (asock_recv t data len func)
  | req_accept c func : c <> t -> is_Some (socks (net_ s) !! c) -> (forall k, free (th s) c k) ->
      ~ reserved (net_ s) c -> request s t CA (asock_accept t c func)
  | req_connect sa len func e : (forall k, free (th s) t k) -> request s t CA (asock_connect t sa len func e).

Definition allowed (s : asys) (t : positive) (k : kind) (m : M (net Q O) Z) : Prop :=
  is_Some (socks (net_ s) !! t) /\ free (th s) t k /\ ~ reserved (net_ s) t /\ request s t k m.

(** The steps of the library's own threads, at the socket [t]. *)
Inductive thread_step (t : positive) : asys -> asys -> Prop :=
  | do_end n h n' ops l1 l2 : ending h = l1 ++ t :: l2 -> wait_end t n = Ok (n', ops) ->
      thread_step t (mk_asys n h) (mk_asys n'
        (mk_threads (l1 ++ l2) (pushing h ++ push t ops) (execing h) (taking h) (calling h) (begun h) (called h)))
  | do_push n h n' ops (b : bool) l1 l2 : pushing h = l1 ++ (t, ops) :: l2 -> dispatch_push_lock t ops n = Ok (n', b) ->
      thread_step t (mk_asys n h) (mk_asys n'
        (mk_threads (ending h) (l1 ++ l2) (execing h ++ if b then [t] else []) (taking h) (calling h) (begun h) (called h)))
  | do_exec n h n' l1 l2 : is_Some (socks n !! t) -> execing h = l1 ++ t :: l2 -> dispatch_exec t n = Ok (n', tt) ->
      thread_step t (mk_asys n h) (mk_asys n'
        (mk_threads (ending h) (pushing h) (l1 ++ l2) (taking h) (calling h) (begun h) (called h)))
  | do_take n h n' ks l1 l2 : taking h = l1 ++ t :: l2 -> dispatch_take t n = Ok (n', ks) ->
      thread_step t (mk_asys n h) (mk_asys n'
        (mk_threads (ending h) (pushing h) (execing h) (l1 ++ l2) (calling h ++ [(t, ks)]) (begun h) (called h)))
  | do_call n h k ks l1 l2 : is_Some (socks n !! t) -> calling h = l1 ++ (t, k :: ks) :: l2 ->
      thread_step t (mk_asys n h) (mk_asys n
        (mk_threads (ending h) (pushing h) (execing h) (taking h) (l1 ++ (t, ks) :: l2) (begun h) (called h ++ [(t, k)]))).

(** The queue and the kernel go on by themselves, and the rest of the program opens
    and closes descriptors of its own; the queue calls [wait_end] and
    [dispatch_func]; clients make requests, listen and close. *)
Inductive astep : asys -> asys -> Prop :=
  | a_thread t s s' : thread_step t s s' -> astep s s'
  | a_queue n h q : q_own (ioq n) q -> astep (mk_asys n h) (mk_asys (mk_net (socks n) q (os n)) h)
  | a_kernel n h o : (forall t x d, socks n !! t = Some x -> held (ioq n) t x = Some d -> d ∈ opened o) -> astep (mk_asys n h) (mk_asys (mk_net (socks n) (ioq n) o) h)
  | a_wait_end n h t q : is_Some (socks n !! t) -> q_call (wait_fd t) (ioq n) q ->
      astep (mk_asys n h) (mk_asys (mk_net (socks n) q (os n))
        (mk_threads (ending h ++ [t]) (pushing h) (execing h) (taking h) (calling h) (begun h) (called h)))
  | a_dispatch n h t q : is_Some (socks n !! t) -> q_call (dispatch_task t) (ioq n) q ->
      astep (mk_asys n h) (mk_asys (mk_net (socks n) q (os n))
        (mk_threads (ending h) (pushing h) (execing h) (taking h ++ [t]) (calling h) (begun h) (called h)))
  | a_request n h t k m n' ops : allowed (mk_asys n h) t k m -> m n = Ok (n', ops) ->
      astep (mk_asys n h) (mk_asys n'
        (mk_threads (ending h) (pushing h ++ push t ops) (execing h) (taking h) (calling h) (begun h ++ [(t, k)]) (called h)))
  | a_listen n h t sa len n' r : is_Some (socks n !! t) -> (forall k, free h t k) -> ~ reserved n t ->
      asock_listen t sa len n = Ok (n', r) -> astep (mk_asys n h) (mk_asys n' h)
  | a_close n h t n' : is_Some (socks n !! t) -> ~ reserved n t ->
      asock_close t n = Ok (n', tt) -> astep (mk_asys n h) (mk_asys n' h).

(** Sockets just initialised, on a queue with no waits and no tasks. *)
Definition fresh_net `{!WaitQueueLaws Q} (n : net Q O) : Prop :=
  wq_ok (ioq n) /\ (forall t x, socks n !! t = Some x -> x = new_sock /\ is_task (ioq n) (dispatch_task t) /\
    ~ queued (ioq n) (dispatch_task t) /\ exists v, view (ioq n) (wait_fd t) = Some v) /\
  forall g v, view (ioq n) g = Some v -> v_status v = Idle.

Inductive areach `{!WaitQueueLaws Q} : asys -> Prop :=
  | a_start n : fresh_net n -> areach (mk_asys n (mk_threads [] [] [] [] [] [] []))
  | a_next s s' : areach s -> astep s s' -> areach s'.
End system.
Arguments asys Q O : clear implicits.

(** * Operations as bits *)
Lemma has_CA ops : has CA ops = Z.testbit ops 0 || Z.testbit ops 1.
Proof.
  unfold has, kind_ops. rewrite Z.land_lor_distr_r, truth_lor.
  by rewrite (truth_land_bit _ 0), (truth_land_bit _ 1).
Qed.
Lemma has_SEND ops : has SEND ops = Z.testbit ops 2.
Proof. by apply (truth_land_bit _ 2). Qed.
Lemma has_RECV ops : has RECV ops = Z.testbit ops 3.
Proof. by apply (truth_land_bit _ 3). Qed.
Lemma accept_bit ops : truth (Z.land ops OP_ACCEPT) = Z.testbit ops 1.
Proof. by apply (truth_land_bit _ 1). Qed.
Lemma cancel_bit ops : truth (Z.land ops OP_CANCEL) = Z.testbit ops 4.
Proof. by apply (truth_land_bit _ 4). Qed.

Lemma has_lor k a b : has k (Z.lor a b) = has k a || has k b.
Proof. unfold has. by rewrite Z.land_lor_distr_l, truth_lor. Qed.
Lemma has_0 k : has k 0 = false.
Proof. by destruct k. Qed.

Lemma dispatch_calls_count k ops : count_occ kind_eq_dec (dispatch_calls ops) k = b2n (has k ops).
Proof. unfold dispatch_calls. destruct k; by destruct (has CA ops), (has SEND ops), (has RECV ops). Qed.

(** What [wait_ops] may be: no bits but the five, not to connect and accept at
    once, and no cancellation alone. *)
Record ops_ok (ops : Z) : Prop := {
  oo_known i : 5 <= i -> Z.testbit ops i = false;
  oo_ca : Z.testbit ops 0 && Z.testbit ops 1 = false;
  oo_cancel : Z.testbit ops 4 = true -> exists k, has k ops = true;
}.

Lemma bits_zero ops : (forall i, 0 <= i -> Z.testbit ops i = false) -> ops = 0.
Proof. intros H. apply Z.bits_inj'. intros i Hi. by rewrite Z.bits_0, H. Qed.

Lemma ops_ok_has ops : ops_ok ops -> ops <> 0 -> exists k, has k ops = true.
Proof.
  intros [H1 H2 H3] Hn. destruct (has CA ops) eqn:Ea; [by exists CA|]. destruct (has SEND ops) eqn:Es; [by exists SEND|].
  destruct (has RECV ops) eqn:Er; [by exists RECV|]. destruct (Z.testbit ops 4) eqn:E4; [by apply H3|].
  rewrite has_CA in Ea. apply orb_false_iff in Ea as [E0 E1]. rewrite has_SEND in Es. rewrite has_RECV in Er.
  destruct Hn. apply bits_zero. intros i Hi. destruct (decide (5 <= i)); [by apply H1|].
  assert (i = 0 \/ i = 1 \/ i = 2 \/ i = 3 \/ i = 4) as [->|[->|[->|[->| ->]]]] by lia; done.
Qed.

Lemma has_nonzero k ops : has k ops = true -> ops <> 0.
Proof. intros H ->. by rewrite has_0 in H. Qed.

Lemma wait_mask_nonzero k ops : has k ops = true -> wait_mask ops <> 0.
Proof.
  unfold wait_mask. rewrite !Z.land_lor_distr_r, !truth_lor.
  rewrite (truth_land_bit _ 0), (truth_land_bit _ 1), (truth_land_bit _ 2), (truth_land_bit _ 3) by done.
  destruct k; rewrite ?has_CA, ?has_SEND, ?has_RECV; destruct (Z.testbit ops 0), (Z.testbit ops 1), (Z.testbit ops 2), (Z.testbit ops 3); done.
Qed.

(** Removing the operations that are done. *)
Definition done_ops (ops mask : Z) : Prop :=
  (forall i, Z.testbit mask i = true -> Z.testbit ops i = true) /\ Z.testbit mask 4 = false.

Lemma has_ldiff k ops mask : ops_ok ops -> done_ops ops mask ->
  has k ops = has k (Z.land ops (Z.lnot mask)) || has k mask /\
  has k (Z.land ops (Z.lnot mask)) && has k mask = false.
Proof.
  intros [_ H2 _] [Hd _].
  destruct k; rewrite ?has_CA, ?has_SEND, ?has_RECV, !Z.land_spec, !Z.lnot_spec by done.
  - pose proof (Hd 0). pose proof (Hd 1). destruct (Z.testbit ops 0), (Z.testbit ops 1), (Z.testbit mask 0), (Z.testbit mask 1); naive_solver.
  - pose proof (Hd 2). destruct (Z.testbit ops 2), (Z.testbit mask 2); naive_solver.
  - pose proof (Hd 3). destruct (Z.testbit ops 3), (Z.testbit mask 3); naive_solver.
Qed.

Lemma ops_ok_ldiff ops mask : ops_ok ops -> Z.testbit ops 4 = false -> ops_ok (Z.land ops (Z.lnot mask)).
Proof.
  intros [H1 H2 H3] H4. split.
  - intros i Hi. by rewrite Z.land_spec, H1.
  - rewrite !Z.land_spec. destruct (Z.testbit ops 0), (Z.testbit ops 1); try done. by rewrite andb_false_r.
  - by rewrite Z.land_spec, H4.
Qed.

Lemma ops_ok_0 : ops_ok 0.
Proof. split; intros; by rewrite ?Z.bits_0. Qed.

(** The operation that a request of each kind adds. *)
Inductive op_of : kind -> Z -> Prop :=
  | op_connect : op_of CA OP_CONNECT
  | op_accept : op_of CA OP_ACCEPT
  | op_send : op_of SEND OP_SEND
  | op_recv : op_of RECV OP_RECV.

Lemma op_of_has k o j : op_of k o -> has j o = bool_decide (j = k).
Proof. by intros []; destruct j. Qed.
Lemma op_of_bits k o : op_of k o -> Z.testbit o 4 = false /\ forall i, 5 <= i -> Z.testbit o i = false.
Proof.
  intros Ho. assert (0 <= o < 2 ^ 5) as [Hlo Hhi] by (destruct Ho; done). split; [by destruct Ho|].
  intros i Hi. destruct (decide (o = 0)) as [->|]; [apply Z.bits_0|]. apply Z.bits_above_log2; [done|].
  apply Z.log2_lt_pow2; [lia|]. assert (2 ^ 5 <= 2 ^ i) by (apply Z.pow_le_mono_r; lia). lia.
Qed.

Lemma ops_ok_add k o ops : op_of k o -> ops_ok ops -> has k ops = false -> ops_ok (Z.lor ops o).
Proof.
  intros Ho [H1 H2 H3] Hk. destruct (op_of_bits k o Ho) as [Hb4 Hb]. split.
  - intros i Hi. by rewrite Z.lor_spec, H1, Hb.
  - rewrite !Z.lor_spec. destruct Ho; rewrite ?has_CA in Hk; by destruct (Z.testbit ops 0), (Z.testbit ops 1).
  - intros _. exists k. rewrite has_lor, (op_of_has k o k Ho), bool_decide_true by done. apply orb_true_r.
Qed.

Lemma ops_ok_cancel ops : ops_ok ops -> ops <> 0 -> ops_ok (Z.lor ops OP_CANCEL).
Proof.
  intros Hok Hn. pose proof (ops_ok_has ops Hok Hn) as [k Hk]. destruct Hok as [H1 H2 H3]. split.
  - intros i Hi. rewrite Z.lor_spec, H1 by done. change OP_CANCEL with (2 ^ 4). by rewrite Z.pow2_bits_false by lia.
  - rewrite !Z.lor_spec. change (Z.testbit OP_CANCEL 0) with false. change (Z.testbit OP_CANCEL 1) with false. by rewrite !orb_false_r.
  - intros _. exists k. by rewrite has_lor, Hk.
Qed.

Lemma has_cancel k ops : has k (Z.lor ops OP_CANCEL) = has k ops.
Proof. rewrite has_lor. destruct k; apply orb_false_r. Qed.

(** * The invariant *)
Section inv.
Context {Q O : Type} `{!WaitQueue Q, !WaitQueueLaws Q} `{!Sockets O}.
Implicit Types (n : net Q O) (h : threads).

(** The callbacks owed by a socket: for each kind, in one place. *)
Definition owed n h t x k : nat :=
  (b2n (has k (wait_ops x)) + pushing_n h t k + b2n (has k (dispatch_queue x)) + calling_n h t k)%nat.

(** [wait_end] is to run once, exactly when there is something to wait for.  The
    wait is for the descriptor that [t] has open. *)
Definition wait_good n h t x (v : fd_view) : Prop :=
  (0 <= sock x -> v_fd v = sock x) /\
  (wait_ops x = 0 -> v_status v = Idle /\ ending_n h t = 0%nat) /\
  (wait_ops x <> 0 -> (v_status v = Idle /\ ending_n h t = 1%nat \/ v_status v <> Idle /\ ending_n h t = 0%nat) /\
     held (ioq n) t x = Some (v_fd v)).

Record sock_ok n h (t : positive) (x : asock) : Prop := {
  so_view : exists v, view (ioq n) (wait_fd t) = Some v /\ wait_good n h t x v;
  so_task : is_task (ioq n) (dispatch_task t);
  so_ops : ops_ok (wait_ops x);
  so_cancel : cancelled x = true -> sock x < 0;
  so_idle : dispatch_queue x = 0 -> ~ queued (ioq n) (dispatch_task t) /\ (execing_n h t + taking_n h t = 0)%nat;
  so_busy : dispatch_queue x <> 0 ->
    queued (ioq n) (dispatch_task t) /\ (execing_n h t + taking_n h t = 0)%nat \/
    ~ queued (ioq n) (dispatch_task t) /\ (execing_n h t + taking_n h t = 1)%nat;
  so_count k : begun_n h t k = (called_n h t k + owed n h t x k)%nat /\ (owed n h t x k <= 1)%nat;
  so_accept : accepts x = true -> ca_client (ca x) <> t /\ is_Some (socks n !! ca_client (ca x)) /\
    forall k, free h (ca_client (ca x)) k;
}.

Record asys_inv (n : net Q O) (h : threads) : Prop := {
  ai_queue : wq_ok (ioq n);
  ai_socks t x : socks n !! t = Some x -> sock_ok n h t x;
  ai_open t x d : socks n !! t = Some x -> held (ioq n) t x = Some d -> d ∈ opened (os n);
  ai_held t u x y d : t <> u -> socks n !! t = Some x -> socks n !! u = Some y ->
    held (ioq n) t x = Some d -> held (ioq n) u y <> Some d;
  ai_client t u x y : t <> u -> socks n !! t = Some x -> socks n !! u = Some y ->
    accepts x = true -> accepts y = true -> ca_client (ca x) <> ca_client (ca y);
  ai_waits g v : view (ioq n) g = Some v -> v_status v <> Idle ->
    exists t, g = wait_fd t /\ is_Some (socks n !! t);
}.

(** Nothing changes in the threads but at [t]. *)
Definition elsewhere (t : positive) h h' : Prop := forall u, u <> t ->
  ending_n h' u = ending_n h u /\ execing_n h' u = execing_n h u /\ taking_n h' u = taking_n h u /\
  forall k, pushing_n h' u k = pushing_n h u k /\ calling_n h' u k = calling_n h u k /\
    begun_n h' u k = begun_n h u k /\ called_n h' u k = called_n h u k.

Lemma elsewhere_refl t h : elsewhere t h h.
Proof. by intros u _. Qed.

Lemma held_view q q' t x : view q' (wait_fd t) = view q (wait_fd t) -> held q' t x = held q t x.
Proof. intros E. unfold held. by rewrite E. Qed.

Lemma free_elsewhere t h h' u k : elsewhere t h h' -> u <> t -> free h u k <-> free h' u k.
Proof. intros He Hu. destruct (He u Hu) as (_ & _ & _ & Hk). unfold free. destruct (Hk k) as (_ & _ & -> & ->). done. Qed.

(** A step at one socket. *)
Lemma inv_update n h t x x' q' o' h' :
  asys_inv n h -> socks n !! t = Some x -> wq_ok q' ->
  (forall g, g <> wait_fd t -> view q' g = view (ioq n) g) ->
  (forall u, is_task q' u <-> is_task (ioq n) u) ->
  (forall u, u <> t -> queued q' (dispatch_task u) <-> queued (ioq n) (dispatch_task u)) ->
  elsewhere t h h' ->
  (forall u y d, u <> t -> socks n !! u = Some y -> held (ioq n) u y = Some d -> d ∈ opened o') ->
  (forall d, held q' t x' = Some d -> d ∈ opened o' /\
     forall u y, u <> t -> socks n !! u = Some y -> held (ioq n) u y <> Some d) ->
  (reserved n t -> (forall k, free h t k) -> forall k, free h' t k) ->
  (accepts x' = true -> accepts x = true /\ ca_client (ca x) = ca_client (ca x') \/ ~ reserved n (ca_client (ca x'))) ->
  sock_ok (mk_net (<[t := x']> (socks n)) q' o') h' t x' ->
  asys_inv (mk_net (<[t := x']> (socks n)) q' o') h'.
Proof.
  intros [H1 H2 H3 H4 H5 H6] Hx Hq Hv Ht Hqd He Ho Hh Hf Ha Hok.
  assert (forall u y, u <> t -> held q' u y = held (ioq n) u y) as HE.
  { intros u y Hu. apply held_view, Hv. intros [=]. done. }
  split; cbn [socks ioq os]; [done|..].
  - intros u y [[<- <-]|[Hne Hu]]%lookup_insert_Some; [done|].
    destruct (H2 u y Hu) as [(v & Sv & Sw) S2 S3 S4 S5 S6 S7 S8].
    destruct (He u ltac:(done)) as (E1 & E2 & E3 & E4). split; cbn [socks ioq os]; rewrite ?E2, ?E3; try done.
    + exists v. rewrite Hv by (intros [=]; done). split; [done|]. unfold wait_good. cbn [ioq]. by rewrite E1, HE.
    + by apply Ht.
    + by rewrite Hqd.
    + by rewrite Hqd.
    + intros k. unfold owed. destruct (E4 k) as (-> & -> & -> & ->). apply S7.
    + intros Hacc. destruct (S8 Hacc) as (C1 & C2 & C3). split; [done|].
      destruct (decide (ca_client (ca y) = t)) as [Ec|Hc].
      * rewrite Ec in *. split; [rewrite lookup_insert_eq; eauto|]. apply Hf; [|done]. exists u, y. done.
      * rewrite lookup_insert_ne by done. split; [done|]. intros k. by apply (free_elsewhere t h h').
  - intros u y d [[<- <-]|[Hne Hu]]%lookup_insert_Some Hd; [by apply Hh|]. rewrite HE in Hd by done. by eapply Ho.
  - intros u1 u2 y1 y2 d Hn [[<- <-]|[Hn1 Hu1]]%lookup_insert_Some [[<- <-]|[Hn2 Hu2]]%lookup_insert_Some Hd; [done|..].
    + rewrite HE by done. apply (proj2 (Hh d Hd)); done.
    + rewrite HE in Hd by done. intros Hd'. by destruct (proj2 (Hh d Hd') u1 y1).
    + rewrite HE in Hd by done. rewrite HE by done. by eapply (H4 u1 u2).
  - assert (forall u y, u <> t -> socks n !! u = Some y -> accepts x' = true -> accepts y = true ->
      ca_client (ca x') <> ca_client (ca y)) as Hc.
    { intros u y Hu Hy Ha1 Ha2. destruct (Ha Ha1) as [[Hax <-]|Hr].
      - eapply (H5 t u); eauto.
      - intros E. apply Hr. exists u, y. done. }
    intros u1 u2 y1 y2 Hn [[<- <-]|[Hn1 Hu1]]%lookup_insert_Some [[<- <-]|[Hn2 Hu2]]%lookup_insert_Some Ha1 Ha2; [done|..].
    + by eapply Hc.
    + apply not_eq_sym. by eapply Hc.
    + by eapply (H5 u1 u2).
  - intros g v Hg Hs. destruct (decide (g = wait_fd t)) as [->|Hgt].
    + exists t. rewrite lookup_insert_eq. eauto.
    + rewrite Hv in Hg by done. destruct (H6 g v Hg Hs) as (u & -> & Hu). exists u. split; [done|].
      rewrite lookup_insert_ne; [done|]. intros <-. done.
Qed.
End inv.
