(* ===== verification/AsockOps.v ===== *)
(** What the parts of the socket operations do to the invariant. *)
From S2P Require Import Prelude Ioq Wait Asock AsockSys.

Section ops.
Context {Q O : Type} `{!WaitQueue Q, !WaitQueueLaws Q} `{!Sockets O, !SocketsLaws O}.
Implicit Types (n : net Q O) (h : threads) (o : O).

(** ** Reading and writing *)
Lemma wp_get_sock t x n P : socks n !! t = Some x -> P x n -> wp (get_sock t) n P.
Proof. intros Hx HP. unfold get_sock. wp_bind. apply wp_get. by apply (wp_need _ x). Qed.

Lemma wp_sock_upd t u x n P : socks n !! t = Some x -> P tt (mk_net (<[t := u x]> (socks n)) (ioq n) (os n)) ->
  wp (upd t u) n P.
Proof. intros Hx HP. unfold upd. wp_bind. apply (wp_get_sock _ x); [done|]. by apply wp_modify. Qed.

Lemma wp_sock_fd t v n P : view (ioq n) (wait_fd t) = Some v -> P v n -> wp (get_fd t) n P.
Proof. intros Hx HP. unfold get_fd. wp_bind. apply wp_get. by apply (wp_need _ v). Qed.

Lemma wp_on_queue (m : M Q unit) n P : wp m (ioq n) (fun _ q => P tt (mk_net (socks n) q (os n))) -> wp (on_queue m) n P.
Proof. unfold wp, on_queue. by destruct (m (ioq n)) as [[q []]| |]. Qed.

Lemma wp_syscall c n (P : Z * Z -> net Q O -> Prop) : (forall o r e, c (os n) = (o, (r, e)) -> P (r, e) (mk_net (socks n) (ioq n) o)) ->
  wp (syscall c) n P.
Proof.
  intros HP. unfold syscall. wp_bind. apply wp_get. destruct (c (os n)) as [o [r e]] eqn:E. wp_bind. by apply wp_put, wp_ret, HP.
Qed.

Lemma wp_close d n P : d ∈ opened (os n) -> P tt (mk_net (socks n) (ioq n) (sys_close d (os n))) -> wp (close d) n P.
Proof. intros Hd HP. unfold close. wp_bind. apply wp_get. rewrite decide_True by done. by apply wp_put. Qed.

Lemma keeps_opened (c : O -> O * (Z * Z)) o o' r : opened (c o).1 = opened o -> c o = (o', r) -> opened o' = opened o.
Proof. intros <- ->. done. Qed.

(** ** Changes that do not matter *)
Record same_core (x x' : asock) : Prop := {
  sc_sock : sock x' = sock x;
  sc_client : accepts x = true -> ca_client (ca x') = ca_client (ca x);
  sc_ops : wait_ops x' = wait_ops x;
  sc_dispatch : dispatch_queue x' = dispatch_queue x;
}.

Lemma same_core_refl x : same_core x x.
Proof. done. Qed.
Lemma same_core_trans x y z : same_core x y -> same_core y z -> same_core x z.
Proof.
  intros [S1 C1 W1 D1] [S2 C2 W2 D2]. split; try congruence. unfold accepts in *. rewrite W1 in C2.
  intros Ha. rewrite C2 by done. auto.
Qed.

Lemma held_core q t x x' : same_core x x' -> held q t x' = held q t x.
Proof. intros [E1 _ E2 _]. unfold held, cancelled. by rewrite E1, E2. Qed.

Lemma sock_ok_core n h t x x' o' : sock_ok n h t x -> same_core x x' -> socks n !! t = Some x ->
  sock_ok (mk_net (<[t := x']> (socks n)) (ioq n) o') h t x'.
Proof.
  intros [(v & Sv & Sw) S2 S3 S4 S5 S6 S7 S8] Hc Hx. pose proof (held_core (ioq n) t x x' Hc) as HH.
  destruct Hc as [E1 E2 E3 E4].
  split; cbn [socks ioq os]; unfold cancelled, accepts, owed in *; rewrite ?E1, ?E3, ?E4; try done.
  - exists v. split; [done|]. unfold wait_good in *. cbn [ioq]. by rewrite E1, E3, HH.
  - intros Ha. rewrite E2 by done. destruct (S8 Ha) as (C1 & C2 & C3). split; [done|]. split; [|done].
    by rewrite lookup_insert_ne.
Qed.

Lemma inv_touch n h t x x' o' : asys_inv n h -> socks n !! t = Some x -> same_core x x' ->
  opened o' = opened (os n) -> asys_inv (mk_net (<[t := x']> (socks n)) (ioq n) o') h.
Proof.
  intros H Hx Hc Ho. pose proof (ai_socks _ _ H t x Hx) as Hok.
  eapply inv_update; [done|exact Hx|apply (ai_queue _ _ H)|done|done|done|apply elsewhere_refl|..].
  - intros u y d _ Hu Hd. rewrite Ho. by eapply (ai_open _ _ H).
  - intros d. rewrite (held_core _ _ _ _ Hc), Ho. intros Hd. split; [by eapply (ai_open _ _ H)|].
    intros u y Hu Hy. by eapply (ai_held _ _ H t u).
  - done.
  - unfold accepts at 1. rewrite (sc_ops _ _ Hc). intros Ha. left. by rewrite (sc_client _ _ Hc).
  - by apply (sock_ok_core n h t x x' o').
Qed.

Lemma inv_kernel n h o' : asys_inv n h -> opened o' = opened (os n) -> asys_inv (mk_net (socks n) (ioq n) o') h.
Proof.
  intros [H1 H2 H3 H4 H5 H6] Ho. split; cbn [socks ioq os]; try done.
  - intros t x Hx. by destruct (H2 t x Hx).
  - intros t x d. rewrite Ho. apply H3.
Qed.

(** [n'] is [n] with the requests at [t], and perhaps the client of an accept,
    changed. *)
Record kept (t : positive) (x : asock) h n n' : Prop := {
  kp_inv : asys_inv n' h;
  kp_sock : exists x', socks n' !! t = Some x' /\ same_core x x';
  kp_view : view (ioq n') (wait_fd t) = view (ioq n) (wait_fd t);
}.

Lemma kept_touch t x x' h n o' : asys_inv n h -> socks n !! t = Some x -> same_core x x' -> opened o' = opened (os n) ->
  kept t x h n (mk_net (<[t := x']> (socks n)) (ioq n) o').
Proof.
  intros H Hx Hc Ho. split; [by eapply inv_touch|exists x'; cbn; by rewrite lookup_insert_eq|done].
Qed.
Lemma kept_kernel t x h n o' : asys_inv n h -> socks n !! t = Some x -> opened o' = opened (os n) ->
  kept t x h n (mk_net (socks n) (ioq n) o').
Proof. intros H Hx Ho. split; [by apply inv_kernel|by exists x|done]. Qed.

Lemma kept_refl t x h n : asys_inv n h -> socks n !! t = Some x -> kept t x h n n.
Proof. intros H Hx. by split; [|exists x|]. Qed.
Lemma kept_trans t x y h n n1 n2 : kept t x h n n1 -> socks n1 !! t = Some y -> kept t y h n1 n2 -> kept t x h n n2.
Proof.
  intros [H1 (x1 & Hx1 & Hc1) V1] Hy [H2 (x2 & Hx2 & Hc2) V2]. split; [done| |congruence].
  exists x2. split; [done|]. assert (x1 = y) as -> by congruence. by eapply same_core_trans.
Qed.

(** ** A new descriptor for an idle socket *)
Lemma idle_socket n h t x : asys_inv n h -> socks n !! t = Some x -> (forall k, free h t k) ->
  wait_ops x = 0 /\ exists v, view (ioq n) (wait_fd t) = Some v /\ v_status v = Idle /\ ending_n h t = 0%nat.
Proof.
  intros H Hx Hf. destruct (ai_socks _ _ H t x Hx) as [(v & Sv & Sw) _ S3 _ _ _ S7 _].
  assert (wait_ops x = 0) as E.
  { destruct (decide (wait_ops x = 0)) as [|Hn]; [done|]. destruct (ops_ok_has _ S3 Hn) as [k Hk].
    destruct (S7 k) as [Hc _]. unfold owed in Hc. rewrite Hk in Hc. specialize (Hf k). unfold free in Hf. simpl in Hc. lia. }
  split; [done|]. exists v. split; [done|]. by apply Sw.
Qed.

Lemma inv_reopen n h c y x' q' o' v' : asys_inv n h -> socks n !! c = Some y -> (forall k, free h c k) ->
  wq_ok q' -> only (wait_fd c) (ioq n) q' -> view q' (wait_fd c) = Some v' -> v_status v' = Idle ->
  (0 <= sock x' -> v_fd v' = sock x' /\ sock x' ∈ opened o' /\
     forall u y' , u <> c -> socks n !! u = Some y' -> held (ioq n) u y' <> Some (sock x')) ->
  (forall u y' d, u <> c -> socks n !! u = Some y' -> held (ioq n) u y' = Some d -> d ∈ opened o') ->
  wait_ops x' = 0 -> dispatch_queue x' = dispatch_queue y ->
  asys_inv (mk_net (<[c := x']> (socks n)) q' o') h.
Proof.
  intros H Hy Hf Hq [Hv [Ht Hqd]] Hv' Hi Hr Ho E1 E2. destruct (idle_socket n h c y H Hy Hf) as (E0 & v & Hv0 & Hi0 & Hen).
  assert (cancelled x' = false /\ accepts x' = false) as [Ec Ea] by (unfold cancelled, accepts; by rewrite E1).
  eapply inv_update; [done|exact Hy|done|done|exact Ht|intros; apply Hqd|apply elsewhere_refl|done| |done|by rewrite Ea|].
  - intros d. unfold held. rewrite Ec. destruct (Z.leb_spec 0 (sock x')) as [Hs|]; [|done]. intros [= <-].
    destruct (Hr Hs) as (_ & ? & ?). done.
  - destruct (ai_socks _ _ H c y Hy) as [_ S2 S3 S4 S5 S6 S7 S8].
    split; cbn [socks ioq os]; unfold owed in *; rewrite ?E1, ?E2, ?Ec, ?Ea, ?E0 in *; try done.
    + exists v'. split; [done|]. unfold wait_good. rewrite E1. split; [|done]. intros Hs. by apply Hr.
    + by apply Ht.
    + intros Hd. rewrite Hqd. by apply S5.
    + intros Hd. rewrite Hqd. by apply S6.
Qed.

(** Others hold none of these: what they hold stays open. *)
Lemma others_open n h t x d : asys_inv n h -> socks n !! t = Some x -> held (ioq n) t x = Some d ->
  forall u y d', u <> t -> socks n !! u = Some y -> held (ioq n) u y = Some d' -> d' ∈ opened (os n) /\ d' <> d.
Proof.
  intros H Hx Hd u y d' Hu Hy Hd'. split; [by eapply (ai_open _ _ H)|]. intros ->. by eapply (ai_held _ _ H t u).
Qed.

Lemma sole_held n h t x d : asys_inv n h -> socks n !! t = Some x -> held (ioq n) t x = Some d ->
  sole (ioq n) (wait_fd t) d.
Proof.
  intros H Hx Hd g v Hg Hv Hs. destruct (ai_waits _ _ H g v Hv Hs) as (u & -> & [y Hy]).
  destruct (ai_socks _ _ H u y Hy) as [(v' & Sv & Sw1 & Sw2 & Sw3) _ _ _ _ _ _ _].
  assert (v' = v) as -> by congruence.
  destruct (decide (wait_ops y = 0)) as [E|Hn]; [by destruct (Sw2 E)|].
  destruct (Sw3 Hn) as [_ Hh]. intros <-. destruct (decide (u = t)) as [->|Hu]; [done|]. by eapply (ai_held _ _ H u t).
Qed.
End ops.

Section attempts.
Context {Q O : Type} `{!WaitQueue Q, !WaitQueueLaws Q} `{!Sockets O, !SocketsLaws O}.
Implicit Types (n : net Q O) (h : threads) (o : O).

(** An attempt at an operation that is wanted: it is done or not. *)
Definition tries (t : positive) (op : Z) (m : M (net Q O) Z) : Prop := forall n h x,
  asys_inv n h -> socks n !! t = Some x -> truth (Z.land (wait_ops x) op) = true ->
  wp m n (fun r n' => (r = 0 \/ r = op) /\ kept t x h n n').

Lemma sock_view n h t x : asys_inv n h -> socks n !! t = Some x -> exists v, view (ioq n) (wait_fd t) = Some v /\ wait_good n h t x v.
Proof. intros H Hx. apply (so_view _ _ _ _ (ai_socks _ _ H t x Hx)). Qed.

(** The outcome of a system call is recorded with [u]. *)
Lemma wp_outcome t x h n u o r (op : Z) : asys_inv n h -> socks n !! t = Some x -> (forall y, same_core y (u y)) ->
  opened o = opened (os n) -> r = op ->
  wp (upd t u;; ret r) (mk_net (socks n) (ioq n) o) (fun r n' => (r = 0 \/ r = op) /\ kept t x h n n').
Proof.
  intros H Hx Hu Ho ->. wp_bind. apply (wp_sock_upd _ _ x); [done|]. apply wp_ret. split; [by right|].
  cbn [socks ioq os]. by apply kept_touch.
Qed.

Lemma core_ca_error e x : same_core x (set_ca_error e x).
Proof. done. Qed.
Lemma core_snd r x : same_core x (set_snd r x).
Proof. done. Qed.
Lemma core_rcv r x : same_core x (set_rcv r x).
Proof. done. Qed.

Lemma wait_connect_tries t : tries t OP_CONNECT (wait_connect t).
Proof.
  intros n h x H Hx _. destruct (sock_view n h t x H Hx) as (v & Hv & _). unfold wait_connect.
  wp_bind. apply (wp_get_sock _ x); [done|]. wp_bind. apply (wp_sock_fd _ v); [done|].
  wp_bind. apply wp_syscall. intros o r e E. pose proof (keeps_opened _ _ _ _ (connect_keeps _ _ _ _) E) as Ho.
  destruct (r <? 0); [destruct (e =? EAGAIN)|].
  - apply wp_ret. split; [by left|by apply kept_kernel].
  - by eapply wp_outcome.
  - by eapply wp_outcome.
Qed.

Lemma wait_send_tries t : tries t OP_SEND (wait_send t).
Proof.
  intros n h x H Hx _. destruct (sock_view n h t x H Hx) as (v & Hv & _). unfold wait_send.
  wp_bind. apply (wp_get_sock _ x); [done|]. wp_bind. apply (wp_sock_fd _ v); [done|].
  destruct (negb _); [apply wp_ret; split; [by left|by apply kept_refl]|].
  wp_bind. apply wp_syscall. intros o r e E. pose proof (keeps_opened _ _ _ _ (send_keeps _ _ _ _) E) as Ho.
  destruct (r <? 0); [destruct (e =? EAGAIN)|].
  - apply wp_ret. split; [by left|by apply kept_kernel].
  - by eapply wp_outcome.
  - by eapply wp_outcome.
Qed.

Lemma wait_recv_tries t : tries t OP_RECV (wait_recv t).
Proof.
  intros n h x H Hx _. destruct (sock_view n h t x H Hx) as (v & Hv & _). unfold wait_recv.
  wp_bind. apply (wp_get_sock _ x); [done|]. wp_bind. apply (wp_sock_fd _ v); [done|].
  destruct (truth _).
  { wp_bind. apply (wp_sock_upd _ _ x); [done|]. apply wp_ret. split; [by right|by apply kept_touch]. }
  destruct (negb _); [apply wp_ret; split; [by left|by apply kept_refl]|].
  wp_bind. apply wp_syscall. intros o r e E. pose proof (keeps_opened _ _ _ _ (recv_keeps _ _ _ _) E) as Ho.
  destruct (r <? 0); [destruct (e =? EAGAIN)|].
  - apply wp_ret. split; [by left|by apply kept_kernel].
  - by eapply wp_outcome.
  - by eapply wp_outcome.
Qed.

(** Closing what the socket had, if it had something. *)
Lemma wp_close_old y n o (P : unit -> net Q O -> Prop) : (0 <= sock y -> sock y ∈ opened o) ->
  (forall o', opened o' = (if 0 <=? sock y then opened o ∖ {[sock y]} else opened o) -> P tt (mk_net (socks n) (ioq n) o')) ->
  wp (when (0 <=? sock y) (close (sock y))) (mk_net (socks n) (ioq n) o) P.
Proof.
  intros Hin HP. destruct (Z.leb_spec 0 (sock y)); simpl.
  - apply wp_close; [auto|]. apply HP. apply close_closes.
  - by apply wp_ret, HP.
Qed.

Lemma wait_accept_tries t : tries t OP_ACCEPT (wait_accept t).
Proof.
  intros n h x H Hx Hacc. destruct (sock_view n h t x H Hx) as (v & Hv & _). unfold wait_accept.
  wp_bind. apply (wp_get_sock _ x); [done|]. wp_bind. apply (wp_sock_fd _ v); [done|].
  destruct (negb _); [apply wp_ret; split; [by left|by apply kept_refl]|].
  wp_bind. apply wp_syscall. intros o r e E. pose proof (accept_opens _ _ _ _ _ E) as Ho. unfold opens in Ho.
  destruct (Z.ltb_spec r 0) as [Hr|Hr].
  { destruct (e =? EAGAIN); [apply wp_ret; split; [by left|by apply kept_kernel]|by eapply wp_outcome]. }
  destruct Ho as [Hfresh Ho]. destruct (so_accept _ _ _ _ (ai_socks _ _ H t x Hx) Hacc) as (Hct & [y Hy] & Hfree).
  set (c := ca_client (ca x)) in *. destruct (idle_socket n h c y H Hy Hfree) as (Ey & w & Hw & Hwi & _).
  assert (0 <= sock y -> held (ioq n) c y = Some (sock y)) as Hheld.
  { intros Hs. unfold held. by rewrite (proj2 (Z.leb_le _ _) Hs). }
  wp_bind. apply (wp_get_sock _ y); [done|]. wp_bind. apply wp_close_old.
  { intros Hs. rewrite Ho. apply elem_of_union_r. exact (ai_open _ _ H c y _ Hy (Hheld Hs)). }
  intros o' Ho'. wp_bind. apply (wp_sock_upd _ _ y); [done|]. cbn [socks ioq os].
  wp_bind. apply (wp_sock_upd _ _ x); [cbn [socks]; by rewrite lookup_insert_ne|]. cbn [socks ioq os].
  wp_bind. unfold wait_init. wp_bind. eapply wp_get_sock.
  { cbn [socks]. by rewrite lookup_insert_ne, lookup_insert_eq. }
  cbn [socks ioq os]. wp_bind. apply wp_on_queue. cbn [socks ioq os].
  eapply wp_mono; [eapply wq_init; [apply (ai_queue _ _ H)|exact Hw|exact Hwi]|]. intros [] q' (Hq & Hon & Hv').
  eapply wp_sock_upd; [cbn [socks]; by rewrite lookup_insert_ne, lookup_insert_eq|]. cbn [socks ioq os].
  apply wp_ret. split; [by right|].
  rewrite (insert_insert_ne _ c t) by done. rewrite insert_insert_eq.
  set (y' := set_wait_ops 0 (set_sock r y)). set (x' := set_ca_error 0 x).
  assert (forall u z d, u <> c -> socks n !! u = Some z -> held (ioq n) u z = Some d -> d ∈ opened o' /\ d <> r) as Hothers.
  { intros u z d Hu Hz Hd. assert (d ∈ opened (os n)) as Hd1 by (by eapply (ai_open _ _ H)).
    split; [|by intros ->]. rewrite Ho', Ho. destruct (Z.leb_spec 0 (sock y)) as [Hs|]; [|set_solver].
    pose proof (others_open n h c y (sock y) H Hy (Hheld Hs) u z d Hu Hz Hd). set_solver. }
  assert (asys_inv (mk_net (<[c := y']> (socks n)) q' o') h) as H1.
  { eapply inv_reopen; [exact H|exact Hy|exact Hfree|exact Hq|exact Hon|exact Hv'|done| |intros; by eapply Hothers|done|done].
    intros _. split; [done|]. split.
    - cbn. rewrite Ho', Ho. destruct (Z.leb_spec 0 (sock y)) as [Hs|]; [|set_solver].
      assert (r <> sock y) by (intros ->; apply Hfresh, (ai_open _ _ H c y _ Hy (Hheld Hs))). set_solver.
    - intros u z Hu Hz Hd. by destruct (Hothers u z _ Hu Hz Hd). }
  split.
  - apply (inv_touch _ h t x x' o' H1); [cbn; by rewrite lookup_insert_ne|done|done].
  - exists x'. cbn. by rewrite lookup_insert_eq.
  - cbn. apply Hon. intros [=]. by subst.
Qed.

(** ** The attempts together *)
Lemma done_add ops mask j : 0 <= j < 4 -> truth (Z.land ops (2 ^ j)) = true -> done_ops ops mask ->
  done_ops ops (Z.lor mask (2 ^ j)).
Proof.
  intros Hj Ht [H1 H2]. rewrite truth_land_bit in Ht by lia. split.
  - intros i. rewrite Z.lor_spec, orb_true_iff. intros [?|Hi]; [auto|].
    destruct (decide (i = j)) as [->|]; [done|]. by rewrite Z.pow2_bits_false in Hi by done.
  - rewrite Z.lor_spec, H2. apply Z.pow2_bits_false. lia.
Qed.

Lemma wp_attempt t j m mask n h x : 0 <= j < 4 -> tries t (2 ^ j) m -> asys_inv n h -> socks n !! t = Some x ->
  done_ops (wait_ops x) mask ->
  wp (attempt t (2 ^ j) m mask) n (fun mask' n' => done_ops (wait_ops x) mask' /\ kept t x h n n').
Proof.
  intros Hj Hm H Hx Hd. unfold attempt. wp_bind. apply (wp_get_sock _ x); [done|].
  destruct (truth (Z.land (wait_ops x) (2 ^ j))) eqn:Et; [|apply wp_ret; split; [done|by apply kept_refl]].
  wp_bind. eapply wp_mono; [by apply (Hm n h x)|]. intros r n' [Hr Hk]. apply wp_ret. split; [|done].
  destruct Hr as [->| ->]; [by rewrite Z.lor_0_r|by apply done_add].
Qed.

(** An attempt after others. *)
Lemma wp_attempt_next t j m mask n0 n h x (P : Z -> net Q O -> Prop) : 0 <= j < 4 -> tries t (2 ^ j) m -> kept t x h n0 n ->
  done_ops (wait_ops x) mask ->
  (forall mask' n', done_ops (wait_ops x) mask' -> kept t x h n0 n' -> P mask' n') ->
  wp (attempt t (2 ^ j) m mask) n P.
Proof.
  intros Hj Hm Hk Hd HP. pose proof Hk as [H (x' & Hx' & Hc) Hv].
  eapply wp_mono; [apply (wp_attempt t j m mask n h x' Hj Hm H Hx'); by rewrite (sc_ops _ _ Hc)|].
  intros mask' n' [Hd' Hk']. apply HP; [by rewrite <- (sc_ops _ _ Hc)|]. by eapply kept_trans.
Qed.

Lemma wp_when_kept t x h n0 n b u (P : unit -> net Q O -> Prop) : kept t x h n0 n -> (forall y, same_core y (u y)) ->
  (forall n', kept t x h n0 n' -> P tt n') -> wp (when b (upd t u)) n P.
Proof.
  intros Hk Hu HP. destruct b; [|by apply wp_ret, HP]. pose proof Hk as [H (x' & Hx' & Hc) Hv].
  apply (wp_sock_upd _ _ x'); [done|]. apply HP. eapply kept_trans; [exact Hk|exact Hx'|]. by apply kept_touch.
Qed.
End attempts.
