(* ===== verification/AsockStep.v ===== *)
(** Every step of the sockets and their threads keeps the invariant, and none
    goes wrong. *)
From S2P Require Import Prelude Ioq Wait Asock AsockSys AsockOps.

(** * The counts of the threads *)
Lemma at_same t n : at_ t n t = n.
Proof. unfold at_. by rewrite decide_True. Qed.
Lemma at_other t n u : u <> t -> at_ t n u = 0%nat.
Proof. intros. unfold at_. by rewrite decide_False. Qed.

Lemma count_mid l1 l2 t u : count_occ Pos.eq_dec (l1 ++ t :: l2) u = (count_occ Pos.eq_dec (l1 ++ l2) u + at_ t 1 u)%nat.
Proof.
  rewrite !count_occ_app. simpl. unfold at_. destruct (Pos.eq_dec t u) as [->|]; [rewrite decide_True by done|rewrite decide_False by done]; lia.
Qed.
Lemma count_snoc l t u : count_occ Pos.eq_dec (l ++ [t]) u = (count_occ Pos.eq_dec l u + at_ t 1 u)%nat.
Proof. by rewrite count_mid, app_nil_r. Qed.
Lemma sum_push l t ops u k : sum_list_with (fun p : positive * Z => at_ u (b2n (has k p.2)) p.1) (l ++ push t ops) =
  (sum_list_with (fun p : positive * Z => at_ u (b2n (has k p.2)) p.1) l + at_ t (b2n (has k ops)) u)%nat.
Proof.
  unfold push. destruct (truth ops) eqn:E; [rewrite sum_snoc; simpl|].
  - unfold at_. destruct (decide (t = u)), (decide (u = t)); congruence.
  - apply truth_false in E as ->. rewrite app_nil_r, has_0. unfold at_. destruct (decide (u = t)); simpl; lia.
Qed.
Lemma count_req l t k u j : count_occ req_dec (l ++ [(t, k)]) (u, j) =
  (count_occ req_dec l (u, j) + at_ t (b2n (bool_decide (j = k))) u)%nat.
Proof.
  rewrite count_occ_app. simpl. unfold at_. destruct (req_dec (t, k) (u, j)) as [[= -> ->]|Hn].
  - rewrite decide_True, bool_decide_true by done. simpl. lia.
  - destruct (decide (u = t)) as [->|]; [|lia]. rewrite bool_decide_false by congruence. simpl. lia.
Qed.

Ltac counts :=
  unfold ending_n, execing_n, taking_n, pushing_n, calling_n, begun_n, called_n in *; cbn [ending pushing execing taking calling begun called] in *;
  rewrite ?count_mid, ?count_snoc, ?sum_mid, ?sum_push, ?sum_snoc, ?count_req in *; cbn [fst snd] in *; rewrite ?app_nil_r.

(** Nothing changes but at [t]. *)
Ltac elsewhere :=
  let u := fresh "u" in let Hu := fresh "Hu" in
  intros u Hu; split_and!; [..|intros; split_and!];
  counts; rewrite ?(at_other _ _ _ Hu), ?(at_other _ _ _ (not_eq_sym Hu)), ?Nat.add_0_r; lia.

Section step.
Context {Q O : Type} `{!WaitQueue Q, !WaitQueueLaws Q} `{!Sockets O, !SocketsLaws O}.
Implicit Types (n : net Q O) (h : threads) (o : O).

Definition end_done h t l1 l2 ops : threads :=
  mk_threads (l1 ++ l2) (pushing h ++ push t ops) (execing h) (taking h) (calling h) (begun h) (called h).

Lemma end_elsewhere h t l1 l2 ops : ending h = l1 ++ t :: l2 -> elsewhere t h (end_done h t l1 l2 ops).
Proof. intros E. destruct h. simpl in E. subst. unfold end_done. elsewhere. Qed.

(** [wait_end] runs: some operations are done, others are waited for. *)
Lemma inv_end n h t x v l1 l2 q' v' o' ops mask : asys_inv n h -> socks n !! t = Some x ->
  ending h = l1 ++ t :: l2 -> view (ioq n) (wait_fd t) = Some v ->
  wq_ok q' -> only (wait_fd t) (ioq n) q' -> view q' (wait_fd t) = Some v' -> v_fd v' = v_fd v ->
  (v_status v' = Idle <-> ops = 0) ->
  (forall k, (b2n (has k (wait_ops x)) = b2n (has k ops) + b2n (has k mask))%nat) ->
  ops_ok ops -> Z.testbit ops 4 = false -> (Z.testbit ops 1 = true -> accepts x = true) -> (ops <> 0 -> 0 <= sock x) ->
  (forall u y d, u <> t -> socks n !! u = Some y -> held (ioq n) u y = Some d -> d ∈ opened o') ->
  (0 <= sock x -> sock x ∈ opened o') ->
  asys_inv (mk_net (<[t := set_wait_ops ops x]> (socks n)) q' o') (end_done h t l1 l2 mask).
Proof.
  intros H Hx He Hv Hq [Hon [Htk Hqd]] Hv' Hfd Hst Hk Hok H4 H1 Hs Ho Hos.
  set (x' := set_wait_ops ops x). set (h' := end_done h t l1 l2 mask).
  pose proof (end_elsewhere h t l1 l2 mask He) as Hel.
  assert (ending_n h t = ending_n h' t + 1)%nat as Een.
  { unfold ending_n. rewrite He, count_mid, at_same. done. }
  assert (forall k, pushing_n h' t k = pushing_n h t k + b2n (has k mask))%nat as Epn.
  { intros k. unfold pushing_n, h', end_done. cbn [pushing]. by rewrite sum_push, at_same. }
  assert (cancelled x' = false) as Ec by (unfold cancelled; by rewrite cancel_bit).
  assert (accepts x' = true -> accepts x = true) as Ea by (unfold accepts at 1; by rewrite accept_bit).
  pose proof (ai_socks _ _ H t x Hx) as [(v0 & Sv & Sw1 & Sw2 & Sw3) S2 S3 S4 S5 S6 S7 S8].
  assert (v0 = v) as -> by congruence. assert (wait_ops x <> 0) as Hn by (intros E; destruct (Sw2 E); lia).
  destruct (Sw3 Hn) as [[[Hi He1]|[_ He0]] Hh]; [|lia].
  assert (held q' t x' = if 0 <=? sock x then Some (sock x) else None) as Eh by (unfold held; by rewrite Ec).
  assert (forall d, held q' t x' = Some d -> 0 <= sock x /\ d = sock x) as Eh'.
  { intros d. rewrite Eh. destruct (Z.leb_spec 0 (sock x)); [|done]. by intros [= <-]. }
  assert (0 <= sock x -> held (ioq n) t x = Some (sock x)) as Hhs.
  { intros Hsx. unfold held. by rewrite (proj2 (Z.leb_le _ _) Hsx). }
  eapply inv_update; [exact H|exact Hx|exact Hq|exact Hon|exact Htk|intros; apply Hqd|exact Hel|exact Ho|..].
  - intros d [Hsx ->]%Eh'. split; [auto|]. intros u y Hu Hy. by eapply (ai_held _ _ H t u); [apply not_eq_sym| | |apply Hhs].
  - intros _ Hf k. specialize (Hf k). exact Hf.
  - auto.
  - split; cbn [socks ioq os]; try done.
    + exists v'. split; [done|]. split; [intros Hsx; by rewrite Hfd, Sw1|]. change (wait_ops x') with ops.
      split; [intros ->; split; [by apply Hst|lia]|]. intros Hnz. split.
      * right. split; [by rewrite Hst|lia].
      * cbn [ioq]. rewrite Eh. rewrite (proj2 (Z.leb_le _ _) (Hs Hnz)). by rewrite Hfd, Sw1 by auto.
    + by apply Htk.
    + by rewrite Ec.
    + intros Hd. rewrite Hqd. by apply S5.
    + intros Hd. rewrite Hqd. by apply S6.
    + intros k. specialize (S7 k). specialize (Hk k). unfold owed in *. change (wait_ops x') with ops.
      change (dispatch_queue x') with (dispatch_queue x). rewrite Epn. unfold begun_n, called_n, calling_n in *. change (begun h') with (begun h). change (called h') with (called h).
      change (calling h') with (calling h). lia.
    + intros Hax. destruct (S8 (Ea Hax)) as (C1 & C2 & C3). split; [done|]. split; [by rewrite lookup_insert_ne|].
      intros k. apply (free_elsewhere t h h'); [done|done|apply C3].
Qed.

(** The outcome is recorded for the operations that are cancelled. *)
Lemma wp_fail_all {A} t x n0 n h e ops (P : A -> net Q O -> Prop) (rest : M (net Q O) A) : kept t x h n0 n ->
  (forall n', kept t x h n0 n' -> wp rest n' P) ->
  wp (when (truth (Z.land ops (Z.lor OP_CONNECT OP_ACCEPT))) (upd t (set_ca_error e));;
      when (truth (Z.land ops OP_SEND)) (upd t (fun x => set_snd (result 0 e (snd_req x)) x));;
      when (truth (Z.land ops OP_RECV)) (upd t (fun x => set_rcv (result 0 e (rcv_req x)) x));;
      rest) n P.
Proof.
  intros Hk HP. wp_bind. eapply wp_when_kept; [exact Hk|done|]. intros n1 Hk1.
  wp_bind. eapply wp_when_kept; [exact Hk1|done|]. intros n2 Hk2.
  wp_bind. eapply wp_when_kept; [exact Hk2|done|]. exact HP.
Qed.

Lemma wp_wait_end n h t l1 l2 : asys_inv n h -> is_Some (socks n !! t) -> ending h = l1 ++ t :: l2 ->
  wp (wait_end t) n (fun ops n' => asys_inv n' (end_done h t l1 l2 ops)).
Proof.
  intros H [x Hx] He. destruct (sock_view n h t x H Hx) as (v & Hv & Sw1 & Sw2 & Sw3).
  assert (ending_n h t = ending_n (end_done h t l1 l2 0) t + 1)%nat as Een.
  { unfold ending_n. rewrite He, count_mid, at_same. done. }
  assert (wait_ops x <> 0) as Hn by (intros E; destruct (Sw2 E); lia).
  destruct (Sw3 Hn) as [[[Hi _]|[_ He0]] Hh]; [|lia].
  pose proof (so_ops _ _ _ _ (ai_socks _ _ H t x Hx)) as Hok. pose proof (so_cancel _ _ _ _ (ai_socks _ _ H t x Hx)) as Hcs.
  pose proof (others_open n h t x (v_fd v) H Hx Hh) as Hoth.
  pose proof (kept_refl t x h n H Hx) as Hk0.
  unfold wait_end. wp_bind. apply (wp_get_sock _ x); [done|]. wp_bind. apply (wp_sock_fd _ v); [done|].
  destruct (truth (Z.land (wait_ops x) OP_CANCEL)) eqn:Hcan; [|destruct (truth (v_err v)); cbn [orb]].
  - cbn [orb]. eapply wp_fail_all; [exact Hk0|]. intros n1 [H1 (x1 & Hx1 & Hc1) Hv1]. rewrite Hv in Hv1. cbn [when].
    assert (held (ioq n1) t x1 = Some (v_fd v)) as Hh1.
    { rewrite (held_core _ _ _ _ Hc1), (held_view (ioq n)); [exact Hh|congruence]. }
    assert (sock x1 < 0) as Hs1 by (rewrite (sc_sock _ _ Hc1); by apply Hcs).
    wp_bind. apply wp_close; [exact (ai_open _ _ H1 t x1 _ Hx1 Hh1)|]. wp_bind. apply (wp_sock_upd _ _ x1); [done|]. apply wp_ret.
    cbn [socks ioq os]. eapply (inv_end n1 h t x1 v); [exact H1|exact Hx1|exact He|exact Hv1|apply (ai_queue _ _ H1)|apply only_same|exact Hv1|done|..].
    + done.
    + intros k. by rewrite (sc_ops _ _ Hc1), has_0.
    + apply ops_ok_0.
    + done.
    + done.
    + done.
    + intros u y d Hu Hy Hd. rewrite close_closes. destruct (others_open n1 h t x1 _ H1 Hx1 Hh1 u y d Hu Hy Hd). set_solver.
    + lia.
  - eapply wp_fail_all; [exact Hk0|]. intros n1 [H1 (x1 & Hx1 & Hc1) Hv1]. rewrite Hv in Hv1. cbn [when].
    wp_bind. apply wp_ret. wp_bind. apply (wp_sock_upd _ _ x1); [done|]. apply wp_ret.
    eapply (inv_end n1 h t x1 v); [exact H1|exact Hx1|exact He|exact Hv1|apply (ai_queue _ _ H1)|apply only_same|exact Hv1|done|..].
    + done.
    + intros k. by rewrite (sc_ops _ _ Hc1), has_0.
    + apply ops_ok_0.
    + done.
    + done.
    + done.
    + intros u y d Hu Hy Hd. by eapply (ai_open _ _ H1 u).
    + intros Hs1. apply (ai_open _ _ H1 t x1); [done|]. unfold held. by rewrite (proj2 (Z.leb_le _ _) Hs1).
  - assert (done_ops (wait_ops x) 0) as Hd0 by (split; intros; by rewrite ?Z.bits_0 in *).
    wp_bind. apply (wp_attempt_next t 0 _ 0 n n h x); [lia|apply wait_connect_tries|exact Hk0|exact Hd0|]. intros m1 n1 D1 K1.
    wp_bind. apply (wp_attempt_next t 1 _ m1 n n1 h x); [lia|apply wait_accept_tries|exact K1|exact D1|]. intros m2 n2 D2 K2.
    wp_bind. apply (wp_attempt_next t 2 _ m2 n n2 h x); [lia|apply wait_send_tries|exact K2|exact D2|]. intros m3 n3 D3 K3.
    wp_bind. apply (wp_attempt_next t 3 _ m3 n n3 h x); [lia|apply wait_recv_tries|exact K3|exact D3|].
    intros m n4 D [H1 (x1 & Hx1 & Hc1) Hv1]. rewrite Hv in Hv1.
    wp_bind. apply (wp_sock_upd _ _ x1); [done|]. wp_bind. eapply wp_get_sock; [cbn [socks]; by rewrite lookup_insert_eq|].
    cbn [wait_ops set_wait_ops socks ioq os]. rewrite (sc_ops _ _ Hc1). set (ops := Z.land (wait_ops x) (Z.lnot m)).
    rewrite cancel_bit in Hcan.
    assert (forall k, (b2n (has k (wait_ops x1)) = b2n (has k ops) + b2n (has k m))%nat) as Hcnt.
    { intros k. rewrite (sc_ops _ _ Hc1). destruct (has_ldiff k _ _ Hok D) as [E1 E2]. fold ops in E1, E2. rewrite E1.
      by destruct (has k ops), (has k m). }
    assert (ops_ok ops) as Hok' by by apply ops_ok_ldiff.
    assert (Z.testbit ops 4 = false) as Hb4 by (unfold ops; by rewrite Z.land_spec, Hcan).
    assert (Z.testbit ops 1 = true -> accepts x1 = true) as Hb1.
    { unfold accepts. rewrite accept_bit, (sc_ops _ _ Hc1). unfold ops. rewrite Z.land_spec. by intros [? _]%andb_true_iff. }
    assert (0 <= sock x1) as Hs1.
    { rewrite (sc_sock _ _ Hc1). unfold held, cancelled in Hh. rewrite cancel_bit, Hcan in Hh.
      by destruct (Z.leb_spec 0 (sock x)). }
    assert (held (ioq n4) t x1 = Some (v_fd v)) as Hh1.
    { rewrite (held_core _ _ _ _ Hc1), (held_view (ioq n)); [exact Hh|congruence]. }
    assert (forall q' v', wq_ok q' -> only (wait_fd t) (ioq n4) q' -> view q' (wait_fd t) = Some v' -> v_fd v' = v_fd v ->
      (v_status v' = Idle <-> ops = 0) ->
      asys_inv (mk_net (<[t := set_wait_ops ops x1]> (socks n4)) q' (os n4)) (end_done h t l1 l2 m)) as Hend.
    { intros q' v' Hq Hon Hv' Hfd Hst. eapply (inv_end n4 h t x1 v l1 l2 q' v'); try done.
      - intros u y d Hu Hy Hd. by eapply (ai_open _ _ H1 u).
      - intros _. apply (ai_open _ _ H1 t x1); [done|]. unfold held. by rewrite (proj2 (Z.leb_le _ _) Hs1). }
    destruct (truth ops) eqn:Et; cbn [when].
    + apply truth_spec in Et. destruct (ops_ok_has ops Hok' Et) as [k Hk].
      wp_bind. apply wp_on_queue. cbn [socks ioq os].
      eapply wp_mono; [apply (wq_wait _ (wait_mask ops) WAIT_END _ v); [apply (ai_queue _ _ H1)|exact Hv1|exact Hi|
        by eapply sole_held|by eapply wait_mask_nonzero]|].
      intros [] q' (Hq & Hon & Hv'). apply wp_ret. by apply (Hend q' _ Hq Hon Hv').
    + apply truth_false in Et. wp_bind. apply wp_ret, wp_ret.
      apply (Hend (ioq n4) v); [apply (ai_queue _ _ H1)|apply only_same|done|done|by rewrite Hi].
Qed.
End step.

Section requests.
Context {Q O : Type} `{!WaitQueue Q, !WaitQueueLaws Q} `{!Sockets O, !SocketsLaws O}.
Implicit Types (n : net Q O) (h : threads) (o : O).

(** A request of kind [k] is made, and perhaps operations are to be pushed. *)
Definition request_made h t k ops : threads :=
  mk_threads (ending h) (pushing h ++ push t ops) (execing h) (taking h) (calling h) (begun h ++ [(t, k)]) (called h).

Lemma made_elsewhere h t k ops : elsewhere t h (request_made h t k ops).
Proof. unfold request_made. elsewhere. Qed.

Lemma made_counts h t k ops : let h' := request_made h t k ops in
  ending_n h' t = ending_n h t /\ execing_n h' t = execing_n h t /\ taking_n h' t = taking_n h t /\
  forall j, pushing_n h' t j = (pushing_n h t j + b2n (has j ops))%nat /\ calling_n h' t j = calling_n h t j /\
    begun_n h' t j = (begun_n h t j + b2n (bool_decide (j = k)))%nat /\ called_n h' t j = called_n h t j.
Proof. unfold request_made. split_and!; [done..|]. intros j. split_and!; counts; rewrite ?at_same; done. Qed.

(** Nothing is owed for a kind of which no request is outstanding. *)
Lemma free_owed n h t x k : asys_inv n h -> socks n !! t = Some x -> free h t k -> owed n h t x k = 0%nat.
Proof. intros H Hx Hf. destruct (so_count _ _ _ _ (ai_socks _ _ H t x Hx) k) as [Hc _]. unfold free in Hf. lia. Qed.

Lemma free_has n h t x k : asys_inv n h -> socks n !! t = Some x -> free h t k -> has k (wait_ops x) = false.
Proof.
  intros H Hx Hf. pose proof (free_owed n h t x k H Hx Hf) as Ho. unfold owed in Ho.
  destruct (has k (wait_ops x)); [simpl in Ho; lia|done].
Qed.

(** The request is refused: its callback is to be dispatched at once. *)
Lemma inv_refused n h t x x' k op o' : asys_inv n h -> socks n !! t = Some x -> free h t k -> ~ reserved n t ->
  op_of k op -> same_core x x' -> opened o' = opened (os n) ->
  asys_inv (mk_net (<[t := x']> (socks n)) (ioq n) o') (request_made h t k op).
Proof.
  intros H Hx Hf Hr Hop Hc Ho. pose proof (free_owed n h t x k H Hx Hf) as H0.
  destruct (made_counts h t k op) as (E1 & E2 & E3 & E4).
  pose proof (sock_ok_core n h t x x' o' (ai_socks _ _ H t x Hx) Hc Hx) as [(v & Sv & Sw) S2 S3 S4 S5 S6 S7 S8].
  eapply inv_update; [exact H|exact Hx|apply (ai_queue _ _ H)|done|done|done|apply made_elsewhere|..].
  - intros u y d _ Hu Hd. rewrite Ho. by eapply (ai_open _ _ H u).
  - intros d. rewrite (held_core _ _ _ _ Hc), Ho. intros Hd. split; [by eapply (ai_open _ _ H t)|].
    intros u y Hu Hy. by eapply (ai_held _ _ H t u).
  - done.
  - unfold accepts at 1. rewrite (sc_ops _ _ Hc). intros Ha. left. by rewrite (sc_client _ _ Hc).
  - split; try done.
    + exists v. split; [done|]. unfold wait_good in *. by rewrite E1.
    + intros j. destruct (E4 j) as (P1 & P2 & P3 & P4). specialize (S7 j). unfold owed in *. rewrite P1, P2, P3, P4.
      rewrite (op_of_has k op j Hop). destruct (decide (j = k)) as [->|Hne].
      * destruct Hc as [_ _ C3 C4]. rewrite C3, C4 in *. rewrite bool_decide_true by done. simpl. lia.
      * rewrite bool_decide_false by done. simpl. lia.
    + intros Ha. destruct (S8 Ha) as (C1 & C2 & C3). split_and!; [done|done|]. intros j.
      by apply (free_elsewhere t h (request_made h t k op)); [apply made_elsewhere|..].
Qed.

(** The request is to be waited for. *)
Definition client_ok n h t (x' : asock) : Prop :=
  ca_client (ca x') <> t /\ is_Some (socks n !! ca_client (ca x')) /\ (forall k, free h (ca_client (ca x')) k) /\
  ~ reserved n (ca_client (ca x')).

Lemma inv_waited n h t x x' k op q' v v' : asys_inv n h -> socks n !! t = Some x -> free h t k -> ~ reserved n t ->
  op_of k op -> sock x' = sock x -> 0 <= sock x -> dispatch_queue x' = dispatch_queue x ->
  wait_ops x' = Z.lor (wait_ops x) op ->
  (accepts x' = true -> accepts x = true /\ ca_client (ca x) = ca_client (ca x') \/ client_ok n h t x') ->
  wq_ok q' -> only (wait_fd t) (ioq n) q' -> view (ioq n) (wait_fd t) = Some v -> view q' (wait_fd t) = Some v' ->
  v_fd v' = v_fd v ->
  (wait_ops x <> 0 -> v_status v' = Idle <-> v_status v = Idle) -> (wait_ops x = 0 -> v_status v' <> Idle) ->
  asys_inv (mk_net (<[t := x']> (socks n)) q' (os n)) (request_made h t k 0).
Proof.
  intros H Hx Hf Hr Hop Es Hs Ed Ew Ha Hq [Hon [Htk Hqd]] Hv Hv' Hfd Hst1 Hst0.
  pose proof (free_owed n h t x k H Hx Hf) as H0. pose proof (free_has n h t x k H Hx Hf) as Hno.
  destruct (made_counts h t k 0) as (E1 & E2 & E3 & E4). pose proof (made_elsewhere h t k 0) as Hel.
  destruct (ai_socks _ _ H t x Hx) as [(v0 & Sv & Sw1 & Sw2 & Sw3) S2 S3 S4 S5 S6 S7 S8].
  assert (v0 = v) as -> by congruence.
  assert (held (ioq n) t x = Some (sock x)) as Hh by (unfold held; by rewrite (proj2 (Z.leb_le _ _) Hs)).
  assert (held q' t x' = Some (sock x)) as Hh' by (unfold held; by rewrite Es, (proj2 (Z.leb_le _ _) Hs)).
  assert (Z.lor (wait_ops x) op <> 0) as Hnz.
  { apply (has_nonzero k). rewrite has_lor, (op_of_has k op k Hop), bool_decide_true by done. apply orb_true_r. }
  eapply inv_update; [exact H|exact Hx|exact Hq|exact Hon|exact Htk|intros; apply Hqd|exact Hel|..].
  - intros u y d _ Hu Hd. by eapply (ai_open _ _ H u).
  - rewrite Hh'. intros d [= <-]. split; [by eapply (ai_open _ _ H t)|]. intros u y Hu Hy. by eapply (ai_held _ _ H t u).
  - done.
  - intros Hax. destruct (Ha Hax) as [?|(_ & _ & _ & ?)]; auto.
  - split; cbn [socks ioq os]; try done.
    + exists v'. split; [done|]. split; [intros _; rewrite Hfd, Es; auto|]. split; [by rewrite Ew|]. intros _.
      cbn [ioq]. rewrite Hh', Hfd, Sw1 by done. split; [|done]. rewrite E1.
      destruct (decide (wait_ops x = 0)) as [E|Hn].
      * right. split; [auto|]. by apply Sw2.
      * destruct (Sw3 Hn) as [Hd _]. by rewrite (Hst1 Hn).
    + by apply Htk.
    + rewrite Ew. by apply (ops_ok_add k).
    + unfold cancelled. rewrite Ew, cancel_bit, Z.lor_spec, (proj1 (op_of_bits k op Hop)), orb_false_r, <- cancel_bit, Es. exact S4.
    + rewrite Ed, E2, E3. intros Hd. rewrite Hqd. by apply S5.
    + rewrite Ed, E2, E3. intros Hd. rewrite Hqd. by apply S6.
    + intros j. destruct (E4 j) as (P1 & P2 & P3 & P4). specialize (S7 j). unfold owed in *. rewrite P1, P2, P3, P4, has_0.
      rewrite Ed, Ew, has_lor, (op_of_has k op j Hop). destruct (decide (j = k)) as [->|Hne].
      * rewrite bool_decide_true, Hno by done. simpl. rewrite Hno in *. simpl in *. lia.
      * rewrite bool_decide_false, orb_false_r by done. simpl. lia.
    + intros Hax. assert (ca_client (ca x') <> t /\ is_Some (socks n !! ca_client (ca x')) /\
        forall j, free h (ca_client (ca x')) j) as (C1 & C2 & C3).
      { destruct (Ha Hax) as [[Hax0 <-]|(? & ? & ? & _)]; auto. }
      split; [done|]. split; [by rewrite lookup_insert_ne|]. intros j. by apply (free_elsewhere t h _ _ j Hel).
Qed.

(** The descriptor of an open socket is used by its own wait only. *)
Lemma sole_sock n h t x : asys_inv n h -> socks n !! t = Some x -> 0 <= sock x -> sole (ioq n) (wait_fd t) (sock x).
Proof. intros H Hx Hs. eapply sole_held; [exact H|exact Hx|]. unfold held. by rewrite (proj2 (Z.leb_le _ _) Hs). Qed.

Lemma op_not_cancel k op : op_of k op -> truth (Z.land op OP_CANCEL) = false.
Proof. by intros []. Qed.

(** Beginning to wait for an operation; the request itself may have changed since
    the invariant held. *)
Lemma wp_wait_begin n h t x x1 k op : asys_inv n h -> socks n !! t = Some x -> free h t k -> ~ reserved n t ->
  op_of k op -> sock x1 = sock x -> 0 <= sock x -> dispatch_queue x1 = dispatch_queue x -> wait_ops x1 = wait_ops x ->
  (accepts (set_wait_ops (Z.lor (wait_ops x) op) x1) = true ->
     accepts x = true /\ ca_client (ca x) = ca_client (ca x1) \/ client_ok n h t x1) ->
  wp (wait_begin t op) (mk_net (<[t := x1]> (socks n)) (ioq n) (os n)) (fun _ n' => asys_inv n' (request_made h t k 0)).
Proof.
  intros H Hx Hf Hr Hop Es Hs Ed Ew Ha. destruct (sock_view n h t x H Hx) as (v & Hv & Sw1 & Sw2 & Sw3).
  unfold wait_begin. wp_bind. eapply wp_get_sock; [cbn [socks]; by rewrite lookup_insert_eq|].
  rewrite (op_not_cancel k op Hop), Ew. set (x' := set_wait_ops (Z.lor (wait_ops x) op) x1).
  assert (has k (Z.lor (wait_ops x) op) = true) as Hk.
  { rewrite has_lor, (op_of_has k op k Hop), bool_decide_true by done. apply orb_true_r. }
  wp_bind. wp_bind. eapply wp_sock_upd; [cbn [socks]; by rewrite lookup_insert_eq|]. cbn [socks ioq os].
  rewrite insert_insert_eq. fold x'.
  assert (forall q' v', wq_ok q' -> only (wait_fd t) (ioq n) q' -> view q' (wait_fd t) = Some v' -> v_fd v' = v_fd v ->
    (wait_ops x <> 0 -> v_status v' = Idle <-> v_status v = Idle) -> (wait_ops x = 0 -> v_status v' <> Idle) ->
    asys_inv (mk_net (<[t := x']> (socks n)) q' (os n)) (request_made h t k 0)) as Hend.
  { intros q' v' Hq Hon Hv' Hfd H1 H0. by eapply (inv_waited n h t x x' k op q' v v'). }
  destruct (truth (wait_ops x)) eqn:Et.
  - apply truth_spec in Et. apply wp_on_queue. cbn [socks ioq os].
    eapply wp_mono; [eapply wq_rewait; [apply (ai_queue _ _ H)|exact Hv]|]. intros [] q' (Hq & Hon & Hv'). apply wp_ret.
    apply (Hend q' _ Hq Hon Hv'); [by destruct (v_status v)| |done].
    intros _. destruct (v_status v) eqn:E; by rewrite ?E.
  - apply truth_false in Et. apply wp_on_queue. cbn [socks ioq os]. destruct (Sw2 Et) as [Hi _].
    eapply wp_mono; [eapply wq_wait; [apply (ai_queue _ _ H)|exact Hv|exact Hi| |by eapply wait_mask_nonzero]|].
    { rewrite Sw1 by done. by eapply sole_sock. }
    intros [] q' (Hq & Hon & Hv'). apply wp_ret. by apply (Hend q' _ Hq Hon Hv').
Qed.

(** A request on a socket that is open, or is not. *)
Lemma wp_send n h t : forall data len func, asys_inv n h -> is_Some (socks n !! t) -> free h t SEND -> ~ reserved n t ->
  wp (asock_send t data len func) n (fun ops n' => asys_inv n' (request_made h t SEND ops)).
Proof.
  intros data len func H [x Hx] Hf Hr. unfold asock_send. wp_bind. apply (wp_get_sock _ x); [done|].
  wp_bind. apply (wp_sock_upd _ _ x); [done|]. destruct (Z.ltb_spec (sock x) 0) as [Hs|Hs].
  - wp_bind. eapply wp_sock_upd; [cbn [socks]; by rewrite lookup_insert_eq|]. apply wp_ret. cbn [socks ioq os].
    rewrite insert_insert_eq. apply (inv_refused n h t x _ SEND OP_SEND); done || constructor.
  - wp_bind. eapply wp_mono; [eapply (wp_wait_begin n h t x _ SEND OP_SEND); try done; [constructor|]|].
    + unfold accepts. rewrite !accept_bit. cbn [wait_ops set_wait_ops]. rewrite Z.lor_spec, orb_false_r. auto.
    + intros r n' H'. by apply wp_ret.
Qed.

Lemma wp_recv n h t : forall data len func, asys_inv n h -> is_Some (socks n !! t) -> free h t RECV -> ~ reserved n t ->
  wp (asock_recv t data len func) n (fun ops n' => asys_inv n' (request_made h t RECV ops)).
Proof.
  intros data len func H [x Hx] Hf Hr. unfold asock_recv. wp_bind. apply (wp_get_sock _ x); [done|].
  wp_bind. apply (wp_sock_upd _ _ x); [done|]. destruct (Z.ltb_spec (sock x) 0) as [Hs|Hs].
  - wp_bind. eapply wp_sock_upd; [cbn [socks]; by rewrite lookup_insert_eq|]. apply wp_ret. cbn [socks ioq os].
    rewrite insert_insert_eq. apply (inv_refused n h t x _ RECV OP_RECV); done || constructor.
  - wp_bind. eapply wp_mono; [eapply (wp_wait_begin n h t x _ RECV OP_RECV); try done; [constructor|]|].
    + unfold accepts. rewrite !accept_bit. cbn [wait_ops set_wait_ops]. rewrite Z.lor_spec, orb_false_r. auto.
    + intros r n' H'. by apply wp_ret.
Qed.

Lemma wp_accept n h t c func : asys_inv n h -> is_Some (socks n !! t) -> free h t CA -> ~ reserved n t ->
  c <> t -> is_Some (socks n !! c) -> (forall k, free h c k) -> ~ reserved n c ->
  wp (asock_accept t c func) n (fun ops n' => asys_inv n' (request_made h t CA ops)).
Proof.
  intros H [x Hx] Hf Hr Hct Hc Hfc Hrc. unfold asock_accept. wp_bind. apply (wp_get_sock _ x); [done|].
  wp_bind. apply (wp_sock_upd _ _ x); [done|]. cbn [socks ioq os].
  set (x1 := set_ca _ x). assert (accepts x = false) as Hax.
  { pose proof (free_has n h t x CA H Hx Hf) as Hno. rewrite has_CA in Hno. apply orb_false_iff in Hno as [_ E1].
    unfold accepts. by rewrite accept_bit. }
  destruct (Z.ltb_spec (sock x) 0) as [Hs|Hs].
  - wp_bind. eapply wp_sock_upd; [cbn [socks]; by rewrite lookup_insert_eq|]. apply wp_ret. cbn [socks ioq os].
    rewrite insert_insert_eq. apply (inv_refused n h t x _ CA OP_ACCEPT); try done; [constructor|].
    split; try done. by rewrite Hax.
  - wp_bind. eapply wp_mono; [eapply (wp_wait_begin n h t x x1 CA OP_ACCEPT); try done; [constructor|]|].
    + intros _. right. by split_and!.
    + intros r n' H'. by apply wp_ret.
Qed.

(** ** A new socket *)

(** [n'] is [n] with another descriptor for the idle [t]. *)
Record reopened n h t r n' : Prop := {
  ro_inv : asys_inv n' h;
  ro_sock : exists x', socks n' = <[t := x']> (socks n) /\ sock x' = r /\ wait_ops x' = 0;
}.

Lemma wp_new_socket {A} n h t x x1 o1 (bad good : Z -> M (net Q O) A) P : asys_inv n h -> socks n !! t = Some x ->
  (forall k, free h t k) -> wait_ops x1 = 0 -> dispatch_queue x1 = dispatch_queue x ->
  opened o1 = (if 0 <=? sock x then opened (os n) ∖ {[sock x]} else opened (os n)) ->
  (forall n' r e, r < 0 -> reopened n h t r n' -> wp (bad e) n' P) ->
  (forall n' r, 0 <= r -> reopened n h t r n' -> wp (good r) n' P) ->
  wp ('(r, errno) ← syscall sys_socket; upd t (set_sock r);;
      if r <? 0 then bad errno else wait_init t;; good r) (mk_net (<[t := x1]> (socks n)) (ioq n) o1) P.
Proof.
  intros H Hx Hf Ew Ed Ho1 Hbad Hgood. destruct (idle_socket n h t x H Hx Hf) as (Ewx & v & Hv & Hi & _).
  wp_bind. apply wp_syscall. intros o2 r e E. pose proof (socket_opens _ _ _ _ E) as Ho2. unfold opens in Ho2. cbn [os] in Ho2.
  wp_bind. eapply wp_sock_upd; [cbn [socks]; by rewrite lookup_insert_eq|]. cbn [socks ioq os]. rewrite insert_insert_eq.
  assert (forall u y d, u <> t -> socks n !! u = Some y -> held (ioq n) u y = Some d -> d ∈ opened o1) as Hoth.
  { intros u y d Hu Hy Hd. rewrite Ho1. pose proof (ai_open _ _ H u y d Hy Hd). destruct (Z.leb_spec 0 (sock x)) as [Hs|]; [|done].
    assert (held (ioq n) t x = Some (sock x)) as Hh by (unfold held; by rewrite (proj2 (Z.leb_le _ _) Hs)).
    destruct (others_open n h t x _ H Hx Hh u y d Hu Hy Hd). set_solver. }
  destruct (Z.ltb_spec r 0) as [Hr|Hr].
  - apply (Hbad _ r); [done|]. split; [|by exists (set_sock r x1)].
    eapply (inv_reopen n h t x _ (ioq n) o2 v); [exact H|exact Hx|exact Hf|apply (ai_queue _ _ H)|apply only_same|exact Hv|exact Hi|..]; try done.
    + cbn. lia.
    + intros u y d Hu Hy Hd. rewrite Ho2. by eapply Hoth.
  - destruct Ho2 as [Hfresh Ho2]. wp_bind. unfold wait_init. wp_bind.
    eapply wp_get_sock; [cbn [socks]; by rewrite lookup_insert_eq|]. cbn [sock set_sock].
    wp_bind. apply wp_on_queue. cbn [socks ioq os].
    eapply wp_mono; [eapply wq_init; [apply (ai_queue _ _ H)|exact Hv|exact Hi]|]. intros [] q' (Hq & Hon & Hv').
    eapply wp_sock_upd; [cbn [socks]; by rewrite lookup_insert_eq|]. cbn [socks ioq os]. rewrite insert_insert_eq.
    apply Hgood; [done|]. split; [|by exists (set_wait_ops 0 (set_sock r x1))].
    eapply (inv_reopen n h t x _ q' o2 _); [exact H|exact Hx|exact Hf|exact Hq|exact Hon|exact Hv'|done|..]; try done.
    + intros _. split; [done|]. split; [cbn; set_solver|]. intros u y Hu Hy Hd. apply Hfresh. by eapply Hoth.
    + intros u y d Hu Hy Hd. rewrite Ho2. apply elem_of_union_r. by eapply Hoth.
Qed.

Lemma reopened_view n h t r n' : reopened n h t r n' -> ~ reserved n t ->
  exists x', socks n' !! t = Some x' /\ sock x' = r /\ wait_ops x' = 0 /\ ~ reserved n' t.
Proof.
  intros [_ (x' & E & Er & Ew)] Hr. exists x'. rewrite E, lookup_insert_eq. split_and!; [done..|].
  intros (u & y & Hu & Ha & Hc). rewrite E in Hu. apply lookup_insert_Some in Hu as [[<- <-]|[Hne Hu]].
  - unfold accepts in Ha. by rewrite Ew in Ha.
  - apply Hr. by exists u, y.
Qed.

(** The first step of [asock_listen] and [asock_connect]. *)
Lemma wp_close_first {A} n h t x (m : M (net Q O) A) P : asys_inv n h -> socks n !! t = Some x ->
  (forall o1, opened o1 = (if 0 <=? sock x then opened (os n) ∖ {[sock x]} else opened (os n)) ->
     wp m (mk_net (socks n) (ioq n) o1) P) ->
  wp (when (0 <=? sock x) (close (sock x));; m) n P.
Proof.
  intros H Hx HP. wp_bind. assert (n = mk_net (socks n) (ioq n) (os n)) as En by by destruct n.
  rewrite En at 1. apply wp_close_old; [|exact HP].
  intros Hs. apply (ai_open _ _ H t x); [done|]. unfold held. by rewrite (proj2 (Z.leb_le _ _) Hs).
Qed.

Lemma wp_connect n h t sa len func e0 : asys_inv n h -> is_Some (socks n !! t) -> (forall k, free h t k) -> ~ reserved n t ->
  wp (asock_connect t sa len func e0) n (fun ops n' => asys_inv n' (request_made h t CA ops)).
Proof.
  intros H [x Hx] Hf Hr. destruct (idle_socket n h t x H Hx Hf) as (Ewx & _).
  unfold asock_connect. wp_bind. apply (wp_get_sock _ x); [done|]. eapply wp_close_first; [exact H|exact Hx|].
  intros o1 Ho1. wp_bind. apply (wp_sock_upd _ _ x); [done|]. cbn [socks ioq os].
  apply (wp_new_socket n h t x _ o1 (fun e => upd t (set_ca_error e);; ret OP_CONNECT) (fun r => '(r', e') ← syscall (sys_connect r sa len);
    let errno := if r' <? 0 then e' else e0 in
    if negb (errno =? EINPROGRESS) then upd t (set_ca_error errno);; ret OP_CONNECT
    else wait_begin t OP_CONNECT;; ret 0)); try done.
  - intros n' r e _ Hro. destruct (reopened_view n h t r n' Hro Hr) as (x' & Hx' & Er & Ew & Hr').
    wp_bind. apply (wp_sock_upd _ _ x'); [done|]. apply wp_ret.
    apply (inv_refused n' h t x' _ CA OP_CONNECT); try done; [apply Hro|constructor].
  - intros n' r Hpos Hro. destruct (reopened_view n h t r n' Hro Hr) as (x' & Hx' & Er & Ew & Hr').
    wp_bind. apply wp_syscall. intros o2 r2 e2 E2. pose proof (keeps_opened _ _ _ _ (connect_keeps _ _ _ _) E2) as Ho2.
    cbv zeta. destruct (negb (_ =? EINPROGRESS)).
    + wp_bind. apply (wp_sock_upd _ _ x'); [done|]. apply wp_ret. cbn [socks ioq os].
      apply (inv_refused n' h t x' _ CA OP_CONNECT); try done; [apply Hro|constructor].
    + pose proof (inv_kernel n' h o2 (ro_inv _ _ _ _ _ Hro) Ho2) as H2. wp_bind.
      assert (mk_net (socks n') (ioq n') o2 = mk_net (<[t := x']> (socks n')) (ioq n') o2) as -> by by rewrite insert_id.
      eapply wp_mono; [eapply (wp_wait_begin (mk_net (socks n') (ioq n') o2) h t x' x' CA OP_CONNECT); try done; [constructor|lia|]|].
      * unfold accepts. rewrite accept_bit. cbn [wait_ops set_wait_ops]. by rewrite Ew.
      * intros z n2 Hn2. by apply wp_ret.
Qed.

(** A system call on the new socket. *)
Lemma wp_listen_call n h t c next (P : Z -> net Q O -> Prop) : asys_inv n h -> is_Some (socks n !! t) ->
  (forall d o, opened (c d o).1 = opened o) ->
  (forall z n', asys_inv n' h -> P z n') ->
  (forall n', asys_inv n' h -> is_Some (socks n' !! t) -> wp next n' P) ->
  wp (listen_call t c next) n P.
Proof.
  intros H [x Hx] Hc HP Hnext. unfold listen_call. wp_bind. apply (wp_get_sock _ x); [done|].
  wp_bind. apply wp_syscall. intros o r e E. pose proof (keeps_opened _ _ _ _ (Hc _ _) E) as Ho. destruct (r <? 0).
  - wp_bind. apply (wp_sock_upd _ _ x); [done|]. apply wp_ret, HP. by apply (inv_touch n h t x).
  - apply Hnext; [by apply inv_kernel|by exists x].
Qed.

Lemma wp_listen n h t sa len : asys_inv n h -> is_Some (socks n !! t) -> (forall k, free h t k) -> ~ reserved n t ->
  wp (asock_listen t sa len) n (fun _ n' => asys_inv n' h).
Proof.
  intros H [x Hx] Hf Hr. destruct (idle_socket n h t x H Hx Hf) as (Ewx & _).
  unfold asock_listen. wp_bind. apply (wp_get_sock _ x); [done|]. eapply wp_close_first; [exact H|exact Hx|].
  intros o1 Ho1. assert (mk_net (socks n) (ioq n) o1 = mk_net (<[t := x]> (socks n)) (ioq n) o1) as -> by by rewrite insert_id.
  apply (wp_new_socket n h t x x o1 (fun e => upd t (set_ca_error e);; ret (-1)) (fun _ => listen_call t sys_setsockopt (
    listen_call t (fun d => sys_bind d sa len) (listen_call t sys_listen (ret 0))))); try done.
  - intros n' r e _ Hro. destruct (reopened_view n h t r n' Hro Hr) as (x' & Hx' & _).
    wp_bind. apply (wp_sock_upd _ _ x'); [done|]. apply wp_ret. apply (inv_touch n' h t x'); try done. apply Hro.
  - intros n' r _ Hro. destruct (reopened_view n h t r n' Hro Hr) as (x' & Hx' & _).
    apply (wp_listen_call n' h); [apply Hro|by exists x'|intros; apply setsockopt_keeps|done|]. intros n2 H2 S2.
    apply (wp_listen_call n2 h); [done|done|intros; apply bind_keeps|done|]. intros n3 H3 S3.
    apply (wp_listen_call n3 h); [done|done|intros; apply listen_keeps|done|]. intros n4 H4 S4. by apply wp_ret.
Qed.
End requests.
