(* ===== verification/AsockReach.v ===== *)
(** The invariant of the sockets holds in every state that their threads can
    reach. *)
From S2P Require Import Prelude Ioq Wait Asock AsockSys AsockOps AsockStep.

Section reach.
Context {Q O : Type} `{!WaitQueue Q, !WaitQueueLaws Q} `{!Sockets O, !SocketsLaws O}.
Implicit Types (n : net Q O) (h : threads) (o : O).

(** ** Closing *)
Lemma inv_shut n h t x x' q' v v' o' : asys_inv n h -> socks n !! t = Some x -> 0 <= sock x ->
  view (ioq n) (wait_fd t) = Some v -> wq_ok q' -> only (wait_fd t) (ioq n) q' -> view q' (wait_fd t) = Some v' ->
  v_fd v' = v_fd v -> (v_status v' = Idle <-> v_status v = Idle) ->
  sock x' = -1 -> ca x' = ca x -> dispatch_queue x' = dispatch_queue x ->
  wait_ops x' = (if truth (wait_ops x) then Z.lor (wait_ops x) OP_CANCEL else 0) ->
  opened o' = (if truth (wait_ops x) then opened (os n) else opened (os n) ∖ {[sock x]}) ->
  asys_inv (mk_net (<[t := x']> (socks n)) q' o') h.
Proof.
  intros H Hx Hs Hv Hq [Hon [Htk Hqd]] Hv' Hfd Hst Es Eca Ed Ew Ho.
  assert (held (ioq n) t x = Some (sock x)) as Hh by (unfold held; by rewrite (proj2 (Z.leb_le _ _) Hs)).
  pose proof (others_open n h t x _ H Hx Hh) as Hoth.
  destruct (ai_socks _ _ H t x Hx) as [(v0 & Sv & Sw1 & Sw2 & Sw3) S2 S3 S4 S5 S6 S7 S8].
  assert (v0 = v) as -> by congruence.
  assert (truth (wait_ops x) = true -> wait_ops x <> 0) as Hnz by by rewrite truth_spec.
  assert (forall k, has k (wait_ops x') = has k (wait_ops x)) as Hk.
  { intros k. rewrite Ew. destruct (truth (wait_ops x)) eqn:Et; [apply has_cancel|].
    apply truth_false in Et as ->. done. }
  assert (accepts x' = accepts x) as Ea.
  { unfold accepts. rewrite Ew, !accept_bit. destruct (truth (wait_ops x)) eqn:Et; [|by apply truth_false in Et as ->].
    rewrite Z.lor_spec. apply orb_false_r. }
  assert (truth (wait_ops x) = true -> held q' t x' = Some (sock x)) as Hh'.
  { intros Et. unfold held, cancelled. rewrite Es, Ew, Et, cancel_bit, Z.lor_spec. change (Z.testbit OP_CANCEL 4) with true.
    rewrite orb_true_r. cbn. rewrite Hv'. cbn. by rewrite Hfd, Sw1. }
  assert (truth (wait_ops x) = false -> held q' t x' = None) as Hh0.
  { intros Et. unfold held, cancelled. by rewrite Es, Ew, Et. }
  eapply inv_update; [exact H|exact Hx|exact Hq|exact Hon|exact Htk|intros; apply Hqd|apply elsewhere_refl|..].
  - intros u y d Hu Hy Hd. destruct (Hoth u y d Hu Hy Hd). rewrite Ho. destruct (truth (wait_ops x)); set_solver.
  - intros d. destruct (truth (wait_ops x)) eqn:Et; [|by rewrite Hh0]. rewrite Hh', Ho by done. intros [= <-].
    split; [by eapply (ai_open _ _ H t)|]. intros u y Hu Hy. by eapply (ai_held _ _ H t u).
  - done.
  - rewrite Ea, Eca. auto.
  - split; cbn [socks ioq os]; try done.
    + exists v'. split; [done|]. split; [lia|]. rewrite Hst. cbn [ioq]. rewrite Ew. split.
      * destruct (truth (wait_ops x)) eqn:Et; [|intros _; apply Sw2; by apply truth_false].
        intros E. destruct (ops_ok_has _ S3 (Hnz eq_refl)) as [k Hkk]. specialize (Hk k). rewrite Ew, E, has_0 in Hk. congruence.
      * destruct (truth (wait_ops x)) eqn:Et; [|done]. intros _. destruct (Sw3 (Hnz eq_refl)) as [? _]. split; [done|].
        rewrite Hh', Hfd, Sw1 by done. done.
    + by apply Htk.
    + rewrite Ew. destruct (truth (wait_ops x)) eqn:Et; [apply ops_ok_cancel; auto|apply ops_ok_0].
    + intros _. lia.
    + rewrite Ed. intros Hd. rewrite Hqd. by apply S5.
    + rewrite Ed. intros Hd. rewrite Hqd. by apply S6.
    + intros k. unfold owed. rewrite Hk, Ed. apply S7.
    + rewrite Ea, Eca. intros Hax. destruct (S8 Hax) as (C1 & C2 & C3). split_and!; [done| |done]. by rewrite lookup_insert_ne.
Qed.

Lemma wp_sock_close n h t : asys_inv n h -> is_Some (socks n !! t) -> wp (asock_close t) n (fun _ n' => asys_inv n' h).
Proof.
  intros H [x Hx]. unfold asock_close. wp_bind. apply (wp_get_sock _ x); [done|].
  destruct (Z.ltb_spec (sock x) 0) as [Hs|Hs]; [by apply wp_ret|].
  destruct (sock_view n h t x H Hx) as (v & Hv & _).
  wp_bind. unfold wait_begin. wp_bind. apply (wp_get_sock _ x); [done|].
  change (truth (Z.land OP_CANCEL OP_CANCEL)) with true. wp_bind.
  destruct (truth (wait_ops x)) eqn:Et; cbn [when negb].
  - wp_bind. apply (wp_sock_upd _ _ x); [done|]. apply wp_on_queue. cbn [socks ioq os].
    eapply wp_mono; [eapply wq_rewait; [apply (ai_queue _ _ H)|exact Hv]|]. intros [] q' (Hq & Hon & Hv').
    apply wp_ret. rewrite Et. cbn [when negb]. wp_bind. apply wp_ret.
    eapply wp_sock_upd; [cbn [socks]; by rewrite lookup_insert_eq|]. cbn [socks ioq os]. rewrite insert_insert_eq.
    eapply (inv_shut n h t x _ q' v); [done|done|done|done|done|done|exact Hv'|..]; rewrite ?Et; try done.
    + by destruct (v_status v).
    + destruct (v_status v) eqn:E; by rewrite ?E.
  - apply wp_ret, wp_ret. rewrite Et. cbn [when negb]. wp_bind. apply wp_close.
    { apply (ai_open _ _ H t x); [done|]. unfold held. by rewrite (proj2 (Z.leb_le _ _) Hs). }
    apply (wp_sock_upd _ _ x); [done|]. cbn [socks ioq os].
    eapply (inv_shut n h t x _ (ioq n) v v); [done|exact Hx|done|exact Hv|apply (ai_queue _ _ H)|apply only_same|exact Hv|..];
      cbn; rewrite ?Et; try done.
    + by apply truth_false.
    + apply close_closes.
Qed.

(** ** The dispatcher *)

(** A step of the dispatcher of [t]. *)
Lemma inv_dispatcher n h t x x' q' h' : asys_inv n h -> socks n !! t = Some x ->
  sock x' = sock x -> ca x' = ca x -> wait_ops x' = wait_ops x ->
  wq_ok q' -> same_views (ioq n) q' -> (forall u, is_task q' u <-> is_task (ioq n) u) ->
  (forall u, u <> dispatch_task t -> queued q' u <-> queued (ioq n) u) ->
  elsewhere t h h' -> ending_n h' t = ending_n h t -> ((forall k, free h t k) -> forall k, free h' t k) ->
  (dispatch_queue x' = 0 -> ~ queued q' (dispatch_task t) /\ (execing_n h' t + taking_n h' t = 0)%nat) ->
  (dispatch_queue x' <> 0 -> queued q' (dispatch_task t) /\ (execing_n h' t + taking_n h' t = 0)%nat \/
    ~ queued q' (dispatch_task t) /\ (execing_n h' t + taking_n h' t = 1)%nat) ->
  (forall k, begun_n h' t k = (called_n h' t k + owed n h' t x' k)%nat /\ (owed n h' t x' k <= 1)%nat) ->
  asys_inv (mk_net (<[t := x']> (socks n)) q' (os n)) h'.
Proof.
  intros H Hx Es Eca Ew Hq Hv Htk Hqd Hel Een Hf Hidle Hbusy Hcnt.
  assert (forall u y, held q' u y = held (ioq n) u y) as Hheld by (intros; apply held_view, Hv).
  assert (held (ioq n) t x' = held (ioq n) t x) as Hh by (unfold held, cancelled; by rewrite Es, Ew).
  destruct (ai_socks _ _ H t x Hx) as [(v & Sv & Sw) S2 S3 S4 S5 S6 S7 S8].
  eapply inv_update; [exact H|exact Hx|exact Hq|intros; apply Hv|exact Htk| |exact Hel|..].
  - intros u Hu. apply Hqd. by intros [=].
  - intros u y d _ Hy Hd. by eapply (ai_open _ _ H u).
  - intros d. rewrite Hheld, Hh. intros Hd. split; [by eapply (ai_open _ _ H t)|]. intros u y Hu Hy. by eapply (ai_held _ _ H t u).
  - auto.
  - unfold accepts. rewrite Ew, Eca. auto.
  - split; cbn [socks ioq os]; unfold cancelled, accepts; rewrite ?Es, ?Ew, ?Eca; try done.
    + exists v. rewrite Hv. split; [done|]. unfold wait_good in *. cbn [ioq]. by rewrite Hheld, Hh, Es, Ew, Een.
    + by apply Htk.
    + intros Hax. destruct (S8 Hax) as (C1 & C2 & C3). split; [done|]. split; [by rewrite lookup_insert_ne|].
      intros k. by apply (free_elsewhere t h h').
Qed.

Definition push_done h l1 l2 (t : positive) (b : bool) : threads :=
  mk_threads (ending h) (l1 ++ l2) (execing h ++ if b then [t] else []) (taking h) (calling h) (begun h) (called h).
Definition exec_done h l1 l2 : threads :=
  mk_threads (ending h) (pushing h) (l1 ++ l2) (taking h) (calling h) (begun h) (called h).
Definition take_done h l1 l2 (t : positive) (ks : list kind) : threads :=
  mk_threads (ending h) (pushing h) (execing h) (l1 ++ l2) (calling h ++ [(t, ks)]) (begun h) (called h).

Lemma wp_dispatch_push n h t ops l1 l2 : asys_inv n h -> is_Some (socks n !! t) -> pushing h = l1 ++ (t, ops) :: l2 ->
  wp (dispatch_push_lock t ops) n (fun b n' => asys_inv n' (push_done h l1 l2 t b)).
Proof.
  intros H [x Hx] Hp. unfold dispatch_push_lock. wp_bind. apply (wp_get_sock _ x); [done|].
  wp_bind. apply (wp_sock_upd _ _ x); [done|]. apply wp_ret.
  destruct (ai_socks _ _ H t x Hx) as [_ _ _ _ S5 S6 S7 _].
  set (b := (dispatch_queue x =? 0) && negb (ops =? 0)). set (h' := push_done h l1 l2 t b).
  assert (execing_n h' t = execing_n h t + b2n b)%nat as Eex.
  { unfold h', push_done. counts. destruct b; counts; rewrite ?at_same, ?app_nil_r; simpl; lia. }
  assert (forall k, pushing_n h t k = pushing_n h' t k + b2n (has k ops))%nat as Epn.
  { intros k. unfold pushing_n. rewrite Hp, sum_mid. cbn [fst snd]. by rewrite at_same. }
  apply (inv_dispatcher n h t x); try done; try apply (ai_queue _ _ H).
  - unfold h', push_done. destruct h as [he hp hx ht hc hb hd]. cbn in Hp. subst hp. destruct b; elsewhere.
  - cbn [dispatch_queue set_dispatch]. intros [E1 E2]%Z.lor_eq_0_iff. destruct (S5 E1) as [? ?]. split; [done|].
    rewrite Eex. subst b. rewrite E2. rewrite andb_false_r. simpl. change (taking_n h' t) with (taking_n h t). lia.
  - cbn [dispatch_queue set_dispatch]. intros Hnz. rewrite Eex. change (taking_n h' t) with (taking_n h t).
    destruct (decide (dispatch_queue x = 0)) as [E|Hne].
    + destruct (S5 E) as [? ?]. right. split; [done|]. rewrite E in Hnz. rewrite Z.lor_0_l in Hnz. subst b.
      rewrite E. apply Z.eqb_neq in Hnz. rewrite Hnz. simpl. lia.
    + assert (b = false) as -> by (subst b; apply Z.eqb_neq in Hne; by rewrite Hne). simpl. rewrite Nat.add_0_r. by apply S6.
  - intros k. specialize (S7 k). unfold owed in *. cbn [dispatch_queue wait_ops set_dispatch]. rewrite has_lor.
    rewrite Epn in S7. change (begun_n h' t k) with (begun_n h t k). change (called_n h' t k) with (called_n h t k).
    change (calling_n h' t k) with (calling_n h t k). destruct (has k (dispatch_queue x)), (has k ops); simpl in *; lia.
Qed.

Lemma wp_dispatch_exec n h t l1 l2 : asys_inv n h -> is_Some (socks n !! t) -> execing h = l1 ++ t :: l2 ->
  wp (dispatch_exec t) n (fun _ n' => asys_inv n' (exec_done h l1 l2)).
Proof.
  intros H [x Hx] Hp. destruct (ai_socks _ _ H t x Hx) as [_ S2 _ _ S5 S6 S7 _]. set (h' := exec_done h l1 l2).
  assert (execing_n h t = execing_n h' t + 1)%nat as Eex by (unfold execing_n; by rewrite Hp, count_mid, at_same).
  assert (dispatch_queue x <> 0) as Hnz by (intros E; destruct (S5 E); lia).
  destruct (S6 Hnz) as [[_ ?]|[Hnq Hc]]; [lia|].
  apply wp_on_queue. eapply wp_mono; [by apply wq_exec; [apply (ai_queue _ _ H)|..]|]. intros [] q' (Hq & Hv & Hqd).
  assert (socks n = <[t := x]> (socks n)) as E by by rewrite insert_id. rewrite E.
  apply (inv_dispatcher n h t x); try done.
  - intros u. apply Hqd.
  - intros u Hu. rewrite (proj2 (Hqd u)). naive_solver.
  - unfold h', exec_done. destruct h as [he hp hx ht hc hb hd]. cbn in Hp. subst hx. elsewhere.
  - intros _. left. split; [by rewrite (proj2 (Hqd _)); left|]. change (taking_n h' t) with (taking_n h t). lia.
Qed.

Lemma wp_dispatch_take n h t l1 l2 : asys_inv n h -> is_Some (socks n !! t) -> taking h = l1 ++ t :: l2 ->
  wp (dispatch_take t) n (fun ks n' => asys_inv n' (take_done h l1 l2 t ks)).
Proof.
  intros H [x Hx] Hp. unfold dispatch_take. wp_bind. apply (wp_get_sock _ x); [done|].
  wp_bind. apply (wp_sock_upd _ _ x); [done|]. apply wp_ret.
  destruct (ai_socks _ _ H t x Hx) as [_ S2 _ _ S5 S6 S7 _]. set (h' := take_done h l1 l2 t _).
  assert (taking_n h t = taking_n h' t + 1)%nat as Et by (unfold taking_n; by rewrite Hp, count_mid, at_same).
  assert (forall k, calling_n h' t k = calling_n h t k + b2n (has k (dispatch_queue x)))%nat as Ecn.
  { intros k. unfold h', take_done. counts. by rewrite at_same, dispatch_calls_count. }
  assert (dispatch_queue x <> 0) as Hnz by (intros E; destruct (S5 E); lia).
  destruct (S6 Hnz) as [[_ ?]|[Hnq Hc]]; [lia|].
  apply (inv_dispatcher n h t x); try done; try apply (ai_queue _ _ H).
  - unfold h', take_done. destruct h as [he hp hx ht hc hb hd]. cbn in Hp. subst ht. elsewhere.
  - intros _. split; [done|]. change (execing_n h' t) with (execing_n h t). lia.
  - intros k. specialize (S7 k). unfold owed in *. rewrite Ecn. cbn [dispatch_queue wait_ops set_dispatch]. rewrite has_0.
    change (begun_n h' t k) with (begun_n h t k). change (called_n h' t k) with (called_n h t k).
    change (pushing_n h' t k) with (pushing_n h t k). simpl. lia.
Qed.

Lemma inv_callback n h t k ks l1 l2 : asys_inv n h -> is_Some (socks n !! t) -> calling h = l1 ++ (t, k :: ks) :: l2 ->
  asys_inv n (mk_threads (ending h) (pushing h) (execing h) (taking h) (l1 ++ (t, ks) :: l2) (begun h) (called h ++ [(t, k)])).
Proof.
  intros H [x Hx] Hp. destruct (ai_socks _ _ H t x Hx) as [_ S2 _ _ S5 S6 S7 _]. set (h' := mk_threads _ _ _ _ _ _ _).
  assert (forall j, calling_n h t j = calling_n h' t j + b2n (bool_decide (j = k)))%nat as Ecn.
  { intros j. unfold calling_n, h'. cbn [calling]. rewrite Hp, !sum_mid. cbn [fst snd]. rewrite !at_same. simpl.
    destruct (kind_eq_dec k j) as [->|]; [rewrite bool_decide_true by done|rewrite bool_decide_false by congruence]; simpl; lia. }
  assert (forall j, called_n h' t j = called_n h t j + b2n (bool_decide (j = k)))%nat as Edn.
  { intros j. unfold called_n, h'. cbn [called]. by rewrite count_req, at_same. }
  assert (n = mk_net (<[t := x]> (socks n)) (ioq n) (os n)) as E by (rewrite insert_id by done; by destruct n). rewrite E at 1.
  apply (inv_dispatcher n h t x); try done; try apply (ai_queue _ _ H).
  - unfold h'. destruct h as [he hp hx ht hc hb hd]. cbn in Hp. subst hc. elsewhere.
  - intros Hf j. specialize (Hf j). specialize (S7 j). specialize (Ecn j). unfold free, owed in *.
    rewrite Edn. change (begun_n h' t j) with (begun_n h t j). lia.
  - intros j. specialize (S7 j). specialize (Ecn j). unfold owed in *. rewrite Edn. rewrite Ecn in S7.
    change (begun_n h' t j) with (begun_n h t j). change (pushing_n h' t j) with (pushing_n h t j). lia.
Qed.

(** ** The queue and the kernel *)
(** The views change, but for what matters here. *)
Lemma inv_views n h q' : asys_inv n h -> wq_ok q' -> same_tasks (ioq n) q' ->
  (forall f, match view (ioq n) f, view q' f with
    | Some v, Some v' => v_fd v' = v_fd v /\ (v_status v' = Idle <-> v_status v = Idle)
    | None, None => True | _, _ => False end) ->
  asys_inv (mk_net (socks n) q' (os n)) h.
Proof.
  intros [H1 H2 H3 H4 H5 H6] Hq [Htk Hqd] Hv.
  assert (forall t x, held q' t x = held (ioq n) t x) as Hh.
  { intros t x. unfold held. specialize (Hv (wait_fd t)). destruct (view (ioq n) (wait_fd t)), (view q' (wait_fd t)); try done.
    destruct Hv as [E _]. cbn. by rewrite E. }
  split; cbn [socks ioq os]; try done.
  - intros t x Hx. destruct (H2 t x Hx) as [(v & Sv & Sw) S2 S3 S4 S5 S6 S7 S8]. split; cbn [socks ioq os]; try done.
    + specialize (Hv (wait_fd t)). rewrite Sv in Hv. destruct (view q' (wait_fd t)) as [v'|] eqn:Ev; [|done].
      destruct Hv as [Hf Hs]. exists v'. split; [done|]. unfold wait_good in *. cbn [ioq]. by rewrite Hh, Hf, Hs.
    + by apply Htk.
    + by rewrite Hqd.
    + by rewrite Hqd.
  - intros t x d. rewrite Hh. apply H3.
  - intros t u x y d. rewrite !Hh. apply H4.
  - intros g v' Hg Hs. specialize (Hv g). rewrite Hg in Hv. destruct (view (ioq n) g) as [v|] eqn:Ev; [|done].
    apply (H6 g v); [done|]. by rewrite <- (proj2 Hv).
Qed.

Lemma inv_own n h q' : asys_inv n h -> q_own (ioq n) q' -> asys_inv (mk_net (socks n) q' (os n)) h.
Proof.
  intros H Ho. destruct (wq_own _ _ (ai_queue _ _ H) Ho) as (Hq & Ht & Hv). apply inv_views; try done.
  intros f. specialize (Hv f). destruct (view (ioq n) f), (view q' f); try done. by apply moved_good.
Qed.

Definition with_ending h t : threads :=
  mk_threads (ending h ++ [t]) (pushing h) (execing h) (taking h) (calling h) (begun h) (called h).
Definition with_taking h t : threads :=
  mk_threads (ending h) (pushing h) (execing h) (taking h ++ [t]) (calling h) (begun h) (called h).

Lemma inv_call_end n h t q' : asys_inv n h -> is_Some (socks n !! t) -> q_call (wait_fd t) (ioq n) q' ->
  asys_inv (mk_net (socks n) q' (os n)) (with_ending h t).
Proof.
  intros H [x Hx] Hc. destruct (wq_call _ _ _ (ai_queue _ _ H) Hc) as (Hq & Htk & Hv).
  destruct (ai_socks _ _ H t x Hx) as [(v & Sv & Sw1 & Sw2 & Sw3) S2 S3 S4 S5 S6 S7 S8]. rewrite Sv in Hv.
  destruct Hv as (He & [Hon [_ Hqd]] & Hv').
  assert (wait_ops x <> 0) as Hn by (intros E; destruct (Sw2 E); congruence).
  destruct (Sw3 Hn) as [[[? _]|[_ He0]] Hh]; [congruence|].
  assert (held q' t x = held (ioq n) t x) as Hh'.
  { unfold held. rewrite Hv', Sv. done. }
  set (h' := with_ending h t).
  assert (ending_n h' t = 1)%nat as Een by (unfold h', with_ending; counts; rewrite at_same; unfold ending_n in He0; lia).
  assert (mk_net (socks n) q' (os n) = mk_net (<[t := x]> (socks n)) q' (os n)) as -> by by rewrite insert_id.
  eapply inv_update; [exact H|exact Hx|exact Hq|exact Hon|exact Htk|intros; apply Hqd| |..].
  - unfold h', with_ending. elsewhere.
  - intros u y d _ Hy Hd. by eapply (ai_open _ _ H u).
  - intros d. rewrite Hh'. intros Hd. split; [by eapply (ai_open _ _ H t)|]. intros u y Hu Hy. by eapply (ai_held _ _ H t u).
  - done.
  - auto.
  - split; cbn [socks ioq os]; try done.
    + eexists. split; [exact Hv'|]. split; [done|]. split; [done|]. intros _. cbn [v_status v_fd ioq]. rewrite Hh'. split; [by left|done].
    + by apply Htk.
    + by rewrite Hqd.
    + by rewrite Hqd.
    + intros Ha. destruct (S8 Ha) as (C1 & C2 & C3). split_and!; [done| |done]. by rewrite lookup_insert_ne.
Qed.

Lemma inv_call_dispatch n h t q' : asys_inv n h -> is_Some (socks n !! t) -> q_call (dispatch_task t) (ioq n) q' ->
  asys_inv (mk_net (socks n) q' (os n)) (with_taking h t).
Proof.
  intros H [x Hx] Hc. destruct (wq_call _ _ _ (ai_queue _ _ H) Hc) as (Hq & Htk & Hv).
  destruct (ai_socks _ _ H t x Hx) as [_ S2 _ _ S5 S6 S7 _]. rewrite (wq_task _ _ S2) in Hv. destruct Hv as (Hqt & Hsv & Hqd).
  set (h' := with_taking h t).
  assert (taking_n h' t = taking_n h t + 1)%nat as Et by (unfold h', with_taking; counts; by rewrite at_same).
  assert (mk_net (socks n) q' (os n) = mk_net (<[t := x]> (socks n)) q' (os n)) as -> by by rewrite insert_id.
  assert (~ queued q' (dispatch_task t)) as Hnq by (rewrite Hqd; naive_solver).
  apply (inv_dispatcher n h t x); try done.
  - intros u Hu. rewrite Hqd. naive_solver.
  - unfold h', with_taking. elsewhere.
  - intros E. by destruct (S5 E).
  - intros Hnz. right. split; [done|]. destruct (S6 Hnz) as [[_ ?]|[? _]]; [|done].
    change (execing_n h' t) with (execing_n h t). lia.
Qed.

(** ** Every step *)
(** What reads the socket succeeds only when it exists. *)
Lemma sock_exists {A} t (f : asock -> M (net Q O) A) n r : bind (get_sock t) f n = Ok r -> is_Some (socks n !! t).
Proof.
  unfold bind at 1. unfold get_sock, bind, get, need. destruct (socks n !! t); [by eexists|done].
Qed.

Lemma inv_thread_step t n h n' h' : asys_inv n h -> thread_step t (mk_asys n h) (mk_asys n' h') -> asys_inv n' h'.
Proof.
  intros H Hs. inversion Hs; subst.
  - eapply (wp_result _ _ _ _ _ (wp_wait_end n h t l1 l2 H _ ltac:(eassumption))); [eassumption].
    Unshelve. by eapply sock_exists.
  - eapply (wp_result _ _ _ _ _ (wp_dispatch_push n h t ops l1 l2 H _ ltac:(eassumption))); [eassumption].
    Unshelve. by eapply sock_exists.
  - by eapply (wp_result _ _ _ _ _ (wp_dispatch_exec n h t l1 l2 H ltac:(eassumption) ltac:(eassumption))).
  - eapply (wp_result _ _ _ _ _ (wp_dispatch_take n h t l1 l2 H _ ltac:(eassumption))); [eassumption].
    Unshelve. by eapply sock_exists.
  - by eapply inv_callback.
Qed.

Lemma wp_request n h t k m : asys_inv n h -> allowed (mk_asys n h) t k m ->
  wp m n (fun ops n' => asys_inv n' (request_made h t k ops)).
Proof.
  intros H (Hx & Hf & Hr & Hreq). cbn [net_ th] in *.
  destruct Hreq as [data len func|data len func|c func Hct Hc Hfc Hrc|sa len func e Hfa]; cbn [net_ th] in *.
  - by apply wp_send.
  - by apply wp_recv.
  - by apply wp_accept.
  - by apply wp_connect.
Qed.

Lemma inv_astep n h n' h' : asys_inv n h -> astep (mk_asys n h) (mk_asys n' h') -> asys_inv n' h'.
Proof.
  intros H Hs. inversion Hs; subst.
  - by eapply inv_thread_step.
  - by apply inv_own.
  - destruct H as [I1 I2 I3 I4 I5 I6]. split; cbn [socks ioq os]; try done.
    intros t x Hx. by destruct (I2 t x Hx).
  - by apply inv_call_end.
  - by apply inv_call_dispatch.
  - by eapply (wp_result _ _ _ _ _ (wp_request n h t k m H ltac:(eassumption))).
  - by eapply (wp_result _ _ _ _ _ (wp_listen n h' t sa len H ltac:(eassumption) ltac:(eassumption) ltac:(eassumption))).
  - by eapply (wp_result _ _ _ _ _ (wp_sock_close n h' t H ltac:(eassumption))).
Qed.

Lemma inv_fresh n : fresh_net n -> asys_inv n (mk_threads [] [] [] [] [] [] []).
Proof.
  intros (Hq & Hs & Hi).
  assert (forall t x, socks n !! t = Some x -> x = new_sock) as Hn by (intros t x Hx; by apply Hs in Hx as [? _]).
  assert (forall q t, held q t new_sock = None) as Hh by done.
  split.
  - done.
  - intros t x Hx. destruct (Hs t x Hx) as (-> & Ht & Hnq & v & Hv).
    split; try done; [|apply ops_ok_0|intros k; destruct k; vm_compute; lia].
    exists v. split; [done|]. split; [done|]. split; [|done]. intros _. split; [by eapply Hi|done].
  - intros t x d Hx. rewrite (Hn t x Hx). by rewrite Hh.
  - intros t u x y d _ Hx _. rewrite (Hn t x Hx). by rewrite Hh.
  - intros t u x y _ Hx _. rewrite (Hn t x Hx). done.
  - intros g v Hv Hne. by apply Hi in Hv.
Qed.

Lemma inv_areach s : areach s -> asys_inv (net_ s) (th s).
Proof.
  induction 1 as [n Hn|s s' _ IH Hs]; [by apply inv_fresh|]. destruct s, s'. by eapply inv_astep.
Qed.
End reach.
