(* ===== verification/AsockMain.v ===== *)
(** Correctness of src/io/asock_posix.c: every request is answered by one
    callback, and descriptors are neither leaked nor closed twice. *)
From S2P Require Import Prelude Lists Rbt Runq Waitq Ioq IoqInv IoqReach IoqMain Wait IoqWait.
From S2P Require Import Asock AsockSys AsockOps AsockStep AsockReach.

(** * Properties *)
Section properties.
Context {Q O : Type} `{!WaitQueue Q, !WaitQueueLaws Q} `{!Sockets O, !SocketsLaws O}.

(** Something is about to happen at [t]: the wait in progress will end, the run
    queue has the task, or one of the library's threads can go on. *)
Definition underway (s : asys Q O) (t : positive) : Prop :=
  (exists v, view (ioq (net_ s)) (wait_fd t) = Some v /\ v_status v <> Idle) \/
  queued (ioq (net_ s)) (dispatch_task t) \/
  exists s', thread_step t s s'.

Lemma count_pos_split l t : (0 < count_occ Pos.eq_dec l t)%nat -> exists l1 l2, l = l1 ++ t :: l2.
Proof. intros H%count_occ_In. by apply in_split. Qed.

Lemma at_pos t n u : (0 < at_ t n u)%nat -> u = t /\ (0 < n)%nat.
Proof. unfold at_. destruct (decide (u = t)); [done|lia]. Qed.

(** What is owed is under way. *)
Lemma owed_underway n h t x k : asys_inv n h -> socks n !! t = Some x -> (0 < owed n h t x k)%nat ->
  underway (mk_asys n h) t.
Proof.
  intros H Hx Ho. assert (is_Some (socks n !! t)) as Hs by eauto. unfold underway. cbn [net_].
  destruct (ai_socks _ _ H t x Hx) as [(v & Sv & Sw1 & Sw2 & Sw3) S2 S3 S4 S5 S6 S7 S8].
  unfold owed in Ho. destruct (has k (wait_ops x)) eqn:Ew; [|destruct (has k (dispatch_queue x)) eqn:Ed].
  - destruct (Sw3 (has_nonzero _ _ Ew)) as [[[_ He]|[Hi _]] _]; [|left; eauto].
    right. right. destruct (count_pos_split (ending h) t) as (l1 & l2 & El); [unfold ending_n in He; lia|].
    destruct (ends_wp _ _ _ (wp_wait_end n h t l1 l2 H Hs El)) as (n' & ops & E).
    eexists. by eapply do_end.
  - right. destruct (S6 (has_nonzero _ _ Ed)) as [[? _]|[_ Hc]]; [by left|right].
    destruct (decide (0 < execing_n h t)%nat) as [Hp|Hp].
    + destruct (count_pos_split _ _ Hp) as (l1 & l2 & El).
      destruct (ends_wp _ _ _ (wp_dispatch_exec n h t l1 l2 H Hs El)) as (n' & [] & E). eexists. by eapply do_exec.
    + destruct (count_pos_split (taking h) t) as (l1 & l2 & El); [unfold taking_n in Hc; lia|].
      destruct (ends_wp _ _ _ (wp_dispatch_take n h t l1 l2 H Hs El)) as (n' & ks & E). eexists. by eapply do_take.
  - right. right. simpl in Ho. destruct (decide (0 < pushing_n h t k)%nat) as [Hp|Hp].
    + destruct (sum_pos_split _ _ Hp) as (l1 & [u ops] & l2 & El & [Eu _]%at_pos). cbn in Eu. subst u.
      destruct (ends_wp _ _ _ (wp_dispatch_push n h t ops l1 l2 H Hs El)) as (n' & b & E). eexists. by eapply do_push.
    + destruct (sum_pos_split (fun p => at_ t (count_occ kind_eq_dec p.2 k) p.1) (calling h)) as (l1 & [u ks] & l2 & El & [Eu Hc]%at_pos).
      { unfold calling_n in Ho. lia. }
      cbn in Eu, Hc. subst u. destruct ks as [|j ks]; [simpl in Hc; lia|]. eexists. by eapply do_call.
Qed.

(** C39. Whatever the order in which clients make requests, listen and close, the
    queue ends waits and runs tasks, and the library's threads go on: a request is
    answered by exactly one callback, and while it is not, the wait of its socket
    is in progress, its task is in the run queue, or a thread of the library can
    take its next step. *)
Theorem asock_completes (s : asys Q O) : areach s -> forall t k, is_Some (socks (net_ s) !! t) ->
  free (th s) t k \/
  begun_n (th s) t k = Datatypes.S (called_n (th s) t k) /\ underway s t.
Proof.
  intros H%inv_areach t k [x Hx]. destruct s as [n h]. cbn [net_ th] in *.
  destruct (so_count _ _ _ _ (ai_socks _ _ H t x Hx) k) as [Hc Hle]. unfold free.
  destruct (decide (owed n h t x k = 0%nat)) as [E|Hn]; [left; lia|right]. split; [lia|].
  apply (owed_underway n h t x k H Hx). lia.
Qed.

(** Cancelled: what the requests in progress find.  Each has the error of the wait,
    which is 0 after a cancel ([cancelled_connect]). *)
Definition reported (ops e : Z) (x' : asock) : Prop :=
  (has CA ops = true -> asock_get_error x' = e) /\
  (has SEND ops = true -> asock_get_send_size x' = 0 /\ asock_get_send_error x' = e) /\
  (has RECV ops = true -> asock_get_recv_size x' = 0 /\ asock_get_recv_error x' = e).

(** Those that send and receive: nothing. *)
Definition moved_nothing (ops : Z) (x' : asock) : Prop :=
  (has SEND ops = true -> asock_get_send_size x' = 0) /\ (has RECV ops = true -> asock_get_recv_size x' = 0).

Lemma cancelled_outcome n h t x l1 l2 : asys_inv n h -> socks n !! t = Some x -> cancelled x = true ->
  ending h = l1 ++ t :: l2 ->
  exists v, view (ioq n) (wait_fd t) = Some v /\ v_fd v ∈ opened (os n) /\
    wp (wait_end t) n (fun ops n' => ops = wait_ops x /\ opened (os n') = opened (os n) ∖ {[v_fd v]} /\
      exists x', socks n' !! t = Some x' /\ wait_ops x' = 0 /\ reported ops (v_err v) x').
Proof.
  intros H Hx Hc He. destruct (sock_view n h t x H Hx) as (v & Hv & Sw1 & Sw2 & Sw3).
  assert (wait_ops x <> 0) as Hn by (intros E; unfold cancelled in Hc; by rewrite E in Hc).
  destruct (Sw3 Hn) as [_ Hh]. exists v. split; [done|]. split; [by eapply (ai_open _ _ H t)|].
  assert (forall n1 x1 (P : unit -> net Q O -> Prop) (b : bool) (u : asock -> asock), socks n1 !! t = Some x1 ->
    P tt (mk_net (<[t := if b then u x1 else x1]> (socks n1)) (ioq n1) (os n1)) -> wp (when b (upd t u)) n1 P) as Hwhen.
  { intros n1 x1 P b u Hx1 HP. destruct b; [by apply (wp_sock_upd _ _ x1)|]. apply wp_ret.
    rewrite insert_id in HP by done. by destruct n1. }
  unfold wait_end. wp_bind. apply (wp_get_sock _ x); [done|]. wp_bind. apply (wp_sock_fd _ v); [done|].
  unfold cancelled in Hc. rewrite Hc. cbn [orb]. set (e := v_err v).
  wp_bind. apply (Hwhen _ x); [done|]. wp_bind. eapply Hwhen; [cbn [socks]; by rewrite lookup_insert_eq|].
  wp_bind. eapply Hwhen; [cbn [socks]; by rewrite lookup_insert_eq|]. cbn [socks ioq os when].
  wp_bind. apply wp_close; [by eapply (ai_open _ _ H t)|].
  wp_bind. eapply wp_sock_upd; [cbn [socks]; by rewrite lookup_insert_eq|]. apply wp_ret. cbn [socks ioq os].
  split; [done|]. split; [apply close_closes|]. eexists. split; [by rewrite lookup_insert_eq|].
  split; [done|]. unfold reported, has, asock_get_error, asock_get_send_size, asock_get_send_error,
    asock_get_recv_size, asock_get_recv_error. cbn [kind_ops].
  split_and!; intros ->; repeat match goal with |- context [truth ?a] => destruct (truth a) end; done.
Qed.

(** C40. Whatever the interleaving: a socket's descriptor is open and no other
    socket's, so none is leaked or closed twice; no call that a client may make
    goes wrong, in particular none closes a descriptor that is not open or begins a
    second wait.  A wait that ends after [asock_close] closes the descriptor, and
    every send and receive in progress then reports the size 0.  What a connect or an
    accept reports then is not claimed ([cancelled_outcome], [cancelled_connect]). *)
Theorem asock_descriptors (s : asys Q O) : areach s ->
  (forall t x d, socks (net_ s) !! t = Some x -> held (ioq (net_ s)) t x = Some d -> d ∈ opened (os (net_ s)) /\
     forall u y, u <> t -> socks (net_ s) !! u = Some y -> held (ioq (net_ s)) u y <> Some d) /\
  (forall t k m, allowed s t k m -> ends m (net_ s)) /\
  (forall t, is_Some (socks (net_ s) !! t) -> ~ reserved (net_ s) t ->
     ends (asock_close t) (net_ s) /\
     ((forall k, free (th s) t k) -> ends (asock_destroy t) (net_ s) /\ forall sa len, ends (asock_listen t sa len) (net_ s))) /\
  (forall t x l1 l2, socks (net_ s) !! t = Some x -> cancelled x = true -> ending (th s) = l1 ++ t :: l2 ->
     exists v, view (ioq (net_ s)) (wait_fd t) = Some v /\ v_fd v ∈ opened (os (net_ s)) /\
       wp (wait_end t) (net_ s) (fun ops n' => ops = wait_ops x /\
         opened (os n') = opened (os (net_ s)) ∖ {[v_fd v]} /\
         exists x', socks n' !! t = Some x' /\ wait_ops x' = 0 /\ moved_nothing ops x')).
Proof.
  intros H%inv_areach. destruct s as [n h]. cbn [net_ th] in *. split_and!.
  - intros t x d Hx Hd. split; [by eapply (ai_open _ _ H t)|]. intros u y Hu Hy. by eapply (ai_held _ _ H t u).
  - intros t k m Ha. eapply ends_wp. by eapply wp_request.
  - intros t Hx Hr. split; [eapply ends_wp; by eapply wp_sock_close|]. intros Hf. split.
    + destruct Hx as [x Hx]. apply (ends_wp _ _ (fun _ _ => True)). unfold asock_destroy.
      wp_bind. apply (wp_get_sock _ x); [done|]. destruct (Z.leb_spec 0 (sock x)) as [Hs|]; [|done].
      apply wp_close; [|done]. apply (ai_open _ _ H t x); [done|]. unfold held. by rewrite (proj2 (Z.leb_le _ _) Hs).
    + intros sa len. eapply ends_wp. by eapply wp_listen.
  - intros t x l1 l2 Hx Hc He. destruct (cancelled_outcome n h t x l1 l2 H Hx Hc He) as (v & Hv & Ho & Hw). exists v.
    split; [done|]. split; [done|]. eapply wp_mono; [exact Hw|].
    intros ops n' (E1 & E2 & x' & Hx' & E3 & _ & Hs & Hr). split; [done|]. split; [done|]. exists x'. split; [done|]. split; [done|].
    split; intros Hk; [by apply Hs|by apply Hr].
Qed.
End properties.

(** * A system, for examples

    Descriptors are given out in order; connecting takes time, or not. *)
Record ex_os := mk_os {
  open_fds : gset Z;
  next_fd : Z;
  at_once : bool;
}.

Definition ex_open (o : ex_os) : ex_os * (Z * Z) :=
  if (next_fd o <? 0) || bool_decide (next_fd o ∈ open_fds o) then (o, (-1, 24))
  else (mk_os ({[next_fd o]} ∪ open_fds o) (next_fd o + 1) (at_once o), (next_fd o, 0)).

#[export] Instance ex_sockets : Sockets ex_os := {
  opened := open_fds;
  sys_socket := ex_open;
  sys_setsockopt _ o := (o, (0, 0));
  sys_bind _ _ _ o := (o, (0, 0));
  sys_listen _ o := (o, (0, 0));
  sys_connect _ _ _ o := (o, if at_once o then (0, 0) else (-1, EINPROGRESS));
  sys_accept _ o := ex_open o;
  sys_send _ _ n o := (o, (n, 0));
  sys_recv _ _ _ o := (o, (0, 0));
  sys_close d o := mk_os (open_fds o ∖ {[d]}) (next_fd o) (at_once o);
}.

Lemma ex_open_opens o o' r e : ex_open o = (o', (r, e)) -> opens o o' r.
Proof.
  unfold ex_open, opens. destruct (Z.ltb_spec (next_fd o) 0); simpl; [by intros [= <- <- <-]|].
  case_bool_decide; intros [= <- <- <-]; [done|]. by rewrite (proj2 (Z.ltb_ge _ _)).
Qed.

#[export] Instance ex_sockets_laws : SocketsLaws ex_os.
Proof. split; try done; [apply ex_open_opens|intros d; apply ex_open_opens]. Qed.

(** One socket, 1, with the [ioq_fd] 2 and the task 3. *)
Definition ex_net (at_once : bool) : net (sys ekern) ex_os :=
  mk_net {[ 1%positive := new_sock ]} ex_qsys (mk_os ∅ 3 at_once).

Lemma ex_one_sock b t x : socks (ex_net b) !! t = Some x -> t = 1%positive /\ x = new_sock.
Proof. unfold ex_net. cbn [socks]. by intros [<- <-]%lookup_singleton_Some. Qed.

Lemma ex_net_fresh b : fresh_net (ex_net b).
Proof.
  split; [apply (inv_reach_io ex_qsys); by constructor; apply ex_queue_fresh|]. split.
  - intros t x [-> ->]%ex_one_sock. split; [done|]. split; [split; [done|by vm_compute; eauto]|]. split.
    + intros [_ (J & HJ & Hin)]. assert (J = []) as ->; [|by apply elem_of_nil in Hin].
      eapply SList.slist_det; [exact HJ|]. split; [constructor|]. by vm_compute.
    + eexists. by vm_compute.
  - intros g v. simpl. unfold io_view. destruct (fds (ioq_ ex_qsys) !! g) as [x|] eqn:E; [|done].
    intros [= <-]. unfold fd_progress. by rewrite decide_False by set_solver.
Qed.

Definition ex_connect : M (net (sys ekern) ex_os) Z := asock_connect 1 0 16 9 2.
Definition no_threads : threads := mk_threads [] [] [] [] [] [] [].
Definition after_connect : net (sys ekern) ex_os :=
  match ex_connect (ex_net false) with Ok (n, _) => n | _ => ex_net false end.
Definition ex_connecting : asys (sys ekern) ex_os :=
  mk_asys after_connect (mk_threads [] ([] ++ push 1 0) [] [] [] ([] ++ [(1%positive, CA)]) []).

Lemma ex_allowed b : allowed (mk_asys (ex_net b) no_threads) 1 CA ex_connect.
Proof.
  split; [by vm_compute; eauto|]. split; [done|]. split; [|by constructor].
  by intros (t & x & [-> ->]%ex_one_sock & Ha & _).
Qed.

Lemma ex_connecting_reach : areach ex_connecting.
Proof.
  eapply a_next; [apply (a_start (ex_net false)), ex_net_fresh|].
  apply (a_request (ex_net false) no_threads 1 CA ex_connect after_connect 0); [apply ex_allowed|by vm_compute].
Qed.

Lemma asock_completes_witness :
  areach ex_connecting /\ begun_n (th ex_connecting) 1 CA = 1%nat /\ underway ex_connecting 1.
Proof.
  split; [exact ex_connecting_reach|]. split; [done|].
  destruct (asock_completes ex_connecting ex_connecting_reach 1 CA) as [Hf|[_ Hu]];
    [by vm_compute; eauto|by vm_compute in Hf|exact Hu].
Defined.

Lemma asock_descriptors_witness :
  (3 ∈ opened (os after_connect)) /\ ends (asock_close 1) after_connect.
Proof.
  destruct (asock_descriptors ex_connecting ex_connecting_reach) as (H1 & _ & H3 & _). split.
  - eapply (H1 1%positive); [by vm_compute|by vm_compute].
  - assert (map_Forall (fun _ y => accepts y = false) (socks after_connect)) as Hn
      by (apply (bool_decide_unpack _); by vm_compute).
    apply (H3 1%positive); [by vm_compute; eauto|]. intros (t & x & Ht & Ha & _). by rewrite (Hn t x Ht) in Ha.
Defined.

(** ** Runs *)
Definition error_of (r : res (net (sys ekern) ex_os * Z)) : option (Z * Z) :=
  match r with
  | Ok (n, ops) => (fun x => (ops, asock_get_error x)) <$> socks n !! 1%positive
  | _ => None
  end.

(** A connect that succeeds at once is reported to have failed with the error that
    an earlier call left in [errno]. *)
Example connect_at_once : error_of (ex_connect (ex_net true)) = Some (OP_CONNECT, 2).
Proof. by vm_compute. Qed.

(** A connect that is cancelled is reported with no error, as one that
    succeeded. *)
Example cancelled_connect : error_of ((ex_connect;; asock_close 1;; wait_end 1) (ex_net false)) =
  Some (Z.lor OP_CONNECT OP_CANCEL, 0).
Proof. by vm_compute. Qed.
