(* ===== verification/Afile.v ===== *)
(** Model of src/io/afile.h and src/io/afile_posix.c: reads and writes of a file
    that complete by callback.

    One file, which is at the address of its [ioq_fd], on a queue that keeps the
    contract of [Wait].  read(2) and write(2) belong to the operating system: they
    are a class.  The lock makes each critical section one operation; the callback
    of the queue is [end_wait], then [cb_read] and [cb_write]. *)
From S2P Require Import Prelude Ioq Wait.

Definition F_WANT_READ : Z := 1.
Definition F_WANT_WRITE : Z := 2.
Definition F_WANT_CANCEL : Z := 4.

(** The system calls: a size, or a negative number and an error. *)
Class Files (O : Type) := {
  sys_read : Z -> Z -> Z -> O -> O * (Z * Z);
  sys_write : Z -> Z -> Z -> O -> O * (Z * Z);
}.

Record afile_op := mk_op {
  func : Z;
  buffer : Z;
  size : Z;
  error : Z;
}.
Record afile := mk_afile {
  read : afile_op;
  write : afile_op;
  flags : Z;
}.

Definition set_read v x := mk_afile v (write x) (flags x).
Definition set_write v x := mk_afile (read x) v (flags x).
Definition set_flags v x := mk_afile (read x) (write x) v.
Definition outcome (n e : Z) (p : afile_op) : afile_op := mk_op (func p) (buffer p) n e.

(** The function given to the queue. *)
Definition IOQ_CB : Z := 1.

Inductive dir := RD | WR.
#[export] Instance dir_eq_dec : EqDecision dir.
Proof. solve_decision. Defined.

Section afile.
Context {Q O : Type} `{!WaitQueue Q} `{!Files O}.
(** The address of the file. *)
Context (a : positive).

Record st := mk_st {
  file : afile;
  ioq : Q;
  os : O;
}.

Definition get_file : M st afile := s ← get; ret (file s).
Definition upd (u : afile -> afile) : M st unit := modify (fun s => mk_st (u (file s)) (ioq s) (os s)).
Definition on_queue (m : M Q unit) : M st unit := fun s =>
  match m (ioq s) with
  | Ok (q, tt) => Ok (mk_st (file s) q (os s), tt)
  | Crash => Crash
  | NoFuel => NoFuel
  end.
Definition syscall (c : O -> O * (Z * Z)) : M st (Z * Z) :=
  s ← get; let '(o, r) := c (os s) in put (mk_st (file s) (ioq s) o);; ret r.
Definition get_fd : M st fd_view := s ← get; need (view (ioq s) a).

(** ** The callback *)

(** [if (a->flags & want) ...]: the actions to perform and the events to wait for,
    so far. *)
Definition choose (want : Z) (events event : Z) (acc : Z * Z) : M st (Z * Z) :=
  let '(perform, mask) := acc in
  x ← get_file;
  v ← get_fd;
  if truth (Z.land (flags x) want) then
    if truth (Z.land (v_ready v) events)
    then upd (set_flags (Z.land (flags x) (Z.lnot want)));; ret (Z.lor perform want, mask)
    else ret (perform, Z.lor mask event)
  else ret (perform, mask).

(** The actions to perform, and the error. *)
Definition end_wait : M st (Z * Z) :=
  x ← get_file;
  v ← get_fd;
  if truth (v_err v) then
    upd (set_flags 0);; ret (Z.lor (flags x) F_WANT_CANCEL, v_err v)
  else if truth (Z.land (flags x) F_WANT_CANCEL) then
    upd (set_flags 0);; ret (Z.lor (flags x) F_WANT_CANCEL, 0)
  else
    acc ← choose F_WANT_WRITE (Z.lor IOQ_EVENT_OUT (Z.lor IOQ_EVENT_ERR IOQ_EVENT_HUP)) IOQ_EVENT_OUT (0, 0);
    '(perform, mask) ← choose F_WANT_READ (Z.lor IOQ_EVENT_IN (Z.lor IOQ_EVENT_ERR IOQ_EVENT_HUP)) IOQ_EVENT_IN acc;
    when (truth mask) (on_queue (q_wait a mask IOQ_CB));;
    ret (perform, 0).

(** What [ioq_cb] does before [a->read.func(a)], and before [a->write.func(a)]. *)
Definition cb_read (perform err : Z) : M st unit :=
  x ← get_file;
  if truth (Z.land perform F_WANT_CANCEL) then upd (set_read (outcome 0 err (read x)))
  else
    v ← get_fd;
    '(r, e) ← syscall (sys_read (v_fd v) (buffer (read x)) (size (read x)));
    if r <? 0 then upd (set_read (outcome 0 e (read x))) else upd (set_read (outcome r 0 (read x))).

Definition cb_write (perform err : Z) : M st unit :=
  x ← get_file;
  if truth (Z.land perform F_WANT_CANCEL) then upd (set_write (outcome 0 err (write x)))
  else
    v ← get_fd;
    '(r, e) ← syscall (sys_write (v_fd v) (buffer (write x)) (size (write x)));
    if r <? 0 then upd (set_read (outcome 0 e (read x))) else upd (set_read (outcome r 0 (read x))).

(** ** The client's side *)
Definition new_file : afile := mk_afile (mk_op 0 0 0 0) (mk_op 0 0 0 0) 0.
Definition afile_init (h : Z) : M st unit :=
  on_queue (q_init a h);; modify (fun s => mk_st new_file (ioq s) (os s)).

(** [if (a->flags) ioq_fd_rewait(...) else ioq_fd_wait(...); a->flags |= want;] *)
Definition begin_op (event want : Z) : M st unit :=
  x ← get_file;
  (if truth (flags x) then on_queue (q_rewait a (Z.lor IOQ_EVENT_IN IOQ_EVENT_OUT))
   else on_queue (q_wait a event IOQ_CB));;
  upd (set_flags (Z.lor (flags x) want)).

Definition afile_write (data len fn : Z) : M st unit :=
  x ← get_file;
  upd (set_write (mk_op fn data len (error (write x))));;
  begin_op IOQ_EVENT_OUT F_WANT_WRITE.

Definition afile_read (data len fn : Z) : M st unit :=
  x ← get_file;
  upd (set_read (mk_op fn data len (error (read x))));;
  begin_op IOQ_EVENT_IN F_WANT_READ.

Definition afile_cancel : M st unit :=
  x ← get_file;
  on_queue (q_cancel a);;
  upd (set_flags (Z.lor (flags x) F_WANT_CANCEL)).

Definition afile_set_handle (h : Z) : M st unit := on_queue (q_set_fd a h).
Definition afile_get_handle : M st Z := v ← get_fd; ret (v_fd v).
Definition afile_write_size (x : afile) : Z := size (write x).
Definition afile_write_error (x : afile) : Z := error (write x).
Definition afile_read_size (x : afile) : Z := size (read x).
Definition afile_read_error (x : afile) : Z := error (read x).
End afile.
Arguments st Q O : clear implicits.
