(* ===== verification/AfileInv.v ===== *)
(** The threads of src/io/afile_posix.c, and the invariant of a file that each of
    its critical sections keeps. *)
From S2P Require Import Prelude Lists Rbt Runq Waitq Ioq IoqInv IoqReach IoqMain Wait IoqWait Afile.

(** * The file among its threads

    Callbacks of the queue that have not entered [end_wait], then what they have
    left to perform and the error; the history. *)
Record threads := mk_threads {
  ending : nat;
  hand : list (Z * Z);
  begun : list dir;
  called : list dir;
}.

Definition want (k : dir) : Z := match k with RD => F_WANT_READ | WR => F_WANT_WRITE end.
Definition has (k : dir) (fl : Z) : bool := truth (Z.land fl (want k)).
Definition begun_n (h : threads) (k : dir) : nat := count_occ dir_eq_dec (begun h) k.
Definition called_n (h : threads) (k : dir) : nat := count_occ dir_eq_dec (called h) k.
Definition hand_n (h : threads) (k : dir) : nat := sum_list_with (fun p => b2n (has k p.1)) (hand h).
(** No operation of kind [k] is outstanding. *)
Definition free (h : threads) (k : dir) : Prop := begun_n h k = called_n h k.

Section system.
Context {Q O : Type} `{!WaitQueue Q, !WaitQueueLaws Q} `{!Files O}.
Context (a : positive).

Record fsys := mk_fsys {
  st_ : st Q O;
  th : threads;
}.

Inductive operation : dir -> M (st Q O) unit -> Prop :=
  | op_read data len fn : operation RD (afile_read a data len fn)
  | op_write data len fn : operation WR (afile_write a data len fn).

(** A callback of the queue: its critical section, then the read, then the
    write. *)
Inductive thread_step : fsys -> fsys -> Prop :=
  | do_end s h n s' p : ending h = Datatypes.S n -> end_wait a s = Ok (s', p) ->
      thread_step (mk_fsys s h) (mk_fsys s' (mk_threads n (hand h ++ [p]) (begun h) (called h)))
  | do_read s h s' p e l1 l2 : hand h = l1 ++ (p, e) :: l2 -> has RD p = true -> cb_read a p e s = Ok (s', tt) ->
      thread_step (mk_fsys s h) (mk_fsys s'
        (mk_threads (ending h) (l1 ++ (Z.land p (Z.lnot F_WANT_READ), e) :: l2) (begun h) (called h ++ [RD])))
  | do_write s h s' p e l1 l2 : hand h = l1 ++ (p, e) :: l2 -> has RD p = false -> has WR p = true ->
      cb_write a p e s = Ok (s', tt) ->
      thread_step (mk_fsys s h) (mk_fsys s'
        (mk_threads (ending h) (l1 ++ (Z.land p (Z.lnot F_WANT_WRITE), e) :: l2) (begun h) (called h ++ [WR]))).

(** The client begins operations, one of each kind at a time, and cancels while
    the file has some to wait for; the queue goes on, and its other users, who
    leave this [ioq_fd] alone and do not wait for its descriptor. *)
Inductive fstep : fsys -> fsys -> Prop :=
  | f_thread s s' : thread_step s s' -> fstep s s'
  | f_begin s h k m s' : free h k -> operation k m -> m s = Ok (s', tt) ->
      fstep (mk_fsys s h) (mk_fsys s' (mk_threads (ending h) (hand h) (begun h ++ [k]) (called h)))
  | f_cancel s h s' : flags (file s) <> 0 -> afile_cancel a s = Ok (s', tt) -> fstep (mk_fsys s h) (mk_fsys s' h)
  | f_set_handle s h s' d : (forall k, free h k) -> sole (ioq s) a d -> afile_set_handle a d s = Ok (s', tt) ->
      fstep (mk_fsys s h) (mk_fsys s' h)
  | f_queue s h q : q_own (ioq s) q -> fstep (mk_fsys s h) (mk_fsys (mk_st (file s) q (os s)) h)
  | f_call s h q : q_call a (ioq s) q ->
      fstep (mk_fsys s h) (mk_fsys (mk_st (file s) q (os s)) (mk_threads (Datatypes.S (ending h)) (hand h) (begun h) (called h)))
  | f_others s h q o : wq_ok q -> view q a = view (ioq s) a ->
      (forall v, view q a = Some v -> sole q a (v_fd v)) ->
      fstep (mk_fsys s h) (mk_fsys (mk_st (file s) q o) h).

Definition fresh_file (s : st Q O) : Prop :=
  wq_ok (ioq s) /\ file s = new_file /\ exists v, view (ioq s) a = Some v /\ v_status v = Idle /\ sole (ioq s) a (v_fd v).

Inductive freach : fsys -> Prop :=
  | f_start s : fresh_file s -> freach (mk_fsys s (mk_threads 0 [] [] []))
  | f_next s s' : freach s -> fstep s s' -> freach s'.

(** * The invariant *)
Definition owed (x : afile) (h : threads) (k : dir) : nat := (b2n (has k (flags x)) + hand_n h k)%nat.

(** [flags] has no bits but the three, and no cancellation alone. *)
Record flags_ok (fl : Z) : Prop := {
  fl_known i : 3 <= i -> Z.testbit fl i = false;
  fl_cancel : Z.testbit fl 2 = true -> Z.testbit fl 0 || Z.testbit fl 1 = true;
}.

Record file_inv (s : st Q O) (h : threads) (v : fd_view) : Prop := {
  fi_queue : wq_ok (ioq s);
  fi_view : view (ioq s) a = Some v;
  fi_sole : sole (ioq s) a (v_fd v);
  fi_flags : flags_ok (flags (file s));
  fi_idle : flags (file s) = 0 -> v_status v = Idle /\ ending h = 0%nat;
  fi_busy : flags (file s) <> 0 ->
    v_status v = Idle /\ ending h = 1%nat \/ v_status v <> Idle /\ ending h = 0%nat;
  fi_count k : begun_n h k = (called_n h k + owed (file s) h k)%nat /\ (owed (file s) h k <= 1)%nat;
}.
End system.
Arguments fsys Q O : clear implicits.

(** ** Flags *)
Lemma has_RD fl : has RD fl = Z.testbit fl 0.
Proof. by apply (truth_land_bit _ 0). Qed.
Lemma has_WR fl : has WR fl = Z.testbit fl 1.
Proof. by apply (truth_land_bit _ 1). Qed.
Lemma cancel_flag fl : truth (Z.land fl F_WANT_CANCEL) = Z.testbit fl 2.
Proof. by apply (truth_land_bit _ 2). Qed.

Lemma lor_has k x y : has k (Z.lor x y) = has k x || has k y.
Proof. unfold has. by rewrite Z.land_lor_distr_l, truth_lor. Qed.
Lemma has_want k j : has k (want j) = bool_decide (k = j).
Proof. by destruct k, j. Qed.
Lemma ldiff_has k j x : has k (Z.land x (Z.lnot (want j))) = has k x && negb (bool_decide (k = j)).
Proof.
  destruct k; rewrite ?has_RD, ?has_WR, Z.land_spec, Z.lnot_spec by done; by destruct j; rewrite ?andb_true_r, ?andb_false_r.
Qed.

Lemma flags_ok_0 : flags_ok 0.
Proof. split; intros; by rewrite ?Z.bits_0 in *. Qed.
Lemma flags_ok_want fl k : flags_ok fl -> flags_ok (Z.lor fl (want k)).
Proof.
  intros [H1 H2]. split.
  - intros i Hi. rewrite Z.lor_spec, H1 by done. destruct k; [apply (Z.pow2_bits_false 0)|apply (Z.pow2_bits_false 1)]; lia.
  - rewrite !Z.lor_spec. destruct (Z.testbit fl 0), (Z.testbit fl 1); by destruct k.
Qed.
Lemma flags_ok_cancel fl : flags_ok fl -> fl <> 0 -> flags_ok (Z.lor fl F_WANT_CANCEL).
Proof.
  intros [H1 H2] Hn. split.
  - intros i Hi. rewrite Z.lor_spec, H1 by done. apply (Z.pow2_bits_false 2). lia.
  - intros _. rewrite !Z.lor_spec, !orb_false_r. destruct (Z.testbit fl 0) eqn:E0, (Z.testbit fl 1) eqn:E1; try done.
    destruct (Z.testbit fl 2) eqn:E2; [by apply H2|]. destruct Hn. apply Z.bits_inj'. intros i Hi. rewrite Z.bits_0.
    destruct (decide (3 <= i)); [by apply H1|]. assert (i = 0 \/ i = 1 \/ i = 2) as [->|[->| ->]] by lia; done.
Qed.
Lemma flags_ok_done fl k : flags_ok fl -> Z.testbit fl 2 = false -> flags_ok (Z.land fl (Z.lnot (want k))).
Proof.
  intros [H1 H2] H3. split.
  - intros i Hi. by rewrite Z.land_spec, H1.
  - by rewrite Z.land_spec, H3.
Qed.
Lemma flags_has fl : flags_ok fl -> fl <> 0 -> exists k, has k fl = true.
Proof.
  intros Hok Hn. destruct (flags_ok_cancel fl Hok Hn) as [_ Hc]. rewrite !Z.lor_spec, !orb_false_r in Hc.
  specialize (Hc (orb_true_r _)). apply orb_true_iff in Hc as [E|E]; [exists RD|exists WR]; by rewrite ?has_RD, ?has_WR.
Qed.
Lemma has_some k fl : has k fl = true -> fl <> 0.
Proof. intros H ->. by destruct k. Qed.

Section proofs.
Context {Q O : Type} `{!WaitQueue Q, !WaitQueueLaws Q} `{!Files O}.
Context (a : positive).
Implicit Types (s : st Q O) (h : threads) (o : O).

(** ** Reading and writing *)
Lemma wp_file s P : P (file s) s -> wp (get_file (Q := Q) (O := O)) s P.
Proof. intros HP. unfold get_file. wp_bind. by apply wp_get, wp_ret. Qed.
Lemma wp_file_upd u s P : P tt (mk_st (u (file s)) (ioq s) (os s)) -> wp (upd (Q := Q) (O := O) u) s P.
Proof. intros HP. by apply wp_modify. Qed.
Lemma wp_file_fd v s P : view (ioq s) a = Some v -> P v s -> wp (get_fd a) s P.
Proof. intros Hv HP. unfold get_fd. wp_bind. apply wp_get. by apply (wp_need _ v). Qed.
Lemma wp_file_queue (m : M Q unit) s P : wp m (ioq s) (fun _ q => P tt (mk_st (file s) q (os s))) -> wp (on_queue m) s P.
Proof. unfold wp, on_queue. by destruct (m (ioq s)) as [[q []]| |]. Qed.
Lemma wp_file_call c s (P : Z * Z -> st Q O -> Prop) : (forall o r e, P (r, e) (mk_st (file s) (ioq s) o)) -> wp (syscall c) s P.
Proof.
  intros HP. unfold syscall. wp_bind. apply wp_get. destruct (c (os s)) as [o [r e]]. wp_bind. by apply wp_put, wp_ret, HP.
Qed.

(** Only [flags] matter. *)
Lemma inv_file s h v f o : file_inv a s h v -> flags f = flags (file s) -> file_inv a (mk_st f (ioq s) o) h v.
Proof. intros [] E. split; cbn [file ioq]; unfold owed in *; by rewrite ?E. Qed.

(** ** The client *)
Lemma wp_begin_op s h v k event : file_inv a s h v -> free h k -> event <> 0 ->
  wp (begin_op a event (want k)) s (fun _ s' => exists v', v_fd v' = v_fd v /\
    file_inv a s' (mk_threads (ending h) (hand h) (begun h ++ [k]) (called h)) v').
Proof.
  intros [H1 H2 H3 H4 H5 H6 H7] Hf He. unfold begin_op. wp_bind. apply wp_file. wp_bind.
  set (fl := Z.lor (flags (file s)) (want k)).
  assert (has k fl = true) as Hk by (unfold fl; rewrite lor_has, has_want, bool_decide_true by done; apply orb_true_r).
  assert (has k (flags (file s)) = false) as Hno.
  { destruct (H7 k) as [Hc _]. unfold free in Hf. unfold owed in Hc.
    destruct (has k (flags (file s))) eqn:E; [simpl in Hc; lia|done]. }
  assert (forall q' v', wq_ok q' -> only a (ioq s) q' -> view q' a = Some v' -> v_fd v' = v_fd v ->
    (v_status v' = Idle /\ ending h = 1%nat \/ v_status v' <> Idle /\ ending h = 0%nat) ->
    exists v', v_fd v' = v_fd v /\ file_inv a (mk_st (set_flags fl (file s)) q' (os s))
      (mk_threads (ending h) (hand h) (begun h ++ [k]) (called h)) v') as Hend.
  { intros q' v' Hq Hon Hv' Hfd Hst. exists v'. split; [done|]. split; cbn [file ioq ending flags set_flags]; try done.
    - rewrite Hfd. by eapply sole_only.
    - by apply flags_ok_want.
    - intros E. by apply has_some in Hk.
    - intros j. specialize (H7 j). unfold owed, begun_n in *. cbn [begun flags set_flags].
      change (hand_n (mk_threads _ (hand h) _ _) j) with (hand_n h j). change (called_n (mk_threads _ _ _ (called h)) j) with (called_n h j).
      rewrite count_occ_app. unfold fl. rewrite lor_has, has_want. simpl. destruct (dir_eq_dec k j) as [->|Hne].
      + rewrite Hno in *. rewrite bool_decide_true by done. simpl in *. unfold free, begun_n in Hf. lia.
      + rewrite bool_decide_false by congruence. rewrite orb_false_r. lia. }
  destruct (truth (flags (file s))) eqn:Et; apply wp_file_queue.
  - apply truth_spec in Et. eapply wp_mono; [eapply wq_rewait; [exact H1|exact H2]|]. intros [] q' (Hq & Hon & Hv').
    apply wp_file_upd. cbn [file ioq os]. apply (Hend q' _ Hq Hon Hv'); [by destruct (v_status v)|].
    specialize (H6 Et). destruct (v_status v) eqn:E; rewrite ?E; [done| |done]. right. split; [done|]. destruct H6 as [[? _]|[_ ?]]; done.
  - apply truth_false in Et. destruct (H5 Et) as [Hi He0]. eapply wp_mono; [by eapply wq_wait|]. intros [] q' (Hq & Hon & Hv').
    apply wp_file_upd. cbn [file ioq os]. apply (Hend q' _ Hq Hon Hv'); [done|]. by right.
Qed.

Lemma wp_operation s h v k m : file_inv a s h v -> free h k -> operation a k m ->
  wp m s (fun _ s' => exists v', v_fd v' = v_fd v /\
    file_inv a s' (mk_threads (ending h) (hand h) (begun h ++ [k]) (called h)) v').
Proof.
  intros H Hf Hm. destruct Hm as [data len fn|data len fn].
  - unfold afile_read. wp_bind. apply wp_file. wp_bind. apply wp_file_upd.
    apply (wp_begin_op _ h v RD); [by apply (inv_file s)|done|done].
  - unfold afile_write. wp_bind. apply wp_file. wp_bind. apply wp_file_upd.
    apply (wp_begin_op _ h v WR); [by apply (inv_file s)|done|done].
Qed.

Lemma wp_cancel s h v : file_inv a s h v -> flags (file s) <> 0 ->
  wp (afile_cancel a) s (fun _ s' => exists v', file_inv a s' h v').
Proof.
  intros [H1 H2 H3 H4 H5 H6 H7] Hn. unfold afile_cancel. wp_bind. apply wp_file. wp_bind. apply wp_file_queue.
  eapply wp_mono; [eapply wq_rewait; [exact H1|exact H2]|]. intros [] q' (Hq & Hon & Hv').
  apply wp_file_upd. cbn [file ioq os]. set (v' := match v_status v with Waiting _ => _ | _ => v end) in Hv'. exists v'.
  assert (v_fd v' = v_fd v) as Hfd by (unfold v'; by destruct (v_status v)).
  assert (v_status v' = Idle <-> v_status v = Idle) as Hst by (unfold v'; destruct (v_status v) eqn:E; by rewrite ?E).
  assert (Z.lor (flags (file s)) F_WANT_CANCEL <> 0) as Hnz by (rewrite Z.lor_eq_0_iff; tauto).
  split; cbn [file ioq flags set_flags]; try done.
  - rewrite Hfd. by eapply sole_only.
  - by apply flags_ok_cancel.
  - intros _. rewrite Hst. by apply H6.
  - intros k. specialize (H7 k). unfold owed in *. cbn [flags set_flags]. rewrite lor_has.
    assert (has k F_WANT_CANCEL = false) as -> by by destruct k. by rewrite orb_false_r.
Qed.

(** ** The callback *)
Definition chosen (k : dir) (d : bool) s s' (acc acc' : Z * Z) (e : Z) : Prop :=
  s' = mk_st (set_flags (if d then Z.land (flags (file s)) (Z.lnot (want k)) else flags (file s)) (file s)) (ioq s) (os s) /\
  acc' = (if d then Z.lor acc.1 (want k) else acc.1,
    if has k (flags (file s)) && negb d then Z.lor acc.2 e else acc.2) /\
  (d = true -> has k (flags (file s)) = true).

Lemma wp_choose s v k evs e acc : view (ioq s) a = Some v ->
  wp (choose a (want k) evs e acc) s (fun acc' s' => exists d, chosen k d s s' acc acc' e).
Proof.
  intros Hv. unfold choose. destruct acc as [p m]. wp_bind. apply wp_file. wp_bind. apply (wp_file_fd v); [done|].
  change (truth (Z.land (flags (file s)) (want k))) with (has k (flags (file s))).
  assert (mk_st (set_flags (flags (file s)) (file s)) (ioq s) (os s) = s) as Es by (by destruct s as [[] ? ?]).
  destruct (has k (flags (file s))) eqn:Eh; [destruct (truth _)|].
  - wp_bind. apply wp_file_upd, wp_ret. exists true. split; [done|]. split; [|done]. by rewrite andb_false_r.
  - apply wp_ret. exists false. unfold chosen. rewrite Es, Eh. done.
  - apply wp_ret. exists false. unfold chosen. rewrite Es, Eh. done.
Qed.

Definition end_done h n (p : Z * Z) : threads := mk_threads n (hand h ++ [p]) (begun h) (called h).

(** The flags, the actions and the events after both choices. *)
Lemma chosen_flags (fl : Z) (d1 d2 : bool) : flags_ok fl -> Z.testbit fl 2 = false ->
  let fl1 := if d1 then Z.land fl (Z.lnot (want WR)) else fl in
  let fl2 := if d2 then Z.land fl1 (Z.lnot (want RD)) else fl1 in
  let p1 := if d1 then Z.lor 0 (want WR) else 0 in
  let m1 := if has WR fl && negb d1 then Z.lor 0 IOQ_EVENT_OUT else 0 in
  let mask := if has RD fl1 && negb d2 then Z.lor m1 IOQ_EVENT_IN else m1 in
  (d1 = true -> has WR fl = true) -> (d2 = true -> has RD fl1 = true) ->
  flags_ok fl2 /\ (mask <> 0 <-> fl2 <> 0) /\
  forall k, (b2n (has k fl) = b2n (has k fl2) + b2n (has k (if d2 then Z.lor p1 (want RD) else p1)))%nat.
Proof.
  intros Hok Hc fl1 fl2 p1 m1 mask D1 D2.
  assert (forall k, has k fl1 = has k fl && negb (d1 && bool_decide (k = WR))) as E1.
  { intros k. unfold fl1. destruct d1; [apply ldiff_has|by rewrite andb_true_r]. }
  assert (forall k, has k fl2 = has k fl1 && negb (d2 && bool_decide (k = RD))) as E2.
  { intros k. unfold fl2. destruct d2; [apply ldiff_has|by rewrite andb_true_r]. }
  assert (flags_ok fl2) as Hok2.
  { assert (flags_ok fl1 /\ Z.testbit fl1 2 = false) as [? Hc1].
    { unfold fl1. destruct d1; [|done]. split; [by apply flags_ok_done|by rewrite Z.land_spec, Hc]. }
    unfold fl2. destruct d2; [by apply flags_ok_done|done]. }
  rewrite E1 in D2. change (bool_decide (RD = WR)) with false in D2. rewrite andb_false_r, andb_true_r in D2.
  split; [done|]. split.
  - assert (fl2 <> 0 <-> has RD fl2 = true \/ has WR fl2 = true) as ->.
    { split; [intros [[] ?]%(flags_has _ Hok2); auto|intros [?|?]; by eapply has_some]. }
    rewrite !E2, !E1. unfold mask, m1. rewrite E1.
    destruct d1, d2, (has RD fl), (has WR fl); vm_compute; naive_solver.
  - intros k. rewrite E2, E1. unfold p1. destruct d1, d2; rewrite ?lor_has, ?has_want;
      destruct k; simpl; rewrite ?D1, ?D2 by done; simpl; by rewrite ?andb_true_r, ?Nat.add_0_r.
Qed.

(** [end_wait] runs: some operations are to be performed, others are waited for. *)
Lemma inv_end_wait s h v n x' q' v' p : file_inv a s h v -> ending h = Datatypes.S n ->
  wq_ok q' -> only a (ioq s) q' -> view q' a = Some v' -> v_fd v' = v_fd v -> (v_status v' = Idle <-> flags x' = 0) ->
  flags_ok (flags x') -> (forall k, (b2n (has k (flags (file s))) = b2n (has k (flags x')) + b2n (has k p.1))%nat) ->
  file_inv a (mk_st x' q' (os s)) (end_done h n p) v'.
Proof.
  intros [H1 H2 H3 H4 H5 H6 H7] He Hq Hon Hv' Hfd Hst Hok Hk.
  assert (flags (file s) <> 0) as Hn by (intros E; destruct (H5 E); lia).
  destruct (H6 Hn) as [[Hi He1]|[_ ?]]; [|lia]. assert (n = 0)%nat as -> by lia.
  split; cbn [file ioq ending end_done]; try done.
  - rewrite Hfd. by eapply sole_only.
  - intros E. split; [by apply Hst|done].
  - intros E. right. split; [by rewrite Hst|done].
  - intros k. specialize (H7 k). specialize (Hk k). unfold owed, hand_n, begun_n, called_n in *. cbn [hand begun called end_done].
    rewrite sum_list_with_app. simpl. lia.
Qed.

Lemma wp_end_wait s h v n : file_inv a s h v -> ending h = Datatypes.S n ->
  wp (end_wait a) s (fun p s' => exists v', file_inv a s' (end_done h n p) v' /\
    (truth (v_err v) || Z.testbit (flags (file s)) 2 = true ->
       flags (file s') = 0 /\ Z.testbit p.1 2 = true /\ p.2 = v_err v /\ forall k, has k p.1 = has k (flags (file s)))).
Proof.
  intros H He. pose proof H as [H1 H2 H3 H4 H5 H6 H7].
  assert (flags (file s) <> 0) as Hn by (intros E; destruct (H5 E); lia).
  destruct (H6 Hn) as [[Hi _]|[_ ?]]; [|lia].
  assert (forall e, file_inv a (mk_st (set_flags 0 (file s)) (ioq s) (os s)) (end_done h n (Z.lor (flags (file s)) F_WANT_CANCEL, e)) v) as Hall.
  { intros e. eapply (inv_end_wait s h v n); [done|done|done|apply only_same|exact H2|done|done|apply flags_ok_0|].
    intros k. cbn [fst flags set_flags]. rewrite lor_has. destruct (has k (flags (file s))), k; done. }
  assert (Z.testbit (Z.lor (flags (file s)) F_WANT_CANCEL) 2 = true /\
    forall k, has k (Z.lor (flags (file s)) F_WANT_CANCEL) = has k (flags (file s))) as [Hb Hh].
  { rewrite Z.lor_spec, orb_true_r. split; [done|]. intros k. rewrite lor_has. destruct k; apply orb_false_r. }
  unfold end_wait. wp_bind. apply wp_file. wp_bind. apply (wp_file_fd v); [done|]. rewrite cancel_flag.
  destruct (truth (v_err v)) eqn:Ee; [|destruct (Z.testbit (flags (file s)) 2) eqn:Ec].
  - wp_bind. apply wp_file_upd, wp_ret. exists v. split; [apply Hall|]. intros _. by split_and!.
  - wp_bind. apply wp_file_upd, wp_ret. exists v. split; [apply Hall|]. apply truth_false in Ee. intros _. by split_and!.
  - wp_bind. eapply wp_mono; [by apply (wp_choose s v WR)|]. intros acc1 s1 (d1 & -> & -> & D1). cbn [fst snd].
    wp_bind. eapply wp_mono; [by apply (wp_choose _ v RD)|]. intros acc2 s2 (d2 & -> & -> & D2). cbn [file ioq os fst snd flags set_flags] in *.
    destruct (chosen_flags (flags (file s)) d1 d2 H4 Ec D1 D2) as (Hok2 & Hm & Hcnt).
    set (fl2 := if d2 then _ else _) in *. set (mask := if has RD _ && _ then _ else _) in *. set (p := if d2 then Z.lor _ _ else _) in *.
    destruct (truth mask) eqn:Et.
    + apply truth_spec in Et. wp_bind. apply wp_file_queue. cbn [file ioq os].
      eapply wp_mono; [by eapply wq_wait|]. intros [] q' (Hq & Hon & Hv'). apply wp_ret. eexists. split; [|done].
      eapply (inv_end_wait s h v n _ q'); [done|done|done|done|exact Hv'|done|..]; cbn; try done. by apply Hm in Et.
    + apply truth_false in Et. wp_bind. apply wp_ret, wp_ret. exists v. split; [|done].
      eapply (inv_end_wait s h v n _ (ioq s)); [done|done|done|apply only_same|exact H2|done|..]; cbn; try done.
      split; [|done]. intros _. destruct (decide (fl2 = 0)) as [|Hne]; [done|]. by apply Hm in Hne.
Qed.

(** ** The read and the write *)
Definition call_done h l1 l2 (k : dir) (p e : Z) : threads :=
  mk_threads (ending h) (l1 ++ (Z.land p (Z.lnot (want k)), e) :: l2) (begun h) (called h ++ [k]).

Lemma inv_called s h v k p e l1 l2 f o : file_inv a s h v -> hand h = l1 ++ (p, e) :: l2 -> has k p = true ->
  flags f = flags (file s) -> file_inv a (mk_st f (ioq s) o) (call_done h l1 l2 k p e) v.
Proof.
  intros H Hh Hk Ef. apply (inv_file s _ _ f o); [|done]. destruct H as [H1 H2 H3 H4 H5 H6 H7]. split; try done.
  intros j. specialize (H7 j). unfold owed, hand_n, begun_n, called_n in *. cbn [hand begun called call_done].
  rewrite Hh, sum_mid in H7. rewrite sum_mid, count_occ_app. cbn [fst] in *. rewrite ldiff_has.
  simpl. destruct (dir_eq_dec k j) as [->|Hne].
  - rewrite Hk in *. rewrite bool_decide_true by done. simpl in *. lia.
  - rewrite bool_decide_false by congruence. rewrite andb_true_r. lia.
Qed.

(** The result that the client of each kind looks at. *)
Definition result_of (k : dir) (x : afile) : Z * Z :=
  match k with RD => (afile_read_size x, afile_read_error x) | WR => (afile_write_size x, afile_write_error x) end.
Definition cb (k : dir) : Z -> Z -> M (st Q O) unit := match k with RD => cb_read a | WR => cb_write a end.

Lemma wp_cb s h v k p e l1 l2 : file_inv a s h v -> hand h = l1 ++ (p, e) :: l2 -> has k p = true ->
  wp (cb k p e) s (fun _ s' => file_inv a s' (call_done h l1 l2 k p e) v /\
    (Z.testbit p 2 = true -> result_of k (file s') = (0, e))).
Proof.
  intros H Hh Hk. pose proof (inv_called s h v k p e l1 l2) as Hc.
  destruct k; cbn [cb]; [unfold cb_read|unfold cb_write]; wp_bind; apply wp_file; rewrite cancel_flag;
    (destruct (Z.testbit p 2) eqn:Ec; [apply wp_file_upd; by split; [apply Hc|]|]);
    wp_bind; (apply (wp_file_fd v); [apply (fi_view _ _ _ _ H)|]); wp_bind; apply wp_file_call; intros o r e';
    (destruct (r <? 0); apply wp_file_upd; by split; [apply Hc|]).
Qed.

(** ** The handle and the queue *)
Lemma file_free s h v : file_inv a s h v -> (forall k, free h k) -> flags (file s) = 0.
Proof.
  intros H Hf. destruct (decide (flags (file s) = 0)) as [|Hn]; [done|].
  destruct (flags_has _ (fi_flags _ _ _ _ H) Hn) as [k Hk]. destruct (fi_count _ _ _ _ H k) as [Hc _].
  specialize (Hf k). unfold free in Hf. unfold owed in Hc. rewrite Hk in Hc. simpl in Hc. lia.
Qed.

Lemma wp_set_handle s h v d : file_inv a s h v -> (forall k, free h k) -> sole (ioq s) a d ->
  wp (afile_set_handle a d) s (fun _ s' => exists v', file_inv a s' h v').
Proof.
  intros H Hf Hd. pose proof (file_free _ _ _ H Hf) as E0. destruct H as [H1 H2 H3 H4 H5 H6 H7]. destruct (H5 E0) as [Hi He].
  apply wp_file_queue. eapply wp_mono; [by eapply wq_set_fd|]. intros [] q' (Hq & Hon & Hv'). eexists.
  split; cbn [file ioq]; try done. by eapply sole_only.
Qed.

(** The queue goes on, and so do its other users. *)
Lemma file_views s h v q' v' o : file_inv a s h v -> wq_ok q' -> view q' a = Some v' -> sole q' a (v_fd v') ->
  (v_status v' = Idle <-> v_status v = Idle) -> file_inv a (mk_st (file s) q' o) h v'.
Proof. intros [H1 H2 H3 H4 H5 H6 H7] Hq Hv' Hs Hi. split; cbn [file ioq]; rewrite ?Hi; try done. Qed.

Lemma inv_queue s h v q' : file_inv a s h v -> q_own (ioq s) q' -> exists v', file_inv a (mk_st (file s) q' (os s)) h v'.
Proof.
  intros H Ho. destruct (wq_own _ _ (fi_queue _ _ _ _ H) Ho) as (Hq & _ & Hm). pose proof (Hm a) as Ha.
  rewrite (fi_view _ _ _ _ H) in Ha. destruct (view q' a) as [v'|] eqn:Ev; [|done]. exists v'.
  destruct (moved_good _ _ Ha) as [Hfd Hi]. eapply file_views; [done..| |done].
  rewrite Hfd. eapply sole_moved; [apply (fi_sole _ _ _ _ H)|done].
Qed.

Lemma file_call s h v q' : file_inv a s h v -> q_call a (ioq s) q' ->
  exists v', file_inv a (mk_st (file s) q' (os s)) (mk_threads (Datatypes.S (ending h)) (hand h) (begun h) (called h)) v'.
Proof.
  intros [H1 H2 H3 H4 H5 H6 H7] Hc. destruct (wq_call a _ _ H1 Hc) as (Hq & _ & Hv). rewrite H2 in Hv.
  destruct Hv as (He & Hon & Hv'). eexists.
  assert (v_status v <> Idle) as Hn by (by rewrite He).
  assert (flags (file s) <> 0) as Hf by (intros E; by destruct (H5 E)).
  destruct (H6 Hf) as [[? _]|[_ Hend]]; [done|]. split; cbn [file ioq ending]; try done.
  - by eapply sole_only.
  - intros _. left. by rewrite Hend.
Qed.
End proofs.
