(* ===== verification/AfileMain.v ===== *)
(** Correctness of src/io/afile_posix.c: every read and write is answered by one
    callback. *)
From S2P Require Import Prelude Lists Rbt Runq Waitq Ioq IoqInv IoqReach IoqMain Wait IoqWait Afile AfileInv.

Section properties.
Context {Q O : Type} `{!WaitQueue Q, !WaitQueueLaws Q} `{!Files O}.
Context (a : positive).
Implicit Types (s : st Q O) (h : threads).

(** ** Every state *)
Definition file_good (y : fsys Q O) : Prop := exists v, file_inv a (st_ y) (th y) v.

Lemma inv_thread y y' : file_good y -> thread_step a y y' -> file_good y'.
Proof.
  intros [v H] Hs. destruct Hs as [s h n s' p He E|s h s' p e l1 l2 Hh Hk E|s h s' p e l1 l2 Hh _ Hk E]; cbn [st_ th] in *.
  - destruct (wp_result _ _ _ _ _ (wp_end_wait a s h v n H He) E) as (v' & H' & _). by exists v'.
  - destruct (wp_result _ _ _ _ _ (wp_cb a s h v RD p e l1 l2 H Hh Hk) E) as [H' _]. by exists v.
  - destruct (wp_result _ _ _ _ _ (wp_cb a s h v WR p e l1 l2 H Hh Hk) E) as [H' _]. by exists v.
Qed.

Lemma inv_fstep y y' : file_good y -> fstep a y y' -> file_good y'.
Proof.
  intros Hg Hs. destruct Hs as [y y' Hs|s h k m s' Hf Hm E|s h s' Hn E|s h s' d Hf Hd E|s h q Ho|s h q Hc|s h q o Hq Hv Hso];
    [by eapply inv_thread|..]; destruct Hg as [v H]; cbn [st_ th] in *.
  - destruct (wp_result _ _ _ _ _ (wp_operation a s h v k m H Hf Hm) E) as (v' & _ & H'). by exists v'.
  - exact (wp_result _ _ _ _ _ (wp_cancel a s h v H Hn) E).
  - exact (wp_result _ _ _ _ _ (wp_set_handle a s h v d H Hf Hd) E).
  - by apply (inv_queue a s h v).
  - by apply (file_call a s h v).
  - exists v. rewrite (fi_view _ _ _ _ H) in Hv. eapply file_views; [done..|by apply Hso|done].
Qed.

Lemma inv_freach y : freach a y -> file_good y.
Proof.
  induction 1 as [s (Hq & Hf & v & Hv & Hi & Hs)|y y' _ IH Hs]; [|by eapply inv_fstep].
  exists v. split; cbn [st_ th]; rewrite ?Hf; try done; [apply flags_ok_0|].
  intros []; (split; [done|apply Nat.le_0_l]).
Qed.

(** The wait will end, or a callback of the queue can go on. *)
Definition file_underway (y : fsys Q O) : Prop :=
  (exists v, view (ioq (st_ y)) a = Some v /\ v_status v <> Idle) \/ exists y', thread_step a y y'.

Lemma hand_step s h v l1 l2 p e k : file_inv a s h v -> hand h = l1 ++ (p, e) :: l2 -> has k p = true ->
  exists y', thread_step a (mk_fsys s h) y'.
Proof.
  intros H Hh Hk. destruct (has RD p) eqn:Er.
  - destruct (ends_wp _ _ _ (wp_cb a s h v RD p e l1 l2 H Hh Er)) as (s' & [] & E). eexists. by eapply do_read.
  - assert (has WR p = true) as Ew by (destruct k; congruence).
    destruct (ends_wp _ _ _ (wp_cb a s h v WR p e l1 l2 H Hh Ew)) as (s' & [] & E). eexists. by eapply do_write.
Qed.

Lemma owed_file_underway s h v k : file_inv a s h v -> (0 < owed (file s) h k)%nat -> file_underway (mk_fsys s h).
Proof.
  intros H Ho. unfold owed in Ho. destruct (has k (flags (file s))) eqn:Ek.
  - destruct (fi_busy _ _ _ _ H (has_some _ _ Ek)) as [[_ He]|[Hi _]].
    + right. destruct (ends_wp _ _ _ (wp_end_wait a s h v 0 H He)) as (s' & p & E). eexists. by eapply do_end.
    + left. exists v. split; [by eapply fi_view|done].
  - right. simpl in Ho. destruct (sum_pos_split _ _ Ho) as (l1 & [p e] & l2 & Hh & Hb). cbn in Hb.
    eapply (hand_step s h v l1 l2 p e k); [done..|]. destruct (has k p); [done|simpl in Hb; lia].
Qed.

(** C22. Whatever the order in which the client reads, writes, cancels and changes the
    handle, the queue ends waits, and callbacks go on: an operation is answered by
    exactly one callback, and until then the wait of the file is in progress or a
    callback of the queue can take its next step.  No call that the client may make
    goes wrong.  A cancel is one that finds an operation outstanding: one that comes
    too late, after the last callback was chosen, is not among the steps, since the
    code then loses the next operation ([cancel_idle_hangs]).  When a wait ends with an error, or after [afile_cancel], no
    operation stays behind, and each of them reports the size 0 and the error of the
    wait. *)
Theorem afile_completes (y : fsys Q O) : freach a y ->
  (forall k, free (th y) k \/ begun_n (th y) k = Datatypes.S (called_n (th y) k) /\ file_underway y) /\
  (forall k m, free (th y) k -> operation a k m -> ends m (st_ y)) /\
  (flags (file (st_ y)) <> 0 -> ends (afile_cancel a) (st_ y)) /\
  (forall n v, ending (th y) = Datatypes.S n -> view (ioq (st_ y)) a = Some v ->
     truth (v_err v) || truth (Z.land (flags (file (st_ y))) F_WANT_CANCEL) = true ->
     wp (end_wait a) (st_ y) (fun p s' => flags (file s') = 0 /\ p.2 = v_err v /\ truth (Z.land p.1 F_WANT_CANCEL) = true /\
       forall k, has k p.1 = has k (flags (file (st_ y))))) /\
  (forall k p e l1 l2, hand (th y) = l1 ++ (p, e) :: l2 -> has k p = true -> truth (Z.land p F_WANT_CANCEL) = true ->
     wp (cb a k p e) (st_ y) (fun _ s' => result_of k (file s') = (0, e))).
Proof.
  intros [v H]%inv_freach. destruct y as [s h]. cbn [st_ th] in *. split_and!.
  - intros k. destruct (fi_count _ _ _ _ H k) as [Hc Hle]. unfold free.
    destruct (decide (owed (file s) h k = 0%nat)); [left; lia|right]. split; [lia|].
    apply (owed_file_underway s h v k); [done|lia].
  - intros k m Hf Hm. eapply ends_wp. by eapply wp_operation.
  - intros Hn. eapply ends_wp. by eapply wp_cancel.
  - intros n v' He Hv' Hb. rewrite (fi_view _ _ _ _ H) in Hv'. injection Hv' as <-. rewrite cancel_flag in Hb.
    eapply wp_mono; [by eapply wp_end_wait|]. intros p s' (_ & _ & Hp). destruct (Hp Hb) as (E1 & E2 & E3 & E4).
    by rewrite cancel_flag.
  - intros k p e l1 l2 Hh Hk Hc. rewrite cancel_flag in Hc.
    eapply wp_mono; [by eapply (wp_cb a s h v k p e l1 l2)|]. intros [] s' [_ Hr]. by apply Hr.
Qed.
End properties.

(** * Where the code goes wrong *)
Section wrong.
Context {Q O : Type} `{!WaitQueue Q, !WaitQueueLaws Q} `{!Files O}.
Context (a : positive).
Implicit Types (s : st Q O) (h : threads).

(** The result of write(2) becomes the result, and the size, of the read: the
    client of the write finds what it passed to [afile_write]; and a read that is
    still outstanding will be for the size that was written. *)
Lemma write_result_lost s h v p e : file_inv a s h v -> truth (Z.land p F_WANT_CANCEL) = false ->
  wp (cb_write a p e) s (fun _ s' => result_of WR (file s') = result_of WR (file s) /\
    let '(o, (r, e')) := sys_write (v_fd v) (buffer (write (file s))) (size (write (file s))) (os s) in
    os s' = o /\ (0 <= r -> result_of RD (file s') = (r, 0)) /\ (r < 0 -> result_of RD (file s') = (0, e'))).
Proof.
  intros H Hc. unfold cb_write. wp_bind. apply wp_file. rewrite Hc. wp_bind.
  apply (wp_file_fd a v); [apply (fi_view _ _ _ _ H)|]. wp_bind. unfold syscall. wp_bind. apply wp_get.
  destruct (sys_write _ _ _ _) as [o [r e']]. wp_bind. apply wp_put, wp_ret.
  destruct (Z.ltb_spec r 0); apply wp_file_upd; (split; [done|]); (split; [done|]); split; intros; (done || lia).
Qed.

(** A cancellation when nothing is outstanding, as when the callback of the last
    operation has just begun, is kept for the next operation, which then waits for
    nothing: no wait begins, and nothing ends it. *)
Lemma cancel_idle_hangs s h v data len fn : file_inv a s h v -> flags (file s) = 0 ->
  wp (afile_cancel a;; afile_read a data len fn) s (fun _ s' =>
    has RD (flags (file s')) = true /\ exists v', view (ioq s') a = Some v' /\ v_status v' = Idle).
Proof.
  intros [H1 H2 H3 H4 H5 H6 H7] E0. destruct (H5 E0) as [Hi _].
  unfold afile_cancel. wp_bind. wp_bind. apply wp_file. wp_bind. apply wp_file_queue.
  eapply wp_mono; [eapply wq_rewait; [exact H1|exact H2]|]. intros [] q1 (Hq1 & _ & Hv1). rewrite Hi in Hv1.
  apply wp_file_upd. unfold afile_read. wp_bind. apply wp_file. wp_bind. apply wp_file_upd. unfold begin_op.
  cbn [file ioq os]. wp_bind. apply wp_file. rewrite E0. cbn. wp_bind. apply wp_file_queue.
  eapply wp_mono; [eapply wq_rewait; [exact Hq1|exact Hv1]|]. intros [] q2 (Hq2 & _ & Hv2). rewrite Hi in Hv2.
  apply wp_file_upd. cbn [file ioq os flags set_flags]. split; [|by exists v]. by rewrite lor_has, orb_true_r.
Qed.
End wrong.

(** * A file, for examples

    Five bytes can be read at a time, and [room] bytes written. *)
Record pipe := mk_pipe { room : Z }.
#[export] Instance ex_files : Files pipe := {
  sys_read _ _ n o := (o, (Z.min n 5, 0));
  sys_write _ _ n o := if room o =? 0 then (o, (-1, 11)) else (mk_pipe (room o - Z.min n (room o)), (Z.min n (room o), 0));
}.

Definition ex_file : st (sys ekern) pipe := mk_st new_file ex_qsys (mk_pipe 3).
Definition idle_threads : threads := mk_threads 0 [] [] [].

Lemma ex_file_fresh : fresh_file 2 ex_file.
Proof.
  split; [apply (inv_reach_io ex_qsys); by constructor; apply ex_queue_fresh|]. split; [done|].
  eexists. split; [by vm_compute|]. split; [done|]. intros g v _. simpl. unfold io_view.
  destruct (fds (ioq_ ex_qsys) !! g) as [x|] eqn:E; [|done]. intros [= <-]. unfold fd_progress. by rewrite decide_False by set_solver.
Qed.

Definition after_read : st (sys ekern) pipe :=
  match afile_read 2 100 8 7 ex_file with Ok (s, _) => s | _ => ex_file end.
Definition ex_reading : fsys (sys ekern) pipe := mk_fsys after_read (mk_threads 0 [] ([] ++ [RD]) []).

Lemma ex_reading_reach : freach 2 ex_reading.
Proof.
  eapply f_next; [apply (f_start 2 ex_file ex_file_fresh)|].
  apply (f_begin 2 ex_file idle_threads RD (afile_read 2 100 8 7)); [done|constructor|by vm_compute].
Qed.

Lemma afile_completes_witness :
  freach 2 ex_reading /\ begun_n (th ex_reading) RD = 1%nat /\ file_underway 2 ex_reading /\
  ends (afile_write 2 200 4 9) after_read /\ ends (afile_cancel 2) after_read.
Proof.
  split; [exact ex_reading_reach|]. split; [done|].
  destruct (afile_completes 2 ex_reading ex_reading_reach) as (H1 & H2 & H3 & _). split_and!.
  - destruct (H1 RD) as [Hf|[_ Hu]]; [by vm_compute in Hf|exact Hu].
  - apply (H2 WR); [done|constructor].
  - apply H3. by vm_compute.
Defined.
