(* ===== verification/Objects.v ===== *)
(** What an allocator of objects of one size promises to those that use it
    (src/src/slab.h), the interface that the string pool is verified against; and that
    the slab allocator keeps it.

    The objects in use are a set of addresses.  What a client keeps in its objects
    is its own state: the allocator does not touch it, nor can a client harm the
    allocator by writing there (C18). *)
From S2P Require Import Prelude Lists Slab SlabMem SlabInv SlabStep SlabNew SlabMain.

Class ObjPool (P : Type) := {
  o_init : Z -> M P unit;                 (** slab_init *)
  o_alloc : M P (option positive);        (** slab_alloc *)
  o_free : positive -> M P unit;          (** slab_free *)
  o_free_all : M P unit;                  (** slab_free_all *)
}.

(** [o_raw]: memory for an allocator; [o_use U]: one whose objects in use are
    [U]. *)
Class ObjPoolLaws (P : Type) `{ObjPool P} := {
  o_raw : P -> Prop;
  o_use : gset positive -> P -> Prop;
  ob_init n p : 0 <= n <= 2 ^ 28 - 64 -> o_raw p -> wp (o_init n) p (fun _ p' => o_use ∅ p');
  ob_alloc U p : o_use U p -> wp o_alloc p (fun r p' =>
    match r with None => o_use U p' | Some d => d ∉ U /\ o_use ({[d]} ∪ U) p' end);
  ob_free U p d : o_use U p -> d ∈ U -> wp (o_free d) p (fun _ p' => o_use (U ∖ {[d]}) p');
  ob_free_all U p : o_use U p -> wp o_free_all p (fun _ p' => o_use ∅ p');
}.

(** [struct slab] is at [self], and the memory of others is [R0]; [malloc_at] is
    [malloc]. *)
Class SlabPlace := {
  self : positive;
  others : gmap positive Z;
  malloc_at : gmap positive Z -> nat -> Z -> option positive;
  place_malloc : malloc_spec malloc_at;
  place_self : others !! self = Some sizeof_slab;
  place_apart b1 n1 b2 n2 : others !! b1 = Some n1 -> others !! b2 = Some n2 -> b1 <> b2 ->
    Z.pos b1 + n1 <= Z.pos b2 \/ Z.pos b2 + n2 <= Z.pos b1;
}.

#[export] Instance slab_objects `{!SlabPlace} : ObjPool st := {
  o_init := slab_init self;
  o_alloc := slab_alloc self malloc_at;
  o_free := slab_free self;
  o_free_all := slab_free_all self;
}.

#[export] Instance slab_objects_laws `{!SlabPlace} : ObjPoolLaws st.
Proof.
  refine {| o_raw s := regions s = others; o_use := slab_inv self others |}.
  - intros n s Hn Hs. eapply wp_mono; [apply (wp_slab_init self others); [done|done|apply place_self|apply place_apart]|].
    by intros _ s' (? & _).
  - intros U s Hu. eapply wp_mono; [apply (wp_slab_alloc self others malloc_at U s place_malloc Hu)|].
    intros [d|] s'; [|by intros (? & _)]. by intros (? & ? & _).
  - intros U s d Hu Hd. eapply wp_mono; [by apply (wp_slab_free self others)|]. by intros _ s' [? _].
  - intros U s Hu. eapply wp_mono; [by apply (wp_slab_free_all self others U)|]. by intros _ s' [? _].
Defined.
