(* ===== verification/Istr.v ===== *)
(** Model of src/istr.h and src/istr.c: reference-counted strings that share one
    buffer, with a garbage collector.

    The text of the strings is in a string buffer ([Strbuf]); their descriptors are
    objects of an allocator that keeps the contract of [Objects].  There is one
    pool, so a descriptor has no field [owner].  A [char *] into the text is the list
    of the determinate characters from it on. *)
From S2P Require Import Prelude Heap Strlcpy Strbuf Objects.

Record istr_desc := mk_desc {
  next : option positive;
  offset : Z;
  len : Z;         (** the field [length] *)
  refcnt : Z;
}.
Definition sizeof_istr_desc : Z := 40.

Definition set_next v x := mk_desc v (offset x) (len x) (refcnt x).
Definition set_offset v x := mk_desc (next x) v (len x) (refcnt x).
Definition set_refcnt v x := mk_desc (next x) (offset x) (len x) v.

Section istr.
Context {P : Type} `{!ObjPool P} (malloc_ok : nat -> bool).

(** [mem] holds the descriptors in use. *)
Record istr_pool := mk_pool {
  text_ : strbuf;
  heap_ : heap;
  descs : P;
  mem : gmap positive istr_desc;
  all : option positive;
  desc_count : Z;
  gc_threshold : Z;
}.

Definition with_text_ b h s := mk_pool b h (descs s) (mem s) (all s) (desc_count s) (gc_threshold s).
Definition with_mem m s := mk_pool (text_ s) (heap_ s) (descs s) m (all s) (desc_count s) (gc_threshold s).
Definition with_descs d s := mk_pool (text_ s) (heap_ s) d (mem s) (all s) (desc_count s) (gc_threshold s).
Definition with_all v s := mk_pool (text_ s) (heap_ s) (descs s) (mem s) v (desc_count s) (gc_threshold s).
Definition with_count v s := mk_pool (text_ s) (heap_ s) (descs s) (mem s) (all s) v (gc_threshold s).
Definition with_threshold v s := mk_pool (text_ s) (heap_ s) (descs s) (mem s) (all s) (desc_count s) v.

(** Operations on the buffer of the pool, and on a buffer of their own. *)
Definition on_text {A} (m : M Strbuf.st A) : M istr_pool A := fun s =>
  match m (text_ s, heap_ s) with
  | Ok ((b, h), a) => Ok (with_text_ b h s, a)
  | Crash => Crash
  | NoFuel => NoFuel
  end.
Definition on_new {A} (m : M Strbuf.st A) (b : strbuf) : M istr_pool (strbuf * A) := fun s =>
  match m (b, heap_ s) with
  | Ok ((b, h), a) => Ok (with_text_ (text_ s) h s, (b, a))
  | Crash => Crash
  | NoFuel => NoFuel
  end.
Definition on_descs {A} (m : M P A) : M istr_pool A := fun s =>
  match m (descs s) with
  | Ok (d, a) => Ok (with_descs d s, a)
  | Crash => Crash
  | NoFuel => NoFuel
  end.

Definition get_desc (d : positive) : M istr_pool istr_desc := s ← get; need (mem s !! d).
Definition put_desc (d : positive) (x : istr_desc) : M istr_pool unit :=
  modify (fun s => with_mem (<[d := x]> (mem s)) s).
Definition upd_desc (d : positive) (u : istr_desc -> istr_desc) : M istr_pool unit :=
  x ← get_desc d; put_desc d (u x).
(** [slab_free] of a descriptor, which is then gone. *)
Definition free_desc (d : positive) : M istr_pool unit :=
  on_descs (o_free d);; modify (fun s => with_mem (delete d (mem s)) s).

(** ** Text *)

(** The characters from a place in a buffer on, up to one that is indeterminate. *)
Fixpoint determinate (c : cells) : list Z :=
  match c with Some x :: c => x :: determinate c | _ => [] end.
Definition chars_at (b : strbuf) (off : Z) : option (list Z) :=
  match text b with
  | Null => None
  | Blank => if (0 <=? off) && (off <=? 1) then Some (drop (Z.to_nat off) [0]) else None
  | Text c => if (0 <=? off) && (off <=? Z.of_nat (length c)) then Some (determinate (drop (Z.to_nat off) c)) else None
  end.

Definition istr_text (d : positive) : M istr_pool (list Z) :=
  x ← get_desc d; s ← get; need (chars_at (text_ s) (offset x)).
Definition istr_length (d : positive) : M istr_pool Z := x ← get_desc d; ret (u32 (len x)).

(** [memcmp]: only the sign of its result is determined. *)
Fixpoint sign_at (x y : list Z) : Z :=
  match x, y with
  | a :: x, b :: y => if a <? b then -1 else if b <? a then 1 else sign_at x y
  | _, _ => 0
  end.
Definition memcmp (ta tb : list Z) (n : Z) : M istr_pool Z :=
  x ← need (read_at 0 n ta); y ← need (read_at 0 n tb); ret (sign_at x y).

(** ** The pool *)
Definition istr_pool_init : M istr_pool unit :=
  on_text strbuf_init;;
  on_descs (o_init sizeof_istr_desc);;
  modify (with_all None);;
  modify (with_count 0);;
  modify (with_threshold 128).

Definition istr_pool_destroy : M istr_pool unit :=
  on_text strbuf_destroy;;
  on_descs o_free_all;;
  modify (with_mem ∅).

(** ** The collector *)
Definition filter_step (new_list : option positive) : M istr_pool (option positive + option positive) :=
  s ← get;
  match all s with
  | None => ret (inr new_list)
  | Some d =>
      x ← get_desc d;
      modify (with_all (next x));;
      if truth (refcnt x) then upd_desc d (set_next new_list);; ret (inl (Some d))
      else free_desc d;; ret (inl new_list)
  end.

Definition reverse_step (new_list : option positive) : M istr_pool (option positive + unit) :=
  match new_list with
  | None => ret (inr tt)
  | Some d =>
      x ← get_desc d;
      s ← get;
      upd_desc d (set_next (all s));;
      modify (with_all (Some d));;
      modify (fun s => with_count (u32 (desc_count s + 1)) s);;
      ret (inl (next x))
  end.

(** The lists have no more nodes than there are descriptors. *)
Definition gc_desc : M istr_pool unit :=
  s ← get;
  let n := Datatypes.S (size (mem s)) in
  new_list ← loop n filter_step None;
  modify (with_count 0);;
  loop n reverse_step new_list.

(** One round of the loop of [gc_text], with its variables [d] and [new_buf]. *)
Definition copy_step (v : option positive * strbuf) : M istr_pool ((option positive * strbuf) + strbuf) :=
  let '(d, new_buf) := v in
  match d with
  | None => ret (inr new_buf)
  | Some d =>
      let new_offset := i32 (length_ new_buf) in
      src ← istr_text d;
      x ← get_desc d;
      '(new_buf, _) ← on_new (strbuf_add_string malloc_ok src (i32 (u64 (len x + 1)))) new_buf;
      upd_desc d (set_offset (u64 new_offset));;
      x ← get_desc d;
      ret (inl (next x, new_buf))
  end.

Definition gc_text : M istr_pool Z :=
  '(new_buf, _) ← on_new strbuf_init (mk_strbuf Null 0 0 0);
  s ← get;
  '(new_buf, rc) ← on_new (strbuf_capacity_hint malloc_ok (length_ (text_ s))) new_buf;
  if rc <? 0 then _ ← on_new strbuf_destroy new_buf; ret (-1)
  else
    s ← get;
    new_buf ← loop (Datatypes.S (size (mem s))) copy_step (all s, new_buf);
    '(new_buf, _) ← on_new (strbuf_capacity_hint malloc_ok (length_ new_buf)) new_buf;
    on_text strbuf_destroy;;
    modify (fun s => with_text_ new_buf (heap_ s) s);;
    ret 0.

Definition istr_pool_gc : M istr_pool Z := gc_desc;; gc_text.

(** ** Strings *)

(** [src] is the area [text] points to. *)
Definition istr_pool_alloc (src : list Z) (length : Z) : M istr_pool (option positive) :=
  length ← (if length <? 0 then n ← need (strlen src); ret (i32 n) else ret length);
  r ← on_descs o_alloc;
  match r with
  | None => ret None
  | Some d =>
      s ← get;
      put_desc d (mk_desc None (length_ (text_ s)) (u64 length) 1);;
      rc ← on_text (strbuf_add_string malloc_ok src length);
      failed ← (if rc <? 0 then ret true
                else rc ← on_text (strbuf_add_char malloc_ok 0); ret (rc <? 0));
      if (failed : bool) then free_desc d;; ret None
      else
        modify (fun s => with_count (u32 (desc_count s + 1)) s);;
        s ← get;
        upd_desc d (set_next (all s));;
        modify (with_all (Some d));;
        s ← get;
        (if gc_threshold s <=? desc_count s then
           _ ← istr_pool_gc;
           modify (fun s => with_threshold (u32 (desc_count s * 4)) s);;
           s ← get;
           when (gc_threshold s <? 128) (modify (with_threshold 128))
         else ret tt);;
        ret (Some d)
  end.

Definition istr_ref (d : positive) : M istr_pool unit := upd_desc d (fun x => set_refcnt (u32 (refcnt x + 1)) x).
Definition istr_unref (d : positive) : M istr_pool unit := upd_desc d (fun x => set_refcnt (u32 (refcnt x - 1)) x).

Definition istr_equal (a b : positive) : M istr_pool Z :=
  x ← get_desc a;
  y ← get_desc b;
  if negb (len x =? len y) then ret 0
  else
    ta ← istr_text a;
    tb ← istr_text b;
    r ← memcmp ta tb (len x);
    ret (if r =? 0 then 1 else 0).

(** Pointers into the text are equal when the offsets are. *)
Definition istr_compare (a b : positive) : M istr_pool Z :=
  ta ← istr_text a;
  tb ← istr_text b;
  la ← istr_length a;
  lb ← istr_length b;
  let la := i32 la in
  let lb := i32 lb in
  x ← get_desc a;
  y ← get_desc b;
  if offset x =? offset y then ret 0
  else if la <? lb then
    r ← memcmp ta tb la;
    ret (if r =? 0 then -1 else r)
  else if lb <? la then
    r ← memcmp ta tb lb;
    ret (if r =? 0 then 1 else r)
  else memcmp ta tb la.
End istr.
Arguments istr_pool P : clear implicits.
