(* ===== verification/IstrInv.v ===== *)
(** The invariant of a string pool, and what reading and adding text does. *)
From S2P Require Import Prelude Lists Heap Strlcpy Strbuf StrbufMain Objects Istr.

(** * Strings in a buffer *)

(** The descriptor [x] stands for the string [bs], which is terminated. *)
Definition string_at (b : strbuf) (x : istr_desc) (bs : list Z) : Prop :=
  exists pre post, contents b = pre ++ (Some <$> (bs ++ [0])) ++ post /\
    offset x = Z.of_nat (length pre) /\ len x = Z.of_nat (length bs).

(** The strings of a pool: for each descriptor its references and its text. *)
Abbreviation strings := (gmap positive (Z * list Z)).

Definition referenced (T : strings) (d : positive) : Prop :=
  match T !! d with Some (r, _) => r <> 0 | None => False end.
#[export] Instance referenced_dec T d : Decision (referenced T d).
Proof. unfold referenced. destruct (T !! d) as [[r bs]|]; apply _. Defined.

(** The bytes that the strings of [ds] take. *)
Definition extent (T : strings) (d : positive) : nat :=
  match T !! d with Some (_, bs) => Datatypes.S (length bs) | None => 0%nat end.
Definition total (T : strings) (ds : list positive) : nat := sum_list_with (extent T) ds.

Section inv.
Context {P : Type} `{!ObjPool P, !ObjPoolLaws P}.
Implicit Types (s : istr_pool P) (T : strings) (ds : list positive).

Definition desc_for (b : strbuf) (x : option istr_desc) (t : option (Z * list Z)) : Prop :=
  match x, t with
  | Some x, Some (r, bs) => refcnt x = r /\ string_at b x bs
  | None, None => True
  | _, _ => False
  end.

Record pool_inv s ds T : Prop := {
  pi_text : strbuf_ok (text_ s);
  pi_alive : (owned (text_ s) <= alive (heap_ s))%nat;
  pi_small : length_ (text_ s) < 2 ^ 31;
  pi_use : o_use (dom T) (descs s);
  pi_nodup : NoDup ds;
  pi_chain : SList.chain (next <$> mem s) (all s) ds;
  pi_dom : dom T = list_to_set ds;
  pi_count : desc_count s = Z.of_nat (length ds);
  pi_desc d : desc_for (text_ s) (mem s !! d) (T !! d);
  pi_total : Z.of_nat (total T ds) <= length_ (text_ s);
  pi_apart d e x y : d <> e -> mem s !! d = Some x -> mem s !! e = Some y -> offset x <> offset y;
}.

(** The pool holds the strings [T]. *)
Definition pool_ok s T : Prop := exists ds, pool_inv s ds T.

Lemma pi_string s ds T d r bs : pool_inv s ds T -> T !! d = Some (r, bs) ->
  exists x, mem s !! d = Some x /\ refcnt x = r /\ string_at (text_ s) x bs.
Proof.
  intros H Hd. pose proof (pi_desc _ _ _ H d) as Hx. rewrite Hd in Hx. unfold desc_for in Hx.
  destruct (mem s !! d) as [x|]; [|done]. by exists x.
Qed.

Lemma pi_mem s ds T d : pool_inv s ds T -> d ∈ ds ->
  exists x r bs, mem s !! d = Some x /\ T !! d = Some (r, bs) /\ refcnt x = r /\ string_at (text_ s) x bs.
Proof.
  intros H Hd. assert (d ∈ dom T) as Ht by (rewrite (pi_dom _ _ _ H); by apply elem_of_list_to_set).
  apply elem_of_dom in Ht as [[r bs] Ht]. destruct (pi_string _ _ _ _ _ _ H Ht) as (x & Hx & Hr & Hs). by exists x, r, bs.
Qed.

(** ** Sizes *)
Lemma total_cons T d ds : total T (d :: ds) = (extent T d + total T ds)%nat.
Proof. done. Qed.
Lemma total_app T ds es : total T (ds ++ es) = (total T ds + total T es)%nat.
Proof. apply sum_list_with_app. Qed.
Lemma total_ext T T' ds : (forall d, d ∈ ds -> extent T' d = extent T d) -> total T' ds = total T ds.
Proof. unfold total. induction ds as [|d ds IH]; intros H; simpl; [done|]. by rewrite IH, H by set_solver. Qed.
Lemma total_filter T (Q : positive -> Prop) `{!forall d, Decision (Q d)} ds : (total T (filter Q ds) <= total T ds)%nat.
Proof.
  induction ds as [|d ds IH]; [done|]. destruct (decide (Q d)).
  - rewrite filter_cons_True by done. rewrite !total_cons. lia.
  - rewrite filter_cons_False by done. rewrite total_cons. lia.
Qed.
Lemma total_length T ds : dom T = list_to_set ds -> (length ds <= total T ds)%nat.
Proof.
  intros Hd. assert (forall d, d ∈ ds -> (1 <= extent T d)%nat) as He.
  { intros d Hi. unfold extent. assert (d ∈ dom T) as [[r bs] ->]%elem_of_dom by (rewrite Hd; by apply elem_of_list_to_set). lia. }
  clear Hd. unfold total. induction ds as [|d ds IH]; simpl; [done|]. specialize (IH ltac:(set_solver)).
  specialize (He d ltac:(set_solver)). lia.
Qed.

Lemma contents_length b : strbuf_ok b -> Z.of_nat (length (contents b)) = length_ b.
Proof.
  intros Ho. unfold contents, region. rewrite length_take. destruct (text b) as [| |c] eqn:E.
  - by destruct (ok_null _ Ho).
  - destruct (ok_blank _ Ho E) as [-> _]. simpl. lia.
  - destruct (ok_cap _ Ho c E). lia.
Qed.

Lemma length_nonneg b : strbuf_ok b -> 0 <= length_ b.
Proof. intros Ho. rewrite <- (contents_length b Ho). lia. Qed.

Lemma string_bounds b x bs : strbuf_ok b -> string_at b x bs ->
  0 <= offset x /\ 0 <= len x /\ offset x + len x + 1 <= length_ b.
Proof.
  intros Ho (pre & post & E & -> & ->). rewrite <- (contents_length b Ho), E, !length_app, length_fmap, length_app. simpl. lia.
Qed.

(** ** Reading *)
Lemma determinate_app l c : determinate ((Some <$> l) ++ c) = l ++ determinate c.
Proof.
  induction l as [|a l IH]; [done|].
  change (determinate ((Some <$> a :: l) ++ c)) with (a :: determinate ((Some <$> l) ++ c)). by rewrite IH.
Qed.

Lemma chars_string b x bs : strbuf_ok b -> string_at b x bs ->
  exists more, chars_at b (offset x) = Some (bs ++ 0 :: more).
Proof.
  intros Ho (pre & post & E & Eo & _). unfold chars_at, contents, region in *. destruct (text b) as [| |c] eqn:Et.
  - by destruct (ok_null _ Ho).
  - rewrite take_nil in E. apply (f_equal length) in E. rewrite !length_app, length_fmap, length_app in E. simpl in E. lia.
  - rewrite Eo. rewrite <- (take_drop (Z.to_nat (length_ b)) c), E, length_app.
    exists (determinate (post ++ drop (Z.to_nat (length_ b)) c)).
    destruct (Z.leb_spec 0 (Z.of_nat (length pre))); [|lia]. rewrite length_app.
    destruct (Z.leb_spec (Z.of_nat (length pre)) (Z.of_nat (length pre + length ((Some <$> bs ++ [0]) ++ post) +
      length (drop (Z.to_nat (length_ b)) c)))); [|lia]. simpl. f_equal. rewrite Nat2Z.id, <- (assoc_L (++)), drop_app_length.
    rewrite <- (assoc_L (++)), determinate_app, <- (assoc_L (++)). done.
Qed.

(** ** Adding text *)
Lemma string_at_prefix b b' x bs more : contents b' = contents b ++ more -> string_at b x bs -> string_at b' x bs.
Proof.
  intros E (pre & post & Eb & Eo & El). exists pre, (post ++ more). split; [|done]. rewrite E, Eb. by rewrite <- !(assoc_L (++)).
Qed.
Lemma string_at_same b x x' bs : string_at b x bs -> offset x' = offset x -> len x' = len x -> string_at b x' bs.
Proof. intros (pre & post & E & Eo & El) Eo' El'. exists pre, post. by rewrite Eo', El'. Qed.
Lemma string_at_end b b' x bs : strbuf_ok b -> contents b' = contents b ++ (Some <$> (bs ++ [0])) ->
  offset x = length_ b -> len x = Z.of_nat (length bs) -> string_at b' x bs.
Proof.
  intros Ho E Eo El. exists (contents b), []. rewrite app_nil_r. split; [done|]. by rewrite contents_length.
Qed.

Lemma desc_for_prefix b b' x t more : contents b' = contents b ++ more -> desc_for b x t -> desc_for b' x t.
Proof.
  intros E. unfold desc_for. destruct x as [x|], t as [[r bs]|]; try done. intros [Hr Hs]. split; [done|]. by eapply string_at_prefix.
Qed.

(** More text, in a heap that still has that of the pool. *)
Lemma inv_text s ds T b h more : pool_inv s ds T -> strbuf_ok b -> contents b = contents (text_ s) ++ more ->
  length_ b < 2 ^ 31 -> (owned b <= alive h)%nat -> pool_inv (with_text_ b h s) ds T.
Proof.
  intros [H1 H2 H3 H4 H5 H6 H7 H8 H9 H10 H11] Ho E Hl Ha. split; cbn; try done.
  - intros d. by eapply desc_for_prefix.
  - rewrite <- (contents_length b Ho), E, length_app, <- (contents_length _ H1) in *. lia.
Qed.
End inv.

(** * The computations *)
Section wps.
Context {P : Type} `{!ObjPool P, !ObjPoolLaws P}.
Implicit Types (s : istr_pool P).

Lemma wp_on_text {A} (m : M Strbuf.st A) s (Q : A -> istr_pool P -> Prop) :
  wp m (text_ s, heap_ s) (fun a p => Q a (with_text_ p.1 p.2 s)) -> wp (on_text m) s Q.
Proof. unfold wp, on_text. by destruct (m _) as [[[b h] a]| |]. Qed.
Lemma wp_on_new {A} (m : M Strbuf.st A) b s (Q : strbuf * A -> istr_pool P -> Prop) :
  wp m (b, heap_ s) (fun a p => Q (p.1, a) (with_text_ (text_ s) p.2 s)) -> wp (on_new m b) s Q.
Proof. unfold wp, on_new. by destruct (m _) as [[[b' h] a]| |]. Qed.
Lemma wp_on_descs {A} (m : M P A) s (Q : A -> istr_pool P -> Prop) :
  wp m (descs s) (fun a p => Q a (with_descs p s)) -> wp (on_descs m) s Q.
Proof. unfold wp, on_descs. by destruct (m _) as [[p a]| |]. Qed.

Lemma wp_get_desc d x s (Q : istr_desc -> istr_pool P -> Prop) : mem s !! d = Some x -> Q x s -> wp (get_desc d) s Q.
Proof. intros Hx HQ. unfold get_desc. wp_bind. apply wp_get. by apply (wp_need _ x). Qed.
Lemma wp_upd_desc d u x s (Q : unit -> istr_pool P -> Prop) : mem s !! d = Some x ->
  Q tt (with_mem (<[d := u x]> (mem s)) s) -> wp (upd_desc d u) s Q.
Proof. intros Hx HQ. unfold upd_desc. wp_bind. apply (wp_get_desc _ x); [done|]. by apply wp_modify. Qed.

Lemma wp_free_desc d U s (Q : unit -> istr_pool P -> Prop) : o_use U (descs s) -> d ∈ U ->
  (forall p, o_use (U ∖ {[d]}) p -> Q tt (with_mem (delete d (mem s)) (with_descs p s))) -> wp (free_desc d) s Q.
Proof.
  intros Hu Hd HQ. unfold free_desc. wp_bind. apply wp_on_descs. eapply wp_mono; [by apply (ob_free U)|].
  intros [] p Hp. apply wp_modify. by apply HQ.
Qed.
End wps.

(** The allocator's calls are counted. *)
Definition grows {A} (m : M Strbuf.st A) : Prop := forall s s' a, m s = Ok (s', a) -> (calls s.2 <= calls s'.2)%nat.

Section grows.
Lemma grows_ret {A} (a : A) : grows (ret a).
Proof. by intros s s' b [= <- <-]. Qed.
Lemma grows_bind {A B} (m : M Strbuf.st A) (f : A -> M Strbuf.st B) : grows m -> (forall a, grows (f a)) -> grows (bind m f).
Proof.
  intros Hm Hf s s' b E. unfold bind in E. destruct (m s) as [[s1 a]| |] eqn:E1; [|done|done].
  apply Hm in E1. apply Hf in E. lia.
Qed.
Lemma grows_gets {A} (f : Strbuf.st -> A) : grows (gets f).
Proof. by intros s s' b [= <- <-]. Qed.
Lemma grows_set f : (forall s, (f s).2 = s.2) -> grows (modify f).
Proof. intros Hf s s' b [= <- <-]. by rewrite Hf. Qed.
Lemma grows_need {A} (o : option A) : grows (need o).
Proof. destruct o; [apply grows_ret|]. by intros s s' b. Qed.
Lemma grows_loop {A B} (body : A -> M Strbuf.st (A + B)) n a : (forall a, grows (body a)) -> grows (loop n body a).
Proof.
  intros Hb. revert a. induction n as [|n IH]; intros a; simpl; [by intros s s' b|].
  apply grows_bind; [done|]. intros [a'|b]; [done|apply grows_ret].
Qed.
End grows.

Lemma wp_grows {A} (m : M Strbuf.st A) s Q : grows m -> wp m s Q ->
  wp m s (fun a s' => Q a s' /\ (calls s.2 <= calls s'.2)%nat).
Proof. intros Hg. unfold wp. destruct (m s) as [[s' a]| |] eqn:E; [|done|done]. intros HQ. split; [done|]. by eapply Hg. Qed.

Section strbuf.
Context (malloc_ok : nat -> bool).

Lemma grows_hint n : grows (strbuf_capacity_hint malloc_ok n).
Proof.
  unfold strbuf_capacity_hint, get_buf. apply grows_bind; [apply grows_gets|]. intros b.
  destruct (n <? length_ b); [apply grows_ret|]. apply grows_bind.
  { apply grows_loop. intros c. destruct (c <? _); apply grows_ret. }
  intros c. destruct (c =? capacity b); [apply grows_ret|].
  intros [b1 h1] s' r. unfold bind, get, put, realloc, malloc, ret, set_buf, modify.
  destruct (text b1), (malloc_ok (calls h1)); intros [= <- <-]; simpl; lia.
Qed.

Lemma grows_write at_ bs : grows (write_text at_ bs).
Proof.
  unfold write_text, get_buf. apply grows_bind; [apply grows_gets|]. intros b. destruct (text b); try (by intros ???).
  apply grows_bind; [apply grows_need|]. intros c'. by apply grows_set.
Qed.

Lemma grows_add src n : grows (strbuf_add_string malloc_ok src n).
Proof.
  unfold strbuf_add_string, get_buf, upd_buf. apply grows_bind.
  { destruct (n <? 0); [apply grows_need|apply grows_ret]. }
  intros m. apply grows_bind; [apply grows_gets|]. intros b. apply grows_bind; [apply grows_hint|]. intros rc.
  destruct (rc <? 0); [apply grows_ret|]. apply grows_bind; [apply grows_need|]. intros bs.
  apply grows_bind; [apply grows_write|]. intros []. apply grows_bind; [by apply grows_set|]. intros [].
  apply grows_bind; [apply grows_gets|]. intros b'. apply grows_bind; [apply grows_write|]. intros []. apply grows_ret.
Qed.
End strbuf.
