(* ===== verification/IstrGc.v ===== *)
(** The garbage collector of a string pool. *)
From S2P Require Import Prelude Lists Heap Strlcpy Strbuf StrbufMain Objects Istr IstrInv.

Section gc.
Context {P : Type} `{!ObjPool P, !ObjPoolLaws P} (malloc_ok : nat -> bool).
Implicit Types (s : istr_pool P) (T : strings) (ds : list positive).

(** * Descriptors *)

(** The same string, elsewhere in a list. *)
Definition same_desc (x x' : istr_desc) : Prop := offset x' = offset x /\ len x' = len x /\ refcnt x' = refcnt x.

(** While the lists are rebuilt: [A] is the list [all], [B] the new one. *)
Record two_lists s0 s (A B : list positive) (nl : option positive) : Prop := {
  tl_text : text_ s = text_ s0;
  tl_heap : heap_ s = heap_ s0;
  tl_threshold : gc_threshold s = gc_threshold s0;
  tl_nodup : NoDup (A ++ B);
  tl_all : SList.chain (next <$> mem s) (all s) A;
  tl_new : SList.chain (next <$> mem s) nl B;
  tl_dom : dom (mem s) = list_to_set (A ++ B);
  tl_use : o_use (list_to_set (A ++ B)) (descs s);
  tl_same d x' : mem s !! d = Some x' -> exists x, mem s0 !! d = Some x /\ same_desc x x';
}.

Lemma chain_cons (m : gmap positive istr_desc) p d l : SList.chain (next <$> m) p (d :: l) ->
  p = Some d /\ exists x, m !! d = Some x /\ SList.chain (next <$> m) (next x) l.
Proof.
  intros (-> & q & Hq & Hl). split; [done|]. rewrite lookup_fmap in Hq. destruct (m !! d) as [x|]; [|done].
  injection Hq as <-. by exists x.
Qed.

Lemma chain_relink (m : gmap positive istr_desc) d x p l : d ∉ l ->
  SList.chain (next <$> m) p l -> SList.chain (next <$> <[d := x]> m) p l.
Proof. intros Hd. apply SList.chain_ext. intros a Ha. rewrite !lookup_fmap, lookup_insert_ne; [done|]. by intros ->. Qed.

(** A node goes from one list to the front of the other. *)
Lemma relink_chains (m : gmap positive istr_desc) d x A B nl : m !! d = Some x -> NoDup (d :: A ++ B) ->
  SList.chain (next <$> m) (next x) A -> SList.chain (next <$> m) nl B ->
  let m' := <[d := set_next nl x]> m in
  SList.chain (next <$> m') (next x) A /\ SList.chain (next <$> m') (Some d) (d :: B).
Proof.
  intros Hx Hnd HA HB m'. apply NoDup_cons in Hnd as [Hd _]. rewrite elem_of_app in Hd. split.
  - by apply chain_relink; [tauto|].
  - split; [done|]. exists nl. split; [by rewrite lookup_fmap; unfold m'; rewrite lookup_insert_eq|].
    by apply chain_relink; [tauto|].
Qed.

Lemma same_relink (m0 m : gmap positive istr_desc) d x nl : m !! d = Some x ->
  (forall e y, m !! e = Some y -> exists x, m0 !! e = Some x /\ same_desc x y) ->
  forall e y, <[d := set_next nl x]> m !! e = Some y -> exists x, m0 !! e = Some x /\ same_desc x y.
Proof.
  intros Hx Hs e y [[<- <-]|[_ Hy]]%lookup_insert_Some; [|by apply Hs]. destruct (Hs d x Hx) as (x0 & ? & ?). by exists x0.
Qed.

Lemma dom_relink (m : gmap positive istr_desc) d x : is_Some (m !! d) -> dom (<[d := x]> m) = dom m.
Proof. intros H%elem_of_dom. rewrite dom_insert_L. set_solver. Qed.

(** ** The two loops *)
Lemma wp_filter s0 s T A B nl fuel : two_lists s0 s A B nl -> (forall d, desc_for (text_ s0) (mem s0 !! d) (T !! d)) ->
  (length A < fuel)%nat ->
  wp (loop fuel filter_step nl) s (fun nl' s' => two_lists s0 s' [] (reverse (filter (referenced T) A) ++ B) nl').
Proof.
  intros H HT Hf. set (B1 := reverse (filter (referenced T) A) ++ B).
  apply (wp_loop (fun k nl s' => exists A B, k = length A /\ two_lists s0 s' A B nl /\
    reverse (filter (referenced T) A) ++ B = B1)) with (k := length A); [|done|by exists A, B].
  clear H Hf. intros k nl1 s1 (A1 & B2 & -> & [H1 H2 H3 H4 H5 H6 H7 H8 H9] & E1). unfold filter_step. wp_bind. apply wp_get.
  destruct A1 as [|d A1].
  { simpl in H5. rewrite H5. apply wp_ret. rewrite <- E1. by split. }
  apply chain_cons in H5 as (-> & x & Hx & Hc). wp_bind. apply (wp_get_desc _ x); [done|]. wp_bind. apply wp_modify.
  pose proof H4 as Hnd. cbn [app] in Hnd. apply NoDup_cons in H4 as [Hd Hn]. rewrite elem_of_app in Hd.
  destruct (H9 d x Hx) as (x0 & Hx0 & Es). pose proof (HT d) as Ht. rewrite Hx0 in Ht. destruct Es as (_ & _ & Er).
  destruct (T !! d) as [[r bs]|] eqn:Etd; [|done]. destruct Ht as [Hr _].
  assert (truth (refcnt x) = true <-> referenced T d) as Href by (unfold referenced; rewrite Etd, truth_spec; by rewrite Er, Hr).
  destruct (truth (refcnt x)) eqn:Et.
  - wp_bind. apply (wp_upd_desc _ _ x); [done|]. apply wp_ret. exists (length A1). split; [simpl; lia|].
    exists A1, (d :: B2). destruct (relink_chains (mem s1) d x A1 B2 nl1 Hx Hnd Hc H6) as [C1 C2].
    assert (A1 ++ d :: B2 ≡ₚ d :: A1 ++ B2) as Hp by (symmetry; apply Permutation_middle).
    split; [done|]. split.
    + split; cbn; try done; [by rewrite Hp|rewrite dom_relink by eauto; rewrite H7|by rewrite Hp|by apply same_relink].
      cbn [app]. by rewrite Hp.
    + rewrite <- E1, filter_cons_True, reverse_cons, <- (assoc_L (++)) by by apply Href. done.
  - assert (~ referenced T d) as Hnr by (rewrite <- Href; congruence).
    wp_bind. eapply wp_free_desc; [exact H8|set_solver|]. intros p Hp. apply wp_ret. exists (length A1). split; [simpl; lia|].
    exists A1, B2. split; [done|]. split; [|by rewrite <- E1, filter_cons_False by done].
    assert (forall q l, d ∉ l -> SList.chain (next <$> mem s1) q l -> SList.chain (next <$> delete d (mem s1)) q l) as Hdel.
    { intros q l Hl. apply SList.chain_ext. intros a Ha. rewrite !lookup_fmap, lookup_delete_ne; [done|]. by intros ->. }
    split; cbn; try done.
    + by apply Hdel; [tauto|].
    + by apply Hdel; [tauto|].
    + rewrite dom_delete_L, H7. cbn [app list_to_set]. set_solver.
    + replace (list_to_set (A1 ++ B2)) with (list_to_set ((d :: A1) ++ B2) ∖ {[d]} : gset positive); [done|].
      cbn [app list_to_set]. set_solver.
    + intros e y [_ Hy]%lookup_delete_Some. by apply H9.
Qed.

Lemma wp_reverse s0 s B nl fuel : two_lists s0 s [] B nl -> desc_count s = 0 -> Z.of_nat (length B) < 2 ^ 31 ->
  (length B < fuel)%nat ->
  wp (loop fuel reverse_step nl) s (fun _ s' => two_lists s0 s' (reverse B) [] None /\ desc_count s' = Z.of_nat (length B)).
Proof.
  intros H Hc0 Hs Hf.
  apply (wp_loop (fun k nl s' => exists A B1, k = length B1 /\ two_lists s0 s' A B1 nl /\ reverse B1 ++ A = reverse B /\
    desc_count s' = Z.of_nat (length A) /\ (length A + length B1 = length B)%nat)) with (k := length B);
    [|done|exists [], B; split; [done|]; split; [done|]; by rewrite app_nil_r].
  clear H Hc0 Hf. intros k nl1 s1 (A & B1 & -> & [H1 H2 H3 H4 H5 H6 H7 H8 H9] & E1 & Hc & Hl). unfold reverse_step.
  destruct B1 as [|d B1].
  { simpl in H6. subst nl1. apply wp_ret. simpl in E1. rewrite <- E1. split; [|simpl in Hl; rewrite Hc; lia].
    by split. }
  apply chain_cons in H6 as (-> & x & Hx & Hch). wp_bind. apply (wp_get_desc _ x); [done|]. wp_bind. apply wp_get.
  wp_bind. apply (wp_upd_desc _ _ x); [done|]. wp_bind. apply wp_modify. wp_bind. apply wp_modify. apply wp_ret.
  assert (A ++ d :: B1 ≡ₚ d :: A ++ B1) as Hp by (symmetry; apply Permutation_middle).
  assert (B1 ++ A ≡ₚ A ++ B1) as Hp2 by apply Permutation_app_comm.
  exists (length B1). split; [simpl; lia|]. exists (d :: A), B1. split; [done|].
  destruct (relink_chains (mem s1) d x B1 A (all s1) Hx) as [C1 C2]; [by rewrite Hp2, <- Hp|done|done|].
  split; [|split_and!].
  - split; cbn; try done.
    + change (NoDup (d :: A ++ B1)). by rewrite <- Hp.
    + rewrite dom_relink by eauto. rewrite H7, Hp. done.
    + change (o_use (list_to_set (d :: A ++ B1)) (descs s1)). by rewrite <- Hp.
    + by apply same_relink.
  - rewrite <- E1, reverse_cons, <- (assoc_L (++)). done.
  - cbn. rewrite Hc. simpl in Hl. unfold u32. rewrite Z.mod_small; simpl; lia.
  - simpl in *. lia.
Qed.

(** Descriptors without references go; the others stay, in order. *)
Definition kept T : strings := filter (fun '(_, (r, _)) => r <> 0) T.

Lemma kept_lookup T d : kept T !! d = if decide (referenced T d) then T !! d else None.
Proof.
  apply option_eq. intros [r bs]. unfold kept. rewrite map_lookup_filter_Some.
  destruct (decide (referenced T d)) as [Hr|Hn]; unfold referenced in *.
  - split; [tauto|]. intros E. by rewrite E in Hr.
  - split; [|done]. intros [E Hr]. by rewrite E in Hn.
Qed.

Lemma desc_for_same b x x' t : desc_for b (Some x) t -> same_desc x x' -> desc_for b (Some x') t.
Proof.
  unfold desc_for. destruct t as [[r bs]|]; [|done]. intros [Hr Hs] (E1 & E2 & E3). split; [congruence|]. by eapply string_at_same.
Qed.

Lemma inv_kept s0 s ds T : pool_inv s0 ds T -> two_lists s0 s (filter (referenced T) ds) [] None ->
  desc_count s = Z.of_nat (length (filter (referenced T) ds)) -> pool_inv s (filter (referenced T) ds) (kept T).
Proof.
  intros [H1 H2 H3 H4 H5 H6 H7 H8 H9 H10 H11] [L1 L2 L3 L4 L5 L6 L7 L8 L9] Hc. rewrite app_nil_r in *.
  assert (forall d, d ∈ filter (referenced T) ds <-> d ∈ dom (kept T)) as Hdom.
  { intros d. rewrite list_elem_of_filter, elem_of_dom, kept_lookup.
    assert (d ∈ ds <-> d ∈ dom T) as -> by (rewrite H7; symmetry; apply elem_of_list_to_set). rewrite elem_of_dom.
    destruct (decide (referenced T d)); [tauto|]. split; [tauto|by intros [? [=]]]. }
  assert (dom (kept T) = list_to_set (filter (referenced T) ds)) as Ed.
  { apply set_eq. intros d. by rewrite elem_of_list_to_set, Hdom. }
  split; rewrite ?L1, ?L2; try done.
  - by rewrite Ed.
  - intros d. rewrite kept_lookup. destruct (mem s !! d) as [x'|] eqn:E.
    + destruct (L9 d x' E) as (x & Hx & Hs). specialize (H9 d). rewrite Hx in H9.
      assert (d ∈ filter (referenced T) ds) as [Hr _]%list_elem_of_filter
        by (rewrite <- (elem_of_list_to_set (C := gset positive)), <- L7; apply elem_of_dom; eauto).
      rewrite decide_True by done. by eapply desc_for_same.
    + destruct (decide (referenced T d)) as [Hr|Hn]; [|done]. destruct (T !! d) as [[r bs]|] eqn:Et; [|done].
      apply not_elem_of_dom in E. rewrite L7, elem_of_list_to_set in E. destruct E.
      apply Hdom. apply elem_of_dom. rewrite kept_lookup, decide_True, Et by done. eauto.
  - rewrite (total_ext T); [pose proof (total_filter T (referenced T) ds); lia|].
    intros d [Hr _]%list_elem_of_filter. unfold extent. by rewrite kept_lookup, decide_True.
  - intros d e x y Hne Hx Hy. destruct (L9 d x Hx) as (x0 & Hx0 & -> & _), (L9 e y Hy) as (y0 & Hy0 & -> & _). by apply (H11 d e).
Qed.

Lemma wp_gc_desc s ds T : pool_inv s ds T ->
  wp gc_desc s (fun _ s' => pool_inv s' (filter (referenced T) ds) (kept T) /\ heap_ s' = heap_ s /\ gc_threshold s' = gc_threshold s).
Proof.
  intros H. pose proof H as [H1 H2 H3 H4 H5 H6 H7 H8 H9 H10 H11]. unfold gc_desc. wp_bind. apply wp_get.
  assert (dom (mem s) = list_to_set ds) as Hdm.
  { rewrite <- H7. apply set_eq. intros d. rewrite !elem_of_dom. specialize (H9 d). unfold desc_for in H9.
    destruct (mem s !! d), (T !! d) as [[]|]; try done; by split; intros [? [=]]. }
  assert (size (mem s) = length ds) as Hsz by (rewrite <- size_dom, Hdm; by apply size_list_to_set).
  wp_bind. eapply wp_mono; [apply (wp_filter s s T ds [] None); [|done|lia]|].
  - split; rewrite ?app_nil_r; try done; [by rewrite <- H7|]. intros d x Hx. exists x. by repeat split.
  - intros nl s1 L. rewrite app_nil_r in L. wp_bind. apply wp_modify.
    assert (length (filter (referenced T) ds) <= length ds)%nat as Hlen by apply length_filter.
    pose proof (total_length T ds H7) as Htl.
    eapply wp_mono; [apply (wp_reverse s _ (reverse (filter (referenced T) ds)) nl)|].
    + destruct L. by split.
    + done.
    + rewrite length_reverse. lia.
    + rewrite length_reverse. lia.
    + intros [] s2 [L2 Hc]. rewrite reverse_involutive in L2. rewrite length_reverse in Hc. split; [by eapply inv_kept|].
      split; [apply (tl_heap _ _ _ _ _ L2)|apply (tl_threshold _ _ _ _ _ L2)].
Qed.

(** * Text *)

(** An allocation failed after the state [s]. *)
Definition oom_after s : Prop := oom_from malloc_ok (calls (heap_ s)).

(** The strings of [ds1] have been copied to [nb]. *)
Definition copied T (m : gmap positive istr_desc) (nb : strbuf) (ds1 : list positive) : Prop :=
  length_ nb = Z.of_nat (total T ds1) /\
  (forall d, d ∈ ds1 -> desc_for nb (m !! d) (T !! d)) /\
  (forall d e x y, d ∈ ds1 -> e ∈ ds1 -> d <> e -> m !! d = Some x -> m !! e = Some y -> offset x <> offset y).

(** ... and those of [ds2] are to be, the first of them [cur]. *)
Record copying s0 T (ds1 ds2 : list positive) (cur : option positive) (nb : strbuf) m h : Prop := {
  cp_next : next <$> m = next <$> mem s0;
  cp_cur : SList.chain (next <$> mem s0) cur ds2;
  cp_rest d : d ∈ ds2 -> m !! d = mem s0 !! d;
  cp_ok : strbuf_ok nb;
  cp_len : length_ nb <= Z.of_nat (total T ds1);
  cp_alive : (owned nb + owned (text_ s0) <= alive h)%nat;
  cp_calls : (calls (heap_ s0) <= calls h)%nat;
  cp_done : copied T m nb ds1 \/ oom_after s0;
}.
Definition at_copy s0 m h : istr_pool P := with_mem m (with_text_ (text_ s0) h s0).

Lemma next_insert (m : gmap positive istr_desc) d x y : m !! d = Some x -> next y = next x ->
  next <$> <[d := y]> m = next <$> m.
Proof. intros Hx E. rewrite fmap_insert, E. apply insert_id. by rewrite lookup_fmap, Hx. Qed.

Lemma total_snoc T ds d : total T (ds ++ [d]) = (total T ds + extent T d)%nat.
Proof. rewrite total_app. unfold total. simpl. lia. Qed.

(** One more string is copied. *)
Lemma copied_next T m nb nb' ds1 d x r bs : strbuf_ok nb -> strbuf_ok nb' -> copied T m nb ds1 -> d ∉ ds1 ->
  m !! d = Some x -> T !! d = Some (r, bs) -> refcnt x = r -> len x = Z.of_nat (length bs) ->
  contents nb' = contents nb ++ (Some <$> (bs ++ [0])) ->
  copied T (<[d := set_offset (length_ nb) x]> m) nb' (ds1 ++ [d]).
Proof.
  intros Ho Ho' (C1 & C2 & C3) Hd Hx Ht Hr Hl E.
  assert (forall e, e ∈ ds1 -> e <> d) as Hne by by intros e He ->.
  assert (forall e y, e ∈ ds1 -> m !! e = Some y -> offset y <> length_ nb) as Hoff.
  { intros e y He Hy. specialize (C2 e He). rewrite Hy in C2. destruct (T !! e) as [[r' bs']|]; [|done].
    destruct C2 as [_ Hs]. apply string_bounds in Hs; [|done]. lia. }
  split; [|split].
  - rewrite <- (contents_length nb' Ho'), E, length_app, length_fmap, length_app, total_snoc.
    pose proof (contents_length nb Ho). unfold extent. rewrite Ht. simpl. lia.
  - intros e [He| ->%list_elem_of_singleton]%elem_of_app.
    + rewrite lookup_insert_ne by (by apply not_eq_sym, Hne). eapply desc_for_prefix; [exact E|]. by apply C2.
    + rewrite lookup_insert_eq, Ht. split; [done|]. by eapply (string_at_end nb).
  - intros e1 e2 x1 x2 He1 He2 Hn. rewrite !elem_of_app, !list_elem_of_singleton in *.
    intros [[<- <-]|[Hn1 H1]]%lookup_insert_Some [[E2 <-]|[Hn2 H2]]%lookup_insert_Some; [done|..].
    + destruct He2 as [He2| ->]; [|done]. simpl. intros E2. by eapply Hoff.
    + subst e2. destruct He1 as [He1| ->]; [|done]. simpl. by eapply Hoff.
    + destruct He1 as [He1| ->], He2 as [He2| ->]; try done. by apply (C3 e1 e2).
Qed.

Lemma wp_copy_step s0 ds T ds1 ds2 d cur nb m h : pool_inv s0 ds T -> ds = ds1 ++ d :: ds2 ->
  copying s0 T ds1 (d :: ds2) cur nb m h ->
  wp (copy_step malloc_ok (cur, nb)) (at_copy s0 m h) (fun r s' => exists cur' nb' m' h',
    r = inl (cur', nb') /\ s' = at_copy s0 m' h' /\ copying s0 T (ds1 ++ [d]) ds2 cur' nb' m' h').
Proof.
  intros H E [C1 C2 C3 C4 C5 C6 C7 C8]. destruct (pi_mem s0 ds T d H) as (x & r & bs & Hx & Ht & Hr & Hs); [set_solver|].
  apply chain_cons in C2 as (-> & x' & Hx' & Hc). assert (x' = x) as -> by congruence.
  assert (m !! d = Some x) as Hm by (rewrite C3; [done|by left]).
  destruct (chars_string _ x bs (pi_text _ _ _ H) Hs) as [more Hch].
  pose proof (string_bounds _ x bs (pi_text _ _ _ H) Hs) as (Hb1 & Hb2 & Hb3). pose proof (pi_small _ _ _ H) as Hsm.
  assert (len x = Z.of_nat (length bs)) as Hl by by destruct Hs as (? & ? & _ & _ & ?).
  assert (Z.of_nat (total T ds1) < 2 ^ 31) as Htot.
  { pose proof (pi_total _ _ _ H) as Hp. rewrite E, total_app in Hp. lia. }
  pose proof (length_nonneg nb C4) as Hnb0. unfold copy_step.
  wp_bind. unfold istr_text. wp_bind. apply (wp_get_desc _ x); [done|]. wp_bind. apply wp_get. apply (wp_need _ (bs ++ 0 :: more)); [done|].
  wp_bind. apply (wp_get_desc _ x); [done|]. wp_bind. apply wp_on_new. cbn [heap_ at_copy with_mem with_text_].
  assert (i32 (u64 (len x + 1)) = Z.of_nat (length (bs ++ [0]))) as ->.
  { unfold u64. rewrite Z.mod_small, i32_id by lia. rewrite length_app. simpl. lia. }
  eapply wp_mono; [apply wp_grows; [apply grows_add|apply (wp_add_string malloc_ok nb h _ _ (bs ++ [0])); [done|lia| |]]|].
  { rewrite length_app. simpl. lia. }
  { left. split; [lia|]. split; [|done]. change (bs ++ 0 :: more) with ([] ++ bs ++ [0] ++ more).
    rewrite (assoc_L (++) bs). by apply read_at_app. }
  intros rc [nb' h'] [[Hal Hap] Hca]. cbn [fst snd] in *. rewrite i32_id by lia.
  assert (u64 (length_ nb) = length_ nb) as -> by (unfold u64; rewrite Z.mod_small; lia).
  set (x1 := set_offset (length_ nb) x). wp_bind. apply (wp_upd_desc _ _ x); [done|]. fold x1.
  wp_bind. apply (wp_get_desc _ x1); [cbn; by rewrite lookup_insert_eq|]. apply wp_ret.
  exists (next x), nb', (<[d := x1]> m), h'. split; [done|]. split; [done|].
  assert (d ∉ ds1 /\ d ∉ ds2) as [Hd1 Hd2].
  { pose proof (pi_nodup _ _ _ H) as Hnd. rewrite E in Hnd. apply NoDup_app in Hnd as (_ & Hd & [Hd2 _]%NoDup_cons).
    split; [|done]. intros ?. by apply (Hd d); [|left]. }
  assert (strbuf_ok nb' /\ length_ nb' <= Z.of_nat (total T (ds1 ++ [d])) /\ (copied T (<[d := x1]> m) nb' (ds1 ++ [d]) \/ oom_after s0))
    as (Ho' & Hl' & Hdone).
  { rewrite total_snoc. destruct Hap as [(_ & [Ho' _] & Ec & _)|(_ & -> & Ho)].
    - split; [done|]. split.
      + rewrite <- (contents_length nb' Ho'), Ec, length_app, length_fmap, length_app. pose proof (contents_length nb C4).
        unfold extent. rewrite Ht. simpl. lia.
      + destruct C8 as [C8|C8]; [left|by right]. by eapply copied_next.
    - split; [done|]. split; [lia|]. right. by eapply oom_le. }
  split; try done.
  - by rewrite <- C1; apply (next_insert _ _ x).
  - intros e He. rewrite lookup_insert_ne by (intros <-; done). apply C3. by right.
  - lia.
  - lia.
Qed.

Lemma wp_copy s0 ds T nb fuel h : pool_inv s0 ds T -> copying s0 T [] ds (all s0) nb (mem s0) h -> (length ds < fuel)%nat ->
  wp (loop fuel (copy_step malloc_ok) (all s0, nb)) (at_copy s0 (mem s0) h) (fun nb' s' => exists m' h',
    s' = at_copy s0 m' h' /\ copying s0 T ds [] None nb' m' h').
Proof.
  intros H C Hf.
  apply (wp_loop (fun k v s' => exists ds1 ds2 m h, k = length ds2 /\ ds = ds1 ++ ds2 /\ s' = at_copy s0 m h /\
    copying s0 T ds1 ds2 v.1 v.2 m h)) with (k := length ds); [|done|by exists [], ds, (mem s0), h].
  clear C Hf. intros k [cur nb1] s1 (ds1 & ds2 & m & h1 & -> & E & -> & C). cbn [fst snd] in C. destruct ds2 as [|d ds2].
  - pose proof (cp_cur _ _ _ _ _ _ _ _ C) as Hc. simpl in Hc. subst cur. rewrite app_nil_r in E. subst ds1.
    apply wp_ret. by exists m, h1.
  - eapply wp_mono; [by eapply (wp_copy_step s0 ds T ds1 ds2 d)|]. intros r s2 (cur' & nb' & m' & h' & -> & -> & C').
    exists (length ds2). split; [simpl; lia|]. exists (ds1 ++ [d]), ds2, m', h'. split; [done|]. split; [|done].
    by rewrite <- (assoc_L (++)).
Qed.

(** The new buffer replaces the old one. *)
Lemma inv_copied s0 ds T nb m h nb' h' d' : pool_inv s0 ds T -> copied T m nb ds -> next <$> m = next <$> mem s0 ->
  strbuf_ok nb -> contents nb' = contents nb -> strbuf_ok nb' -> (owned nb' <= alive h')%nat -> d' = descs s0 ->
  pool_inv (with_text_ nb' h' (with_descs d' (at_copy s0 m h))) ds T.
Proof.
  intros [H1 H2 H3 H4 H5 H6 H7 H8 H9 H10 H11] (C1 & C2 & C3) Hn Ho E Ho' Ha ->.
  assert (length_ nb' = length_ nb) as El by by rewrite <- (contents_length nb' Ho'), E, contents_length.
  assert (forall d x, m !! d = Some x -> d ∈ ds) as Hin.
  { intros d x Hd. rewrite <- (elem_of_list_to_set (C := gset positive)), <- H7. apply elem_of_dom.
    specialize (H9 d). assert (is_Some ((next <$> m) !! d)) as Hs by (rewrite lookup_fmap, Hd; eauto).
    rewrite Hn, lookup_fmap in Hs. unfold desc_for in H9. destruct (mem s0 !! d); [|by destruct Hs]. destruct (T !! d); [eauto|done]. }
  split; cbn; try done.
  - lia.
  - by rewrite Hn.
  - intros d. destruct (decide (d ∈ ds)) as [Hd|Hd].
    + eapply (desc_for_prefix nb _ _ _ []); [by rewrite app_nil_r|]. by apply C2.
    + destruct (m !! d) as [x|] eqn:Ex; [by apply Hin in Ex|]. destruct (T !! d) eqn:Et; [|done].
      destruct Hd. rewrite <- (elem_of_list_to_set (C := gset positive)), <- H7. apply elem_of_dom. eauto.
  - lia.
  - intros d e x y Hne Hx Hy. eapply (C3 d e); eauto.
Qed.

Lemma wp_gc_text s ds T : pool_inv s ds T ->
  wp (gc_text malloc_ok) s (fun rc s' => gc_threshold s' = gc_threshold s /\ desc_count s' = desc_count s /\
    (rc = 0 /\ (pool_inv s' ds T \/ oom_after s) \/ rc = -1 /\ pool_inv s' ds T /\ oom_after s)).
Proof.
  intros H. pose proof H as [H1 H2 H3 H4 H5 H6 H7 H8 H9 H10 H11]. unfold gc_text.
  wp_bind. apply wp_on_new. apply wp_set_buf. cbn. wp_bind. apply wp_get. wp_bind. apply wp_on_new. cbn.
  set (blank := mk_strbuf Blank 0 0 0). assert (strbuf_ok blank) as Hb by by split.
  pose proof (length_nonneg _ H1). eapply wp_mono; [apply wp_grows; [apply grows_hint|apply (wp_buf_hint malloc_ok blank); [done|lia]]|].
  intros rc [nb h1] [(Ha & [(-> & Hrs & Hok & _)|(-> & -> & Hoom)]) Hca]; cbn [fst snd] in *.
  2: { change (-1 <? 0) with true. cbv iota. wp_bind. apply wp_on_new. apply wp_clear; [done|apply Nat.le_0_l|]. intros h2 Hh2.
       apply wp_ret. cbn. split; [done|]. split; [done|]. right. split; [done|]. split; [|done].
       apply (inv_text s ds T (text_ s) _ []); [done|done|by rewrite app_nil_r|done|]. cbn in *. lia. }
  change (0 <? 0) with false. cbv iota. wp_bind. apply wp_get. wp_bind. cbn.
  change (with_text_ (text_ s) h1 (with_text_ (text_ s) (heap_ s) s)) with (at_copy s (mem s) h1).
  assert (size (mem s) = length ds) as Hsz.
  { rewrite <- size_dom. replace (dom (mem s)) with (dom T); [rewrite H7; by apply size_list_to_set|]. apply set_eq.
    intros d. rewrite !elem_of_dom. specialize (H9 d). unfold desc_for in H9.
    destruct (mem s !! d), (T !! d) as [[]|]; try done; by split; intros [? [=]]. }
  assert (length_ nb = 0) as El by apply (rs_len _ _ Hrs).
  eapply wp_mono; [apply (wp_copy s ds T nb); [done| |lia]|].
  { split; try done; cbn in *; [lia..|]. left. split; [done|]. split; set_solver. }
  intros nb2 s2 (m & h2 & -> & [C1 _ _ C4 C5 C6 C7 C8]). wp_bind. apply wp_on_new. cbn.
  eapply wp_mono; [apply (wp_buf_hint malloc_ok nb2); [done|]|].
  { pose proof (length_nonneg _ C4). lia. }
  intros rc [nb3 h3] (Ha3 & Hrc). cbn. wp_bind. apply wp_on_text. cbn. apply wp_clear; [done|lia|]. intros h4 Hh4. cbn.
  split; [done|]. split; [done|]. left. split; [done|].
  destruct C8 as [C8|C8]; [left|by right]. eapply (inv_copied s ds T nb2 m h3 nb3 h4 (descs s)); [done..| | | |done].
  - destruct Hrc as [(_ & Hr & _)|(_ & -> & _)]; [by apply resized_contents|done].
  - by destruct Hrc as [(_ & _ & ? & _)|(_ & -> & _)].
  - lia.
Qed.

Lemma wp_gc s ds T : pool_inv s ds T ->
  wp (istr_pool_gc malloc_ok) s (fun rc s' => gc_threshold s' = gc_threshold s /\
    (rc = 0 /\ (pool_ok s' (kept T) \/ oom_after s) \/ rc = -1 /\ pool_ok s' (kept T) /\ oom_after s)).
Proof.
  intros H. unfold istr_pool_gc. wp_bind. eapply wp_mono; [by apply (wp_gc_desc s ds T)|]. intros [] s1 (H1 & Eh & Et).
  eapply wp_mono; [by eapply wp_gc_text|]. intros rc s2 (Et2 & _ & Hr). split; [congruence|].
  unfold oom_after in *. rewrite Eh in Hr. unfold pool_ok. destruct Hr as [(-> & [?|?])|(-> & ? & ?)]; eauto 6.
Qed.
End gc.
