(* ===== verification/IstrMain.v ===== *)
(** Correctness of src/istr.c: a pool refines a map from references to strings. *)
From S2P Require Slab SlabMain.
From S2P Require Import Prelude Lists Heap Strlcpy Strbuf StrbufMain Objects Istr IstrInv IstrGc.

(** * Comparison *)

(** The order of strings: by bytes, and a prefix first. *)
Fixpoint lex (x y : list Z) : Z :=
  match x, y with
  | [], [] => 0
  | [], _ => -1
  | _, [] => 1
  | a :: x, b :: y => if a <? b then -1 else if b <? a then 1 else lex x y
  end.

Lemma sign_take x y n m : (Nat.min (length x) (length y) <= n)%nat -> (Nat.min (length x) (length y) <= m)%nat ->
  sign_at (take n x) (take m y) = sign_at x y.
Proof.
  revert y n m. induction x as [|a x IH]; intros [|b y] n m Hn Hm; rewrite ?take_nil; [done|done|by destruct n|].
  destruct n as [|n]; [simpl in *; lia|]. destruct m as [|m]; [simpl in *; lia|]. simpl in *.
  destruct (a <? b), (b <? a); try done. apply IH; lia.
Qed.

Lemma lex_sign x y : lex x y = if sign_at x y =? 0 then
  (if (length x <? length y)%nat then -1 else if (length y <? length x)%nat then 1 else 0) else sign_at x y.
Proof.
  revert y. induction x as [|a x IH]; intros [|b y]; simpl; try done. destruct (Z.ltb_spec a b); [done|].
  destruct (Z.ltb_spec b a); [done|]. rewrite IH. done.
Qed.

Lemma sign_eq x y : length x = length y -> sign_at x y = 0 <-> x = y.
Proof.
  revert y. induction x as [|a x IH]; intros [|b y]; simpl; try done. intros [= E].
  destruct (Z.ltb_spec a b); [split; [done|intros [= -> _]; lia]|].
  destruct (Z.ltb_spec b a); [split; [done|intros [= -> _]; lia]|]. rewrite IH by done. assert (a = b) as -> by lia.
  split; [by intros ->|by intros [= ->]].
Qed.

Lemma lex_refl x : lex x x = 0.
Proof. induction x as [|a x IH]; simpl; [done|]. by rewrite Z.ltb_irrefl. Qed.

Section ops.
Context {P : Type} `{!ObjPool P, !ObjPoolLaws P} (malloc_ok : nat -> bool).
Implicit Types (s : istr_pool P) (T : strings) (ds : list positive).

Lemma read_prefix (x more : list Z) n : (n <= length x)%nat -> read_at 0 (Z.of_nat n) (x ++ more) = Some (take n x).
Proof. intros Hn. rewrite read_at_Some by (rewrite ?length_app; lia). by rewrite Nat2Z.id, drop_0, take_app_le. Qed.

Lemma wp_memcmp x y mx my n s (Q : Z -> istr_pool P -> Prop) : n = Nat.min (length x) (length y) ->
  Q (sign_at x y) s -> wp (memcmp (x ++ mx) (y ++ my) (Z.of_nat n)) s Q.
Proof.
  intros -> HQ. unfold memcmp. rewrite !read_prefix by lia. wp_bind. apply wp_ret. wp_bind. apply wp_ret, wp_ret.
  by rewrite sign_take by lia.
Qed.

(** ** Reading *)
Lemma wp_text s T d r bs (Q : list Z -> istr_pool P -> Prop) : pool_ok s T -> T !! d = Some (r, bs) ->
  (forall more, Q (bs ++ 0 :: more) s) -> wp (istr_text d) s Q.
Proof.
  intros [ds H] Hd HQ. destruct (pi_string _ _ _ _ _ _ H Hd) as (x & Hx & _ & Hs).
  destruct (chars_string _ x bs (pi_text _ _ _ H) Hs) as [more Hm]. unfold istr_text. wp_bind.
  apply (wp_get_desc _ x); [done|]. wp_bind. apply wp_get. eapply wp_need; [exact Hm|]. apply HQ.
Qed.

Lemma pool_desc s T d r bs : pool_ok s T -> T !! d = Some (r, bs) ->
  exists x, mem s !! d = Some x /\ refcnt x = r /\ len x = Z.of_nat (length bs) /\ Z.of_nat (length bs) < 2 ^ 31.
Proof.
  intros [ds H] Hd. destruct (pi_string _ _ _ _ _ _ H Hd) as (x & Hx & Hr & Hs).
  pose proof (string_bounds _ _ _ (pi_text _ _ _ H) Hs) as (_ & _ & Hb). pose proof (pi_small _ _ _ H).
  destruct Hs as (? & ? & _ & ? & Hl). exists x. split_and!; [done|done|done|lia].
Qed.

Lemma wp_length s T d r bs (Q : Z -> istr_pool P -> Prop) : pool_ok s T -> T !! d = Some (r, bs) ->
  Q (Z.of_nat (length bs)) s -> wp (istr_length d) s Q.
Proof.
  intros H Hd HQ. destruct (pool_desc _ _ _ _ _ H Hd) as (x & Hx & _ & Hl & Hb). unfold istr_length. wp_bind.
  apply (wp_get_desc _ x); [done|]. apply wp_ret. rewrite Hl. unfold u32. by rewrite Z.mod_small by lia.
Qed.

Lemma wp_equal s T a b ra rb x y : pool_ok s T -> T !! a = Some (ra, x) -> T !! b = Some (rb, y) ->
  wp (istr_equal a b) s (fun c s' => s' = s /\ c = if decide (x = y) then 1 else 0).
Proof.
  intros H Ha Hb. destruct (pool_desc _ _ _ _ _ H Ha) as (xa & Hxa & _ & Hla & _), (pool_desc _ _ _ _ _ H Hb) as (xb & Hxb & _ & Hlb & _).
  unfold istr_equal. wp_bind. apply (wp_get_desc _ xa); [done|]. wp_bind. apply (wp_get_desc _ xb); [done|]. rewrite Hla, Hlb.
  destruct (Z.eqb_spec (Z.of_nat (length x)) (Z.of_nat (length y))) as [E|Hne]; cbn [negb].
  - wp_bind. eapply wp_text; [done|exact Ha|]. intros ma. wp_bind. eapply wp_text; [done|exact Hb|]. intros mb.
    wp_bind. apply (wp_memcmp x y _ _ (length x)); [lia|]. apply wp_ret. split; [done|].
    pose proof (sign_eq x y ltac:(lia)) as He. destruct (Z.eqb_spec (sign_at x y) 0), (decide (x = y)); tauto.
  - apply wp_ret. split; [done|]. rewrite decide_False; [done|]. by intros ->.
Qed.

Lemma wp_compare s T a b ra rb x y : pool_ok s T -> T !! a = Some (ra, x) -> T !! b = Some (rb, y) ->
  wp (istr_compare a b) s (fun c s' => s' = s /\ c = lex x y).
Proof.
  intros H Ha Hb. destruct (pool_desc _ _ _ _ _ H Ha) as (xa & Hxa & _ & Hla & Hsa), (pool_desc _ _ _ _ _ H Hb) as (xb & Hxb & _ & Hlb & Hsb).
  unfold istr_compare. wp_bind. eapply wp_text; [done|exact Ha|]. intros ma. wp_bind. eapply wp_text; [done|exact Hb|]. intros mb.
  wp_bind. eapply wp_length; [done|exact Ha|]. wp_bind. eapply wp_length; [done|exact Hb|]. cbv zeta.
  rewrite !i32_id by lia. wp_bind. apply (wp_get_desc _ xa); [done|]. wp_bind. apply (wp_get_desc _ xb); [done|].
  rewrite lex_sign. destruct (Z.eqb_spec (offset xa) (offset xb)) as [Eo|_].
  - apply wp_ret. split; [done|]. destruct (decide (a = b)) as [->|Hne].
    + rewrite Ha in Hb. injection Hb as <- <-. rewrite <- lex_sign. by rewrite lex_refl.
    + destruct H as [ds H]. by destruct (pi_apart _ _ _ H a b xa xb Hne Hxa Hxb).
  - destruct (Z.ltb_spec (Z.of_nat (length x)) (Z.of_nat (length y))); [|destruct (Z.ltb_spec (Z.of_nat (length y)) (Z.of_nat (length x)))].
    + wp_bind. apply wp_memcmp; [lia|]. apply wp_ret. split; [done|]. by rewrite (proj2 (Nat.ltb_lt _ _)) by lia.
    + wp_bind. apply wp_memcmp; [lia|]. apply wp_ret. split; [done|].
      by rewrite (proj2 (Nat.ltb_ge _ _)), (proj2 (Nat.ltb_lt _ _)) by lia.
    + apply wp_memcmp; [lia|]. split; [done|]. rewrite !(proj2 (Nat.ltb_ge _ _)) by lia.
      by destruct (Z.eqb_spec (sign_at x y) 0) as [->|].
Qed.

(** ** References *)
Lemma wp_refcnt s T d r bs u : pool_ok s T -> T !! d = Some (r, bs) ->
  wp (upd_desc d (fun x => set_refcnt (u (refcnt x)) x)) s (fun _ s' => pool_ok s' (<[d := (u r, bs)]> T)).
Proof.
  intros [ds [H1 H2 H3 H4 H5 H6 H7 H8 H9 H10 H11]] Hd. assert (exists x, mem s !! d = Some x /\ refcnt x = r /\ string_at (text_ s) x bs) as (x & Hx & Hr & Hs).
  { specialize (H9 d). rewrite Hd in H9. unfold desc_for in H9. destruct (mem s !! d); [|done]. eauto. }
  apply (wp_upd_desc _ _ x); [done|]. exists ds.
  assert (dom (<[d := (u r, bs)]> T) = dom T) as Ed by (rewrite dom_insert_L; apply elem_of_dom_2 in Hd; set_solver).
  split; cbn; rewrite ?Ed; try done.
  - by rewrite (next_insert _ _ x).
  - intros e. destruct (decide (e = d)) as [->|Hne]; [|rewrite !lookup_insert_ne by done; apply H9].
    rewrite !lookup_insert_eq. split; [by rewrite <- Hr|]. by eapply string_at_same.
  - rewrite (total_ext T); [done|]. intros e _. unfold extent. destruct (decide (e = d)) as [->|Hne].
    + by rewrite lookup_insert_eq, Hd.
    + by rewrite lookup_insert_ne.
  - intros d1 d2 x1 x2 Hne. rewrite !lookup_insert_Some.
    intros [[<- <-]|[_ Hx1]] [[E <-]|[_ Hx2]]; [congruence|by apply (H11 d d2 x x2)|subst; by apply (H11 d1 d2 x1 x)|by apply (H11 d1 d2)].
Qed.

(** ** Allocation *)

(** Text is added: a part of a string, or all of it, which no descriptor has yet. *)
Lemma inv_more s ds T U p b h more : pool_inv s ds T -> U = dom T -> o_use U p -> strbuf_ok b ->
  contents b = contents (text_ s) ++ more -> length_ b < 2 ^ 31 -> (owned b <= alive h)%nat ->
  pool_ok (with_text_ b h (with_descs p s)) T.
Proof.
  intros H -> Hp Ho E Hl Ha. exists ds. destruct (inv_text s ds T b h more H Ho E Hl Ha). by split.
Qed.

(** ... and then its descriptor. *)
Lemma inv_add s ds T d bs b h p x : pool_inv s ds T -> d ∉ dom T -> o_use ({[d]} ∪ dom T) p -> strbuf_ok b ->
  contents b = contents (text_ s) ++ (Some <$> (bs ++ [0])) -> length_ b < 2 ^ 31 -> (owned b <= alive h)%nat ->
  x = mk_desc (all s) (length_ (text_ s)) (Z.of_nat (length bs)) 1 ->
  pool_inv (mk_pool b h p (<[d := x]> (mem s)) (Some d) (desc_count s + 1) (gc_threshold s)) (d :: ds) (<[d := (1, bs)]> T).
Proof.
  intros H Hd Hp Ho E Hl Ha ->. destruct (inv_text s ds T b h _ H Ho E Hl Ha) as [H1 H2 H3 _ H5 H6 H7 H8 H9 H10 H11].
  cbn in *. assert (T !! d = None) as HdT by by apply not_elem_of_dom.
  assert (mem s !! d = None) as Hdm.
  { specialize (H9 d). rewrite HdT in H9. unfold desc_for in H9. by destruct (mem s !! d). }
  assert (d ∉ ds) as Hds by (rewrite H7 in Hd; by rewrite elem_of_list_to_set in Hd).
  assert (forall e x, mem s !! e = Some x -> offset x <> length_ (text_ s)) as Hoff.
  { intros e x Hx. pose proof (pi_desc _ _ _ H e) as He. rewrite Hx in He. unfold desc_for in He.
    destruct (T !! e) as [[r bs']|]; [|done]. destruct He as [_ He]. apply string_bounds in He; [|apply (pi_text _ _ _ H)]. lia. }
  assert (dom (<[d := (1, bs)]> T) = {[d]} ∪ dom T) as Ed by apply dom_insert_L.
  split; cbn [text_ heap_ descs mem all desc_count]; rewrite ?Ed; try done.
  - by apply NoDup_cons.
  - split; [done|]. exists (all s). split; [by rewrite lookup_fmap, lookup_insert_eq|]. by apply chain_relink.
  - by rewrite H7.
  - rewrite H8. simpl. lia.
  - intros e. destruct (decide (e = d)) as [->|Hne]; [|rewrite !lookup_insert_ne by done; apply H9].
    rewrite !lookup_insert_eq. split; [done|]. by apply (string_at_end (text_ s)); [apply (pi_text _ _ _ H)|..].
  - rewrite total_cons, (total_ext T).
    + unfold extent at 1. rewrite lookup_insert_eq. pose proof (pi_total _ _ _ H). pose proof (contents_length b Ho) as Hb.
      rewrite E, length_app, length_fmap, length_app in Hb. pose proof (contents_length _ (pi_text _ _ _ H)). simpl in *. lia.
    + intros e He. unfold extent. rewrite lookup_insert_ne; [done|]. by intros ->.
  - intros d1 d2 x1 x2 Hne. rewrite !lookup_insert_Some.
    intros [[<- <-]|[_ Hx1]] [[E2 <-]|[_ Hx2]]; [congruence|cbn; intros E2; by eapply (Hoff d2)|cbn; by eapply (Hoff d1)|by apply (H11 d1 d2)].
Qed.

(** What an allocation of [bs] leaves; the collector runs when there are many
    descriptors. *)
Definition allocated s T bs (r : option positive) (s' : istr_pool P) : Prop :=
  match r with
  | None => pool_ok s' T
  | Some d => T !! d = None /\
      if gc_threshold s <=? Z.of_nat (size T) + 1
      then pool_ok s' (kept (<[d := (1, bs)]> T)) \/ oom_after malloc_ok s
      else pool_ok s' (<[d := (1, bs)]> T)
  end.

Lemma wp_threshold s T : pool_ok s T -> wp (
  modify (fun s => with_threshold (u32 (desc_count s * 4)) s);;
  s ← get;
  when (gc_threshold s <? 128) (modify (with_threshold 128))) s (fun _ s' => pool_ok s' T).
Proof.
  intros [ds []]. wp_bind. apply wp_modify. wp_bind. apply wp_get.
  destruct (gc_threshold _ <? 128); [apply wp_modify|apply wp_ret]; exists ds; by split.
Qed.

(** The last part of [istr_pool_alloc], with the string in place. *)
Lemma wp_collect s ds T (d : positive) : pool_inv s ds T ->
  wp (s ← get;
      (if gc_threshold s <=? desc_count s then
         _ ← istr_pool_gc malloc_ok;
         modify (fun s => with_threshold (u32 (desc_count s * 4)) s);;
         s ← get;
         when (gc_threshold s <? 128) (modify (with_threshold 128))
       else ret tt);;
      ret (Some d)) s (fun r s' => r = Some d /\
    if gc_threshold s <=? desc_count s then pool_ok s' (kept T) \/ oom_after malloc_ok s else pool_ok s' T).
Proof.
  intros H. wp_bind. apply wp_get. destruct (gc_threshold s <=? desc_count s).
  - wp_bind. wp_bind. eapply wp_mono; [by apply (wp_gc malloc_ok s ds T)|]. intros rc s1 (_ & Hr).
    assert (pool_ok s1 (kept T) \/ oom_after malloc_ok s) as [Hk|Hk] by naive_solver.
    + eapply wp_mono; [by apply wp_threshold|]. intros [] s2 H2. apply wp_ret. auto.
    + wp_bind. apply wp_modify. wp_bind. apply wp_get.
      destruct (gc_threshold _ <? 128); [apply wp_modify|apply wp_ret]; apply wp_ret; auto.
  - wp_bind. apply wp_ret, wp_ret. split; [done|]. by exists ds.
Qed.

(** What the code passes as a length, and the string that is meant. *)
Definition source (src : list Z) (n : Z) (bs : list Z) : Prop :=
  0 <= n /\ read_at 0 n src = Some bs /\ n = Z.of_nat (length bs) \/ n < 0 /\ holds src bs.

Lemma wp_source src n bs s : source src n bs -> Z.of_nat (length bs) < 2 ^ 31 ->
  wp (if n <? 0 then m ← need (strlen src); ret (i32 m) else ret n) s (fun m s' =>
    s' = s /\ m = Z.of_nat (length bs) /\ read_at 0 m src = Some bs).
Proof.
  intros [(? & Hr & ->)|[? Hh]] Hb.
  - rewrite (proj2 (Z.ltb_ge _ _)) by done. by apply wp_ret.
  - rewrite (proj2 (Z.ltb_lt _ _)) by done. rewrite (strlen_holds _ _ Hh). wp_bind. apply wp_ret, wp_ret.
    rewrite i32_id by lia. split; [done|]. split; [done|]. destruct Hh as (rest & -> & _). by rewrite read_prefix, take_ge.
Qed.

(** A string and its terminator, or a part of them, are added to the text. *)
Lemma wp_add_terminated {A} s src bs (k : bool -> M (istr_pool P) A) Q : strbuf_ok (text_ s) ->
  (owned (text_ s) <= alive (heap_ s))%nat -> length_ (text_ s) + Z.of_nat (length bs) + 1 < 2 ^ 31 ->
  read_at 0 (Z.of_nat (length bs)) src = Some bs ->
  (forall b h more failed, strbuf_ok b -> contents b = contents (text_ s) ++ more -> length_ b < 2 ^ 31 ->
     (owned b <= alive h)%nat -> (calls (heap_ s) <= calls h)%nat ->
     (failed = false -> more = Some <$> (bs ++ [0])) -> wp (k failed) (with_text_ b h s) Q) ->
  wp (rc ← on_text (strbuf_add_string malloc_ok src (Z.of_nat (length bs)));
      failed ← (if rc <? 0 then ret true
                else rc ← on_text (strbuf_add_char malloc_ok 0); ret (rc <? 0));
      k failed) s Q.
Proof.
  intros Ho Hal Hlen Hr HQ. pose proof (length_nonneg _ Ho) as Hl0. pose proof (contents_length _ Ho) as Hcl.
  wp_bind. apply wp_on_text. eapply wp_mono;
    [apply wp_grows; [apply grows_add|apply (wp_add_string malloc_ok (text_ s) (heap_ s) src _ bs); [done|lia|lia|]]|].
  { left. split; [lia|done]. }
  intros rc [b1 h1] [[Ha1 Hap1] Hc1]. cbn [fst snd] in *. destruct Hap1 as [(-> & [Ho1 _] & E1 & _)|(-> & -> & _)].
  2: { change (-1 <? 0) with true. cbv iota. wp_bind. apply wp_ret. apply (HQ _ _ []); [done|by rewrite app_nil_r|lia|lia|lia|done]. }
  assert (length_ b1 = length_ (text_ s) + Z.of_nat (length bs)) as L1.
  { rewrite <- (contents_length b1 Ho1), E1, length_app, length_fmap. lia. }
  rewrite (proj2 (Z.ltb_ge _ _)) by lia. wp_bind. wp_bind. apply wp_on_text. cbn [text_ heap_ with_text_].
  unfold strbuf_add_char. change (u8 0) with 0.
  eapply wp_mono; [apply wp_grows; [apply grows_add|apply (wp_add_string malloc_ok b1 h1 [0] 1 [0]); [done|lia|simpl; lia|by left]]|].
  intros rc [b2 h2] [[Ha2 Hap2] Hc2]. cbn [fst snd] in *.
  destruct Hap2 as [(-> & [Ho2 _] & E2 & _)|(-> & -> & _)]; apply wp_ret.
  - change (Z.of_nat (length [0]) <? 0) with false.
    assert (contents b2 = contents (text_ s) ++ (Some <$> (bs ++ [0]))) as E by by rewrite E2, E1, fmap_app, (assoc_L (++)).
    apply (HQ b2 h2 (Some <$> (bs ++ [0]))); [done|done| |lia|lia|done].
    rewrite <- (contents_length b2 Ho2), E, length_app, length_fmap, length_app. simpl. lia.
  - apply (HQ b1 h2 (Some <$> bs)); [done|done|lia|lia|lia|done].
Qed.

(** A descriptor is taken back; what was added to the text stays. *)
Lemma wp_undo s ds T d p x b h more (Q : option positive -> istr_pool P -> Prop) : pool_inv s ds T -> d ∉ dom T ->
  o_use ({[d]} ∪ dom T) p -> mem s !! d = None -> strbuf_ok b -> contents b = contents (text_ s) ++ more ->
  length_ b < 2 ^ 31 -> (owned b <= alive h)%nat -> (forall s', pool_ok s' T -> Q None s') ->
  wp (free_desc d;; ret None) (with_text_ b h (with_mem (<[d := x]> (mem s)) (with_descs p s))) Q.
Proof.
  intros H Hd Hp Hdm Hb E Hlb Ha HQ. wp_bind. eapply wp_free_desc; [exact Hp|set_solver|]. intros p' Hp'. apply wp_ret, HQ.
  replace (with_mem _ _) with (with_text_ b h (with_descs p' s)).
  - apply (inv_more s ds T (({[d]} ∪ dom T) ∖ {[d]}) p' _ _ more); [done|set_solver|done..].
  - unfold with_mem, with_text_, with_descs. cbn. by rewrite delete_insert_id.
Qed.

Lemma wp_pool_alloc s T src n bs : pool_ok s T -> source src n bs ->
  length_ (text_ s) + Z.of_nat (length bs) + 1 < 2 ^ 31 ->
  wp (istr_pool_alloc malloc_ok src n) s (allocated s T bs).
Proof.
  intros [ds H] Hsrc Hlen. pose proof (pi_text _ _ _ H) as Ho. pose proof (length_nonneg _ Ho) as Hl0. unfold istr_pool_alloc.
  wp_bind. eapply wp_mono; [apply wp_source; [done|lia]|]. intros m s' (-> & -> & Hr).
  wp_bind. apply wp_on_descs. eapply wp_mono; [by apply ob_alloc, (pi_use _ _ _ H)|].
  intros [d|] p Hp; [destruct Hp as [Hd Hp]|].
  2: { apply wp_ret. replace (with_descs p s) with (with_text_ (text_ s) (heap_ s) (with_descs p s)) by by destruct s.
       apply (inv_more s ds T (dom T) p _ _ []); [done|done|done|done|by rewrite app_nil_r|lia|apply (pi_alive _ _ _ H)]. }
  assert (T !! d = None) as HdT by by apply not_elem_of_dom.
  assert (mem s !! d = None) as Hdm.
  { pose proof (pi_desc _ _ _ H d) as He. rewrite HdT in He. unfold desc_for in He. by destruct (mem s !! d). }
  wp_bind. apply wp_get. wp_bind. apply wp_modify. cbn [text_ mem with_descs].
  set (x := mk_desc None (length_ (text_ s)) (u64 (Z.of_nat (length bs))) 1).
  apply wp_add_terminated; [done|apply (pi_alive _ _ _ H)|done|done|]. cbn [text_ heap_ with_mem with_descs].
  intros b h more failed Hb E Hlb Ha Hc Hf. destruct failed; [by eapply (wp_undo s ds T d p x b h more)|].
  specialize (Hf eq_refl) as ->.
  assert (desc_count s = Z.of_nat (size T)) as Hsz.
  { rewrite (pi_count _ _ _ H), <- size_dom, (pi_dom _ _ _ H), size_list_to_set; [done|apply (pi_nodup _ _ _ H)]. }
  assert (u32 (desc_count s + 1) = desc_count s + 1) as Hu.
  { pose proof (total_length T ds (pi_dom _ _ _ H)). pose proof (pi_total _ _ _ H). rewrite (pi_count _ _ _ H). unfold u32.
    rewrite Z.mod_small; lia. }
  wp_bind. apply wp_modify. cbn [desc_count with_text_ with_mem with_descs]. rewrite Hu.
  wp_bind. apply wp_get. wp_bind. apply (wp_upd_desc _ _ x); [cbn; by rewrite lookup_insert_eq|]. wp_bind. apply wp_modify.
  cbn [mem with_count with_text_ with_mem with_all with_descs all]. rewrite insert_insert_eq.
  eapply wp_mono; [apply (wp_collect _ (d :: ds) (<[d := (1, bs)]> T))|].
  - apply (inv_add s ds T d bs b h p); [done..|]. unfold set_next, x. cbn. f_equal. unfold u64. by rewrite Z.mod_small by lia.
  - cbn [gc_threshold desc_count with_all with_mem with_count with_text_ with_descs]. rewrite Hsz.
    intros r s3 [-> Hg]. split; [done|]. destruct (_ <=? _); [|done]. destruct Hg as [Hg|Hg]; [by left|right].
    revert Hg. by apply oom_le.
Qed.

(** ** Creation and destruction *)
Lemma wp_pool_init s : o_raw (descs s) -> mem s = ∅ -> wp istr_pool_init s (fun _ s' => pool_ok s' ∅ /\ heap_ s' = heap_ s).
Proof.
  intros Hr Hm. unfold istr_pool_init. wp_bind. apply wp_on_text, wp_set_buf. wp_bind. apply wp_on_descs.
  eapply wp_mono; [apply ob_init; [by unfold sizeof_istr_desc; lia|exact Hr]|]. intros [] p Hp.
  wp_bind. apply wp_modify. wp_bind. apply wp_modify. apply wp_modify. split; [|done]. exists [].
  split; cbn; rewrite ?Hm; try done; [lia|by apply NoDup_nil_2].
Qed.

Lemma wp_pool_destroy s T : pool_ok s T -> wp istr_pool_destroy s (fun _ s' => o_use ∅ (descs s') /\
  text (text_ s') = Null /\ (alive (heap_ s') + owned (text_ s) = alive (heap_ s))%nat).
Proof.
  intros [ds H]. unfold istr_pool_destroy. wp_bind. apply wp_on_text. apply wp_clear; [apply (pi_text _ _ _ H)|apply (pi_alive _ _ _ H)|].
  intros h Hh. wp_bind. apply wp_on_descs. eapply wp_mono; [apply (ob_free_all (dom T)), (pi_use _ _ _ H)|].
  intros [] p Hp. by apply wp_modify.
Qed.
End ops.

(** * Properties *)
Section properties.
Context {P : Type} `{!ObjPool P, !ObjPoolLaws P} (malloc_ok : nat -> bool).

(** C29. A string pool refines a map [T] from references to strings with their
    reference counts.  [istr_pool_init] makes an empty one.  [istr_pool_alloc] adds a
    string with one reference, or returns NULL and leaves the strings as they are;
    when there are too many descriptors it runs the collector.  [istr_pool_gc], also
    when allocation runs it, drops exactly the strings without references and leaves
    the others as they are, provided that every allocation from then on succeeds:
    when one fails and the collector does not return -1, it has stayed in bounds but
    nothing is claimed of the strings, which the code can then lose
    ([collect_loses]).  [istr_ref] and [istr_unref] count; [istr_text] is the string and a
    NUL, [istr_length] its length; [istr_equal] tells equal strings, and
    [istr_compare] orders them by bytes, a prefix first.  [istr_pool_destroy] gives
    all back.  All this holds while the text, with that of the strings that are gone
    but not collected, is shorter than 2^31 bytes. *)
Theorem istr_pool_refines (s : istr_pool P) (T : strings) :
  (o_raw (descs s) -> mem s = ∅ -> wp istr_pool_init s (fun _ s' => pool_ok s' ∅ /\ heap_ s' = heap_ s)) /\
  (pool_ok s T ->
   (forall src n bs, source src n bs -> length_ (text_ s) + Z.of_nat (length bs) + 1 < 2 ^ 31 ->
      wp (istr_pool_alloc malloc_ok src n) s (allocated malloc_ok s T bs)) /\
   wp (istr_pool_gc malloc_ok) s (fun rc s' =>
     rc = 0 /\ (pool_ok s' (kept T) \/ oom_after malloc_ok s) \/ rc = -1 /\ pool_ok s' (kept T) /\ oom_after malloc_ok s) /\
   (forall d r bs, T !! d = Some (r, bs) ->
      wp (istr_ref d) s (fun _ s' => pool_ok s' (<[d := (u32 (r + 1), bs)]> T)) /\
      wp (istr_unref d) s (fun _ s' => pool_ok s' (<[d := (u32 (r - 1), bs)]> T)) /\
      wp (istr_text d) s (fun t s' => s' = s /\ exists more, t = bs ++ 0 :: more) /\
      wp (istr_length d) s (fun n s' => s' = s /\ n = Z.of_nat (length bs)) /\
      forall e r' bs', T !! e = Some (r', bs') ->
        wp (istr_equal d e) s (fun c s' => s' = s /\ c = if decide (bs = bs') then 1 else 0) /\
        wp (istr_compare d e) s (fun c s' => s' = s /\ c = lex bs bs')) /\
   wp istr_pool_destroy s (fun _ s' => o_use ∅ (descs s') /\ text (text_ s') = Null /\
     (alive (heap_ s') + owned (text_ s) = alive (heap_ s))%nat)).
Proof.
  split; [apply wp_pool_init|]. intros H. split; [by intros; apply wp_pool_alloc|]. split; [|split; [|by eapply wp_pool_destroy]].
  - destruct H as [ds H]. eapply wp_mono; [by apply (wp_gc malloc_ok s ds T)|]. by intros rc s' [_ ?].
  - intros d r bs Hd. split_and!.
    + by apply (wp_refcnt s T d r bs (fun r => u32 (r + 1))).
    + by apply (wp_refcnt s T d r bs (fun r => u32 (r - 1))).
    + eapply wp_text; [done|done|]. intros more. split; [done|]. by exists more.
    + by eapply wp_length.
    + intros e r' bs' He. split; [by eapply wp_equal|by eapply wp_compare].
Qed.
End properties.

(** * Examples *)

(** A pool on a slab allocator. *)
Lemma ex_apart b1 n1 b2 n2 : ({[ 64%positive := Slab.sizeof_slab ]} : gmap positive Z) !! b1 = Some n1 ->
  ({[ 64%positive := Slab.sizeof_slab ]} : gmap positive Z) !! b2 = Some n2 -> b1 <> b2 ->
  Z.pos b1 + n1 <= Z.pos b2 \/ Z.pos b2 + n2 <= Z.pos b1.
Proof. by intros [<- <-]%lookup_singleton_Some [<- <-]%lookup_singleton_Some. Qed.
#[local] Instance ex_place : SlabPlace := {
  self := 64;
  others := {[ 64%positive := Slab.sizeof_slab ]};
  malloc_at := SlabMain.bump;
  place_malloc := SlabMain.bump_spec;
  place_self := lookup_singleton_eq _ _;
  place_apart := ex_apart;
}.

Definition ex_pool : istr_pool Slab.st := mk_pool (mk_strbuf Null 0 0 0) (mk_heap 0 0) SlabMain.ex_slab ∅ None 0 0.
Definition ex_string : list Z := [104; 105; 0].

Lemma istr_pool_refines_witness :
  wp (istr_pool_init;; istr_pool_alloc ok_mem ex_string (-1)) ex_pool (fun r s' =>
    match r with Some d => pool_ok s' {[ d := (1, [104; 105]) ]} | None => pool_ok s' ∅ end).
Proof.
  destruct (istr_pool_refines ok_mem ex_pool ∅) as [Hi _]. specialize (Hi eq_refl eq_refl).
  assert (match istr_pool_init ex_pool with Ok (s, _) => length_ (text_ s) = 0 /\ gc_threshold s = 128 | _ => True end) as Hl
    by (split; reflexivity).
  apply wp_bind. unfold wp at 1 in Hi. unfold wp at 1. destruct (istr_pool_init ex_pool) as [[s1 []]| |]; [|done|done].
  destruct Hi as [H1 _], Hl as [Hl Hg]. destruct (istr_pool_refines ok_mem s1 ∅) as [_ Ho].
  destruct (Ho H1) as [Ha _]. eapply wp_mono; [apply (Ha ex_string (-1) [104; 105])|].
  - right. split; [lia|]. exists []. split; [done|]. by repeat constructor.
  - rewrite Hl. simpl. lia.
  - intros [d|] s2; [|done]. unfold allocated. rewrite Hg, map_size_empty. intros [_ H2]. exact H2.
Defined.

(** Objects at successive addresses. *)
#[local] Instance ex_objects : ObjPool positive := {
  o_init _ := ret tt;
  o_alloc := n ← get; put (n + 1)%positive;; ret (Some n);
  o_free _ := ret tt;
  o_free_all := ret tt;
}.
Definition ex_counted : istr_pool positive := mk_pool (mk_strbuf Null 0 0 0) (mk_heap 0 0) 1%positive ∅ None 0 0.

(** Two strings, one of them long and without references; the collector then gets
    memory for all the text at its first call, and for less at its second, to which
    [realloc] need not agree. *)
Definition ex_collect (malloc_ok : nat -> bool) : M (istr_pool positive) (Z * list Z) :=
  istr_pool_init;;
  a ← istr_pool_alloc malloc_ok ex_string 2;
  b ← istr_pool_alloc malloc_ok (replicate 40 65) 40;
  a ← need a;
  b ← need b;
  istr_unref b;;
  rc ← istr_pool_gc malloc_ok;
  t ← istr_text a;
  ret (rc, t).
Definition result {S A} (r : res (S * A)) : option A := match r with Ok (_, a) => Some a | _ => None end.

Example collect_keeps : result (ex_collect ok_mem ex_counted) = Some (0, [104; 105; 0; 0]).
Proof. by vm_compute. Qed.

(** When it does not, the collector reports success, but the text is gone: the
    result of [strbuf_add_string] is not looked at. *)
Example collect_loses : result (ex_collect (fun k => negb (Nat.eqb k 3)) ex_counted) = Some (0, []).
Proof. by vm_compute. Qed.
