(* ===== verification/Adns.v ===== *)
(** Model of src/io/adns.h and src/io/adns.c: host names looked up by a thread of
    their own, with answers by callback.

    A request is at one address with its task and its list node, the first for the
    run queue of [Runq], the second for the list of [Lists].  getaddrinfo(3) is a
    class; its answers have addresses, and freeing what is not allocated is an
    error.  The lock makes each critical section one operation: a function that goes
    on after it returns what that part needs. *)
From S2P Require Import Prelude Lists Thr Runq.

Definition RESOLVER_QUIT : Z := 1.
Definition REQUEST_BUSY : Z := 1.

(** getaddrinfo(3), for a host, a service and hints: an error and an answer; and
    freeaddrinfo(3). *)
Class Lookups (O : Type) := {
  infos : O -> gset positive;
  sys_getaddrinfo : option (list Z) -> option (list Z) -> option Z -> O -> O * (Z * option positive);
  sys_freeaddrinfo : positive -> O -> O;
}.
(** A call that fails stores no answer. *)
Class LookupsLaws (O : Type) `{Lookups O} := {
  lookup_infos a b k o o' e i : sys_getaddrinfo a b k o = (o', (e, i)) ->
    match i with Some i => i ∉ infos o /\ infos o' = {[i]} ∪ infos o | None => infos o' = infos o end;
  free_infos i o : infos (sys_freeaddrinfo i o) = infos o ∖ {[i]};
}.

(** Its task is in the run queue.  Names are the characters from the pointer to the end of their area; hints are
    what [struct addrinfo] holds. *)
Record adns_request := mk_req {
  flags : Z;
  hostname : option (list Z);
  service : option (list Z);
  hints : option Z;
  result : option positive;
  error : Z;
}.
Record work_req := mk_work {
  source : positive;
  host : option (list Z);
  service_ : option (list Z);
  hints_ : option Z;
}.

Definition set_flags v x := mk_req v (hostname x) (service x) (hints x) (result x) (error x).
Definition set_result v x := mk_req (flags x) (hostname x) (service x) (hints x) v (error x).
Definition set_error v x := mk_req (flags x) (hostname x) (service x) (hints x) (result x) v.

(** [strncpy] into a buffer of [n] bytes: the characters up to the terminator, then
    zeros. *)
Fixpoint strncpy (n : nat) (src : list Z) : option (list Z) :=
  match n with
  | O => Some []
  | Datatypes.S m =>
      match src with
      | [] => None
      | c :: src => if c =? 0 then Some (replicate n 0) else option_map (cons c) (strncpy m src)
      end
  end.

Section adns.
Context {O : Type} `{!Lookups O} (head : positive).

Record adns_resolver := mk_resolver {
  r_flags : Z;
  notify : event;
  requests : DList.store;
  reqs : gmap positive adns_request;
  rq : runq;
  os : O;
}.

Definition with_r_flags v s := mk_resolver v (notify s) (requests s) (reqs s) (rq s) (os s).
Definition with_notify v s := mk_resolver (r_flags s) v (requests s) (reqs s) (rq s) (os s).
Definition with_requests v s := mk_resolver (r_flags s) (notify s) v (reqs s) (rq s) (os s).
Definition with_reqs v s := mk_resolver (r_flags s) (notify s) (requests s) v (rq s) (os s).
Definition with_rq v s := mk_resolver (r_flags s) (notify s) (requests s) (reqs s) v (os s).
Definition with_os v s := mk_resolver (r_flags s) (notify s) (requests s) (reqs s) (rq s) v.

Definition on_list {A} (m : M DList.store A) : M adns_resolver A := fun s =>
  match m (requests s) with
  | Ok (l, a) => Ok (with_requests l s, a)
  | Crash => Crash
  | NoFuel => NoFuel
  end.
Definition on_rq {A} (m : M runq A) : M adns_resolver A := fun s =>
  match m (rq s) with
  | Ok (r, a) => Ok (with_rq r s, a)
  | Crash => Crash
  | NoFuel => NoFuel
  end.

Definition get_req (q : positive) : M adns_resolver adns_request := s ← get; need (reqs s !! q).
Definition put_req (q : positive) (x : adns_request) : M adns_resolver unit :=
  modify (fun s => with_reqs (<[q := x]> (reqs s)) s).
Definition upd_req (q : positive) (u : adns_request -> adns_request) : M adns_resolver unit :=
  x ← get_req q; put_req q (u x).

(** The task of [q]: its function, and its node. *)
Definition set_func (q : positive) (f : Z) : M adns_resolver unit := on_rq (set_task_func q f).
Definition clear_node (q : positive) : M adns_resolver unit := on_rq (clear_task_node q).

(** Nothing for NULL. *)
Definition freeaddrinfo (i : option positive) : M adns_resolver unit :=
  match i with
  | None => ret tt
  | Some i => s ← get; if decide (i ∈ infos (os s)) then put (with_os (sys_freeaddrinfo i (os s)) s) else crash
  end.

(** ** The worker *)

(** A name is copied to a buffer of 128 bytes, whose last one is then cleared. *)
Definition copy_name (src : option (list Z)) : M adns_resolver (option (list Z)) :=
  match src with
  | None => ret None
  | Some src => buf ← need (strncpy 128 src); ret (Some (<[127%nat := 0]> buf))
  end.

Definition peek_request : M adns_resolver (Z * option work_req) :=
  s ← get;
  if truth (Z.land (r_flags s) RESOLVER_QUIT) then ret (-1, None)
  else
    e ← on_list (DList.list_is_empty (Some head));
    if (e : bool) then ret (0, None)
    else
      n ← on_list (DList.ld (Some head));
      q ← need (DList.next n);
      x ← get_req q;
      host ← copy_name (hostname x);
      service ← copy_name (service x);
      ret (1, Some (mk_work q host service (hints x))).

Definition getaddrinfo (w : work_req) : M adns_resolver (Z * option positive) :=
  s ← get;
  let '(o, r) := sys_getaddrinfo (host w) (service_ w) (hints_ w) (os s) in
  put (with_os o s);; ret r.

(** [fulfill_request]: its critical section, which may find that the request is no
    longer the first; what follows if it was; and the last call. *)
Definition fulfill_lock (q : positive) (info : option positive) : M adns_resolver bool :=
  n ← on_list (DList.ld (Some head));
  if decide (DList.next n = Some q)
  then on_list (DList.list_remove (Some q));; ret true
  else freeaddrinfo info;; ret false.
Definition fulfill_set (q : positive) (err_code : Z) (info : option positive) : M adns_resolver unit :=
  upd_req q (set_flags 0);; upd_req q (set_error err_code);; upd_req q (set_result info).
Definition exec_task (q : positive) : M adns_resolver unit :=
  s ← get; f ← need (func (rq s) !! q); _ ← on_rq (task_exec_lock q f); ret tt.

(** ** The client's side *)

(** With what [thr_event_init] and [thr_start] return. *)
Definition adns_resolver_init (event start : Z) : M adns_resolver Z :=
  modify (with_r_flags 0);;
  on_list (DList.list_init (Some head));;
  if event <? 0 then ret (-1)
  else
    modify (with_notify thr_event_init);;
    if start <? 0 then ret (-1) else ret 0.

(** [adns_resolver_destroy] up to the event, which it then raises, before it joins the
    worker. *)
Definition quit_lock : M adns_resolver unit :=
  modify (fun s => with_r_flags (Z.lor (r_flags s) RESOLVER_QUIT) s).

Definition adns_request_init (q : positive) : M adns_resolver unit :=
  set_func q 0;;
  clear_node q;;
  on_list (modify (<[q := DList.mk_lnode None None]>));;
  put_req q (mk_req 0 None None None None 0).

Definition adns_clear_result (q : positive) : M adns_resolver unit :=
  x ← get_req q;
  match result x with
  | None => ret tt
  | Some i => freeaddrinfo (Some i);; upd_req q (set_result None)
  end.

(** The request is then gone. *)
Definition adns_request_destroy (q : positive) : M adns_resolver unit :=
  x ← get_req q;
  freeaddrinfo (result x);;
  modify (fun s => with_reqs (delete q (reqs s)) s).

(** Up to the end of the critical section: [was_empty]. *)
Definition adns_request_ask (q : positive) (hostname service : option (list Z)) (hints : option Z) (func : Z) :
    M adns_resolver bool :=
  adns_clear_result q;;
  upd_req q (fun x => mk_req REQUEST_BUSY hostname service hints (result x) (error x));;
  set_func q func;;
  was_empty ← on_list (DList.list_is_empty (Some head));
  on_list (DList.list_insert (Some q) (Some head));;
  ret was_empty.

(** Up to the end of the critical section: [was_busy]. *)
Definition adns_request_cancel (q : positive) : M adns_resolver bool :=
  x ← get_req q;
  if truth (Z.land (flags x) REQUEST_BUSY)
  then upd_req q (set_flags 0);; on_list (DList.list_remove (Some q));; ret true
  else ret false.

Definition adns_get_result (x : adns_request) : option positive := result x.
Definition adns_get_error (x : adns_request) : Z := error x.
End adns.
Arguments adns_resolver O : clear implicits.

(** * The resolver among its threads *)

(** The worker: about to look for a request, in [thr_event_wait], about to clear the
    event; with a request it has copied, to look up and to fulfil; and in the parts
    of [fulfill_request] after its critical section.  [n] is how many times the
    request had been made when it was copied. *)
Inductive npc :=
  | NPeek
  | NSleep
  | NClear
  | NLookup (w : work_req) (n : nat)
  | NFulfill (w : work_req) (n : nat) (err_code : Z) (info : option positive)
  | NSet (q : positive) (err_code : Z) (info : option positive)
  | NExec (q : positive)
  | NExit.

(** [adns_resolver_destroy]. *)
Inductive qpc := QNo | QRaise | QJoin | QDone.

Record threads := mk_threads {
  pc : npc;
  raising : nat;            (** [thr_event_raise]s to come, of [adns_request_ask] *)
  execing : list positive;  (** [runq_task_exec]s to come, of [adns_request_cancel] *)
  quitting : qpc;
  asked : list positive;
  called : list positive;
}.
Definition with_pc v h := mk_threads v (raising h) (execing h) (quitting h) (asked h) (called h).

Definition asked_n (h : threads) (q : positive) : nat := count_occ Pos.eq_dec (asked h) q.
Definition called_n (h : threads) (q : positive) : nat := count_occ Pos.eq_dec (called h) q.
(** The request has been answered. *)
Definition free (h : threads) (q : positive) : Prop := asked_n h q = called_n h q.

Section system.
Context {O : Type} `{!Lookups O} (head : positive).

Record nsys := mk_nsys {
  st_ : adns_resolver O;
  th : threads;
}.

(** What the worker does next. *)
Inductive worker_step : nsys -> nsys -> Prop :=
  | n_quit s h s' : pc h = NPeek -> peek_request head s = Ok (s', (-1, None)) ->
      worker_step (mk_nsys s h) (mk_nsys s' (with_pc NExit h))
  | n_empty s h s' : pc h = NPeek -> peek_request head s = Ok (s', (0, None)) ->
      worker_step (mk_nsys s h) (mk_nsys (with_notify (wait_enter (notify s')) s') (with_pc NSleep h))
  | n_peek s h s' w : pc h = NPeek -> peek_request head s = Ok (s', (1, Some w)) ->
      worker_step (mk_nsys s h) (mk_nsys s' (with_pc (NLookup w (asked_n h (source w))) h))
  | n_test s h : pc h = NSleep -> (0 < testing (notify s))%nat ->
      worker_step (mk_nsys s h) (mk_nsys (with_notify (thr_event_wait (notify s)) s)
        (with_pc (if state (notify s) then NClear else NSleep) h))
  | n_clear s h : pc h = NClear ->
      worker_step (mk_nsys s h) (mk_nsys (with_notify (thr_event_clear (notify s)) s) (with_pc NPeek h))
  | n_lookup s h w n s' e i : pc h = NLookup w n -> getaddrinfo w s = Ok (s', (e, i)) ->
      worker_step (mk_nsys s h) (mk_nsys s' (with_pc (NFulfill w n e i) h))
  | n_fulfill s h w n e i s' b : pc h = NFulfill w n e i -> fulfill_lock head (source w) i s = Ok (s', b) ->
      worker_step (mk_nsys s h) (mk_nsys s' (with_pc (if (b : bool) then NSet (source w) e i else NPeek) h))
  | n_set s h q e i s' : pc h = NSet q e i -> fulfill_set q e i s = Ok (s', tt) ->
      worker_step (mk_nsys s h) (mk_nsys s' (with_pc (NExec q) h))
  | n_exec s h q s' : pc h = NExec q -> exec_task q s = Ok (s', tt) ->
      worker_step (mk_nsys s h) (mk_nsys s' (with_pc NPeek h)).

(** What other threads that are inside the library do next. *)
Inductive library_step : nsys -> nsys -> Prop :=
  | l_worker y y' : worker_step y y' -> library_step y y'
  | l_raise s h n : raising h = Datatypes.S n ->
      library_step (mk_nsys s h) (mk_nsys (with_notify (thr_event_raise (notify s)) s)
        (mk_threads (pc h) n (execing h) (quitting h) (asked h) (called h)))
  | l_signal s h : (0 < signals (notify s))%nat ->
      library_step (mk_nsys s h) (mk_nsys (with_notify (cond_signal (notify s)) s) h)
  | l_exec s h l1 q l2 s' : execing h = l1 ++ q :: l2 -> exec_task q s = Ok (s', tt) ->
      library_step (mk_nsys s h) (mk_nsys s' (mk_threads (pc h) (raising h) (l1 ++ l2) (quitting h) (asked h) (called h)))
  | l_quit s h : quitting h = QRaise ->
      library_step (mk_nsys s h) (mk_nsys (with_notify (thr_event_raise (notify s)) s)
        (mk_threads (pc h) (raising h) (execing h) QJoin (asked h) (called h)))
  | l_join s h : quitting h = QJoin -> pc h = NExit ->
      library_step (mk_nsys s h) (mk_nsys s (mk_threads (pc h) (raising h) (execing h) QDone (asked h) (called h))).

(** A name that can be copied: it is terminated, or long enough. *)
Definition readable (src : option (list Z)) : Prop := match src with Some src => is_Some (strncpy 128 src) | None => True end.

(** Clients use a request in one thread: they ask, clear the result and destroy when
    it has been answered, and cancel, but not while the worker writes the answer;
    [adns_resolver_destroy] is called once, and nothing asked after that.  The run
    queue calls its tasks, others submit theirs, and the worker may wake
    spuriously. *)
Inductive nstep : nsys -> nsys -> Prop :=
  | s_library y y' : library_step y y' -> nstep y y'
  | s_init s h q s' : reqs s !! q = None -> free h q -> q <> head ->
      (forall J, SList.is_slist (job_list (rq s)) J -> q ∉ J) -> adns_request_init q s = Ok (s', tt) ->
      nstep (mk_nsys s h) (mk_nsys s' h)
  | s_ask s h q a b k f s' e : is_Some (reqs s !! q) -> free h q -> quitting h = QNo -> readable a -> readable b ->
      adns_request_ask head q a b k f s = Ok (s', e) ->
      nstep (mk_nsys s h) (mk_nsys s' (mk_threads (pc h) (raising h + b2n e) (execing h) (quitting h) (asked h ++ [q]) (called h)))
  | s_cancel s h q s' b : is_Some (reqs s !! q) -> quitting h <> QDone -> (forall e i, pc h <> NSet q e i) ->
      adns_request_cancel q s = Ok (s', b) ->
      nstep (mk_nsys s h) (mk_nsys s' (mk_threads (pc h) (raising h) (execing h ++ if (b : bool) then [q] else [])
        (quitting h) (asked h) (called h)))
  | s_clear s h q s' : is_Some (reqs s !! q) -> free h q -> adns_clear_result q s = Ok (s', tt) ->
      nstep (mk_nsys s h) (mk_nsys s' h)
  | s_destroy s h q s' : is_Some (reqs s !! q) -> free h q -> adns_request_destroy q s = Ok (s', tt) ->
      nstep (mk_nsys s h) (mk_nsys s' h)
  | s_quit s h s' : quitting h = QNo -> quit_lock s = Ok (s', tt) ->
      nstep (mk_nsys s h) (mk_nsys s' (mk_threads (pc h) (raising h) (execing h) QRaise (asked h) (called h)))
  | s_call s h r t : run_one (rq s) = Ok (r, (1, Some t)) ->
      nstep (mk_nsys s h) (mk_nsys (with_rq r s) (mk_threads (pc h) (raising h) (execing h) (quitting h) (asked h)
        (called h ++ if decide (is_Some (reqs s !! t)) then [t] else [])))
  | s_submit s h t f r b : reqs s !! t = None -> is_Some (SList.snodes (job_list (rq s)) !! t) ->
      (forall J, SList.is_slist (job_list (rq s)) J -> t ∉ J) -> task_exec_lock t f (rq s) = Ok (r, b) ->
      nstep (mk_nsys s h) (mk_nsys (with_rq r s) h)
  | s_spurious s h : (0 < blocked (notify s))%nat ->
      nstep (mk_nsys s h) (mk_nsys (with_notify (mk_event (state (notify s)) (Datatypes.S (testing (notify s)))
        (pred (blocked (notify s))) (signals (notify s))) s) h).

(** [adns_resolver_init], with a run queue that runs; nothing has been looked up. *)
Inductive nreach : nsys -> Prop :=
  | n_start s s' J : is_Some (requests s !! head) -> reqs s = ∅ -> SList.is_slist (job_list (rq s)) J -> infos (os s) = ∅ ->
      quit_request (rq s) = false -> adns_resolver_init head 0 0 s = Ok (s', 0) -> nreach (mk_nsys s' (mk_threads NPeek 0 [] QNo [] []))
  | n_next y y' : nreach y -> nstep y y' -> nreach y'.
End system.
Arguments nsys O : clear implicits.
