(* ===== verification/AdnsInv.v ===== *)
(** The invariant of the resolver of src/io/adns.c among its threads, and how each
    critical section keeps it. *)
From S2P Require Import Prelude Lists Thr Runq RunqMain Adns.

(** * The invariant *)

(** What the worker has: a request it answers, the one it writes, the copy of one,
    an answer. *)
Definition busy (p : npc) : list positive := match p with NSet q _ _ | NExec q => [q] | _ => [] end.
Definition setting (p : npc) : list positive := match p with NSet q _ _ => [q] | _ => [] end.
Definition work (p : npc) : option (work_req * nat) := match p with NLookup w n | NFulfill w n _ _ => Some (w, n) | _ => None end.
Definition info (p : npc) : option positive := match p with NFulfill _ _ _ i | NSet _ _ i => i | _ => None end.

(** The requests that the library has; the run queue has the rest of those that have
    not been answered. *)
Definition ours (h : threads) (L : list positive) : list positive := L ++ busy (pc h) ++ execing h.
Definition due (h : threads) (L J : list positive) : list positive := ours h L ++ J.

Record ledger (R : gmap positive adns_request) (h : threads) (L J : list positive) : Prop := {
  lg_ours q : q ∈ ours h L -> is_Some (R !! q);
  lg_count q : is_Some (R !! q) -> asked_n h q = (called_n h q + count_occ Pos.eq_dec (due h L J) q)%nat;
  lg_once q : is_Some (R !! q) -> (count_occ Pos.eq_dec (due h L J) q <= 1)%nat;
  lg_gone q : R !! q = None -> free h q;
}.

Definition req_ok (L : list positive) (p : npc) (q : positive) (x : adns_request) : Prop :=
  flags x = (if decide (q ∈ L ++ setting p) then REQUEST_BUSY else 0) /\
  (q ∈ L ++ setting p -> result x = None) /\
  (q ∈ L -> readable (hostname x) /\ readable (service x)).

(** The answers that are allocated have one owner each: a request, or the worker. *)
Definition owned_by (R : gmap positive adns_request) (p : npc) (k : option positive) : option positive :=
  match k with Some q => R !! q ≫= result | None => info p end.

(** The worker's copy of a name; and of a request. *)
Definition copied (src buf : option (list Z)) : Prop :=
  match src with
  | None => buf = None
  | Some src => exists b, strncpy 128 src = Some b /\ buf = Some (<[127%nat := 0]> b)
  end.
Definition question (x : adns_request) (w : work_req) : Prop :=
  copied (hostname x) (host w) /\ copied (service x) (service_ w) /\ hints_ w = hints x.

(** A lookup is for the first request, unless that was cancelled. *)
Definition work_ok (head : positive) (R : gmap positive adns_request) (h : threads) (L : list positive) : Prop :=
  forall w n, work (pc h) = Some (w, n) -> source w <> head /\ (n <= asked_n h (source w))%nat /\
    (source w ∈ L -> asked_n h (source w) = n ->
      (exists L', L = source w :: L') /\ exists x, R !! source w = Some x /\ question x w).

Definition sleeping (p : npc) : bool := match p with NSleep => true | _ => false end.
Record event_ok (e : event) (h : threads) (L : list positive) : Prop := {
  ev_one : (testing e + blocked e)%nat = b2n (sleeping (pc h));
  ev_signalled : state e = true -> (0 < blocked e)%nat -> (0 < signals e)%nat;
  ev_seen : pc h = NClear -> state e = true;
  ev_awake : pc h = NSleep -> L <> [] \/ quitting h <> QNo -> state e = true \/ (0 < raising h)%nat \/ quitting h = QRaise;
}.

Record quit_ok (fl : Z) (h : threads) : Prop := {
  qt_flag : fl = (match quitting h with QNo => 0 | _ => RESOLVER_QUIT end);
  qt_exit : pc h = NExit -> quitting h <> QNo;
  qt_done : quitting h = QDone -> pc h = NExit;
}.

Section inv.
Context {O : Type} `{!Lookups O} (head : positive).

Record store_ok (s : adns_resolver O) (L J : list positive) : Prop := {
  so_list : DList.is_list (requests s) head L;
  so_jobs : SList.is_slist (job_list (rq s)) J;
  so_nodes q : is_Some (reqs s !! q) ->
    q <> head /\ is_Some (requests s !! q) /\ is_Some (SList.snodes (job_list (rq s)) !! q) /\ is_Some (func (rq s) !! q);
  so_runs : quit_request (rq s) = false;
}.

Record adns_inv (s : adns_resolver O) (h : threads) (L J : list positive) : Prop := {
  ai_store : store_ok s L J;
  ai_ledger : ledger (reqs s) h L J;
  ai_req q x : reqs s !! q = Some x -> req_ok L (pc h) q x;
  ai_owners : owners (infos (os s)) (owned_by (reqs s) (pc h));
  ai_work : work_ok head (reqs s) h L;
  ai_event : event_ok (notify s) h L;
  ai_quit : quit_ok (r_flags s) h;
}.
End inv.

(** ** The ledger *)
#[export] Instance count_occ_proper : Proper ((≡ₚ) ==> eq ==> eq) (count_occ Pos.eq_dec).
Proof. intros l l' Hp q ? <-. by apply Permutation_count_occ. Qed.
Lemma count_elem (l : list positive) q : q ∈ l <-> (0 < count_occ Pos.eq_dec l q)%nat.
Proof. rewrite list_elem_of_In. apply count_occ_In. Qed.
Lemma occ_snoc (l : list positive) q x :
  count_occ Pos.eq_dec (l ++ [x]) q = (count_occ Pos.eq_dec l q + b2n (bool_decide (q = x)))%nat.
Proof. rewrite count_occ_app. simpl. by destruct (Pos.eq_dec x q); case_bool_decide; subst. Qed.

(** A request goes from one part of the library to another, or to the run queue. *)
Lemma ledger_move R h L J R' h' L' J' : ledger R h L J -> asked h' = asked h -> called h' = called h ->
  (forall q, is_Some (R' !! q) <-> is_Some (R !! q)) -> due h' L' J' ≡ₚ due h L J -> ours h' L' ⊆ ours h L ->
  ledger R' h' L' J'.
Proof.
  intros [H1 H2 H3 H4] Ea Ec HR Hp Hs. unfold asked_n, called_n, free in *. split; unfold free, asked_n, called_n; rewrite ?Ea, ?Ec.
  - intros q Hq. apply HR, H1, Hs, Hq.
  - intros q Hq%HR. rewrite Hp. by apply H2.
  - intros q Hq%HR. rewrite Hp. by apply H3.
  - intros q Hq. apply H4, eq_None_not_Some. rewrite <- HR, Hq. by apply is_Some_None.
Qed.

Section ledger.
Context (R : gmap positive adns_request) (h : threads) (L J : list positive) (H : ledger R h L J).

Lemma ledger_free q : is_Some (R !! q) -> free h q -> q ∉ due h L J.
Proof. intros Hq Hf. pose proof (lg_count _ _ _ _ H q Hq). unfold free in Hf. rewrite count_elem. lia. Qed.
Lemma ledger_busy q : is_Some (R !! q) -> q ∈ due h L J -> asked_n h q = Datatypes.S (called_n h q).
Proof.
  intros Hq Hi. pose proof (lg_count _ _ _ _ H q Hq). pose proof (lg_once _ _ _ _ H q Hq). apply count_elem in Hi. lia.
Qed.
Lemma ledger_due q : free h q \/ is_Some (R !! q) /\ q ∈ due h L J /\ asked_n h q = Datatypes.S (called_n h q).
Proof.
  destruct (R !! q) as [x|] eqn:E; [|left; by apply (lg_gone _ _ _ _ H)]. assert (is_Some (R !! q)) as Hq by by exists x.
  pose proof (lg_count _ _ _ _ H q Hq). destruct (decide (q ∈ due h L J)) as [Hi|Hi].
  - right. split; [done|]. split; [done|]. by apply ledger_busy.
  - left. unfold free. rewrite count_elem in Hi. lia.
Qed.
(** A request that the library has is in one place. *)
Lemma ledger_one q l1 l2 : q ∈ ours h L -> due h L J ≡ₚ l1 ++ q :: l2 -> q ∉ l1 ++ l2.
Proof.
  intros Hq Hp Hi. pose proof (lg_once _ _ _ _ H q (lg_ours _ _ _ _ H q Hq)) as Ho. rewrite Hp, <- Permutation_middle in Ho.
  simpl in Ho. destruct (Pos.eq_dec q q); [|done]. apply count_elem in Hi. lia.
Qed.
End ledger.

(** * The critical sections *)
Section steps.
Context {O : Type} `{!Lookups O, !LookupsLaws O} (head : positive).
Implicit Types (s : adns_resolver O) (h : threads) (L J : list positive).

Lemma wp_adns_on_list {A} (m : M DList.store A) s P :
  wp m (requests s) (fun a l => P a (with_requests l s)) -> wp (on_list m) s P.
Proof. unfold wp, on_list. by destruct (m (requests s)) as [[l a]| |]. Qed.
Lemma wp_get_req q x s P : reqs s !! q = Some x -> P x s -> wp (get_req q) s P.
Proof. intros Hq HP. unfold get_req. wp_bind. apply wp_get. by apply (wp_need _ x). Qed.
Lemma wp_upd_req q u x s P : reqs s !! q = Some x -> P tt (with_reqs (<[q := u x]> (reqs s)) s) -> wp (upd_req q u) s P.
Proof. intros Hq HP. unfold upd_req. wp_bind. by apply (wp_get_req q x), wp_modify. Qed.

Lemma with_requests_id s : with_requests (requests s) s = s.
Proof. by destruct s. Qed.

(** ** The nodes *)
Lemma store_ok_reqs s s' L J : store_ok head s L J -> requests s' = requests s -> rq s' = rq s ->
  (forall q, is_Some (reqs s' !! q) -> is_Some (reqs s !! q)) -> store_ok head s' L J.
Proof. intros [H1 H2 H3 H4] E1 E2 E3. split; rewrite ?E1, ?E2; auto. Qed.

Lemma wp_is_empty s L J P : store_ok head s L J -> P (bool_decide (L = [])) s -> wp (on_list (DList.list_is_empty (Some head))) s P.
Proof.
  intros H HP. apply wp_adns_on_list. eapply wp_mono; [apply DList.wp_list_is_empty, H|]. intros b l [-> Hb]. rewrite with_requests_id.
  replace b with (bool_decide (L = [])); [done|]. by destruct b; case_bool_decide; naive_solver.
Qed.

Lemma wp_first s L J P : store_ok head s L J ->
  (forall n, DList.next n = Some (hd head L) -> P n s) -> wp (on_list (DList.ld (Some head))) s P.
Proof.
  intros [Hl _ _ _] HP. apply wp_adns_on_list, DList.wp_dl_ld; [by eapply DList.is_list_dom; [|left]|]. intros n _ E _.
  rewrite with_requests_id. apply HP. rewrite E. destruct Hl as [_ Hl]. by destruct L; destruct Hl as [-> _].
Qed.

Lemma store_nodes s L J l r L' J' : store_ok head s L J -> DList.is_list l head L' -> SList.is_slist (job_list r) J' ->
  (forall q, is_Some (requests s !! q) -> is_Some (l !! q)) ->
  (forall q, is_Some (SList.snodes (job_list (rq s)) !! q) -> is_Some (SList.snodes (job_list r) !! q)) ->
  (forall q, is_Some (func (rq s) !! q) -> is_Some (func r !! q)) -> quit_request r = false ->
  store_ok head (with_rq r (with_requests l s)) L' J'.
Proof. intros [H1 H2 H3 H4] Hl Hr Dl Dr Df Hq. split; try done. intros q (? & ? & ? & ?)%H3. split_and!; auto. Qed.

Lemma wp_adns_insert s L J q : store_ok head s L J -> is_Some (reqs s !! q) -> q ∉ L ->
  wp (on_list (DList.list_insert (Some q) (Some head))) s (fun _ s' =>
    exists l, s' = with_requests l s /\ store_ok head s' (L ++ [q]) J).
Proof.
  intros H Hq Hn. pose proof H as [Hl Hr Hd Hqr]. destruct (Hd q Hq) as (Hqh & Hql & _). apply wp_adns_on_list.
  eapply wp_mono; [apply DList.wp_same_dom; [apply DList.same_dom_insert|]|].
  { apply (DList.wp_list_insert _ head L q head); [done|left|set_solver|done]. }
  intros [] l [[Hl' _] Hf]. exists l. split; [done|].
  rewrite DList.ins_before_end in Hl' by (destruct Hl as [[? _]%NoDup_cons _]; done).
  apply (store_nodes s L J l (rq s)); try done. intros p. apply Hf.
Qed.

Lemma wp_adns_remove s L J q : store_ok head s L J -> q ∈ L -> is_Some (reqs s !! q) ->
  wp (on_list (DList.list_remove (Some q))) s (fun _ s' =>
    exists l, s' = with_requests l s /\ store_ok head s' (filter (fun y => y <> q) L) J).
Proof.
  intros H Hq Hs. pose proof H as [Hl Hr Hd Hqr]. apply wp_adns_on_list.
  eapply wp_mono; [apply DList.wp_same_dom; [apply DList.same_dom_remove|by apply (DList.wp_list_remove _ head L q)]|].
  intros [] l [(Hl' & _) Hf]. exists l. split; [done|]. apply (store_nodes s L J l (rq s)); try done. intros p. apply Hf.
Qed.

(** The part of it that is the run queue's. *)
Lemma store_jobs s L J : store_ok head s L J -> jobs_ok (fun q => is_Some (reqs s !! q)) (rq s) J.
Proof. intros [Hl Hr Hd Hq]. split; [done| |done]. intros q (_ & _ & ? & ?)%Hd. done. Qed.
Lemma store_with_rq s L J r J' : store_ok head s L J -> jobs_ok (fun q => is_Some (reqs s !! q)) r J' -> store_ok head (with_rq r s) L J'.
Proof. intros [Hl Hr Hd Hq] [Hr' Hd' Hq']. split; try done. intros q Hs. destruct (Hd q Hs) as (? & ? & _), (Hd' q Hs). done. Qed.

Lemma wp_adns_exec s L J q : store_ok head s L J -> is_Some (reqs s !! q) -> q ∉ J ->
  wp (exec_task q) s (fun _ s' => exists r, s' = with_rq r s /\ store_ok head s' L (J ++ [q])).
Proof.
  intros H Hq Hn. destruct (so_nodes _ _ _ _ H q Hq) as (_ & _ & Hs & [f Hf]).
  unfold exec_task. wp_bind. apply wp_get. wp_bind. apply (wp_need _ f); [done|]. wp_bind.
  destruct (jobs_exec _ _ _ q f (store_jobs _ _ _ H) Hs Hn) as (r & b & E & Hok & _). unfold wp, on_rq, ret. rewrite E.
  eexists. split; [done|]. by apply (store_with_rq s L J).
Qed.

(** ** The lock's sections *)

(** When only threads and the event change. *)
Lemma inv_threads s h L J e h' : adns_inv head s h L J -> asked h' = asked h -> called h' = called h -> execing h' = execing h ->
  busy (pc h') = busy (pc h) -> setting (pc h') = setting (pc h) -> info (pc h') = info (pc h) ->
  work_ok head (reqs s) h' L -> event_ok e h' L -> quit_ok (r_flags s) h' -> adns_inv head (with_notify e s) h' L J.
Proof.
  intros [] Ea Ec Ee Eb Es Ei Hw He Hq. split; try done.
  - by eapply (store_ok_reqs s).
  - eapply ledger_move; [done..| |]; unfold due, ours; by rewrite Eb, Ee.
  - intros q x Hx. unfold req_ok. rewrite Es. by apply ai_req0.
  - eapply owners_ext; [done|]. intros [q|]; [done|apply Ei].
Qed.

Lemma work_none R h L : work (pc h) = None -> work_ok head R h L.
Proof. intros E w n. by rewrite E. Qed.

(** The worker, awake before and after. *)
Definition working (p : npc) : Prop := match p with NSleep | NClear | NExit => False | _ => True end.
Lemma event_working e h L h' L' : event_ok e h L -> working (pc h) -> working (pc h') -> event_ok e h' L'.
Proof. intros [E1 E2 E3 E4] Hp Hp'. split; try done; [|by intros Ep; rewrite Ep in Hp'..]. rewrite E1. by destruct (pc h), (pc h'). Qed.
Lemma quit_running fl h h' : quit_ok fl h -> pc h <> NExit -> pc h' <> NExit -> quitting h' = quitting h -> quit_ok fl h'.
Proof. intros [Q1 Q2 Q3] Hp Hp' Eq. split; rewrite ?Eq; try done. by intros Ed%Q3. Qed.

Lemma wp_copy_name src s P : readable src -> (forall buf, copied src buf -> P buf s) -> wp (copy_name src) s P.
Proof.
  intros Hr HP. destruct src as [src|]; simpl; [|by apply wp_ret, HP]. destruct Hr as [b Hb]. wp_bind.
  apply (wp_need _ b); [done|]. apply wp_ret, HP. by exists b.
Qed.

Lemma wp_peek s h L J : adns_inv head s h L J ->
  wp (peek_request head) s (fun r s' => s' = s /\
    (r = (-1, None) /\ quitting h <> QNo \/ r = (0, None) /\ L = [] /\ quitting h = QNo \/
     exists w L' x, r = (1, Some w) /\ L = source w :: L' /\ reqs s !! source w = Some x /\ question x w)).
Proof.
  intros [Hs Hg Hr _ _ _ [Hf _ _]]. unfold peek_request. wp_bind. apply wp_get.
  destruct (truth _) eqn:Et; [apply wp_ret; split; [done|]; left; split; [done|]; intros Eq; by rewrite Hf, Eq in Et|].
  wp_bind. eapply wp_is_empty; [done|]. destruct L as [|q L]; cbn.
  { apply wp_ret. split; [done|]. right. left. split; [done|]. split; [done|]. by rewrite Hf in Et; destruct (quitting h). }
  wp_bind. eapply wp_first; [done|]. intros n Hn. wp_bind. apply (wp_need _ q); [done|].
  destruct (lg_ours _ _ _ _ Hg q) as [x Hx]; [by left|]. wp_bind. apply (wp_get_req q x); [done|].
  destruct (Hr q x Hx) as (_ & _ & Hrd). destruct Hrd as [Rh Rs]; [by left|].
  wp_bind. apply wp_copy_name; [done|]. intros b1 H1. wp_bind. apply wp_copy_name; [done|]. intros b2 H2.
  apply wp_ret. split; [done|]. right. right. exists (mk_work q b1 b2 (hints x)), L, x. by split_and!.
Qed.

Lemma inv_peeked s h L J w L' x : adns_inv head s h L J -> pc h = NPeek -> L = source w :: L' -> reqs s !! source w = Some x ->
  question x w -> adns_inv head s (with_pc (NLookup w (asked_n h (source w))) h) L J.
Proof.
  intros H Hp EL Hx Hq. pose proof H as [Hs Hg _ _ _ He Hqt].
  assert (s = with_notify (notify s) s) as Es by by destruct s. rewrite Es at 1.
  apply (inv_threads _ h); try done; cbn; rewrite ?Hp; try done.
  - intros w' n [= <- <-]. split; [by apply (so_nodes _ _ _ _ Hs (source w)); exists x|]. split; [done|]. intros _ _.
    split; [by exists L'|by exists x].
  - apply (event_working _ _ _ _ _ He); by rewrite ?Hp.
  - apply (quit_running _ _ _ Hqt); by rewrite ?Hp.
Qed.

Lemma wp_getaddrinfo s h L J w n : adns_inv head s h L J -> pc h = NLookup w n ->
  wp (getaddrinfo w) s (fun r s' => notify s' = notify s /\ adns_inv head s' (with_pc (NFulfill w n r.1 r.2) h) L J).
Proof.
  intros [Hs Hg Hr Ho Hw He Hqt] Hp. unfold getaddrinfo. wp_bind. apply wp_get.
  destruct (sys_getaddrinfo (host w) (service_ w) (hints_ w) (os s)) as [o [e i]] eqn:E. wp_bind. apply wp_put, wp_ret. cbn. split; [done|].
  pose proof (lookup_infos _ _ _ _ _ _ _ E) as Hi. split; cbn; try done.
  - by eapply (store_ok_reqs s).
  - eapply ledger_move; [done..| |]; unfold due, ours; cbn; by rewrite Hp.
  - intros q x Hx. unfold req_ok. specialize (Hr q x Hx). unfold req_ok in Hr. by rewrite Hp in Hr.
  - rewrite Hp in Ho. destruct i as [i|].
    + destruct Hi as [Hi ->]. apply (owners_alloc _ _ Ho _ None i); try done. by intros [q|].
    + rewrite Hi. apply (owners_ext _ _ Ho). by intros [q|].
  - unfold work_ok in *. cbn. by rewrite Hp in Hw.
  - apply (event_working _ _ _ _ _ He); by rewrite ?Hp.
  - apply (quit_running _ _ _ Hqt); by rewrite ?Hp.
Qed.

(** An answer that has an owner can be freed. *)
Lemma wp_adns_free s p k P : owners (infos (os s)) (owned_by (reqs s) p) ->
  (forall o, (owned_by (reqs s) p k = None -> o = os s) ->
     (forall f', f' k = None -> (forall k', k' <> k -> f' k' = owned_by (reqs s) p k') -> owners (infos o) f') ->
     P tt (with_os o s)) ->
  wp (freeaddrinfo (owned_by (reqs s) p k)) s P.
Proof.
  intros Ho HP. destruct (owned_by (reqs s) p k) as [i|] eqn:Ei; simpl.
  - wp_bind. apply wp_get. rewrite decide_True by (apply Ho; by exists k). apply wp_put, HP; [done|].
    intros f' Ek E. rewrite free_infos. by apply (owners_free _ _ Ho _ k i).
  - apply wp_ret. replace s with (with_os (os s) s) at 1 by by destruct s. apply HP; [done|].
    intros f' Ek E. apply (owners_ext _ _ Ho). intros k'. destruct (decide (k' = k)) as [->|]; [congruence|by apply E].
Qed.

Lemma wp_fulfill_lock s h L J w n e i : adns_inv head s h L J -> pc h = NFulfill w n e i ->
  wp (fulfill_lock head (source w) i) s (fun b s' => notify s' = notify s /\
    if (b : bool)
    then exists L', L = source w :: L' /\ adns_inv head s' (with_pc (NSet (source w) e i) h) L' J
    else adns_inv head s' (with_pc NPeek h) L J /\ forall L', L <> source w :: L').
Proof.
  intros [Hs Hg Hr Ho Hw He Hqt] Hp. unfold fulfill_lock. wp_bind. eapply wp_first; [done|]. intros nd ->.
  destruct (Hw w n) as (Hwh & _); [by rewrite Hp|]. case_decide as Ed.
  - injection Ed as Ed. destruct L as [|q L]; cbn in Ed; [congruence|subst q].
    assert (source w ∉ L) as HnL by by destruct Hs as [[[_ [? _]%NoDup_cons]%NoDup_cons _] _ _ _].
    wp_bind. eapply wp_mono; [eapply (wp_adns_remove s _ J (source w)); [exact Hs|left|apply (lg_ours _ _ _ _ Hg); left]|].
    intros [] s' (l & -> & Hs'). rewrite filter_cons_False, DList.filter_ne in Hs' by (done || auto).
    apply wp_ret. split; [done|]. exists L. split; [done|]. split; cbn; try done.
    + eapply ledger_move; [done..| |]; unfold due, ours; cbn; rewrite Hp; [solve_Permutation|set_solver].
    + intros q x Hx. specialize (Hr q x Hx). unfold req_ok in *. rewrite Hp in Hr. cbn in *. destruct Hr as (R1 & R2 & R3).
      split_and!; [|intros Hq; apply R2; set_solver|intros Hq; apply R3; set_solver].
      rewrite R1. apply decide_ext. set_solver.
    + rewrite Hp in Ho. by apply (owners_ext _ _ Ho); intros [q|].
    + apply (event_working _ _ _ _ _ He); by rewrite ?Hp.
    + apply (quit_running _ _ _ Hqt); by rewrite ?Hp.
  - wp_bind. change i with (info (NFulfill w n e i)). rewrite <- Hp.
    apply (wp_adns_free s (pc h) None); [done|]. intros o _ Hown. apply wp_ret. split; [done|]. split; [|by intros L' ->].
    split; cbn; try done.
    + by eapply (store_ok_reqs s).
    + eapply ledger_move; [done..| |]; unfold due, ours; cbn; by rewrite Hp.
    + intros q x Hx. specialize (Hr q x Hx). unfold req_ok in *. by rewrite Hp in Hr.
    + apply Hown; [done|]. by intros [q|].
    + apply (event_working _ _ _ _ _ He); by rewrite ?Hp.
    + apply (quit_running _ _ _ Hqt); by rewrite ?Hp.
Qed.

Lemma lookup_insert_dom (R : gmap positive adns_request) q x p : is_Some (R !! q) -> is_Some (<[q := x]> R !! p) <-> is_Some (R !! p).
Proof.
  intros Hq. rewrite lookup_insert_is_Some'. split; [|by right]. by intros [<-|].
Qed.

Lemma wp_fulfill_set s h L J q e i : adns_inv head s h L J -> pc h = NSet q e i ->
  wp (fulfill_set q e i) s (fun _ s' => notify s' = notify s /\ adns_inv head s' (with_pc (NExec q) h) L J /\
    exists x, reqs s' !! q = Some x /\ adns_get_result x = i /\ adns_get_error x = e).
Proof.
  intros [Hs Hg Hr Ho Hw He Hqt] Hp. assert (q ∈ ours h L) as Hq by (unfold ours; rewrite Hp; set_solver).
  destruct (lg_ours _ _ _ _ Hg q Hq) as [x Hx]. assert (is_Some (reqs s !! q)) as Hs' by by exists x.
  assert (q ∉ L) as HnL.
  { pose proof (ledger_one _ _ _ _ Hg q L (execing h ++ J) Hq) as Hn. unfold due, ours in Hn. rewrite Hp in Hn. cbn in Hn.
    rewrite <- !(assoc_L (++)) in Hn. set_solver. }
  unfold fulfill_set. wp_bind. apply (wp_upd_req q _ x); [done|]. wp_bind.
  apply (wp_upd_req q _ (set_flags 0 x)); [apply lookup_insert_eq|]. cbn. rewrite insert_insert_eq.
  apply (wp_upd_req q _ (set_error e (set_flags 0 x))); [apply lookup_insert_eq|]. cbn. rewrite insert_insert_eq.
  destruct (Hr q x Hx) as (R1 & R2 & R3). split; [done|]. split; [split; cbn; try done|].
  - eapply (store_ok_reqs s); [done..|]. intros p. by apply lookup_insert_dom.
  - eapply ledger_move; [done..|by intros p; apply lookup_insert_dom| |]; unfold due, ours; cbn; by rewrite Hp.
  - intros p y [[<- <-]|[Hne Hy]]%lookup_insert_Some.
    + unfold req_ok. cbn. rewrite app_nil_r, decide_False by done. done.
    + specialize (Hr p y Hy). unfold req_ok in *. rewrite Hp in Hr. cbn in *. rewrite app_nil_r.
      destruct Hr as (P1 & P2 & P3). split_and!; [|set_solver|done]. rewrite P1. apply decide_ext. set_solver.
  - rewrite Hp in Ho. eapply (owners_move _ _ Ho _ None (Some q)); cbn; try done.
    + rewrite Hx. cbn. apply R2. rewrite Hp. set_solver.
    + by rewrite lookup_insert_eq.
    + intros [p|] Hk1 Hk2; [|done]. cbn. rewrite lookup_insert_ne; [done|congruence].
  - apply (event_working _ _ _ _ _ He); by rewrite ?Hp.
  - apply (quit_running _ _ _ Hqt); by rewrite ?Hp.
  - eexists. split; [apply lookup_insert_eq|]. done.
Qed.

(** Tasks go to the run queue, and leave it. *)
Lemma inv_adns_queue s h L J r h' J' : adns_inv head s h L J -> store_ok head (with_rq r s) L J' -> ledger (reqs s) h' L J' ->
  setting (pc h') = setting (pc h) -> info (pc h') = info (pc h) -> work_ok head (reqs s) h' L ->
  event_ok (notify s) h' L -> quit_ok (r_flags s) h' -> adns_inv head (with_rq r s) h' L J'.
Proof.
  intros [] Hs Hg Es Ei Hw He Hq. split; try done.
  - intros q x Hx. unfold req_ok. rewrite Es. by apply ai_req0.
  - eapply owners_ext; [done|]. intros [q|]; [done|apply Ei].
Qed.

Lemma wp_exec_worker s h L J q : adns_inv head s h L J -> pc h = NExec q ->
  wp (exec_task q) s (fun _ s' => notify s' = notify s /\ adns_inv head s' (with_pc NPeek h) L (J ++ [q])).
Proof.
  intros H Hp. pose proof H as [Hs Hg _ _ _ He Hqt].
  assert (q ∈ ours h L) as Hq by (unfold ours; rewrite Hp; set_solver).
  pose proof (ledger_one _ _ _ _ Hg q L (execing h ++ J) Hq) as Hn. unfold due, ours in Hn. rewrite Hp in Hn. cbn in Hn.
  rewrite <- !(assoc_L (++)) in Hn.
  eapply wp_mono; [apply (wp_adns_exec s L J q Hs); [by apply (lg_ours _ _ _ _ Hg)|set_solver]|]. intros _ s' (r & -> & Hs').
  split; [done|]. eapply inv_adns_queue; cbn; rewrite ?Hp; try done.
  - eapply ledger_move; [done..| |]; unfold due, ours; cbn; rewrite Hp; [solve_Permutation|set_solver].
  - apply (event_working _ _ _ _ _ He); by rewrite ?Hp.
  - apply (quit_running _ _ _ Hqt); by rewrite ?Hp.
Qed.

Lemma wp_exec_cancelled s h L J q l1 l2 : adns_inv head s h L J -> execing h = l1 ++ q :: l2 ->
  wp (exec_task q) s (fun _ s' => notify s' = notify s /\
    adns_inv head s' (mk_threads (pc h) (raising h) (l1 ++ l2) (quitting h) (asked h) (called h)) L (J ++ [q])).
Proof.
  intros H Hx. pose proof H as [Hs Hg _ _ Hw [] []].
  assert (q ∈ ours h L) as Hq by (unfold ours; rewrite Hx; set_solver).
  assert (q ∉ (L ++ busy (pc h) ++ l1) ++ (l2 ++ J)) as Hn.
  { apply (ledger_one _ _ _ _ Hg q _ _ Hq). unfold due, ours. rewrite Hx. solve_Permutation. }
  eapply wp_mono; [apply (wp_adns_exec s L J q Hs); [by apply (lg_ours _ _ _ _ Hg)|set_solver]|]. intros _ s' (r & -> & Hs').
  split; [done|]. eapply inv_adns_queue; cbn; try done.
  eapply ledger_move; [done..| |]; unfold due, ours; cbn; rewrite Hx; [solve_Permutation|set_solver].
Qed.

Lemma inv_adns_called s h L J r t : adns_inv head s h L J -> run_one (rq s) = Ok (r, (1, Some t)) ->
  exists J', adns_inv head (with_rq r s) (mk_threads (pc h) (raising h) (execing h) (quitting h) (asked h)
    (called h ++ if decide (is_Some (reqs s !! t)) then [t] else [])) L J'.
Proof.
  intros H E. pose proof H as [Hs Hg _ _ Hw [] []].
  destruct (jobs_called _ _ _ _ _ (store_jobs _ _ _ Hs) E) as (J' & -> & Hok & _). rename J' into J.
  exists J. eapply inv_adns_queue; cbn; try done; [by apply (store_with_rq s L (t :: J))|].
  - destruct Hg as [H1 H2 H3 H4]. assert (forall q, count_occ Pos.eq_dec (due h L (t :: J)) q =
      (count_occ Pos.eq_dec (due h L J) q + b2n (bool_decide (q = t)))%nat) as Ec.
    { intros q. unfold due. rewrite <- occ_snoc. apply count_occ_proper; [solve_Permutation|done]. }
    assert (forall q, called_n (mk_threads (pc h) (raising h) (execing h) (quitting h) (asked h)
      (called h ++ if decide (is_Some (reqs s !! t)) then [t] else [])) q =
      (called_n h q + b2n (bool_decide (q = t /\ is_Some (reqs s !! t))))%nat) as En'.
    { intros q. unfold called_n. cbn. case_decide as Ed.
      - rewrite occ_snoc. do 2 f_equal. apply bool_decide_ext. tauto.
      - rewrite app_nil_r, bool_decide_eq_false_2 by tauto. simpl. lia. }
    split; [done|..]; intros q Hq; unfold free in *; rewrite ?En'.
    + specialize (H2 q Hq). unfold asked_n in *. cbn. rewrite H2, Ec. unfold due, ours. cbn.
      repeat case_bool_decide; naive_solver lia.
    + specialize (H3 q Hq). rewrite Ec in H3. unfold due, ours in *. cbn in *. lia.
    + specialize (H4 q Hq). rewrite bool_decide_eq_false_2; [unfold asked_n in *; cbn in *; lia|].
      intros [-> [x Hx]]. congruence.
Qed.

Lemma inv_submitted s h L J t f r b : adns_inv head s h L J -> reqs s !! t = None -> is_Some (SList.snodes (job_list (rq s)) !! t) ->
  t ∉ J -> task_exec_lock t f (rq s) = Ok (r, b) -> adns_inv head (with_rq r s) h L (J ++ [t]).
Proof.
  intros H Ht Hn Hj E. pose proof H as [Hs Hg _ _ Hw He Hqt]. destruct (jobs_exec _ _ _ t f (store_jobs _ _ _ Hs) Hn Hj) as (r' & b' & E' & Hok & _).
  rewrite E' in E. injection E as <- <-. eapply inv_adns_queue; try done; [by apply (store_with_rq s L J)|].
  destruct Hg as [H1 H2 H3 H4]. assert (forall q, is_Some (reqs s !! q) ->
    count_occ Pos.eq_dec (due h L (J ++ [t])) q = count_occ Pos.eq_dec (due h L J) q) as Ec.
  { intros q [x Hq]. unfold due. rewrite (assoc_L (++)), occ_snoc, bool_decide_eq_false_2; [simpl; lia|]. congruence. }
  split; [done|..|done]; intros q Hq; rewrite Ec; auto.
Qed.

(** ** The client *)
Lemma wp_adns_clear s h L J q x : adns_inv head s h L J -> reqs s !! q = Some x -> free h q ->
  wp (adns_clear_result q) s (fun _ s' => adns_inv head s' h L J /\ reqs s' !! q = Some (set_result None x)).
Proof.
  intros H Hx Hf. unfold adns_clear_result. wp_bind. apply (wp_get_req q x); [done|].
  destruct (result x) as [i|] eqn:Ei; [|apply wp_ret; split; [done|]; rewrite Hx; by destruct x; cbn in Ei; subst].
  pose proof H as [Hs Hg Hr Ho Hw He Hqt]. assert (is_Some (reqs s !! q)) as Hq by by exists x.
  pose proof (ledger_free _ _ _ _ Hg q Hq Hf) as Hn. unfold due, ours in Hn.
  wp_bind. assert (owned_by (reqs s) (pc h) (Some q) = Some i) as Eo by by cbn; rewrite Hx.
  rewrite <- Eo. apply (wp_adns_free s _ (Some q) _ Ho). intros o _ Hown. apply (wp_upd_req q _ x); [done|].
  split; [|apply lookup_insert_eq]. split; cbn; try done.
  - eapply (store_ok_reqs s); [done..|]. intros p. by apply lookup_insert_dom.
  - eapply ledger_move; [done..|by intros p; apply lookup_insert_dom|done|done].
  - intros p y [[<- <-]|[Hne Hy]]%lookup_insert_Some; [|by apply Hr]. destruct (Hr q x Hx) as (R1 & R2 & R3). done.
  - apply Hown; cbn; [by rewrite lookup_insert_eq|]. intros [p|] Hp; cbn; [|done]. rewrite lookup_insert_ne; [done|congruence].
  - intros w n E. destruct (Hw w n E) as (W1 & W2 & W3). split_and!; [done..|]. intros Hi Hc.
    destruct (W3 Hi Hc) as (L' & y & Hy & Hqu). split; [done|]. exists y. split; [|done]. rewrite lookup_insert_ne; [done|].
    intros ->. set_solver.
Qed.

Lemma wp_destroy s h L J q : adns_inv head s h L J -> is_Some (reqs s !! q) -> free h q ->
  wp (adns_request_destroy q) s (fun _ s' => adns_inv head s' h L J).
Proof.
  intros [Hs Hg Hr Ho Hw He Hqt] Hq Hf. pose proof Hq as [x Hx].
  pose proof (ledger_free _ _ _ _ Hg q Hq Hf) as Hn. unfold due, ours in Hn.
  unfold adns_request_destroy. wp_bind. apply (wp_get_req q x); [done|]. wp_bind.
  assert (owned_by (reqs s) (pc h) (Some q) = result x) as Eo by by cbn; rewrite Hx.
  rewrite <- Eo. apply (wp_adns_free s _ (Some q) _ Ho). intros o _ Hown. apply wp_modify. split; cbn; try done.
  - eapply (store_ok_reqs s); [done..|]. intros p. cbn. intros [y [_ Hy]%lookup_delete_Some]. by exists y.
  - destruct Hg as [H1 H2 H3 H4]. split.
    + intros p Hp. destruct (H1 p Hp) as [y Hy]. exists y. rewrite lookup_delete_ne; [done|]. intros <-. unfold ours in Hp. set_solver.
    + intros p [y [_ Hy]%lookup_delete_Some]. apply H2. by exists y.
    + intros p [y [_ Hy]%lookup_delete_Some]. apply H3. by exists y.
    + intros p [<-|Hp]%lookup_delete_None; [done|by apply H4].
  - intros p y [_ Hy]%lookup_delete_Some. by apply Hr.
  - apply Hown; cbn; [by rewrite lookup_delete_eq|]. intros [p|] Hp; cbn; [|done]. rewrite lookup_delete_ne; [done|congruence].
  - intros w n E. destruct (Hw w n E) as (W1 & W2 & W3). split_and!; [done..|]. intros Hi Hc.
    destruct (W3 Hi Hc) as (L' & y & Hy & Hqu). split; [done|]. exists y. split; [|done]. rewrite lookup_delete_ne; [done|].
    intros ->. set_solver.
Qed.

Lemma wp_set_func s L J q f P : store_ok head s L J ->
  (forall r, store_ok head (with_rq r s) L J -> is_Some (func r !! q) -> P tt (with_rq r s)) -> wp (set_func q f) s P.
Proof.
  intros H HP. destruct (jobs_set_func _ _ _ q f (store_jobs _ _ _ H)) as [Hok Ef]. apply HP; [by apply (store_with_rq s L J)|].
  cbn. rewrite lookup_insert_eq. by eexists.
Qed.

(** The request is asked for, and goes to the end of the list. *)
Definition asked_for (h : threads) (q : positive) (e : bool) : threads :=
  mk_threads (pc h) (raising h + b2n e) (execing h) (quitting h) (asked h ++ [q]) (called h).

Lemma asked_n_for h q e p : asked_n (asked_for h q e) p = (asked_n h p + b2n (bool_decide (p = q)))%nat.
Proof. apply occ_snoc. Qed.

Lemma due_asked h q e L J p : count_occ Pos.eq_dec (due (asked_for h q e) (L ++ [q]) J) p =
  (count_occ Pos.eq_dec (due h L J) p + b2n (bool_decide (p = q)))%nat.
Proof. rewrite <- occ_snoc. apply count_occ_proper; [|done]. unfold due, ours. cbn. solve_Permutation. Qed.

Lemma ledger_asked R h L J R' q e : ledger R h L J -> is_Some (R !! q) -> free h q ->
  (forall p, is_Some (R' !! p) <-> is_Some (R !! p)) -> ledger R' (asked_for h q e) (L ++ [q]) J.
Proof.
  intros Hg Hq Hf HR. pose proof Hg as [H1 H2 H3 H4]. pose proof (ledger_free _ _ _ _ Hg q Hq Hf) as Hn. rewrite count_elem in Hn.
  split.
  - intros p Hp. apply HR. unfold ours in *. cbn in *. destruct (decide (p = q)) as [->|]; [done|]. apply H1. set_solver.
  - intros p Hp%HR. specialize (H2 p Hp). rewrite asked_n_for, due_asked. unfold called_n in *. cbn. lia.
  - intros p Hp%HR. specialize (H3 p Hp). rewrite due_asked. case_bool_decide; subst; simpl; lia.
  - intros p Hp. unfold free. rewrite asked_n_for, bool_decide_eq_false_2; [|intros ->; apply HR in Hq; destruct Hq; congruence].
    rewrite Nat.add_0_r. apply (H4 p). apply eq_None_not_Some. rewrite <- HR, Hp. by apply is_Some_None.
Qed.

Lemma wp_ask s h L J q x0 a b k f : adns_inv head s h L J -> reqs s !! q = Some x0 -> free h q -> quitting h = QNo -> readable a -> readable b ->
  wp (adns_request_ask head q a b k f) s (fun e s' => adns_inv head s' (asked_for h q e) (L ++ [q]) J /\
    reqs s' !! q = Some (mk_req REQUEST_BUSY a b k None (error x0))).
Proof.
  intros H Hx0 Hf Hqn Ra Rb. unfold adns_request_ask. wp_bind. eapply wp_mono; [by apply (wp_adns_clear s h L J q x0)|].
  clear H. intros [] s1 [H Hx]. set (x := set_result None x0) in *. assert (result x = None) as Ex by done.
  assert (error x0 = error x) as -> by done. clearbody x. clear x0 Hx0 s.
  rename s1 into s. assert (is_Some (reqs s !! q)) as Hq by by exists x. pose proof H as [Hs Hg Hr Ho Hw He Hqt].
  pose proof (ledger_free _ _ _ _ Hg q Hq Hf) as Hn. unfold due, ours in Hn. destruct Hqt as [Q1 Q2 Q3].
  wp_bind. apply (wp_upd_req q _ x); [done|]. set (x' := mk_req _ _ _ _ _ _).
  assert (store_ok head (with_reqs (<[q := x']> (reqs s)) s) L J) as Hs1.
  { eapply (store_ok_reqs s); [done..|]. intros p. by apply lookup_insert_dom. }
  wp_bind. apply (wp_set_func _ L J q f); [done|]. intros r Hs2 _. wp_bind. eapply wp_is_empty; [exact Hs2|]. wp_bind.
  eapply wp_mono; [apply (wp_adns_insert _ L J q Hs2); [by cbn; rewrite lookup_insert_eq|set_solver]|].
  intros [] s' (l & -> & Hs3). apply wp_ret. split; [|cbn; rewrite lookup_insert_eq; unfold x'; by rewrite Ex].
  split; cbn; try done.
  - apply (ledger_asked (reqs s)); [done..|]. intros p. by apply lookup_insert_dom.
  - intros p y [[<- <-]|[Hne Hy]]%lookup_insert_Some.
    + unfold req_ok. cbn. rewrite decide_True by set_solver. done.
    + destruct (Hr p y Hy) as (P1 & P2 & P3). split_and!; [|set_solver|set_solver]. rewrite P1. apply decide_ext. set_solver.
  - apply (owners_ext _ _ Ho). intros [p|]; cbn; [|done]. destruct (decide (p = q)) as [->|Hne].
    + by rewrite lookup_insert_eq, Hx.
    + by rewrite lookup_insert_ne.
  - intros w n E. destruct (Hw w n E) as (W1 & W2 & W3). rewrite asked_n_for. split_and!; [done|lia|]. intros Hi Hc.
    case_bool_decide as Ew; [simpl in Hc; lia|]. simpl in Hc. rewrite Nat.add_0_r in Hc.
    destruct W3 as [(L' & ->) (y & Hy & Hqu)]; [set_solver|done|]. split; [by exists (L' ++ [q])|]. exists y. by rewrite lookup_insert_ne.
  - destruct He as [E1 E2 E3 E4]. split; try done. intros Ep _. cbn in *. destruct L as [|u L]; simpl; [right; left; lia|].
    destruct (E4 Ep) as [?|[?|?]]; [by left|by left|right; left; lia|by right; right].
Qed.

Lemma busy_flag L p q x : req_ok L p q x -> truth (Z.land (flags x) REQUEST_BUSY) = bool_decide (q ∈ L ++ setting p).
Proof. intros (-> & _). by repeat case_decide; case_bool_decide. Qed.

Definition cancelled (h : threads) (q : positive) (b : bool) : threads :=
  mk_threads (pc h) (raising h) (execing h ++ if b then [q] else []) (quitting h) (asked h) (called h).

Lemma wp_adns_cancel s h L J q x : adns_inv head s h L J -> reqs s !! q = Some x -> (forall e i, pc h <> NSet q e i) ->
  wp (adns_request_cancel q) s (fun b s' => b = truth (Z.land (flags x) REQUEST_BUSY) /\
    exists L', adns_inv head s' (cancelled h q b) L' J /\ (b = true -> reqs s' !! q = Some (set_flags 0 x))).
Proof.
  intros H Hx Hp. pose proof H as [Hs Hg Hr Ho Hw He Hqt]. unfold adns_request_cancel. wp_bind. apply (wp_get_req q x); [done|].
  rewrite (busy_flag L (pc h) q) by auto. destruct (bool_decide _) eqn:Eb.
  - apply bool_decide_eq_true in Eb. assert (q ∉ setting (pc h)) as Hns.
    { destruct (pc h); cbn; set_solver. }
    assert (q ∈ L) as (l1 & l2 & ->)%list_elem_of_split by set_solver.
    assert (q ∉ l1 /\ q ∉ l2 /\ q ∉ busy (pc h)) as (N1 & N2 & N3).
    { pose proof (ledger_one _ _ _ _ Hg q l1 (l2 ++ busy (pc h) ++ execing h ++ J)) as Hn. unfold due, ours in Hn.
      assert (q ∉ l1 ++ l2 ++ busy (pc h) ++ execing h ++ J) as Hn'; [|set_solver]. apply Hn; [set_solver|]. solve_Permutation. }
    wp_bind. apply (wp_upd_req q _ x); [done|].
    assert (store_ok head (with_reqs (<[q := set_flags 0 x]> (reqs s)) s) (l1 ++ q :: l2) J) as Hs1.
    { eapply (store_ok_reqs s); [done..|]. intros p. by apply lookup_insert_dom. }
    wp_bind. eapply wp_mono; [apply (wp_adns_remove _ _ J q Hs1); [set_solver|by cbn; rewrite lookup_insert_eq]|].
    intros [] s' (l & -> & Hs2). rewrite filter_app, filter_cons_False, !DList.filter_ne in Hs2 by auto.
    apply wp_ret. split; [done|]. exists (l1 ++ l2). split; [|intros _; apply lookup_insert_eq]. split; cbn; try done.
    + eapply ledger_move; [done..|by intros p; apply lookup_insert_dom| |]; unfold due, ours; cbn; [solve_Permutation|set_solver].
    + intros p y [[<- <-]|[Hne Hy]]%lookup_insert_Some.
      * unfold req_ok. cbn. rewrite decide_False by set_solver. split_and!; [done|set_solver..].
      * destruct (Hr p y Hy) as (P1 & P2 & P3). split_and!; [|set_solver|set_solver]. rewrite P1. apply decide_ext. set_solver.
    + apply (owners_ext _ _ Ho). intros [p|]; cbn; [|done]. destruct (decide (p = q)) as [->|Hne].
      * by rewrite lookup_insert_eq, Hx.
      * by rewrite lookup_insert_ne.
    + intros w n E. destruct (Hw w n E) as (W1 & W2 & W3). split_and!; [done..|]. intros Hi Hc.
      destruct W3 as [(L' & EL) (y & Hy & Hqu)]; [set_solver|done|]. assert (source w <> q) by (intros Ew; rewrite Ew in *; set_solver).
      split; [|exists y; by rewrite lookup_insert_ne]. destruct l1; injection EL as ??; [congruence|]. subst. by eexists.
    + destruct He as [E1 E2 E3 E4]. split; try done. intros Ep Hl. apply (E4 Ep). destruct Hl; [left; by destruct l1|by right].
    + by destruct Hqt.
  - apply wp_ret. split; [done|]. exists L. split; [|done]. unfold cancelled. rewrite app_nil_r. by destruct h.
Qed.

Lemma wp_init s h L J q : adns_inv head s h L J -> reqs s !! q = None -> free h q -> q <> head -> q ∉ J ->
  wp (adns_request_init q) s (fun _ s' => adns_inv head s' h L J).
Proof.
  intros [Hs Hg Hr Ho Hw He Hqt] Hq Hf Hh Hj. pose proof Hs as [Hl Hjs Hd Hqr].
  assert (q ∉ L) as Hn. { intros Hi. destruct (lg_ours _ _ _ _ Hg q) as [x Hx]; [set_solver|congruence]. }
  unfold adns_request_init. wp_bind. apply (wp_set_func s L J q 0 _ Hs). intros r Hr1 Hr2. wp_bind. unfold clear_node, on_rq, jobs, wp, modify. cbn.
  unfold bind, on_list, modify, put_req. cbn. split; cbn; try done.
  - destruct Hr1 as [_ (Hc1 & Hc2 & Hc3) Hd1 Hq1]. cbn in *. split; cbn; try done.
    + destruct Hl as [Hl1 Hl2]. split; [done|]. eapply DList.linked_ext; [|exact Hl2]. intros l1 a b l2 El.
      assert (q ∉ l1 ++ a :: b :: l2) as Hni by (rewrite <- El; set_solver).
      unfold DList.nx, DList.pv. rewrite !lookup_insert_ne by set_solver. done.
    + split; [done|]. split; [|done]. eapply SList.chain_ext; [|exact Hc2]. cbn. intros a Ha. rewrite lookup_insert_ne; [done|]. set_solver.
    + intros p. destruct (decide (p = q)) as [->|Hne]; rewrite ?lookup_insert_eq; [done|]. rewrite !lookup_insert_ne by done. apply Hd1.
  - destruct Hg as [H1 H2 H3 H4].
    assert (q ∉ due h L J) as Hdue.
    { intros [Ho'%H1|?]%elem_of_app; [|done]. destruct Ho'. congruence. }
    split.
    + intros p Hp. apply lookup_insert_is_Some'. right. by apply H1.
    + intros p [<-|Hp]%lookup_insert_is_Some'; [|by apply H2]. rewrite count_elem in Hdue. unfold free in Hf. lia.
    + intros p [<-|Hp]%lookup_insert_is_Some'; [|by apply H3]. rewrite count_elem in Hdue. lia.
    + intros p [Hp _]%lookup_insert_None. by apply H4.
  - intros p y [[<- <-]|[Hne Hy]]%lookup_insert_Some; [|by apply Hr]. unfold req_ok. cbn. rewrite decide_False; [done|].
    intros [?|Hi]%elem_of_app; [done|]. destruct (lg_ours _ _ _ _ Hg q); [|congruence]. unfold ours. destruct (pc h); set_solver.
  - apply (owners_ext _ _ Ho). intros [p|]; cbn; [|done]. destruct (decide (p = q)) as [->|Hne].
    + by rewrite lookup_insert_eq, Hq.
    + by rewrite lookup_insert_ne.
  - intros w n E. destruct (Hw w n E) as (W1 & W2 & W3). split_and!; [done..|]. intros Hi Hc.
    destruct (W3 Hi Hc) as (L' & y & Hy & Hqu). split; [done|]. exists y. split; [|done]. rewrite lookup_insert_ne; [done|]. congruence.
Qed.

Lemma inv_quit_lock s h L J : adns_inv head s h L J -> quitting h = QNo ->
  wp quit_lock s (fun _ s' => adns_inv head s' (mk_threads (pc h) (raising h) (execing h) QRaise (asked h) (called h)) L J).
Proof.
  intros [Hs Hg Hr Ho Hw [E1 E2 E3 E4] [Q1 Q2 Q3]] Eq. apply wp_modify. split; cbn; try done.
  - by eapply (store_ok_reqs s).
  - by destruct Hg.
  - split; try done. intros _ _. by right; right.
  - split; try done. cbn. by rewrite Q1, Eq.
Qed.

Lemma inv_start s s' J : is_Some (requests s !! head) -> reqs s = ∅ -> SList.is_slist (job_list (rq s)) J -> infos (os s) = ∅ ->
  quit_request (rq s) = false -> adns_resolver_init head 0 0 s = Ok (s', 0) ->
  adns_inv head s' (mk_threads NPeek 0 [] QNo [] []) [] J.
Proof.
  intros Hh Hr Hj Hi Hq E. refine (wp_result _ s s' 0 (fun _ s' => adns_inv head s' _ [] J) _ E). clear E. unfold adns_resolver_init. wp_bind. apply wp_modify. wp_bind. apply wp_adns_on_list.
  eapply wp_mono; [by apply DList.wp_list_init|]. intros [] l [Hl _]. cbn.
  split; cbn; rewrite ?Hr, ?Hi; try done.
  - split; cbn; try done. rewrite Hr. intros q. rewrite lookup_empty. by intros [].
  - split; cbn; try done; try (intros q [x Hx]); (rewrite lookup_empty in Hx; done) || set_solver.
  - split; [|intros k k' i; by destruct k as [k|]; cbn; rewrite ?lookup_empty]. intros i. split; [set_solver|].
    intros [[k|] Hk]; cbn in Hk; rewrite ?lookup_empty in Hk; done.
Qed.
End steps.
