(* ===== verification/AdnsMain.v ===== *)
(** Correctness of src/io/adns.c: every request is answered once, by its callback, in
    every interleaving. *)
From S2P Require Import Prelude Lists Strlcpy Thr Runq RunqMain Adns AdnsInv.

(** ** The event *)
Lemma event_raise e h L h' L' : event_ok e h L -> pc h' = pc h -> event_ok (thr_event_raise e) h' L'.
Proof.
  intros [E1 E2 E3 E4] Ep. unfold thr_event_raise. split; cbn; rewrite ?Ep; try done; [|by left].
  intros _ Hb. destruct (state e); [by apply E2|lia].
Qed.
Lemma event_signal e h L : event_ok e h L -> event_ok (cond_signal e) h L.
Proof.
  intros [E1 E2 E3 E4]. unfold cond_signal. destruct (blocked e) as [|b] eqn:Eb; (split; cbn; try done; try lia).
  destruct (pc h); cbn in E1; lia.
Qed.
Lemma event_spurious e h L : event_ok e h L -> (0 < blocked e)%nat ->
  event_ok (mk_event (state e) (Datatypes.S (testing e)) (pred (blocked e)) (signals e)) h L.
Proof. intros [E1 E2 E3 E4] Hb. split; cbn; try done; [lia|]. destruct (pc h); cbn in E1; lia. Qed.
Lemma event_test e h L : event_ok e h L -> pc h = NSleep -> (0 < testing e)%nat ->
  event_ok (thr_event_wait e) (with_pc (if state e then NClear else NSleep) h) L.
Proof.
  intros [E1 E2 E3 E4] Hp Ht. rewrite Hp in E1. unfold thr_event_wait. cbn in E1.
  destruct (state e) eqn:Es; split; cbn; try done; try lia. intros _ Hl. specialize (E4 Hp Hl). naive_solver.
Qed.
Lemma event_clear e h L : event_ok e h L -> pc h = NClear -> event_ok (thr_event_clear e) (with_pc NPeek h) L.
Proof. intros [E1 E2 E3 E4] Hp. rewrite Hp in E1. unfold thr_event_clear. by split. Qed.
Lemma event_enter e h : event_ok e h [] -> pc h = NPeek -> quitting h = QNo -> event_ok (wait_enter e) (with_pc NSleep h) [].
Proof.
  intros [E1 E2 E3 E4] Hp Hq. rewrite Hp in E1. cbn in E1. split; cbn; try done; try lia. intros _ [?|?]; congruence.
Qed.

(** * How much is left to do

    A lookup of a request that is not the first costs another look at the list. *)
Definition pc_weight (e : event) (L : list positive) (p : npc) : nat :=
  match p with
  | NPeek => 4
  | NSleep => 1 + 2 * testing e
  | NClear => 2
  | NLookup w _ => if decide (hd_error L = Some (source w)) then 3 else 6
  | NFulfill w _ _ _ => if decide (hd_error L = Some (source w)) then 2 else 5
  | NSet _ _ _ => 6
  | NExec _ => 5
  | NExit => 0
  end%nat.
Definition quit_weight (q : qpc) : nat := match q with QRaise => 8 | QJoin => 1 | _ => 0 end%nat.
Definition weight (e : event) (h : threads) (L : list positive) : nat :=
  (5 * length L + pc_weight e L (pc h) + 3 * b2n (state e) + 3 * signals e + 7 * raising h + length (execing h) + quit_weight (quitting h))%nat.

(** * The names *)
Lemma strncpy_holds k src t n : Strlcpy.holds src t -> (n <= k)%nat -> strncpy n src = Some (take n (t ++ replicate k 0)).
Proof.
  intros (rest & -> & Ht). revert n. induction Ht as [|c t Hc Ht IH]; intros [|n] Hn; simpl; try done.
  - change 0%Z with 0. rewrite take_replicate. destruct k as [|k]; [lia|]. simpl. by rewrite Nat.min_l by lia.
  - destruct (Z.eqb_spec c 0); [done|]. rewrite IH by lia. done.
Qed.

(** The name, cut after 127 characters. *)
Lemma copied_holds src buf t : copied (Some src) buf -> Strlcpy.holds src t -> exists b, buf = Some b /\ Strlcpy.holds b (take 127 t).
Proof.
  intros (b & Hb & ->) Ht. rewrite (strncpy_holds 128 _ t 128 Ht) in Hb by done.
  apply Some_inj in Hb as <-. eexists. split; [done|].
  destruct Ht as (rest & _ & Ht). set (X := t ++ replicate 128 0).
  assert (length X = (length t + 128)%nat) as Hl by by unfold X; rewrite length_app, length_replicate.
  destruct (lookup_lt_is_Some_2 X 127) as [c Hc]; [lia|].
  rewrite (take_S_r _ _ _ Hc), insert_app_r_alt, length_take, Nat.min_l by (rewrite ?length_take; lia). simpl.
  unfold X. destruct (decide (length t < 127)%nat) as [Hlt|Hlt].
  - rewrite (take_ge t), take_app, take_ge, take_replicate by lia. exists (replicate ((127 - length t) `min` 128) 0).
    split; [|done]. by rewrite <- (assoc_L (++)), <- replicate_S_end.
  - rewrite take_app_le by lia. exists []. split; [done|by apply Forall_take].
Qed.

Section properties.
Context {O : Type} `{!Lookups O, !LookupsLaws O} (head : positive).
Implicit Types (s : adns_resolver O) (h : threads) (L J : list positive).

(** A step keeps the invariant, and leaves less to do. *)
Definition onward (y : nsys O) (n : nat) : Prop :=
  exists L J, adns_inv head (st_ y) (th y) L J /\ (weight (notify (st_ y)) (th y) L < n)%nat.

Lemma with_notify_id s : with_notify (notify s) s = s.
Proof. by destruct s. Qed.

Lemma worker_onward s h L J y' : adns_inv head s h L J -> worker_step head (mk_nsys s h) y' -> onward y' (weight (notify s) h L).
Proof.
  intros H Hs. inversion Hs as [s0 h0 s' Hp E|s0 h0 s' Hp E|s0 h0 s' w Hp E|s0 h0 Hp Ht|s0 h0 Hp|s0 h0 w n s' e i Hp E|
    s0 h0 w n e i s' b Hp E|s0 h0 q e i s' Hp E|s0 h0 q s' Hp E]; subst; unfold onward, weight; cbn [st_ th].
  - destruct (wp_result _ _ _ _ _ (wp_peek head s h L J H) E) as [-> [[_ Hq]|[(? & _)|(? & ? & ? & ? & _)]]]; [|done..].
    exists L, J. cbn. rewrite Hp. cbn. split; [|lia]. rewrite <- with_notify_id at 1. pose proof H as [_ _ _ _ _ He [Q1 Q2 Q3]].
    apply (inv_threads head s h); cbn; rewrite ?Hp; try done. destruct He as [E1 E2 E3 E4]. split; try done. by rewrite Hp in E1.
  - destruct (wp_result _ _ _ _ _ (wp_peek head s h L J H) E) as [-> [[? _]|[(_ & -> & Hq)|(? & ? & ? & ? & _)]]]; [done| |done].
    exists [], J. cbn. pose proof H as [_ _ _ _ _ He Hqt]. pose proof (ev_one _ _ _ He) as E1. rewrite Hp in *. cbn in *. split; [|lia].
    apply (inv_threads head s h); cbn; rewrite ?Hp; try done; [by apply event_enter|]. by apply (quit_running _ h); rewrite ?Hp.
  - destruct (wp_result _ _ _ _ _ (wp_peek head s h L J H) E) as [-> [[? _]|[(? & _)|(w' & L' & x & Ew & EL & Hx & Hq)]]]; [done..|].
    injection Ew as <-. exists L, J. rewrite Hp. cbn. rewrite decide_True by by rewrite EL. split; [|lia]. by eapply inv_peeked.
  - exists L, J. pose proof H as [_ _ _ _ _ He Hqt]. pose proof (event_test _ _ _ He Hp Ht) as He'. destruct He as [E1 _ _ _].
    rewrite Hp in E1 |- *. cbn in E1. split.
    + destruct (state (notify s)); apply (inv_threads head s h); cbn; rewrite ?Hp; try done;
        by apply (quit_running _ h); rewrite ?Hp.
    + unfold thr_event_wait. destruct (state (notify s)); cbn; lia.
  - exists L, J. pose proof H as [_ _ _ _ _ He Hqt]. pose proof (event_clear _ _ _ He Hp) as He'. pose proof (ev_seen _ _ _ He Hp) as Es.
    cbn. rewrite Es, Hp. cbn. split; [|lia]. apply (inv_threads head s h); cbn; rewrite ?Hp; try done.
    by apply (quit_running _ h); rewrite ?Hp.
  - destruct (wp_result _ _ _ _ _ (wp_getaddrinfo head s h L J w n H Hp) E) as [-> H']. exists L, J. split; [exact H'|].
    rewrite Hp. cbn. case_decide; lia.
  - destruct (wp_result _ _ _ _ _ (wp_fulfill_lock head s h L J w n e i H Hp) E) as [-> H'].
    destruct b; [destruct H' as (L' & -> & H')|destruct H' as [H' HL]]; (eexists _, J; split; [exact H'|]); rewrite Hp; cbn.
    + case_decide; lia.
    + rewrite decide_False; [lia|]. destruct L as [|u L]; [done|]. intros [= ->]. by apply (HL L).
  - destruct (wp_result _ _ _ _ _ (wp_fulfill_set head s h L J q e i H Hp) E) as (-> & H' & _).
    exists L, J. split; [exact H'|]. rewrite Hp. cbn. lia.
  - destruct (wp_result _ _ _ _ _ (wp_exec_worker head s h L J q H Hp) E) as (-> & H').
    exists L, (J ++ [q]). split; [exact H'|]. rewrite Hp. cbn. lia.
Qed.

Lemma library_onward s h L J y' : adns_inv head s h L J -> library_step head (mk_nsys s h) y' -> onward y' (weight (notify s) h L).
Proof.
  intros H Hs. inversion Hs as [y y'' Hw|s0 h0 n Hr|s0 h0 Hn|s0 h0 l1 q l2 s' Hx E|s0 h0 Hq|s0 h0 Hq Hp]; subst;
    [by eapply worker_onward|..]; unfold onward, weight; cbn [st_ th]; pose proof H as [_ _ _ _ Hw He [Q1 Q2 Q3]].
  - exists L, J. split; [|cbn; rewrite Hr; unfold thr_event_raise; destruct (state (notify s)), (pc h); cbn; lia].
    apply (inv_threads head s h); try done. by eapply event_raise.
  - exists L, J. split.
    + apply (inv_threads head s h); try done. by apply event_signal.
    + unfold cond_signal. destruct (blocked (notify s)), (pc h); cbn; lia.
  - destruct (wp_result _ _ _ _ _ (wp_exec_cancelled head s h L J q l1 l2 H Hx) E) as (-> & H').
    exists L, (J ++ [q]). split; [exact H'|]. cbn. rewrite Hx, !length_app. cbn. lia.
  - exists L, J. split; [|cbn; rewrite Hq; unfold thr_event_raise; destruct (state (notify s)), (pc h); cbn; lia].
    apply (inv_threads head s h); try done; [by eapply event_raise|]. split; cbn; try done. by rewrite Q1, Hq.
  - exists L, J. rewrite <- (with_notify_id s) at 1. split; [|cbn; rewrite Hq, Hp; cbn; lia].
    pose proof He as [E1 E2 E3 E4]. apply (inv_threads head s h); try done.
    + split; try done. cbn. by rewrite Hp.
    + split; cbn; try done. by rewrite Q1, Hq.
Qed.

Definition good (y : nsys O) : Prop := exists L J, adns_inv head (st_ y) (th y) L J.

Lemma good_step y y' : good y -> nstep head y y' -> good y'.
Proof.
  intros (L & J & H) Hs. destruct Hs as [y y' Hs|s h q s' Hn Hf Hh Hj E|s h q a b k f s' e Hq Hf Hqn Ra Rb E|s h q s' b Hq Hd Hp E|
    s h q s' Hq Hf E|s h q s' Hq Hf E|s h s' Hqn E|s h r t E|s h t f r b Ht Hn Hj E|s h Hb]; cbn [st_ th] in *.
  - destruct y as [s h]. by destruct (library_onward s h L J y' H Hs) as (L' & J' & H' & _); exists L', J'.
  - exists L, J. refine (wp_result _ _ _ _ _ (wp_init head s h L J q H Hn Hf Hh _) E). by apply Hj, H.
  - destruct Hq as [x Hx]. exists (L ++ [q]), J. exact (proj1 (wp_result _ _ _ _ _ (wp_ask head s h L J q x a b k f H Hx Hf Hqn Ra Rb) E)).
  - destruct Hq as [x Hx]. destruct (wp_result _ _ _ _ _ (wp_adns_cancel head s h L J q x H Hx Hp) E) as (_ & L' & H' & _). by exists L', J.
  - destruct Hq as [x Hx]. destruct (wp_result _ _ _ _ _ (wp_adns_clear head s h L J q x H Hx Hf) E) as (H' & _). by exists L, J.
  - exists L, J. exact (wp_result _ _ _ _ _ (wp_destroy head s h L J q H Hq Hf) E).
  - exists L, J. exact (wp_result _ _ _ _ _ (inv_quit_lock head s h L J H Hqn) E).
  - destruct (inv_adns_called head s h L J r t H E) as [J' H']. by exists L, J'.
  - exists L, (J ++ [t]). eapply inv_submitted; [done..|by apply Hj, H|done].
  - exists L, J. pose proof H as [_ _ _ _ Hw He Hq]. apply (inv_threads head s h); try done. by apply event_spurious.
Qed.

Lemma good_reach y : nreach head y -> good y.
Proof.
  induction 1 as [s s' J Hh Hr Hj Hi Hq E|y y' _ IH Hs]; [|by eapply good_step].
  exists [], J. by eapply inv_start.
Qed.

(** ** What the worker will do *)
Lemma runs_on {A} (m : M (adns_resolver O) A) s P : wp m s P -> exists s' a, m s = Ok (s', a) /\ P a s'.
Proof. apply wp_run. Qed.

Lemma worker_waits s h L J : adns_inv head s h L J -> (forall y, ~ worker_step head (mk_nsys s h) y) ->
  pc h = NExit \/ pc h = NSleep /\ blocked (notify s) = 1%nat.
Proof.
  intros H Hn. pose proof H as [_ _ _ _ _ He _]. destruct (pc h) as [| | |w n|w n e i|q e i|q|] eqn:Hp; [..|by left].
  - destruct (runs_on _ _ _ (wp_peek head s h L J H)) as (s' & r & E & -> & [[-> _]|[(-> & _)|(w & L' & x & -> & _)]]); exfalso; eapply Hn;
      [by eapply n_quit|by eapply n_empty|by eapply n_peek].
  - right. split; [done|]. pose proof (ev_one _ _ _ He) as E1. rewrite Hp in E1. cbn in E1.
    destruct (decide (0 < testing (notify s))%nat); [|lia]. exfalso. eapply Hn. by eapply n_test.
  - exfalso. eapply Hn. by eapply n_clear.
  - destruct (runs_on _ _ _ (wp_getaddrinfo head s h L J w n H Hp)) as (s' & [e i] & E & _). exfalso. eapply Hn. by eapply n_lookup.
  - destruct (runs_on _ _ _ (wp_fulfill_lock head s h L J w n e i H Hp)) as (s' & b & E & _). exfalso. eapply Hn. by eapply n_fulfill.
  - destruct (runs_on _ _ _ (wp_fulfill_set head s h L J q e i H Hp)) as (s' & [] & E & _). exfalso. eapply Hn. by eapply n_set.
  - destruct (runs_on _ _ _ (wp_exec_worker head s h L J q H Hp)) as (s' & [] & E & _). exfalso. eapply Hn. by eapply n_exec.
Qed.

(** Nothing is left but what the run queue has. *)
Definition at_rest (y : nsys O) : Prop :=
  (quitting (th y) = QNo -> exists J, SList.is_slist (job_list (rq (st_ y))) J /\ forall q, free (th y) q \/ q ∈ J) /\
  (quitting (th y) <> QNo -> quitting (th y) = QDone).

Lemma stuck_rests y : good y -> (forall y', ~ library_step head y y') -> at_rest y.
Proof.
  intros (L & J & H) Hn. destruct y as [s h]. cbn [st_ th] in *. pose proof H as [Hs Hg _ _ _ He Hqt].
  assert (execing h = []) as Hx.
  { destruct (execing h) as [|q l] eqn:Hx; [done|]. destruct (runs_on _ _ _ (wp_exec_cancelled head s h L J q [] l H Hx)) as (s' & [] & E & _).
    exfalso. eapply Hn. by eapply (l_exec head s h []). }
  assert (raising h = 0%nat) as Hr. { destruct (raising h) eqn:E; [done|]. exfalso. eapply Hn. by eapply l_raise. }
  assert (signals (notify s) = 0%nat) as Hsg. { destruct (signals (notify s)) eqn:E; [done|]. exfalso. eapply Hn. eapply l_signal. lia. }
  assert (quitting h <> QRaise) as Hq. { intros Eq. eapply Hn. by eapply l_quit. }
  destruct (worker_waits s h L J H) as [Hp|[Hp Hb]]; [intros y Hy; eapply Hn; by apply l_worker|..]; (split; cbn; [intros Eq|intros Eq]).
  - by destruct (qt_exit _ _ Hqt Hp).
  - destruct (quitting h) eqn:Ed; try done. exfalso. eapply Hn. by eapply l_join.
  - assert (state (notify s) = false) as Es.
    { destruct (state (notify s)) eqn:Es; [|done]. pose proof (ev_signalled _ _ _ He Es). lia. }
    assert (L = []) as ->.
    { destruct (decide (L = [])); [done|]. destruct (ev_awake _ _ _ He Hp) as [?|[?|?]]; [by left|congruence|lia|congruence]. }
    exists J. split; [apply Hs|]. intros q. destruct (ledger_due _ _ _ _ Hg q) as [?|(_ & Hd & _)]; [by left|right].
    unfold due, ours in Hd. rewrite Hp, Hx in Hd. set_solver.
  - assert (state (notify s) = true \/ (0 < raising h)%nat \/ quitting h = QRaise) as [Es|[?|?]] by (apply (ev_awake _ _ _ He Hp); by right);
      [|lia|done]. pose proof (ev_signalled _ _ _ He Es). lia.
Qed.

Lemma library_acc y : good y -> Acc (fun y2 y1 => library_step head y1 y2) y.
Proof.
  intros (L & J & H). destruct y as [s h]. cbn [st_ th] in *. remember (weight (notify s) h L) as n eqn:En. revert s h L J H En.
  induction (lt_wf n) as [n _ IH]. intros s h L J H ->. constructor. intros [s' h'] Hs.
  destruct (library_onward s h L J _ H Hs) as (L' & J' & H' & Hlt). by eapply IH.
Qed.

Lemma good_rtc y y' : good y -> rtc (library_step head) y y' -> good y'.
Proof. intros Hg Hs. induction Hs as [|y1 y2 y3 H1 _ IH]; [done|]. apply IH. eapply good_step; [exact Hg|by apply s_library]. Qed.
End properties.

Section theorem.
Context {O : Type} `{!Lookups O, !LookupsLaws O} (head : positive).
Implicit Types (y : nsys O).

(** The answers that are allocated: each has one owner. *)
Definition answers_owned y : Prop :=
  (forall i, i ∈ infos (os (st_ y)) <-> exists k, owned_by (reqs (st_ y)) (pc (th y)) k = Some i) /\
  (forall k k' i, owned_by (reqs (st_ y)) (pc (th y)) k = Some i -> owned_by (reqs (st_ y)) (pc (th y)) k' = Some i -> k = k').

Lemma busy_listed (s : adns_resolver O) h L J w n x : adns_inv head s h L J -> work (pc h) = Some (w, n) ->
  reqs s !! source w = Some x -> flags x = REQUEST_BUSY -> source w ∈ L.
Proof.
  intros [_ _ Hr _ _ _ _] Hw Hx Hf. destruct (Hr _ _ Hx) as (R1 & _). rewrite Hf in R1. case_decide as Hd; [|done].
  by destruct (pc h); cbn in *; rewrite ?app_nil_r in Hd.
Qed.

(** C37. Clients ask, cancel, clear and destroy, the resolver is torn down, the run
    queue calls, in any order: a request is asked for once more than its callback has
    been called, or as often.  The threads in the library come to rest, and then the
    run queue has every request that has not been answered; or, if the resolver is
    being destroyed, the worker has ended.  The answers that are allocated are those of
    the requests, and the one the worker has, and no two share one: none leaks, and
    none is freed twice.  A lookup for a request that was not cancelled and asked again
    since is for its question, with names cut after 127 characters, and its answer
    becomes the request's; one that was asked again can be given the old answer
    ([answer_stale]).  No call that a client may make goes wrong, where a client does
    not cancel a request while the worker writes its answer ([cancel_crashes]); a
    request that is made is busy with its new question and no result, and one that
    was cancelled has none. *)
Theorem adns_answers y : nreach head y ->
  (forall q, free (th y) q \/ is_Some (reqs (st_ y) !! q) /\ asked_n (th y) q = Datatypes.S (called_n (th y) q)) /\
  Acc (fun y2 y1 => library_step head y1 y2) y /\
  (forall y', rtc (library_step head) y y' -> (forall y'', ~ library_step head y' y'') -> at_rest y') /\
  answers_owned y /\
  (forall w n x, work (pc (th y)) = Some (w, n) -> reqs (st_ y) !! source w = Some x -> flags x = REQUEST_BUSY ->
     asked_n (th y) (source w) = n -> question x w /\
     (forall src t, hostname x = Some src -> Strlcpy.holds src t -> exists b, host w = Some b /\ Strlcpy.holds b (take 127 t)) /\
     forall e i, pc (th y) = NFulfill w n e i ->
       wp (b ← fulfill_lock head (source w) i; when b (fulfill_set (source w) e i)) (st_ y) (fun _ s' =>
         exists x', reqs s' !! source w = Some x' /\ adns_get_result x' = i /\ adns_get_error x' = e)) /\
  (forall q x, reqs (st_ y) !! q = Some x ->
     (free (th y) q -> ends (adns_clear_result q) (st_ y) /\ ends (adns_request_destroy q) (st_ y) /\
        forall a b k f, quitting (th y) = QNo -> readable a -> readable b ->
          wp (adns_request_ask head q a b k f) (st_ y) (fun _ s' => reqs s' !! q = Some (mk_req REQUEST_BUSY a b k None (error x)))) /\
     ((forall e i, pc (th y) <> NSet q e i) -> wp (adns_request_cancel q) (st_ y) (fun b s' =>
        b = truth (Z.land (flags x) REQUEST_BUSY) /\
        (b = true -> exists x', reqs s' !! q = Some x' /\ flags x' = 0 /\ adns_get_result x' = None)))).
Proof.
  intros Hg%good_reach. split_and!.
  - intros q. destruct Hg as (L & J & H). destruct (ledger_due _ _ _ _ (ai_ledger _ _ _ _ _ H) q) as [?|(? & _ & ?)]; [by left|by right].
  - by apply library_acc.
  - intros y' Hy'. apply stuck_rests. by eapply good_rtc.
  - destruct Hg as (L & J & H). apply H.
  - destruct Hg as (L & J & H). intros w n x Hw Hx Hf Hn. pose proof (busy_listed _ _ _ _ _ _ _ H Hw Hx Hf) as Hi.
    destruct (ai_work _ _ _ _ _ H w n Hw) as (_ & _ & Hq). destruct (Hq Hi Hn) as ([L' ->] & x' & Hx' & Hqu).
    rewrite Hx in Hx'. injection Hx' as <-. split; [done|]. split.
    + intros src t Es Ht. destruct Hqu as (Hh & _). rewrite Es in Hh. by eapply copied_holds.
    + intros e i Hp. wp_bind. eapply wp_mono; [by eapply wp_fulfill_lock|]. intros b s' [_ Hb]. destruct b; [|destruct Hb as [_ Hne]; by destruct (Hne L')].
      destruct Hb as (L1 & _ & H'). eapply wp_mono; [by eapply wp_fulfill_set|]. by intros [] s2 (_ & _ & Hres).
  - destruct Hg as (L & J & H). intros q x Hx. assert (is_Some (reqs (st_ y) !! q)) as Hs by by exists x. split.
    + intros Hf. split_and!; [eapply ends_wp; by eapply wp_adns_clear|eapply ends_wp; by eapply wp_destroy|].
      intros. eapply wp_mono; [by eapply wp_ask|]. by intros e s' [_ Hr].
    + intros Hp. eapply wp_mono; [by eapply wp_adns_cancel|]. intros b s' (Eb & L' & H' & Hc). split; [done|]. intros ->.
      eexists. split; [by apply Hc|]. split; [done|]. cbn. destruct (ai_req _ _ _ _ _ H q x Hx) as (_ & R2 & _).
      apply R2. pose proof (ai_req _ _ _ _ _ H q x Hx) as Hr. apply busy_flag in Hr. rewrite <- Eb in Hr. by symmetry in Hr; apply bool_decide_eq_true in Hr.
Qed.
End theorem.

(** * Where the code goes wrong *)

(** Answers by number; without a host there is none. *)
#[export] Instance ex_lookups : Lookups (gset positive) := {
  infos o := o;
  sys_getaddrinfo a b k o := match a with Some _ => let i := fresh o in ({[i]} ∪ o, (0, Some i)) | None => (o, (-2, None)) end;
  sys_freeaddrinfo i o := o ∖ {[i]};
}.
#[export] Instance ex_lookups_laws : LookupsLaws (gset positive).
Proof.
  split; [|done]. intros [a|] b k o o' e i; simpl; intros [= <- <- <-]; [|done]. split; [apply is_fresh|done].
Qed.

Definition after {A} (m : M (adns_resolver (gset positive)) A) (s : adns_resolver (gset positive)) : adns_resolver (gset positive) :=
  match m s with Ok (s', _) => s' | _ => s end.
Definition ex_name (c : Z) : option (list Z) := Some [c; 0].
Definition ex_work (c : Z) : work_req := mk_work 2 (Some (c :: replicate 127 0)) None None.

(** A resolver whose list has its head at 1, and a request at 2 that has been made. *)
Definition ex_blank : adns_resolver (gset positive) := mk_resolver 0 thr_event_init {[1%positive := DList.mk_lnode None None]} ∅
  (mk_runq (SList.mk_slist None None ∅) ∅ false true 1) ∅.
Definition ex_init := after (adns_resolver_init 1 0 0) ex_blank.
Definition ex_fresh := after (adns_request_init 2) ex_init.
Definition ex_asked (a : option (list Z)) := after (adns_request_ask 1 2 a None None 7) ex_fresh.
Definition ex_threads (p : npc) (r : nat) (x a c : list positive) : threads := mk_threads p r x QNo a c.

Lemma ex_asked_reach a : readable a -> nreach 1 (mk_nsys (ex_asked a) (ex_threads NPeek 1 [] [2%positive] [])).
Proof.
  intros Ha. eapply n_next.
  - eapply n_next.
    + apply (n_start 1 ex_blank ex_init []); [by eexists|done|split; [constructor|done]|done|done|by vm_compute].
    + apply (s_init 1 ex_init (ex_threads NPeek 0 [] [] []) 2 ex_fresh); [done|done|done| |by vm_compute].
      intros J HJ. assert (J = []) as -> by (eapply SList.slist_det; [exact HJ|split; [constructor|done]]). set_solver.
  - apply (s_ask 1 ex_fresh (ex_threads NPeek 0 [] [] []) 2 a None None 7 (ex_asked a) true); [by eexists|done|done|done|done|by vm_compute].
Qed.

Definition ex_looking (a : option (list Z)) (w : work_req) : nsys (gset positive) :=
  mk_nsys (ex_asked a) (ex_threads (NLookup w 1) 1 [] [2%positive] []).

Lemma ex_looking_reach a w : readable a -> peek_request 1 (ex_asked a) = Ok (ex_asked a, (1, Some w)) -> source w = 2%positive ->
  nreach 1 (ex_looking a w).
Proof.
  intros Ha E Hw. eapply n_next; [by apply (ex_asked_reach a)|]. apply s_library, l_worker.
  pose proof (n_peek 1 (ex_asked a) (ex_threads NPeek 1 [] [2%positive] []) (ex_asked a) w eq_refl E) as Hs. by rewrite Hw in Hs.
Qed.

Definition ex_found : nsys (gset positive) :=
  mk_nsys (after (getaddrinfo (ex_work 97)) (ex_asked (ex_name 97)))
    (ex_threads (NFulfill (ex_work 97) 1 0 (Some 1%positive)) 1 [] [2%positive] []).

Lemma ex_found_reach : nreach 1 ex_found.
Proof.
  eapply n_next; [apply (ex_looking_reach (ex_name 97) (ex_work 97)); [by eexists|by vm_compute|done]|]. apply s_library, l_worker.
  eapply (n_lookup 1 (ex_asked (ex_name 97)) (ex_threads (NLookup (ex_work 97) 1) 1 [] [2%positive] [])); [done|by vm_compute].
Qed.

Lemma adns_answers_witness : nreach 1 ex_found /\ asked_n (th ex_found) 2 = 1%nat /\ answers_owned ex_found /\
  Acc (fun y2 y1 => library_step 1 y1 y2) ex_found /\
  wp (b ← fulfill_lock 1 2 (Some 1%positive); when b (fulfill_set 2 0 (Some 1%positive))) (st_ ex_found) (fun _ s' =>
    exists x', reqs s' !! 2%positive = Some x' /\ adns_get_result x' = Some 1%positive).
Proof.
  destruct (adns_answers 1 ex_found ex_found_reach) as (H1 & H2 & _ & H4 & H5 & _). split_and!; [exact ex_found_reach|done|done|done|].
  destruct (H5 (ex_work 97) 1%nat (mk_req 1 (ex_name 97) None None None 0)) as (_ & _ & Hf); [done|by vm_compute|done|done|].
  eapply wp_mono; [by apply (Hf 0 (Some 1%positive))|]. intros _ s' (x & Hx & Hr & _). by exists x.
Defined.

(** [thr_start] returns what pthread_create(3) does, a positive number when it
    fails: the resolver counts as made, but there is no worker. *)
Lemma init_without_worker {O : Type} `{!Lookups O} head (s : adns_resolver O) e : is_Some (requests s !! head) -> 0 < e ->
  wp (adns_resolver_init head 0 e) s (fun r _ => r = 0).
Proof.
  intros Hh He. unfold adns_resolver_init. wp_bind. apply wp_modify. wp_bind. apply wp_adns_on_list.
  eapply wp_mono; [by apply DList.wp_list_init|]. intros [] l _. cbn. by destruct (Z.ltb_spec e 0); [lia|].
Qed.

(** [fulfill_request] takes the request from the list, unlocks, and clears its flag
    then: [adns_request_cancel] in between removes it again, through the pointers that
    [list_remove] has cleared. *)
Example cancel_crashes : exists y e i, nreach 1 y /\ pc (th y) = NSet 2 e i /\ adns_request_cancel 2 (st_ y) = Crash.
Proof.
  eexists (mk_nsys (after (fulfill_lock 1 2 (Some 1%positive)) (st_ ex_found)) (with_pc (NSet 2 0 (Some 1%positive)) (th ex_found))), _, _.
  split; [|split; [done|by vm_compute]]. eapply n_next; [apply ex_found_reach|]. apply s_library, l_worker.
  apply (n_fulfill 1 (st_ ex_found) (th ex_found) (ex_work 97) 1 0 (Some 1%positive) _ true); [done|by vm_compute].
Qed.

(** A request that is cancelled during its lookup and made again, for another name,
    is the first of the list again: it gets the answer for the old name. *)
Definition ex_called (y : adns_resolver (gset positive)) : adns_resolver (gset positive) :=
  match run_one (rq y) with Ok (r, _) => with_rq r y | _ => y end.
Definition ex_again : adns_resolver (gset positive) :=
  after (adns_request_ask 1 2 (ex_name 98) None None 7)
    (ex_called (after (exec_task 2) (after (adns_request_cancel 2) (ex_asked (ex_name 97))))).

Example answer_stale : exists y w n e i x s', nreach 1 y /\ pc (th y) = NFulfill w n e i /\ reqs (st_ y) !! source w = Some x /\
  hostname x = ex_name 98 /\ host w = Some (97 :: replicate 127 0) /\ fulfill_lock 1 (source w) i (st_ y) = Ok (s', true).
Proof.
  exists (mk_nsys (after (getaddrinfo (ex_work 97)) ex_again)
    (ex_threads (NFulfill (ex_work 97) 1 0 (Some 1%positive)) 2 [] [2%positive; 2%positive] [2%positive])).
  do 6 eexists. split; [|split; [done|split; [by vm_compute|split; [done|split; [done|by vm_compute]]]]].
  set (c := after (adns_request_cancel 2) (ex_asked (ex_name 97))). set (d := after (exec_task 2) c).
  assert (nreach 1 (mk_nsys d (ex_threads (NLookup (ex_work 97) 1) 1 [] [2%positive] []))) as Hd.
  { eapply n_next; [eapply n_next; [apply (ex_looking_reach (ex_name 97) (ex_work 97)); [by eexists|by vm_compute|done]|]|].
    - apply (s_cancel 1 (ex_asked (ex_name 97)) (ex_threads (NLookup (ex_work 97) 1) 1 [] [2%positive] []) 2 c true);
        [by eexists|done|done|by vm_compute].
    - apply s_library. apply (l_exec 1 c (ex_threads (NLookup (ex_work 97) 1) 1 [2%positive] [2%positive] []) [] 2 [] d); [done|by vm_compute]. }
  eapply n_next; [eapply n_next; [eapply n_next; [exact Hd|]|]|].
  - eapply (s_call 1 d (ex_threads (NLookup (ex_work 97) 1) 1 [] [2%positive] [])); by vm_compute.
  - apply (s_ask 1 (ex_called d) (ex_threads (NLookup (ex_work 97) 1) 1 [] [2%positive] [2%positive]) 2 (ex_name 98) None None 7 ex_again true);
      [by eexists|done|done|by eexists|done|by vm_compute].
  - apply s_library, l_worker. apply (n_lookup 1 ex_again (ex_threads (NLookup (ex_work 97) 1) 2 [] [2%positive; 2%positive] [2%positive]));
      [done|by vm_compute].
Qed.

(** A request that is cancelled keeps the error of an earlier answer. *)
Lemma cancel_keeps_error {O : Type} `{!Lookups O, !LookupsLaws O} head (s : adns_resolver O) h L J q x a b k f :
  adns_inv head s h L J -> reqs s !! q = Some x -> free h q -> quitting h = QNo -> readable a -> readable b ->
  (forall e i, pc h <> NSet q e i) ->
  wp (adns_request_ask head q a b k f;; adns_request_cancel q) s (fun c s' => c = true /\
    exists x', reqs s' !! q = Some x' /\ adns_get_error x' = adns_get_error x).
Proof.
  intros H Hx Hf Hq Ra Rb Hp. wp_bind. eapply wp_mono; [by eapply wp_ask|]. intros e s1 [H1 Hx1].
  eapply wp_mono; [by eapply (wp_adns_cancel head s1 _ (L ++ [q]) J q _ H1 Hx1)|]. intros c s2 (-> & L' & _ & Hc). split; [done|].
  eexists. split; [by apply Hc|done].
Qed.
