(* ===== verification/Iocp.v ===== *)
(** Model of src/io/ioq_windows.h and src/io/ioq_windows.c: a queue of tasks and
    timers on an I/O completion port, and the operations that wait for its packets.

    An [ioq_ovl] is one object: the same address stands for it, its OVERLAPPED and its
    task.  The port belongs to the operating system: it is a class.  [port_step] is
    what threads that dispatch the queue do to the operations of one user.  At the end,
    what an iteration does when one thread dispatches the queue, and creation. *)
From S2P Require Import Prelude Lists Rbt RbtMain Runq RunqMain Waitq WaitqMain.

Definition INFINITE : Z := 4294967295.

(** The operations whose packet has not been taken from the port; the handles bound
    to it.  Binding returns an error number. *)
Class Ports (K : Type) := {
  pending : K -> gset positive;
  bound : K -> gset Z;
  bind_port : Z -> K -> K * Z;
  post_null : K -> K;
  get_packet : Z -> K -> K * option positive;
}.

(** CreateIoCompletionPort, PostQueuedCompletionStatus, GetQueuedCompletionStatus. *)
Class PortsLaws (K : Type) `{Ports K} := {
  bind_pending h k : pending (bind_port h k).1 = pending k;
  bind_bound h k k' e : bind_port h k = (k', e) -> bound k' = if e =? 0 then {[h]} ∪ bound k else bound k;
  null_keeps k : pending (post_null k) = pending k /\ bound (post_null k) = bound k;
  packet_pending t k k' r : get_packet t k = (k', r) ->
    match r with Some o => o ∈ pending k /\ pending k' = pending k ∖ {[o]} | None => pending k' = pending k end;
  packet_bound t k : bound (get_packet t k).1 = bound k;
}.

Section iocp.
Context {K : Type} `{!Ports K}.

Record ioq := mk_ioq {
  wait : waitq;  (** and the run queue *)
  kern : K;
}.

Definition run (q : ioq) : runq := Waitq.run (wait q).
Definition set_wait (w : waitq) (q : ioq) : ioq := mk_ioq w (kern q).
Definition set_kern (k : K) (q : ioq) : ioq := mk_ioq (wait q) k.
Definition set_run (r : runq) (q : ioq) : ioq := set_wait (with_run r (wait q)) q.

Definition on_wait {A} (m : M waitq A) : M ioq A := fun q =>
  match m (wait q) with
  | Ok (w, a) => Ok (set_wait w q, a)
  | Crash => Crash
  | NoFuel => NoFuel
  end.
Definition on_runq {A} (m : M runq A) : M ioq A := on_wait (on_run m).
Definition kcall {A} (c : K -> K * A) : M ioq A :=
  q ← get; let '(k, a) := c (kern q) in put (set_kern k q);; ret a.

(** The result, and the error. *)
Definition ioq_bind (h : Z) : M ioq (Z * Z) := e ← kcall (bind_port h); ret (if e =? 0 then 0 else -1, e).

Definition ioq_ovl_wait (o : positive) (f : Z) : M ioq unit := on_runq (set_task_func o f).
Definition ioq_ovl_trigger (o : positive) : M ioq unit :=
  q ← get; f ← need (func (run q) !! o); _ ← on_runq (task_exec_lock o f); ret tt.
Definition ioq_notify : M ioq unit := kcall (fun k => (post_null k, tt)).

(** ** An iteration: one packet at most, then timers and tasks *)
Definition poll (now : Z) : M ioq unit :=
  timeout ← on_wait (waitq_next_deadline now);
  o ← kcall (get_packet (if timeout <? 0 then INFINITE else timeout));
  match o with Some o => ioq_ovl_trigger o | None => ret tt end.

Section iterate.
(** A task's function. *)
Context (call : positive -> Z -> M ioq unit).

Definition on_split {A} (m : M (runq * ioq) A) : M ioq A := fun q =>
  match m (run q, q) with
  | Ok ((r, q'), a) => Ok (set_run r q', a)
  | Crash => Crash
  | NoFuel => NoFuel
  end.
Definition split_call (t : positive) (f : Z) : M (runq * ioq) unit := fun s =>
  match call t f (set_run s.1 s.2) with
  | Ok (q, a) => Ok ((run q, q), a)
  | Crash => Crash
  | NoFuel => NoFuel
  end.

(** [now] is the clock when the deadline is looked up, [now'] when timers expire;
    [fuel] bounds the timers and the tasks. *)
Definition ioq_iterate (fuel : nat) (now now' : Z) : M ioq Z :=
  poll now;;
  on_wait (waitq_dispatch fuel now' 0);;
  on_split (runq_dispatch split_call fuel 0);;
  ret 0.
End iterate.
End iocp.
Arguments ioq K : clear implicits.

(** * Creation *)

(** What [ioq_init] acquires; each call gives 0 or an error number. *)
Inductive resource := RUNQ | WAITQ | IOCP.
#[export] Instance iocp_resource_dec : EqDecision resource.
Proof. solve_decision. Defined.

(** The result and [syserr_last()]. *)
Definition ioq_init (runq_err iocp_err : Z) : M (list resource) (Z * Z) :=
  if negb (runq_err =? 0) then ret (-1, runq_err)
  else
    acquire RUNQ;; acquire WAITQ;;
    if negb (iocp_err =? 0) then release WAITQ;; release RUNQ;; ret (-1, iocp_err)
    else acquire IOCP;; ret (0, 0).

Definition ioq_destroy : M (list resource) unit := release IOCP;; release WAITQ;; release RUNQ.

(** * The operations of one user

    [calling]: tasks the run queue has taken whose function has not called back;
    [asked] and [called] are the history. *)
Record hist := mk_hist {
  calling : list positive;
  asked : list positive;
  called : list positive;
}.
Definition asked_n (h : hist) (o : positive) : nat := count_occ Pos.eq_dec (asked h) o.
Definition called_n (h : hist) (o : positive) : nat := count_occ Pos.eq_dec (called h) o.
(** Nothing is outstanding. *)
Definition free (h : hist) (o : positive) : Prop := asked_n h o = called_n h o.

Section user.
Context {K : Type} `{!Ports K} (D : positive -> Prop) `{Dd : forall o, Decision (D o)}.
Implicit Types (q : ioq K) (h : hist).

(** A thread takes a packet, or a task; other users submit tasks, set timers and
    post packets. *)
Inductive port_step : ioq K -> hist -> ioq K -> hist -> Prop :=
  | p_poll q h now q' : poll now q = Ok (q', tt) -> port_step q h q' h
  | p_call q h r t : run_one (run q) = Ok (r, (1, Some t)) ->
      port_step q h (set_run r q) (mk_hist (calling h ++ if decide (D t) then [t] else []) (asked h) (called h))
  | p_submit q h t f r b : ~ D t -> is_Some (SList.snodes (job_list (run q)) !! t) ->
      (forall J, SList.is_slist (job_list (run q)) J -> t ∉ J) -> task_exec_lock t f (run q) = Ok (r, b) ->
      port_step q h (set_run r q) h
  | p_timers q h w : Waitq.run w = run q -> port_step q h (set_wait w q) h
  | p_notify q h q' : ioq_notify q = Ok (q', tt) -> port_step q h q' h.

(** ** The invariant: an operation that is outstanding is in one place *)
Definition place (q : ioq K) (h : hist) (J : list positive) (o : positive) : nat :=
  (b2n (bool_decide (o ∈ pending (kern q))) + count_occ Pos.eq_dec J o + count_occ Pos.eq_dec (calling h) o)%nat.

Record user_ok (q : ioq K) (h : hist) (J : list positive) : Prop := {
  uo_jobs : jobs_ok D (run q) J;
  uo_mine o : o ∈ pending (kern q) \/ o ∈ calling h -> D o;
  uo_count o : D o -> asked_n h o = (called_n h o + place q h J o)%nat /\ (place q h J o <= 1)%nat;
}.

(** The operating system, the run queue or the user's function has it. *)
Definition underway (q : ioq K) (h : hist) (o : positive) : Prop :=
  o ∈ pending (kern q) \/ (exists J, SList.is_slist (job_list (run q)) J /\ o ∈ J) \/ o ∈ calling h.
End user.

(** * What keeps it *)
Section keeps.
Context {K : Type} `{!Ports K, !PortsLaws K} (D : positive -> Prop) `{Dd : forall o, Decision (D o)}.
Implicit Types (q : ioq K) (h : hist) (J : list positive).

Lemma wp_on_runq {A} (m : M runq A) q P : wp m (run q) (fun a r => P a (set_run r q)) -> wp (on_runq m) q P.
Proof. unfold wp, on_runq, on_wait, on_run, run. by destruct (m _) as [[r a]| |]. Qed.
Lemma wp_kcall {A} (c : K -> K * A) q P : (forall k a, c (kern q) = (k, a) -> P a (set_kern k q)) -> wp (kcall c) q P.
Proof. intros HP. unfold kcall. wp_bind. apply wp_get. destruct (c (kern q)) as [k a]. wp_bind. by apply wp_put, wp_ret, HP. Qed.

Lemma user_free q h J o : user_ok D q h J -> D o -> free h o -> o ∉ pending (kern q) /\ o ∉ J /\ o ∉ calling h.
Proof.
  intros H Ho Hf. destruct (uo_count _ _ _ _ H o Ho) as [Hc _]. unfold free in Hf. unfold place in Hc.
  rewrite !list_elem_of_In, !(count_occ_In Pos.eq_dec). case_bool_decide; simpl in Hc; split_and!; (done || lia).
Qed.

Lemma user_underway q h J o : user_ok D q h J -> D o -> free h o \/ asked_n h o = Datatypes.S (called_n h o) /\ underway q h o.
Proof.
  intros H Ho. destruct (uo_count _ _ _ _ H o Ho) as [Hc Hle]. unfold free. destruct (decide (place q h J o = 0%nat)); [left; lia|right].
  split; [lia|]. unfold place in n. destruct (decide (o ∈ pending (kern q))); [by left|]. rewrite bool_decide_eq_false_2 in n by done.
  destruct (decide (o ∈ J)) as [Hi|Hi]; [right; left; exists J; split; [apply H|done]|].
  rewrite list_elem_of_In, (count_occ_In Pos.eq_dec) in Hi. right. right. rewrite list_elem_of_In, (count_occ_In Pos.eq_dec). simpl in n. lia.
Qed.

(** A request goes to the operating system, or to the run queue at once; and the call
    that answers it. *)
Definition ask (h : hist) (o : positive) : hist := mk_hist (calling h) (asked h ++ [o]) (called h).

Lemma count_one (l : list positive) x o : count_occ Pos.eq_dec (l ++ [x]) o = (count_occ Pos.eq_dec l o + b2n (bool_decide (o = x)))%nat.
Proof. rewrite count_occ_app. simpl. by destruct (Pos.eq_dec x o); case_bool_decide; subst. Qed.

Lemma free_ask h o u : o <> u -> free (ask h o) u <-> free h u.
Proof. intros Hn. unfold free, asked_n, called_n, ask. cbn. rewrite count_one, bool_decide_eq_false_2 by congruence. simpl. lia. Qed.
Lemma free_busy h o : free h o -> ~ free (ask h o) o.
Proof. unfold free, asked_n, called_n, ask. cbn. rewrite count_one, bool_decide_eq_true_2 by done. simpl. lia. Qed.
Lemma free_called h l o u : o <> u -> free (mk_hist l (asked h) (called h ++ [o])) u <-> free h u.
Proof. intros Hn. unfold free, asked_n, called_n. cbn. rewrite count_one, bool_decide_eq_false_2 by congruence. simpl. lia. Qed.
Lemma user_answered q h J l l1 o l2 : user_ok D q h J -> calling h = l1 ++ o :: l2 -> free (mk_hist l (asked h) (called h ++ [o])) o.
Proof.
  intros H El. assert (D o) as Ho by (apply (uo_mine _ _ _ _ H); rewrite El; set_solver). destruct (uo_count _ _ _ _ H o Ho) as [Hc Hle].
  unfold free, asked_n, called_n, place in *. cbn. rewrite El, count_occ_app in *. simpl in *. destruct (Pos.eq_dec o o); [|done]. lia.
Qed.

Lemma user_same q h J q' : user_ok D q h J -> jobs_ok D (run q') J -> pending (kern q') = pending (kern q) -> user_ok D q' h J.
Proof. intros [H1 H2 H3] Hj Hp. split; [done|by rewrite Hp|]. unfold place in *. by rewrite Hp. Qed.

Lemma user_ask_pending q h J o q' : user_ok D q h J -> D o -> free h o -> jobs_ok D (run q') J ->
  pending (kern q') = {[o]} ∪ pending (kern q) -> user_ok D q' (ask h o) J.
Proof.
  intros H Ho Hf Hj Hp. destruct (user_free _ _ _ _ H Ho Hf) as (Hn & _ & _). split; [done| |].
  - rewrite Hp. intros u [Hu|Hu]; [|by apply (uo_mine _ _ _ _ H); right].
    apply elem_of_union in Hu as [->%elem_of_singleton|Hu]; [done|]. apply (uo_mine _ _ _ _ H). by left.
  - intros u Hu. destruct (uo_count _ _ _ _ H u Hu) as [Hc Hle]. unfold free in Hf. unfold place, asked_n, called_n, ask in *. cbn.
    rewrite Hp, count_one. destruct (decide (u = o)) as [->|Hne].
    + rewrite !bool_decide_eq_true_2 by set_solver. rewrite bool_decide_eq_false_2 in Hc by done. simpl in *. lia.
    + rewrite (bool_decide_eq_false_2 (u = o)) by done. rewrite (bool_decide_ext _ (u ∈ pending (kern q))) by set_solver. simpl. lia.
Qed.

Lemma user_ask_queued q h J o q' : user_ok D q h J -> D o -> free h o -> jobs_ok D (run q') (J ++ [o]) ->
  pending (kern q') = pending (kern q) -> user_ok D q' (ask h o) (J ++ [o]).
Proof.
  intros H Ho Hf Hj Hp. split; [done|by rewrite Hp; apply H|]. intros u Hu. destruct (uo_count _ _ _ _ H u Hu) as [Hc Hle].
  unfold free in Hf. unfold place, asked_n, called_n, ask in *. cbn. rewrite Hp, !count_one.
  destruct (decide (u = o)) as [->|Hne]; [rewrite (bool_decide_eq_true_2 (o = o)) by done|rewrite (bool_decide_eq_false_2 (u = o)) by done]; simpl; lia.
Qed.

Lemma user_called q h J o q' l1 l2 : user_ok D q h J -> calling h = l1 ++ o :: l2 -> jobs_ok D (run q') J ->
  pending (kern q') = pending (kern q) -> user_ok D q' (mk_hist (l1 ++ l2) (asked h) (called h ++ [o])) J.
Proof.
  intros H El Hj Hp. split; [done| |].
  - rewrite Hp. intros u Hu. apply (uo_mine _ _ _ _ H). rewrite El. cbn in Hu. set_solver.
  - intros u Hu. destruct (uo_count _ _ _ _ H u Hu) as [Hc Hle]. unfold place, asked_n, called_n in *. cbn. rewrite Hp, count_one.
    rewrite El, !count_occ_app in *. simpl in *. destruct (decide (u = o)) as [->|Hne].
    + rewrite (bool_decide_eq_true_2 (o = o)) by done. destruct (Pos.eq_dec o o); [simpl; lia|done].
    + rewrite (bool_decide_eq_false_2 (u = o)) by done. destruct (Pos.eq_dec o u); [congruence|simpl; lia].
Qed.

(** ** The threads of the queue *)
Lemma wp_trigger q J o P : jobs_ok D (run q) J -> D o -> o ∉ J ->
  (forall r, jobs_ok D r (J ++ [o]) -> func r = func (run q) -> P tt (set_run r q)) -> wp (ioq_ovl_trigger o) q P.
Proof.
  intros Hj Ho Hn HP. destruct (jo_tasks _ _ _ Hj o Ho) as [Hs [f Hf]]. unfold ioq_ovl_trigger. wp_bind. apply wp_get.
  wp_bind. apply (wp_need _ f); [done|]. wp_bind. apply wp_on_runq.
  destruct (jobs_exec _ _ _ o f Hj Hs Hn) as (r & b & E & Hj' & Ef). unfold wp. rewrite E. apply wp_ret, HP; [done|].
  by rewrite Ef, insert_id.
Qed.

Lemma deadline_keeps now q q' t : on_wait (waitq_next_deadline now) q = Ok (q', t) -> run q' = run q /\ kern q' = kern q.
Proof.
  unfold on_wait, waitq_next_deadline, bind, wset, get, ret. destruct (RbtIter.rbt_iter_first _) as [[w n]| |]; [|done..].
  destruct n as [n|]; [|by intros [= <- _]]. destruct (_ <? now); by intros [= <- _].
Qed.

(** What such a thread leaves as it is. *)
Definition kept q q' : Prop := (forall o, D o -> func (run q') !! o = func (run q) !! o) /\
  (kern q' = kern q \/ (exists t, kern q' = (get_packet t (kern q)).1) \/ kern q' = post_null (kern q)).

Lemma poll_keeps q h J now q' : user_ok D q h J -> poll now q = Ok (q', tt) -> exists J', user_ok D q' h J' /\ kept q q'.
Proof.
  intros H E. unfold poll, bind at 1 in E. destruct (on_wait _ q) as [[q1 t]| |] eqn:E1; [|done..].
  destruct (deadline_keeps _ _ _ _ E1) as [Er Ek]. assert (user_ok D q1 h J) as H1.
  { apply (user_same q); [done|rewrite Er; apply H|by rewrite Ek]. }
  set (tm := if t <? 0 then INFINITE else t) in E. unfold kcall, bind, get, put, ret in E.
  destruct (get_packet tm (kern q1)) as [k r] eqn:Eg. pose proof (packet_pending _ _ _ _ Eg) as Hp.
  assert (kern q' = k -> kept q q' <-> forall o, D o -> func (run q') !! o = func (run q) !! o) as Hk.
  { intros Eq. unfold kept. split; [by intros []|]. intros Hf. split; [done|]. right. left. exists tm. by rewrite Eq, <- Ek, Eg. }
  destruct r as [o|].
  - destruct Hp as [Hi Hp]. assert (D o) as Ho by (apply (uo_mine _ _ _ _ H1); by left).
    destruct (uo_count _ _ _ _ H1 o Ho) as [_ Hle]. unfold place in Hle. rewrite bool_decide_eq_true_2 in Hle by done.
    assert (o ∉ J) as Hn by (rewrite list_elem_of_In, (count_occ_In Pos.eq_dec); simpl in Hle; lia).
    refine (wp_result _ _ q' tt (fun _ q' => exists J', user_ok D q' h J' /\ kept q q') _ E).
    apply (wp_trigger _ J o); [apply H1|done|done|]. intros r Hr Ef. exists (J ++ [o]). split.
    + destruct H1 as [_ Hm Hc]. split; [done| |].
      * cbn. rewrite Hp. intros u Hu. apply Hm. set_solver.
      * intros u Hu. destruct (Hc u Hu) as [Hc1 Hc2]. unfold place in *. cbn. rewrite Hp, count_one.
        destruct (decide (u = o)) as [->|Hne].
        -- rewrite bool_decide_eq_false_2 by set_solver. rewrite !bool_decide_eq_true_2 in * by done. simpl in *. lia.
        -- rewrite (bool_decide_eq_false_2 (u = o)) by done. rewrite (bool_decide_ext _ (u ∈ pending (kern q1))) by set_solver. simpl. lia.
    + split; [intros u _; cbn; by rewrite Ef, <- Er|]. right. left. exists tm. cbn. by rewrite <- Ek, Eg.
  - injection E as <-. exists J. split; [by apply (user_same q1); [done|apply H1|]|]. apply Hk; [done|]. intros u _. cbn. by rewrite <- Er.
Qed.

Lemma port_step_keeps q h J q' h' : user_ok D q h J -> port_step D q h q' h' ->
  exists J', user_ok D q' h' J' /\ kept q q' /\ asked h' = asked h /\ called h' = called h.
Proof.
  intros H Hs. destruct Hs as [q h now q' E|q h r t E|q h t f r b Ht Hn Hj E|q h w Ew|q h q' E].
  - destruct (poll_keeps _ _ _ _ _ H E) as (J' & H' & Hk). by exists J'.
  - destruct (jobs_called _ _ _ _ _ (uo_jobs _ _ _ _ H) E) as (J' & -> & Hj & Ef). exists J'. split; [|by split; [split; [intros o _; cbn; by rewrite Ef|by left]|]].
    destruct H as [_ Hm Hc]. split; [done| |].
    + intros u Hu. cbn in Hu. case_decide as Ht; [|rewrite app_nil_r in Hu; by apply Hm].
      destruct Hu as [Hu|[Hu| ->%list_elem_of_singleton]%elem_of_app]; [apply Hm; by left|apply Hm; by right|done].
    + intros u Hu. destruct (Hc u Hu) as [Hc1 Hc2]. unfold place, asked_n, called_n in *. cbn in *. rewrite count_occ_app.
      destruct (decide (u = t)) as [->|Hne].
      * rewrite decide_True by done. simpl in *. destruct (Pos.eq_dec t t); [lia|done].
      * replace (count_occ _ (if decide (D t) then [t] else []) u) with 0%nat; [destruct (Pos.eq_dec t u); [congruence|lia]|].
        destruct (decide (D t)); [|done]. symmetry. apply count_occ_not_In. rewrite <- list_elem_of_In. set_solver.
  - assert (t ∉ J) as HtJ by apply Hj, H.
    destruct (jobs_exec _ _ _ t f (uo_jobs _ _ _ _ H) Hn HtJ) as (r' & b' & E' & Hj' & Ef). rewrite E' in E. injection E as <- <-.
    exists (J ++ [t]). split.
    + destruct H as [_ Hm Hc]. split; [done|done|]. intros u Hu. destruct (Hc u Hu) as [Hc1 Hc2]. unfold place in *. cbn. rewrite count_one.
      rewrite (bool_decide_eq_false_2 (u = t)); [simpl; lia|]. by intros ->.
    + split; [|done]. split; [|by left]. intros o Ho. cbn. rewrite Ef, lookup_insert_ne; [done|]. by intros ->.
  - exists J. split; [apply (user_same q); [done| |done]; unfold run at 1; cbn; rewrite Ew; apply H|]. split; [|done].
    split; [|by left]. intros o _. unfold run at 1. cbn. by rewrite Ew.
  - unfold ioq_notify, kcall, bind, get, put, ret in E. injection E as <-. exists J.
    split; [apply (user_same q); [done|apply H|apply null_keeps]|]. split; [|done]. split; [done|]. by right; right.
Qed.
End keeps.

Lemma wp_next_deadline wq xs ys now : wq_ok wq xs ys -> wp (waitq_next_deadline now) wq (fun _ wq' => wq' = wq).
Proof.
  intros H. destruct (wp_timer wq xs ys now 1 0 0 H) as (_ & Hd & _). eapply wp_mono; [exact Hd|]. by intros r wq' [-> _].
Qed.

Section iterate.
Context {K : Type} `{!Ports K} (call : positive -> Z -> M (ioq K) unit).
Implicit Types (q : ioq K).

Definition from_packet (o : option positive) : list positive := match o with Some o => [o] | None => [] end.

(** The packet [o] is there when the queue looks. *)
Record next_packet q (xs ys : list positive) (now : Z) (k : K) (o : option positive) : Prop := {
  np_packet d : waitq_next_deadline now (wait q) = Ok (wait q, d) ->
    get_packet (if d <? 0 then INFINITE else d) (kern q) = (k, o);
  np_task u : u ∈ from_packet o -> u ∉ xs /\ u ∉ ys /\ is_Some (SList.snodes (job_list (run q)) !! u) /\ is_Some (func (run q) !! u);
}.

Lemma wp_poll q xs ys now k o : wq_ok (wait q) xs ys -> RunqMain.holds (run q) ys -> next_packet q xs ys now k o ->
  wp (poll now) q (fun _ q' => wq_ok (wait q') xs (ys ++ from_packet o) /\ RunqMain.holds (run q') (ys ++ from_packet o) /\ kern q' = k /\
    deadline (wait q') = deadline (wait q)).
Proof.
  intros Hok (Hl & Hq & Hf) [Hp Ho]. unfold poll. wp_bind. destruct (proj1 (wp_run _ _ _) (wp_next_deadline _ _ _ now Hok)) as (w & d & E & ->).
  unfold wp at 1, on_wait. rewrite E. wp_bind. apply wp_kcall. intros k' o'. cbn. rewrite (Hp d E). intros [= <- <-].
  destruct o as [o|]; [|apply wp_ret; cbn; by rewrite app_nil_r].
  destruct (Ho o) as (Hx & Hy & Hn & [f Ef]); [by left|]. unfold ioq_ovl_trigger. wp_bind. apply wp_get. wp_bind. apply (wp_need _ f); [done|].
  wp_bind. apply wp_on_runq. destruct (wq_ok_exec _ xs ys o f Hok Hx Hy Hn) as (r & b & E' & Hok' & Efr & Eq).
  change (run (set_kern k (set_wait (wait q) q))) with (Waitq.run (wait q)). unfold wp at 1. rewrite E'. apply wp_ret. split; [done|]. split; [|done]. split; [apply Hok'|]. split; [exact (eq_trans Eq Hq)|].
  intros u Hu. cbn. rewrite Efr. destruct (decide (u = o)) as [->|Hne]; [rewrite lookup_insert_eq; by eexists|].
  rewrite lookup_insert_ne by done. apply Hf. set_solver.
Qed.

(** C25. An iteration of the queue takes one packet at most, hands exactly the timers
    that are due to the run queue, and runs every task: those that were there, that
    of the operation that has ended, those of the timers, and those that they submit,
    in that order; it ends with no task left. *)
Theorem iocp_iterate_runs (I : list positive -> ioq K -> Prop) budget B q xs ys now now' k o fuel :
  wq_ok (wait q) xs ys -> RunqMain.holds (run q) ys -> next_packet q xs ys now k o ->
  call_ok (split_call call) I budget -> (forall q', kern q' = k -> I [] q' /\ (budget q' <= B)%nat) ->
  Z.of_nat (length ys + 1 + length xs + B) < 2 ^ 31 -> (length ys + 1 + length xs + B < fuel)%nat ->
  wp (ioq_iterate call fuel now now') q (fun r q' => r = 0 /\ exists fired rest done u,
    xs = fired ++ rest /\ (forall t, t ∈ fired -> deadline_of (wait q) t <= now') /\
    (forall t, t ∈ rest -> now' < deadline_of (wait q) t) /\
    ys ++ from_packet o ++ fired `prefix_of` done /\ q' = set_run (run q') u /\ RunqMain.holds (run q') [] /\ I done u).
Proof.
  intros Hok Hh Hp Hc HI Hlen Hfuel. unfold ioq_iterate. wp_bind. eapply wp_mono; [by eapply wp_poll|].
  intros [] q1 (Hok1 & Hh1 & Hk1 & Hd1). wp_bind. set (zs := ys ++ from_packet o) in *.
  assert (length zs <= length ys + 1)%nat as Hz by (unfold zs; rewrite length_app; by destruct o; simpl; lia).
  pose proof (wp_dispatch (wait q1) xs zs now' 0 fuel Hok1 ltac:(lia) ltac:(lia) ltac:(lia)) as Hw. unfold fires in Hw.
  apply wp_run in Hw as (w & n & E & fired & rest & Hxs & _ & Hok2 & _ & _ & _ & Hf1 & Hf2 & Hq2 & _ & Hr).
  unfold wp at 1, on_wait. rewrite E. wp_bind. assert (length fired <= length xs)%nat as Hlf by (rewrite Hxs, length_app; lia).
  set (q2 := set_wait w q1). assert (RunqMain.holds (run q2) (zs ++ fired)) as Hh2.
  { destruct Hh1 as (_ & Hh1 & Hh1'). split; [apply Hok2|]. split; [by unfold run; cbn; rewrite Hq2|]. intros t Ht. unfold run. cbn.
    destruct (decide (t ∈ fired)) as [Hi|Hi]; [destruct (Hf1 t Hi) as [_ ->]; by eexists|]. rewrite Hf2 by done. apply Hh1'. set_solver. }
  destruct (HI q2 Hk1) as [HI2 HB].
  pose proof (wp_runq_dispatch (split_call call) I budget (run q2) q2 (zs ++ fired) 0 fuel Hc Hh2 HI2 ltac:(lia)) as Hrun.
  rewrite length_app in Hrun. specialize (Hrun ltac:(lia) ltac:(lia)). unfold runs in Hrun.
  apply wp_run in Hrun as ([r u] & m & Er & dn & left & _ & Hh3 & HI3 & Hpre & _ & Hleft).
  unfold wp at 1, on_split. rewrite Er. apply wp_ret. split; [done|]. rewrite Hleft, app_nil_r in * by by left.
  exists fired, rest, dn, u. unfold deadline_of in *. rewrite Hd1 in *.
  split_and!; [done|by intros t Ht; apply Hf1|by apply Hr; left|by rewrite (assoc_L (++))|done|done|done].
Qed.
End iterate.

(** Creation acquires everything, or nothing; destruction releases it. *)
Lemma ioq_init_all_or_nothing runq_err iocp_err :
  wp (Iocp.ioq_init runq_err iocp_err) [] (fun r l =>
    if (runq_err =? 0) && (iocp_err =? 0) then r = (0, 0) /\ wp Iocp.ioq_destroy l (fun _ l' => l' = [])
    else r.1 = -1 /\ r.2 <> 0 /\ l = []).
Proof.
  unfold Iocp.ioq_init. destruct (Z.eqb_spec runq_err 0) as [->|Hr]; [|done].
  by destruct (Z.eqb_spec iocp_err 0) as [->|He].
Qed.

(** * A port, for examples

    Operations end in the order of their addresses.  Sockets are numbered; [ex_mode]
    1: an operation that starts ends at once; 2: no socket can be made. *)
Record ex_kern := mk_kern {
  ex_pending : gset positive;
  ex_bound : gset Z;
  ex_open : gset Z;
  ex_mode : Z;
}.
#[export] Instance ex_ports : Ports ex_kern := {
  pending := ex_pending;
  bound := ex_bound;
  bind_port h k := (mk_kern (ex_pending k) ({[h]} ∪ ex_bound k) (ex_open k) (ex_mode k), 0);
  post_null k := k;
  get_packet _ k := match elements (ex_pending k) with
    | o :: _ => (mk_kern (ex_pending k ∖ {[o]}) (ex_bound k) (ex_open k) (ex_mode k), Some o)
    | [] => (k, None)
    end;
}.
#[export] Instance ex_ports_laws : PortsLaws ex_kern.
Proof.
  split; try done.
  - by intros h k k' e [= <- <-].
  - intros t k k' r. cbn. destruct (elements (ex_pending k)) as [|o l] eqn:E; intros [= <- <-]; [done|]. split; [|done].
    cbn. apply elem_of_elements. rewrite E. by left.
  - intros t k. cbn. by destruct (elements (ex_pending k)).
Qed.

(** A queue with no timers; the task 4 waits for its packet. *)
Definition ex_iocp (X : gset positive) (h : gset Z) (f : Z) (mode : Z) : ioq ex_kern :=
  mk_ioq (mk_waitq (rbt_init ∅) ∅ ∅ true 0
    (mk_runq (SList.mk_slist None None {[ 4%positive := None; 5%positive := None; 6%positive := None ]})
      {[ 4%positive := f; 5%positive := f; 6%positive := f ]} false true 0)) (mk_kern X h h mode).

Lemma ex_iocp_ok X h f mode : wq_ok (wait (ex_iocp X h f mode)) [] [].
Proof.
  split; [|split; [constructor|done]|intros t Ht; by apply elem_of_nil in Ht].
  apply is_rbt_init.
Qed.

Lemma iocp_iterate_runs_witness :
  wp (ioq_iterate (fun t _ => ret tt) 5 0 0) (ex_iocp {[4%positive]} ∅ 7 0) (fun r q' => r = 0 /\ exists done u,
    [4%positive] `prefix_of` done /\ RunqMain.holds (run q') [] /\ q' = set_run (run q') u).
Proof.
  eapply wp_mono; [apply (iocp_iterate_runs _ (fun _ _ => True) (fun _ => 0%nat) 0 (ex_iocp {[4%positive]} ∅ 7 0) [] [] 0 0
    (mk_kern ∅ ∅ ∅ 0) (Some 4%positive) 5)|].
  - apply ex_iocp_ok.
  - split; [split; [constructor|done]|]. split; [done|]. intros t Ht. by apply elem_of_nil in Ht.
  - split; [intros d _; by vm_compute|]. intros u Hu. apply list_elem_of_singleton in Hu as ->.
    split; [apply not_elem_of_nil|]. split; [apply not_elem_of_nil|]. split; by eexists.
  - intros t f r u xs dn Hh _ _. exists []. rewrite app_nil_r. split; [exact Hh|]. split; [simpl; lia|done].
  - done.
  - simpl. lia.
  - simpl. lia.
  - intros r q' (-> & fired & rest & dn & u & E & _ & _ & Hp & Hq & Hh & _). split; [done|]. exists dn, u.
    destruct fired; [|done]. split; [exact Hp|]. split; [exact Hh|exact Hq].
Defined.
