(* ===== verification/AfileWin.v ===== *)
(** Model and correctness of src/io/afile_windows.c: reads and writes of a file as
    overlapped operations, answered through the completion port.

    A file has two operations, at the addresses [rd] and [wr]; ReadFile, WriteFile and
    GetOverlappedResult are a class.  A handle may be set not to post a packet for an
    operation that ends at once. *)
From S2P Require Import Prelude Lists Runq RunqMain Waitq Iocp.

Definition ERROR_IO_PENDING : Z := 997.

Inductive dir := RD | WR.
#[export] Instance win_dir_dec : EqDecision dir.
Proof. solve_decision. Defined.

(** The functions of the tasks. *)
Definition DONE (d : dir) : Z := match d with RD => 1 | WR => 2 end.

(** Whether a handle skips the port for an operation that ends at once
    (FILE_SKIP_COMPLETION_PORT_ON_SUCCESS).  The calls return whether they succeed,
    the size they store and the error. *)
Class WinFiles (K : Type) `{Ports K} := {
  skips : K -> Z -> bool;
  win_start : dir -> Z -> Z -> Z -> positive -> K -> K * (bool * (Z * Z));
  win_result : Z -> positive -> K -> K * (bool * (Z * Z));
}.
(** An operation on a handle that is bound posts a packet when it has ended, if it has
    started. *)
Class WinFilesLaws (K : Type) `{WinFiles K} := {
  start_pending d h data len o k k' ok n e : win_start d h data len o k = (k', (ok, (n, e))) -> h ∈ bound k ->
    pending k' = if if ok then negb (skips k h) else e =? ERROR_IO_PENDING then {[o]} ∪ pending k else pending k;
  start_keeps d h data len o k : bound (win_start d h data len o k).1 = bound k /\ skips (win_start d h data len o k).1 = skips k;
  result_keeps h o k : pending (win_result h o k).1 = pending k /\ bound (win_result h o k).1 = bound k /\
    skips (win_result h o k).1 = skips k;
}.

Record afile_op := mk_op { func : Z; size : Z; error : Z }.
Record afile := mk_afile { handle : Z; read : afile_op; write : afile_op }.

Definition op (d : dir) (x : afile) : afile_op := match d with RD => read x | WR => write x end.
Definition set_op (d : dir) (v : afile_op) (x : afile) : afile :=
  match d with RD => mk_afile (handle x) v (write x) | WR => mk_afile (handle x) (read x) v end.
Definition set_size v x := mk_op (func x) v (error x).
Definition set_error v x := mk_op (func x) (size x) v.

Section afile.
Context {K : Type} `{!Ports K} `{!WinFiles K} (rd wr : positive).

Definition ovl (d : dir) : positive := match d with RD => rd | WR => wr end.

Record st := mk_st { file : afile; ioq_ : ioq K }.

Definition on_ioq {A} (m : M (ioq K) A) : M st A := fun s =>
  match m (ioq_ s) with
  | Ok (q, a) => Ok (mk_st (file s) q, a)
  | Crash => Crash
  | NoFuel => NoFuel
  end.
Definition get_op (d : dir) : M st afile_op := s ← get; ret (op d (file s)).
Definition upd_op (d : dir) (u : afile_op -> afile_op) : M st unit :=
  modify (fun s => mk_st (set_op d (u (op d (file s))) (file s)) (ioq_ s)).

(** [afile_init]; an operation that has not been asked for has no function. *)
Definition new_file (h : Z) : afile := mk_afile h (mk_op 0 0 0) (mk_op 0 0 0).

(** [afile_read] and [afile_write]. *)
Definition begin_op (d : dir) (data len fn : Z) : M st unit :=
  upd_op d (fun x => mk_op fn (size x) ERROR_IO_PENDING);;
  on_ioq (ioq_ovl_wait (ovl d) (DONE d));;
  s ← get;
  ' (ok, (n, e)) ← on_ioq (kcall (win_start d (handle (file s)) data len (ovl d)));
  upd_op d (set_size n);;
  if negb ok then
    if negb (e =? ERROR_IO_PENDING) then upd_op d (set_error e);; on_ioq (ioq_ovl_trigger (ovl d)) else ret tt
  else upd_op d (set_error 0);; on_ioq (ioq_ovl_trigger (ovl d)).
Definition afile_read := begin_op RD.
Definition afile_write := begin_op WR.

(** [read_done] and [write_done]: the client's function, which they call at the end. *)
Definition op_done (d : dir) : M st Z :=
  x ← get_op d;
  (if error x =? ERROR_IO_PENDING then
     s ← get;
     ' (ok, (n, e)) ← on_ioq (kcall (win_result (handle (file s)) (ovl d)));
     upd_op d (set_size n);;
     upd_op d (set_error (if (ok : bool) then 0 else e))
   else ret tt);;
  x ← get_op d;
  when (truth (error x)) (upd_op d (set_size 0));;
  ret (func x).
Definition write_done := op_done WR.
Definition read_done := op_done RD.

(** The run queue calls a task. *)
Definition call_task (o : positive) (f : Z) : M st Z :=
  if (f =? DONE RD) && bool_decide (o = rd) then read_done
  else if (f =? DONE WR) && bool_decide (o = wr) then write_done
  else crash.

Definition afile_get_handle (x : afile) : Z := handle x.
Definition afile_set_handle (h : Z) : M st unit := modify (fun s => mk_st (mk_afile h (read (file s)) (write (file s))) (ioq_ s)).

(** * The file among its threads *)
Record fsys := mk_fsys { st_ : st; th : hist }.

Definition mine (o : positive) : Prop := o = rd \/ o = wr.
#[export] Instance mine_dec o : Decision (mine o).
Proof. unfold mine. apply _. Defined.

(** An operation that would end at once is for a handle that posts no packet for it. *)
Definition posts_once (d : dir) (data len : Z) (s : st) : Prop :=
  let k := kern (ioq_ s) in let h := handle (file s) in
  (win_start d h data len (ovl d) k).2.1 = true -> skips k h = true.

(** Threads dispatch the queue; the operating system goes on; the client begins an
    operation of each kind at a time, which does not end at once with a packet, and
    changes the handle, for one that is bound, when there is none. *)
Inductive fstep : fsys -> fsys -> Prop :=
  | f_port x q h q' h' : port_step mine q h q' h' -> fstep (mk_fsys (mk_st x q) h) (mk_fsys (mk_st x q') h')
  | f_done s h l1 o l2 f s' fn : calling h = l1 ++ o :: l2 -> Runq.func (run (ioq_ s)) !! o = Some f -> call_task o f s = Ok (s', fn) ->
      fstep (mk_fsys s h) (mk_fsys s' (mk_hist (l1 ++ l2) (asked h) (called h ++ [o])))
  | f_kernel x q h k : pending k = pending (kern q) -> bound k = bound (kern q) -> skips k = skips (kern q) ->
      fstep (mk_fsys (mk_st x q) h) (mk_fsys (mk_st x (set_kern k q)) h)
  | f_begin s h d data len fn s' : free h (ovl d) -> posts_once d data len s -> begin_op d data len fn s = Ok (s', tt) ->
      fstep (mk_fsys s h) (mk_fsys s' (ask h (ovl d)))
  | f_set_handle s h hd s' : (forall d, free h (ovl d)) -> hd ∈ bound (kern (ioq_ s)) -> afile_set_handle hd s = Ok (s', tt) ->
      fstep (mk_fsys s h) (mk_fsys s' h).

(** [afile_init], for a handle that the client has bound, on a queue that has nothing
    of this file. *)
Inductive freach : fsys -> Prop :=
  | f_start q hd J : hd ∈ bound (kern q) -> pending (kern q) = ∅ -> jobs_ok mine (run q) J -> (forall d, ovl d ∉ J) ->
      freach (mk_fsys (mk_st (new_file hd) q) (mk_hist [] [] []))
  | f_next y y' : freach y -> fstep y y' -> freach y'.
End afile.
Arguments st K : clear implicits.
Arguments fsys K : clear implicits.

(** * Correctness *)
Section properties.
Context {K : Type} `{!Ports K, !PortsLaws K} `{!WinFiles K, !WinFilesLaws K} (rd wr : positive) (Hne : rd <> wr).
Implicit Types (s : st K) (q : ioq K) (h : hist) (J : list positive).

Record file_ok (s : st K) (h : hist) (J : list positive) : Prop := {
  fo_user : user_ok (mine rd wr) (ioq_ s) h J;
  fo_bound : handle (file s) ∈ bound (kern (ioq_ s));
  fo_done d : ~ free h (ovl rd wr d) -> Runq.func (run (ioq_ s)) !! ovl rd wr d = Some (DONE d);
}.

Lemma mine_ovl d : mine rd wr (ovl rd wr d).
Proof. by destruct d; [left|right]. Qed.
Lemma ovl_inj d d' : ovl rd wr d = ovl rd wr d' -> d = d'.
Proof. destruct d, d'; cbn; congruence. Qed.

Lemma wp_on_ioq {A} (m : M (ioq K) A) s P : wp m (ioq_ s) (fun a q => P a (mk_st (file s) q)) -> wp (on_ioq m) s P.
Proof. unfold wp, on_ioq. by destruct (m _) as [[q a]| |]. Qed.
Lemma op_set d d' v x : op d' (set_op d v x) = if decide (d' = d) then v else op d' x.
Proof. by destruct d, d'. Qed.
Lemma handle_set d v x : handle (set_op d v x) = handle x.
Proof. by destruct d. Qed.

(** ** Beginning an operation *)
Lemma wp_begin s h J d data len fn : file_ok s h J -> free h (ovl rd wr d) ->
  wp (begin_op rd wr d data len fn) s (fun _ s' =>
    posts_once rd wr d data len s -> exists J', file_ok s' (ask h (ovl rd wr d)) J').
Proof.
  intros [Hu Hb Hd] Hf. set (o := ovl rd wr d) in *. pose proof (mine_ovl d) as Ho. fold o in Ho.
  destruct (user_free _ _ _ _ _ Hu Ho Hf) as (Hnp & HnJ & _).
  unfold begin_op. wp_bind. apply wp_modify. wp_bind. apply wp_on_ioq, wp_on_runq.
  eapply wp_mono; [apply (jobs_set_func _ _ _ o (DONE d) (uo_jobs _ _ _ _ Hu))|]. intros [] r [Hj Ef].
  cbn. wp_bind. apply wp_get. wp_bind. apply wp_on_ioq, wp_kcall. intros k [ok [n e]] E. cbn in E. rewrite handle_set in E.
  pose proof (start_pending _ _ _ _ _ _ _ _ _ _ E Hb) as Hp. destruct (start_keeps d (handle (file s)) data len o (kern (ioq_ s))) as [Kb _].
  unfold posts_once. cbn zeta. fold o in E |- *. rewrite E in Kb |- *. cbn in Kb |- *. wp_bind. apply wp_modify.
  set (q1 := set_kern k (set_run r (ioq_ s))). assert (forall d', ~ free (ask h o) (ovl rd wr d') -> Runq.func r !! ovl rd wr d' = Some (DONE d')) as Hfn.
  { intros d' Hn. rewrite Ef. destruct (decide (d' = d)) as [->|Hd']; [by rewrite lookup_insert_eq|].
    assert (o <> ovl rd wr d') as Hoo by (intros Hoo; by apply ovl_inj in Hoo). rewrite lookup_insert_ne by done. apply Hd.
    by rewrite free_ask in Hn. }
  assert (forall x (B : Prop), handle x = handle (file s) -> (B -> pending k = pending (kern (ioq_ s))) ->
    wp (on_ioq (ioq_ovl_trigger o)) (mk_st x q1) (fun _ s' => B -> exists J', file_ok s' (ask h o) J')) as Htrig.
  { intros x B Ex Ep. apply wp_on_ioq. apply (wp_trigger (mine rd wr) q1 J o); [done|done|done|]. intros r' Hj' Ef' HB.
    specialize (Ep HB). exists (J ++ [o]). split; cbn; [by eapply user_ask_queued|by rewrite Ex, Kb|]. intros d' Hn. unfold run. cbn.
    rewrite Ef'. by apply Hfn. }
  destruct ok; cbn in Hp.
  - cbn. wp_bind. apply wp_modify. apply Htrig; [by cbn; rewrite !handle_set|]. intros Hsk. by rewrite Hsk in Hp.
  - cbn. destruct (e =? ERROR_IO_PENDING); cbn; [|wp_bind; apply wp_modify, Htrig; [by cbn; rewrite !handle_set|done]].
    intros _. exists J. split; cbn; [by eapply user_ask_pending|by rewrite !handle_set, Kb|exact Hfn].
Qed.

(** ** Ending one *)
Definition reported (x : afile_op) : Prop := error x <> 0 -> size x = 0.

Lemma wp_get_op d s P : P (op d (file s)) s -> wp (get_op (K := K) d) s P.
Proof. done. Qed.

Lemma wp_done s d : wp (op_done rd wr d) s (fun fn s' => fn = func (op d (file s)) /\ handle (file s') = handle (file s) /\
  run (ioq_ s') = run (ioq_ s) /\ pending (kern (ioq_ s')) = pending (kern (ioq_ s)) /\ bound (kern (ioq_ s')) = bound (kern (ioq_ s)) /\
  skips (kern (ioq_ s')) = skips (kern (ioq_ s)) /\ reported (op d (file s'))).
Proof.
  unfold op_done. wp_bind. apply wp_get_op. wp_bind.
  assert (forall s1, func (op d (file s1)) = func (op d (file s)) -> handle (file s1) = handle (file s) -> run (ioq_ s1) = run (ioq_ s) ->
    pending (kern (ioq_ s1)) = pending (kern (ioq_ s)) -> bound (kern (ioq_ s1)) = bound (kern (ioq_ s)) ->
    skips (kern (ioq_ s1)) = skips (kern (ioq_ s)) ->
    wp (x ← get_op d; when (truth (error x)) (upd_op d (set_size 0));; ret (func x)) s1 (fun fn s' => fn = func (op d (file s)) /\
      handle (file s') = handle (file s) /\ run (ioq_ s') = run (ioq_ s) /\ pending (kern (ioq_ s')) = pending (kern (ioq_ s)) /\
      bound (kern (ioq_ s')) = bound (kern (ioq_ s)) /\ skips (kern (ioq_ s')) = skips (kern (ioq_ s)) /\ reported (op d (file s')))) as Hend.
  { intros s1 E1 E2 E3 E4 E5 E6. wp_bind. apply wp_get_op. wp_bind. destruct (truth _) eqn:Et.
    - apply wp_modify, wp_ret. cbn. rewrite op_set, decide_True, handle_set by done. by split_and!.
    - apply wp_ret, wp_ret. apply truth_false in Et. split_and!; try done. intros []. exact Et. }
  destruct (error _ =? ERROR_IO_PENDING); [|by apply wp_ret, Hend].
  wp_bind. apply wp_get. wp_bind. apply wp_on_ioq, wp_kcall. intros k [ok [n e]] E.
  destruct (result_keeps (handle (file s)) (ovl rd wr d) (kern (ioq_ s))) as (K1 & K2 & K3). rewrite E in K1, K2, K3. cbn in K1, K2, K3.
  wp_bind. apply wp_modify. apply wp_modify. apply Hend; cbn; rewrite ?op_set, ?decide_True, ?handle_set by done; try done.
Qed.

Lemma outstanding s h J d : file_ok s h J -> ovl rd wr d ∈ calling h -> ~ free h (ovl rd wr d).
Proof.
  intros H Hi Hf. by destruct (user_free _ _ _ _ _ (fo_user _ _ _ H) (mine_ovl d) Hf) as (_ & _ & ?).
Qed.

Lemma wp_win_file_call s h J l1 o l2 : file_ok s h J -> calling h = l1 ++ o :: l2 -> exists d, o = ovl rd wr d /\
  Runq.func (run (ioq_ s)) !! o = Some (DONE d) /\
  wp (call_task rd wr o (DONE d)) s (fun fn s' => fn = func (op d (file s)) /\ reported (op d (file s')) /\
    file_ok s' (mk_hist (l1 ++ l2) (asked h) (called h ++ [o])) J).
Proof.
  intros H El. assert (o ∈ calling h) as Hi by (rewrite El; set_solver).
  assert (exists d, o = ovl rd wr d) as [d ->].
  { destruct (uo_mine _ _ _ _ (fo_user _ _ _ H) o) as [->| ->]; [by right|by exists RD|by exists WR]. }
  exists d. split; [done|]. split; [apply (fo_done _ _ _ H); by eapply outstanding|].
  pose proof H as [Hu Hus Hd].
  eapply (wp_mono _ _ (fun fn s' => fn = func (op d (file s)) /\ handle (file s') = handle (file s) /\
    run (ioq_ s') = run (ioq_ s) /\ pending (kern (ioq_ s')) = pending (kern (ioq_ s)) /\ bound (kern (ioq_ s')) = bound (kern (ioq_ s)) /\
    skips (kern (ioq_ s')) = skips (kern (ioq_ s)) /\ reported (op d (file s')))).
  { unfold call_task. destruct d; cbn; repeat case_bool_decide; try done; [apply (wp_done s RD)|apply (wp_done s WR)]. }
  intros fn s' (Ef & E1 & E2 & E3 & E4 & E5 & Hr). split; [done|]. split; [done|]. split.
  - eapply user_called; [exact Hu|done|rewrite E2; apply Hu|done].
  - by rewrite E1, E4.
  - intros d' Hn. rewrite E2. apply Hd. intros Hf. apply Hn. destruct (decide (d' = d)) as [->|Hd'].
    + by destruct (outstanding _ _ _ _ H Hi).
    + apply free_called; [|done]. intros Eo. by apply ovl_inj in Eo.
Qed.

(** ** Every state *)
Definition file_good (y : fsys K) : Prop := exists J, file_ok (st_ y) (th y) J.

Lemma good_fstep y y' : file_good y -> fstep rd wr y y' -> file_good y'.
Proof.
  intros [J H] Hs. destruct Hs as [x q h q' h' Hp|s h l1 o l2 f s' fn El Ef E|x q h k E1 E2 E3|s h d data len fn s' Hf Hp E|s h hd s' Hf Hu E];
    cbn [st_ th] in *.
  - destruct H as [Hu U Hd]. cbn [ioq_ file] in *.
    destruct (port_step_keeps _ _ _ _ _ _ Hu Hp) as (J' & Hu' & [Hf Hk] & Ea & Ec). exists J'. split; [done| |].
    + cbn. destruct Hk as [->|[[t ->]| ->]]; [done|..]; rewrite ?packet_bound; [done|].
      destruct (null_keeps (kern q)) as [_ ->]. done.
    + intros d Hn. cbn. rewrite Hf by apply mine_ovl. apply Hd. unfold free, asked_n, called_n in *. by rewrite <- Ea, <- Ec.
  - destruct (wp_win_file_call s h J l1 o l2 H El) as (d & -> & Ef' & Hw). rewrite Ef in Ef'. injection Ef' as ->.
    exists J. destruct (wp_result _ _ _ _ _ Hw E) as (_ & _ & H'). exact H'.
  - exists J. destruct H as [Hu U Hd]. cbn [ioq_ file] in *. split; [by eapply user_same; [|apply Hu|]|by cbn; rewrite E2|done].
  - exact (wp_result _ _ _ _ _ (wp_begin s h J d data len fn H Hf) E Hp).
  - unfold afile_set_handle, modify in E. injection E as <-. exists J. destruct H as [Hu' _ Hd]. by split.
Qed.

Lemma good_freach y : freach rd wr y -> file_good y.
Proof.
  induction 1 as [q hd J Hu Hp Hj Hn|y y' _ IH Hs]; [|by eapply good_fstep]. exists J. split; [|done|by intros d []].
  split; [done| |].
  - cbn. rewrite Hp. intros o [Ho|Ho]; [by apply elem_of_empty in Ho|by apply elem_of_nil in Ho].
  - intros o Ho. assert (exists d, o = ovl rd wr d) as [d ->] by (destruct Ho as [->| ->]; [by exists RD|by exists WR]).
    specialize (Hn d). rewrite list_elem_of_In, (count_occ_In Pos.eq_dec) in Hn. unfold place, asked_n, called_n. cbn.
    rewrite Hp, bool_decide_eq_false_2 by set_solver. simpl. lia.
Qed.

(** C20. Files on Windows: in every interleaving each read and write is answered by
    exactly one callback, the one it was given, and until then the operating system,
    the run queue or the function of its task has it; no call goes wrong, and a
    callback that finds an error finds the size 0.  This is for operations that do not
    end at once, or do for a handle that posts no packet then: for another handle the
    packet and the task that the code submits both answer it ([written_twice]). *)
Theorem afile_win_completes (y : fsys K) : freach rd wr y -> forall d,
  (free (th y) (ovl rd wr d) \/ asked_n (th y) (ovl rd wr d) = Datatypes.S (called_n (th y) (ovl rd wr d)) /\
     underway (ioq_ (st_ y)) (th y) (ovl rd wr d)) /\
  (free (th y) (ovl rd wr d) -> forall data len fn, ends (begin_op rd wr d data len fn) (st_ y)) /\
  (forall l1 l2, calling (th y) = l1 ++ ovl rd wr d :: l2 ->
     exists f, Runq.func (run (ioq_ (st_ y))) !! ovl rd wr d = Some f /\
       wp (call_task rd wr (ovl rd wr d) f) (st_ y) (fun fn s' => fn = func (op d (file (st_ y))) /\ reported (op d (file s')))).
Proof.
  intros [J H]%good_freach d. split_and!.
  - eapply user_underway; [apply H|apply mine_ovl].
  - intros Hf data len fn. eapply ends_wp. by eapply wp_begin.
  - intros l1 l2 El. destruct (wp_win_file_call _ _ _ _ _ _ H El) as (d' & Eo & Ef & Hw). apply ovl_inj in Eo as <-. exists (DONE d).
    split; [done|]. eapply wp_mono; [exact Hw|]. by intros fn s' (? & ? & _).
Qed.
End properties.

(** * Files, for examples

    In the mode 1 of [ex_kern] an operation ends at once, and posts its packet. *)
#[export] Instance ex_win_files : WinFiles ex_kern := {
  skips k _ := negb (ex_mode k =? 1);
  win_start _ _ _ len o k :=
    (mk_kern ({[o]} ∪ ex_pending k) (ex_bound k) (ex_open k) (ex_mode k),
     if ex_mode k =? 1 then (true, (len, 0)) else (false, (0, ERROR_IO_PENDING)));
  win_result _ _ k := (k, (true, (5, 0)));
}.
#[export] Instance ex_win_files_laws : WinFilesLaws ex_kern.
Proof.
  split; try done.
  - intros d h data len o k k' ok n e. cbn. destruct (ex_mode k =? 1); by intros [= <- <- <- <-].
Qed.

Definition ex_file (mode : Z) : st ex_kern := mk_st (new_file 3) (ex_iocp ∅ {[3]} 0 mode).
Definition ex_run {A} (m : M (st ex_kern) A) (s : st ex_kern) : st ex_kern := match m s with Ok (s', _) => s' | _ => s end.
Definition ex_reading : st ex_kern := ex_run (begin_op 4 5 RD 100 8 9) (ex_file 0).
Definition ex_polled : st ex_kern := ex_run (on_ioq (poll 0)) ex_reading.
Definition ex_popped_run : runq := match run_one (run (ioq_ ex_polled)) with Ok (r, _) => r | _ => run (ioq_ ex_polled) end.
Definition ex_popped : st ex_kern := mk_st (file ex_polled) (set_run ex_popped_run (ioq_ ex_polled)).

Lemma ex_begun_reach : freach 4 5 (mk_fsys ex_reading (mk_hist [] [4%positive] [])).
Proof.
  eapply f_next.
  - apply (f_start 4 5 (ex_iocp ∅ {[3]} 0 0) 3 []); [by vm_compute|done| |by intros [] ?%elem_of_nil].
    split; [split; [constructor|done]| |done]. intros t [->| ->]; by split; eexists.
  - apply (f_begin 4 5 (ex_file 0) (mk_hist [] [] []) RD 100 8 9 ex_reading); [done|done|by vm_compute].
Qed.

Lemma ex_popped_reach : freach 4 5 (mk_fsys ex_popped (mk_hist [4%positive] [4%positive] [])).
Proof.
  eapply f_next; [eapply f_next; [exact ex_begun_reach|]|].
  - apply (f_port 4 5 (file ex_reading) (ioq_ ex_reading) (mk_hist [] [4%positive] []) (ioq_ ex_polled) (mk_hist [] [4%positive] [])).
    apply (p_poll _ _ _ 0). by vm_compute.
  - apply (f_port 4 5 (file ex_polled) (ioq_ ex_polled) (mk_hist [] [4%positive] []) (ioq_ ex_popped) (mk_hist [4%positive] [4%positive] [])).
    pose proof (p_call (mine 4 5) (ioq_ ex_polled) (mk_hist [] [4%positive] []) ex_popped_run 4%positive) as Hs.
    rewrite decide_True in Hs by by left. apply Hs. by vm_compute.
Qed.

Lemma afile_win_completes_witness :
  freach 4 5 (mk_fsys ex_popped (mk_hist [4%positive] [4%positive] [])) /\
  underway (ioq_ ex_popped) (mk_hist [4%positive] [4%positive] []) 4 /\ ends (begin_op 4 5 WR 200 3 7) ex_popped /\
  exists f, wp (call_task 4 5 4 f) ex_popped (fun fn s' => fn = 9).
Proof.
  split; [exact ex_popped_reach|].
  destruct (afile_win_completes 4 5 ltac:(done) _ ex_popped_reach RD) as (H1 & _ & H3).
  destruct (afile_win_completes 4 5 ltac:(done) _ ex_popped_reach WR) as (_ & H2 & _). split_and!.
  - destruct H1 as [Hf|[_ Hu]]; [by vm_compute in Hf|exact Hu].
  - apply H2. by vm_compute.
  - destruct (H3 [] [] eq_refl) as (f & _ & Hw). exists f. eapply wp_mono; [exact Hw|]. by intros fn s' [-> _].
Defined.

(** The task that has come first in the run queue. *)
Definition serve : M (st ex_kern) Z :=
  r ← on_ioq (on_runq run_one);
  t ← need r.2; s ← get; f ← need (Runq.func (run (ioq_ s)) !! t); call_task 4 5 t f.

(** A write that ends at once submits the task itself, and the packet that the handle
    posts for it submits the task again: one write is answered by two callbacks. *)
Example written_twice : exists s', (
    afile_write 4 5 200 3 7;; a ← serve; on_ioq (poll 0);; b ← serve; ret (a, b)) (ex_file 1) = Ok (s', (7, 7)).
Proof. eexists. by vm_compute. Qed.
