(* ===== verification/AsockWin.v ===== *)
(** Model of src/io/asock_windows.c: sockets whose requests are overlapped operations,
    answered through the completion port.

    A socket has three operations, one for each kind of request; their addresses are
    made from the socket's.  Winsock is a class; a SOCKET is 64 bits wide.  Clients
    and the threads that dispatch the queue are steps, as no lock is held. *)
From S2P Require Import Prelude Lists Runq RunqMain Waitq Iocp.

Definition WSA_IO_PENDING : Z := 997.
Definition INVALID_SOCKET : Z := 18446744073709551615.
Definition net_sock_is_valid (s : Z) : bool := negb (s =? INVALID_SOCKET).

(** What a callback is for: [ca_func], [send_func], [recv_func]. *)
Inductive kind := CA | SEND | RECV.
#[export] Instance win_kind_dec : EqDecision kind.
Proof. solve_decision. Defined.

(** The functions of the tasks; a task that has not been used has none. *)
Definition ACCEPT_DONE : Z := 1.
Definition CONNECT_DONE : Z := 2.
Definition SEND_DONE : Z := 3.
Definition RECV_DONE : Z := 4.

(** Calls that start an operation return whether they succeed, and the error; others
    an error number. *)
Class WinSockets (K : Type) `{Ports K} := {
  opened : K -> gset Z;
  wsa_socket : K -> K * (Z * Z);
  wsa_bind : Z -> Z -> Z -> K -> K * Z;
  wsa_listen : Z -> K -> K * Z;
  accept_ex : Z -> Z -> positive -> K -> K * (bool * Z);
  connect_ex : Z -> Z -> Z -> positive -> K -> K * (bool * Z);
  wsa_send : Z -> Z -> Z -> positive -> K -> K * (bool * Z);
  wsa_recv : Z -> Z -> Z -> positive -> K -> K * (bool * Z);
  wsa_result : Z -> positive -> K -> K * (bool * (Z * Z));
  wsa_shutdown : Z -> K -> K;
  closesocket : Z -> K -> K;
}.

Definition keeps {K} `{WinSockets K} (k k' : K) : Prop := pending k' = pending k /\ bound k' = bound k /\ opened k' = opened k.
(** An operation on a socket that is bound to the port, or that is closed, posts a
    packet if it starts. *)
Definition starts {K} `{WinSockets K} (s : Z) (o : positive) (k : K) (r : K * (bool * Z)) : Prop :=
  let '(k', (ok, e)) := r in bound k' = bound k /\ opened k' = opened k /\
  (s ∈ bound k \/ s ∉ opened k -> pending k' = if ok || (e =? WSA_IO_PENDING) then {[o]} ∪ pending k else pending k).

Class WinSocketsLaws (K : Type) `{WinSockets K} := {
  invalid_closed k : INVALID_SOCKET ∉ opened k;
  socket_opens k k' r e : wsa_socket k = (k', (r, e)) -> pending k' = pending k /\ bound k' = bound k /\
    if net_sock_is_valid r then r ∉ opened k /\ opened k' = {[r]} ∪ opened k else opened k' = opened k;
  bind_keeps s a n k : keeps k (wsa_bind s a n k).1;
  listen_keeps s k : keeps k (wsa_listen s k).1;
  accept_starts s c o k : starts s o k (accept_ex s c o k);
  connect_starts s a n o k : starts s o k (connect_ex s a n o k);
  send_starts s p n o k : starts s o k (wsa_send s p n o k);
  recv_starts s p n o k : starts s o k (wsa_recv s p n o k);
  wsa_result_keeps s o k : keeps k (wsa_result s o k).1;
  shutdown_keeps s k : keeps k (wsa_shutdown s k);
  close_closes s k : pending (closesocket s k) = pending k /\ opened (closesocket s k) = opened k ∖ {[s]};
  packet_opened t k : opened (get_packet t k).1 = opened k;
  null_opened k : opened (post_null k) = opened k;
  port_opened h k : opened (bind_port h k).1 = opened k;
}.

Record ca_req := mk_ca { ca_func : Z; ca_sock : Z; ca_error : Z; ca_client : option positive; ca_accept_sock : Z }.
Record io_req := mk_req { r_func : Z; r_sock : Z; r_size : Z; r_error : Z; r_data : Z; r_len : Z }.
Record asock := mk_asock { sock : Z; ca : ca_req; snd_req : io_req; rcv_req : io_req }.

Definition set_sock v x := mk_asock v (ca x) (snd_req x) (rcv_req x).
Definition set_ca v x := mk_asock (sock x) v (snd_req x) (rcv_req x).
Definition io (k : kind) (x : asock) : io_req := match k with SEND => snd_req x | _ => rcv_req x end.
Definition set_io (k : kind) (v : io_req) (x : asock) : asock :=
  match k with SEND => mk_asock (sock x) (ca x) v (rcv_req x) | _ => mk_asock (sock x) (ca x) (snd_req x) v end.
Definition set_ca_error e x := set_ca (mk_ca (ca_func (ca x)) (ca_sock (ca x)) e (ca_client (ca x)) (ca_accept_sock (ca x))) x.
Definition set_accept_sock s x := set_ca (mk_ca (ca_func (ca x)) (ca_sock (ca x)) (ca_error (ca x)) (ca_client (ca x)) s) x.
(** The outcome of a request to send or receive. *)
Definition with_size n (r : io_req) := mk_req (r_func r) (r_sock r) n (r_error r) (r_data r) (r_len r).
Definition with_error e (r : io_req) := mk_req (r_func r) (r_sock r) (r_size r) e (r_data r) (r_len r).

(** The operations of the socket at [t], and [container_of]. *)
Definition ovl (k : kind) (t : positive) : positive := match k with CA => t~0~0 | SEND => t~0~1 | RECV => t~1~0 end.
Definition container_of (o : positive) : option (kind * positive) :=
  match o with t~0~0 => Some (CA, t) | t~0~1 => Some (SEND, t) | t~1~0 => Some (RECV, t) | _ => None end%positive.

Section asock.
Context {K : Type} `{!Ports K} `{!WinSockets K}.

Record net := mk_net {
  socks : gmap positive asock;
  ioq_ : ioq K;
}.

Definition on_ioq {A} (m : M (ioq K) A) : M net A := fun s =>
  match m (ioq_ s) with
  | Ok (q, a) => Ok (mk_net (socks s) q, a)
  | Crash => Crash
  | NoFuel => NoFuel
  end.
Definition get_sock (t : positive) : M net asock := s ← get; need (socks s !! t).
Definition upd (t : positive) (u : asock -> asock) : M net unit :=
  x ← get_sock t; modify (fun s => mk_net (<[t := u x]> (socks s)) (ioq_ s)).
Definition wcall {A} (c : K -> K * A) : M net A := on_ioq (kcall c).
Definition trigger (k : kind) (t : positive) : M net unit := on_ioq (ioq_ovl_trigger (ovl k t)).
Definition close (s : Z) : M net unit :=
  n ← get; if decide (s ∈ opened (kern (ioq_ n))) then wcall (fun k => (closesocket s k, tt)) else crash.

(** ** The object *)
Definition new_sock : asock :=
  mk_asock INVALID_SOCKET (mk_ca 0 0 0 None INVALID_SOCKET) (mk_req 0 0 0 0 0 0) (mk_req 0 0 0 0 0 0).
Definition ovl_init (o : positive) : M (ioq K) unit := on_runq (set_task_func o 0);; on_runq (clear_task_node o).
Definition asock_init (t : positive) : M net unit :=
  modify (fun s => mk_net (<[t := new_sock]> (socks s)) (ioq_ s));;
  on_ioq (ovl_init (ovl CA t));; on_ioq (ovl_init (ovl SEND t));; on_ioq (ovl_init (ovl RECV t)).

Definition asock_destroy (t : positive) : M net unit :=
  x ← get_sock t; when (net_sock_is_valid (sock x)) (close (sock x)).

Definition asock_close (t : positive) : M net unit :=
  x ← get_sock t;
  when (net_sock_is_valid (sock x)) (
    wcall (fun k => (wsa_shutdown (sock x) k, tt));;
    close (sock x);;
    upd t (set_sock INVALID_SOCKET)).

(** The old socket is closed, and a new one made and bound to the port; what to do
    when that fails, and after it. *)
Definition listen_fails (t : positive) (e : Z) : M net Z := upd t (set_ca_error e);; ret (-1).
Definition fresh_socket {A} (t : positive) (fails : Z -> M net A) (next : M net A) : M net A :=
  x ← get_sock t;
  when (net_sock_is_valid (sock x)) (close (sock x));;
  ' (r, e) ← wcall wsa_socket;
  upd t (set_sock r);;
  if negb (net_sock_is_valid r) then fails e
  else
    ' (b, e) ← on_ioq (ioq_bind r);
    if b <? 0 then fails e else next.

Definition asock_listen (t : positive) (sa len : Z) : M net Z :=
  fresh_socket t (listen_fails t) (
    x ← get_sock t;
    e ← wcall (wsa_bind (sock x) sa len);
    if negb (e =? 0) then listen_fails t e
    else
      e ← wcall (wsa_listen (sock x));
      if negb (e =? 0) then listen_fails t e else ret 0).

(** ** Connections *)
Definition ca_result (t : positive) : M net unit :=
  x ← get_sock t;
  if ca_error (ca x) =? WSA_IO_PENDING then
    ' (ok, (_, e)) ← wcall (wsa_result (ca_sock (ca x)) (ovl CA t));
    upd t (set_ca_error (if (ok : bool) then 0 else e))
  else ret tt.

(** They return the client's function, which they call at the end. *)
Definition accept_done (t : positive) : M net Z :=
  ca_result t;;
  x ← get_sock t;
  (if truth (ca_error (ca x))
   then when (net_sock_is_valid (ca_accept_sock (ca x))) (close (ca_accept_sock (ca x)))
   else c ← need (ca_client (ca x)); upd c (set_sock (ca_accept_sock (ca x))));;
  upd t (set_accept_sock INVALID_SOCKET);;
  x ← get_sock t;
  ret (ca_func (ca x)).
Definition connect_done (t : positive) : M net Z := ca_result t;; x ← get_sock t; ret (ca_func (ca x)).

(** An operation that fails at once is answered through the run queue. *)
Definition ca_fails (t : positive) (e : Z) : M net unit := upd t (set_ca_error e);; trigger CA t.
Definition started (t : positive) (r : bool * Z) : M net unit :=
  if negb r.1 && negb (r.2 =? WSA_IO_PENDING) then ca_fails t r.2 else ret tt.

Definition asock_accept (t client : positive) (func : Z) : M net unit :=
  upd t (fun x => set_ca (mk_ca func (sock x) WSA_IO_PENDING (Some client) (ca_accept_sock (ca x))) x);;
  on_ioq (ioq_ovl_wait (ovl CA t) ACCEPT_DONE);;
  ' (r, e) ← wcall wsa_socket;
  upd t (set_accept_sock r);;
  if negb (net_sock_is_valid r) then ca_fails t e
  else
    ' (b, e) ← on_ioq (ioq_bind r);
    if b <? 0 then ca_fails t e
    else
      x ← get_sock t;
      r ← wcall (accept_ex (sock x) r (ovl CA t));
      started t r.

Definition asock_connect (t : positive) (sa len func : Z) : M net unit :=
  fresh_socket t (ca_fails t) (
    x ← get_sock t;
    e ← wcall (wsa_bind (sock x) 0 16);
    if negb (e =? 0) then ca_fails t e
    else
      upd t (fun x => set_ca (mk_ca func (sock x) WSA_IO_PENDING (ca_client (ca x)) (ca_accept_sock (ca x))) x);;
      on_ioq (ioq_ovl_wait (ovl CA t) CONNECT_DONE);;
      r ← wcall (connect_ex (sock x) sa len (ovl CA t));
      started t r).

(** ** Data *)
Definition io_done (k : kind) (t : positive) : M net Z :=
  x ← get_sock t;
  (if r_error (io k x) =? WSA_IO_PENDING then
     ' (ok, (n, e)) ← wcall (wsa_result (r_sock (io k x)) (ovl k t));
     upd t (fun x => set_io k (with_error (if (ok : bool) then 0 else e) (with_size n (io k x))) x)
   else ret tt);;
  x ← get_sock t;
  when (truth (r_error (io k x))) (upd t (fun x => set_io k (with_size 0 (io k x)) x));;
  ret (r_func (io k x)).
Definition send_done := io_done SEND.
Definition recv_done := io_done RECV.

Definition io_begin (k : kind) (done : Z) (call : Z -> Z -> Z -> positive -> K -> K * (bool * Z)) (t : positive) (data len func : Z) : M net unit :=
  upd t (fun x => set_io k (mk_req func (sock x) (r_size (io k x)) WSA_IO_PENDING data len) x);;
  on_ioq (ioq_ovl_wait (ovl k t) done);;
  x ← get_sock t;
  ' (ok, e) ← wcall (call (sock x) data len (ovl k t));
  if negb ok && negb (e =? WSA_IO_PENDING) then upd t (fun x => set_io k (with_error e (io k x)) x);; trigger k t else ret tt.
Definition asock_send := io_begin SEND SEND_DONE wsa_send.
Definition asock_recv := io_begin RECV RECV_DONE wsa_recv.

(** The run queue calls a task. *)
Definition call_task (o : positive) (f : Z) : M net Z :=
  match container_of o with
  | Some (CA, t) => if f =? ACCEPT_DONE then accept_done t else if f =? CONNECT_DONE then connect_done t else crash
  | Some (SEND, t) => if f =? SEND_DONE then send_done t else crash
  | Some (RECV, t) => if f =? RECV_DONE then recv_done t else crash
  | None => crash
  end.

Definition asock_get_error (x : asock) : Z := ca_error (ca x).
Definition asock_get_handle (x : asock) : Z := sock x.
Definition asock_get_send_error (x : asock) : Z := r_error (snd_req x).
Definition asock_get_send_size (x : asock) : Z := r_size (snd_req x).
Definition asock_get_recv_error (x : asock) : Z := r_error (rcv_req x).
Definition asock_get_recv_size (x : asock) : Z := r_size (rcv_req x).

(** The client's function for a request. *)
Definition callback (k : kind) (x : asock) : Z := match k with CA => ca_func (ca x) | _ => r_func (io k x) end.

(** * Sockets among their threads: those at [X] *)
Section system.
Context (X : gset positive).

(** [given]: the function that the last request of each kind was given. *)
Record asys := mk_asys { net_ : net; th : hist; given : gmap positive Z }.

Definition mine (o : positive) : Prop := match container_of o with Some (_, t) => t ∈ X | None => False end.
#[export] Instance win_mine_dec o : Decision (mine o).
Proof. unfold mine. destruct (container_of o) as [[k t]|]; apply _. Defined.

Definition func_of (n : net) (k : kind) (t : positive) : option Z := Runq.func (run (ioq_ n)) !! ovl k t.
(** An accept is outstanding; it is for the socket [c]. *)
Definition accepting (n : net) (h : hist) (t : positive) : Prop := ~ free h (ovl CA t) /\ func_of n CA t = Some ACCEPT_DONE.
Definition reserved (n : net) (h : hist) (c : positive) : Prop :=
  exists t x, socks n !! t = Some x /\ accepting n h t /\ ca_client (ca x) = Some c.

(** A socket on which listening has not failed. *)
Definition in_use (n : net) (x : asock) : Prop := sock x = INVALID_SOCKET \/ sock x ∈ bound (kern (ioq_ n)).

(** The requests that clients may make, one of each kind at a time: a socket given to
    an accept is closed, and no other accept's. *)
Inductive request (n : net) (h : hist) (t : positive) (x : asock) : kind -> Z -> M net unit -> Prop :=
  | req_send data len func : in_use n x -> request n h t x SEND func (asock_send t data len func)
  | req_recv data len func : in_use n x -> request n h t x RECV func (asock_recv t data len func)
  | req_accept c y func : in_use n x -> c <> t -> socks n !! c = Some y -> sock y = INVALID_SOCKET -> ~ reserved n h c ->
      request n h t x CA func (asock_accept t c func)
  | req_connect sa len func : ~ reserved n h t -> request n h t x CA func (asock_connect t sa len func).

Definition allowed (s : asys) (t : positive) (k : kind) (func : Z) (m : M net unit) : Prop :=
  free (th s) (ovl k t) /\ exists x, socks (net_ s) !! t = Some x /\ request (net_ s) (th s) t x k func m.

(** The task of the socket's last request is set up for a connect with [func]. *)
Definition connecting (n : net) (t : positive) (func : Z) : Prop :=
  func_of n CA t = Some CONNECT_DONE /\ exists x, socks n !! t = Some x /\ callback CA x = func.

(** Threads dispatch the queue, the operating system goes on, clients make requests,
    listen and close.  A connect sets its task up once it has a socket that is bound;
    one that does not get that far is left out, unless the task is still set up for a
    connect with the same function: it would be answered by whatever the request
    before it left there. *)
Inductive astep : asys -> asys -> Prop :=
  | a_port n h g q' h' : port_step mine (ioq_ n) h q' h' -> astep (mk_asys n h g) (mk_asys (mk_net (socks n) q') h' g)
  | a_done n h g l1 o l2 f n' fn : calling h = l1 ++ o :: l2 -> Runq.func (run (ioq_ n)) !! o = Some f -> call_task o f n = Ok (n', fn) ->
      astep (mk_asys n h g) (mk_asys n' (mk_hist (l1 ++ l2) (asked h) (called h ++ [o])) g)
  | a_kernel n h g k : keeps (kern (ioq_ n)) k -> astep (mk_asys n h g) (mk_asys (mk_net (socks n) (set_kern k (ioq_ n))) h g)
  | a_request n h g t k func m n' : allowed (mk_asys n h g) t k func m -> m n = Ok (n', tt) ->
      ((exists sa len, m = asock_connect t sa len func) -> connecting n' t func) ->
      astep (mk_asys n h g) (mk_asys n' (ask h (ovl k t)) (<[ovl k t := func]> g))
  | a_listen n h g t sa len n' r : t ∈ X -> free h (ovl CA t) -> ~ reserved n h t -> asock_listen t sa len n = Ok (n', r) ->
      astep (mk_asys n h g) (mk_asys n' h g)
  | a_close n h g t n' : t ∈ X -> asock_close t n = Ok (n', tt) -> astep (mk_asys n h g) (mk_asys n' h g).

(** Sockets that have just been initialised. *)
Inductive areach : asys -> Prop :=
  | a_start q J : pending (kern q) = ∅ -> opened (kern q) = ∅ -> jobs_ok mine (run q) J -> (forall o, mine o -> o ∉ J) ->
      (forall o, mine o -> Runq.func (run q) !! o = Some 0) ->
      areach (mk_asys (mk_net (gset_to_gmap new_sock X) q) (mk_hist [] [] []) ∅)
  | a_next s s' : areach s -> astep s s' -> areach s'.
End system.
End asock.
Arguments net K : clear implicits.
Arguments asys K : clear implicits.
