(* ===== verification/AsockWinMain.v ===== *)
(** Correctness of src/io/asock_windows.c: in every interleaving of clients and of the
    threads that dispatch the queue, requests are answered once and every socket
    that is open has one owner. *)
From S2P Require Import Prelude Lists Runq RunqMain Waitq Iocp AsockWin.

(** * The sockets *)

(** An object has two handles: its socket, and the one that its accept makes. *)
Definition slot (x : asock) (b : bool) : option Z :=
  let s := if b then ca_accept_sock (ca x) else sock x in if net_sock_is_valid s then Some s else None.
Definition held (S : gmap positive asock) (p : positive * bool) : option Z := S !! p.1 ≫= fun x => slot x p.2.

(** [acc]: an accept is outstanding. *)
Record links_ok (S : gmap positive asock) (acc : positive -> Prop) : Prop := {
  lk_client t x : S !! t = Some x -> acc t -> exists c y, ca_client (ca x) = Some c /\ c <> t /\ S !! c = Some y /\ sock y = INVALID_SOCKET;
  lk_one t u x y : S !! t = Some x -> S !! u = Some y -> acc t -> acc u -> ca_client (ca x) = ca_client (ca y) -> t = u;
  lk_idle t x : S !! t = Some x -> ~ acc t -> ca_accept_sock (ca x) = INVALID_SOCKET;
}.
(** The sockets [O] are open. *)
Record socks_ok (S : gmap positive asock) (O : gset Z) (acc : positive -> Prop) : Prop := {
  so_owners : owners O (held S);
  so_links : links_ok S acc;
}.

Definition unreserved (S : gmap positive asock) (acc : positive -> Prop) (t : positive) : Prop :=
  forall u y, S !! u = Some y -> acc u -> ca_client (ca y) <> Some t.

(** An object changes: its socket only if it is closed or no accept is for it. *)
Lemma links_upd S (acc acc' : positive -> Prop) t x x' : links_ok S acc -> S !! t = Some x ->
  (sock x' = sock x \/ sock x' = INVALID_SOCKET \/ unreserved S acc t) ->
  (forall u, u <> t -> acc' u <-> acc u) ->
  (acc' t -> acc t /\ ca_client (ca x') = ca_client (ca x)) -> (~ acc' t -> ca_accept_sock (ca x') = INVALID_SOCKET) ->
  links_ok (<[t := x']> S) acc'.
Proof.
  intros [H2 H3 H4] Ht Hs Ha Ht' Hi.
  assert (forall u y, <[t := x']> S !! u = Some y -> acc' u -> exists z, S !! u = Some z /\ acc u /\ ca_client (ca y) = ca_client (ca z)) as Hx.
  { intros u y Hu Hu'. destruct (decide (u = t)) as [->|Hn].
    - rewrite lookup_insert_eq in Hu. injection Hu as <-. exists x. destruct (Ht' Hu'). by split.
    - rewrite lookup_insert_ne in Hu by done. exists y. split; [done|]. by rewrite <- Ha. }
  split.
  - intros u y Hu Hu'. destruct (Hx u y Hu Hu') as (z & Hz & Hau & ->). destruct (H2 u z Hz Hau) as (c & w & Ec & Hc & Hw & Iw).
    exists c. destruct (decide (c = t)) as [->|Hn]; [|exists w; by rewrite lookup_insert_ne]. exists x'. rewrite lookup_insert_eq.
    split_and!; try done. rewrite Ht in Hw. injection Hw as <-. destruct Hs as [->|[->|Hs]]; [done..|]. by destruct (Hs u z Hz Hau).
  - intros u v y z Hu Hv Hau Hav E. destruct (Hx u y Hu Hau) as (y' & Hy' & Hau' & Ey). destruct (Hx v z Hv Hav) as (z' & Hz' & Hav' & Ez).
    eapply (H3 u v y' z'); congruence.
  - intros u y Hu Hu'. destruct (decide (u = t)) as [->|Hn].
    + rewrite lookup_insert_eq in Hu. injection Hu as <-. by apply Hi.
    + rewrite lookup_insert_ne in Hu by done. apply (H4 u y Hu). by rewrite <- Ha.
Qed.

Section socks.
Context (S : gmap positive asock) (O : gset Z) (acc : positive -> Prop) (H : socks_ok S O acc).

Lemma socks_acc (acc' : positive -> Prop) : (forall t x, S !! t = Some x -> acc' t <-> acc t) -> socks_ok S O acc'.
Proof.
  destruct H as [H1 [H2 H3 H4]]. intros E. split; [done|]. split.
  - intros t x Ht. rewrite (E t x) by done. by apply H2.
  - intros t u x y Ht Hu. rewrite (E t x), (E u y) by done. by apply H3.
  - intros t x Ht. rewrite (E t x) by done. by apply H4.
Qed.

Lemma slot_invalid (x : asock) (b : bool) : (if b then ca_accept_sock (ca x) else sock x) = INVALID_SOCKET -> slot x b = None.
Proof. unfold slot. by intros ->. Qed.
Lemma held_insert t x p : held (<[t := x]> S) p = if decide (p.1 = t) then slot x p.2 else held S p.
Proof. unfold held. destruct (decide (p.1 = t)) as [->|Hn]; [by rewrite lookup_insert_eq|by rewrite lookup_insert_ne]. Qed.
Lemma held_at t x b : S !! t = Some x -> held S (t, b) = slot x b.
Proof. unfold held. cbn. by intros ->. Qed.

Lemma held_set t x x' b : S !! t = Some x -> slot x' (negb b) = slot x (negb b) ->
  (forall p, p <> (t, b) -> held (<[t := x']> S) p = held S p) /\ held (<[t := x']> S) (t, b) = slot x' b.
Proof.
  intros Ht Hb. split; [|rewrite held_insert; cbn; by rewrite decide_True].
  intros [u c] Hp. rewrite held_insert. cbn. destruct (decide (u = t)) as [->|]; [|done]. rewrite (held_at t x) by done.
  by replace c with (negb b) by by destruct b, c.
Qed.

Lemma socks_open t x : S !! t = Some x -> net_sock_is_valid (sock x) = true -> sock x ∈ O.
Proof. intros Ht Hv. apply (proj1 (so_owners _ _ _ H)). exists (t, false). rewrite (held_at t x) by done. unfold slot. by rewrite Hv. Qed.
Lemma socks_open_accept t x : S !! t = Some x -> net_sock_is_valid (ca_accept_sock (ca x)) = true -> ca_accept_sock (ca x) ∈ O.
Proof. intros Ht Hv. apply (proj1 (so_owners _ _ _ H)). exists (t, true). rewrite (held_at t x) by done. unfold slot. by rewrite Hv. Qed.

(** Only its data. *)
Lemma socks_data t x x' : S !! t = Some x -> sock x' = sock x -> ca_client (ca x') = ca_client (ca x) ->
  ca_accept_sock (ca x') = ca_accept_sock (ca x) -> socks_ok (<[t := x']> S) O acc.
Proof.
  intros Ht E1 E2 E3. split; [|apply (links_upd S acc acc t x); [apply H|done|by left|done|done|rewrite E3; by apply (lk_idle _ _ (so_links _ _ _ H))]].
  apply (owners_ext _ _ (so_owners _ _ _ H)). intros [u b]. rewrite held_insert. cbn. destruct (decide (u = t)) as [->|]; [|done].
  rewrite (held_at t x) by done. unfold slot. by rewrite E1, E3.
Qed.

(** [O] when a handle has been opened, or could not be. *)
Definition opening (r : Z) (O O' : gset Z) : Prop := if net_sock_is_valid r then r ∉ O /\ O' = {[r]} ∪ O else O' = O.
Lemma owners_open t x x' b r O' : S !! t = Some x -> slot x b = None -> slot x' b = (if net_sock_is_valid r then Some r else None) ->
  slot x' (negb b) = slot x (negb b) -> opening r O O' -> owners O' (held (<[t := x']> S)).
Proof.
  intros Ht Hx Hx' Hb Ho. unfold opening in Ho.
  destruct (held_set t x x' b Ht Hb) as [He Eb].
  destruct (net_sock_is_valid r).
  - destruct Ho as [Hr ->]. apply (owners_alloc _ _ (so_owners _ _ _ H) _ (t, b)); [done|by rewrite (held_at t x)|congruence|done].
  - subst O'. apply (owners_ext _ _ (so_owners _ _ _ H)). intros p. destruct (decide (p = (t, b))) as [->|]; [|by apply He].
    rewrite Eb, (held_at t x) by done. congruence.
Qed.
Lemma owners_close t x x' b : S !! t = Some x -> slot x' b = None -> slot x' (negb b) = slot x (negb b) ->
  owners (match slot x b with Some s => O ∖ {[s]} | None => O end) (held (<[t := x']> S)).
Proof.
  intros Ht Hx' Hb.
  destruct (held_set t x x' b Ht Hb) as [He Eb].
  destruct (slot x b) as [s|] eqn:Es.
  - apply (owners_free _ _ (so_owners _ _ _ H) _ (t, b)); [by rewrite (held_at t x)|by rewrite Eb, Hx'|done].
  - apply (owners_ext _ _ (so_owners _ _ _ H)). intros p. destruct (decide (p = (t, b))) as [->|]; [|by apply He].
    by rewrite Eb, (held_at t x), Hx', Es.
Qed.

(** [close_of b x O]: the handle is closed, if there is one. *)
Definition close_of (b : bool) (x : asock) : gset Z := match slot x b with Some s => O ∖ {[s]} | None => O end.

Lemma socks_closed t x : S !! t = Some x -> socks_ok (<[t := set_sock INVALID_SOCKET x]> S) (close_of false x) acc.
Proof.
  intros Ht. split; [by apply owners_close|]. apply (links_upd S acc acc t x); [apply H|done|by right; left|done|done|].
  exact (lk_idle _ _ (so_links _ _ _ H) t x Ht).
Qed.

(** An accept ends: the handle it made is closed, or becomes the client's. *)
Section accepted.
Context (t : positive) (x x' : asock) (acc' : positive -> Prop).
Context (Ht : S !! t = Some x) (Hacc : acc t) (Es : sock x' = sock x) (Ei : ca_accept_sock (ca x') = INVALID_SOCKET).
Context (Hn : ~ acc' t) (Ho : forall u, u <> t -> acc' u <-> acc u).

Lemma links_accepted : links_ok (<[t := x']> S) acc'.
Proof. apply (links_upd S acc acc' t x); [apply H|done|by left|done|done|done]. Qed.
Lemma socks_dropped : socks_ok (<[t := x']> S) (close_of true x) acc'.
Proof.
  split; [|exact links_accepted]. apply (owners_close t x x' true); [done|by apply slot_invalid|]. cbn. unfold slot. by rewrite Es.
Qed.
Lemma socks_given c y : ca_client (ca x) = Some c -> S !! c = Some y -> c <> t /\
  socks_ok (<[t := x']> (<[c := set_sock (ca_accept_sock (ca x)) y]> S)) O acc'.
Proof.
  intros Ec Hc. destruct (so_links _ _ _ H) as [L1 L2 L3]. destruct (L1 t x Ht Hacc) as (c' & y' & Ec' & Hct & Hy' & Iy).
  rewrite Ec in Ec'. injection Ec' as <-. rewrite Hc in Hy'. injection Hy' as <-. split; [done|].
  rewrite insert_insert_ne by done. split.
  - apply (owners_move _ _ (so_owners _ _ _ H) _ (t, true) (c, false)); [congruence|..].
    + rewrite (held_at c y) by done. by apply slot_invalid.
    + unfold held. cbn. rewrite lookup_insert_ne, lookup_insert_eq by done. by apply slot_invalid.
    + unfold held. cbn. by rewrite lookup_insert_eq, Ht.
    + intros [u b] H1 H2. unfold held. cbn. destruct (decide (u = c)) as [->|Huc].
      * rewrite lookup_insert_eq, Hc. by destruct b.
      * rewrite lookup_insert_ne by done. destruct (decide (u = t)) as [->|Hut]; [|by rewrite lookup_insert_ne].
        rewrite lookup_insert_eq, Ht. destruct b; [done|]. cbn. unfold slot. by rewrite Es.
  - apply (links_upd _ acc' acc' c y); [exact links_accepted|by rewrite lookup_insert_ne| |done|done|].
    + right. right. intros u z Hu Hau E. destruct (decide (u = t)) as [->|Hut]; [done|]. rewrite lookup_insert_ne in Hu by done.
      apply Hut. apply (L2 u t z x); [done|done|by apply Ho|done|congruence].
    + intros Hac. cbn. apply (L3 c y Hc). by rewrite <- Ho.
Qed.
End accepted.

(** An accept begins. *)
Lemma socks_accept t x x' c y r O' (acc' : positive -> Prop) : S !! t = Some x -> ~ acc t -> sock x' = sock x -> ca_accept_sock (ca x') = r ->
  opening r O O' -> ca_client (ca x') = Some c -> c <> t -> S !! c = Some y -> sock y = INVALID_SOCKET -> unreserved S acc c ->
  acc' t -> (forall u, u <> t -> acc' u <-> acc u) -> socks_ok (<[t := x']> S) O' acc'.
Proof.
  intros Ht Hna Es Ea Ho Ec Hct Hc Iy Hu Hat Hacc. destruct (so_links _ _ _ H) as [L1 L2 L3]. split.
  - apply (owners_open t x x' true r); [done|by apply slot_invalid, (L3 t)|unfold slot; by rewrite Ea|cbn; unfold slot; by rewrite Es|done].
  - split.
    + intros u z Hz Hau. destruct (decide (u = t)) as [->|Hn].
      * rewrite lookup_insert_eq in Hz. injection Hz as <-. exists c, y. by rewrite lookup_insert_ne.
      * rewrite lookup_insert_ne in Hz by done. rewrite Hacc in Hau by done. destruct (L1 u z Hz Hau) as (d & w & Ed & Hd & Hw & Iw).
        exists d. destruct (decide (d = t)) as [->|Hdt]; [|exists w; by rewrite lookup_insert_ne]. exists x'. rewrite lookup_insert_eq.
        split_and!; try done. congruence.
    + assert (forall u z, u <> t -> <[t := x']> S !! u = Some z -> acc' u -> ca_client (ca z) <> Some c) as Hx.
      { intros u z Hn Hz Hau. rewrite lookup_insert_ne in Hz by done. apply (Hu u z Hz). by apply Hacc. }
      intros u v z w Hz Hw Hau Hav E. destruct (decide (u = t)) as [->|Hn], (decide (v = t)) as [->|Hm]; [done|..].
      * rewrite lookup_insert_eq in Hz. injection Hz as <-. destruct (Hx v w Hm Hw Hav). congruence.
      * rewrite lookup_insert_eq in Hw. injection Hw as <-. destruct (Hx u z Hn Hz Hau). congruence.
      * rewrite lookup_insert_ne in Hz, Hw by done. eapply (L2 u v z w); try done; by apply Hacc.
    + intros u z Hz Hau. destruct (decide (u = t)) as [->|Hn]; [done|]. rewrite lookup_insert_ne in Hz by done. apply (L3 u z Hz). by rewrite <- Hacc.
Qed.
End socks.

(** A socket is replaced by a fresh one, if there is one. *)
Lemma socks_fresh S O acc t x r O' : socks_ok S O acc -> S !! t = Some x -> unreserved S acc t -> opening r (close_of O false x) O' ->
  socks_ok (<[t := set_sock r x]> S) O' acc.
Proof.
  intros H Ht Hu Ho. pose proof (socks_closed S O acc H t x Ht) as H1. set (S1 := <[t := set_sock INVALID_SOCKET x]> S) in *.
  assert (S1 !! t = Some (set_sock INVALID_SOCKET x)) as Ht1 by apply lookup_insert_eq.
  assert (<[t := set_sock r x]> S = <[t := set_sock r x]> S1) as -> by (unfold S1; by rewrite insert_insert_eq). split.
  - by apply (owners_open S1 _ acc H1 t (set_sock INVALID_SOCKET x) _ false r).
  - apply (links_upd S1 acc acc t (set_sock INVALID_SOCKET x)); [apply H1|done| |done|done|exact (lk_idle _ _ (so_links _ _ _ H) t x Ht)].
    right. right. intros u y Hy Hau. unfold S1 in Hy. destruct (decide (u = t)) as [->|Hn].
    + rewrite lookup_insert_eq in Hy. injection Hy as <-. by apply (Hu t x).
    + rewrite lookup_insert_ne in Hy by done. by apply (Hu u y).
Qed.

(** * The objects and their requests *)
Section steps.
Context {K : Type} `{!Ports K, !PortsLaws K} `{!WinSockets K, !WinSocketsLaws K} (X : gset positive).
Implicit Types (n : net K) (h : hist) (J : list positive) (acc : positive -> Prop).

Notation os n := (kern (ioq_ n)).

Definition right_func (k : kind) (f : Z) : Prop :=
  match k with CA => f = ACCEPT_DONE \/ f = CONNECT_DONE | SEND => f = SEND_DONE | RECV => f = RECV_DONE end.

Record net_ok n h J : Prop := {
  nk_user : user_ok (mine X) (ioq_ n) h J;
  nk_dom t : t ∈ X <-> is_Some (socks n !! t);
  nk_funcs k t : t ∈ X -> ~ free h (ovl k t) -> exists f, func_of n k t = Some f /\ right_func k f;
  nk_socks : socks_ok (socks n) (opened (os n)) (accepting n h);
}.

Lemma container_ovl k t : container_of (ovl k t) = Some (k, t).
Proof. by destruct k. Qed.
Lemma win_ovl_inj k t k' t' : ovl k t = ovl k' t' -> k = k' /\ t = t'.
Proof. intros E. apply (f_equal container_of) in E. rewrite !container_ovl in E. by injection E. Qed.
Lemma win_mine k t : t ∈ X -> mine X (ovl k t).
Proof. unfold mine. by rewrite container_ovl. Qed.
Lemma mine_ovl_of o : mine X o -> exists k t, o = ovl k t /\ t ∈ X.
Proof.
  unfold mine. destruct (container_of o) as [[k t]|] eqn:E; [|done]. intros Ht. exists k, t. split; [|done].
  destruct o as [o|o|]; [destruct o|destruct o|]; try done; cbn in E; by injection E as <- <-.
Qed.

Lemma wp_net_ioq {A} (m : M (ioq K) A) n P : wp m (ioq_ n) (fun a q => P a (mk_net (socks n) q)) -> wp (on_ioq m) n P.
Proof. unfold wp, on_ioq. by destruct (m _) as [[q a]| |]. Qed.
Lemma wp_wcall {A} (c : K -> K * A) n P :
  (forall k a, c (os n) = (k, a) -> P a (mk_net (socks n) (set_kern k (ioq_ n)))) -> wp (wcall c) n P.
Proof. intros HP. by apply wp_net_ioq, wp_kcall. Qed.
Lemma wp_win_get_sock t x n P : socks n !! t = Some x -> P x n -> wp (get_sock t) n P.
Proof. intros Ht HP. unfold get_sock. wp_bind. apply wp_get. by apply (wp_need _ x). Qed.
Lemma wp_win_upd t u x n P : socks n !! t = Some x -> P tt (mk_net (<[t := u x]> (socks n)) (ioq_ n)) -> wp (upd t u) n P.
Proof. intros Ht HP. unfold upd. wp_bind. by apply (wp_win_get_sock t x), wp_modify. Qed.
Lemma wp_win_close s n P : s ∈ opened (os n) -> P tt (mk_net (socks n) (set_kern (closesocket s (os n)) (ioq_ n))) -> wp (close s) n P.
Proof. intros Hs HP. unfold close. wp_bind. apply wp_get. rewrite decide_True by done. apply wp_wcall. by intros k [] [= <-]. Qed.

(** ** What leaves the operations as they are *)
Record quiet acc n n' : Prop := {
  qu_run : run (ioq_ n') = run (ioq_ n);
  qu_pending : pending (os n') = pending (os n);
  qu_dom t : is_Some (socks n' !! t) <-> is_Some (socks n !! t);
  qu_socks : socks_ok (socks n') (opened (os n')) acc;
}.

Lemma quiet_ok n h J n' : net_ok n h J -> quiet (accepting n h) n n' -> net_ok n' h J.
Proof.
  intros [H1 H2 H3 H4] [Q1 Q2 Q3 Q4]. split.
  - eapply user_same; [exact H1|rewrite Q1; apply H1|done].
  - intros t. by rewrite Q3.
  - intros k t. unfold func_of. rewrite Q1. apply H3.
  - apply (socks_acc _ _ _ Q4). intros t x _. unfold accepting, func_of. by rewrite Q1.
Qed.
Lemma quiet_trans acc n n1 n2 : quiet acc n n1 -> quiet acc n1 n2 -> quiet acc n n2.
Proof. intros [Q1 Q2 Q3 Q4] [R1 R2 R3 R4]. split; [congruence..| |done]. intros t. by rewrite R3. Qed.
Lemma quiet_keeps acc n q : socks_ok (socks n) (opened (os n)) acc -> run q = run (ioq_ n) -> pending (kern q) = pending (os n) ->
  opened (kern q) = opened (os n) -> quiet acc n (mk_net (socks n) q).
Proof. intros H E1 E2 E3. split; cbn; [done..|]. by rewrite E3. Qed.

Lemma dom_insert_at {A} (S : gmap positive A) t x x' u : S !! t = Some x -> is_Some (<[t := x']> S !! u) <-> is_Some (S !! u).
Proof. intros Ht. destruct (decide (u = t)) as [->|Hn]; [rewrite lookup_insert_eq, Ht; by split; eexists|by rewrite lookup_insert_ne]. Qed.

Lemma quiet_data acc n t x x' : socks_ok (socks n) (opened (os n)) acc -> socks n !! t = Some x -> sock x' = sock x ->
  ca_client (ca x') = ca_client (ca x) -> ca_accept_sock (ca x') = ca_accept_sock (ca x) ->
  quiet acc n (mk_net (<[t := x']> (socks n)) (ioq_ n)).
Proof. intros H Ht E1 E2 E3. split; [done|done| |by eapply socks_data]. intros u. by eapply dom_insert_at. Qed.

Lemma wp_asock_close acc n t x : socks_ok (socks n) (opened (os n)) acc -> socks n !! t = Some x ->
  wp (asock_close t) n (fun _ n' => quiet acc n n' /\ exists y, socks n' !! t = Some y /\ sock y = INVALID_SOCKET).
Proof.
  intros H Ht. unfold asock_close. wp_bind. apply (wp_win_get_sock t x); [done|]. destruct (net_sock_is_valid (sock x)) eqn:Hv.
  - cbn [when]. wp_bind. apply wp_wcall. intros k [] [= <-]. destruct (shutdown_keeps (sock x) (os n)) as (K1 & _ & K3).
    wp_bind. apply wp_win_close; [cbn; rewrite K3; by eapply socks_open|]. apply (wp_win_upd t _ x); [done|]. cbn.
    destruct (close_closes (sock x) (wsa_shutdown (sock x) (os n))) as [C1 C2]. split; [split; cbn|].
    + done.
    + congruence.
    + intros u. by eapply dom_insert_at.
    + rewrite C2, K3. pose proof (socks_closed _ _ _ H t x Ht) as Hc. unfold close_of, slot in Hc. by rewrite Hv in Hc.
    + exists (set_sock INVALID_SOCKET x). by rewrite lookup_insert_eq.
  - apply wp_ret. split; [by destruct n; apply quiet_keeps|]. exists x. split; [done|]. unfold net_sock_is_valid in Hv.
    by apply negb_false_iff, Z.eqb_eq in Hv.
Qed.

(** A fresh socket for [t]. *)
Lemma wp_fresh {A} acc n t x (fails : Z -> M (net K) A) next P : socks_ok (socks n) (opened (os n)) acc -> socks n !! t = Some x ->
  unreserved (socks n) acc t ->
  (forall n' r, quiet acc n n' -> socks n' = <[t := set_sock r x]> (socks n) ->
    (forall e, wp (fails e) n' P) /\ (r ∈ bound (os n') -> wp next n' P)) ->
  wp (fresh_socket t fails next) n P.
Proof.
  intros H Ht Hu HP. unfold fresh_socket. wp_bind. apply (wp_win_get_sock t x); [done|]. wp_bind.
  eapply (wp_mono _ _ (fun _ n' => exists k, n' = mk_net (socks n) (set_kern k (ioq_ n)) /\ pending k = pending (os n) /\
    opened k = close_of (opened (os n)) false x)).
  { unfold close_of, slot. destruct (net_sock_is_valid (sock x)) eqn:Hv; cbn [when].
    - apply wp_win_close; [by eapply socks_open|]. destruct (close_closes (sock x) (os n)). by eexists.
    - apply wp_ret. exists (os n). destruct n as [S [w k]]. done. }
  intros [] n0 (k0 & -> & Ep & Eo). wp_bind. apply wp_wcall. intros k [r e] E. destruct (socket_opens _ _ _ _ E) as (P1 & _ & P2). cbn in P1, P2.
  wp_bind. apply (wp_win_upd t _ x); [done|]. cbn.
  set (n1 := mk_net _ _). assert (quiet acc n n1) as Hq.
  { split; cbn; [done|congruence|intros u; by eapply dom_insert_at|]. apply (socks_fresh _ _ _ _ _ r _ H Ht Hu). rewrite <- Eo. exact P2. }
  destruct (negb (net_sock_is_valid r)); [by apply (HP n1 r)|]. wp_bind. apply wp_net_ioq. unfold ioq_bind. wp_bind. apply wp_kcall.
  intros k2 e2 E2. pose proof (bind_pending r k) as B1. pose proof (bind_bound _ _ _ _ E2) as B2. pose proof (port_opened r k) as B3.
  cbn in E2. rewrite E2 in B1, B3. cbn in B1, B3. apply wp_ret. cbn.
  assert (quiet acc n (mk_net (socks n1) (set_kern k2 (ioq_ n1)))) as Hq2.
  { eapply quiet_trans; [exact Hq|]. apply quiet_keeps; [apply Hq|done|cbn; congruence|cbn; congruence]. }
  destruct (HP _ r Hq2 eq_refl) as [HP1 HP2]. destruct (Z.eqb_spec e2 0) as [->|He]; cbn; [|apply HP1].
  apply HP2. cbn in *. rewrite B2. set_solver.
Qed.

Lemma wp_asock_listen acc n t x sa len : socks_ok (socks n) (opened (os n)) acc -> socks n !! t = Some x -> unreserved (socks n) acc t ->
  wp (asock_listen t sa len) n (fun _ n' => quiet acc n n').
Proof.
  intros H Ht Hu. apply (wp_fresh acc n t x); [done..|]. intros n1 r Q E1.
  assert (forall n2 e, quiet acc n n2 -> socks n2 = socks n1 -> wp (listen_fails t e) n2 (fun _ n' => quiet acc n n')) as Hf.
  { intros n2 e Q2 E2. unfold listen_fails. wp_bind. apply (wp_win_upd t _ (set_sock r x)); [by rewrite E2, E1, lookup_insert_eq|].
    apply wp_ret. eapply quiet_trans; [exact Q2|]. eapply quiet_data; [apply Q2|by rewrite E2, E1, lookup_insert_eq|done..]. }
  split; [intros e; by apply Hf|]. intros _. wp_bind. apply (wp_win_get_sock t (set_sock r x)); [by rewrite E1, lookup_insert_eq|].
  wp_bind. apply wp_wcall. intros k1 e1 K1. pose proof (bind_keeps r sa len (os n1)) as B1. cbn in K1. rewrite K1 in B1. destruct B1 as (P1 & _ & O1).
  set (n2 := mk_net _ _). assert (quiet acc n n2) as Q2 by (eapply quiet_trans; [exact Q|]; by apply quiet_keeps; [apply Q|..]).
  destruct (negb (e1 =? 0)); [by apply Hf|]. wp_bind. apply wp_wcall. intros k2 e2 K2. pose proof (listen_keeps r k1) as B2.
  cbn in K2. rewrite K2 in B2. destruct B2 as (P2 & _ & O2). set (n3 := mk_net _ _).
  assert (quiet acc n n3) as Q3 by (eapply quiet_trans; [exact Q2|]; by apply quiet_keeps; [apply Q2|..]).
  destruct (negb (e2 =? 0)); [by apply Hf|by apply wp_ret].
Qed.

(** ** Requests *)

(** The request has been made: [n'] differs from [n] in the object, perhaps. *)
Definition goes n h (o : positive) n' : Prop := exists J, user_ok (mine X) (ioq_ n') (ask h o) J /\
  Runq.func (run (ioq_ n')) = Runq.func (run (ioq_ n)) /\ opened (os n') = opened (os n).

Lemma wp_fails n h J k t x u : user_ok (mine X) (ioq_ n) h J -> t ∈ X -> free h (ovl k t) -> socks n !! t = Some x ->
  wp (upd t u;; trigger k t) n (fun _ n' => goes n h (ovl k t) n' /\ socks n' = <[t := u x]> (socks n)).
Proof.
  intros H Ht Hf Hx. wp_bind. apply (wp_win_upd t u x); [done|]. apply wp_net_ioq. pose proof (win_mine k t Ht) as Ho.
  destruct (user_free _ _ _ _ _ H Ho Hf) as (_ & Hn & _).
  apply (Iocp.wp_trigger (mine X) _ J); [apply H|done|done|]. intros r Hj Ef. split; [|done]. exists (J ++ [ovl k t]). split; [|done].
  by eapply user_ask_queued.
Qed.

(** How an operation that has been started ends: it is pending, or was answered. *)
Lemma wp_win_outcome n h J k t x u kk (ok : bool) e : user_ok (mine X) (ioq_ n) h J -> t ∈ X -> free h (ovl k t) -> socks n !! t = Some x ->
  pending kk = (if ok || (e =? WSA_IO_PENDING) then {[ovl k t]} ∪ pending (os n) else pending (os n)) -> opened kk = opened (os n) ->
  wp (if negb ok && negb (e =? WSA_IO_PENDING) then upd t u;; trigger k t else ret tt) (mk_net (socks n) (set_kern kk (ioq_ n)))
    (fun _ n' => goes n h (ovl k t) n' /\ (socks n' = socks n \/ socks n' = <[t := u x]> (socks n))).
Proof.
  intros H Ht Hf Hx Hp Hop. rewrite <- negb_orb. destruct (ok || (e =? WSA_IO_PENDING)); cbn.
  - apply wp_ret. split; [|by left]. exists J. split; [|by split]. eapply user_ask_pending; [exact H|by apply win_mine|done|apply H|done].
  - set (n1 := mk_net _ _). assert (user_ok (mine X) (ioq_ n1) h J) as H1 by (eapply user_same; [exact H|apply H|done]).
    eapply wp_mono; [by apply (wp_fails n1 h J k t x u)|]. intros [] n' [(J' & G1 & G2 & G3) Es]. split; [|by right].
    exists J'. split; [done|]. split; [done|]. rewrite G3. exact Hop.
Qed.

(** The function that answers it is set. *)
Lemma wp_set_done n h J o f : user_ok (mine X) (ioq_ n) h J ->
  wp (on_ioq (ioq_ovl_wait o f)) n (fun _ n' => user_ok (mine X) (ioq_ n') h J /\ Runq.func (run (ioq_ n')) = <[o := f]> (Runq.func (run (ioq_ n))) /\
    os n' = os n /\ socks n' = socks n).
Proof.
  intros H. apply wp_net_ioq, wp_on_runq. eapply wp_mono; [apply (jobs_set_func _ _ _ o f (uo_jobs _ _ _ _ H))|].
  intros [] r [Hj Ef]. split; [|done]. by eapply user_same.
Qed.

(** What a request leaves. *)
Record asked_ok n h k t (acc : positive -> Prop) n' : Prop := {
  as_user : exists J, user_ok (mine X) (ioq_ n') (ask h (ovl k t)) J;
  as_dom u : is_Some (socks n' !! u) <-> is_Some (socks n !! u);
  as_funcs o : o <> ovl k t -> Runq.func (run (ioq_ n')) !! o = Runq.func (run (ioq_ n)) !! o;
  as_socks : socks_ok (socks n') (opened (os n')) acc;
}.

Lemma asked_net_ok n h J k t acc n' : net_ok n h J -> t ∈ X -> free h (ovl k t) -> asked_ok n h k t acc n' ->
  (exists f, func_of n' k t = Some f /\ right_func k f) ->
  (forall u, (k = CA -> u <> t) -> acc u <-> accepting n h u) -> (k = CA -> acc t <-> func_of n' CA t = Some ACCEPT_DONE) ->
  exists J', net_ok n' (ask h (ovl k t)) J'.
Proof.
  intros H Ht Hf [[J' Hu] Hd Hfn Hs] Hr Ha1 Ha2. exists J'. split; [done|..].
  - intros u. rewrite Hd. apply H.
  - intros k' t' Ht' Hn. destruct (decide (ovl k' t' = ovl k t)) as [E|E]; [by apply win_ovl_inj in E as [-> ->]|].
    unfold func_of. rewrite Hfn by done. apply (nk_funcs _ _ _ H); [done|]. by rewrite free_ask in Hn.
  - apply (socks_acc _ _ _ Hs). intros u z _. unfold accepting. destruct (decide (ovl CA u = ovl k t)) as [E|E].
    + apply win_ovl_inj in E as [<- ->]. rewrite Ha2 by done. split; [by intros []|]. intros Hc. split; [|done]. by apply free_busy.
    + rewrite Ha1; [|intros -> ->; done]. unfold accepting. rewrite free_ask by done. unfold func_of. by rewrite Hfn.
Qed.

Lemma free_not_accepting n h t : free h (ovl CA t) -> ~ accepting n h t.
Proof. by intros Hf [Hn _]. Qed.

Lemma goes_asked acc n0 n h k t n' : goes n h (ovl k t) n' -> quiet acc n (mk_net (socks n') (ioq_ n)) ->
  (forall u, is_Some (socks n !! u) <-> is_Some (socks n0 !! u)) ->
  (forall o, o <> ovl k t -> Runq.func (run (ioq_ n)) !! o = Runq.func (run (ioq_ n0)) !! o) ->
  asked_ok n0 h k t acc n' /\ func_of n' k t = func_of n k t.
Proof.
  intros (J' & G1 & G2 & G3) [_ _ Qd Qs] Hd Hfn. split; [|unfold func_of; by rewrite G2]. split.
  - by exists J'.
  - intros u. by rewrite (Qd u).
  - intros o Ho. by rewrite G2, Hfn.
  - rewrite G3. exact Qs.
Qed.

(** *** Data *)
Lemma wp_io n h J k f call t x data len func : k <> CA -> right_func k f -> net_ok n h J -> socks n !! t = Some x -> free h (ovl k t) ->
  (forall kk, starts (sock x) (ovl k t) kk (call (sock x) data len (ovl k t) kk)) -> in_use n x ->
  wp (io_begin k f call t data len func) n (fun _ n' => asked_ok n h k t (accepting n h) n' /\ func_of n' k t = Some f).
Proof.
  intros Hk Hr H Hx Hf Hst Hin. assert (t ∈ X) as Ht by (apply (nk_dom _ _ _ H); by eexists).
  unfold io_begin. wp_bind. apply (wp_win_upd t _ x); [done|]. set (x1 := set_io k _ x). set (n1 := mk_net _ _).
  assert (quiet (accepting n h) n n1) as Q1 by (apply (quiet_data _ _ _ x); [apply H|done|by destruct k..]).
  pose proof (quiet_ok _ _ _ _ H Q1) as H1. wp_bind. eapply wp_mono; [apply (wp_set_done n1 h J); apply H1|].
  intros [] n2 (U2 & F2 & O2 & S2). wp_bind. assert (socks n2 !! t = Some x1) as Hx2 by (rewrite S2; apply lookup_insert_eq).
  apply (wp_win_get_sock t x1); [done|]. wp_bind. apply wp_wcall. intros kk [ok e] E. pose proof (Hst (os n2)) as St.
  assert (sock x1 = sock x) as Ex by by destruct k. rewrite Ex in E. rewrite E in St. destruct St as (_ & So & Sp).
  eapply wp_mono; [apply (wp_win_outcome n2 h J k t x1); [done|done|done|done| |done]|].
  - apply Sp. rewrite O2. destruct Hin as [->|]; [right; apply invalid_closed|by left].
  - intros [] n' [G Es]. assert (func_of n2 k t = Some f) as Hfd by (unfold func_of; by rewrite F2, lookup_insert_eq).
    rewrite <- Hfd. apply (goes_asked _ n n2); [done| |intros u; rewrite S2; apply Q1|intros o Ho; by rewrite F2, lookup_insert_ne].
    assert (socks_ok (socks n2) (opened (os n2)) (accepting n h)) as Q2 by (rewrite O2, S2; apply Q1).
    destruct Es as [->| ->]; [by apply quiet_keeps|]. apply (quiet_data _ _ _ x1); [done|done|by destruct k..].
Qed.

(** *** Connections *)

(** [n]: the request has been prepared since [n0]; it fails before the operating
    system has it, or is started. *)
Section prepared.
Context (acc : positive -> Prop) (n0 n : net K) (h : hist) (J : list positive) (t : positive) (x : asock).
Context (H : user_ok (mine X) (ioq_ n) h J) (Ht : t ∈ X) (Hf : free h (ovl CA t)) (Hx : socks n !! t = Some x).
Context (Hs : socks_ok (socks n) (opened (os n)) acc) (Hd : forall u, is_Some (socks n !! u) <-> is_Some (socks n0 !! u)).
Context (Hfn : forall o, o <> ovl CA t -> Runq.func (run (ioq_ n)) !! o = Runq.func (run (ioq_ n0)) !! o).

Lemma wp_ca_fails e : wp (ca_fails t e) n (fun _ n' => asked_ok n0 h CA t acc n' /\ func_of n' CA t = func_of n CA t).
Proof.
  eapply wp_mono; [by apply (wp_fails n h J CA t x)|]. intros [] n' [G Es]. apply (goes_asked acc n0 n); [done| |done..].
  rewrite Es. by eapply quiet_data.
Qed.
Lemma wp_started kk r s : s ∈ bound (os n) \/ s ∉ opened (os n) -> starts s (ovl CA t) (os n) (kk, r) ->
  wp (started t r) (mk_net (socks n) (set_kern kk (ioq_ n))) (fun _ n' => asked_ok n0 h CA t acc n' /\ func_of n' CA t = func_of n CA t).
Proof.
  intros Hb. destruct r as [ok e]. intros (_ & So & Sp). unfold started, ca_fails. cbn [fst snd].
  eapply wp_mono; [apply (wp_win_outcome n h J CA t x (set_ca_error e)); [done|done|done|done|by apply Sp|done]|].
  intros [] n' [G Es]. apply (goes_asked acc n0 n); [done| |done..]. destruct Es as [->| ->]; [by apply quiet_keeps|by eapply quiet_data].
Qed.
End prepared.

Lemma wp_win_accept n h J t c func x y : net_ok n h J -> socks n !! t = Some x -> free h (ovl CA t) -> in_use n x ->
  c <> t -> socks n !! c = Some y -> sock y = INVALID_SOCKET -> ~ reserved n h c ->
  wp (asock_accept t c func) n (fun _ n' => asked_ok n h CA t (fun u => accepting n h u \/ u = t) n' /\ func_of n' CA t = Some ACCEPT_DONE).
Proof.
  intros H Hx Hf Hin Hct Hy Iy Hr. assert (t ∈ X) as Ht by (apply (nk_dom _ _ _ H); by eexists).
  pose proof (free_not_accepting n h t Hf) as Hna. set (acc u := accepting n h u \/ u = t).
  unfold asock_accept. wp_bind. apply (wp_win_upd t _ x); [done|]. set (x1 := set_ca _ x). set (n1 := mk_net _ _). wp_bind.
  eapply wp_mono; [apply (wp_set_done n1 h J); apply H|]. intros [] n2 (U2 & F2 & O2 & S2). wp_bind.
  apply wp_wcall. intros k [r e] E. destruct (socket_opens _ _ _ _ E) as (P1 & B1 & P2). cbn in P1, B1, P2. wp_bind.
  assert (socks n2 !! t = Some x1) as Hx2 by (rewrite S2; apply lookup_insert_eq). apply (wp_win_upd t _ x1); [done|].
  set (x3 := set_accept_sock r x1). cbn. rewrite S2. cbn. rewrite insert_insert_eq. set (n3 := mk_net _ _).
  assert (socks n3 !! t = Some x3) as Hx3 by apply lookup_insert_eq.
  assert (user_ok (mine X) (ioq_ n3) h J) as U3 by (eapply user_same; [exact U2|apply U2|done]).
  assert (socks_ok (socks n3) (opened (os n3)) acc) as Hs3.
  { apply (socks_accept (socks n) (opened (os n)) (accepting n h) (nk_socks _ _ _ H) t x x3 c y r); try done.
    - cbn. by rewrite O2 in P2.
    - intros u z Hu Hau Ec. apply Hr. by exists u, z.
    - by right.
    - intros u Hu. unfold acc. naive_solver. }
  assert (forall u, is_Some (socks n3 !! u) <-> is_Some (socks n !! u)) as Hd3 by (intros u; by eapply dom_insert_at).
  assert (forall o, o <> ovl CA t -> Runq.func (run (ioq_ n3)) !! o = Runq.func (run (ioq_ n)) !! o) as Hfn3.
  { intros o Ho. etransitivity; [exact (f_equal (fun m => m !! o) F2)|]. by rewrite lookup_insert_ne. }
  assert (func_of n3 CA t = Some ACCEPT_DONE) as Hfd.
  { unfold func_of. etransitivity; [exact (f_equal (fun m => m !! ovl CA t) F2)|]. apply lookup_insert_eq. }
  destruct (negb (net_sock_is_valid r)); [eapply wp_mono; [by apply (wp_ca_fails acc n n3 h J t x3)|]; intros [] n' [HA Ef]; exact (conj HA (eq_trans Ef Hfd))|].
  wp_bind. apply wp_net_ioq. unfold ioq_bind. wp_bind. apply wp_kcall. intros k2 e2 E2. cbn in E2.
  pose proof (bind_pending r k) as B2. pose proof (bind_bound _ _ _ _ E2) as B3. pose proof (port_opened r k) as B4.
  rewrite E2 in B2, B4. cbn in B2, B4. apply wp_ret. cbn. set (n4 := mk_net _ _).
  assert (user_ok (mine X) (ioq_ n4) h J) as U4 by (eapply user_same; [exact U3|apply U3|done]).
  assert (socks_ok (socks n4) (opened (os n4)) acc) as Hs4 by (cbn; by rewrite B4).
  destruct (Z.eqb_spec e2 0) as [->|He]; cbn; [|eapply wp_mono; [by apply (wp_ca_fails acc n n4 h J t x3)|]; intros [] n' [HA Ef]; exact (conj HA (eq_trans Ef Hfd))].
  wp_bind. apply (wp_win_get_sock t x3); [done|]. wp_bind. apply wp_wcall. intros k5 r5 E5.
  assert (starts (sock x) (ovl CA t) (os n4) (k5, r5)) as St by (rewrite <- E5; apply (accept_starts (sock x))).
  eapply wp_mono; [apply (wp_started acc n n4 h J t x3 U4 Ht Hf Hx3 Hs4 Hd3 Hfn3 k5 r5 (sock x)); [|exact St]|intros [] n' [HA Ef]; exact (conj HA (eq_trans Ef Hfd))].
  destruct Hin as [->|Hb]; [right; apply invalid_closed|left]. cbn. rewrite B3, B1, O2. cbn. set_solver.
Qed.
Lemma wp_win_connect n h J t sa len func x : net_ok n h J -> socks n !! t = Some x -> free h (ovl CA t) -> ~ reserved n h t ->
  wp (asock_connect t sa len func) n (fun _ n' => asked_ok n h CA t (accepting n h) n').
Proof.
  intros H Hx Hf Hr. assert (t ∈ X) as Ht by (apply (nk_dom _ _ _ H); by eexists).
  apply (wp_fresh (accepting n h) n t x); [apply H|done|intros u z Hu Hau Ec; apply Hr; by exists u, z|].
  intros n1 r Q1 E1. set (x1 := set_sock r x) in *. assert (socks n1 !! t = Some x1) as Hx1 by (rewrite E1; apply lookup_insert_eq).
  assert (forall n2 e, quiet (accepting n h) n n2 -> socks n2 = socks n1 ->
    wp (ca_fails t e) n2 (fun _ n' => asked_ok n h CA t (accepting n h) n')) as Hfail.
  { intros n2 e Q2 E2. pose proof (quiet_ok _ _ _ _ H Q2) as H2. eapply wp_mono; [apply (wp_ca_fails (accepting n h) n n2 h J t x1)|intros [] n' HA; exact (proj1 HA)].
    all: [> apply H2|done|done|by rewrite E2|apply Q2|apply Q2|intros o _; by rewrite (qu_run _ _ _ Q2)]. }
  split; [intros e; by apply Hfail|]. intros Hb. wp_bind. apply (wp_win_get_sock t x1); [done|]. wp_bind. apply wp_wcall. intros k e E.
  pose proof (bind_keeps r 0 16 (os n1)) as Kb. cbn in E. rewrite E in Kb. destruct Kb as (K1 & K2 & K3). set (n2 := mk_net _ _).
  assert (quiet (accepting n h) n n2) as Q2 by (eapply quiet_trans; [exact Q1|]; by apply quiet_keeps; [apply Q1|..]).
  destruct (negb (e =? 0)); [by apply Hfail|]. wp_bind. apply (wp_win_upd t _ x1); [done|]. set (x3 := set_ca _ x1). set (n3 := mk_net _ _).
  assert (quiet (accepting n h) n n3) as Q3 by (eapply quiet_trans; [exact Q2|]; by apply (quiet_data _ _ _ x1); [apply Q2|..]).
  wp_bind. eapply wp_mono; [apply (wp_set_done n3 h J); eapply quiet_ok; [exact H|done]|]. intros [] n4 (U4 & F4 & O4 & S4).
  assert (socks n4 !! t = Some x3) as Hx4 by (rewrite S4; apply lookup_insert_eq). wp_bind. apply wp_wcall. intros k5 r5 E5.
  assert (starts r (ovl CA t) (os n4) (k5, r5)) as St by (rewrite <- E5; apply (connect_starts r)).
  eapply wp_mono; [apply (wp_started (accepting n h) n n4 h J t x3 U4 Ht Hf Hx4) with (s := r); [| | | |exact St]|intros [] n' [HA _]; exact HA].
  - rewrite O4, S4. apply Q3.
  - rewrite S4. apply Q3.
  - intros o Ho. rewrite F4, lookup_insert_ne by done. by rewrite (qu_run _ _ _ Q3).
  - left. rewrite O4. cbn in *. by rewrite K2.
Qed.
(** ** Answers *)
Lemma called_ok n h J k t l1 l2 n' acc : net_ok n h J -> calling h = l1 ++ ovl k t :: l2 -> run (ioq_ n') = run (ioq_ n) ->
  pending (os n') = pending (os n) -> (forall u, is_Some (socks n' !! u) <-> is_Some (socks n !! u)) ->
  socks_ok (socks n') (opened (os n')) acc -> (forall u, acc u <-> accepting n h u /\ (k = CA -> u <> t)) ->
  net_ok n' (mk_hist (l1 ++ l2) (asked h) (called h ++ [ovl k t])) J.
Proof.
  intros H El Er Ep Hd Hs Ha. pose proof (user_answered _ _ _ _ (l1 ++ l2) _ _ _ (nk_user _ _ _ H) El) as Hfree. split.
  - eapply user_called; [apply H|done|rewrite Er; apply H|done].
  - intros u. rewrite Hd. apply H.
  - intros k' t' Ht' Hn. unfold func_of. rewrite Er. apply (nk_funcs _ _ _ H); [done|]. intros Hf. apply Hn.
    destruct (decide (ovl k' t' = ovl k t)) as [->|E]; [done|]. by apply free_called.
  - apply (socks_acc _ _ _ Hs). intros u z _. rewrite Ha. unfold accepting, func_of. rewrite Er.
    destruct (decide (ovl CA u = ovl k t)) as [E|E].
    + rewrite E. apply win_ovl_inj in E as [<- ->]. split; [by intros [? _]|]. intros [_ []]; done.
    + rewrite (free_called h _ (ovl k t) (ovl CA u)) by done. split; [|by intros [? _]].
      intros Hc. split; [done|]. by intros -> ->.
Qed.

Lemma wp_ca_result acc n t x : socks_ok (socks n) (opened (os n)) acc -> socks n !! t = Some x ->
  wp (ca_result t) n (fun _ n' => quiet acc n n' /\ exists e, socks n' = <[t := set_ca_error e x]> (socks n)).
Proof.
  intros H Hx. unfold ca_result. wp_bind. apply (wp_win_get_sock t x); [done|]. destruct (ca_error (ca x) =? WSA_IO_PENDING).
  - wp_bind. apply wp_wcall. intros k [ok [m e]] E. pose proof (wsa_result_keeps (ca_sock (ca x)) (ovl CA t) (os n)) as Hk.
    cbn in E, Hk. rewrite E in Hk. destruct Hk as (K1 & _ & K3). set (n1 := mk_net _ _).
    assert (quiet acc n n1) as Q1 by by apply quiet_keeps. apply (wp_win_upd t _ x); [done|]. split; [|by eexists].
    eapply quiet_trans; [exact Q1|]. eapply quiet_data; [apply Q1|done..].
  - apply wp_ret. split; [by destruct n; apply quiet_keeps|]. exists (ca_error (ca x)). rewrite insert_id; [done|].
    rewrite Hx. by destruct x as [? [] ? ?].
Qed.

Lemma wp_connect_done acc n t x : socks_ok (socks n) (opened (os n)) acc -> socks n !! t = Some x ->
  wp (connect_done t) n (fun fn n' => fn = ca_func (ca x) /\ quiet acc n n').
Proof.
  intros H Hx. unfold connect_done. wp_bind. eapply wp_mono; [by eapply wp_ca_result|]. intros [] n1 [Q [e E]].
  wp_bind. apply (wp_win_get_sock t (set_ca_error e x)); [rewrite E; apply lookup_insert_eq|]. by apply wp_ret.
Qed.

Lemma wp_accept_done acc n t x : socks_ok (socks n) (opened (os n)) acc -> socks n !! t = Some x -> acc t ->
  wp (accept_done t) n (fun fn n' => fn = ca_func (ca x) /\ run (ioq_ n') = run (ioq_ n) /\ pending (os n') = pending (os n) /\
    (forall u, is_Some (socks n' !! u) <-> is_Some (socks n !! u)) /\
    socks_ok (socks n') (opened (os n')) (fun u => acc u /\ u <> t)).
Proof.
  intros H Hx Hat. unfold accept_done. wp_bind. eapply wp_mono; [by eapply wp_ca_result|]. intros [] n1 [[Q1 Q2 Q3 Q4] [e E]].
  set (x1 := set_ca_error e x) in *. assert (socks n1 !! t = Some x1) as Hx1 by (rewrite E; apply lookup_insert_eq).
  wp_bind. apply (wp_win_get_sock t x1); [done|]. set (x2 := set_accept_sock INVALID_SOCKET x1).
  assert (forall n2, socks n2 !! t = Some x1 -> run (ioq_ n2) = run (ioq_ n1) -> pending (os n2) = pending (os n1) ->
    (forall u, is_Some (socks n2 !! u) <-> is_Some (socks n1 !! u)) ->
    socks_ok (<[t := x2]> (socks n2)) (opened (os n2)) (fun u => acc u /\ u <> t) ->
    wp (upd t (set_accept_sock INVALID_SOCKET);; x ← get_sock t; ret (ca_func (ca x))) n2 (fun fn n' => fn = ca_func (ca x) /\
      run (ioq_ n') = run (ioq_ n) /\ pending (os n') = pending (os n) /\
      (forall u, is_Some (socks n' !! u) <-> is_Some (socks n !! u)) /\ socks_ok (socks n') (opened (os n')) (fun u => acc u /\ u <> t))) as Hend.
  { intros n2 E1 E2 E3 E4 E5. wp_bind. apply (wp_win_upd t _ x1); [done|]. wp_bind. apply (wp_win_get_sock t x2); [apply lookup_insert_eq|].
    apply wp_ret. split_and!; [done|cbn; congruence|cbn; congruence| |done]. intros u. rewrite <- Q3, <- E4. by eapply dom_insert_at. }
  assert (forall u, u <> t -> acc u /\ u <> t <-> acc u) as Ha by (intros u Hu; by split; [intros []|]). assert (~ (acc t /\ t <> t)) as Hn by by intros [_ ?].
  destruct (truth (ca_error (ca x1))).
  - pose proof (socks_dropped _ _ _ Q4 t x1 x2 (fun u => acc u /\ u <> t) Hx1 eq_refl eq_refl Hn Ha) as Hs.
    unfold close_of, slot in Hs. wp_bind. destruct (net_sock_is_valid (ca_accept_sock (ca x1))) eqn:Hv; cbn [when].
    + apply wp_win_close; [by eapply socks_open_accept|]. destruct (close_closes (ca_accept_sock (ca x1)) (os n1)) as [C1 C2].
      rewrite <- C2 in Hs. by apply Hend.
    + apply wp_ret. by apply Hend.
  - destruct (lk_client _ _ (so_links _ _ _ Q4) t x1 Hx1 Hat) as (c & y & Ec & Hct & Hc & _).
    destruct (socks_given _ _ _ Q4 t x1 x2 (fun u => acc u /\ u <> t) Hx1 Hat eq_refl eq_refl Hn Ha c y Ec Hc) as [_ Hs].
    wp_bind. wp_bind. apply (wp_need _ c); [done|]. apply (wp_win_upd c _ y); [done|].
    apply Hend; [cbn; by rewrite lookup_insert_ne|done|done| |done]. intros u. by eapply dom_insert_at.
Qed.

(** A callback finds the size 0 when it finds an error. *)
Definition win_reported (k : kind) (x : asock) : Prop := k <> CA -> r_error (io k x) <> 0 -> r_size (io k x) = 0.

Lemma wp_io_done acc n k t x : k <> CA -> socks_ok (socks n) (opened (os n)) acc -> socks n !! t = Some x ->
  wp (io_done k t) n (fun fn n' => fn = r_func (io k x) /\ quiet acc n n' /\ exists y, socks n' !! t = Some y /\ win_reported k y).
Proof.
  intros Hk H Hx. unfold io_done. wp_bind. apply (wp_win_get_sock t x); [done|]. wp_bind.
  assert (forall n1 x1, quiet acc n n1 -> socks n1 !! t = Some x1 -> r_func (io k x1) = r_func (io k x) ->
    wp (x ← get_sock t; when (truth (r_error (io k x))) (upd t (fun x => set_io k (with_size 0 (io k x)) x));; ret (r_func (io k x))) n1
      (fun fn n' => fn = r_func (io k x) /\ quiet acc n n' /\ exists y, socks n' !! t = Some y /\ win_reported k y)) as Hend.
  { intros n1 x1 Q Hx1 Ef. wp_bind. apply (wp_win_get_sock t x1); [done|]. wp_bind. destruct (truth _) eqn:Et; cbn [when].
    - apply (wp_win_upd t _ x1); [done|]. apply wp_ret. split; [done|]. split.
      + eapply quiet_trans; [exact Q|]. eapply quiet_data; [apply Q|done|by destruct k..].
      + eexists. split; [apply lookup_insert_eq|]. by destruct k.
    - apply wp_ret, wp_ret. split; [done|]. split; [done|]. exists x1. split; [done|]. apply truth_false in Et. by intros _ []. }
  destruct (r_error _ =? WSA_IO_PENDING).
  - wp_bind. apply wp_wcall. intros kk [ok [m e]] E. pose proof (wsa_result_keeps (r_sock (io k x)) (ovl k t) (os n)) as Hkk.
    cbn in E. rewrite E in Hkk. destruct Hkk as (K1 & _ & K3). set (n1 := mk_net _ _).
    assert (quiet acc n n1) as Q1 by by apply quiet_keeps. apply (wp_win_upd t _ x); [done|].
    eapply Hend; [|apply lookup_insert_eq|by destruct k]. eapply quiet_trans; [exact Q1|].
    eapply quiet_data; [apply Q1|done|by destruct k..].
  - apply wp_ret. apply (Hend n x); [by destruct n; apply quiet_keeps|done|done].
Qed.
Lemma wp_win_call n h J l1 o l2 : net_ok n h J -> calling h = l1 ++ o :: l2 -> exists k t f x, o = ovl k t /\ t ∈ X /\
  func_of n k t = Some f /\ socks n !! t = Some x /\
  wp (call_task o f) n (fun fn n' => fn = callback k x /\ (exists y, socks n' !! t = Some y /\ win_reported k y) /\
    net_ok n' (mk_hist (l1 ++ l2) (asked h) (called h ++ [o])) J).
Proof.
  intros H El. assert (o ∈ calling h) as Hi by (rewrite El; set_solver).
  destruct (mine_ovl_of o) as (k & t & -> & Ht); [apply (uo_mine _ _ _ _ (nk_user _ _ _ H)); by right|].
  assert (~ free h (ovl k t)) as Hn.
  { intros Hf. by destruct (user_free _ _ _ _ _ (nk_user _ _ _ H) (win_mine k t Ht) Hf) as (_ & _ & ?). }
  destruct (nk_funcs _ _ _ H k t Ht Hn) as (f & Ef & Hr). destruct (proj1 (nk_dom _ _ _ H t) Ht) as [x Hx].
  exists k, t, f, x. split; [done|]. split; [done|]. split; [done|]. split; [done|].
  assert (forall acc n', quiet acc n n' -> (forall u, acc u <-> accepting n h u /\ (k = CA -> u <> t)) ->
    net_ok n' (mk_hist (l1 ++ l2) (asked h) (called h ++ [ovl k t])) J) as Hq.
  { intros acc n' [Q1 Q2 Q3 Q4]. by eapply called_ok. }
  unfold call_task. rewrite container_ovl. destruct k; cbn in Hr.
  - assert (forall n', is_Some (socks n' !! t) -> exists y, socks n' !! t = Some y /\ win_reported CA y) as Hrep by (intros n' [y Hy]; exists y; split; [exact Hy|]; intros Hc; by destruct Hc).
    destruct Hr as [-> | ->]; cbn.
    + eapply wp_mono; [apply (wp_accept_done (accepting n h) n t x); [apply H|done|split; [exact Hn|exact Ef]]|].
      intros fn n' (-> & E1 & E2 & E3 & E4). split; [done|]. split; [apply Hrep, E3; by exists x|].
      eapply (called_ok n h J CA t); try done. intros u. naive_solver.
    + eapply wp_mono; [apply (wp_connect_done (accepting n h) n t x); [apply H|done]|]. intros fn n' [-> Q].
      split; [done|]. split; [apply Hrep, Q; by exists x|]. eapply Hq; [exact Q|]. intros u. split; [|by intros []]. intros Hu. split; [done|].
      intros _ ->. destruct Hu as [_ Hu]. rewrite Ef in Hu. done.
  - subst f. cbn. eapply wp_mono; [apply (wp_io_done (accepting n h) n SEND t x); [done|apply H|done]|]. intros fn n' (-> & Q & Hy).
    split; [done|]. split; [done|]. eapply Hq; [exact Q|]. naive_solver.
  - subst f. cbn. eapply wp_mono; [apply (wp_io_done (accepting n h) n RECV t x); [done|apply H|done]|]. intros fn n' (-> & Q & Hy).
    split; [done|]. split; [done|]. eapply Hq; [exact Q|]. naive_solver.
Qed.

(** ** The functions of the clients *)
Definition cb n k t : option Z := callback k <$> socks n !! t.

(** [m] leaves those with [P] alone. *)
Definition still (P : kind -> positive -> Prop) {A} (m : M (net K) A) : Prop :=
  forall n n' a, m n = Ok (n', a) -> forall k t, P k t -> cb n' k t = cb n k t.

Lemma bind_Ok {A B} (m : M (net K) A) (f : A -> M (net K) B) n n' b : bind m f n = Ok (n', b) ->
  exists n1 a, m n = Ok (n1, a) /\ f a n1 = Ok (n', b).
Proof. unfold bind. destruct (m n) as [[n1 a]| |]; [by eexists _, _|done..]. Qed.
Lemma cb_upd t u n n' k t' : upd t u n = Ok (n', tt) -> exists x, socks n !! t = Some x /\
  cb n' k t' = if decide (t' = t) then Some (callback k (u x)) else cb n k t'.
Proof.
  unfold upd, get_sock, need, bind, get, modify. destruct (socks n !! t) as [x|] eqn:E; [|done]. intros [= <-]. exists x. split; [done|].
  unfold cb. cbn. destruct (decide (t' = t)) as [->|]; [by rewrite lookup_insert_eq|by rewrite lookup_insert_ne].
Qed.

Section still.
Context (P : kind -> positive -> Prop).
Lemma still_bind {A B} (m : M (net K) A) (f : A -> M (net K) B) : still P m -> (forall a, still P (f a)) -> still P (bind m f).
Proof. intros Hm Hf n n' b (n1 & a & E1 & E2)%bind_Ok k t Hp. rewrite (Hf a _ _ _ E2 k t Hp). by apply (Hm _ _ _ E1). Qed.
Lemma still_ret {A} (a : A) : still P (ret a).
Proof. by intros n n' b [= <- _]. Qed.
Lemma still_crash {A} : still P (A := A) crash.
Proof. done. Qed.
Lemma still_get : still P get.
Proof. by intros n n' b [= <- _]. Qed.
Lemma still_on_ioq {A} (m : M (ioq K) A) : still P (on_ioq m).
Proof. intros n n' a. unfold on_ioq. by destruct (m _) as [[q b]| |]; intros [= <- _]. Qed.
Lemma still_upd t u : (forall k x, P k t -> callback k (u x) = callback k x) -> still P (upd t u).
Proof.
  intros Hu n n' [] E k t' Hp. destruct (cb_upd t u n n' k t' E) as (x & Hx & ->).
  destruct (decide (t' = t)) as [->|]; [|done]. unfold cb. rewrite Hx. cbn. by rewrite Hu.
Qed.
End still.
Ltac still_tac := repeat lazymatch goal with
  | |- forall _, _ => intro
  | |- still _ (bind _ _) => apply still_bind
  | |- still _ (ret _) => apply still_ret
  | |- still _ crash => apply still_crash
  | |- still _ get => apply still_get
  | |- still _ (on_ioq _) => apply still_on_ioq
  | |- still _ (match ?b with _ => _ end) => destruct b
  | |- still _ (upd _ _) => apply still_upd; let k := fresh in intros k; intros; by destruct k
  | |- _ => progress unfold wcall, close, trigger, get_sock, need, when
  end.

Lemma still_ca_fails P t e : still P (ca_fails t e).
Proof. unfold ca_fails. still_tac. Qed.
Lemma still_call P o f : still P (call_task (K := K) o f).
Proof.
  unfold call_task, accept_done, connect_done, ca_result, send_done, recv_done, io_done. still_tac.
Qed.
Lemma still_close P t : still P (asock_close (K := K) t).
Proof. unfold asock_close. still_tac. Qed.
Lemma still_listen P t sa len : still P (asock_listen (K := K) t sa len).
Proof. unfold asock_listen, fresh_socket, listen_fails. still_tac. Qed.

(** A request gives its function, and leaves the others alone. *)
Definition others (k : kind) (t : positive) (k' : kind) (t' : positive) : Prop := ovl k' t' <> ovl k t.
Lemma others_upd k t u : (forall k' x, k' <> k -> callback k' (u x) = callback k' x) -> still (others k t) (upd t u).
Proof. intros Hu. apply still_upd. intros k' x Ho. apply Hu. by intros ->. Qed.
Definition gave k t func n n' : Prop := cb n' k t = Some func /\ forall k' t', others k t k' t' -> cb n' k' t' = cb n k' t'.
Lemma gives k t u func (m : M (net K) unit) :
  (forall x, callback k (u x) = func) -> (forall k' x, k' <> k -> callback k' (u x) = callback k' x) -> (forall P, still P m) ->
  forall n n', (upd t u;; m) n = Ok (n', tt) -> gave k t func n n'.
Proof.
  intros Hu Ho Hm n n' E. split.
  - apply bind_Ok in E as (n1 & [] & E1 & E2). rewrite (Hm (fun _ _ => True) _ _ _ E2) by done.
    destruct (cb_upd t u n n1 k t E1) as (x & _ & ->). by rewrite decide_True, Hu.
  - apply (still_bind (others k t) _ _ (others_upd k t u Ho) (fun _ => Hm _) _ _ _ E).
Qed.

Lemma still_connect t sa len func : still (others CA t) (asock_connect (K := K) t sa len func).
Proof.
  unfold asock_connect, fresh_socket, started, ca_fails.
  repeat first [ apply others_upd; by intros [] | progress still_tac ].
Qed.

Lemma request_gives n h t x k func m n' : request n h t x k func m -> m n = Ok (n', tt) ->
  ((exists sa len, m = asock_connect t sa len func) -> connecting n' t func) ->
  gave k t func n n'.
Proof.
  intros Hr E Hc. destruct Hr as [data len fn _|data len fn _|c y fn _ _ _ _ _|sa len fn _].
  - revert E. apply gives; [done|by intros []|]. still_tac.
  - revert E. apply gives; [done|by intros []|]. still_tac.
  - revert E. apply gives; [done|by intros []|]. unfold started, ca_fails. still_tac.
  - split; [destruct Hc as (_ & z & Hz & <-); [by eexists _, _|unfold cb; by rewrite Hz]|].
    revert E. apply still_connect.
Qed.

(** * Every state *)
Definition net_good (y : asys K) : Prop :=
  (exists J, net_ok (net_ y) (th y) J) /\
  forall k t, t ∈ X -> ~ free (th y) (ovl k t) -> cb (net_ y) k t = given y !! ovl k t.

Lemma free_reserved n h t : ~ reserved n h t -> unreserved (socks n) (accepting n h) t.
Proof. intros Hr u z Hu Hau Ec. apply Hr. by exists u, z. Qed.

(** The last step of a request: its guards. *)
Lemma wp_win_request n h g J t k func m : net_ok n h J -> allowed (mk_asys n h g) t k func m ->
  wp m n (fun _ n' => ((exists sa len, m = asock_connect t sa len func) -> connecting n' t func) ->
    exists J', net_ok n' (ask h (ovl k t)) J').
Proof.
  intros H (Hf & x & Hx & Hr). cbn [th net_] in *. assert (t ∈ X) as Ht by (apply (nk_dom _ _ _ H); by eexists).
  destruct Hr as [data len fn Hin|data len fn Hin|c y fn Hin Hc Hy Iy Hr|sa len fn Hr].
  - eapply wp_mono; [apply (wp_io n h J SEND SEND_DONE wsa_send t x); [done|done|done|done|done|apply send_starts|done]|].
    intros [] n' [HA Ef] _. eapply asked_net_ok; [done|done|done|exact HA|by eexists|done|done].
  - eapply wp_mono; [apply (wp_io n h J RECV RECV_DONE wsa_recv t x); [done|done|done|done|done|apply recv_starts|done]|].
    intros [] n' [HA Ef] _. eapply asked_net_ok; [done|done|done|exact HA|by eexists|done|done].
  - eapply wp_mono; [by apply (wp_win_accept n h J t c fn x y)|]. intros [] n' [HA Ef] _.
    eapply asked_net_ok; [done|done|done|exact HA|eexists; split; [done|by left]| |].
    + intros u Hu. specialize (Hu eq_refl). naive_solver.
    + intros _. split; [intros _; exact Ef|by right].
  - eapply wp_mono; [by apply (wp_win_connect n h J t sa len fn x)|]. intros [] n' HA Hg. destruct Hg as [Hg _]; [by eexists _, _|].
    eapply asked_net_ok; [done|done|done|exact HA|eexists; split; [done|by right]|done|].
    intros _. rewrite Hg. split; [|done]. intros Hc. by destruct (free_not_accepting n h t Hf).
Qed.

Lemma good_astep y y' : net_good y -> astep X y y' -> net_good y'.
Proof.
  intros [[J H] Hg] Hs.
  destruct Hs as [n h g q' h' Hp|n h g l1 o l2 f n' fn El Ef E|n h g k Hkp|n h g t k fn m n' Ha E Gc|n h g t sa len n' r Ht Hf Hr E|n h g t n' Ht E];
    unfold net_good; cbn [net_ th given] in *.
  - destruct (port_step_keeps _ _ _ _ _ _ (nk_user _ _ _ H) Hp) as (J' & Hu & [Hf Hk] & Ea & Ec).
    assert (forall k t, free h' (ovl k t) <-> free h (ovl k t)) as Hfr by (intros k t; unfold free, asked_n, called_n; by rewrite Ea, Ec).
    split; [exists J'|intros k t Ht Hn; apply (Hg k t Ht); by rewrite <- Hfr].
    assert (opened (kern q') = opened (os n)) as Eo by (destruct Hk as [->|[[t ->]| ->]]; [done|apply packet_opened|apply null_opened]).
    split; cbn; [done|apply H|..].
    + intros k t Ht Hn. unfold func_of. cbn. rewrite Hf by by apply win_mine. apply (nk_funcs _ _ _ H); [done|]. by rewrite <- Hfr.
    + rewrite Eo. apply (socks_acc _ _ _ (nk_socks _ _ _ H)). intros t x Hx. unfold accepting. rewrite Hfr. unfold func_of. cbn.
      assert (t ∈ X) as Ht by (apply (nk_dom _ _ _ H); by exists x). by rewrite Hf by by apply (win_mine CA).
  - destruct (wp_win_call n h J l1 o l2 H El) as (k & t & f' & x & -> & Ht & Ef' & _ & Hw). unfold func_of in Ef'. rewrite Ef in Ef'. injection Ef' as <-.
    split; [exists J; destruct (wp_result _ _ _ _ _ Hw E) as (_ & _ & H'); exact H'|].
    intros k' t' Ht' Hn. rewrite (still_call (fun _ _ => True) _ _ _ _ _ E) by done. apply (Hg k' t' Ht'). intros Hfr. apply Hn.
    destruct (decide (ovl k t = ovl k' t')) as [Eo|Hne]; [|by apply free_called].
    rewrite <- Eo. by eapply user_answered; [apply H|].
  - split; [|done]. exists J. destruct Hkp as (K1 & K2 & K3). eapply quiet_ok; [exact H|]. apply quiet_keeps; [apply H|done..].
  - split; [exact (wp_result _ _ _ _ _ (wp_win_request n h g J t k fn m H Ha) E Gc)|].
    destruct Ha as (_ & x & _ & Hr). destruct (request_gives _ _ _ _ _ _ _ _ Hr E Gc) as [E1 E2].
    intros k' t' Ht' Hn. destruct (decide (ovl k' t' = ovl k t)) as [Eo|Hne].
    + rewrite Eo, lookup_insert_eq. by apply win_ovl_inj in Eo as [-> ->].
    + rewrite lookup_insert_ne, (E2 k' t' Hne) by congruence. apply (Hg k' t' Ht'). by rewrite free_ask in Hn by congruence.
  - destruct (proj1 (nk_dom _ _ _ H t) Ht) as [x Hx].
    split; [|intros k' t' Ht' Hn; rewrite (still_listen (fun _ _ => True) _ _ _ _ _ _ E) by done; by apply Hg].
    exists J. eapply quiet_ok; [exact H|].
    exact (wp_result _ _ _ _ _ (wp_asock_listen _ n t x sa len (nk_socks _ _ _ H) Hx (free_reserved _ _ _ Hr)) E).
  - destruct (proj1 (nk_dom _ _ _ H t) Ht) as [x Hx].
    split; [|intros k' t' Ht' Hn; rewrite (still_close (fun _ _ => True) _ _ _ _ E) by done; by apply Hg].
    exists J. eapply quiet_ok; [exact H|].
    exact (proj1 (wp_result _ _ _ _ _ (wp_asock_close _ n t x (nk_socks _ _ _ H) Hx) E)).
Qed.

Lemma good_areach y : areach X y -> net_good y.
Proof.
  induction 1 as [q J Hp Ho Hj Hn Hfn|y y' _ IH Hs]; [|by eapply good_astep].
  assert (forall o, free (mk_hist [] [] []) o) as Hfr by done. split; [|intros k t _ Hb; by destruct (Hb (Hfr _))]. exists J.
  split; cbn [net_ th socks ioq_]; [split; [done| |]|..].
  - rewrite Hp. intros o [Ho'|Ho']; [by apply elem_of_empty in Ho'|by apply elem_of_nil in Ho'].
  - intros o Hm. specialize (Hn o Hm). rewrite list_elem_of_In, (count_occ_In Pos.eq_dec) in Hn. unfold place, asked_n, called_n. cbn.
    rewrite Hp, bool_decide_eq_false_2 by set_solver. simpl. lia.
  - intros t. rewrite lookup_gset_to_gmap. case_guard; split; [by eexists|done|done|intros [? [=]]].
  - intros k t _ []. apply Hfr.
  - assert (forall t x, gset_to_gmap new_sock X !! t = Some x -> x = new_sock) as Hx.
    { intros t x. rewrite lookup_gset_to_gmap. case_guard; [by intros [= <-]|done]. }
    split; [|split].
    + rewrite Ho. split.
      * intros i. split; [by intros ?%elem_of_empty|]. intros [[t b] Hi]. unfold held in Hi. cbn in Hi.
        destruct (gset_to_gmap new_sock X !! t) as [x|] eqn:E; [|done]. apply Hx in E as ->. by destruct b.
      * intros [t b] k' i Hi _. unfold held in Hi. cbn in Hi.
        destruct (gset_to_gmap new_sock X !! t) as [x|] eqn:E; [|done]. apply Hx in E as ->. by destruct b.
    + intros t x _ [Ha _]. by destruct Ha.
    + intros t u x y _ _ [Ha _]. by destruct Ha.
    + by intros t x ->%Hx _.
Qed.

(** C8. Sockets on Windows: in every interleaving each request is answered by exactly
    one callback, the one it was given, which finds the size 0 when it finds an
    error; until then the operating system, the run queue or the function of its task
    has it.  Every socket that is open is that of one object, or is held by one accept
    for its client: none leaks, none is closed twice.  No permitted call goes wrong,
    and a socket that has been closed is invalid.  The requests are one of each kind at a
    time: sends, receives and accepts, but not on a socket that a listen or a connect
    could not bind, and the connects that get a socket which can be bound: one that
    does not is answered by whatever its task was last used for, which the first time
    is a NULL pointer ([connect_fails_crashes], [connect_fails_stale]). *)
Theorem asock_win_serves (y : asys K) : areach X y ->
  (forall k t, t ∈ X -> free (th y) (ovl k t) \/
     asked_n (th y) (ovl k t) = Datatypes.S (called_n (th y) (ovl k t)) /\ underway (ioq_ (net_ y)) (th y) (ovl k t)) /\
  owners (opened (os (net_ y))) (held (socks (net_ y))) /\
  (forall t k fn m, allowed y t k fn m -> ends m (net_ y)) /\
  (forall l1 o l2, calling (th y) = l1 ++ o :: l2 -> exists k t f, o = ovl k t /\ func_of (net_ y) k t = Some f /\
     wp (call_task o f) (net_ y) (fun fn n' => given y !! o = Some fn /\ exists z, socks n' !! t = Some z /\ win_reported k z)) /\
  (forall t, t ∈ X -> wp (asock_close t) (net_ y) (fun _ n' => exists z, socks n' !! t = Some z /\ sock z = INVALID_SOCKET) /\
     ends (asock_destroy t) (net_ y) /\
     (~ reserved (net_ y) (th y) t -> forall sa len, ends (asock_listen t sa len) (net_ y))).
Proof.
  intros [[J H] Hg]%good_areach. split; [|split; [apply H|split; [|split]]].
  - intros k t Ht. eapply user_underway; [apply H|by apply win_mine].
  - intros t k fn m Ha. destruct y as [n h g]. eapply ends_wp. by eapply wp_win_request.
  - intros l1 o l2 El. destruct (wp_win_call _ _ _ _ _ _ H El) as (k & t & f & x & -> & Ht & Ef & Hx & Hw). exists k, t, f.
    split; [done|]. split; [done|]. eapply wp_mono; [exact Hw|]. intros fn n' (-> & Hz & _). split; [|done].
    assert (~ free (th y) (ovl k t)) as Hn.
    { intros Hf. destruct (user_free _ _ _ _ _ (nk_user _ _ _ H) (win_mine k t Ht) Hf) as (_ & _ & Hc). apply Hc. rewrite El. set_solver. }
    rewrite <- (Hg k t Ht Hn). unfold cb. by rewrite Hx.
  - intros t Ht. destruct (proj1 (nk_dom _ _ _ H t) Ht) as [x Hx]. pose proof (nk_socks _ _ _ H) as Hs. split_and!.
    + eapply wp_mono; [by apply (wp_asock_close _ _ t x Hs)|]. by intros [] n' [_ ?].
    + eapply (ends_wp _ _ (fun _ _ => True)). unfold asock_destroy. wp_bind. apply (wp_win_get_sock t x); [done|].
      destruct (net_sock_is_valid (sock x)) eqn:Hv; [|done]. apply wp_win_close; [by eapply socks_open|done].
    + intros Hr sa len. eapply ends_wp. apply (wp_asock_listen _ _ t x sa len Hs Hx). by apply free_reserved.
Qed.
End steps.

(** * Sockets, for examples

    Two sockets at most are open. *)
Definition ex_fresh (X : gset Z) : Z := if decide (7 ∈ X) then if decide (8 ∈ X) then INVALID_SOCKET else 8 else 7.
Definition ex_starts (o : positive) (k : ex_kern) : ex_kern * (bool * Z) :=
  (mk_kern ({[o]} ∪ ex_pending k) (ex_bound k) (ex_open k) (ex_mode k), if ex_mode k =? 1 then (true, 0) else (false, WSA_IO_PENDING)).
#[export] Instance ex_win_sockets : WinSockets ex_kern := {
  opened k := ex_open k ∖ {[INVALID_SOCKET]};
  wsa_socket k := let s := if ex_mode k =? 2 then INVALID_SOCKET else ex_fresh (ex_open k) in
    (mk_kern (ex_pending k) (ex_bound k) (if net_sock_is_valid s then {[s]} ∪ ex_open k else ex_open k) (ex_mode k), (s, 10024));
  wsa_bind _ _ _ k := (k, 0);
  wsa_listen _ k := (k, 0);
  accept_ex _ _ o k := ex_starts o k;
  connect_ex _ _ _ o k := ex_starts o k;
  wsa_send _ _ _ o k := ex_starts o k;
  wsa_recv _ _ _ o k := ex_starts o k;
  wsa_result _ _ k := (k, (true, (5, 0)));
  wsa_shutdown _ k := k;
  closesocket s k := mk_kern (ex_pending k) (ex_bound k) (ex_open k ∖ {[s]}) (ex_mode k);
}.

Lemma ex_starts_ok s o k : starts s o k (ex_starts o k).
Proof. unfold starts, ex_starts. by destruct (ex_mode k =? 1). Qed.
#[export] Instance ex_win_sockets_laws : WinSocketsLaws ex_kern.
Proof.
  split; try done.
  - intros k. cbn. set_solver.
  - intros k k' r e. cbn -[ex_fresh]. set (s := if ex_mode k =? 2 then INVALID_SOCKET else ex_fresh (ex_open k)). intros [= <- <- <-].
    split; [done|]. split; [done|]. cbn. destruct (net_sock_is_valid s) eqn:Hv; [|done].
    assert (s ∉ ex_open k) as Hn.
    { subst s. destruct (ex_mode k =? 2); [done|]. unfold ex_fresh in *. destruct (decide (7 ∈ _)); [|done]. by destruct (decide (8 ∈ _)). }
    assert (s <> INVALID_SOCKET) as Hi by (intros ->; done). set_solver.
  - intros. apply ex_starts_ok.
  - intros. apply ex_starts_ok.
  - intros. apply ex_starts_ok.
  - intros. apply ex_starts_ok.
  - intros s k. cbn. split; [done|]. set_solver.
  - intros t k. cbn. by destruct (elements (ex_pending k)).
Qed.

Definition ex_net (mode : Z) : net ex_kern := mk_net {[ 1%positive := new_sock ]} (ex_iocp ∅ ∅ 0 mode).
Definition ex_serve : M (net ex_kern) Z :=
  r ← on_ioq (on_runq run_one);
  t ← need r.2; n ← get; f ← need (Runq.func (run (ioq_ n)) !! t); call_task t f.

(** An accept gives its socket to its client. *)
Example accept_gives : exists n y, (_ ← asock_listen 1 0 16; asock_accept 1 2 9;; on_ioq (poll 0);; ex_serve)
    (mk_net {[ 1%positive := new_sock; 2%positive := new_sock ]} (ex_iocp ∅ ∅ 0 0)) = Ok (n, 9) /\
  socks n !! 2%positive = Some y /\ sock y = 8.
Proof. do 2 eexists. by vm_compute. Qed.

(** A connect that gets no socket submits its task before the function of the task
    has been set: at the first one, the queue calls a NULL pointer. *)
Example connect_fails_crashes : (asock_connect 1 9 16 5;; ex_serve) (ex_net 2) = Crash.
Proof. by vm_compute. Qed.

(** Later, the callback of the request before it is called: here that of the connect
    that was given 4. *)
Definition refuse : M (net ex_kern) unit := on_ioq (kcall (fun k => (mk_kern (ex_pending k) (ex_bound k) (ex_open k) 2, tt))).
Example connect_fails_stale : exists n, (asock_connect 1 9 16 4;; on_ioq (poll 0);; _ ← ex_serve; refuse;;
  asock_connect 1 9 16 5;; ex_serve) (ex_net 0) = Ok (n, 4).
Proof. eexists. by vm_compute. Qed.

(** A connection is made: the callback is about to be called. *)
Definition ex_end {A} (m : M (net ex_kern) A) (n : net ex_kern) : net ex_kern := match m n with Ok (n', _) => n' | _ => n end.
Definition ex_connecting : net ex_kern := ex_end (asock_connect 1 9 16 5) (ex_net 0).
Definition ex_packet : net ex_kern := ex_end (on_ioq (poll 0)) ex_connecting.
Definition ex_taken_run : runq := match run_one (run (ioq_ ex_packet)) with Ok (r, _) => r | _ => run (ioq_ ex_packet) end.
Definition ex_taken : net ex_kern := mk_net (socks ex_packet) (set_run ex_taken_run (ioq_ ex_packet)).
Definition ex_X : gset positive := {[1%positive]}.
Definition ex_asys : asys ex_kern := mk_asys ex_taken (mk_hist [4%positive] [4%positive] []) {[4%positive := 5]}.

Lemma ex_net_reach : areach ex_X (mk_asys (ex_net 0) (mk_hist [] [] []) ∅).
Proof.
  replace (ex_net 0) with (mk_net (gset_to_gmap new_sock ex_X) (ex_iocp ∅ ∅ 0 0)) by by vm_compute.
  apply (a_start _ _ []); [done|by vm_compute| |by intros o _ ?%elem_of_nil|].
  - split; [split; [constructor|done]| |done]. intros o (k & t & -> & Ht%elem_of_singleton)%mine_ovl_of. subst t.
    destruct k; split; by eexists.
  - intros o (k & t & -> & Ht%elem_of_singleton)%mine_ovl_of. subst t. by destruct k.
Qed.

Lemma ex_taken_reach : areach ex_X ex_asys.
Proof.
  eapply a_next; [eapply a_next; [eapply a_next; [exact ex_net_reach|]|]|].
  - apply (a_request ex_X (ex_net 0) (mk_hist [] [] []) ∅ 1 CA 5 (asock_connect 1 9 16 5) ex_connecting).
    + split; [done|]. exists new_sock. split; [by vm_compute|]. apply req_connect. intros (t & x & _ & [Ha _] & _). by destruct Ha.
    + by vm_compute.
    + intros _. split; [by vm_compute|]. eexists. by vm_compute.
  - apply (a_port ex_X ex_connecting _ _ (ioq_ ex_packet) (mk_hist [] [4%positive] [])). apply (p_poll _ _ _ 0). by vm_compute.
  - apply (a_port ex_X ex_packet _ _ (ioq_ ex_taken) (mk_hist [4%positive] [4%positive] [])).
    pose proof (p_call (mine ex_X) (ioq_ ex_packet) (mk_hist [] [4%positive] []) ex_taken_run 4%positive) as Hs.
    rewrite decide_True in Hs by (by vm_compute). apply Hs. by vm_compute.
Qed.

Lemma asock_win_serves_witness : areach ex_X ex_asys /\
  (exists f, wp (call_task 4 f) ex_taken (fun fn n' => fn = 5)) /\ opened (kern (ioq_ ex_taken)) = {[7]} /\
  ends (asock_recv 1 100 64 6) ex_taken /\
  wp (asock_close 1) ex_taken (fun _ n' => exists z, socks n' !! 1%positive = Some z /\ sock z = INVALID_SOCKET).
Proof.
  split; [exact ex_taken_reach|]. destruct (asock_win_serves ex_X ex_asys ex_taken_reach) as (_ & _ & H3 & H4 & H5). split_and!.
  - destruct (H4 [] 4%positive [] eq_refl) as (k & t & f & Eo & Ef & Hw). exists f.
    eapply wp_mono; [exact Hw|]. intros fn n' [E _]. vm_compute in E. by injection E as <-.
  - by vm_compute.
  - apply (H3 1%positive RECV 6). split; [done|]. eexists. split; [by vm_compute|]. apply req_recv. right. by vm_compute.
  - apply H5. by vm_compute.
Defined.
